(* ===== verification/_CoqProject ===== *)
-Q . S2P
Prelude.v
Text.v
StrOps.v
OrderedMap.v
Limits.v
Words.v
Protocol.v
Clock.v
Float64.v
Origins.v
Net.v
Headers.v
CspSources.v
Csp.v
FetchRequest.v
Cors.v
Cookies.v
SimpleInstances.v
CspTheory.v
CookieTheory.v
HttpCache.v
FetchPolicy.v
FetchPipeline.v
FetchTheory.v
FetchAnswers.v
FetchSecurity.v
Keys.v
StructuredClone.v
ObjectStores.v
RecordOrder.v
StoreTheory.v
Cursors.v
Fs.v
CookieJar.v
Snapshots.v
WebStorage.v
Wire.v
WireTheory.v
PayloadFields.v
DevicePayloads.v
MediaPayloads.v
SensorPayloads.v
FramePayloads.v
LocalStore.v
StorageSync.v
Coordinator.v
Broadcast.v
BroadcastCodec.v
StatePayloads.v
SocketPayloads.v
Transfers.v
FileSelection.v
DocumentPayloads.v
FetchPayloads.v
RuntimePayloads.v
InputPayloads.v
Handshake.v
Messages.v
MessageTheory.v
Frames.v
PipeTheory.v
FrameSizes.v
IndexedDb.v
IdbTheory.v
CacheStore.v
CacheTheory.v
StorageManager.v
Scheduler.v
SchedulerTheory.v
FetchFlow.v
StateUpdates.v
Outbound.v
BulkTransfers.v
ChildState.v
Broker.v
EventQueue.v
DocumentTransfer.v
ChildFetch.v
BrokerTheory.v
FetchRoundTrip.v
