(* ===== verification/Prelude.v ===== *)
(** * The browser authority of the Breeze web browser: root of the development

    The program is a multi-process web browser in Rust. One process, the browser,
    owns everything a page must not be trusted with: the network and its policies,
    cookies, caches and all storage of the profile. The renderer processes ask it.
    This library models that authority and proves what it promises.

    ** The parts and where they are

    Foundations. Prelude.v: results, ordered maps, counting and automation.
    Text.v, StrOps.v: Rust's strings, UTF-8 and UTF-16, [str] methods. OrderedMap.v:
    [BTreeMap]. Float64.v: doubles as bit patterns. Clock.v: [SystemTime] and
    [Duration]. Net.v: IP literals. Limits.v: the budgets of
    crates/platform/src/limits.rs. Origins.v: src/fetch/url.rs and src/navigation.rs.

    The Fetch pipeline. A page's request passes these parts in this order:
    FetchRequest.v (src/fetch/request.rs, body.rs, cancellation.rs) builds and
    validates it; Csp.v and CspSources.v (src/fetch/csp.rs, csp/) decide whether the
    page's policy admits the target; Cors.v (src/fetch/cors.rs) decides on checks and
    preflights; Headers.v (src/fetch/headers.rs) guards the header list; FetchPolicy.v
    (src/winhttp/pipeline.rs, pipeline/metadata.rs) writes the browser's own headers;
    Cookies.v (src/winhttp/cookies/) supplies and stores cookies; HttpCache.v
    (src/winhttp/pipeline/cache.rs) answers or validates; FetchPipeline.v
    (src/winhttp/pipeline/stream.rs, client.rs) is the loop over all of them, with its
    redirects and streamed bodies. CookieJar.v (src/winhttp/cookies/persistence.rs)
    keeps the jar on disk.

    Storage. WebStorage.v (src/storage/string.rs, area.rs) is one origin's area;
    LocalStore.v (src/storage.rs, storage/changes.rs, persistence.rs) the stores of all
    origins with transactions; StorageSync.v (storage/projection.rs, synchronization.rs)
    a document's optimistic copy; Coordinator.v (storage/coordinator.rs) the authority
    all copies converge to. Keys.v, StructuredClone.v, ObjectStores.v, Cursors.v and
    IndexedDb.v are src/indexed_db/; CacheStore.v is src/cache_storage/;
    StorageManager.v adds the stores up (src/storage_manager.rs). Fs.v is a file system
    with faults and crashes and the recoverable savers; Snapshots.v the load and save of
    a whole store over it. Broadcast.v is src/broadcast_channel.rs.

    The pipe to a renderer (src/renderer_protocol.rs, renderer_protocol/). Words.v:
    integers and strings by their types, floats as bit patterns. Protocol.v:
    errors and identifiers. Wire.v is the primitive codec (wire.rs) and WireTheory.v the
    relation [carries] between a writer and the reader of what it writes. The messages,
    one file for each group with its types, validation and codec: DevicePayloads.v,
    MediaPayloads.v, SensorPayloads.v, FramePayloads.v, BroadcastCodec.v,
    StatePayloads.v, SocketPayloads.v, DocumentPayloads.v, FetchPayloads.v,
    RuntimePayloads.v, InputPayloads.v and Handshake.v; Messages.v is the dispatch over
    all of them (codec/payload.rs) and MessageTheory.v its round trips. Frames.v
    (codec.rs) is the framed stream and PipeTheory.v what arrives of it; FrameSizes.v
    compares messages with the limits of their frames. Transfers.v and FileSelection.v
    put chunks together again (document.rs, video.rs, file_picker.rs).

    The broker of a renderer (src/renderer_process/broker/) and the renderer's end of
    the connection (src/renderer_process/child/connection/). Broker.v (broker/worker.rs
    and worker/) turns a renderer's messages into events, batches and presentations and
    sends it documents, corrections and responses. It works with four queues:
    Outbound.v (outbound.rs) before the pipe, StateUpdates.v (state_updates.rs) of the
    corrections, FetchFlow.v (flow.rs) with the credit of the responses, and
    EventQueue.v (events.rs) of what the browser takes. ChildState.v (child/connection/
    state.rs, runtime.rs) puts a document together, ChildFetch.v (fetch.rs,
    fetch/state.rs) sends batches and collects responses; BulkTransfers.v is what both
    ends share. The theories run the two ends against each other: DocumentTransfer.v a
    document and its corrections, BrokerTheory.v a batch, FetchRoundTrip.v the responses
    to it. Between the ends is the pipe of Frames.v.

    The event loop. Scheduler.v is src/engine/scheduler.rs (tasks, timers, microtasks,
    render requests) and SchedulerTheory.v compares it with an agenda.

    ** How the code is translated

    A Rust [Result] is [result], an early return a bind; [&mut self] is a state passed
    and returned; a panic is a value ([None], [Panics] or an error of its own), and the
    theorems show it is not reached. Unsigned integers are [N] with their width written
    out where the code saturates, wraps or checks. A [HashMap] is a [gmap], a [BTreeMap]
    an ordered list, strings are byte sequences. A loop over a shrinking collection is
    structural. Loops that are not have fuel: the eviction of HttpCache.v takes the
    length of the queue, the body loops of FetchPipeline.v the byte limit and two (each
    chunk holds a byte), the redirect loop [MAX_REDIRECTS + 1] as in the source; the
    termination theorems prove the fuel suffices. A mutex held for one operation is one
    step; where a fetch lets go of a lock, [locked] lets the others run before it is
    taken again. A poisoned mutex is a state of its own where the code answers it with
    an error (the stores, the jar, the cache and the save of the jar); where the code
    takes the value out of the poison, it is no state. Code outside the repository is a class, with its documented laws where
    a proof needs them: [UrlLib], [UrlParts], [UrlJoin] (url), [PublicSuffixes] (psl2),
    [Calendar] (time), [Digests] (sha2, base64), the JSON classes (serde_json) and
    [Environment] (WinHTTP, data_url, clocks, other threads). SimpleInstances.v
    and the demo instances of the theories give concrete ones, on which
    the witnesses run.

    ** What the theorems show

    - Durability (LocalStore, IdbTheory, CacheTheory): under every schedule of file
      system failures and at every crash point, loading gives the state in memory once
      an operation has answered, and after a crash before its answer the state from
      before it or the one it would have answered with; a crash may come before or after
      the effect of the call it hits, the last rename included. The theorems name the
      one exception: a failed query for the existence of the state file, with a save that
      then fails, may put the older backup in its place ([Fs.failed_query_restores_backup]
      shows that it does). The jar of cookies (CookieJar) is durable on the same terms as
      long as its cookies are those the reader takes back. A refused or failed batch
      changes nothing in memory.
    - Agreement: every document's copy of an area, its queued updates applied, is the
      authority's (Coordinator, StorageSync); sessions of IndexedDB are serialisable
      while their database is not deleted (IdbTheory); broadcasts reach exactly their
      recipients (Broadcast).
    - Confinement: what leaves the browser in a fetch and what script may see of the
      answer (FetchSecurity, over the record FetchAnswers keeps of the replies a fetch
      got; Cors, CspTheory, Headers); what script and insecure addresses cannot do to
      protected cookies while nothing is evicted (CookieTheory); a cached answer is only
      given to the partition it was stored for (HttpCache).
    - Well-formedness and bounds: invariants of the stores, the jar, the caches and the
      queues under their operations; exact quotas; overflow where counters can reach it.
    - Equivalence: object stores are ordered maps (StoreTheory), areas are maps
      (WebStorage), index views are the sorted projection of the records (Cursors).
    - Delivery: over a pipe that breaks at any byte, what one side sent is what the
      other reads, in order and unchanged, for the messages the other side's reader takes
      back ([browser_sendable], [renderer_sendable], PipeTheory); a transfer, a video
      frame or a picked file is put together only from the chunks that make it up
      (Transfers, FileSelection); a task runs when it is due and in order (SchedulerTheory). A
      document reaches its page whole (DocumentTransfer); a batch reaches the browser
      within its budgets and its responses come back as they were forwarded
      (BrokerTheory, FetchRoundTrip); the newest correction of each kind and every
      synchronisation arrives (StateUpdates); events arrive in order, but for those
      that are merged, superseded by newer ones or of a retired document (EventQueue);
      only the active document is heard (BrokerTheory).
    - Round trips of the encodings, totality of the orders, termination of cursors,
      evictions and fetches.
    The findings are theorems too (all but one, on a comment): each states the behaviour
    that a comment, a standard or another part of the program contradicts.

    ** Not modelled

    The engine (src/engine: DOM, CSS, layout, painting, fonts, images, the script host),
    the Windows user interface (src/windows_app), the launching and sandboxing of
    processes, the media and capture processes (src/media_process, src/capture_process,
    ...) with their protocols, crates/webgl, and, in the modelled parts, the FFI
    calls to WinHTTP, its WebSocket and resource-hint clients. Of the broker, streamed
    navigations, deadlines and the lanes of device updates are left out; of the
    renderer, its document runtime. Of the renderer pipe, the
    payload of a presentation (layout items, glyphs, accessibility trees, page
    diagnostics, GPU canvases) is left out: it crosses the pipe as the opaque bytes of a
    transfer. These parts are drivers of the operating system or of the GPU, or
    visual code without a contract in the source. Where the broker handles a
    presentation, its decoding and merging are arguments of the definitions. *)

From stdpp Require Export base gmap strings list fin_maps numbers pretty.
From Stdlib Require Export Lia ZifyBool ZifyN.

(** ** Results: Rust's [Result<A, E>] as a monad over its success type *)

Inductive result (E A : Type) : Type :=
  | Ok (val : A)
  | Err (err : E).
Arguments Ok {E A} val.
Arguments Err {E A} err.

Section result_monad.
Context {E : Type}.
#[global] Instance result_ret : MRet (result E) := fun A a => Ok a.
#[global] Instance result_bind : MBind (result E) :=
  fun A B f r => match r with Ok a => f a | Err e => Err e end.
#[global] Instance result_fmap : FMap (result E) :=
  fun A B f r => match r with Ok a => Ok (f a) | Err e => Err e end.
End result_monad.

#[global] Instance result_eq_dec `{EqDecision E, EqDecision A} : EqDecision (result E A).
Proof. solve_decision. Defined.

(** [ensure b e]: an early return of [Err e] unless the guard [b] holds. *)
Definition ensure {E} (b : bool) (e : E) : result E () :=
  if b then Ok tt else Err e.

(** [Option::ok_or]. *)
Definition ok_or {E A} (o : option A) (e : E) : result E A :=
  match o with Some a => Ok a | None => Err e end.

(** [Result::map_err]. *)
Definition map_err {E F A} (f : E -> F) (r : result E A) : result F A :=
  match r with Ok a => Ok a | Err e => Err (f e) end.

Definition is_ok {E A} (r : result E A) : bool :=
  match r with Ok _ => true | Err _ => false end.

(** [iter.try_for_each(f)]: the first error wins. *)
Fixpoint try_for_each {E A} (f : A -> result E ()) (l : list A) : result E () :=
  match l with
  | [] => Ok tt
  | x :: l => match f x with Ok _ => try_for_each f l | Err e => Err e end
  end.

(** [iter.map(f).collect::<Result<Vec<_>, _>>()]. *)
Fixpoint try_map {E A B} (f : A -> result E B) (l : list A) : result E (list B) :=
  match l with
  | [] => Ok []
  | x :: l =>
      match f x with
      | Err e => Err e
      | Ok y => match try_map f l with Ok ys => Ok (y :: ys) | Err e => Err e end
      end
  end.

Lemma bind_Ok {E A B} (f : A -> result E B) (r : result E A) (b : B) :
  r ≫= f = Ok b <-> exists a, r = Ok a /\ f a = Ok b.
Proof. destruct r; naive_solver. Qed.

Lemma bind_Err {E A B} (f : A -> result E B) (r : result E A) (e : E) :
  r ≫= f = Err e <-> r = Err e \/ exists a, r = Ok a /\ f a = Err e.
Proof. destruct r; naive_solver. Qed.

Lemma ensure_Ok {E} (b : bool) (e : E) (u : ()) : ensure b e = Ok u <-> b = true.
Proof. unfold ensure. destruct b, u; naive_solver. Qed.

Lemma ok_or_Ok {E A} (o : option A) (e : E) (a : A) : ok_or o e = Ok a <-> o = Some a.
Proof. destruct o; naive_solver. Qed.

Lemma map_err_Ok {E F A} (f : E -> F) (r : result E A) (a : A) :
  map_err f r = Ok a <-> r = Ok a.
Proof. destruct r; naive_solver. Qed.

Lemma try_for_each_Ok {E A} (f : A -> result E ()) (l : list A) (u : ()) :
  try_for_each f l = Ok u <-> Forall (fun x => f x = Ok tt) l.
Proof.
  destruct u. induction l as [|x l IH]; simpl; [naive_solver|].
  rewrite Forall_cons. destruct (f x) as [[]|]; naive_solver.
Qed.

Lemma is_ok_spec {E} (r : result E ()) : is_ok r = true <-> r = Ok tt.
Proof. destruct r as [[]|]; done. Qed.

(** A guard in front of the rest of a computation, and a guard on each item. *)
Lemma bind_ensure_Ok {E A} (b : bool) (e : E) (r : result E A) (a : A) :
  (_ ← ensure b e; r) = Ok a <-> b = true /\ r = Ok a.
Proof. destruct b; simpl; naive_solver. Qed.

Lemma try_for_each_ensure {E A} (f : A -> bool) (e : A -> E) (l : list A) :
  try_for_each (fun x => ensure (f x) (e x)) l = Ok tt <-> Forall (fun x => f x = true) l.
Proof.
  rewrite try_for_each_Ok. split; intros Hall; apply (Forall_impl _ _ _ Hall); intros x;
    [apply ensure_Ok|by intros ->].
Qed.

Lemma try_map_Ok {E A B} (f : A -> result E B) (l : list A) (ys : list B) :
  try_map f l = Ok ys <-> Forall2 (fun x y => f x = Ok y) l ys.
Proof.
  revert ys. induction l as [|x l IH]; intros ys; simpl.
  - split; [intros [= <-]; constructor | by inversion 1].
  - split.
    + destruct (f x) as [y|] eqn:Hx; [|done].
      destruct (try_map f l) as [zs|]; [|done].
      intros [= <-]. constructor; [done|]. by apply IH.
    + intros H. inversion H as [|? y ? zs Hx Hl]; subst.
      apply IH in Hl. by rewrite Hx, Hl.
Qed.

(** ** Machine integers

    Unsigned machine integers are [N]; every place where the program can leave
    the width says which of the checked, saturating or wrapping operation it
    uses. [usize] is 64 bits wide (the program targets x86-64 only). *)
Definition u64_max : N := 18446744073709551615.

Definition checked_add (a b : N) : option N :=
  if (a + b <=? u64_max)%N then Some (a + b)%N else None.

Definition saturating_add (a b : N) : N := N.min (a + b) u64_max.

Definition wrapping_add (a b : N) : N := ((a + b) mod (u64_max + 1))%N.

(** [usize] addition saturating at the width, then compared with a bound that
    is itself in range, is the exact comparison. *)
Lemma saturating_add_gt (a b m : N) :
  (m < u64_max)%N -> (m < saturating_add a b)%N <-> (m < a + b)%N.
Proof. unfold saturating_add. lia. Qed.

Lemma checked_add_Some (a b c : N) :
  checked_add a b = Some c <-> c = (a + b)%N /\ (c <= u64_max)%N.
Proof.
  unfold checked_add. destruct (N.leb_spec (a + b) u64_max);
    split; intros H'; [injection H' as <-|destruct H' as [-> _]| done |]; try done.
  lia.
Qed.

(** ** Byte lengths

    A Rust [String] is modelled by the [string] of its UTF-8 bytes, so
    [String::len] is the number of characters of the model. *)
Definition byte_length (s : string) : N := N.of_nat (String.length s).

(** ** Sums over lists, in [N] *)
Definition sum_by {A} (f : A -> N) (l : list A) : N :=
  foldr (fun x acc => f x + acc)%N 0%N l.

Section sum_by.
Context {A : Type} (f : A -> N).
Implicit Types l : list A.

Lemma sum_by_app l1 l2 : sum_by f (l1 ++ l2) = (sum_by f l1 + sum_by f l2)%N.
Proof. induction l1 as [|x l1 IH]; simpl; lia. Qed.

Lemma sum_by_cons x l : sum_by f (x :: l) = (f x + sum_by f l)%N.
Proof. done. Qed.

Lemma sum_by_Permutation l1 l2 : l1 ≡ₚ l2 -> sum_by f l1 = sum_by f l2.
Proof. induction 1; simpl in *; lia. Qed.

Lemma sum_by_filter_le (P : A -> Prop) `{forall x, Decision (P x)} l :
  (sum_by f (filter P l) <= sum_by f l)%N.
Proof.
  induction l as [|x l IH]; [done|]. rewrite filter_cons. case_decide; simpl; lia.
Qed.

Lemma sum_by_elem_le x l : x ∈ l -> (f x <= sum_by f l)%N.
Proof. induction 1; simpl; lia. Qed.

Lemma sum_by_const (n : N) l :
  (forall x, x ∈ l -> f x = n) -> sum_by f l = (N.of_nat (length l) * n)%N.
Proof.
  induction l as [|x l IH]; intros Hf; [done|].
  rewrite sum_by_cons, IH by (intros; apply Hf; by constructor).
  rewrite Hf by constructor. simpl length. lia.
Qed.
End sum_by.

Lemma sum_by_ext {A} (f g : A -> N) (l : list A) :
  (forall x, x ∈ l -> f x = g x) -> sum_by f l = sum_by g l.
Proof.
  induction l as [|x l IH]; intros Hfg; [done|].
  rewrite !sum_by_cons, Hfg, IH by (try constructor; intros; apply Hfg; by constructor).
  done.
Qed.

Lemma sum_by_fmap {A B} (f : B -> N) (g : A -> B) (l : list A) :
  sum_by f (g <$> l) = sum_by (fun x => f (g x)) l.
Proof. induction l as [|x l IH]; [done|]. by rewrite fmap_cons, !sum_by_cons, IH. Qed.

(** Filtering a part of a list gives a part of the filtered list. *)
Lemma filter_sublist_mono {A} (P : A -> Prop) `{!forall x, Decision (P x)} (l k : list A) :
  l `sublist_of` k -> filter P l `sublist_of` filter P k.
Proof.
  induction 1 as [|x l k Hs IH|x l k Hs IH]; [done|..]; rewrite !filter_cons; case_decide; try done.
  - by constructor.
  - by constructor.
Qed.

(** ** Orders: what [Ord] promises to the ordered containers

    [TotalCmp] is Rust's [Ord::cmp]. [TotalCmpLaws] says that it is a total
    preorder, the contract [BTreeMap] and [binary_search_by] rely on;
    [CmpEq] adds that only equal values compare [Equal]. *)
Class TotalCmp (K : Type) := cmp : K -> K -> comparison.

Class TotalCmpLaws (K : Type) `{TotalCmp K} : Prop := {
  cmp_antisym (x y : K) : cmp y x = CompOpp (cmp x y);
  cmp_eq_compat (x y z : K) : cmp x y = Eq -> cmp x z = cmp y z;
  cmp_lt_trans (x y z : K) : cmp x y = Lt -> cmp y z = Lt -> cmp x z = Lt
}.

Class CmpEq (K : Type) `{TotalCmp K} : Prop :=
  cmp_eq (x y : K) : cmp x y = Eq -> x = y.

Section cmp.
Context {K : Type} `{TotalCmpLaws K}.
Implicit Types x y z : K.

Lemma cmp_refl x : cmp x x = Eq.
Proof. pose proof (cmp_antisym x x). by destruct (cmp x x). Qed.

Lemma cmp_eq_sym x y : cmp x y = Eq -> cmp y x = Eq.
Proof. intros Hxy. by rewrite cmp_antisym, Hxy. Qed.

Lemma cmp_eq_compat_r x y z : cmp x y = Eq -> cmp z x = cmp z y.
Proof.
  intros Hxy. rewrite (cmp_antisym x z), (cmp_antisym y z). f_equal.
  by apply cmp_eq_compat.
Qed.

Lemma cmp_gt_lt x y : cmp x y = Gt <-> cmp y x = Lt.
Proof. rewrite (cmp_antisym x y). by destruct (cmp x y). Qed.

Lemma cmp_gt_trans x y z : cmp x y = Gt -> cmp y z = Gt -> cmp x z = Gt.
Proof. rewrite !cmp_gt_lt. intros. by eapply cmp_lt_trans. Qed.

Lemma cmp_le_trans x y z : cmp x y <> Gt -> cmp y z <> Gt -> cmp x z <> Gt.
Proof.
  intros Hxy Hyz. destruct (cmp x y) eqn:Exy; [by rewrite (cmp_eq_compat x y z)| |done].
  destruct (cmp y z) eqn:Eyz; [by rewrite <- (cmp_eq_compat_r y z x Eyz), Exy| |done].
  by rewrite (cmp_lt_trans x y z).
Qed.

(** The equivalence of the order: keys an ordered container cannot tell apart. *)
Definition cmp_equiv : relation K := fun x y => cmp x y = Eq.

#[global] Instance cmp_equiv_equivalence : Equivalence cmp_equiv.
Proof.
  split.
  - intros x. apply cmp_refl.
  - intros x y. apply cmp_eq_sym.
  - intros x y z Hxy Hyz. unfold cmp_equiv in *. by rewrite (cmp_eq_compat x y).
Qed.

#[global] Instance cmp_proper : Proper (cmp_equiv ==> cmp_equiv ==> eq) cmp.
Proof.
  intros x x' Hx y y' Hy. rewrite (cmp_eq_compat x x' y Hx).
  by apply cmp_eq_compat_r.
Qed.
End cmp.

(** *** Instances *)
#[global] Instance N_cmp : TotalCmp N := N.compare.
#[global] Instance N_cmp_laws : TotalCmpLaws N.
Proof.
  split; unfold cmp, N_cmp.
  - intros x y. apply N.compare_antisym.
  - intros x y z ->%N.compare_eq_iff. done.
  - intros x y z. rewrite !N.compare_lt_iff. lia.
Qed.
#[global] Instance N_cmp_eq : CmpEq N.
Proof. intros x y. apply N.compare_eq_iff. Qed.

#[global] Instance Z_cmp : TotalCmp Z := Z.compare.
#[global] Instance Z_cmp_laws : TotalCmpLaws Z.
Proof.
  split; unfold cmp, Z_cmp.
  - intros x y. apply Z.compare_antisym.
  - intros x y z ->%Z.compare_eq_iff. done.
  - intros x y z. rewrite !Z.compare_lt_iff. lia.
Qed.
#[global] Instance Z_cmp_eq : CmpEq Z.
Proof. intros x y. apply Z.compare_eq_iff. Qed.

(** Rust's lexicographic order on slices, vectors and iterators. *)
Section list_cmp.
Context {K : Type} `{TotalCmp K}.

Fixpoint list_cmp (l k : list K) : comparison :=
  match l, k with
  | [], [] => Eq
  | [], _ :: _ => Lt
  | _ :: _, [] => Gt
  | x :: l, y :: k => match cmp x y with Eq => list_cmp l k | c => c end
  end.
#[global] Instance list_total_cmp : TotalCmp (list K) := list_cmp.

#[global] Instance list_cmp_laws `{!TotalCmpLaws K} : TotalCmpLaws (list K).
Proof.
  split; unfold cmp, list_total_cmp.
  - intros l. induction l as [|x l IH]; intros [|y k]; simpl; try done.
    rewrite (cmp_antisym x y). destruct (cmp x y); simpl; [apply IH|done|done].
  - intros l. induction l as [|x l IH]; intros [|y k] [|z m]; simpl; try done.
    destruct (cmp x y) eqn:Hxy; try done. intros Hlk.
    rewrite (cmp_eq_compat x y z Hxy). destruct (cmp y z); [by apply IH|done..].
  - intros l. induction l as [|x l IH]; intros [|y k] [|z m]; simpl; try done.
    destruct (cmp x y) eqn:Hxy, (cmp y z) eqn:Hyz; try done; intros Hlk Hkm.
    + rewrite (cmp_eq_compat x y z Hxy), Hyz. by eapply IH.
    + by rewrite (cmp_eq_compat x y z Hxy), Hyz.
    + by rewrite <- (cmp_eq_compat_r y z x Hyz), Hxy.
    + by rewrite (cmp_lt_trans x y z Hxy Hyz).
Qed.

#[global] Instance list_cmp_eq `{!CmpEq K} : CmpEq (list K).
Proof.
  intros l. unfold cmp, list_total_cmp.
  induction l as [|x l IH]; intros [|y k]; simpl; try done.
  destruct (cmp x y) eqn:Hxy; try done. intros Hlk.
  apply cmp_eq in Hxy. by rewrite Hxy, (IH k Hlk).
Qed.
End list_cmp.

(** An order pulled back along a function keeps the laws. *)
Section pullback.
Context {A K : Type} `{TotalCmpLaws K} (f : A -> K).
Definition cmp_on (x y : A) : comparison := cmp (f x) (f y).

Lemma cmp_on_laws : @TotalCmpLaws A cmp_on.
Proof.
  split; unfold cmp, cmp_on.
  - intros x y. apply cmp_antisym.
  - intros x y z. apply cmp_eq_compat.
  - intros x y z. apply cmp_lt_trans.
Qed.

Lemma cmp_on_eq `{!CmpEq K} `{!Inj (=) (=) f} : @CmpEq A cmp_on.
Proof. intros x y Hxy. apply (inj f). by apply cmp_eq. Qed.
End pullback.

(** ** Automation shared by the components *)
Create HintDb breeze.
#[export] Hint Resolve N.le_refl cmp_refl : breeze.
#[export] Hint Constructors Forall : breeze.

(** Splits every monadic equation and guard of the context. *)
Ltac inv_res :=
  repeat match goal with
  | H : Ok _ = Ok _ |- _ => injection H as H; subst
  | H : Err _ = Err _ |- _ => injection H as H; subst
  | H : Ok _ = Err _ |- _ => discriminate H
  | H : Err _ = Ok _ |- _ => discriminate H
  | H : mret _ = Ok _ |- _ => change (Ok _ = Ok _) in H
  | H : (_ ≫= _) = Ok _ |- _ => apply bind_Ok in H as (? & ? & H)
  | H : ensure _ _ = Ok _ |- _ => apply ensure_Ok in H
  | H : ok_or _ _ = Ok _ |- _ => apply ok_or_Ok in H
  | H : map_err _ _ = Ok _ |- _ => apply map_err_Ok in H
  | H : (_, _) = (_, _) |- _ => injection H as H; subst
  end.

(** Turns boolean comparisons of the context into propositions. *)
Ltac bool_props :=
  repeat match goal with
  | H : negb _ = true |- _ => apply negb_true_iff in H
  | H : negb _ = false |- _ => apply negb_false_iff in H
  | H : (_ && _) = true |- _ => apply andb_true_iff in H as [? H]
  | H : (_ || _) = false |- _ => apply orb_false_iff in H as [? H]
  | H : (_ <=? _)%N = true |- _ => apply N.leb_le in H
  | H : (_ <=? _)%N = false |- _ => apply N.leb_gt in H
  | H : (_ <? _)%N = true |- _ => apply N.ltb_lt in H
  | H : (_ <? _)%N = false |- _ => apply N.ltb_ge in H
  | H : (_ =? _)%N = true |- _ => apply N.eqb_eq in H
  | H : (_ =? _)%N = false |- _ => apply N.eqb_neq in H
  | H : bool_decide _ = true |- _ => apply bool_decide_eq_true_1 in H
  | H : bool_decide _ = false |- _ => apply bool_decide_eq_false_1 in H
  end.

(** Evaluates both sides of a closed equation and compares the values, without
    reading them back as terms. *)
Ltac vm_refl := match goal with |- ?a = ?b => exact (eq_refl b <: a = b) end.
