(* ===== verification/Text.v ===== *)
(** * Text: Rust strings, UTF-8 and UTF-16

    A Rust [String] is the [string] of its UTF-8 bytes. Several components look
    at it through the standard library's iterators: [str::chars] (Unicode
    scalar values), [str::encode_utf16] (UTF-16 code units) and
    [char::decode_utf16] (scalars, or isolated surrogates). This file defines
    these, and proves the round trips and the injectivity the ordered containers
    of the program depend on.

    Rust's type invariant says that the bytes are well formed. The functions
    here are total: a byte that starts no well-formed sequence decodes to a
    value above the scalar range that stands for the byte, so decoding loses
    nothing on any input. *)

From S2P Require Import Prelude.
From Stdlib Require Export Ascii.
From Stdlib Require Import ZArith.

#[local] Ltac Zify.zify_post_hook ::= Z.to_euclidean_division_equations.

(** ** Bytes *)
Fixpoint bytes (s : string) : list N :=
  match s with
  | EmptyString => []
  | String a s => N_of_ascii a :: bytes s
  end.

Fixpoint of_bytes (l : list N) : string :=
  match l with
  | [] => EmptyString
  | b :: l => String (ascii_of_N b) (of_bytes l)
  end.

Lemma of_bytes_bytes (s : string) : of_bytes (bytes s) = s.
Proof. induction s as [|a s IH]; simpl; [done|]. by rewrite ascii_N_embedding, IH. Qed.

#[global] Instance bytes_inj : Inj (=) (=) bytes.
Proof. intros s t Hst. by rewrite <- (of_bytes_bytes s), Hst, of_bytes_bytes. Qed.

Lemma bytes_of_bytes (l : list N) :
  Forall (fun b => b < 256)%N l -> bytes (of_bytes l) = l.
Proof.
  induction 1 as [|b l Hb _ IH]; simpl; [done|]. by rewrite N_ascii_embedding, IH.
Qed.

Lemma length_bytes (s : string) : length (bytes s) = String.length s.
Proof. induction s; simpl; congruence. Qed.

(** Rust orders [str] and [String] by their bytes. *)
#[global] Instance string_cmp : TotalCmp string := cmp_on bytes.
#[global] Instance string_cmp_laws : TotalCmpLaws string.
Proof. apply cmp_on_laws. Qed.
#[global] Instance string_cmp_eq : CmpEq string.
Proof. apply (cmp_on_eq bytes). Qed.

(** ** Scalar values *)
Definition is_surrogate (c : N) : bool := ((0xd800 <=? c) && (c <=? 0xdfff))%N.

(** [char]: a code point that is not a surrogate. *)
Definition is_scalar (c : N) : bool := ((c <? 0x110000) && negb (is_surrogate c))%N.

(** The UTF-8 encoding of one scalar; above the scalar range, the escaped byte. *)
Definition char_utf8 (c : N) : list N :=
  (if c <? 0x80 then [c]
   else if c <? 0x800 then [0xc0 + c / 64; 0x80 + c mod 64]
   else if c <? 0x10000 then
     [0xe0 + c / 4096; 0x80 + (c / 64) mod 64; 0x80 + c mod 64]
   else if c <? 0x110000 then
     [0xf0 + c / 262144; 0x80 + (c / 4096) mod 64; 0x80 + (c / 64) mod 64; 0x80 + c mod 64]
   else [c - 0x110000])%N.

(** [char::len_utf8]. *)
Definition len_utf8 (c : N) : N :=
  (if c <? 0x80 then 1 else if c <? 0x800 then 2 else if c <? 0x10000 then 3 else 4)%N.

Definition utf8_encode (cs : list N) : list N := cs ≫= char_utf8.

Lemma utf8_encode_cons (c : N) (cs : list N) :
  utf8_encode (c :: cs) = char_utf8 c ++ utf8_encode cs.
Proof. done. Qed.

(** A candidate scalar is accepted when it is one and encodes to exactly the
    bytes it was read from: no overlong form, no encoded surrogate. *)
Definition accepts (c : N) (l : list N) : bool :=
  is_scalar c && bool_decide (char_utf8 c = l).

Definition escaped (b : N) : N := (0x110000 + b)%N.

Fixpoint utf8_decode (l : list N) : list N :=
  match l with
  | [] => []
  | b0 :: l0 =>
      if accepts b0 [b0] then b0 :: utf8_decode l0
      else
        match l0 with
        | b1 :: l1 =>
            let c2 := ((b0 - 0xc0) * 64 + (b1 - 0x80))%N in
            if accepts c2 [b0; b1] then c2 :: utf8_decode l1
            else
              match l1 with
              | b2 :: l2 =>
                  let c3 := ((b0 - 0xe0) * 4096 + (b1 - 0x80) * 64 + (b2 - 0x80))%N in
                  if accepts c3 [b0; b1; b2] then c3 :: utf8_decode l2
                  else
                    match l2 with
                    | b3 :: l3 =>
                        let c4 := ((b0 - 0xf0) * 262144 + (b1 - 0x80) * 4096
                                   + (b2 - 0x80) * 64 + (b3 - 0x80))%N in
                        if accepts c4 [b0; b1; b2; b3] then c4 :: utf8_decode l3
                        else escaped b0 :: utf8_decode l0
                    | [] => escaped b0 :: utf8_decode l0
                    end
              | [] => escaped b0 :: utf8_decode l0
              end
        | [] => escaped b0 :: utf8_decode l0
        end
  end.

(** [str::chars]. *)
Definition chars (s : string) : list N := utf8_decode (bytes s).
(** [String::from_iter] over scalars. *)
Definition of_chars (cs : list N) : string := of_bytes (utf8_encode cs).

(** The [str] type invariant: every byte belongs to a well-formed sequence. *)
Definition well_formed (s : string) : bool := forallb is_scalar (chars s).

Lemma accepts_spec (c : N) (l : list N) :
  accepts c l = true <-> is_scalar c = true /\ char_utf8 c = l.
Proof. unfold accepts. rewrite andb_true_iff, bool_decide_eq_true. done. Qed.

Lemma char_utf8_escaped (b : N) : char_utf8 (escaped b) = [b].
Proof.
  unfold char_utf8, escaped.
  do 4 (case_match; bool_props; [lia|]). f_equal. lia.
Qed.

(** Induction along the cases of the decoder. *)
Lemma utf8_decode_ind (P : list N -> list N -> Prop) :
  P [] [] ->
  (forall c l, is_scalar c = true -> P l (utf8_decode l) ->
     utf8_decode (char_utf8 c ++ l) = c :: utf8_decode l ->
     P (char_utf8 c ++ l) (c :: utf8_decode l)) ->
  (forall b l, P l (utf8_decode l) -> utf8_decode (b :: l) = escaped b :: utf8_decode l ->
     P (b :: l) (escaped b :: utf8_decode l)) ->
  forall l, P l (utf8_decode l).
Proof.
  intros Hnil Hchar Hesc l.
  induction l as [l IH] using (induction_ltof1 _ length); unfold ltof in IH.
  destruct l as [|b0 l0]; [done|].
  assert (Hrest : P l0 (utf8_decode l0)) by (apply IH; simpl; lia).
  assert (Hstep : forall c pre post, accepts c pre = true -> b0 :: l0 = pre ++ post ->
            utf8_decode (b0 :: l0) = c :: utf8_decode post ->
            P (b0 :: l0) (utf8_decode (b0 :: l0))).
  { intros c pre post [Hc <-]%accepts_spec Heq Hdec. rewrite Hdec, Heq. apply Hchar; [done| |congruence].
    apply IH. rewrite Heq, length_app.
    enough (length (char_utf8 c) <> 0) by lia. unfold char_utf8. by repeat case_match. }
  destruct (accepts b0 [b0]) eqn:H1.
  { by eapply (Hstep b0 [b0] l0); [done..|]; simpl; rewrite H1. }
  destruct l0 as [|b1 l1].
  { simpl. rewrite H1. apply Hesc; [done|]. simpl. by rewrite H1. }
  set (c2 := ((b0 - 0xc0) * 64 + (b1 - 0x80))%N).
  destruct (accepts c2 [b0; b1]) eqn:H2.
  { by eapply (Hstep c2 [b0; b1] l1); [done..|]; subst c2; simpl; rewrite H1, H2. }
  destruct l1 as [|b2 l2].
  { simpl. subst c2. rewrite H1, H2. apply Hesc; [done|]. simpl. by rewrite H1, H2. }
  set (c3 := ((b0 - 0xe0) * 4096 + (b1 - 0x80) * 64 + (b2 - 0x80))%N).
  destruct (accepts c3 [b0; b1; b2]) eqn:H3.
  { by eapply (Hstep c3 [b0; b1; b2] l2); [done..|]; subst c2 c3; simpl; rewrite H1, H2, H3. }
  destruct l2 as [|b3 l3].
  { simpl. subst c2 c3. rewrite H1, H2, H3. apply Hesc; [done|]. simpl. by rewrite H1, H2, H3. }
  set (c4 := ((b0 - 0xf0) * 262144 + (b1 - 0x80) * 4096 + (b2 - 0x80) * 64 + (b3 - 0x80))%N).
  destruct (accepts c4 [b0; b1; b2; b3]) eqn:H4.
  { by eapply (Hstep c4 [b0; b1; b2; b3] l3); [done..|];
      subst c2 c3 c4; simpl; rewrite H1, H2, H3, H4. }
  assert (Hd : utf8_decode (b0 :: b1 :: b2 :: b3 :: l3)
               = escaped b0 :: utf8_decode (b1 :: b2 :: b3 :: l3)).
  { subst c2 c3 c4. cbn [utf8_decode] in *. by rewrite H1, H2, H3, H4. }
  rewrite Hd. by apply Hesc.
Qed.

(** Nothing is lost by decoding. *)
Lemma utf8_encode_decode (l : list N) : utf8_encode (utf8_decode l) = l.
Proof.
  apply (utf8_decode_ind (fun l cs => utf8_encode cs = l)); [done| |].
  - intros c k _ IH _. by rewrite utf8_encode_cons, IH.
  - intros b k IH _. by rewrite utf8_encode_cons, char_utf8_escaped, IH.
Qed.

#[global] Instance utf8_decode_inj : Inj (=) (=) utf8_decode.
Proof. intros l k Hlk. by rewrite <- (utf8_encode_decode l), Hlk, utf8_encode_decode. Qed.

(** [char::encode_utf16] and [str::encode_utf16]. *)
Definition char_utf16 (c : N) : list N :=
  (if c <? 0x10000 then [c]
   else if c <? 0x110000 then
     [0xd800 + (c - 0x10000) / 1024; 0xdc00 + (c - 0x10000) mod 1024]
   else [c])%N.

Definition encode_utf16 (s : string) : list N := chars s ≫= char_utf16.

(** [char::decode_utf16]: [inl c] is a scalar, [inr u] an isolated surrogate. *)
Definition is_high (u : N) : bool := ((0xd800 <=? u) && (u <=? 0xdbff))%N.
Definition is_low (u : N) : bool := ((0xdc00 <=? u) && (u <=? 0xdfff))%N.

Fixpoint decode_utf16 (units : list N) : list (N + N) :=
  match units with
  | [] => []
  | u :: rest =>
      if negb (is_surrogate u) then inl u :: decode_utf16 rest
      else if is_low u then inr u :: decode_utf16 rest
      else
        match rest with
        | v :: rest' =>
            if is_low v
            then inl (0x10000 + (u - 0xd800) * 1024 + (v - 0xdc00))%N :: decode_utf16 rest'
            else inr u :: decode_utf16 rest
        | [] => [inr u]
        end
  end.

(** *** Injectivity of the UTF-16 view *)

(** What the decoder produces: scalars, or escaped bytes. *)
Definition decoded_char (c : N) : Prop := is_scalar c = true \/ (0x110000 <= c)%N.

Lemma utf8_decode_chars (l : list N) : Forall decoded_char (utf8_decode l).
Proof.
  apply (utf8_decode_ind (fun _ cs => Forall decoded_char cs)); [constructor| |].
  - intros c k Hc IH _. constructor; [by left|done].
  - intros b k IH _. constructor; [|done]. right. unfold escaped. lia.
Qed.

Lemma char_utf16_app_inj (c d : N) (l k : list N) :
  decoded_char c -> decoded_char d ->
  char_utf16 c ++ l = char_utf16 d ++ k -> c = d /\ l = k.
Proof.
  unfold decoded_char, is_scalar, is_surrogate, char_utf16. intros Hc Hd Heq.
  assert (Hcs : ~ (0xd800 <= c <= 0xdfff)%N).
  { destruct Hc; bool_props; [|lia]. intros []. rewrite andb_false_iff, !N.leb_gt in *. lia. }
  assert (Hds : ~ (0xd800 <= d <= 0xdfff)%N).
  { destruct Hd; bool_props; [|lia]. intros []. rewrite andb_false_iff, !N.leb_gt in *. lia. }
  destruct (N.ltb_spec c 0x10000), (N.ltb_spec d 0x10000);
    try destruct (N.ltb_spec c 0x110000); try destruct (N.ltb_spec d 0x110000);
    simpl in Heq; injection Heq; intros; subst; try (split; [lia|done]); exfalso; lia.
Qed.

Lemma char_utf16_nonempty (c : N) (l : list N) : char_utf16 c ++ l <> [].
Proof. unfold char_utf16. by repeat case_match. Qed.

Lemma bind_char_utf16_inj (cs ds : list N) :
  Forall decoded_char cs -> Forall decoded_char ds ->
  cs ≫= char_utf16 = ds ≫= char_utf16 -> cs = ds.
Proof.
  intros Hcs. revert ds. induction Hcs as [|c cs Hc _ IH]; intros [|d ds] Hds; [done|..].
  - intros Heq. symmetry in Heq. by apply char_utf16_nonempty in Heq.
  - intros Heq. by apply char_utf16_nonempty in Heq.
  - apply Forall_cons in Hds as [Hd Hds]. intros Heq.
    apply char_utf16_app_inj in Heq as [-> Heq]; [|done..]. by rewrite (IH ds).
Qed.

(** Two strings with the same UTF-16 view are the same string, so ECMAScript's
    string order separates all the strings Rust's [==] separates. *)
#[global] Instance encode_utf16_inj : Inj (=) (=) encode_utf16.
Proof.
  intros s t Hst. apply (inj bytes), (inj utf8_decode).
  apply bind_char_utf16_inj; [apply utf8_decode_chars..|done].
Qed.

(** Decoding the UTF-16 encoding of scalars gives the scalars back. *)
Lemma decode_utf16_char (c : N) (l : list N) :
  is_scalar c = true -> decode_utf16 (char_utf16 c ++ l) = inl c :: decode_utf16 l.
Proof.
  unfold is_scalar, char_utf16. intros Hc. bool_props.
  case_match; bool_props; [by simpl; rewrite Hc|].
  case_match; bool_props; [|lia]. simpl.
  assert (Hh : forall u, (0xd800 <= u <= 0xdbff)%N -> is_surrogate u = true /\ is_low u = false).
  { intros u Hu. unfold is_surrogate, is_low. split.
    - rewrite andb_true_iff, !N.leb_le. lia.
    - rewrite andb_false_iff, !N.leb_gt. lia. }
  destruct (Hh (0xd800 + (c - 0x10000) / 1024)%N) as [-> ->]; [lia|]. simpl.
  assert (is_low (0xdc00 + (c - 0x10000) mod 1024) = true) as ->.
  { unfold is_low. rewrite andb_true_iff, !N.leb_le. lia. }
  do 2 f_equal. lia.
Qed.

Lemma decode_encode_utf16 (s : string) :
  well_formed s = true -> decode_utf16 (encode_utf16 s) = inl <$> chars s.
Proof.
  unfold well_formed, encode_utf16. induction (chars s) as [|c cs IH]; [done|].
  intros [Hc Hcs]%andb_true_iff.
  by rewrite bind_cons, decode_utf16_char, fmap_cons, IH.
Qed.

(** The byte length of a well-formed string is the sum of its scalars' lengths. *)
Lemma length_char_utf8 (c : N) :
  is_scalar c = true -> N.of_nat (length (char_utf8 c)) = len_utf8 c.
Proof.
  unfold is_scalar, char_utf8, len_utf8. intros Hc. bool_props.
  repeat case_match; bool_props; simpl; lia.
Qed.

Lemma byte_length_chars (s : string) :
  well_formed s = true -> byte_length s = sum_by len_utf8 (chars s).
Proof.
  intros Hwf. unfold byte_length. rewrite <- length_bytes.
  rewrite <- (utf8_encode_decode (bytes s)) at 1.
  unfold well_formed, chars in *. induction (utf8_decode (bytes s)) as [|c cs IH]; [done|].
  simpl in Hwf. apply andb_true_iff in Hwf as [Hc Hcs].
  rewrite utf8_encode_cons, sum_by_cons, length_app, <- length_char_utf8 by done.
  rewrite <- IH by done. lia.
Qed.

(** ** Further [str] methods *)

(** [char::is_whitespace]: the [White_Space] property. *)
Definition is_whitespace (c : N) : bool :=
  ((0x09 <=? c) && (c <=? 0x0d) || (c =? 0x20) || (c =? 0x85) || (c =? 0xa0)
   || (c =? 0x1680) || (0x2000 <=? c) && (c <=? 0x200a) || (c =? 0x2028)
   || (c =? 0x2029) || (c =? 0x202f) || (c =? 0x205f) || (c =? 0x3000))%N.

Fixpoint drop_while {A} (p : A -> bool) (l : list A) : list A :=
  match l with
  | [] => []
  | x :: l' => if p x then drop_while p l' else l
  end.

(** [str::trim_matches]. *)
Definition trim_matches (p : N -> bool) (s : string) : string :=
  of_chars (rev (drop_while p (rev (drop_while p (chars s))))).
(** [str::trim]. *)
Definition trim (s : string) : string := trim_matches is_whitespace s.

(** [str::to_ascii_lowercase], [to_ascii_uppercase] and [eq_ignore_ascii_case]. *)
Definition lower_ascii (a : ascii) : ascii :=
  let n := N_of_ascii a in
  (if (65 <=? n) && (n <=? 90) then ascii_of_N (n + 32) else a)%N.
Definition upper_ascii (a : ascii) : ascii :=
  let n := N_of_ascii a in
  (if (97 <=? n) && (n <=? 122) then ascii_of_N (n - 32) else a)%N.
Fixpoint map_string (f : ascii -> ascii) (s : string) : string :=
  match s with
  | EmptyString => EmptyString
  | String a s => String (f a) (map_string f s)
  end.
Definition to_ascii_lowercase : string -> string := map_string lower_ascii.
Definition to_ascii_uppercase : string -> string := map_string upper_ascii.
Definition eq_ignore_ascii_case (s t : string) : bool :=
  String.eqb (to_ascii_lowercase s) (to_ascii_lowercase t).

(** [str::split] on an ASCII separator: one more piece than separators. *)
Fixpoint split_on (sep : ascii) (s : string) : list string :=
  match s with
  | EmptyString => [EmptyString]
  | String a s =>
      if Ascii.eqb a sep then EmptyString :: split_on sep s
      else match split_on sep s with
           | piece :: pieces => String a piece :: pieces
           | [] => [String a EmptyString]
           end
  end.

(** [str::split_once] on an ASCII separator. *)
Fixpoint split_once (sep : ascii) (s : string) : option (string * string) :=
  match s with
  | EmptyString => None
  | String a s =>
      if Ascii.eqb a sep then Some (EmptyString, s)
      else match split_once sep s with
           | Some (l, r) => Some (String a l, r)
           | None => None
           end
  end.

Definition contains_char (c : ascii) (s : string) : bool :=
  existsb (Ascii.eqb c) (String.list_ascii_of_string s).

(** [iter.collect::<Vec<_>>().join(sep)]. *)
Fixpoint join (sep : string) (l : list string) : string :=
  match l with
  | [] => EmptyString
  | [s] => s
  | s :: l => s +:+ sep +:+ join sep l
  end.

Lemma lower_ascii_idemp (a : ascii) : lower_ascii (lower_ascii a) = lower_ascii a.
Proof. by destruct a as [[] [] [] [] [] [] [] []]. Qed.

Lemma to_ascii_lowercase_idemp (s : string) :
  to_ascii_lowercase (to_ascii_lowercase s) = to_ascii_lowercase s.
Proof.
  unfold to_ascii_lowercase. induction s as [|a s IH]; simpl; [done|].
  by rewrite lower_ascii_idemp, IH.
Qed.

(** The units of a well-formed string fit in 16 bits. *)
Lemma encode_utf16_units (s : string) :
  well_formed s = true -> Forall (fun u => u < 0x10000)%N (encode_utf16 s).
Proof.
  unfold well_formed, encode_utf16. induction (chars s) as [|c cs IH]; [constructor|].
  intros [Hc Hcs]%andb_true_iff. rewrite bind_cons. apply Forall_app. split; [|by apply IH].
  unfold char_utf16, is_scalar in *. repeat case_match; repeat constructor; lia.
Qed.

(** ** Decoding what was encoded *)

(** A candidate that is not the scalar its bytes encode is refused. *)
Ltac refute_accepts :=
  match goal with
  | |- context [accepts ?c ?l] =>
      destruct (accepts c l) eqn:?; [
        exfalso; match goal with H : accepts c l = true |- _ =>
          apply accepts_spec in H as [_ H]; revert H; unfold char_utf8;
          repeat case_match; bool_props; intros [=]; lia end |]
  end.
Ltac confirm_accepts c :=
  match goal with
  | |- context [accepts ?d ?l] =>
      replace d with c by lia;
      assert (accepts c l = true) as ->
        by (apply accepts_spec; split; [done|]; unfold char_utf8;
            repeat case_match; bool_props; done || lia)
  end.

Lemma utf8_decode_char (c : N) (l : list N) :
  is_scalar c = true -> utf8_decode (char_utf8 c ++ l) = c :: utf8_decode l.
Proof.
  intros Hc. assert (c < 0x110000)%N by (unfold is_scalar in Hc; by bool_props).
  assert (Hcu : char_utf8 c = char_utf8 c) by done. unfold char_utf8 at 2 in Hcu.
  rewrite Hcu. revert Hcu.
  case_match; bool_props; [|case_match; bool_props; [|case_match; bool_props; [|case_match; bool_props]]];
    intros _; cbn [app utf8_decode]; repeat (first [confirm_accepts c | refute_accepts]); try done.
  lia.
Qed.

Lemma utf8_decode_encode (cs : list N) :
  forallb is_scalar cs = true -> utf8_decode (utf8_encode cs) = cs.
Proof.
  induction cs as [|c cs IH]; [done|]. intros [Hc Hcs]%andb_true_iff.
  by rewrite utf8_encode_cons, utf8_decode_char, IH.
Qed.

Lemma char_utf8_bytes (c : N) : is_scalar c = true -> Forall (fun b => b < 256)%N (char_utf8 c).
Proof.
  intros Hc. assert (c < 0x110000)%N by (unfold is_scalar in Hc; by bool_props).
  unfold char_utf8. repeat case_match; bool_props; repeat constructor; lia.
Qed.

Lemma chars_of_chars (cs : list N) : forallb is_scalar cs = true -> chars (of_chars cs) = cs.
Proof.
  intros Hcs. unfold chars, of_chars. rewrite bytes_of_bytes; [by apply utf8_decode_encode|].
  induction cs as [|c cs IH]; [constructor|]. apply andb_true_iff in Hcs as [Hc Hcs].
  rewrite utf8_encode_cons. apply Forall_app. split; [by apply char_utf8_bytes|by apply IH].
Qed.

(** [String::from_utf16]: [None] when a surrogate is isolated. *)
Definition from_utf16 (units : list N) : option string :=
  let decoded := decode_utf16 units in
  if forallb (fun x => match x with inl _ => true | inr _ => false end) decoded
  then Some (of_chars (omap (fun x => match x with inl c => Some c | inr _ => None end) decoded))
  else None.

(** Induction along the cases of [decode_utf16]. *)
Lemma decode_utf16_ind (P : list N -> Prop) :
  P [] ->
  (forall u us, is_surrogate u = false -> P us -> P (u :: us)) ->
  (forall h l us, is_high h = true -> is_low l = true -> P us -> P (h :: l :: us)) ->
  (forall u us, decode_utf16 (u :: us) = inr u :: decode_utf16 us -> P us -> P (u :: us)) ->
  forall us, P us.
Proof.
  intros Hnil Hplain Hpair Hlone us.
  induction us as [us IH] using (induction_ltof1 _ length); unfold ltof in IH.
  destruct us as [|u us]; [done|].
  destruct (is_surrogate u) eqn:Hs; [|by apply Hplain; [|apply IH; simpl; lia]].
  destruct (is_low u) eqn:Hl.
  { apply Hlone; [simpl; by rewrite Hs, Hl|apply IH; simpl; lia]. }
  assert (is_high u = true) as Hh by (unfold is_surrogate, is_low, is_high in *; lia).
  destruct us as [|v us].
  { apply Hlone; [simpl; by rewrite Hs, Hl|done]. }
  destruct (is_low v) eqn:Hv.
  - apply Hpair; [done..|apply IH; simpl; lia].
  - apply Hlone; [|apply IH; simpl; lia]. cbn [decode_utf16]. by rewrite Hs, Hl, Hv.
Qed.

Lemma char_utf16_pair (h l : N) :
  is_high h = true -> is_low l = true ->
  is_scalar (0x10000 + (h - 0xd800) * 1024 + (l - 0xdc00)) = true /\
  char_utf16 (0x10000 + (h - 0xd800) * 1024 + (l - 0xdc00)) = [h; l].
Proof.
  unfold is_high, is_low. intros Hh Hl. bool_props.
  split; [unfold is_scalar, is_surrogate; lia|].
  unfold char_utf16. case_match; bool_props; [lia|]. case_match; bool_props; [|lia].
  f_equal; [lia|]. f_equal. lia.
Qed.

(** A string [from_utf16] accepts encodes back to the same units. *)
Lemma encode_from_utf16 (us : list N) (s : string) :
  Forall (fun u => u < 0x10000)%N us -> from_utf16 us = Some s -> encode_utf16 s = us.
Proof.
  unfold from_utf16. case_match eqn:Hall; [|done]. intros Hus [= <-].
  set (f := fun x : N + N => match x with inl c => Some c | inr _ => None end).
  assert (Hcons : forall c xs, omap f (inl c :: xs) = c :: omap f xs) by done.
  assert (Hgen : forallb is_scalar (omap f (decode_utf16 us)) = true /\
                 omap f (decode_utf16 us) ≫= char_utf16 = us).
  { revert Hus Hall. pattern us. apply decode_utf16_ind; clear us.
    - done.
    - intros u us Hs IH Hus Hall. apply Forall_cons in Hus as [Hu Hus].
      cbn [decode_utf16] in *. rewrite Hs in *. cbn [negb forallb] in *.
      rewrite Hcons. cbn [forallb]. destruct (IH Hus Hall) as [IH1 IH2]. rewrite IH1, bind_cons, IH2. split.
      + unfold is_scalar. rewrite Hs. lia.
      + unfold char_utf16. by rewrite (proj2 (N.ltb_lt _ _) Hu).
    - intros h l us Hh Hl IH Hus Hall. apply Forall_cons in Hus as [_ Hus].
      apply Forall_cons in Hus as [_ Hus]. cbn [decode_utf16] in *.
      assert (is_surrogate h = true) as Hs by (unfold is_surrogate, is_high in *; lia).
      assert (is_low h = false) as Hlh by (unfold is_low, is_high in *; lia).
      rewrite Hs, Hlh, Hl in *. cbn [negb forallb] in *. rewrite Hcons. cbn [forallb].
      destruct (IH Hus Hall) as [IH1 IH2].
      destruct (char_utf16_pair h l Hh Hl) as [Hp1 Hp2]. by rewrite Hp1, IH1, bind_cons, Hp2, IH2.
    - intros u us Hd IH Hus Hall. by rewrite Hd in Hall. }
  destruct Hgen as [Hsc Henc]. unfold encode_utf16. by rewrite chars_of_chars.
Qed.
