(* ===== verification/StrOps.v ===== *)
(** * StrOps: further [str] methods, on the bytes of a string

    What the Fetch components use of [core::str] and [u8]: prefixes and suffixes,
    [split_ascii_whitespace], [replace], integer parsing and the ASCII classes. *)

From S2P Require Import Prelude Text.
From Stdlib Require Import ZArith.

(** [u8::is_ascii_alphanumeric], [is_ascii_alphabetic] and [is_ascii_digit]. *)
Definition is_ascii_digit (b : N) : bool := ((48 <=? b) && (b <=? 57))%N.
Definition is_ascii_alphabetic (b : N) : bool :=
  ((65 <=? b) && (b <=? 90) || (97 <=? b) && (b <=? 122))%N.
Definition is_ascii_alphanumeric (b : N) : bool := is_ascii_digit b || is_ascii_alphabetic b.

(** [bytes.contains(&b)] for the bytes of a literal. *)
Definition one_of (s : string) (b : N) : bool := existsb (N.eqb b) (bytes s).

Definition string_in (s : string) (l : list string) : bool := existsb (String.eqb s) l.

#[global] Arguments string_in : simpl never.

Lemma string_in_spec (s : string) (l : list string) : string_in s l = true <-> s ∈ l.
Proof.
  unfold string_in. rewrite existsb_exists. split.
  - by intros (t & Hin%list_elem_of_In & ->%String.eqb_eq).
  - intros Hin%list_elem_of_In. exists s. by rewrite String.eqb_refl.
Qed.

Lemma string_in_disjoint (s : string) (l k : list string) :
  forallb (fun t => negb (string_in t k)) l = true -> string_in s l = true -> string_in s k = false.
Proof.
  rewrite forallb_forall. intros Hd Hs%string_in_spec%list_elem_of_In. by apply negb_true_iff, Hd.
Qed.

(** [str::strip_prefix] and [str::strip_suffix] *)
Fixpoint strip_prefix (p s : string) : option string :=
  match p, s with
  | EmptyString, _ => Some s
  | String a p, String b s => if Ascii.eqb a b then strip_prefix p s else None
  | String _ _, EmptyString => None
  end.

Definition starts_with (p s : string) : bool := bool_decide (is_Some (strip_prefix p s)).

Fixpoint rev_string (s acc : string) : string :=
  match s with EmptyString => acc | String a s => rev_string s (String a acc) end.
Definition reverse_string (s : string) : string := rev_string s EmptyString.

Definition strip_suffix (p s : string) : option string :=
  reverse_string <$> strip_prefix (reverse_string p) (reverse_string s).

Definition ends_with (p s : string) : bool := bool_decide (is_Some (strip_suffix p s)).

(** [str::trim_end_matches] and [trim_start_matches] of an ASCII character. *)
Fixpoint trim_start_char (c : ascii) (s : string) : string :=
  match s with
  | EmptyString => EmptyString
  | String a s' => if Ascii.eqb a c then trim_start_char c s' else s
  end.
Definition trim_end_char (c : ascii) (s : string) : string :=
  reverse_string (trim_start_char c (reverse_string s)).

(** [str::replace] of one ASCII character by another. *)
Definition replace_char (from to : ascii) (s : string) : string :=
  map_string (fun a => if Ascii.eqb a from then to else a) s.

(** [str::split_ascii_whitespace]: tab, line feed, form feed, carriage return
    and space; no piece is empty. *)
Definition is_ascii_whitespace (b : N) : bool :=
  ((b =? 9) || (b =? 10) || (b =? 12) || (b =? 13) || (b =? 32))%N.

Fixpoint words_go (s current : string) : list string :=
  let emit rest := if String.eqb current EmptyString then rest else reverse_string current :: rest in
  match s with
  | EmptyString => emit []
  | String a s =>
      if is_ascii_whitespace (N_of_ascii a) then emit (words_go s EmptyString)
      else words_go s (String a current)
  end.
Definition split_ascii_whitespace (s : string) : list string := words_go s EmptyString.

(** [str::parse] of an unsigned integer whose greatest value is [max]: an
    optional [+], then at least one digit, and no overflow. *)
Fixpoint parse_digits (max acc : N) (l : list N) : option N :=
  match l with
  | [] => Some acc
  | b :: l =>
      if is_ascii_digit b then
        let acc := (acc * 10 + (b - 48))%N in
        if (acc <=? max)%N then parse_digits max acc l else None
      else None
  end.
Definition parse_unsigned (max : N) (s : string) : option N :=
  match bytes s with
  | [] => None
  | [43%N] => None
  | 43%N :: l => parse_digits max 0 l
  | l => parse_digits max 0 l
  end.

(** The first piece of [str::split]. *)
Definition first_piece (sep : ascii) (s : string) : string := default EmptyString (head (split_on sep s)).

(** [str::rsplit_once] of an ASCII character: around its last occurrence. *)
Definition rsplit_once (sep : ascii) (s : string) : option (string * string) :=
  '(after, before) ← split_once sep (reverse_string s);
  Some (reverse_string before, reverse_string after).

(** [s.get(..p.len()).is_some_and(|c| c.eq_ignore_ascii_case(p))] for an ASCII
    [p]: a cut inside a character never leaves the bytes of [p]. *)
Definition starts_ignoring_case (s p : string) : bool :=
  eq_ignore_ascii_case (of_bytes (take (String.length p) (bytes s))) p.

Example str_ops :
  strip_suffix "'" "'nonce-a'" = Some "'nonce-a" /\ strip_prefix "bytes=" "bytes=0-" = Some "0-" /\
  split_ascii_whitespace " a  bc " = ["a"; "bc"] /\
  parse_unsigned 65535 "+80" = Some 80%N /\ parse_unsigned 65535 "65536" = None /\
  parse_unsigned 65535 "+" = None /\ trim_end_char "=" "ab==" = "ab" /\
  first_piece ";" "text/plain;charset" = "text/plain" /\
  rsplit_once "/" "/docs/page" = Some ("/docs", "page") /\ rsplit_once "/" "page" = None /\
  starts_ignoring_case "__hOsT-token" "__Host-" = true /\ starts_ignoring_case "__Host" "__Host-" = false.
Proof. split_and!; reflexivity. Qed.

(** ** Facts *)
Lemma rev_string_app (s acc : string) : bytes (rev_string s acc) = rev (bytes s) ++ bytes acc.
Proof.
  revert acc. induction s as [|a s IH]; intros acc; simpl; [done|].
  by rewrite IH, <- app_assoc.
Qed.

Lemma bytes_reverse (s : string) : bytes (reverse_string s) = rev (bytes s).
Proof. unfold reverse_string. by rewrite rev_string_app, app_nil_r. Qed.

Lemma bytes_app (s t : string) : bytes (s +:+ t) = bytes s ++ bytes t.
Proof. induction s as [|a s IH]; simpl; [done|]. by rewrite IH. Qed.

Lemma reverse_reverse_string (s : string) : reverse_string (reverse_string s) = s.
Proof. apply (inj bytes). by rewrite !bytes_reverse, rev_involutive. Qed.

Lemma strip_prefix_Some (p s t : string) : strip_prefix p s = Some t <-> s = p +:+ t.
Proof.
  revert s. induction p as [|a p IH]; intros s; simpl; [by split; intros [=]; subst|].
  change (String a p +:+ t) with (String a (p +:+ t)).
  destruct s as [|b s]; [done|]. destruct (Ascii.eqb_spec a b) as [->|Hne].
  - rewrite IH. split; [by intros ->|by intros [=]].
  - split; [done|]. intros [=]. congruence.
Qed.

Lemma strip_suffix_Some (p s t : string) : strip_suffix p s = Some t <-> s = t +:+ p.
Proof.
  unfold strip_suffix. rewrite fmap_Some. setoid_rewrite strip_prefix_Some. split.
  - intros (r & Hr & ->). apply (inj bytes). rewrite bytes_app, bytes_reverse.
    rewrite <- (rev_involutive (bytes s)), <- (bytes_reverse s), Hr, bytes_app, bytes_reverse, rev_app_distr.
    by rewrite rev_involutive.
  - intros ->. exists (reverse_string t). split; [|by rewrite reverse_reverse_string].
    apply (inj bytes). by rewrite bytes_app, !bytes_reverse, bytes_app, rev_app_distr.
Qed.

Lemma starts_with_spec (p s : string) : starts_with p s = true <-> exists t, s = p +:+ t.
Proof.
  unfold starts_with. rewrite bool_decide_eq_true. unfold is_Some. by setoid_rewrite strip_prefix_Some.
Qed.

Lemma ends_with_spec (p s : string) : ends_with p s = true <-> exists t, s = t +:+ p.
Proof.
  unfold ends_with. rewrite bool_decide_eq_true. unfold is_Some. by setoid_rewrite strip_suffix_Some.
Qed.
