(* ===== verification/OrderedMap.v ===== *)
(** * OrderedMap: Rust's [BTreeMap]

    The program iterates over its [BTreeMap]s (snapshots, key indices, object
    store listings), so their order is part of what it observes. A map is the
    list of its entries in strictly increasing key order; the operations are the
    ones the program uses, and the invariant [sorted] is preserved by each. The
    contract the operations offer their clients is the lookup equations and the
    extensionality lemma at the end, proved for any key type whose [Ord] is
    lawful. *)

From S2P Require Import Prelude.
From Stdlib Require Import Sorted.

Section btree.
Context {K : Type} `{TotalCmpLaws K} `{!CmpEq K} {V : Type}.
Implicit Types (m : list (K * V)) (k : K) (v : V).

Fixpoint bt_get k m : option V :=
  match m with
  | [] => None
  | (k', v) :: m' =>
      match cmp k k' with
      | Eq => Some v
      | Lt => None
      | Gt => bt_get k m'
      end
  end.

Definition bt_contains k m : bool := bool_decide (is_Some (bt_get k m)).

Fixpoint bt_insert k v m : list (K * V) :=
  match m with
  | [] => [(k, v)]
  | (k', v') :: m' =>
      match cmp k k' with
      | Eq => (k', v) :: m'
      | Lt => (k, v) :: m
      | Gt => (k', v') :: bt_insert k v m'
      end
  end.

Fixpoint bt_remove k m : list (K * V) :=
  match m with
  | [] => []
  | (k', v') :: m' =>
      match cmp k k' with
      | Eq => m'
      | Lt => m
      | Gt => (k', v') :: bt_remove k m'
      end
  end.

(** [iter.collect::<BTreeMap<_, _>>()]: later entries replace earlier ones. *)
Definition bt_collect (l : list (K * V)) : list (K * V) :=
  foldl (fun m kv => bt_insert kv.1 kv.2 m) [] l.

Definition key_lt (x y : K * V) : Prop := cmp x.1 y.1 = Lt.
Definition sorted m : Prop := StronglySorted key_lt m.

(** ** Invariant *)
Lemma sorted_nil : sorted [].
Proof. constructor. Qed.

Lemma sorted_cons_inv k v m :
  sorted ((k, v) :: m) -> sorted m /\ Forall (fun x => cmp k x.1 = Lt) m.
Proof. by intros [? ?]%StronglySorted_inv. Qed.

Lemma Forall_bt_insert (P : K * V -> Prop) k v m :
  (forall k', cmp k k' = Eq -> P (k', v)) -> Forall P m -> Forall P (bt_insert k v m).
Proof.
  intros Hp. induction 1 as [|[k' v'] m Hk Hm IH]; simpl.
  - constructor; [|constructor]. apply Hp, cmp_refl.
  - destruct (cmp k k') eqn:Hkk; repeat (constructor; try done); [by apply Hp|].
    apply Hp, cmp_refl.
Qed.

Lemma Forall_bt_remove (P : K * V -> Prop) k m : Forall P m -> Forall P (bt_remove k m).
Proof.
  induction 1 as [|[k' v'] m Hk Hm IH]; simpl; [constructor|].
  destruct (cmp k k'); [done|by constructor|by constructor].
Qed.

Lemma bt_insert_sorted k v m : sorted m -> sorted (bt_insert k v m).
Proof.
  induction m as [|[k' v'] m IH]; intros Hs; simpl; [repeat constructor|].
  apply sorted_cons_inv in Hs as Hs'. destruct Hs' as [Hm Hlt].
  destruct (cmp k k') eqn:Hkk.
  - by constructor.
  - constructor; [done|]. constructor; [done|].
    eapply Forall_impl; [done|]. intros x Hx. by eapply cmp_lt_trans.
  - constructor; [by apply IH|]. apply Forall_bt_insert; [|done].
    intros k2 Hk2. unfold key_lt; simpl.
    rewrite <- (cmp_eq_compat_r k k2 k' Hk2). by apply cmp_gt_lt.
Qed.

Lemma bt_remove_sorted k m : sorted m -> sorted (bt_remove k m).
Proof.
  induction m as [|[k' v'] m IH]; intros Hs; simpl; [done|].
  apply sorted_cons_inv in Hs as Hs'. destruct Hs' as [Hm Hlt].
  destruct (cmp k k'); [done|done|].
  constructor; [by apply IH|]. by apply Forall_bt_remove.
Qed.

(** ** Lookup equations *)
Lemma bt_get_none_lt k m : Forall (fun x => cmp k x.1 = Lt) m -> bt_get k m = None.
Proof. intros Hm. destruct m as [|[k' v'] m]; [done|]. apply Forall_cons in Hm as [Hk _].
  simpl in *. by rewrite Hk. Qed.

Lemma bt_get_insert k k' v m :
  sorted m ->
  bt_get k' (bt_insert k v m) = match cmp k' k with Eq => Some v | _ => bt_get k' m end.
Proof.
  induction m as [|[k0 v0] m IH]; intros Hs; simpl.
  - by destruct (cmp k' k).
  - apply sorted_cons_inv in Hs as [Hm Hlt]. destruct (cmp k k0) eqn:Hkk; simpl.
    + rewrite (cmp_eq_compat_r k k0 k' Hkk). by destruct (cmp k' k0).
    + destruct (cmp k' k) eqn:Hk'; [done| |done].
      by rewrite (cmp_lt_trans k' k k0 Hk' Hkk).
    + destruct (cmp k' k0) eqn:Hk'.
      * rewrite (cmp_eq_compat k' k0 k Hk'). apply cmp_gt_lt in Hkk. by rewrite Hkk.
      * apply cmp_gt_lt in Hkk. by rewrite (cmp_lt_trans k' k0 k Hk' Hkk).
      * by apply IH.
Qed.

Lemma bt_get_remove k k' m :
  sorted m ->
  bt_get k' (bt_remove k m) = match cmp k' k with Eq => None | _ => bt_get k' m end.
Proof.
  induction m as [|[k0 v0] m IH]; intros Hs; simpl.
  - by destruct (cmp k' k).
  - apply sorted_cons_inv in Hs as [Hm Hlt]. destruct (cmp k k0) eqn:Hkk; simpl.
    + rewrite (cmp_eq_compat_r k k0 k' Hkk). destruct (cmp k' k0) eqn:Hk'; [| |done].
      * apply bt_get_none_lt. eapply Forall_impl; [done|]. intros x Hx; simpl.
        by rewrite (cmp_eq_compat k' k0 _ Hk').
      * apply bt_get_none_lt. eapply Forall_impl; [done|]. intros x Hx; simpl.
        by eapply cmp_lt_trans.
    + destruct (cmp k' k) eqn:Hk'; [|done|done].
      by rewrite (cmp_eq_compat k' k _ Hk'), Hkk.
    + destruct (cmp k' k0) eqn:Hk'.
      * rewrite (cmp_eq_compat k' k0 k Hk'). apply cmp_gt_lt in Hkk. by rewrite Hkk.
      * apply cmp_gt_lt in Hkk. by rewrite (cmp_lt_trans k' k0 k Hk' Hkk).
      * by apply IH.
Qed.

Lemma bt_get_insert_eq k v m : sorted m -> bt_get k (bt_insert k v m) = Some v.
Proof. intros Hs. by rewrite bt_get_insert, cmp_refl. Qed.

Lemma bt_get_insert_ne k k' v m :
  sorted m -> k <> k' -> bt_get k' (bt_insert k v m) = bt_get k' m.
Proof.
  intros Hs Hne. rewrite bt_get_insert by done.
  destruct (cmp k' k) eqn:Hc; [|done..]. by apply cmp_eq in Hc.
Qed.

Lemma bt_get_remove_eq k m : sorted m -> bt_get k (bt_remove k m) = None.
Proof. intros Hs. by rewrite bt_get_remove, cmp_refl. Qed.

Lemma bt_get_remove_ne k k' m :
  sorted m -> k <> k' -> bt_get k' (bt_remove k m) = bt_get k' m.
Proof.
  intros Hs Hne. rewrite bt_get_remove by done.
  destruct (cmp k' k) eqn:Hc; [|done..]. by apply cmp_eq in Hc.
Qed.

Lemma bt_get_elem k v m : sorted m -> bt_get k m = Some v <-> (k, v) ∈ m.
Proof.
  induction m as [|[k0 v0] m IH]; intros Hs; simpl.
  - split; [done|]. by intros ?%not_elem_of_nil.
  - apply sorted_cons_inv in Hs as [Hm Hlt]. rewrite elem_of_cons, <- IH by done.
    destruct (cmp k k0) eqn:Hkk.
    + apply cmp_eq in Hkk as ->. split; [naive_solver|].
      intros [[= ->]|Hv]; [done|]. rewrite bt_get_none_lt in Hv; [done|done].
    + split; [done|]. intros [[= -> ->]|Hv]; [by rewrite cmp_refl in Hkk|].
      rewrite bt_get_none_lt in Hv; [done|].
      eapply Forall_impl; [done|]. intros x Hx. by eapply cmp_lt_trans.
    + split; [naive_solver|]. intros [[= -> ->]|Hv]; [by rewrite cmp_refl in Hkk|done].
Qed.

Lemma bt_remove_none k m : bt_get k m = None -> bt_remove k m = m.
Proof.
  induction m as [|[k0 v0] m IH]; simpl; [done|].
  destruct (cmp k k0); [done|done|]. intros Hn. by rewrite IH.
Qed.

Lemma bt_insert_id k v m : bt_get k m = Some v -> bt_insert k v m = m.
Proof.
  induction m as [|[k0 v0] m IH]; simpl; [done|].
  destruct (cmp k k0) eqn:Hkk; [by intros [= ->]|done|]. intros Hv. by rewrite IH.
Qed.

(** ** Counting entries and summing over them *)
Lemma sum_by_bt_insert (f : K * V -> N) k v m :
  (sum_by f (bt_insert k v m)
   + match bt_get k m with Some old => f (k, old) | None => 0 end
   = sum_by f m + f (k, v))%N.
Proof.
  induction m as [|[k0 v0] m IH]; simpl; [lia|].
  destruct (cmp k k0) eqn:Hkk; simpl; [|lia|lia].
  apply cmp_eq in Hkk as ->. lia.
Qed.

Lemma sum_by_bt_remove (f : K * V -> N) k m :
  (sum_by f (bt_remove k m)
   + match bt_get k m with Some old => f (k, old) | None => 0 end = sum_by f m)%N.
Proof.
  induction m as [|[k0 v0] m IH]; simpl; [lia|].
  destruct (cmp k k0) eqn:Hkk; simpl; [|lia|lia].
  apply cmp_eq in Hkk as ->. lia.
Qed.

Lemma length_bt_insert k v m :
  length (bt_insert k v m) = if bt_contains k m then length m else S (length m).
Proof.
  unfold bt_contains. induction m as [|[k0 v0] m IH]; simpl; [done|].
  destruct (cmp k k0) eqn:Hkk; simpl; [done|done|]. rewrite IH. by case_bool_decide.
Qed.

Lemma length_bt_remove_le k m : length (bt_remove k m) <= length m.
Proof. induction m as [|[k0 v0] m IH]; simpl; [lia|]. destruct (cmp k k0); simpl; lia. Qed.

Lemma sum_by_bt_remove_le (f : K * V -> N) k m :
  (sum_by f (bt_remove k m) <= sum_by f m)%N.
Proof. pose proof (sum_by_bt_remove f k m). lia. Qed.

(** ** Extensionality: sorted maps with the same lookups are equal *)
Lemma bt_ext m1 m2 :
  sorted m1 -> sorted m2 -> (forall k, bt_get k m1 = bt_get k m2) -> m1 = m2.
Proof.
  revert m2. induction m1 as [|[k1 v1] m1 IH]; intros [|[k2 v2] m2] Hs1 Hs2 Heq; [done|..].
  - specialize (Heq k2). simpl in Heq. by rewrite cmp_refl in Heq.
  - specialize (Heq k1). simpl in Heq. by rewrite cmp_refl in Heq.
  - apply sorted_cons_inv in Hs1 as Hs1'. apply sorted_cons_inv in Hs2 as Hs2'.
    destruct Hs1' as [Hm1 Hlt1], Hs2' as [Hm2 Hlt2].
    assert (cmp k1 k2 = Eq) as Hk%cmp_eq.
    { pose proof (Heq k1) as H1. pose proof (Heq k2) as H2. simpl in *.
      rewrite cmp_refl in H1, H2. rewrite (cmp_antisym k1 k2) in H2.
      by destruct (cmp k1 k2). }
    subst k2. pose proof (Heq k1) as H1. simpl in H1. rewrite cmp_refl in H1.
    injection H1 as ->. f_equal. apply IH; [done..|]. intros k.
    pose proof (Heq k) as Hk. simpl in Hk.
    destruct (cmp k k1) eqn:Hkk; [| |done].
    + rewrite !bt_get_none_lt; [done|..]; (eapply Forall_impl; [done|]);
        intros x Hx; simpl; by rewrite (cmp_eq_compat k k1 _ Hkk).
    + rewrite !bt_get_none_lt; [done|..]; (eapply Forall_impl; [done|]);
        intros x Hx; simpl; by eapply cmp_lt_trans.
Qed.

(** ** Collecting *)
Lemma bt_collect_sorted l : sorted (bt_collect l).
Proof.
  unfold bt_collect.
  assert (Hg : forall m, sorted m -> sorted (foldl (fun m kv => bt_insert kv.1 kv.2 m) m l)).
  { induction l as [|[k v] l IH]; intros m Hm; [done|]. by apply IH, bt_insert_sorted. }
  apply Hg, sorted_nil.
Qed.

Lemma bt_insert_last k v m :
  Forall (fun x => cmp x.1 k = Lt) m -> bt_insert k v m = m ++ [(k, v)].
Proof.
  induction 1 as [|[k0 v0] m Hk Hm IH]; simpl; [done|]. simpl in Hk.
  apply cmp_gt_lt in Hk. by rewrite Hk, IH.
Qed.

(** Entries that are already in order are collected as they are. *)
Lemma bt_collect_id m : sorted m -> bt_collect m = m.
Proof.
  unfold bt_collect. rewrite <- (app_nil_l m) at 1 3. generalize (@nil (K * V)) as acc.
  induction m as [|[k v] m IH]; intros acc Hs; simpl; [by rewrite app_nil_r|].
  rewrite bt_insert_last.
  - rewrite (cons_middle (k, v) acc m), app_assoc. rewrite cons_middle, app_assoc in Hs. by apply IH.
  - clear IH. induction acc as [|x acc IH]; [constructor|]. simpl in Hs.
    apply StronglySorted_inv in Hs as [Hs Hall]. constructor; [|by apply IH].
    rewrite Forall_app in Hall. destruct Hall as [_ [Hx _]%Forall_cons]. done.
Qed.

Lemma length_bt_collect_le l : length (bt_collect l) <= length l.
Proof.
  unfold bt_collect.
  assert (Hg : forall m, length (foldl (fun m kv => bt_insert kv.1 kv.2 m) m l)
                    <= length m + length l).
  { induction l as [|[k v] l IH]; intros m; simpl; [lia|].
    etrans; [apply IH|]. rewrite length_bt_insert. case_match; lia. }
  apply (Hg []).
Qed.

Lemma bt_insert_fresh_Permutation k v m :
  bt_contains k m = false -> bt_insert k v m ≡ₚ (k, v) :: m.
Proof.
  unfold bt_contains. induction m as [|[k0 v0] m IH]; simpl; [done|].
  destruct (cmp k k0) eqn:Hkk; [by rewrite bool_decide_eq_true_2 by eauto|done|].
  intros Hn. rewrite (IH Hn). apply Permutation_swap.
Qed.

(** No entry was lost exactly when no key occurs twice; then the collected
    map holds the same entries. *)
Lemma bt_collect_Permutation l : length (bt_collect l) = length l -> bt_collect l ≡ₚ l.
Proof.
  unfold bt_collect.
  assert (Hle : forall l m, length (foldl (fun m kv => bt_insert kv.1 kv.2 m) m l)
                       <= length m + length l).
  { clear l. induction l as [|[k v] l IH]; intros m; simpl; [lia|].
    etrans; [apply IH|]. rewrite length_bt_insert. case_match; lia. }
  assert (Hg : forall m, length (foldl (fun m kv => bt_insert kv.1 kv.2 m) m l)
                    = length m + length l ->
                foldl (fun m kv => bt_insert kv.1 kv.2 m) m l ≡ₚ m ++ l).
  { induction l as [|[k v] l IH]; intros m Hlen; simpl in *; [by rewrite app_nil_r|].
    assert (bt_contains k m = false) as Hf.
    { destruct (bt_contains k m) eqn:Hc; [|done].
      pose proof (Hle l (bt_insert k v m)) as Hl. rewrite length_bt_insert, Hc in Hl. lia. }
    rewrite IH.
    - rewrite (bt_insert_fresh_Permutation k v m Hf). apply Permutation_middle.
    - rewrite length_bt_insert, Hf. lia. }
  apply (Hg []).
Qed.
End btree.

#[export] Hint Resolve sorted_nil bt_insert_sorted bt_remove_sorted bt_collect_sorted : breeze.

(** ** The abstract map: what an ordered map means without its order *)
Section abstract.
Context {K : Type} `{TotalCmpLaws K} `{!CmpEq K} `{Countable K} {V : Type}.
Implicit Types (m : list (K * V)) (k : K) (v : V).

Definition bt_map m : gmap K V := list_to_map m.

Lemma sorted_NoDup m : sorted m -> NoDup m.*1.
Proof.
  induction m as [|[k v] m IH]; intros Hs; simpl; [constructor|].
  apply sorted_cons_inv in Hs as [Hm Hlt]. constructor; [|by apply IH].
  intros ([k' v'] & -> & Hin)%list_elem_of_fmap. rewrite Forall_forall in Hlt.
  apply Hlt in Hin. simpl in Hin. by rewrite cmp_refl in Hin.
Qed.

Lemma lookup_bt_map m k : sorted m -> bt_map m !! k = bt_get k m.
Proof.
  intros Hs. unfold bt_map. destruct (bt_get k m) as [v|] eqn:Hg.
  - apply elem_of_list_to_map_1; [by apply sorted_NoDup|]. by apply bt_get_elem.
  - apply not_elem_of_list_to_map_1. intros ([k' v'] & -> & Hin)%list_elem_of_fmap.
    apply bt_get_elem in Hin; [|done]. simpl in *. congruence.
Qed.

Lemma bt_map_insert m k v : sorted m -> bt_map (bt_insert k v m) = <[k:=v]> (bt_map m).
Proof.
  intros Hs. apply map_eq. intros k'.
  rewrite lookup_bt_map by auto with breeze. rewrite lookup_insert. case_decide; subst.
  - by apply bt_get_insert_eq.
  - rewrite lookup_bt_map by done. by apply bt_get_insert_ne.
Qed.

Lemma bt_map_remove m k : sorted m -> bt_map (bt_remove k m) = delete k (bt_map m).
Proof.
  intros Hs. apply map_eq. intros k'.
  rewrite lookup_bt_map by auto with breeze. rewrite lookup_delete. case_decide; subst.
  - by apply bt_get_remove_eq.
  - rewrite lookup_bt_map by done. by apply bt_get_remove_ne.
Qed.

Lemma bt_map_to_list m : sorted m -> map_to_list (bt_map m) ≡ₚ m.
Proof. intros Hs. apply map_to_list_to_map. by apply sorted_NoDup. Qed.

Lemma size_bt_map m : sorted m -> size (bt_map m) = length m.
Proof.
  intros Hs. unfold bt_map. by rewrite map_size_list_to_map by (by apply sorted_NoDup).
Qed.

(** A sorted map is determined by its meaning. *)
Lemma bt_map_inj m1 m2 : sorted m1 -> sorted m2 -> bt_map m1 = bt_map m2 -> m1 = m2.
Proof.
  intros Hs1 Hs2 Heq. apply bt_ext; [done..|]. intros k.
  rewrite <- !lookup_bt_map by done. by rewrite Heq.
Qed.

Lemma bt_contains_lookup m k :
  sorted m -> bt_contains k m = bool_decide (is_Some (bt_map m !! k)).
Proof. intros Hs. unfold bt_contains. by rewrite lookup_bt_map. Qed.
End abstract.
