(* ===== verification/Limits.v ===== *)
(** * Limits: the budgets of crates/platform/src/limits.rs the components use.

    All are [usize] constants. *)

From S2P Require Import Prelude.

Definition MAX_URL_BYTES : N := 16 * 1024.
Definition MAX_KEEPALIVE_BODY_BYTES : N := 64 * 1024.
Definition MAX_RESPONSE_BODY_BYTES : N := 16 * 1024 * 1024.
Definition MAX_PREFLIGHT_BODY_BYTES : N := 64 * 1024.
Definition MAX_REDIRECTS : N := 20.
Definition MAX_FETCH_STREAM_CHUNK_BYTES : N := 64 * 1024.

Definition MAX_COOKIES : N := 3000.
Definition MAX_COOKIES_PER_DOMAIN : N := 180.
Definition MAX_COOKIE_HEADER_BYTES : N := 64 * 1024.
Definition MAX_PERSISTED_COOKIE_BYTES : N := 16 * 1024 * 1024.

Definition MAX_STORAGE_ORIGINS : N := 256.
Definition MAX_STORAGE_ENTRIES_PER_ORIGIN : N := 1024.
Definition MAX_STORAGE_BYTES_PER_ORIGIN : N := 5 * 1024 * 1024.
Definition MAX_PENDING_STORAGE_BYTES : N := 32 * 1024 * 1024.
Definition MAX_PERSISTED_STORAGE_BYTES : N := 64 * 1024 * 1024.
Definition MAX_QUEUED_BROWSER_WRITES : N := 4096.
Definition MAX_INDEXED_DB_IPC_BYTES : N := 4 * 1024 * 1024.

Definition MAX_HISTORY_STATE_BYTES : N := 32 * 1024.
Definition MAX_SESSION_HISTORY_ENTRIES : N := 512.
Definition MAX_COOKIE_ASSIGNMENT_BYTES : N := 4 * 1024.
Definition MAX_STORAGE_KEY_BYTES : N := MAX_STORAGE_BYTES_PER_ORIGIN.
Definition MAX_STORAGE_VALUE_BYTES : N := MAX_STORAGE_BYTES_PER_ORIGIN.
Definition MAX_STORAGE_FRAME_BYTES : N := 2 * MAX_STORAGE_BYTES_PER_ORIGIN + 26.
Definition MAX_STORAGE_WRITE_FRAME_BYTES : N := MAX_STORAGE_FRAME_BYTES + MAX_URL_BYTES + 12.
Definition MAX_STORAGE_SYNC_FRAME_BYTES : N := 4 * MAX_STORAGE_BYTES_PER_ORIGIN + MAX_URL_BYTES + 64.
Definition MAX_CONTROL_PAYLOAD : N := 256 * 1024.
Definition MAX_WEBSOCKET_MESSAGE_BYTES : N := 192 * 1024.
Definition MAX_FRAME_PAYLOAD : N := 8 * 1024 * 1024.
Definition MAX_RENDERER_FETCH_HEADERS : N := 256.
Definition MAX_FETCH_HEADER_NAME_BYTES : N := 1024.
Definition MAX_FETCH_HEADER_VALUE_BYTES : N := 16 * 1024.
Definition MAX_RENDERER_DIAGNOSTIC_BYTES : N := 16 * 1024.
Definition MAX_RENDERER_TEXT_INPUT_BYTES : N := 64 * 1024.
Definition MAX_PAGE_DIAGNOSTIC_SELECTORS : N := 32.
Definition MAX_PAGE_DIAGNOSTIC_SELECTOR_BYTES : N := 4 * 1024.
Definition MAX_MEDIA_DIMENSION : N := 8192.
Definition MAX_MEDIA_DECODED_FRAME_BYTES : N := 128 * 1024 * 1024.
Definition MAX_FETCH_STREAM_WINDOW_BYTES : N := 256 * 1024.
Definition MAX_FETCH_STREAM_IN_FLIGHT_BYTES : N := 4 * 1024 * 1024.
Definition MAX_RENDERER_FETCH_STREAM_BYTES : N := 64 * 1024 * 1024.
Definition MAX_RENDERER_FETCH_REQUESTS_PER_BATCH : N := 256.
Definition MAX_RENDERER_FETCH_BATCH_BODY_BYTES : N := 32 * 1024 * 1024.
Definition MAX_RENDERER_FETCH_BATCH_METADATA_BYTES : N := 4 * 1024 * 1024.
Definition MAX_QUEUED_BROWSER_COMMANDS : N := 8.
Definition MAX_RENDERER_PRESENTATION_BYTES : N := 64 * 1024 * 1024.
Definition MAX_QUEUED_RENDERER_EVENTS : N := 256.
Definition MAX_QUEUED_RENDERER_FETCH_BATCHES : N := 1.
