(* ===== verification/Words.v ===== *)
(** * Words: machine integers and strings by their types

    The protocol types carry their integers at their width and their strings as
    UTF-8, so that an encoder never sees a value its Rust type excludes. A
    [word hi] is a number up to [hi]; a [ustring] is Rust's [String]. Signed
    integers and floats travel as their bit patterns. *)

From Stdlib Require Import Strings.Byte.
From Stdlib Require Import Sumbool.
From S2P Require Import Prelude Text.

(** ** Unsigned integers *)
Record word (hi : N) := Word { val :> N; val_ok : (val <=? hi)%N = true }.
Arguments Word {hi} val val_ok.
Arguments val {hi} w : rename.

Lemma word_eq {hi} (w v : word hi) : val w = val v -> w = v.
Proof. destruct w, v; simpl. intros ->. f_equal. apply proof_irrel. Qed.

#[global] Instance word_eq_dec hi : EqDecision (word hi).
Proof.
  intros w v. destruct (decide (val w = val v)) as [H|H]; [left; by apply word_eq|right; congruence].
Defined.

Lemma zero_fits (hi : N) : (0 <=? hi)%N = true.
Proof. by apply N.leb_le, N.le_0_l. Qed.

(** The number itself when it fits. *)
Definition to_word (hi n : N) : word hi :=
  match sumbool_of_bool (n <=? hi)%N with
  | left H => Word n H
  | right _ => Word 0 (zero_fits hi)
  end.

Lemma val_le {hi} (w : word hi) : (val w <= hi)%N.
Proof. destruct w as [n H]. by apply N.leb_le. Qed.

Lemma val_to_word (hi n : N) : (n <= hi)%N -> val (to_word hi n) = n.
Proof.
  intros H. unfold to_word. destruct (sumbool_of_bool (n <=? hi)%N) as [?|Hn]; [done|].
  apply N.leb_gt in Hn. lia.
Qed.

Lemma to_word_val {hi} (w : word hi) : to_word hi (val w) = w.
Proof. apply word_eq, val_to_word, val_le. Qed.

Definition u8 := word 255.
Definition u16 := word 65535.
Definition u32 := word 4294967295.
Definition u64 := word u64_max.
Definition u128_max : N := 340282366920938463463374607431768211455.
Definition u128 := word u128_max.
#[global] Instance u8_eq_dec : EqDecision u8 := word_eq_dec _.
#[global] Instance u16_eq_dec : EqDecision u16 := word_eq_dec _.
#[global] Instance u32_eq_dec : EqDecision u32 := word_eq_dec _.
#[global] Instance u64_eq_dec : EqDecision u64 := word_eq_dec _.
#[global] Instance u128_eq_dec : EqDecision u128 := word_eq_dec _.

(** ** Strings *)
Record ustring := Str { text :> string; text_ok : well_formed text = true }.

Lemma ustring_eq (s t : ustring) : text s = text t -> s = t.
Proof. destruct s, t; simpl. intros ->. f_equal. apply proof_irrel. Qed.

#[global] Instance ustring_eq_dec : EqDecision ustring.
Proof.
  intros s t. destruct (decide (text s = text t)) as [H|H]; [left; by apply ustring_eq|right; congruence].
Defined.

(** [String::from_utf8]. *)
Definition to_ustring (s : string) : option ustring :=
  match sumbool_of_bool (well_formed s) with left H => Some (Str s H) | right _ => None end.

Lemma to_ustring_text (s : ustring) : to_ustring (text s) = Some s.
Proof.
  unfold to_ustring. destruct (sumbool_of_bool (well_formed (text s))) as [H|H].
  - f_equal. by apply ustring_eq.
  - destruct s as [t Ht]. simpl in H. congruence.
Qed.

Lemma to_ustring_Some (s : string) (u : ustring) : to_ustring s = Some u <-> text u = s.
Proof.
  split.
  - unfold to_ustring. destruct (sumbool_of_bool (well_formed s)) as [H|H]; [|done]. by intros [= <-].
  - intros <-. apply to_ustring_text.
Qed.

(** ** Little-endian bytes *)
Definition byte_of (n : N) : byte := default x00 (Byte.of_N n).

Fixpoint le_bytes (k : nat) (n : N) : list byte :=
  match k with O => [] | S k => byte_of (n mod 256) :: le_bytes k (n / 256) end.

Fixpoint le_value (l : list byte) : N :=
  match l with [] => 0 | b :: l => Byte.to_N b + 256 * le_value l end%N.

Lemma byte_of_to_N (n : N) : (n < 256)%N -> Byte.to_N (byte_of n) = n.
Proof.
  intros H. unfold byte_of. destruct (Byte.of_N n) as [b|] eqn:E; simpl.
  - by apply Byte.to_of_N.
  - apply Byte.of_N_None_iff in E. lia.
Qed.

Lemma to_N_byte_of (b : byte) : byte_of (Byte.to_N b) = b.
Proof. unfold byte_of. by rewrite Byte.of_to_N. Qed.

Lemma length_le_bytes (k : nat) (n : N) : length (le_bytes k n) = k.
Proof. revert n. induction k as [|k IH]; intros n; simpl; [done|]. by rewrite IH. Qed.

Lemma le_value_bytes (k : nat) (n : N) : (n < 256 ^ N.of_nat k)%N -> le_value (le_bytes k n) = n.
Proof.
  revert n. induction k as [|k IH]; intros n; simpl le_bytes.
  - simpl. lia.
  - rewrite Nat2N.inj_succ, N.pow_succ_r'. intros H. simpl.
    rewrite byte_of_to_N by (by apply N.mod_lt). rewrite IH.
    + pose proof (N.div_mod n 256). lia.
    + apply N.Div0.div_lt_upper_bound; lia.
Qed.

Lemma le_value_bound (l : list byte) : (le_value l < 256 ^ N.of_nat (length l))%N.
Proof.
  induction l as [|b l IH]; simpl length; [simpl; lia|].
  rewrite Nat2N.inj_succ, N.pow_succ_r'. simpl. pose proof (Byte.to_N_bounded b). lia.
Qed.

(** The bytes of a string. *)
Lemma string_of_bytes (s : string) : String.string_of_list_byte (String.list_byte_of_string s) = s.
Proof. apply String.string_of_list_byte_of_string. Qed.

Lemma length_bytes_of (s : string) : length (String.list_byte_of_string s) = String.length s.
Proof.
  unfold String.list_byte_of_string. rewrite List.length_map. induction s; simpl; congruence.
Qed.

(** ** Rust's [f32], for the bounds of the protocol's coordinates *)

(** A single is its 32-bit pattern; its value is the integer [f32_value] in units
    of 2^-149, the smallest subnormal, so that comparisons are exact. *)
Definition f32 := u32.
#[global] Instance f32_eq_dec : EqDecision f32 := u32_eq_dec.

Definition f32_magnitude (b : N) : Z := Z.of_N (b mod 2 ^ 31).
Definition f32_exponent (b : N) : Z := f32_magnitude b / 2 ^ 23.
Definition f32_fraction (b : N) : Z := f32_magnitude b mod 2 ^ 23.
Definition f32_value (b : N) : Z :=
  let q := f32_exponent b in
  let m := (if q =? 0 then f32_fraction b else (f32_fraction b + 2 ^ 23) * 2 ^ (q - 1))%Z in
  if N.testbit b 31 then (- m)%Z else m.

Definition f32_is_nan (b : N) : bool := (f32_exponent b =? 255)%Z && negb (f32_fraction b =? 0)%Z.
Definition f32_is_finite (b : N) : bool := (f32_exponent b <? 255)%Z.

(** [<=] and [>]: false when a side is a NaN. *)
Definition f32_leb (a b : N) : bool := negb (f32_is_nan a) && negb (f32_is_nan b) && (f32_value a <=? f32_value b)%Z.
Definition f32_gtb (a b : N) : bool := negb (f32_is_nan a) && negb (f32_is_nan b) && (f32_value b <? f32_value a)%Z.
(** [(lo..=hi).contains(&v)] and [v.abs()]. *)
Definition f32_within (lo hi v : N) : bool := f32_leb lo v && f32_leb v hi.
Definition f32_abs (b : N) : N := b mod 2 ^ 31.

(** The literals of the checks. *)
Definition f32_0 : N := 0.
Definition f32_tenth : N := 0x3dcccccd.
Definition f32_1 : N := 0x3f800000.
Definition f32_2 : N := 0x40000000.
Definition f32_10 : N := 0x41200000.
Definition f32_32768 : N := 0x47000000.
Definition f32_16777216 : N := 0x4b800000.

Example f32_literals :
  (f32_value f32_1 = 2 ^ 149 /\ f32_value f32_2 = 2 * 2 ^ 149 /\ f32_value f32_10 = 10 * 2 ^ 149 /\
   f32_value f32_32768 = 32768 * 2 ^ 149 /\ f32_value f32_16777216 = 16777216 * 2 ^ 149 /\
   Z.abs (10 * f32_value f32_tenth - 2 ^ 149) <= 10 * 2 ^ (149 - 4 - 24))%Z.
Proof. repeat split; vm_compute; congruence. Qed.

(** A finite value in the range is at least the lower and at most the upper bound. *)
Lemma f32_within_value (lo hi v : N) :
  f32_within lo hi v = true -> (f32_value lo <= f32_value v <= f32_value hi)%Z.
Proof. unfold f32_within, f32_leb. rewrite !andb_true_iff, !Z.leb_le. tauto. Qed.
