(* ===== verification/Protocol.v ===== *)
(** * Protocol: what the renderer pipe's messages have in common

    [ProtocolError] (src/renderer_protocol/codec.rs), the identifiers of
    documents and nodes (document.rs, input.rs) and the limits of frames. *)

From S2P Require Import Prelude Words.

Inductive ProtocolError :=
  | IpcIo (error : string)
  | InvalidMagic
  | IncompatibleVersion (major minor : N)
  | ReservedFlags (flags : N)
  | PayloadTooLarge (length : N)
  | WrongSession (expected actual : N)
  | WrongSequence (expected actual : N)
  | SequenceExhausted
  | UnexpectedMessage (kind : N)
  | InvalidPayload (field : string)
  | InvalidUtf8.
#[global] Instance ProtocolError_eq_dec : EqDecision ProtocolError.
Proof. solve_decision. Defined.

(** [if b { return Err(ProtocolError::InvalidPayload(field)) }] *)
Definition reject (b : bool) (field : string) : result ProtocolError () := ensure (negb b) (InvalidPayload field).

(** ** Identifiers that are never zero *)
Record nonzero_id := NonzeroId { id_value :> u64; id_ok : (id_value =? 0)%N = false }.

Lemma nonzero_id_eq (i j : nonzero_id) : id_value i = id_value j -> i = j.
Proof. destruct i, j; simpl. intros ->. f_equal. apply proof_irrel. Qed.

#[global] Instance nonzero_id_eq_dec : EqDecision nonzero_id.
Proof.
  intros i j. destruct (decide (id_value i = id_value j)) as [H|H]; [left; by apply nonzero_id_eq|right; congruence].
Defined.

Definition nonzero_id_new (field : string) (value : u64) : result ProtocolError nonzero_id :=
  match Sumbool.sumbool_of_bool (value =? 0)%N with
  | left _ => Err (InvalidPayload field)
  | right H => Ok (NonzeroId value H)
  end.

Lemma nonzero_id_new_get (field : string) (i : nonzero_id) : nonzero_id_new field (id_value i) = Ok i.
Proof.
  unfold nonzero_id_new. destruct (Sumbool.sumbool_of_bool (id_value i =? 0)%N) as [H|H].
  - destruct i as [v Hv]. simpl in H. congruence.
  - f_equal. by apply nonzero_id_eq.
Qed.

Definition DocumentId := nonzero_id.
#[global] Instance DocumentId_eq_dec : EqDecision DocumentId := nonzero_id_eq_dec.
Definition DocumentId_new : u64 -> result ProtocolError DocumentId := nonzero_id_new "zero document identifier".
Definition RendererSessionId := nonzero_id.
Definition RendererSessionId_new : u64 -> result ProtocolError RendererSessionId :=
  nonzero_id_new "zero renderer session".
Definition BrowsingContextId := nonzero_id.
Definition BrowsingContextId_new : u64 -> result ProtocolError BrowsingContextId :=
  nonzero_id_new "zero browsing context".

(** A node is a namespace and a local number, both nonzero. *)
Definition node_ok (value : N) : bool := negb (value / 2 ^ 64 =? 0)%N && negb (value mod 2 ^ 64 =? 0)%N.
Record DocumentNodeId := NodeId { node_value :> u128; node_value_ok : node_ok node_value = true }.

Lemma node_id_eq (i j : DocumentNodeId) : node_value i = node_value j -> i = j.
Proof. destruct i, j; simpl. intros ->. f_equal. apply proof_irrel. Qed.

#[global] Instance DocumentNodeId_eq_dec : EqDecision DocumentNodeId.
Proof.
  intros i j. destruct (decide (node_value i = node_value j)) as [H|H]; [left; by apply node_id_eq|right; congruence].
Defined.

Definition DocumentNodeId_new (value : u128) : result ProtocolError DocumentNodeId :=
  match Sumbool.sumbool_of_bool (node_ok value) with
  | left H => Ok (NodeId value H)
  | right _ => Err (InvalidPayload "document node identifier")
  end.

Lemma DocumentNodeId_new_get (i : DocumentNodeId) : DocumentNodeId_new (node_value i) = Ok i.
Proof.
  unfold DocumentNodeId_new. destruct (Sumbool.sumbool_of_bool (node_ok (node_value i))) as [H|H].
  - f_equal. by apply node_id_eq.
  - destruct i as [v Hv]. simpl in H. congruence.
Qed.

(** ** Frame limits (src/renderer_protocol.rs, crates/platform/src/limits.rs) *)
Definition HEADER_LENGTH : nat := 32.
Definition PROTOCOL_MAJOR : N := 19.
Definition PROTOCOL_MINOR : N := 0.
