(* ===== verification/Clock.v ===== *)
(** * Clock: [SystemTime] and [Duration] of the standard library

    A [SystemTime] is the number of nanoseconds since [UNIX_EPOCH], in [Z], and
    a [Duration] the number of nanoseconds, in [N]. On Windows a time is a
    signed 64-bit count of 100-nanosecond ticks since 1601, which is what bounds
    the checked operations; the durations the program adds are whole seconds. *)

From S2P Require Import Prelude.
From Stdlib Require Import ZArith.

Notation SystemTime := Z (only parsing).
Notation Duration := N (only parsing).

Definition UNIX_EPOCH : SystemTime := 0%Z.
Definition nanos_per_sec : N := 1000000000.
Definition from_secs (s : N) : Duration := (s * nanos_per_sec)%N.
Definition as_secs (d : Duration) : N := (d / nanos_per_sec)%N.
Definition DURATION_MAX : Duration := (u64_max * nanos_per_sec + 999999999)%N.

(** The first and the last time the platform represents. *)
Definition SYSTEM_TIME_MIN : SystemTime := (-11644473600000000000)%Z.
Definition SYSTEM_TIME_MAX : SystemTime := ((9223372036854775807 - 116444736000000000) * 100)%Z.

(** A duration of more ticks than 63 bits hold leaves the range from every time. *)
Definition in_range (t : Z) : bool := (SYSTEM_TIME_MIN <=? t)%Z && (t <=? SYSTEM_TIME_MAX)%Z.

Definition time_checked_add (t : SystemTime) (d : Duration) : option SystemTime :=
  if in_range (t + Z.of_N d) then Some (t + Z.of_N d)%Z else None.
Definition time_checked_sub (t : SystemTime) (d : Duration) : option SystemTime :=
  if in_range (t - Z.of_N d) then Some (t - Z.of_N d)%Z else None.

(** [t.duration_since(earlier)]: an error when [earlier] is later. *)
Definition duration_since (t earlier : SystemTime) : option Duration :=
  if (earlier <=? t)%Z then Some (Z.to_N (t - earlier)) else None.

Definition duration_saturating_add (a b : Duration) : Duration := N.min (a + b) DURATION_MAX.

(** The time of a Unix timestamp in seconds, through the checked operations. *)
Definition from_unix_timestamp (timestamp : Z) : option SystemTime :=
  if (0 <=? timestamp)%Z then time_checked_add UNIX_EPOCH (from_secs (Z.to_N timestamp))
  else time_checked_sub UNIX_EPOCH (from_secs (Z.to_N (- timestamp))).

(** What the [time] crate provides: the Unix timestamp of a UTC calendar date
    and time of day, [None] when there is no such date or time, and the
    timestamp an RFC 2822 date parses to. *)
Class Calendar := {
  calendar_timestamp : Z -> N -> N -> N -> N -> N -> option Z;
  parse_rfc2822 : string -> option Z
}.

(** ** Facts *)
Lemma time_checked_add_Some (t : SystemTime) (d : Duration) (u : SystemTime) :
  time_checked_add t d = Some u -> u = (t + Z.of_N d)%Z.
Proof. unfold time_checked_add. destruct (in_range _); [by intros [= <-]|done]. Qed.

Lemma as_secs_from_secs (s : N) : as_secs (from_secs s) = s.
Proof. unfold as_secs, from_secs. apply N.div_mul. done. Qed.
