(* ===== verification/Float64.v ===== *)
(** * Float64: Rust's [f64]

    IndexedDB keys are doubles, compared with [==], [<], [f64::total_cmp] and
    converted from and to [u64]. A double is its 64-bit pattern; its value is
    the integer [value] in units of 2^-1074, the smallest subnormal, so that
    every comparison and conversion below is exact integer arithmetic. *)

From S2P Require Import Prelude.

Abbreviation f64 := N (only parsing).

Definition magnitude (b : f64) : Z := Z.of_N (b mod 2 ^ 63).
Definition negative (b : f64) : bool := N.testbit b 63.
Definition exponent (b : f64) : Z := magnitude b / 2 ^ 52.
Definition fraction (b : f64) : Z := magnitude b mod 2 ^ 52.

(** The magnitude of a finite double with exponent field [q] and fraction [f],
    in units of 2^-1074. *)
Definition scaled (q f : Z) : Z := if (q =? 0)%Z then f else ((f + 2 ^ 52) * 2 ^ (q - 1))%Z.

(** Infinities read as the first power of two that is not a double. *)
Definition value (b : f64) : Z :=
  let m := scaled (exponent b) (fraction b) in if negative b then (- m)%Z else m.

Definition is_nan (b : f64) : bool := (2047 =? exponent b)%Z && negb (fraction b =? 0)%Z.
Definition is_finite (b : f64) : bool := (exponent b <? 2047)%Z.

(** [PartialOrd for f64]: a NaN is not comparable. *)
Definition f64_cmp (a b : f64) : option comparison :=
  if is_nan a || is_nan b then None else Some (Z.compare (value a) (value b)).
Definition f64_eqb (a b : f64) : bool := bool_decide (f64_cmp a b = Some Eq).
Definition f64_ltb (a b : f64) : bool := bool_decide (f64_cmp a b = Some Lt).
Definition f64_geb (a b : f64) : bool :=
  match f64_cmp a b with Some Eq | Some Gt => true | _ => false end.

(** [f64::total_cmp] compares the bit patterns as [i64]s after flipping the
    lower 63 bits of the negative ones. *)
Definition total_key (b : f64) : Z :=
  if negative b then (- 1 - magnitude b)%Z else magnitude b.
Definition total_cmp (a b : f64) : comparison := Z.compare (total_key a) (total_key b).

(** [n as f64]: round to nearest, ties to even. A mantissa that rounds up to
    2^53 carries into the exponent field. *)
Definition f64_of_u64 (n : N) : f64 :=
  if (n =? 0)%N then 0%N
  else
    let e := N.log2 n in
    let mantissa :=
      if (e <=? 52)%N then (n * 2 ^ (52 - e))%N
      else
        let k := (e - 52)%N in
        let q := (n / 2 ^ k)%N in
        let r := (n mod 2 ^ k)%N in
        let half := (2 ^ (k - 1))%N in
        if (half <? r)%N || ((r =? half)%N && N.odd q) then (q + 1)%N else q in
    ((e + 1022) * 2 ^ 52 + mantissa)%N.

(** [x.floor() as u64]: the cast saturates and sends NaN to 0. *)
Definition floor_u64 (b : f64) : N :=
  if is_nan b then 0%N else N.min u64_max (Z.to_N (value b / 2 ^ 1074)).

Example f64_of_u64_1 : f64_of_u64 1 = 0x3ff0000000000000%N.
Proof. reflexivity. Qed.
Example f64_of_u64_3 : f64_of_u64 3 = 0x4008000000000000%N.
Proof. reflexivity. Qed.
Example f64_of_u64_max : f64_of_u64 u64_max = 0x43f0000000000000%N.
Proof. reflexivity. Qed.
Example f64_of_u64_tie : f64_of_u64 (2 ^ 53 + 1) = f64_of_u64 (2 ^ 53).
Proof. reflexivity. Qed.
Example floor_u64_half : floor_u64 0x4004000000000000 = 2%N.
Proof. vm_compute. reflexivity. Qed.

(** * Theory *)

Lemma magnitude_bounds (b : f64) : (0 <= magnitude b)%Z.
Proof. unfold magnitude. lia. Qed.

Lemma fraction_bounds (b : f64) : (0 <= fraction b < 2 ^ 52)%Z.
Proof. unfold fraction. apply Z.mod_pos_bound. lia. Qed.

Lemma exponent_bounds (b : f64) : (0 <= exponent b)%Z.
Proof. unfold exponent. pose proof (magnitude_bounds b). apply Z.div_pos; lia. Qed.

Lemma magnitude_split (b : f64) : magnitude b = (2 ^ 52 * exponent b + fraction b)%Z.
Proof. unfold exponent, fraction. apply Z.div_mod. lia. Qed.

Lemma scaled_bounds (q f : Z) :
  (0 <= q)%Z -> (0 <= f < 2 ^ 52)%Z -> (0 <= scaled q f < 2 ^ 52 * 2 ^ q)%Z.
Proof.
  intros Hq Hf. unfold scaled. destruct (Z.eqb_spec q 0) as [->|Hq0]; [lia|].
  assert (Hp : (2 ^ q = 2 * 2 ^ (q - 1))%Z) by (rewrite <- Z.pow_succ_r by lia; f_equal; lia).
  assert (0 < 2 ^ (q - 1))%Z by (apply Z.pow_pos_nonneg; lia). nia.
Qed.

Lemma scaled_lower (q f : Z) :
  (0 < q)%Z -> (0 <= f)%Z -> (2 ^ 52 * 2 ^ (q - 1) <= scaled q f)%Z.
Proof.
  intros Hq Hf. unfold scaled. destruct (Z.eqb_spec q 0); [lia|].
  assert (0 < 2 ^ (q - 1))%Z by (apply Z.pow_pos_nonneg; lia). nia.
Qed.

(** The bit pattern orders the magnitudes. *)
Lemma scaled_lt (q f q' f' : Z) :
  (0 <= q)%Z -> (0 <= q')%Z -> (0 <= f < 2 ^ 52)%Z -> (0 <= f' < 2 ^ 52)%Z ->
  (2 ^ 52 * q + f < 2 ^ 52 * q' + f')%Z -> (scaled q f < scaled q' f')%Z.
Proof.
  intros Hq Hq' Hf Hf' Hlt. destruct (Z.eq_dec q q') as [<-|Hne].
  - unfold scaled. destruct (Z.eqb_spec q 0); [lia|].
    assert (0 < 2 ^ (q - 1))%Z by (apply Z.pow_pos_nonneg; lia). nia.
  - assert (q < q')%Z by nia.
    pose proof (scaled_bounds q f Hq Hf). pose proof (scaled_lower q' f' ltac:(lia) ltac:(lia)).
    assert (2 ^ q <= 2 ^ (q' - 1))%Z by (apply Z.pow_le_mono_r; lia). nia.
Qed.

Lemma magnitude_compare (a b : f64) :
  Z.compare (scaled (exponent a) (fraction a)) (scaled (exponent b) (fraction b))
  = Z.compare (magnitude a) (magnitude b).
Proof.
  pose proof (exponent_bounds a). pose proof (exponent_bounds b).
  pose proof (fraction_bounds a). pose proof (fraction_bounds b).
  destruct (Z.compare_spec (magnitude a) (magnitude b)) as [He|Hl|Hl].
  - unfold exponent, fraction. rewrite He. apply Z.compare_refl.
  - apply Z.compare_lt_iff. rewrite !magnitude_split in Hl. by apply scaled_lt.
  - apply Z.compare_gt_iff. rewrite !magnitude_split in Hl. by apply scaled_lt.
Qed.

Lemma scaled_magnitude_pos (b : f64) :
  (magnitude b = 0 /\ scaled (exponent b) (fraction b) = 0)%Z \/
  (0 < magnitude b /\ 0 < scaled (exponent b) (fraction b))%Z.
Proof.
  pose proof (magnitude_bounds b) as Hm. pose proof (magnitude_compare 0 b) as Hc.
  change (scaled (exponent 0) (fraction 0)) with 0%Z in Hc.
  change (magnitude 0) with 0%Z in Hc.
  revert Hc. destruct (Z.compare_spec 0 (magnitude b)) as [He|Hl|Hl]; intros Hc; [left|right|lia].
  - apply Z.compare_eq_iff in Hc. lia.
  - rewrite Z.compare_lt_iff in Hc. lia.
Qed.

Lemma finite_not_nan (b : f64) : is_finite b = true -> is_nan b = false.
Proof. unfold is_finite, is_nan. intros H. lia. Qed.

Lemma f64_cmp_finite (a b : f64) :
  is_finite a = true -> is_finite b = true -> f64_cmp a b = Some (Z.compare (value a) (value b)).
Proof. intros Ha Hb. unfold f64_cmp. by rewrite !finite_not_nan. Qed.

Definition is_zero (b : f64) : bool := (magnitude b =? 0)%Z.

Lemma f64_eqb_zero (b : f64) : f64_eqb b 0 = is_zero b.
Proof.
  unfold f64_eqb, f64_cmp, is_zero.
  assert (is_nan 0 = false) as -> by reflexivity. rewrite orb_false_r.
  pose proof (scaled_magnitude_pos b) as Hp. pose proof (magnitude_bounds b).
  destruct (is_nan b) eqn:Hn.
  - rewrite bool_decide_eq_false_2 by done. symmetry. apply Z.eqb_neq.
    intros Hz. unfold is_nan, exponent in Hn. rewrite Hz in Hn. by compute in Hn.
  - apply eq_true_iff_eq. rewrite bool_decide_eq_true, Z.eqb_eq.
    change (value 0) with 0%Z. unfold value.
    split; [intros [= Hc%Z.compare_eq_iff]|intros Hz; f_equal; apply Z.compare_eq_iff];
      destruct (negative b); lia.
Qed.

(** The numeric order of finite doubles is the one their bit patterns give,
    zeros of either sign being one number. *)
Definition number_rank (b : f64) : Z := if is_zero b then 0%Z else total_key b.

(** Case analysis on the integer comparisons of the goal and the context. *)
Ltac zcompare :=
  repeat match goal with
  | H : context [Z.compare ?a ?b] |- _ => revert H; destruct (Z.compare_spec a b); intros H
  | |- context [Z.compare ?a ?b] => destruct (Z.compare_spec a b)
  end; try done; try lia.

Lemma total_cmp_rank (a b : f64) :
  is_zero a && is_zero b = false -> total_cmp a b = Z.compare (number_rank a) (number_rank b).
Proof.
  intros Hz. unfold total_cmp, number_rank, total_key, is_zero in *.
  pose proof (magnitude_bounds a). pose proof (magnitude_bounds b).
  destruct (Z.eqb_spec (magnitude a) 0), (Z.eqb_spec (magnitude b) 0), (negative a), (negative b);
    try done; zcompare.
Qed.

Lemma value_compare (a b : f64) :
  Z.compare (value a) (value b) = Z.compare (number_rank a) (number_rank b).
Proof.
  unfold value, number_rank, total_key, is_zero. pose proof (magnitude_compare a b) as Hc.
  destruct (scaled_magnitude_pos a) as [[Ha Ha']|[Ha Ha']],
    (scaled_magnitude_pos b) as [[Hb Hb']|[Hb Hb']];
    destruct (Z.eqb_spec (magnitude a) 0), (Z.eqb_spec (magnitude b) 0); try lia;
    destruct (negative a), (negative b); zcompare.
Qed.

(** ** Conversion from [u64] is exact up to 2^53 *)
Lemma fields_of_bits (q f : Z) (b : f64) :
  Z.of_N b = (2 ^ 52 * q + f)%Z -> (0 <= q < 2 ^ 11)%Z -> (0 <= f < 2 ^ 52)%Z ->
  negative b = false /\ exponent b = q /\ fraction b = f.
Proof.
  intros Hb Hq Hf. assert (Hlt : (b < 2 ^ 63)%N) by lia.
  assert (Hm : magnitude b = Z.of_N b) by (unfold magnitude; by rewrite N.mod_small).
  unfold negative, exponent, fraction. rewrite Hm, Hb. split_and!.
  - destruct (N.eq_dec b 0%N) as [->|Hb0]; [done|]. apply N.bits_above_log2.
    apply N.log2_lt_pow2; lia.
  - symmetry. by apply (Z.div_unique _ _ q f); lia.
  - symmetry. by apply (Z.mod_unique _ _ q f); lia.
Qed.

Lemma f64_of_u64_fields (n : N) :
  (0 < n)%N -> (n < 2 ^ 53)%N ->
  let e := Z.of_N (N.log2 n) in
  negative (f64_of_u64 n) = false /\ exponent (f64_of_u64 n) = (e + 1023)%Z /\
  fraction (f64_of_u64 n) = (Z.of_N n * 2 ^ (52 - e) - 2 ^ 52)%Z.
Proof.
  intros H0 Hn e. pose proof (N.log2_spec n H0) as [Hlo Hhi].
  assert (He : (N.log2 n <= 52)%N) by (apply N.lt_succ_r, N.log2_lt_pow2; done).
  assert (Hp : (2 ^ 52 = 2 ^ N.log2 n * 2 ^ (52 - N.log2 n))%N)
    by (rewrite <- N.pow_add_r; f_equal; lia).
  rewrite N.pow_succ_r' in Hhi.
  assert (Hz : Z.of_N (2 ^ (52 - N.log2 n)) = (2 ^ (52 - e))%Z).
  { rewrite N2Z.inj_pow. f_equal. lia. }
  apply fields_of_bits.
  - unfold f64_of_u64. destruct (N.eqb_spec n 0); [lia|].
    rewrite (proj2 (N.leb_le _ _) He). rewrite N2Z.inj_add, !N2Z.inj_mul, Hz.
    change (Z.of_N (2 ^ 52)) with (2 ^ 52)%Z. unfold e. lia.
  - unfold e. lia.
  - rewrite <- Hz, <- N2Z.inj_mul. nia.
Qed.

Lemma value_of_u64 (n : N) :
  (n <= 2 ^ 53)%N -> value (f64_of_u64 n) = (Z.of_N n * 2 ^ 1074)%Z.
Proof.
  intros Hn. destruct (N.eq_dec n 0%N) as [->|H0]; [done|].
  destruct (N.eq_dec n (2 ^ 53)%N) as [->|H53]; [by vm_compute|].
  destruct (f64_of_u64_fields n) as (Hs & He & Hf); [lia..|].
  unfold value. rewrite Hs, He, Hf. unfold scaled.
  destruct (Z.eqb_spec (Z.of_N (N.log2 n) + 1023) 0); [lia|].
  assert (Hl : (N.log2 n <= 52)%N) by (apply N.lt_succ_r, N.log2_lt_pow2; lia).
  rewrite Z.sub_add, <- Z.mul_assoc, <- Z.pow_add_r by lia. f_equal. f_equal. lia.
Qed.

Lemma is_finite_of_u64 (n : N) : (n <= u64_max)%N -> is_finite (f64_of_u64 n) = true.
Proof.
  intros Hn. destruct (N.eq_dec n 0%N) as [->|H0]; [done|]. unfold is_finite.
  destruct (decide (n < 2 ^ 53)%N) as [Hs|Hs].
  { destruct (f64_of_u64_fields n) as (_ & -> & _); [lia..|].
    assert (N.log2 n <= 52)%N by (apply N.lt_succ_r, N.log2_lt_pow2; lia). lia. }
  assert (Hl : (N.log2 n <= 63)%N).
  { apply N.lt_succ_r, N.log2_lt_pow2; [lia|]. unfold u64_max in Hn. lia. }
  assert (Hl' : (53 <= N.log2 n)%N) by (apply N.log2_le_pow2; lia).
  pose proof (N.log2_spec n ltac:(lia)) as [_ Hhi].
  unfold f64_of_u64. destruct (N.eqb_spec n 0); [lia|].
  rewrite (proj2 (N.leb_gt _ _)) by lia.
  set (q := (n / 2 ^ (N.log2 n - 52))%N).
  assert (Hq : (q < 2 ^ 53)%N).
  { apply N.Div0.div_lt_upper_bound. rewrite <- N.pow_add_r.
    replace (N.log2 n - 52 + 53)%N with (N.succ (N.log2 n)) by lia. done. }
  set (m := if _ || _ then (q + 1)%N else q).
  assert (Hm : (m <= 2 ^ 53)%N) by (unfold m; case_match; lia).
  assert (Hb : ((N.log2 n + 1022) * 2 ^ 52 + m < 2047 * 2 ^ 52)%N) by lia.
  unfold exponent, magnitude. apply Z.ltb_lt. apply Z.div_lt_upper_bound; [lia|].
  rewrite N.mod_small by lia. lia.
Qed.

(** What the key generator relies on: a double below 2^53 that is at least [n]
    is below the next generated number. *)
Lemma floor_u64_spec (b : f64) (n : N) :
  is_finite b = true -> (Z.of_N n * 2 ^ 1074 <= value b < 2 ^ 53 * 2 ^ 1074)%Z ->
  (n <= floor_u64 b < 2 ^ 53)%N /\
  (Z.of_N (floor_u64 b) * 2 ^ 1074 <= value b < (Z.of_N (floor_u64 b) + 1) * 2 ^ 1074)%Z.
Proof.
  intros Hf Hb. unfold floor_u64. rewrite finite_not_nan by done.
  assert (Hp : (0 < 2 ^ 1074)%Z) by (apply Z.pow_pos_nonneg; lia).
  revert Hb Hp. generalize (value b) as v. generalize (2 ^ 1074)%Z as u. intros u v Hb Hp.
  pose proof (Z.div_mod v u ltac:(lia)) as Hdm. pose proof (Z.mod_pos_bound v u Hp) as Hmod.
  revert Hdm Hmod. generalize (v / u)%Z as w, (v mod u)%Z as r. intros w r Hdm Hmod.
  assert (Z.of_N n <= w < 2 ^ 53)%Z by nia.
  assert (N.min u64_max (Z.to_N w) = Z.to_N w) as -> by (unfold u64_max; lia).
  rewrite Z2N.id by lia. split; [lia|nia].
Qed.

(** The comparison the key generator makes is exact below 2^53: a number below
    2^53 is at least [n as f64] exactly when it is at least [n]. *)
Lemma value_of_u64_large (n : N) :
  (2 ^ 53 <= n <= u64_max)%N -> (2 ^ 53 * 2 ^ 1074 <= value (f64_of_u64 n))%Z.
Proof.
  intros Hn. change (2 ^ 53 * 2 ^ 1074)%Z with (value 0x4340000000000000).
  assert (Hl : (53 <= N.log2 n)%N) by (apply N.log2_le_pow2; lia).
  assert (Hh : (N.log2 n < 64)%N) by (apply N.log2_lt_pow2; unfold u64_max in Hn; lia).
  pose proof (N.log2_spec n ltac:(lia)) as [Hlo Hhi].
  set (q := (n / 2 ^ (N.log2 n - 52))%N).
  assert (Hp : (2 ^ N.log2 n = 2 ^ 52 * 2 ^ (N.log2 n - 52))%N).
  { rewrite <- N.pow_add_r. f_equal. lia. }
  assert (Hq : (2 ^ 52 <= q < 2 ^ 53)%N).
  { split; [apply N.div_le_lower_bound; [apply N.pow_nonzero; lia|lia]|].
    apply N.Div0.div_lt_upper_bound. rewrite <- N.pow_add_r.
    replace (N.log2 n - 52 + 53)%N with (N.succ (N.log2 n)) by lia. done. }
  set (m := if (2 ^ (N.log2 n - 52 - 1) <? n mod 2 ^ (N.log2 n - 52))%N
               || ((n mod 2 ^ (N.log2 n - 52) =? 2 ^ (N.log2 n - 52 - 1))%N && N.odd q)
            then (q + 1)%N else q).
  assert (Hm : (2 ^ 52 <= m <= 2 ^ 53)%N) by (unfold m; case_match; lia).
  assert (Hb : f64_of_u64 n = ((N.log2 n + 1022) * 2 ^ 52 + m)%N).
  { unfold f64_of_u64. destruct (N.eqb_spec n 0); [lia|].
    rewrite (proj2 (N.leb_gt _ _)) by lia. reflexivity. }
  assert (Hr : (0x4340000000000000 <= f64_of_u64 n < 2 ^ 63)%N) by (rewrite Hb; lia).
  generalize dependent (f64_of_u64 n). intros b _ Hr.
  assert (Hneg : negative b = false).
  { apply N.bits_above_log2. apply N.log2_lt_pow2; lia. }
  unfold value. rewrite Hneg. change (negative 0x4340000000000000) with false. cbv iota.
  pose proof (magnitude_compare 0x4340000000000000 b) as Hc.
  assert (magnitude b = Z.of_N b) as Hmb by (unfold magnitude; by rewrite N.mod_small by lia).
  change (magnitude 0x4340000000000000) with 0x4340000000000000%Z in Hc. rewrite Hmb in Hc.
  zcompare.
Qed.

Lemma f64_geb_value (a b : f64) :
  is_finite a = true -> is_finite b = true -> f64_geb a b = true <-> (value b <= value a)%Z.
Proof.
  intros Ha Hb. unfold f64_geb. rewrite f64_cmp_finite by done.
  destruct (Z.compare_spec (value a) (value b)); split; (done || lia).
Qed.

Lemma f64_ltb_value (a b : f64) :
  is_finite a = true -> is_finite b = true -> f64_ltb a b = true <-> (value a < value b)%Z.
Proof.
  intros Ha Hb. unfold f64_ltb. rewrite f64_cmp_finite, bool_decide_eq_true by done.
  destruct (Z.compare_spec (value a) (value b)); split; (done || lia).
Qed.

Lemma f64_geb_u64 (x : f64) (n : N) :
  is_finite x = true -> (n <= u64_max)%N -> (value x < 2 ^ 53 * 2 ^ 1074)%Z ->
  f64_geb x (f64_of_u64 n) = true <-> (Z.of_N n * 2 ^ 1074 <= value x)%Z.
Proof.
  intros Hx Hn Hlt. rewrite f64_geb_value by (done || by apply is_finite_of_u64).
  assert (0 < 2 ^ 1074)%Z by (apply Z.pow_pos_nonneg; lia).
  destruct (decide (n <= 2 ^ 53)%N) as [Hs|Hs]; [by rewrite value_of_u64|].
  pose proof (value_of_u64_large n ltac:(lia)). split; [lia|]. intros Hge. nia.
Qed.

Lemma value_rank_eq (a b : f64) : number_rank a = number_rank b -> value a = value b.
Proof. intros He. apply Z.compare_eq_iff. rewrite value_compare, He. apply Z.compare_refl. Qed.
