(* ===== verification/Origins.v ===== *)
(** * Origins: URLs and tuple origins (src/fetch/url.rs, src/navigation.rs)

    URL syntax is the third-party [url] crate's, which appears here as the
    interface [UrlLib]: a type of parsed URLs and the accessors the program
    calls. The program's own part is which URLs it accepts, the origin it
    derives from one, and how it serialises an origin. Every origin-partitioned
    store of the browser keys its data by [storage_origin]. *)

From S2P Require Import Prelude Text Limits.

(** What the [url] crate provides. An [Err] carries the text of the error. *)
Class UrlLib := {
  Url : Type;
  Url_parse : string -> result string Url;
  url_scheme : Url -> string;
  url_username : Url -> string;
  url_password : Url -> option string;
  (** [Url::host], each kind of host as its [to_string]. *)
  url_host : Url -> option string;
  url_port_or_known_default : Url -> option N;
  url_path : Url -> string;
  url_query : Url -> option string;
  url_set_fragment_none : Url -> Url;
  url_set_query_none : Url -> Url;
  url_to_string : Url -> string;
  (** [url.origin().ascii_serialization()] *)
  url_ascii_origin : Url -> string
}.

(** ** src/fetch/error.rs *)
Inductive FetchErrorKind :=
  InvalidRequest | Network | Aborted | Cors | Redirect | BodyTooLarge.

Record FetchError := FetchError_new { kind : FetchErrorKind; message : string }.

#[global] Instance FetchErrorKind_eq_dec : EqDecision FetchErrorKind.
Proof. solve_decision. Defined.
#[global] Instance FetchError_eq_dec : EqDecision FetchError.
Proof. solve_decision. Defined.

(** ** src/navigation.rs: addresses with a network authority *)
Record ParsedUrl := mkParsedUrl {
  scheme : string;
  host : string;
  port : N;
  path_and_query : string
}.

#[global] Instance ParsedUrl_eq_dec : EqDecision ParsedUrl.
Proof. solve_decision. Defined.

Definition ParsedUrl_origin (u : ParsedUrl) : string :=
  let default_port := (String.eqb (scheme u) "https" && (port u =? 443)%N)
                      || (String.eqb (scheme u) "http" && (port u =? 80)%N) in
  let h := if contains_char ":"%char (host u) then "[" +:+ host u +:+ "]" else host u in
  if default_port then scheme u +:+ "://" +:+ h
  else scheme u +:+ "://" +:+ h +:+ ":" +:+ pretty (port u).

Definition ParsedUrl_canonical (u : ParsedUrl) : string :=
  ParsedUrl_origin u +:+ path_and_query u.

Section urls.
Context {URL : UrlLib}.

Definition ParsedUrl_parse (input : string) : result string ParsedUrl :=
  if (MAX_URL_BYTES <? byte_length input)%N then
    Err ("URL exceeds the " +:+ pretty MAX_URL_BYTES +:+ "-byte limit")
  else
    parsed ← Url_parse (trim input);
    let sch := to_ascii_lowercase (url_scheme parsed) in
    if negb (String.eqb sch "http") && negb (String.eqb sch "https") then
      Err ("unsupported URL scheme: " +:+ sch)
    else if negb (String.eqb (url_username parsed) EmptyString)
            || bool_decide (is_Some (url_password parsed)) then
      Err "URL credentials are not accepted in browser addresses"
    else
      h ← ok_or (url_host parsed) "URL host is missing";
      p ← ok_or (url_port_or_known_default parsed) "URL port is missing";
      let parsed := url_set_fragment_none parsed in
      let pq := match url_query parsed with
                | Some query => url_path parsed +:+ "?" +:+ query
                | None => url_path parsed
                end in
      let u := mkParsedUrl sch h p pq in
      if (MAX_URL_BYTES <? byte_length (ParsedUrl_canonical u))%N then
        Err ("canonical URL exceeds the " +:+ pretty MAX_URL_BYTES +:+ "-byte limit")
      else Ok u.

(** ** src/fetch/url.rs *)
Inductive OriginKind :=
  | Tuple (scheme host : string) (port : N)
  | Opaque (id : N).

Definition Origin := OriginKind.

#[global] Instance OriginKind_eq_dec : EqDecision OriginKind.
Proof. solve_decision. Defined.

Inductive FetchUrlKind :=
  | NetworkUrl (parsed : ParsedUrl)
  | DataUrl.

Record FetchUrl := mkFetchUrl {
  serialized : string;
  url_kind : FetchUrlKind;
  url_origin : Origin
}.

Definition tuple_origin (u : ParsedUrl) : Origin :=
  Tuple (scheme u) (to_ascii_lowercase (host u)) (port u).

(** [NEXT_OPAQUE_ORIGIN] is the state [next]: [Origin::opaque] takes the
    current identity and advances the counter, wrapping at 64 bits. *)
Definition Origin_opaque (next : N) : Origin * N := (Opaque next, wrapping_add next 1).

Definition FetchUrl_parse (next : N) (input : string) : result FetchError (FetchUrl * N) :=
  if (MAX_URL_BYTES <? byte_length input)%N then
    Err (FetchError_new InvalidRequest
           ("URL exceeds the " +:+ pretty MAX_URL_BYTES +:+ "-byte limit"))
  else
    let input := trim input in
    parsed_url ← map_err (FetchError_new InvalidRequest) (Url_parse input);
    let sch := url_scheme parsed_url in
    if String.eqb sch "http" || String.eqb sch "https" then
      parsed ← map_err (FetchError_new InvalidRequest) (ParsedUrl_parse input);
      Ok (mkFetchUrl (ParsedUrl_canonical parsed) (NetworkUrl parsed) (tuple_origin parsed), next)
    else if String.eqb sch "data" then
      let ser := url_to_string (url_set_fragment_none parsed_url) in
      if (MAX_URL_BYTES <? byte_length ser)%N then
        Err (FetchError_new InvalidRequest
               ("canonical URL exceeds the " +:+ pretty MAX_URL_BYTES +:+ "-byte limit"))
      else
        let '(o, next) := Origin_opaque next in
        Ok (mkFetchUrl ser DataUrl o, next)
    else Err (FetchError_new InvalidRequest ("unsupported Fetch URL scheme: " +:+ sch)).

Definition FetchUrl_parsed (u : FetchUrl) : option ParsedUrl :=
  match url_kind u with NetworkUrl p => Some p | DataUrl => None end.
Definition FetchUrl_is_secure (u : FetchUrl) : bool :=
  match FetchUrl_parsed u with Some p => String.eqb (scheme p) "https" | None => false end.

Definition Origin_parse (next : N) (url : string) : result FetchError (Origin * N) :=
  '(u, next) ← FetchUrl_parse next url; Ok (url_origin u, next).

Definition Origin_serialize (o : Origin) : string :=
  match o with
  | Tuple s h p => ParsedUrl_origin (mkParsedUrl s h p "/")
  | Opaque _ => "null"
  end.

Definition is_same_origin (o1 o2 : Origin) : bool := bool_decide (o1 = o2).

Definition Origin_is_secure (o : Origin) : bool :=
  match o with Tuple s _ _ => String.eqb s "https" | Opaque _ => false end.

(** The identity an opaque origin gets is never part of a serialisation, so
    the origin a URL is stored under does not depend on the counter. *)
Definition origin_string (url : string) : result FetchError string :=
  '(o, _) ← Origin_parse 1 url; Ok (Origin_serialize o).

Lemma origin_string_counter (next : N) (url : string) :
  ('(o, _) ← Origin_parse next url; Ok (Origin_serialize o)) = origin_string url.
Proof.
  unfold origin_string, Origin_parse, FetchUrl_parse.
  destruct (_ <? _)%N; [done|]. destruct (Url_parse _) as [u|e]; simpl; [|done].
  destruct (_ || _); [by destruct (ParsedUrl_parse _)|].
  destruct (String.eqb _ _); [|done]. by destruct (_ <? _)%N.
Qed.
End urls.

(** * Serialised origins are unambiguous *)
#[local] Arguments String.append !_ _ / : simpl nomatch.

Lemma contains_char_cons (c a : ascii) (s : string) :
  contains_char c (String a s) = Ascii.eqb c a || contains_char c s.
Proof. done. Qed.

Lemma contains_char_app (c : ascii) (s t : string) :
  contains_char c (s +:+ t) = contains_char c s || contains_char c t.
Proof.
  unfold contains_char. induction s as [|a s IH]; simpl; [done|]. by rewrite IH, orb_assoc.
Qed.

Lemma contains_char_pretty (c : ascii) (n : N) :
  (N_of_ascii c < 48 \/ 57 < N_of_ascii c)%N -> contains_char c (pretty n) = false.
Proof.
  intros Hc.
  assert (Hdigit : forall d, Ascii.eqb c (pretty_N_char d) = false).
  { intros d. apply Ascii.eqb_neq. intros ->. revert Hc. unfold pretty_N_char.
    repeat case_match; vm_compute; intros [|]; done. }
  assert (Hgo : forall x s, contains_char c s = false -> contains_char c (pretty_N_go x s) = false).
  { intros x. induction (N.lt_wf_0 x) as [x _ IH]. intros s Hs.
    destruct (N.eq_dec x 0%N) as [->|Hx]; [by rewrite pretty_N_go_0|].
    rewrite pretty_N_go_step by lia. apply IH; [apply N.div_lt; lia|].
    unfold contains_char in *. simpl. by rewrite Hdigit. }
  unfold pretty, pretty_N. case_decide; [|by apply Hgo].
  unfold contains_char. simpl. rewrite orb_false_r. apply Ascii.eqb_neq. intros ->.
  vm_compute in Hc. destruct Hc; done.
Qed.

(** The text after the host: empty, or a colon and the port. *)
Definition port_suffix (s : string) : Prop :=
  (s = EmptyString \/ exists t, s = String ":" t) /\ contains_char "]" s = false.

Lemma split_at_colon (h1 h2 s1 s2 : string) :
  contains_char ":" h1 = false -> contains_char ":" h2 = false ->
  (s1 = EmptyString \/ exists t, s1 = String ":" t) ->
  (s2 = EmptyString \/ exists t, s2 = String ":" t) ->
  h1 +:+ s1 = h2 +:+ s2 -> h1 = h2 /\ s1 = s2.
Proof.
  unfold contains_char. intros H1 H2 Hs1 Hs2. revert h2 H2.
  induction h1 as [|a h1 IH]; intros [|b h2] H2; simpl in *.
  - done.
  - intros ->. destruct Hs1 as [|[t [= -> _]]]; done.
  - intros <-. destruct Hs2 as [|[t [= -> _]]]; done.
  - apply orb_false_iff in H1 as [_ H1], H2 as [_ H2]. intros [= -> Heq].
    by destruct (IH H1 h2 H2 Heq) as [-> ->].
Qed.

Lemma split_at_bracket (h1 h2 s1 s2 : string) :
  contains_char "]" s1 = false -> contains_char "]" s2 = false ->
  h1 +:+ String "]" s1 = h2 +:+ String "]" s2 -> h1 = h2 /\ s1 = s2.
Proof.
  intros H1 H2. revert h2. induction h1 as [|a h1 IH]; intros [|b h2]; simpl.
  - by intros [=].
  - intros [= <- ->]. rewrite contains_char_app in H1. apply orb_false_iff in H1 as [_ H1]. done.
  - intros [= -> <-]. rewrite contains_char_app in H2. apply orb_false_iff in H2 as [_ H2]. done.
  - intros [= -> Heq]. by destruct (IH _ Heq) as [-> ->].
Qed.

Lemma first_colon (h : string) :
  contains_char ":" h = true ->
  exists x y, h = x +:+ String ":" y /\ contains_char ":" x = false.
Proof.
  induction h as [|a h IH]; [done|]. rewrite contains_char_cons.
  destruct (Ascii.eqb_spec ":" a) as [<-|Hne]; rewrite ?orb_false_l.
  - intros _. by exists EmptyString, h.
  - intros (x & y & -> & Hx)%IH. exists (String a x), y. split; [done|]. simpl.
    by rewrite contains_char_cons, Hx, (proj2 (Ascii.eqb_neq _ _)).
Qed.

Definition bracketed (h : string) : string :=
  if contains_char ":" h then "[" +:+ h +:+ "]" else h.

Lemma string_app_assoc (s t u : string) : (s +:+ t) +:+ u = s +:+ t +:+ u.
Proof. induction s as [|a s IH]; simpl; [done|]. by rewrite IH. Qed.

Lemma bracketed_inj (h1 h2 s1 s2 : string) :
  port_suffix s1 -> port_suffix s2 ->
  bracketed h1 +:+ s1 = bracketed h2 +:+ s2 -> h1 = h2 /\ s1 = s2.
Proof.
  assert (Hmixed : forall g1 g2 t1 t2, port_suffix t1 -> contains_char ":" g1 = false ->
    contains_char ":" g2 = true -> g1 +:+ t1 <> ("[" +:+ g2 +:+ "]") +:+ t2).
  { intros g1 g2 t1 t2 [Hc1 Hb1] Hg1 Hg2 Heq.
    destruct (first_colon g2 Hg2) as (x & y & -> & Hx).
    rewrite !string_app_assoc in Heq. simpl in Heq.
    apply (split_at_colon _ (String "[" x)) in Heq as [_ ->]; [|done|done|done|by eauto].
    rewrite contains_char_cons, contains_char_app, contains_char_cons in Hb1.
    by rewrite !orb_true_r in Hb1. }
  intros Hs1 Hs2. unfold bracketed.
  destruct (contains_char ":" h1) eqn:H1, (contains_char ":" h2) eqn:H2; intros Heq.
  - rewrite !string_app_assoc in Heq. simpl in Heq. injection Heq as Heq.
    by apply split_at_bracket in Heq; [|apply Hs1|apply Hs2].
  - symmetry in Heq. by apply Hmixed in Heq.
  - by apply Hmixed in Heq.
  - by apply split_at_colon in Heq; [|done|done|apply Hs1|apply Hs2].
Qed.

Definition web_scheme (s : string) : Prop := s = "http" \/ s = "https".

Definition port_part (s : string) (p : N) : string :=
  if (String.eqb s "https" && (p =? 443) || String.eqb s "http" && (p =? 80))%N
  then EmptyString else ":" +:+ pretty p.

Lemma string_app_empty (s : string) : s +:+ EmptyString = s.
Proof. induction s as [|a s IH]; simpl; [done|]. by rewrite IH. Qed.

Lemma ParsedUrl_origin_parts (u : ParsedUrl) :
  ParsedUrl_origin u = scheme u +:+ "://" +:+ bracketed (host u) +:+ port_part (scheme u) (port u).
Proof.
  unfold ParsedUrl_origin, port_part, bracketed. destruct (_ || _); [|done].
  by rewrite string_app_empty.
Qed.

Lemma port_part_suffix (s : string) (p : N) : port_suffix (port_part s p).
Proof.
  unfold port_part. case_match; [by split; auto|]. split; [by eauto|].
  rewrite contains_char_app. by rewrite contains_char_pretty by (by right).
Qed.

Lemma port_part_inj (s : string) (p q : N) : web_scheme s -> port_part s p = port_part s q -> p = q.
Proof.
  unfold port_part. intros [-> | ->]; simpl;
    destruct (N.eqb_spec p 443), (N.eqb_spec q 443), (N.eqb_spec p 80), (N.eqb_spec q 80); subst; simpl;
    try done; intros [=Heq]; by apply (inj pretty) in Heq.
Qed.

Lemma ParsedUrl_origin_inj (u v : ParsedUrl) :
  web_scheme (scheme u) -> web_scheme (scheme v) -> ParsedUrl_origin u = ParsedUrl_origin v ->
  scheme u = scheme v /\ host u = host v /\ port u = port v.
Proof.
  intros Hu Hv. rewrite !ParsedUrl_origin_parts. intros Heq.
  destruct u as [su hu pu qu], v as [sv hv pv qv]. simpl in *.
  assert (Hs : su = sv) by (destruct Hu as [-> | ->], Hv as [-> | ->]; done).
  subst sv. assert (Hrest : bracketed hu +:+ port_part su pu = bracketed hv +:+ port_part su pv).
  { destruct Hu as [-> | ->]; by injection Heq. }
  apply bracketed_inj in Hrest as [Hh Hp]; [|apply port_part_suffix..].
  split_and!; [done..|]. by eapply port_part_inj.
Qed.

Section origin_identity.
Context {URL : UrlLib}.

Lemma FetchUrl_parse_origin (next : N) (url : string) u next' :
  FetchUrl_parse next url = Ok (u, next') ->
  match url_origin u with
  | Tuple s _ _ => web_scheme s
  | Opaque id => id = next /\ next' = wrapping_add next 1
  end.
Proof.
  unfold FetchUrl_parse. destruct (_ <? _)%N; [done|]. intros Hp. inv_res.
  destruct (_ || _).
  - inv_res. simpl. unfold ParsedUrl_parse in *. destruct (_ <? _)%N; [done|]. inv_res.
    destruct (_ && _) eqn:Hsch; [done|]. destruct (_ || _); [done|]. inv_res.
    destruct (_ <? _)%N; [done|]. inv_res. simpl. unfold web_scheme.
    apply andb_false_iff in Hsch. rewrite !negb_false_iff, !String.eqb_eq in Hsch. done.
  - destruct (String.eqb _ _); [|done]. destruct (_ <? _)%N; [done|].
    simpl in Hp. injection Hp as <- <-. done.
Qed.

Lemma Origin_serialize_identifies (n m : N) (url1 url2 : string) (o1 o2 : Origin) (n' m' : N) :
  Origin_parse n url1 = Ok (o1, n') -> Origin_parse m url2 = Ok (o2, m') ->
  Origin_serialize o1 <> "null" -> Origin_serialize o1 = Origin_serialize o2 -> o1 = o2.
Proof.
  unfold Origin_parse. intros H1 H2 Hnull Hser. inv_res.
  destruct (FetchUrl_parse n url1) as [[u1 k1]|] eqn:Hp1; [|done].
  destruct (FetchUrl_parse m url2) as [[u2 k2]|] eqn:Hp2; [|done]. simpl in *. inv_res.
  apply FetchUrl_parse_origin in Hp1, Hp2.
  destruct (url_origin u1) as [s1 h1 p1|]; [|done].
  destruct (url_origin u2) as [s2 h2 p2|]; [|done].
  apply ParsedUrl_origin_inj in Hser as (Hs & Hh & Hport); [|done..]. simpl in *. by subst.
Qed.

(** A serialised origin identifies the tuple origin: two URLs have the same
    one, other than [null], exactly when they are same-origin, whatever
    characters their hosts hold (the brackets of an IPv6 host, the omitted
    default port). *)
Theorem serialized_origin_identifies (n m : N) (url1 url2 : string) (o1 o2 : Origin) (n' m' : N) :
  Origin_parse n url1 = Ok (o1, n') -> Origin_parse m url2 = Ok (o2, m') ->
  Origin_serialize o1 <> "null" ->
  Origin_serialize o1 = Origin_serialize o2 <-> is_same_origin o1 o2 = true.
Proof.
  intros H1 H2 Hnull. unfold is_same_origin. rewrite bool_decide_eq_true.
  split; [|by intros ->]. by eapply Origin_serialize_identifies.
Qed.
End origin_identity.

(** A [url] crate that knows two addresses, to instantiate the interface. *)
Definition demo_urls : UrlLib := {|
  Url := string;
  Url_parse s :=
    if String.eqb s "https://a.test/" then Ok "a.test"
    else if String.eqb s "https://b.test/" then Ok "b.test"
    else Err "relative URL without a base";
  url_scheme _ := "https";
  url_username _ := EmptyString;
  url_password _ := None;
  url_host u := Some u;
  url_port_or_known_default _ := Some 443%N;
  url_path _ := "/";
  url_query _ := None;
  url_set_fragment_none u := u;
  url_set_query_none u := u;
  url_to_string u := "https://" +:+ u +:+ "/";
  url_ascii_origin u := "https://" +:+ u
|}.

Lemma serialized_origin_identifies_witness :
  let a := Tuple "https" "a.test" 443 in
  let b := Tuple "https" "b.test" 443 in
  Origin_serialize a = Origin_serialize b <-> is_same_origin a b = true.
Proof.
  apply (serialized_origin_identifies (URL := demo_urls) 1 1 "https://a.test/" "https://b.test/"
           _ _ 1 1); by vm_compute.
Defined.
