(* ===== verification/Net.v ===== *)
(** * Net: IP address literals and potentially trustworthy origins

    [std::net::IpAddr]'s parser, as far as [is_loopback] needs it, and
    [Origin::is_potentially_trustworthy] of src/fetch/url.rs, which decides
    where the Cache API is available. A parser takes the bytes that are left and
    returns the value it read with the rest; on failure nothing is consumed. *)

From S2P Require Import Prelude Text Limits Origins.

Definition to_digit (radix : N) (c : N) : option N :=
  let d := (if (48 <=? c) && (c <=? 57) then Some (c - 48)
            else if (97 <=? c) && (c <=? 122) then Some (c - 97 + 10)
            else if (65 <=? c) && (c <=? 90) then Some (c - 65 + 10)
            else None)%N in
  match d with Some d => if (d <? radix)%N then Some d else None | None => None end.

(** The digits at the front: their value, their number, and the rest; [None]
    when there are more than [max_digits]. *)
Fixpoint read_digits (radix max_digits acc count : N) (l : list N) : option (N * N * list N) :=
  match l with
  | c :: rest =>
      match to_digit radix c with
      | Some d =>
          if (max_digits <? count + 1)%N then None
          else read_digits radix max_digits (acc * radix + d)%N (count + 1)%N rest
      | None => Some (acc, count, l)
      end
  | [] => Some (acc, count, l)
  end.

(** [read_number], for a type whose greatest value is [max]. *)
Definition read_number (radix max_digits max : N) (allow_zero_prefix : bool) (l : list N)
  : option (N * list N) :=
  '(v, count, rest) ← read_digits radix max_digits 0 0 l;
  if (max <? v)%N then None
  else if (count =? 0)%N then None
  else if negb allow_zero_prefix && bool_decide (head l = Some 48%N) && (1 <? count)%N then None
  else Some (v, rest).

Definition read_given_char (c : N) (l : list N) : option (list N) :=
  match l with x :: rest => if (x =? c)%N then Some rest else None | [] => None end.

Definition read_separator {A} (sep : N) (index : nat) (inner : list N -> option (A * list N))
    (l : list N) : option (A * list N) :=
  match index with
  | O => inner l
  | S _ => rest ← read_given_char sep l; inner rest
  end.

Definition read_octet (index : nat) : list N -> option (N * list N) :=
  read_separator 46 index (read_number 10 3 255 false).

Definition read_ipv4 (l : list N) : option (N * N * N * N * list N) :=
  '(a, l) ← read_octet 0 l;
  '(b, l) ← read_octet 1 l;
  '(c, l) ← read_octet 2 l;
  '(d, l) ← read_octet 3 l;
  Some (a, b, c, d, l).

(** [read_groups] on a slice of length [limit], from index [i]: the groups
    read, whether the last two were an IPv4 address, and the rest. *)
Fixpoint read_groups (fuel i limit : nat) (l : list N) : list N * bool * list N :=
  match fuel with
  | O => ([], false, l)
  | S fuel =>
      let embedded :=
        if Nat.ltb (i + 1) limit
        then read_separator 58 i (fun l => '(a, b, c, d, l) ← read_ipv4 l; Some ((a, b, c, d), l)) l
        else None in
      match embedded with
      | Some ((a, b, c, d), rest) => ([a * 256 + b; c * 256 + d]%N, true, rest)
      | None =>
          match read_separator 58 i (read_number 16 4 65535 true) l with
          | Some (g, rest) =>
              let '(gs, v4, rest) := read_groups fuel (i + 1) limit rest in (g :: gs, v4, rest)
          | None => ([], false, l)
          end
      end
  end.

(** The eight groups of an IPv6 address. *)
Definition read_ipv6 (l : list N) : option (list N * list N) :=
  let '(head, head_ipv4, rest) := read_groups 8 0 8 l in
  if Nat.eqb (length head) 8 then Some (head, rest)
  else if head_ipv4 then None
  else
    rest ← read_given_char 58 rest;
    rest ← read_given_char 58 rest;
    let limit := 8 - (length head + 1) in
    let '(tail, _, rest) := read_groups limit 0 limit rest in
    Some (head ++ replicate (8 - length head - length tail) 0%N ++ tail, rest).

(** [s.parse::<IpAddr>().is_ok_and(|a| a.is_loopback())]: 127.0.0.0/8 or ::1. *)
Definition parses_to_loopback (s : string) : bool :=
  match read_ipv4 (bytes s) with
  | Some (a, _, _, _, rest) => bool_decide (rest = []) && (a =? 127)%N
  | None =>
      match read_ipv6 (bytes s) with
      | Some (groups, rest) =>
          bool_decide (rest = []) && bool_decide (groups = [0; 0; 0; 0; 0; 0; 0; 1]%N)
      | None => false
      end
  end.

(** [IpAddr::from_str(s).is_ok()] *)
Definition parses_to_ip (s : string) : bool :=
  match read_ipv4 (bytes s) with
  | Some (_, _, _, _, rest) => bool_decide (rest = [])
  | None =>
      match read_ipv6 (bytes s) with Some (_, rest) => bool_decide (rest = []) | None => false end
  end.

Definition ends_with (suffix s : string) : bool :=
  bool_decide (drop (length (bytes s) - length (bytes suffix)) (bytes s) = bytes suffix).

(** [host.strip_prefix('[').and_then(|h| h.strip_suffix(']')).unwrap_or(host)]. *)
Definition strip_brackets (host : string) : string :=
  match bytes host with
  | 91%N :: inner =>
      match rev inner with
      | 93%N :: inner => of_bytes (rev inner)
      | _ => host
      end
  | _ => host
  end.

Definition is_potentially_trustworthy (o : Origin) : bool :=
  match o with
  | Opaque _ => false
  | Tuple scheme host _ =>
      if String.eqb scheme "https" || String.eqb scheme "wss" || String.eqb scheme "file" then true
      else if String.eqb scheme "http" || String.eqb scheme "ws" then
        eq_ignore_ascii_case host "localhost"
        || ends_with ".localhost" (to_ascii_lowercase host)
        || parses_to_loopback (strip_brackets host)
      else false
  end.

Example trustworthy_hosts :
  (fun h => is_potentially_trustworthy (Tuple "http" h 80))
    <$> ["localhost"; "a.LOCALHOST"; "127.0.0.1"; "127.1.2.3"; "::1"; "[::1]"; "0:0::0.0.0.1"]
  = replicate 7 true.
Proof. vm_compute. reflexivity. Qed.

Example untrustworthy_hosts :
  (fun h => is_potentially_trustworthy (Tuple "http" h 80))
    <$> ["example.com"; "192.0.2.1"; "127.0.0.01"; "127.0.0.1.example"; "::2"; "::1:"; "1::1"; "localhost."]
  = replicate 8 false.
Proof. vm_compute. reflexivity. Qed.
