(* ===== verification/Headers.v ===== *)
(** * Headers: header lists and their guards (src/fetch/headers.rs)

    A header list is ordered and keeps duplicates. Names are normalised to lower
    case and values trimmed when they enter; script may not set the forbidden
    request headers. An operation returns the list it leaves and its result:
    [set] removes the old entry before it looks at the new value. *)

From S2P Require Import Prelude Text StrOps Origins.
From Stdlib Require Import ZArith.

Record Header := mkHeader { header_name : string; header_value : string }.
Definition HeaderList := list Header.

#[global] Instance Header_eq_dec : EqDecision Header.
Proof. solve_decision. Defined.

(** ** Normalisation *)
Definition is_token_byte (b : N) : bool := is_ascii_alphanumeric b || one_of "!#$%&'*+-.^_`|~" b.

Definition normalize_name (name : string) : result FetchError string :=
  if String.eqb name EmptyString || negb (forallb is_token_byte (bytes name))
  then Err (FetchError_new InvalidRequest ("invalid HTTP header name: " +:+ name))
  else Ok (to_ascii_lowercase name).

Definition is_space_tab (c : N) : bool := ((c =? 32) || (c =? 9))%N.
Definition is_http_whitespace (c : N) : bool := (is_space_tab c || (c =? 13) || (c =? 10))%N.
(** NUL, CR and LF. *)
Definition ends_line (b : N) : bool := ((b =? 0) || (b =? 13) || (b =? 10))%N.

Definition normalize_value (value : string) : result FetchError string :=
  let value := trim_matches is_http_whitespace value in
  if existsb ends_line (bytes value)
  then Err (FetchError_new InvalidRequest "HTTP header values cannot contain NUL, CR, or LF")
  else Ok (trim_matches is_space_tab value).

(** ** Forbidden and safelisted headers *)
Definition forbidden_names : list string :=
  ["accept-charset"; "accept-encoding"; "access-control-request-headers";
   "access-control-request-method"; "connection"; "content-length"; "cookie"; "cookie2"; "date";
   "dnt"; "expect"; "host"; "keep-alive"; "origin"; "permissions-policy"; "proxy-authenticate";
   "proxy-authorization"; "referer"; "set-cookie"; "te"; "trailer"; "transfer-encoding"; "upgrade";
   "via"].

Definition is_forbidden_request_header (name value : string) : bool :=
  string_in name forbidden_names
  || starts_with "proxy-" name
  || starts_with "sec-" name
  || string_in name ["x-http-method"; "x-http-method-override"; "x-method-override"]
     && existsb (fun method => string_in (to_ascii_uppercase method) ["CONNECT"; "TRACE"; "TRACK"])
          (trim <$> split_on "," value).

Definition is_forbidden_response_header (name : string) : bool :=
  eq_ignore_ascii_case name "set-cookie" || eq_ignore_ascii_case name "set-cookie2".

Definition is_cors_safelisted_response_header (name : string) : bool :=
  string_in (to_ascii_lowercase name)
    ["cache-control"; "content-language"; "content-length"; "content-type"; "expires";
     "last-modified"; "pragma"].

(** The quotation mark is 34; a byte literal cannot hold it. *)
Definition is_cors_unsafe_byte (b : N) : bool :=
  ((b <? 0x20) && negb (b =? 9) || (b =? 34) || one_of "():<>?@[\]{}" b || (b =? 0x7f))%N.

Definition is_simple_range_header (value : string) : bool :=
  match strip_prefix "bytes=" value ≫= split_once "-" with
  | Some (start, end_) =>
      match parse_unsigned u64_max start with
      | Some start =>
          String.eqb end_ EmptyString
          || match parse_unsigned u64_max end_ with Some e => (start <=? e)%N | None => false end
      | None => false
      end
  | None => false
  end.

Definition is_cors_safelisted_request_header (h : Header) : bool :=
  let name := header_name h in
  let value := bytes (header_value h) in
  if (128 <? N.of_nat (length value))%N then false
  else if String.eqb name "accept" then negb (existsb is_cors_unsafe_byte value)
  else if String.eqb name "accept-language" || String.eqb name "content-language"
  then forallb (fun b => is_ascii_alphanumeric b || one_of " *,-.;=" b) value
  else if String.eqb name "content-type" then
    string_in (to_ascii_lowercase (trim (first_piece ";" (header_value h))))
      ["application/x-www-form-urlencoded"; "multipart/form-data"; "text/plain"]
    && negb (existsb is_cors_unsafe_byte value)
  else if String.eqb name "range" then is_simple_range_header (header_value h)
  else false.

(** ** The list *)
Definition header_is (name : string) (h : Header) : bool := eq_ignore_ascii_case (header_name h) name.

Definition header_values (hs : HeaderList) (name : string) : list string :=
  header_value <$> filter (fun h => header_is name h) hs.
Definition header_get (hs : HeaderList) (name : string) : option string := head (header_values hs name).
Definition header_contains (hs : HeaderList) (name : string) : bool :=
  bool_decide (is_Some (header_get hs name)).
Definition header_remove (hs : HeaderList) (name : string) : HeaderList :=
  filter (fun h => negb (header_is name h)) hs.

Definition forbidden_error (name : string) : FetchError :=
  FetchError_new InvalidRequest ("script cannot set forbidden request header `" +:+ name +:+ "`").

Definition header_append (hs : HeaderList) (name value : string) : HeaderList * result FetchError () :=
  match (name ← normalize_name name; value ← normalize_value value; Ok (mkHeader name value)) with
  | Ok h => (hs ++ [h], Ok tt)
  | Err e => (hs, Err e)
  end.

Definition append_script (hs : HeaderList) (name value : string) : HeaderList * result FetchError () :=
  match (normalized ← normalize_name name;
         value ← normalize_value value;
         _ ← ensure (negb (is_forbidden_request_header normalized value)) (forbidden_error normalized);
         Ok (normalized, value)) with
  | Ok (name, value) => header_append hs name value
  | Err e => (hs, Err e)
  end.

Definition header_set (hs : HeaderList) (name value : string) : HeaderList * result FetchError () :=
  match normalize_name name with
  | Ok normalized => header_append (header_remove hs normalized) normalized value
  | Err e => (hs, Err e)
  end.

Definition set_script (hs : HeaderList) (name value : string) : HeaderList * result FetchError () :=
  match (normalized ← normalize_name name;
         value ← normalize_value value;
         _ ← ensure (negb (is_forbidden_request_header normalized value)) (forbidden_error normalized);
         Ok (normalized, value)) with
  | Ok (name, value) => header_append (header_remove hs name) name value
  | Err e => (hs, Err e)
  end.

Definition to_wire_string (hs : HeaderList) : string :=
  foldr (fun h rest => header_name h +:+ ": " +:+ header_value h +:+ String "013" (String "010" rest))
    EmptyString hs.

Definition validate_script_request (hs : HeaderList) : result FetchError () :=
  try_for_each (fun h =>
    ensure (negb (is_forbidden_request_header (header_name h) (header_value h)))
      (forbidden_error (header_name h))) hs.

(** * Theory *)

(** ** What normalisation leaves *)
Lemma drop_while_suffix {A} (p : A -> bool) (l : list A) : exists pre, l = pre ++ drop_while p l.
Proof.
  induction l as [|x l [pre IH]]; simpl; [by exists []|].
  destruct (p x); [|by exists []]. exists (x :: pre). simpl. by f_equal.
Qed.

Lemma drop_while_idem {A} (p : A -> bool) (l : list A) : drop_while p (drop_while p l) = drop_while p l.
Proof. induction l as [|x l IH]; simpl; [done|]. destruct (p x) eqn:Hx; [done|]. simpl. by rewrite Hx. Qed.

Definition trim_list {A} (p : A -> bool) (l : list A) : list A :=
  rev (drop_while p (rev (drop_while p l))).

Lemma trim_list_middle {A} (p : A -> bool) (l : list A) :
  exists pre post, l = pre ++ trim_list p l ++ post.
Proof.
  destruct (drop_while_suffix p l) as [pre Hpre].
  destruct (drop_while_suffix p (rev (drop_while p l))) as [post Hpost].
  exists pre, (rev post). rewrite Hpre at 1. f_equal. unfold trim_list.
  by rewrite <- rev_app_distr, <- Hpost, rev_involutive.
Qed.

Lemma utf8_encode_app (l k : list N) : utf8_encode (l ++ k) = utf8_encode l ++ utf8_encode k.
Proof. unfold utf8_encode. by rewrite bind_app. Qed.

Lemma bytes_bound (s : string) : Forall (fun b => b < 256)%N (bytes s).
Proof. induction s as [|a s IH]; constructor; [apply N_ascii_bounded|done]. Qed.

(** Trimming takes bytes off the ends and no others. *)
Lemma trim_matches_middle (p : N -> bool) (s : string) :
  exists pre post, bytes s = pre ++ bytes (trim_matches p s) ++ post.
Proof.
  destruct (trim_list_middle p (chars s)) as (pre & post & Hs).
  exists (utf8_encode pre), (utf8_encode post).
  assert (bytes s = utf8_encode pre ++ utf8_encode (trim_list p (chars s)) ++ utf8_encode post) as Hb.
  { rewrite <- !utf8_encode_app, <- Hs. symmetry. apply utf8_encode_decode. }
  rewrite Hb. unfold trim_matches, of_chars. rewrite bytes_of_bytes; [done|].
  pose proof (bytes_bound s) as Hbound. rewrite Hb in Hbound.
  by apply Forall_app in Hbound as [_ [? _]%Forall_app].
Qed.

Lemma trim_matches_no (p q : N -> bool) (s : string) :
  existsb q (bytes s) = false -> existsb q (bytes (trim_matches p s)) = false.
Proof.
  destruct (trim_matches_middle p s) as (pre & post & ->).
  rewrite !existsb_app, !orb_false_iff. tauto.
Qed.

Definition token (name : string) : Prop :=
  name <> EmptyString /\ forallb is_token_byte (bytes name) = true.
Definition line_free (value : string) : Prop := existsb ends_line (bytes value) = false.

Lemma lower_ascii_token (a : ascii) :
  is_token_byte (N_of_ascii a) = true -> is_token_byte (N_of_ascii (lower_ascii a)) = true.
Proof. destruct a as [[] [] [] [] [] [] [] []]; vm_compute; done. Qed.

Lemma normalize_name_token (name name' : string) : normalize_name name = Ok name' ->
  token name' /\ to_ascii_lowercase name' = name'.
Proof.
  unfold normalize_name. destruct (_ || _) eqn:Hbad; [done|]. intros [= <-].
  apply orb_false_iff in Hbad as [Hne Hall%negb_false_iff].
  split; [|apply to_ascii_lowercase_idemp]. split; [by destruct name|].
  clear Hne. induction name as [|a name IH]; [done|]. simpl in *.
  apply andb_true_iff in Hall as [Ha Hall]. rewrite lower_ascii_token by done. by apply IH.
Qed.

Lemma normalize_value_line_free (value value' : string) :
  normalize_value value = Ok value' -> line_free value'.
Proof.
  unfold normalize_value, line_free. destruct (existsb _ _) eqn:He; [done|]. intros [= <-].
  by apply trim_matches_no.
Qed.

(** A token in lower case is its own normal form. *)
Lemma normalize_name_id (name : string) :
  token name -> to_ascii_lowercase name = name -> normalize_name name = Ok name.
Proof.
  intros [Hne Hall] Hl. unfold normalize_name. rewrite Hall, Hl.
  by destruct (String.eqb_spec name EmptyString).
Qed.

(** ** The invariant of a list *)
Definition header_ok (h : Header) : Prop :=
  token (header_name h) /\ to_ascii_lowercase (header_name h) = header_name h /\
  line_free (header_value h).

Lemma header_append_cases (hs hs' : HeaderList) (name value : string) r :
  header_append hs name value = (hs', r) ->
  match r with
  | Ok _ => exists n v, normalize_name name = Ok n /\ normalize_value value = Ok v /\ hs' = hs ++ [mkHeader n v]
  | Err _ => hs' = hs
  end.
Proof.
  unfold header_append. destruct (normalize_name name) as [n|e]; simpl; [|by intros [= <- <-]].
  destruct (normalize_value value) as [v|e]; simpl; intros [= <- <-]; [by exists n, v|done].
Qed.

Inductive header_op :=
  | OpAppend (name value : string)
  | OpAppendScript (name value : string)
  | OpSet (name value : string)
  | OpSetScript (name value : string)
  | OpRemove (name : string).

Definition run_op (hs : HeaderList) (op : header_op) : HeaderList :=
  match op with
  | OpAppend n v => (header_append hs n v).1
  | OpAppendScript n v => (append_script hs n v).1
  | OpSet n v => (header_set hs n v).1
  | OpSetScript n v => (set_script hs n v).1
  | OpRemove n => header_remove hs n
  end.

Lemma Forall_header_remove (P : Header -> Prop) (hs : HeaderList) (name : string) :
  Forall P hs -> Forall P (header_remove hs name).
Proof.
  rewrite !Forall_forall. intros Hall h [_ Hh]%list_elem_of_filter. by apply Hall.
Qed.

Lemma header_append_ok (hs : HeaderList) (name value : string) :
  Forall header_ok hs -> Forall header_ok (header_append hs name value).1.
Proof.
  intros Hok. destruct (header_append hs name value) as [hs' r] eqn:Ha.
  apply header_append_cases in Ha. destruct r as [u|e]; simpl; [|by subst].
  destruct Ha as (n & v & Hn & Hv & ->). apply Forall_app. split; [done|].
  constructor; [|constructor]. apply normalize_name_token in Hn as [Ht Hl].
  split_and!; [done..|]. by eapply normalize_value_line_free.
Qed.

Lemma run_op_ok (hs : HeaderList) (op : header_op) : Forall header_ok hs -> Forall header_ok (run_op hs op).
Proof.
  intros Hok. destruct op as [n v|n v|n v|n v|n]; simpl.
  - by apply header_append_ok.
  - unfold append_script. destruct (n ← _; _) as [[n' v']|]; [|done]. by apply header_append_ok.
  - unfold header_set. destruct (normalize_name n); [|done]. by apply header_append_ok, Forall_header_remove.
  - unfold set_script. destruct (n ← _; _) as [[n' v']|]; [|done]. by apply header_append_ok, Forall_header_remove.
  - by apply Forall_header_remove.
Qed.

Lemma run_ops_ok (ops : list header_op) (hs : HeaderList) :
  Forall header_ok hs -> Forall header_ok (foldl run_op hs ops).
Proof. revert hs. induction ops as [|op ops IH]; intros hs Hok; [done|]. by apply IH, run_op_ok. Qed.

(** ** What goes on the wire *)

(** A receiver: one field per line, up to the first colon and after its space. *)
Definition read_line (line : string) : option (string * string) :=
  line ← strip_suffix (String "013" EmptyString) line;
  '(name, value) ← split_once ":" line;
  value ← strip_prefix " " value;
  Some (name, value).
Definition read_wire (s : string) : list (string * string) := omap read_line (split_on "010" s).

Lemma split_on_app (sep : ascii) (s rest : string) :
  contains_char sep s = false -> split_on sep (s +:+ String sep rest) = s :: split_on sep rest.
Proof.
  induction s as [|a s IH]; intros Hs.
  - simpl. by rewrite Ascii.eqb_refl.
  - rewrite contains_char_cons in Hs. apply orb_false_iff in Hs as [Ha Hs].
    change (String a s +:+ String sep rest) with (String a (s +:+ String sep rest)). simpl.
    by rewrite Ascii.eqb_sym, Ha, (IH Hs).
Qed.

Lemma split_once_app (sep : ascii) (s rest : string) :
  contains_char sep s = false -> split_once sep (s +:+ String sep rest) = Some (s, rest).
Proof.
  induction s as [|a s IH]; intros Hs.
  - simpl. by rewrite Ascii.eqb_refl.
  - rewrite contains_char_cons in Hs. apply orb_false_iff in Hs as [Ha Hs].
    change (String a s +:+ String sep rest) with (String a (s +:+ String sep rest)). simpl.
    by rewrite Ascii.eqb_sym, Ha, (IH Hs).
Qed.

Lemma contains_char_bytes (c : ascii) (p : N -> bool) (s : string) :
  p (N_of_ascii c) = true -> existsb p (bytes s) = false -> contains_char c s = false.
Proof.
  intros Hc. induction s as [|a s IH]; [done|]. simpl. intros [Ha Hs]%orb_false_iff.
  rewrite contains_char_cons, IH, orb_false_r by done. apply Ascii.eqb_neq. intros ->. congruence.
Qed.

Lemma token_free (c : ascii) (name : string) :
  is_token_byte (N_of_ascii c) = false -> token name -> contains_char c name = false.
Proof.
  intros Hc [_ Hall]. apply (contains_char_bytes c (fun b => negb (is_token_byte b))); [by rewrite Hc|].
  induction (bytes name) as [|b l IH]; [done|]. simpl in *. apply andb_true_iff in Hall as [Hb Hl].
  by rewrite Hb, IH.
Qed.

Lemma line_free_free (c : ascii) (value : string) :
  ends_line (N_of_ascii c) = true -> line_free value -> contains_char c value = false.
Proof. intros Hc Hv. by eapply contains_char_bytes. Qed.

(** C36. Nothing a page puts into a header list can add, split or reorder the
    fields on the wire: after any operations, script-facing or not, with any
    names and values, a receiver that splits the request at line ends reads
    exactly the names and values of the list, in order. *)
Theorem header_wire_round_trip (ops : list header_op) :
  let hs := foldl run_op [] ops in
  read_wire (to_wire_string hs) = (fun h => (header_name h, header_value h)) <$> hs.
Proof.
  intros hs. assert (Hok : Forall header_ok hs) by (apply run_ops_ok; constructor).
  induction Hok as [|h k (Ht & _ & Hv) _ IH]; [done|]. rewrite fmap_cons. simpl.
  assert (header_name h +:+ ": " +:+ header_value h +:+ String "013" (String "010" (to_wire_string k))
    = (header_name h +:+ String ":" (String " " (header_value h)) +:+ String "013" EmptyString)
      +:+ String "010" (to_wire_string k)) as ->.
  { by rewrite !string_app_assoc. }
  unfold read_wire. rewrite split_on_app.
  2:{ rewrite !contains_char_app, token_free by done. rewrite !contains_char_cons.
      by rewrite line_free_free. }
  simpl omap. unfold read_line at 1.
  rewrite (proj2 (strip_suffix_Some _ _ (header_name h +:+ String ":" (String " " (header_value h))))).
  2:{ by rewrite !string_app_assoc. }
  simpl. rewrite split_once_app by by apply token_free. simpl. f_equal. apply IH.
Qed.

(** ** The script guard *)
Lemma trim_list_fixed {A} (p : A -> bool) (l : list A) :
  drop_while p (trim_list p l) = trim_list p l /\ drop_while p (rev (trim_list p l)) = rev (trim_list p l).
Proof.
  unfold trim_list. rewrite rev_involutive. split; [|apply drop_while_idem].
  set (m := drop_while p l). destruct (rev (drop_while p (rev m))) as [|x k] eqn:Hr; [done|]. simpl.
  destruct (p x) eqn:Hx; [|done]. exfalso.
  destruct (drop_while_suffix p (rev m)) as [post Hpost].
  assert (m = x :: (k ++ rev post)) as Hm.
  { rewrite <- (rev_involutive m), Hpost, rev_app_distr, Hr. done. }
  assert (drop_while p m = m) as Hd by (unfold m; apply drop_while_idem).
  rewrite Hm in Hd. simpl in Hd. rewrite Hx in Hd.
  destruct (drop_while_suffix p (k ++ rev post)) as [pre Hpre].
  apply (f_equal length) in Hd. apply (f_equal length) in Hpre.
  rewrite (length_app pre) in Hpre. simpl in Hd. lia.
Qed.

Lemma drop_while_weaker {A} (p q : A -> bool) (l : list A) :
  (forall x, q x = true -> p x = true) -> drop_while p l = l -> drop_while q l = l.
Proof.
  intros Hqp. destruct l as [|x l]; [done|]. simpl. destruct (p x) eqn:Hp.
  - intros Hl. exfalso. destruct (drop_while_suffix p l) as [pre Hpre].
    apply (f_equal length) in Hl, Hpre. rewrite length_app in Hpre. simpl in Hl. lia.
  - destruct (q x) eqn:Hq; [|done]. by rewrite Hqp in Hp.
Qed.

Lemma trim_list_weaker {A} (p q : A -> bool) (l : list A) :
  (forall x, q x = true -> p x = true) -> trim_list q (trim_list p l) = trim_list p l.
Proof.
  intros Hqp. destruct (trim_list_fixed p l) as [H1 H2]. unfold trim_list at 1.
  by rewrite (drop_while_weaker p q _ Hqp H1), (drop_while_weaker p q _ Hqp H2), rev_involutive.
Qed.

Lemma chars_trim (p : N -> bool) (s : string) :
  well_formed s = true -> chars (trim_matches p s) = trim_list p (chars s).
Proof.
  intros Hs. apply chars_of_chars. unfold well_formed in Hs.
  destruct (trim_list_middle p (chars s)) as (pre & post & Hc). rewrite Hc in Hs.
  rewrite !forallb_app in Hs. apply andb_true_iff in Hs as [_ Hs]. by apply andb_true_iff in Hs as [Hs _].
Qed.

Lemma of_chars_chars (s : string) : of_chars (chars s) = s.
Proof. unfold of_chars, chars. by rewrite utf8_encode_decode, of_bytes_bytes. Qed.

(** A normalised value is its own normal form. *)
Lemma normalize_value_id (value value' : string) :
  well_formed value = true -> normalize_value value = Ok value' -> normalize_value value' = Ok value'.
Proof.
  unfold normalize_value. intros Hwf. set (v := trim_matches is_http_whitespace value).
  destruct (existsb ends_line (bytes v)) eqn:He; [done|]. intros [= <-].
  assert (chars v = trim_list is_http_whitespace (chars value)) as Hv by by apply chars_trim.
  assert (trim_matches is_space_tab v = v) as ->.
  { change (of_chars (trim_list is_space_tab (chars v)) = v). rewrite Hv, trim_list_weaker, <- Hv.
    - apply of_chars_chars.
    - unfold is_http_whitespace. by intros x ->. }
  assert (trim_matches is_http_whitespace v = v) as ->.
  { change (of_chars (trim_list is_http_whitespace (chars v)) = v).
    rewrite Hv, trim_list_weaker, <- Hv by done. apply of_chars_chars. }
  rewrite He. f_equal. change (of_chars (trim_list is_space_tab (chars v)) = v).
  rewrite Hv, trim_list_weaker, <- Hv.
  - apply of_chars_chars.
  - unfold is_http_whitespace. by intros x ->.
Qed.

Definition script_op (op : header_op) : Prop :=
  match op with
  | OpAppendScript _ v | OpSetScript _ v => well_formed v = true
  | OpRemove _ => True
  | OpAppend _ _ | OpSet _ _ => False
  end.

Definition permitted (h : Header) : Prop :=
  is_forbidden_request_header (header_name h) (header_value h) = false.

Lemma guarded_append (hs : HeaderList) (n v n' v' : string) :
  Forall permitted hs -> well_formed v = true -> normalize_name n = Ok n' -> normalize_value v = Ok v' ->
  is_forbidden_request_header n' v' = false -> Forall permitted (header_append hs n' v').1.
Proof.
  intros Hp Hwf Hn Hv Hf. apply normalize_name_token in Hn as [Ht Hl].
  unfold header_append. rewrite normalize_name_id, (normalize_value_id v) by done. simpl.
  apply Forall_app. by repeat constructor.
Qed.

Lemma run_op_permitted (hs : HeaderList) (op : header_op) :
  script_op op -> Forall permitted hs -> Forall permitted (run_op hs op).
Proof.
  intros Hs Hp. destruct op as [n v|n v|n v|n v|n]; simpl in *; try done.
  1, 2: unfold append_script, set_script; destruct (normalize_name n) as [n'|] eqn:Hn; simpl; [|done];
    destruct (normalize_value v) as [v'|] eqn:Hv; simpl; [|done];
    destruct (is_forbidden_request_header n' v') eqn:Hf; simpl; [done|];
    eapply guarded_append; try done; by apply Forall_header_remove.
  by apply Forall_header_remove.
Qed.

(** The script guard cannot be slipped past: whatever names and values a
    page gives to the script-facing operations, in any order, the list never
    holds a header that is forbidden to script. *)
Theorem script_never_sets_forbidden (ops : list header_op) :
  Forall script_op ops -> validate_script_request (foldl run_op [] ops) = Ok tt.
Proof.
  intros Hops. assert (Hp : Forall permitted (foldl run_op [] ops)).
  { assert (Hnil : Forall permitted []) by constructor. revert Hnil. generalize (@nil Header).
    induction Hops as [|op ops Hop _ IH]; intros hs Hs; [done|]. by apply IH, run_op_permitted. }
  apply try_for_each_Ok. apply (Forall_impl _ _ _ Hp). intros h Hh. unfold permitted in Hh. by rewrite Hh.
Qed.

(** "Cookie" is refused, a folded name is stored, an override is refused for TRACE. *)
Lemma script_never_sets_forbidden_witness :
  let ops := [OpSetScript "X-Application" " yes "; OpAppendScript "Cookie" "a=b";
              OpAppendScript "X-HTTP-Method" "get, trace"; OpAppendScript "Accept" "text/html"] in
  foldl run_op [] ops = [mkHeader "x-application" "yes"; mkHeader "accept" "text/html"] /\
  validate_script_request (foldl run_op [] ops) = Ok tt.
Proof.
  split; [vm_compute; reflexivity|]. apply script_never_sets_forbidden.
  repeat constructor; vm_compute; reflexivity.
Defined.

(** [set] gives up the old header before it looks at the new value. *)
Example set_invalid_value_removes :
  header_set [mkHeader "x-a" "old"] "X-A" (String "a" (String "010" "b"))
  = ([], Err (FetchError_new InvalidRequest "HTTP header values cannot contain NUL, CR, or LF")).
Proof. vm_compute. reflexivity. Qed.
