(* ===== verification/CspSources.v ===== *)
(** * CspSources: source expressions (src/fetch/csp/sources.rs)

    Which source expressions the policy parser keeps, the nonce and hash forms,
    and when an expression matches a URL. URL syntax is the [url] crate's; the
    digests and the base64 encoder are the [sha2] and [base64] crates'. *)

From S2P Require Import Prelude Text StrOps Origins.
From Stdlib Require Import ZArith.

(** Further accessors of [Url]. [same_origin u v] is [u.origin() == v.origin()],
    which no opaque origin satisfies. *)
Class UrlParts `{UrlLib} := {
  url_host_str : Url -> option string;
  url_port : Url -> option N;
  same_origin : Url -> Url -> bool
}.

(** [sha2]'s digests and [base64]'s [STANDARD.encode]. *)
Class Digests := {
  sha256 : list N -> list N;
  sha384 : list N -> list N;
  sha512 : list N -> list N;
  standard_encode : list N -> string
}.

Definition is_base64_byte (b : N) : bool := is_ascii_alphanumeric b || one_of "+/-_" b.

Definition valid_base64_value (value : string) : bool :=
  let unpadded := trim_end_char "=" value in
  negb (String.eqb unpadded EmptyString)
  && (byte_length value <=? 256)%N
  && (byte_length value - byte_length unpadded <=? 2)%N
  && forallb is_base64_byte (bytes unpadded).

Definition nonce_value (source : string) : option string :=
  value ← strip_prefix "'nonce-" source;
  value ← strip_suffix "'" value;
  if valid_base64_value value then Some value else None.

Definition matches_ignore_ascii_case (value : string) (candidates : list string) : bool :=
  existsb (eq_ignore_ascii_case value) candidates.

Definition hash_parts (source : string) : option (string * string) :=
  inner ← strip_prefix "'" source;
  inner ← strip_suffix "'" inner;
  '(algorithm, value) ← split_once "-" inner;
  if matches_ignore_ascii_case algorithm ["sha256"; "sha384"; "sha512"] && valid_base64_value value
  then Some (algorithm, value) else None.

Definition hash_source (source : string) : bool := bool_decide (is_Some (hash_parts source)).

Definition valid_scheme (scheme : string) : bool :=
  match bytes scheme with
  | b :: _ => is_ascii_alphabetic b
  | [] => false
  end && forallb (fun ch => is_ascii_alphanumeric ch || one_of "+-." ch) (bytes scheme).

Definition scheme_matches (source target : string) : bool :=
  eq_ignore_ascii_case source target
  || (String.eqb (to_ascii_lowercase source) "http" && String.eqb target "https")
  || (String.eqb (to_ascii_lowercase source) "ws" && string_in target ["wss"; "http"; "https"]).

(** Splits before the first slash: the part before it, and the rest with it. *)
Fixpoint split_path (s : string) : string * string :=
  match s with
  | EmptyString => (EmptyString, EmptyString)
  | String a rest =>
      if Ascii.eqb a "/" then (EmptyString, s)
      else let '(l, r) := split_path rest in (String a l, r)
  end.

(** [split_once("://")] *)
Fixpoint split_authority (s : string) : option (string * string) :=
  match strip_prefix "://" s with
  | Some rest => Some (EmptyString, rest)
  | None =>
      match s with
      | EmptyString => None
      | String a s => prod_map (String a) id <$> split_authority s
      end
  end.

Record HostSource := mkHostSource {
  hs_scheme : string;
  hs_host : string;
  hs_port : option string;
  hs_path : string
}.

Definition host_parts (source default_scheme : string) : option HostSource :=
  let '(scheme, rest) := default (default_scheme, source) (split_authority source) in
  if negb (valid_scheme scheme) then None
  else
    let '(authority, path) := split_path rest in
    let '(host, port) := match split_once ":" authority with
                         | Some (host, port) => (host, Some port)
                         | None => (authority, None)
                         end in
    if String.eqb host EmptyString
       || negb (forallb (fun ch => is_ascii_alphanumeric ch || one_of "-.*" ch) (bytes host))
    then None
    else if contains_char "*" host && negb (String.eqb host "*")
            && match strip_prefix "*." host with
               | None => true
               | Some rest => contains_char "*" rest
               end
    then None
    else if match port with
            | Some port => negb (String.eqb port "*") && negb (bool_decide (is_Some (parse_unsigned 65535 port)))
            | None => false
            end
    then None
    else Some (mkHostSource scheme host port path).

Definition supported (source : string) : bool :=
  let lower := to_ascii_lowercase source in
  if string_in lower ["'none'"; "'self'"; "'unsafe-inline'"; "'unsafe-eval'"; "'strict-dynamic'";
                      "'report-sample'"; "*"] then true
  else if bool_decide (is_Some (nonce_value source)) || hash_source source then true
  else if existsb (fun b => (one_of "'@?#\" b || (b =? 34))%N) (bytes source)
          || existsb (fun b => (128 <=? b)%N) (bytes source) then false
  else match strip_suffix ":" source with
       | Some scheme => valid_scheme scheme
       | None => bool_decide (is_Some (host_parts source "https"))
       end.

(** Percent-decoding of one path segment; [char::to_digit(16)]. *)
Definition hex_digit (b : N) : option N :=
  if is_ascii_digit b then Some (b - 48)%N
  else if ((97 <=? b) && (b <=? 102))%N then Some (b - 87)%N
  else if ((65 <=? b) && (b <=? 70))%N then Some (b - 55)%N
  else None.

Fixpoint decode_percent (l : list N) : list N :=
  match l with
  | [] => []
  | b :: rest =>
      match rest with
      | h :: l' :: rest' =>
          if (b =? 37)%N then
            match hex_digit h, hex_digit l' with
            | Some h, Some l' => (h * 16 + l')%N :: decode_percent rest'
            | _, _ => b :: decode_percent rest
            end
          else b :: decode_percent rest
      | _ => b :: decode_percent rest
      end
  end.

Definition decode_segment (s : string) : list N := decode_percent (bytes s).

Section sources.
Context {URL : UrlLib} {PARTS : UrlParts} {DIGESTS : Digests}.

Definition hash_matches (expression source : string) : bool :=
  match hash_parts expression with
  | None => false
  | Some (algorithm, expected) =>
      let digest := if eq_ignore_ascii_case algorithm "sha256" then sha256
                    else if eq_ignore_ascii_case algorithm "sha384" then sha384 else sha512 in
      String.eqb (standard_encode (digest (bytes source)))
        (replace_char "_" "/" (replace_char "-" "+" expected))
  end.

Definition self_matches (url origin : Url) : bool :=
  if String.eqb (url_scheme url) "blob" then false
  else same_origin url origin
       || (bool_decide (url_host_str origin = url_host_str url)
           && bool_decide (url_port origin = url_port url)
           && (string_in (url_scheme url) ["https"; "wss"]
               || (String.eqb (url_scheme origin) "http" && string_in (url_scheme url) ["http"; "ws"]))).

Definition host_matches (host actual : string) : bool :=
  if String.eqb host "*" then true
  else match strip_prefix "*." host with
       | Some suffix =>
           (byte_length suffix + 1 <? byte_length actual)%N
           && ends_with ("." +:+ to_ascii_lowercase suffix) (to_ascii_lowercase actual)
       | None => eq_ignore_ascii_case actual host
       end.

Definition port_matches (port : option string) (url : Url) : bool :=
  if bool_decide (port = Some "*") then true
  else match port ≫= parse_unsigned 65535 with
       | Some expected =>
           bool_decide (url_port_or_known_default url = Some expected)
           || ((expected =? 80)%N && String.eqb (url_scheme url) "https"
               && bool_decide (url_port url = None))
       | None => bool_decide (url_port url = None)
       end.

Definition path_matches (path : string) (url : Url) (redirects : N) : bool :=
  if (0 <? redirects)%N || String.eqb path EmptyString then true
  else
    let wanted := split_on "/" path in
    let actual := split_on "/" (url_path url) in
    let prefix := ends_with "/" path in
    let len := length wanted - (if prefix then 1 else 0) in
    if Nat.ltb (length actual) len || (negb prefix && negb (Nat.eqb (length actual) len)) then false
    else forallb (fun ab => bool_decide (decode_segment ab.1 = decode_segment ab.2))
           (zip (take len wanted) actual).

Definition source_matches (source : string) (url origin : Url) (redirects : N) : bool :=
  if eq_ignore_ascii_case source "'self'" then self_matches url origin
  else if String.eqb source "*" then
    string_in (url_scheme url) ["http"; "https"; "ws"; "wss"; "ftp"]
    || String.eqb (url_scheme url) (url_scheme origin)
  else if starts_with "'" source then false
  else match strip_suffix ":" source with
       | Some scheme => scheme_matches scheme (url_scheme url)
       | None =>
           match host_parts source (url_scheme origin) with
           | None => false
           | Some parts =>
               if negb (scheme_matches (hs_scheme parts) (url_scheme url)) then false
               else match url_host_str url with
                    | None => false
                    | Some actual =>
                        host_matches (hs_host parts) actual
                        && port_matches (hs_port parts) url
                        && path_matches (hs_path parts) url redirects
                    end
           end
       end.
End sources.

Example source_examples :
  supported "https://*.example.test:8443/a/" = true /\ supported "invalid?source" = false /\
  supported "'sha256-aGVsbG8='" = true /\ supported "'unsafe-hashes'" = false /\
  nonce_value "'nonce-AbC123='" = Some "AbC123=" /\ supported "*.*.test" = false /\
  supported "blob:" = true /\ decode_segment "a%2Fb%2" = [97; 47; 98; 37; 50]%N.
Proof. split_and!; vm_compute; reflexivity. Qed.
