(* ===== verification/Csp.v ===== *)
(** * Csp: policy containers (src/fetch/csp.rs, src/fetch/csp/inline.rs)

    A container holds the enforced policies of a document, at most 32; a request,
    an inline script or [eval] is allowed when every policy allows it. A policy
    maps directive names to source lists, the first of a name winning. *)

From S2P Require Import Prelude Text StrOps Origins Headers CspSources.

Record ScriptSource := mkScriptSource { nonce : option string; parser_inserted : bool }.
Definition ScriptSource_default : ScriptSource := mkScriptSource None true.

(** src/fetch/request.rs *)
Inductive RequestDestination :=
  | Document | Object | Style | Image | Script | Worker | Font | Fetch | Video | Audio.
#[global] Instance RequestDestination_eq_dec : EqDecision RequestDestination.
Proof. solve_decision. Defined.

Definition MAX_POLICIES : N := 32.

Definition unsupported {A} (feature : string) : result FetchError A :=
  Err (FetchError_new Network ("Content Security Policy requires unsupported " +:+ feature
                               +:+ "; child document refused")).

Definition source_list_directives : list string :=
  ["default-src"; "script-src"; "script-src-elem"; "script-src-attr"; "style-src"; "style-src-elem";
   "style-src-attr"; "connect-src"; "img-src"; "font-src"; "media-src"; "manifest-src"; "object-src";
   "child-src"; "frame-src"; "worker-src"; "base-uri"; "form-action"; "frame-ancestors"].

Definition refused_directives : list string :=
  ["sandbox"; "upgrade-insecure-requests"; "require-trusted-types-for"; "trusted-types";
   "navigate-to"; "webrtc"].

Section csp.
Context {URL : UrlLib} {PARTS : UrlParts} {DIGESTS : Digests}.

Record Policy := mkPolicy {
  policy_origin : Url;
  policy_serialized : string;
  directives : gmap string (list string);
  mixed_content : bool
}.

(** [PolicyContainer::policies]. *)
Definition PolicyContainer := list Policy.

(** ** Parsing *)

(** One directive of the loop of [parse_policy]. *)
Definition parse_directive (from_meta : bool) (ds : gmap string (list string)) (mixed : bool)
    (directive : string) : result FetchError (gmap string (list string) * bool) :=
  match split_ascii_whitespace directive with
  | [] => Ok (ds, mixed)
  | name :: values =>
      let name := to_ascii_lowercase name in
      if bool_decide (is_Some (ds !! name)) then Ok (ds, mixed)
      else if from_meta && string_in name ["report-uri"; "frame-ancestors"; "sandbox"] then Ok (ds, mixed)
      else if String.eqb name "block-all-mixed-content" then Ok (<[name := values]> ds, true)
      else if string_in name ["report-uri"; "report-to"] then Ok (ds, mixed)
      else if negb (string_in name source_list_directives) then
        if string_in name refused_directives then unsupported name else Ok (ds, mixed)
      else Ok (<[name := filter (fun v => supported v) values]> ds, mixed)
  end.

Fixpoint parse_directives (from_meta : bool) (ds : gmap string (list string)) (mixed : bool)
    (l : list string) : result FetchError (gmap string (list string) * bool) :=
  match l with
  | [] => Ok (ds, mixed)
  | directive :: l =>
      '(ds, mixed) ← parse_directive from_meta ds mixed directive;
      parse_directives from_meta ds mixed l
  end.

Definition parse_policy (url serialized : string) (from_meta : bool) : result FetchError Policy :=
  match Url_parse url with
  | Err _ => unsupported "origin URL"
  | Ok origin =>
      '(ds, mixed) ← parse_directives from_meta ∅ false (split_on ";" serialized);
      Ok (mkPolicy origin (trim serialized) ds mixed)
  end.

Definition from_serialized_policies (url : string) (policies : list string)
  : result FetchError PolicyContainer :=
  if (MAX_POLICIES <? N.of_nat (length policies))%N then unsupported "policy count"
  else try_map (fun policy => parse_policy url policy false) policies.

Fixpoint push_policies (url : string) (container : PolicyContainer) (l : list string)
  : result FetchError PolicyContainer :=
  match l with
  | [] => Ok container
  | serialized :: l =>
      if (MAX_POLICIES <=? N.of_nat (length container))%N then unsupported "policy count"
      else
        policy ← parse_policy url serialized false;
        push_policies url (container ++ [policy]) l
  end.

Definition from_headers (url : string) (headers : HeaderList) : result FetchError PolicyContainer :=
  push_policies url [] (header_values headers "content-security-policy" ≫= split_on ",").

Definition append_meta (container : PolicyContainer) (url serialized : string)
  : result FetchError PolicyContainer :=
  if (MAX_POLICIES <=? N.of_nat (length container))%N then unsupported "policy count"
  else policy ← parse_policy url serialized true; Ok (container ++ [policy]).

(** ** Directive fallback *)
Definition fallback_names (name : string) : list string :=
  if String.eqb name "script-src-elem" then ["script-src-elem"; "script-src"; "default-src"]
  else if String.eqb name "script-src-attr" then ["script-src-attr"; "script-src"; "default-src"]
  else if String.eqb name "style-src-elem" then ["style-src-elem"; "style-src"; "default-src"]
  else if String.eqb name "style-src-attr" then ["style-src-attr"; "style-src"; "default-src"]
  else if String.eqb name "frame-src" then ["frame-src"; "child-src"; "default-src"]
  else if String.eqb name "worker-src" then ["worker-src"; "child-src"; "script-src"; "default-src"]
  else if string_in name ["base-uri"; "form-action"; "frame-ancestors"] then [name]
  else [name; "default-src"].

Fixpoint first_present (ds : gmap string (list string)) (names : list string) : option (list string) :=
  match names with
  | [] => None
  | name :: names => match ds !! name with Some l => Some l | None => first_present ds names end
  end.

Definition policy_list (p : Policy) (name : string) : option (list string) :=
  first_present (directives p) (fallback_names name).

(** [list.is_none_or]: no list means no restriction. *)
Definition unless_listed (p : Policy) (name : string) (f : list string -> bool) : bool :=
  from_option f true (policy_list p name).

Definition has_keyword (l : list string) (keyword : string) : bool :=
  existsb (fun source => eq_ignore_ascii_case source keyword) l.

Definition nonce_matches (l : list string) (nonce : option string) : bool :=
  match nonce with
  | None => false
  | Some nonce =>
      negb (String.eqb nonce EmptyString)
      && existsb (fun source => bool_decide (nonce_value source = Some nonce)) l
  end.

(** ** URL checks *)
Definition blocks_mixed (p : Policy) (url : Url) : bool :=
  mixed_content p && String.eqb (url_scheme (policy_origin p)) "https" && String.eqb (url_scheme url) "http".

Definition any_source (p : Policy) (l : list string) (url : Url) (redirects : N) : bool :=
  existsb (fun source => source_matches source url (policy_origin p) redirects) l.

Definition policy_allows_url (p : Policy) (directive : string) (url : Url) (redirects : N) : bool :=
  negb (blocks_mixed p url) && unless_listed p directive (fun l => any_source p l url redirects).

Definition policy_allows_script_url (p : Policy) (directive : string) (url : Url) (redirects : N)
    (script : ScriptSource) : bool :=
  if blocks_mixed p url then false
  else unless_listed p directive (fun l =>
         if nonce_matches l (nonce script) then true
         else if has_keyword l "'strict-dynamic'" then negb (parser_inserted script)
         else any_source p l url redirects).

Definition allows_script_url (c : PolicyContainer) (directive url : string) (redirects : N)
    (script : ScriptSource) : bool :=
  match Url_parse url with
  | Err _ => false
  | Ok url => forallb (fun p => policy_allows_script_url p directive url redirects script) c
  end.

Definition allows_url (c : PolicyContainer) (directive url : string) (redirects : N) : bool :=
  if string_in directive ["script-src"; "script-src-elem"]
  then allows_script_url c directive url redirects ScriptSource_default
  else match Url_parse url with
       | Err _ => false
       | Ok url => forallb (fun p => policy_allows_url p directive url redirects) c
       end.

Definition FETCH_DIRECTIVES : list string :=
  ["child-src"; "connect-src"; "font-src"; "frame-src"; "img-src"; "manifest-src"; "media-src";
   "object-src"; "script-src"; "script-src-elem"; "style-src"; "style-src-elem"; "worker-src"].

Definition policy_allows_hint (p : Policy) (url : Url) : bool :=
  if blocks_mixed p url then false
  else if negb (bool_decide (is_Some (directives p !! "default-src"))) then true
  else existsb (fun name => from_option (fun l => any_source p l url 0) false (directives p !! name))
         FETCH_DIRECTIVES.

Definition allows_resource_hint (c : PolicyContainer) (url : string) : bool :=
  match Url_parse url with
  | Err _ => false
  | Ok url => forallb (fun p => policy_allows_hint p url) c
  end.

(** The policies that refuse, as their serialisations ([UrlViolation]). *)
Definition script_url_violations (c : PolicyContainer) (directive url : string) (redirects : N)
    (script : ScriptSource) : list string :=
  match Url_parse url with
  | Err _ => []
  | Ok url =>
      policy_serialized <$>
        filter (fun p => negb (policy_allows_script_url p directive url redirects script)) c
  end.

Definition allows_keyword (c : PolicyContainer) (directive keyword : string) : bool :=
  forallb (fun p => unless_listed p directive (fun l => has_keyword l keyword)) c.
Definition allows_eval (c : PolicyContainer) : bool := allows_keyword c "script-src" "'unsafe-eval'".

Definition nonce_or_hash (source : string) : bool :=
  bool_decide (is_Some (nonce_value source)) || hash_source source.

Definition allows_style_inline (c : PolicyContainer) : bool :=
  forallb (fun p => unless_listed p "style-src-elem" (fun l =>
    negb (existsb nonce_or_hash l) && has_keyword l "'unsafe-inline'")) c.

Definition checks_ancestors (c : PolicyContainer) : bool :=
  existsb (fun p => bool_decide (is_Some (directives p !! "frame-ancestors"))) c.

Definition destination_directive (d : RequestDestination) : string :=
  match d with
  | Document => "frame-src"
  | Object => "object-src"
  | Script => "script-src-elem"
  | Worker => "worker-src"
  | Fetch => "connect-src"
  | Style => "style-src-elem"
  | Image => "img-src"
  | Font => "font-src"
  | Video => "media-src"
  | Audio => "media-src"
  end.

Definition check_request_with_script (c : PolicyContainer) (d : RequestDestination) (url : string)
    (redirects : N) (script : option ScriptSource) : result FetchError () :=
  let directive := destination_directive d in
  let allowed := if bool_decide (d = Script)
                 then allows_script_url c directive url redirects (default ScriptSource_default script)
                 else allows_url c directive url redirects in
  ensure allowed (FetchError_new Network ("Content Security Policy blocked " +:+ directive +:+ " request")).

Definition check_request (c : PolicyContainer) (d : RequestDestination) (url : string) (redirects : N)
  : result FetchError () := check_request_with_script c d url redirects None.

(** ** Inline scripts (csp/inline.rs) *)
Inductive InlineType := ScriptElement (parser_inserted : bool) | ScriptAttribute.

Definition inline_directive (k : InlineType) : string :=
  match k with ScriptElement _ => "script-src-elem" | ScriptAttribute => "script-src-attr" end.
Definition is_element (k : InlineType) : bool :=
  match k with ScriptElement _ => true | ScriptAttribute => false end.

Definition matches_inline (l : list string) (kind : InlineType) (nonce source : option string) : bool :=
  let strict_dynamic := has_keyword l "'strict-dynamic'" in
  let has_nonce_or_hash := existsb nonce_or_hash l in
  if negb strict_dynamic && negb has_nonce_or_hash && has_keyword l "'unsafe-inline'" then true
  else if is_element kind && nonce_matches l nonce then true
  else if match kind with ScriptElement false => true | _ => false end && strict_dynamic then true
  else is_element kind
       && match source with
          | Some source => existsb (fun expression => hash_matches expression source) l
          | None => false
          end.

Definition allows_inline_source (c : PolicyContainer) (kind : InlineType) (nonce source : option string) : bool :=
  forallb (fun p => unless_listed p (inline_directive kind)
                      (fun l => matches_inline l kind nonce source)) c.

Definition allows_inline_with_nonce (c : PolicyContainer) (attribute : bool) (nonce : option string) : bool :=
  allows_inline_source c (if attribute then ScriptAttribute else ScriptElement true) nonce None.
Definition allows_inline (c : PolicyContainer) (attribute : bool) : bool :=
  allows_inline_with_nonce c attribute None.
Definition allows_inline_script (c : PolicyContainer) (nonce : option string) (source : string)
    (parser_inserted : bool) : bool :=
  allows_inline_source c (ScriptElement parser_inserted) nonce (Some source).

Record InlineScriptViolation := mkViolation { original_policy : string; report_sample : bool }.

Definition inline_script_violations_for_source (c : PolicyContainer) (nonce source : option string)
    (parser_inserted : bool) : list InlineScriptViolation :=
  omap (fun p =>
    l ← policy_list p "script-src-elem";
    if matches_inline l (ScriptElement parser_inserted) nonce source then None
    else Some (mkViolation (policy_serialized p) (has_keyword l "'report-sample'"))) c.

Definition inline_script_violations (c : PolicyContainer) (nonce : option string) : list InlineScriptViolation :=
  inline_script_violations_for_source c nonce None true.
End csp.
