(* ===== verification/FetchRequest.v ===== *)
(** * FetchRequest: requests, bodies and signals

    src/fetch/request.rs, body.rs, cancellation.rs, client.rs and response.rs: the
    request state with its constructors, the script-facing setters, and the
    validation every request passes before it is sent. A [FetchSignal] is the
    list of the controllers it listens to; which controllers have aborted is
    shared state, the set [aborted]. *)

From Stdlib Require Import Strings.Byte.
From S2P Require Import Prelude Text StrOps Limits Words Origins Headers CspSources Csp.

(** ** src/fetch/body.rs *)
Record Body := mkBody { body_bytes : list byte; body_cursor : nat; body_limit : N }.

Definition Body_empty (limit : N) : Body := mkBody [] 0 limit.
Definition Body_from_bytes (l : list byte) : Body := mkBody l 0 (N.of_nat (length l)).
Definition Body_len (b : Body) : N := N.of_nat (length (body_bytes b)).

Definition body_too_large (limit : N) : FetchError :=
  FetchError_new BodyTooLarge ("response body exceeds its " +:+ pretty limit +:+ "-byte budget").

Definition Body_push (b : Body) (chunk : list byte) : Body * result FetchError () :=
  if (body_limit b <? saturating_add (Body_len b) (N.of_nat (length chunk)))%N
  then (b, Err (body_too_large (body_limit b)))
  else (mkBody (body_bytes b ++ chunk) (body_cursor b) (body_limit b), Ok tt).

Definition Body_rewind (b : Body) : Body := mkBody (body_bytes b) 0 (body_limit b).

(** [Read::read] into a buffer of [size] bytes. *)
Definition Body_read (b : Body) (size : nat) : Body * list byte :=
  let got := take size (drop (body_cursor b) (body_bytes b)) in
  (mkBody (body_bytes b) (body_cursor b + length got) (body_limit b), got).

(** ** src/fetch/cancellation.rs *)
Definition FetchSignal := list N.
Definition controller_signal (controller : N) : FetchSignal := [controller].
(** The signal of a controller nobody holds. *)
Definition FetchSignal_default : FetchSignal := [].
Definition FetchSignal_any (s t : FetchSignal) : FetchSignal := s ++ t.
Definition signal_is_aborted (aborted : gset N) (s : FetchSignal) : bool :=
  existsb (fun c => bool_decide (c ∈ aborted)) s.
Definition signal_check (aborted : gset N) (s : FetchSignal) : result FetchError () :=
  ensure (negb (signal_is_aborted aborted s)) (FetchError_new Aborted "request was aborted").
Definition controller_abort (aborted : gset N) (controller : N) : gset N := {[controller]} ∪ aborted.

(** ** src/fetch/client.rs *)
Record RequestClient := mkClient { client_id : u64; client_opaque : bool }.
Definition RequestClient_default : RequestClient := mkClient (to_word u64_max 0) false.

(** ** src/fetch/request.rs *)
Inductive RequestContext := Navigation | Subresource | Prefetch | ScriptContext | WorkerScript.
Inductive RequestMode := Navigate | SameOriginMode | NoCors | CorsMode.
Inductive CredentialsMode := Omit | SameOriginCredentials | Include.
Inductive RedirectMode := Follow | ErrorRedirect | Manual.
Inductive RequestCache := DefaultCache | NoStore | Reload | NoCache | ForceCache | OnlyIfCached.
Inductive ReferrerPolicy :=
  | NoReferrerPolicy | NoReferrerWhenDowngrade | SameOriginPolicy | OriginPolicy | StrictOrigin
  | OriginWhenCrossOrigin | StrictOriginWhenCrossOrigin | UnsafeUrl.
Inductive Referrer := NoReferrer | ReferrerUrl (u : FetchUrl).

#[global] Instance RequestContext_eq_dec : EqDecision RequestContext.
Proof. solve_decision. Defined.
#[global] Instance RequestMode_eq_dec : EqDecision RequestMode.
Proof. solve_decision. Defined.
#[global] Instance CredentialsMode_eq_dec : EqDecision CredentialsMode.
Proof. solve_decision. Defined.
#[global] Instance RequestCache_eq_dec : EqDecision RequestCache.
Proof. solve_decision. Defined.

Section requests.
Context {URL : UrlLib}.

Record FetchRequest := mkFetchRequest {
  policy : PolicyContainer;
  client : RequestClient;
  resulting_client : RequestClient;
  embedding_client : RequestClient;
  req_url : FetchUrl;
  method : string;
  headers : HeaderList;
  body : option Body;
  keepalive : bool;
  context : RequestContext;
  destination : RequestDestination;
  script_source : option ScriptSource;
  mode : RequestMode;
  user_activation : bool;
  credentials : CredentialsMode;
  cache : RequestCache;
  redirect : RedirectMode;
  req_origin : option Origin;
  referrer : Referrer;
  referrer_policy : ReferrerPolicy;
  signal : FetchSignal;
  response_body_limit : N
}.

(** The fields the program assigns after construction. *)
Definition with_target (r : FetchRequest) (url : FetchUrl) (m : string) (hs : HeaderList)
    (b : option Body) : FetchRequest :=
  mkFetchRequest (policy r) (client r) (resulting_client r) (embedding_client r) url m hs b
    (keepalive r) (context r) (destination r) (script_source r) (mode r) (user_activation r)
    (credentials r) (cache r) (redirect r) (req_origin r) (referrer r) (referrer_policy r) (signal r)
    (response_body_limit r).
Definition with_method (r : FetchRequest) (m : string) : FetchRequest :=
  with_target r (req_url r) m (headers r) (body r).
Definition with_headers (r : FetchRequest) (hs : HeaderList) : FetchRequest :=
  with_target r (req_url r) (method r) hs (body r).

Definition navigation (next : N) (url : string) : result FetchError (FetchRequest * N) :=
  '(url, next) ← FetchUrl_parse next url;
  Ok (mkFetchRequest [] RequestClient_default RequestClient_default RequestClient_default url "GET" []
        None false Navigation Document None Navigate false Include DefaultCache Follow None NoReferrer
        StrictOriginWhenCrossOrigin FetchSignal_default MAX_RESPONSE_BODY_BYTES, next).

Definition subresource (next : N) (url document_url : string) (destination : RequestDestination)
  : result FetchError (FetchRequest * N) :=
  '(document, next) ← FetchUrl_parse next document_url;
  let mode := if bool_decide (destination = Font) then CorsMode else NoCors in
  '(url, next) ← FetchUrl_parse next url;
  Ok (mkFetchRequest [] RequestClient_default RequestClient_default RequestClient_default url "GET" []
        None false Subresource destination None mode false SameOriginCredentials DefaultCache Follow
        (Some (url_origin document)) (ReferrerUrl document) StrictOriginWhenCrossOrigin
        FetchSignal_default MAX_RESPONSE_BODY_BYTES, next).

Definition prefetch (next : N) (url document_url : string) : result FetchError (FetchRequest * N) :=
  '(r, next) ← subresource next url document_url Fetch;
  Ok (mkFetchRequest (policy r) (client r) (resulting_client r) (embedding_client r) (req_url r)
        (method r) (headers r) (body r) (keepalive r) Prefetch (destination r) (script_source r)
        (mode r) (user_activation r) Include (cache r) (redirect r) (req_origin r) (referrer r)
        (referrer_policy r) (signal r) (2 * 1024 * 1024), next).

Definition script (next : N) (url document_url : string) : result FetchError (FetchRequest * N) :=
  '(document, next) ← FetchUrl_parse next document_url;
  '(url, next) ← FetchUrl_parse next url;
  Ok (mkFetchRequest [] RequestClient_default RequestClient_default RequestClient_default url "GET" []
        None false ScriptContext Fetch None CorsMode false SameOriginCredentials DefaultCache Follow
        (Some (url_origin document)) (ReferrerUrl document) StrictOriginWhenCrossOrigin
        FetchSignal_default MAX_RESPONSE_BODY_BYTES, next).

Definition invalid {A} (message : string) : result FetchError A := Err (FetchError_new InvalidRequest message).

Definition is_method_byte (b : N) : bool := is_ascii_alphanumeric b || one_of "!#$%&'*+-.^_`|~" b.
Definition valid_method (m : string) : bool :=
  negb (String.eqb m EmptyString) && forallb is_method_byte (bytes m).
Definition normalized_methods : list string := ["DELETE"; "GET"; "HEAD"; "OPTIONS"; "POST"; "PUT"].
Definition forbidden_methods : list string := ["CONNECT"; "TRACE"; "TRACK"].

Definition set_method (r : FetchRequest) (m : string) : FetchRequest * result FetchError () :=
  if negb (valid_method m) then (r, invalid ("invalid HTTP method: " +:+ m))
  else if string_in (to_ascii_uppercase m) forbidden_methods
  then (r, invalid ("forbidden HTTP method: " +:+ m))
  else
    let normalized := to_ascii_uppercase m in
    (with_method r (if string_in normalized normalized_methods then normalized else m), Ok tt).

Definition is_script_context (c : RequestContext) : bool :=
  match c with ScriptContext | WorkerScript => true | _ => false end.

Definition set_script_header (r : FetchRequest) (name value : string) : FetchRequest * result FetchError () :=
  if negb (bool_decide (context r = ScriptContext))
  then (r, invalid "script header guard requires a script-initiated request")
  else let '(hs, res) := set_script (headers r) name value in (with_headers r hs, res).

(** [validate] normalises the method and checks the request. *)
Definition check_script_request (r : FetchRequest) (normalized : string) : result FetchError () :=
  if is_script_context (context r) then
    _ ← ensure (negb (bool_decide (mode r = Navigate)))
          (FetchError_new InvalidRequest "script-initiated requests cannot use navigate mode");
    _ ← validate_script_request (headers r);
    _ ← ensure (negb (bool_decide (mode r = NoCors) && negb (string_in normalized ["GET"; "HEAD"; "POST"])))
          (FetchError_new InvalidRequest "no-cors requests require a CORS-safelisted method");
    ensure (negb (bool_decide (cache r = OnlyIfCached) && negb (bool_decide (mode r = SameOriginMode))))
      (FetchError_new InvalidRequest "only-if-cached requires same-origin mode")
  else Ok tt.

Definition validate (r : FetchRequest) : FetchRequest * result FetchError () :=
  if negb (valid_method (method r)) then (r, invalid ("invalid HTTP method: " +:+ method r))
  else
    let normalized := to_ascii_uppercase (method r) in
    let r := if string_in normalized normalized_methods then with_method r normalized else r in
    (r,
     _ ← ensure (negb (string_in normalized forbidden_methods))
           (FetchError_new InvalidRequest ("forbidden HTTP method: " +:+ method r));
     _ ← ensure (negb (string_in normalized ["GET"; "HEAD"] && bool_decide (is_Some (body r))))
           (FetchError_new InvalidRequest (method r +:+ " requests cannot have a body"));
     _ ← ensure (negb (keepalive r
                       && ((MAX_KEEPALIVE_BODY_BYTES <? from_option Body_len 0 (body r))%N
                           || negb (is_script_context (context r)))))
           (FetchError_new InvalidRequest "invalid keepalive request or body exceeds 64 KiB");
     check_script_request r normalized).
End requests.

(** * Theory *)

(** ** What a validated request looks like *)
Section theory.
Context {URL : UrlLib}.
Implicit Types r : FetchRequest.

Record admissible (r : FetchRequest) : Prop := {
  adm_method : valid_method (method r) = true;
  adm_permitted : to_ascii_uppercase (method r) ∉ forbidden_methods;
  adm_body : string_in (to_ascii_uppercase (method r)) ["GET"; "HEAD"] = true -> body r = None;
  adm_keepalive : keepalive r = true ->
    is_script_context (context r) = true /\
    forall b, body r = Some b -> (Body_len b <= MAX_KEEPALIVE_BODY_BYTES)%N;
  adm_script : is_script_context (context r) = true ->
    mode r <> Navigate /\
    Forall (fun h => is_forbidden_request_header (header_name h) (header_value h) = false) (headers r) /\
    (mode r = NoCors -> to_ascii_uppercase (method r) ∈ ["GET"; "HEAD"; "POST"]) /\
    (cache r = OnlyIfCached -> mode r = SameOriginMode)
}.

Lemma upper_method_byte (a : ascii) :
  is_method_byte (N_of_ascii a) = true -> is_method_byte (N_of_ascii (upper_ascii a)) = true.
Proof. destruct a as [[] [] [] [] [] [] [] []]; vm_compute; done. Qed.

Lemma valid_method_upper (m : string) : valid_method m = true -> valid_method (to_ascii_uppercase m) = true.
Proof.
  unfold valid_method. rewrite !andb_true_iff. intros [Hne Hall].
  split; [by destruct m|]. clear Hne. induction m as [|a m IH]; [done|]. simpl in *.
  apply andb_true_iff in Hall as [Ha Hall]. rewrite upper_method_byte by done. by apply IH.
Qed.

Lemma upper_ascii_idemp (a : ascii) : upper_ascii (upper_ascii a) = upper_ascii a.
Proof. destruct a as [[] [] [] [] [] [] [] []]; vm_compute; done. Qed.

Lemma to_ascii_uppercase_idemp (s : string) : to_ascii_uppercase (to_ascii_uppercase s) = to_ascii_uppercase s.
Proof. induction s as [|a s IH]; [done|]. unfold to_ascii_uppercase in *. simpl. by rewrite upper_ascii_idemp, IH. Qed.

Definition normalized_request r : FetchRequest :=
  if string_in (to_ascii_uppercase (method r)) normalized_methods
  then with_method r (to_ascii_uppercase (method r)) else r.

Lemma normalized_upper r : to_ascii_uppercase (method (normalized_request r)) = to_ascii_uppercase (method r).
Proof. unfold normalized_request. destruct (string_in _ _); [apply to_ascii_uppercase_idemp|done]. Qed.

Lemma normalized_valid r : valid_method (method r) = true -> valid_method (method (normalized_request r)) = true.
Proof. unfold normalized_request. destruct (string_in _ _); [apply valid_method_upper|done]. Qed.

Lemma normalized_idemp r : normalized_request (normalized_request r) = normalized_request r.
Proof.
  unfold normalized_request at 1. rewrite normalized_upper. destruct (string_in _ _) eqn:Hin; [|done].
  unfold normalized_request. rewrite Hin. by destruct r.
Qed.

Lemma validate_script_request_ok (hs : HeaderList) :
  validate_script_request hs = Ok tt <->
  Forall (fun h => is_forbidden_request_header (header_name h) (header_value h) = false) hs.
Proof.
  unfold validate_script_request. rewrite try_for_each_ensure. apply Forall_iff; intros h.
  apply negb_true_iff.
Qed.

Lemma check_script_request_ok r normalized :
  is_ok (check_script_request r normalized) = true <->
  (is_script_context (context r) = true ->
    mode r <> Navigate /\
    Forall (fun h => is_forbidden_request_header (header_name h) (header_value h) = false) (headers r) /\
    (mode r = NoCors -> normalized ∈ ["GET"; "HEAD"; "POST"]) /\
    (cache r = OnlyIfCached -> mode r = SameOriginMode)).
Proof.
  unfold check_script_request. destruct (is_script_context (context r)); [|by split].
  rewrite is_ok_spec, bind_ensure_Ok. pose proof (validate_script_request_ok (headers r)) as Hhs.
  destruct (validate_script_request (headers r)) as [[]|e]; simpl; [|naive_solver].
  rewrite bind_ensure_Ok, ensure_Ok, <- string_in_spec.
  destruct (decide (mode r = NoCors)) as [Hm|], (decide (cache r = OnlyIfCached)) as [Hc|];
    rewrite ?Hm, ?Hc; repeat case_bool_decide; destruct (string_in _ _); naive_solver.
Qed.

(** The checks [validate] makes of the normalised request. *)
Definition request_checks r : result FetchError () :=
  let normalized := to_ascii_uppercase (method r) in
  _ ← ensure (negb (string_in normalized forbidden_methods))
        (FetchError_new InvalidRequest ("forbidden HTTP method: " +:+ method r));
  _ ← ensure (negb (string_in normalized ["GET"; "HEAD"] && bool_decide (is_Some (body r))))
        (FetchError_new InvalidRequest (method r +:+ " requests cannot have a body"));
  _ ← ensure (negb (keepalive r
                    && ((MAX_KEEPALIVE_BODY_BYTES <? from_option Body_len 0 (body r))%N
                        || negb (is_script_context (context r)))))
        (FetchError_new InvalidRequest "invalid keepalive request or body exceeds 64 KiB");
  check_script_request r normalized.

Lemma validate_normalized r :
  valid_method (method r) = true -> validate r = (normalized_request r, request_checks (normalized_request r)).
Proof.
  intros Hv. unfold validate, request_checks. rewrite Hv, normalized_upper. done.
Qed.

Lemma request_checks_ok r :
  valid_method (method r) = true -> is_ok (request_checks r) = true <-> admissible r.
Proof.
  intros Hv. unfold request_checks. rewrite is_ok_spec, !bind_ensure_Ok, <- is_ok_spec, check_script_request_ok.
  rewrite !negb_true_iff, <- not_true_iff_false, string_in_spec, !andb_false_iff, orb_false_iff,
    negb_false_iff, bool_decide_eq_false, N.ltb_ge.
  split.
  - intros (Hf & Hb & Hk & Hs). split; try done.
    + intros Hin. destruct Hb as [Hb|Hb]; [congruence|]. by apply eq_None_not_Some.
    + intros Hka. destruct Hk as [Hk|[Hk ?]]; [congruence|]. split; [done|]. intros b Hbody. by rewrite Hbody in Hk.
  - intros [_ Hf Hb Hk Hs]. split_and!; try done.
    + destruct (string_in _ ["GET"; "HEAD"]); [right|by left]. by rewrite Hb, <- eq_None_not_Some.
    + destruct (keepalive r); [right|by left]. destruct (Hk eq_refl) as [Hc Hlen]. split; [|done].
      destruct (body r); simpl; [by apply Hlen|lia].
Qed.

(** [validate] accepts exactly the admissible requests: a method that is
    a token and not CONNECT, TRACE or TRACK, no body on GET or HEAD, keepalive
    only from script and with at most 64 KiB, and, for a request made by script,
    no navigation mode, no forbidden header and the restrictions of no-cors and
    only-if-cached. It changes nothing but the case of a standard method, and a
    second validation agrees with the first. *)
Theorem validate_admits_exactly r :
  (is_ok (validate r).2 = true <-> admissible (validate r).1) /\
  ((validate r).1 = r \/ (validate r).1 = with_method r (to_ascii_uppercase (method r))) /\
  validate (validate r).1 = validate r.
Proof.
  destruct (valid_method (method r)) eqn:Hv.
  - rewrite (validate_normalized r Hv). simpl. split_and!.
    + by apply request_checks_ok, normalized_valid.
    + unfold normalized_request. destruct (string_in _ _); auto.
    + rewrite validate_normalized by (by apply normalized_valid). by rewrite normalized_idemp.
  - assert (Hr : validate r = (r, invalid ("invalid HTTP method: " +:+ method r))) by (unfold validate; by rewrite Hv).
    rewrite Hr. simpl. split_and!; [split; [done|]|by left|done].
    intros [Hv' _ _ _ _]. congruence.
Qed.
End theory.
