(* ===== verification/Cors.v ===== *)
(** * Cors: cross-origin checks and response filtering (src/fetch/cors.rs)

    Which requests need a CORS check or a preflight, what a response must say
    to pass, and the headers of it that script gets to see. The source panics
    when a request without an origin reaches [validate_allow_origin]; here the
    absent origin is an error of its own, and every caller is shown to hold one. *)

From S2P Require Import Prelude Text StrOps Limits Origins Headers CspSources Csp FetchRequest.

Section cors.
Context {URL : UrlLib}.
Implicit Types r : FetchRequest.

Definition cors_error (message : string) : FetchError := FetchError_new Cors message.

Definition needs_cors_check r : bool :=
  match req_origin r with
  | Some o => negb (is_same_origin o (url_origin (req_url r)))
  | None => false
  end.

Definition simple_methods : list string := ["GET"; "HEAD"; "POST"].

Definition unsafe_headers r : list Header :=
  filter (fun h => negb (is_cors_safelisted_request_header h)) (headers r).

Definition needs_preflight r : bool :=
  needs_cors_check r && bool_decide (mode r = CorsMode)
  && (negb (string_in (method r) simple_methods)
      || existsb (fun h => negb (is_cors_safelisted_request_header h)) (headers r)).

Definition token_list (hs : HeaderList) (name : string) : list string :=
  to_ascii_lowercase <$>
    filter (fun value => negb (String.eqb value EmptyString))
      (trim <$> (header_values hs name ≫= split_on ",")).

Definition validate_allow_origin r (hs : HeaderList) : result FetchError () :=
  match req_origin r with
  | None => Err (cors_error "cross-origin requests have a client origin")
  | Some o =>
      let origin := Origin_serialize o in
      match header_values hs "access-control-allow-origin" with
      | [allowed] =>
          let wildcard_allowed := String.eqb allowed "*" && negb (bool_decide (credentials r = Include)) in
          if negb wildcard_allowed && negb (String.eqb allowed origin)
          then Err (cors_error ("CORS response allowed `" +:+ allowed +:+ "` instead of `" +:+ origin +:+ "`"))
          else if bool_decide (credentials r = Include)
          then ensure (bool_decide (header_values hs "access-control-allow-credentials" = ["true"]))
                 (cors_error "credentialed CORS response requires one Access-Control-Allow-Credentials: true")
          else Ok tt
      | _ => Err (cors_error "CORS response must contain exactly one Access-Control-Allow-Origin value")
      end
  end.

Definition validate_cors_response r (hs : HeaderList) : result FetchError () :=
  if negb (needs_cors_check r) then Ok tt
  else match mode r with
       | SameOriginMode => Err (cors_error "cross-origin request blocked by same-origin mode")
       | CorsMode => validate_allow_origin r hs
       | Navigate | NoCors => Ok tt
       end.

Definition method_allowed r (hs : HeaderList) : bool :=
  let allowed_methods := token_list hs "access-control-allow-methods" in
  existsb (fun m => eq_ignore_ascii_case m (method r)) allowed_methods
  || negb (bool_decide (credentials r = Include)) && string_in "*" allowed_methods.

Definition validate_preflight_response r (hs : HeaderList) : result FetchError () :=
  _ ← validate_allow_origin r hs;
  _ ← ensure (string_in (method r) simple_methods || method_allowed r hs)
        (cors_error ("CORS preflight did not allow method " +:+ method r));
  let allowed_headers := token_list hs "access-control-allow-headers" in
  let wildcard := string_in "*" allowed_headers && negb (bool_decide (credentials r = Include)) in
  try_for_each (fun h =>
    ensure (wildcard || existsb (fun allowed => eq_ignore_ascii_case allowed (header_name h)) allowed_headers)
      (cors_error ("CORS preflight did not allow header " +:+ header_name h)))
    (unsafe_headers r).

(** The set the source collects is only asked for membership. *)
Definition exposed_header_names (hs : HeaderList) (c : CredentialsMode) : list string :=
  let names := token_list hs "access-control-expose-headers" in
  if bool_decide (c = Include) then filter (fun n => negb (String.eqb n "*")) names else names.

Definition cors_filtered_headers (hs : HeaderList) r : HeaderList :=
  let cors := needs_cors_check r && bool_decide (mode r = CorsMode) in
  let exposed := if cors then exposed_header_names hs (credentials r) else [] in
  filter (fun h =>
    negb (is_forbidden_response_header (header_name h))
    && (negb cors
        || string_in "*" exposed
        || is_cors_safelisted_response_header (header_name h)
        || string_in (header_name h) exposed)) hs.

(** * Theory *)

(** ** What the server has to say *)
Definition shares_with r (hs : HeaderList) : Prop :=
  exists o allowed, req_origin r = Some o /\
    header_values hs "access-control-allow-origin" = [allowed] /\
    if decide (credentials r = Include)
    then allowed = Origin_serialize o /\ header_values hs "access-control-allow-credentials" = ["true"]
    else allowed = "*" \/ allowed = Origin_serialize o.

Lemma validate_allow_origin_ok r (hs : HeaderList) : validate_allow_origin r hs = Ok tt <-> shares_with r hs.
Proof.
  unfold validate_allow_origin, shares_with. destruct (req_origin r) as [o|]; [|naive_solver].
  destruct (header_values hs "access-control-allow-origin") as [|allowed [|]]; [naive_solver| |naive_solver].
  destruct (String.eqb_spec allowed "*"), (String.eqb_spec allowed (Origin_serialize o)),
    (decide (credentials r = Include)) as [Hc|Hc]; rewrite ?Hc; repeat case_bool_decide; simpl; naive_solver.
Qed.

(** [header] may be read by script from a response to [r]. *)
Definition readable r (hs : HeaderList) (h : Header) : Prop :=
  is_forbidden_response_header (header_name h) = false /\
  (needs_cors_check r = true -> mode r = CorsMode ->
     is_cors_safelisted_response_header (header_name h) = true \/
     header_name h <> "*" /\ header_name h ∈ token_list hs "access-control-expose-headers" \/
     credentials r <> Include /\ "*" ∈ token_list hs "access-control-expose-headers").

Lemma exposed_spec (hs : HeaderList) (c : CredentialsMode) (n : string) :
  string_in n (exposed_header_names hs c) = true <->
  n ∈ token_list hs "access-control-expose-headers" /\ (n = "*" -> c <> Include).
Proof.
  rewrite string_in_spec. unfold exposed_header_names. case_bool_decide; [|naive_solver].
  rewrite list_elem_of_filter. destruct (String.eqb_spec n "*"); simpl; naive_solver.
Qed.

(** What script reads of a response is exactly what it may: never a
    [Set-Cookie] header, and of a cross-origin response to a CORS request only
    the safelisted headers and those the server exposes; the wildcard exposes
    the rest only when the request carried no credentials. *)
Theorem cors_filter_exposes_exactly r (hs : HeaderList) (h : Header) :
  h ∈ cors_filtered_headers hs r <-> h ∈ hs /\ readable r hs h.
Proof.
  unfold cors_filtered_headers, readable. rewrite list_elem_of_filter.
  rewrite Is_true_true, andb_true_iff, negb_true_iff, !orb_true_iff, negb_true_iff.
  destruct (needs_cors_check r); simpl; [|naive_solver].
  case_bool_decide; [|naive_solver]. rewrite !exposed_spec.
  destruct (decide (header_name h = "*")) as [->|]; naive_solver.
Qed.

(** [name] is allowed by the list of tokens [allowed], up to ASCII case. *)
Definition allows_token (allowed : list string) (name : string) : Prop :=
  Exists (fun t => to_ascii_lowercase t = to_ascii_lowercase name) allowed.

Lemma allows_token_spec (allowed : list string) (name : string) :
  existsb (fun t => eq_ignore_ascii_case t name) allowed = true <-> allows_token allowed name.
Proof.
  unfold allows_token. rewrite existsb_exists, Exists_exists. setoid_rewrite list_elem_of_In.
  unfold eq_ignore_ascii_case. by setoid_rewrite String.eqb_eq.
Qed.

(** The wildcard stands for every token when no credentials are sent. *)
Definition wildcard_for r (allowed : list string) : Prop := credentials r <> Include /\ "*" ∈ allowed.

Lemma wildcard_spec r (allowed : list string) :
  negb (bool_decide (credentials r = Include)) && string_in "*" allowed = true <-> wildcard_for r allowed.
Proof. rewrite andb_true_iff, negb_true_iff, bool_decide_eq_false, string_in_spec. done. Qed.

Definition preflight_grants r (hs : HeaderList) : Prop :=
  let methods := token_list hs "access-control-allow-methods" in
  let names := token_list hs "access-control-allow-headers" in
  shares_with r hs /\
  (method r ∈ simple_methods \/ allows_token methods (method r) \/ wildcard_for r methods) /\
  forall h, h ∈ headers r -> is_cors_safelisted_request_header h = false ->
    allows_token names (header_name h) \/ wildcard_for r names.

(** The preflight check decides [preflight_grants]: the origin is named as for
    the response itself, and the method and every unsafe header are granted.
    This is the grant of the code; the two lemmas below show where the Fetch
    standard grants less. *)
Lemma validate_preflight_ok r (hs : HeaderList) :
  validate_preflight_response r hs = Ok tt <-> preflight_grants r hs.
Proof.
  unfold validate_preflight_response, preflight_grants. rewrite <- validate_allow_origin_ok.
  destruct (validate_allow_origin r hs) as [[]|e]; simpl; [|naive_solver].
  rewrite bind_ensure_Ok, try_for_each_ensure, orb_true_iff, string_in_spec.
  unfold method_allowed. rewrite orb_true_iff, allows_token_spec, wildcard_spec.
  rewrite Forall_forall. setoid_rewrite orb_true_iff. setoid_rewrite allows_token_spec.
  rewrite (andb_comm (string_in "*" _)). setoid_rewrite wildcard_spec.
  unfold unsafe_headers. setoid_rewrite list_elem_of_filter. setoid_rewrite Is_true_true.
  setoid_rewrite negb_true_iff. naive_solver.
Qed.

(** The wildcard stands for every header of a request without credentials,
    [Authorization] included; the Fetch standard asks for that name itself. *)
Lemma wildcard_grants_authorization r (hs : HeaderList) :
  credentials r <> Include -> method r ∈ simple_methods -> shares_with r hs ->
  "*" ∈ token_list hs "access-control-allow-headers" -> validate_preflight_response r hs = Ok tt.
Proof.
  intros Hc Hm Hs Hw. apply validate_preflight_ok. split; [done|]. split; [by left|].
  intros h _ _. by right.
Qed.

(** A method is granted by its name in any case; the Fetch standard compares
    methods byte by byte. *)
Lemma preflight_method_ignores_case r (hs : HeaderList) (granted : string) :
  granted ∈ token_list hs "access-control-allow-methods" ->
  to_ascii_lowercase granted = to_ascii_lowercase (method r) -> method_allowed r hs = true.
Proof.
  intros Hin E. unfold method_allowed. rewrite orb_true_iff, allows_token_spec. left.
  apply Exists_exists. eauto.
Qed.

(** Whoever reaches the check has an origin: the source's [expect] never fails. *)
Lemma cross_origin_has_origin r : needs_cors_check r = true -> is_Some (req_origin r).
Proof. unfold needs_cors_check. by destruct (req_origin r). Qed.
End cors.
