(* ===== verification/Cookies.v ===== *)
(** * Cookies: parsing, scope and the cookie jar

    src/winhttp/cookies.rs, cookies/parse.rs, cookies/date.rs, cookies/store.rs
    and src/winhttp/site.rs. The public suffix list (the [psl2] crate) and the
    calendar (the [time] crate) are interfaces. Every reading of the system
    clock is an argument, so that two readings in one operation may differ.
    [persist], which saves the jar after a change, is in CookieJar.v. *)

From S2P Require Import Prelude Text StrOps Limits Clock Origins Net Headers CspSources Csp FetchRequest.
From Stdlib Require Import ZArith.

(** [psl2::lookup]: whether the domain is a known public suffix, and its
    registrable domain. *)
Class PublicSuffixes := {
  public_suffix : string -> bool;
  registrable_domain : string -> option string
}.

Inductive SameSite := SameSiteDefault | Strict | Lax | SameSiteNone.
#[global] Instance SameSite_eq_dec : EqDecision SameSite.
Proof. solve_decision. Defined.

Record StoredCookie := mkCookie {
  cookie_name : string;
  cookie_value : string;
  cookie_domain : string;
  cookie_path : string;
  secure : bool;
  host_only : bool;
  http_only : bool;
  same_site : SameSite;
  expires_at : option SystemTime;
  creation : N
}.
#[global] Instance StoredCookie_eq_dec : EqDecision StoredCookie.
Proof. solve_decision. Defined.

Definition is_expired (c : StoredCookie) (now : SystemTime) : bool :=
  from_option (fun expires => expires <=? now)%Z false (expires_at c).

(** ** Matching *)
Definition domain_matches (host domain : string) : bool :=
  String.eqb host domain
  || negb (parses_to_ip host)
     && (byte_length domain <? byte_length host)%N
     && StrOps.ends_with domain host
     && bool_decide (bytes host !! (String.length host - String.length domain - 1) = Some 46%N).

Definition path_matches (request_path path : string) : bool :=
  String.eqb request_path path
  || starts_with path request_path
     && (StrOps.ends_with "/" path
         || bool_decide (bytes request_path !! String.length path = Some 47%N)).

Definition is_secure_url (u : ParsedUrl) : bool :=
  String.eqb (scheme u) "https"
  || String.eqb (scheme u) "http" && string_in (host u) ["localhost"; "127.0.0.1"; "::1"].

(** ** src/winhttp/cookies/date.rs *)
Definition is_date_delimiter (c : N) : bool :=
  ((c =? 0x09) || (0x20 <=? c) && (c <=? 0x2f) || (0x3b <=? c) && (c <=? 0x40)
   || (0x5b <=? c) && (c <=? 0x60) || (0x7b <=? c) && (c <=? 0x7e))%N.

(** [input.split(is_date_delimiter)] without the empty pieces. *)
Fixpoint date_tokens (l current : list N) : list (list N) :=
  let emit rest := match current with [] => rest | _ => rev current :: rest end in
  match l with
  | [] => emit []
  | b :: l => if is_date_delimiter b then emit (date_tokens l []) else date_tokens l (b :: current)
  end.

Definition all_digits (s : string) : bool := forallb is_ascii_digit (bytes s).

Definition parse_one_or_two_digits (value : string) : option N :=
  if negb (String.eqb value EmptyString) && (byte_length value <=? 2)%N && all_digits value
  then parse_unsigned 255 value else None.

Definition parse_time (token : string) : option (N * N * N) :=
  match split_on ":" token with
  | [hour; minute; second] =>
      hour ← parse_one_or_two_digits hour;
      minute ← parse_one_or_two_digits minute;
      second ← parse_one_or_two_digits second;
      Some (hour, minute, second)
  | _ => None
  end.

Definition months : list (string * N) :=
  [("jan", 1); ("feb", 2); ("mar", 3); ("apr", 4); ("may", 5); ("jun", 6); ("jul", 7); ("aug", 8);
   ("sep", 9); ("oct", 10); ("nov", 11); ("dec", 12)]%N.

Definition parse_month (token : string) : option N :=
  snd <$> find (fun m => starts_ignoring_case token m.1) months.

Record DateFields := mkDateFields {
  date_time : option (N * N * N);
  date_day : option N;
  date_month : option N;
  date_year : option N
}.

(** One turn of the loop over the tokens: the first reading that applies. *)
Definition date_token (f : DateFields) (token : string) : DateFields :=
  let '(mkDateFields time day month year) := f in
  match time, parse_time token with
  | None, Some t => mkDateFields (Some t) day month year
  | _, _ =>
      match day, (if byte_length token <=? 2 then parse_unsigned 255 token else None)%N with
      | None, Some d => mkDateFields time (Some d) month year
      | _, _ =>
          match month, parse_month token with
          | None, Some m => mkDateFields time day (Some m) year
          | _, _ =>
              if bool_decide (year = None) && ((2 <=? byte_length token) && (byte_length token <=? 4))%N
                 && all_digits token
              then mkDateFields time day month (parse_unsigned 2147483647 token)
              else f
          end
      end
  end.

Definition full_year (year : N) : N :=
  if ((70 <=? year) && (year <=? 99))%N then (year + 1900)%N
  else if (year <=? 69)%N then (year + 2000)%N
  else year.

Section cookies.
Context {URL : UrlLib} {SUFFIXES : PublicSuffixes} {CALENDAR : Calendar}.

Definition parse_cookie_date (input : string) : option SystemTime :=
  let f := foldl date_token (mkDateFields None None None None) (of_bytes <$> date_tokens (bytes input) []) in
  year ← date_year f;
  let year := full_year year in
  if (year <? 1601)%N then None
  else
    '(hour, minute, second) ← date_time f;
    if ((23 <? hour) || (59 <? minute) || (59 <? second))%N then None
    else
      month ← date_month f;
      day ← date_day f;
      timestamp ← calendar_timestamp (Z.of_N year) month day hour minute second;
      from_unix_timestamp timestamp.

(** ** src/winhttp/cookies/parse.rs *)
Definition MAX_COOKIE_PAIR_BYTES : N := 4096.
Definition MAX_ATTRIBUTE_VALUE_BYTES : N := 1024.
Definition MAX_PERSISTENT_AGE : Duration := from_secs (400 * 24 * 60 * 60).

Inductive MaxAge := Expired | Seconds (n : N).

Definition trim_whitespace (s : string) : string := trim_matches is_space_tab s.
Definition is_excluded_control (b : N) : bool :=
  ((b <=? 0x08) || (0x0a <=? b) && (b <=? 0x1f) || (b =? 0x7f))%N.

Definition parse_max_age (value : string) : option MaxAge :=
  match strip_prefix "-" value with
  | Some digits =>
      if negb (String.eqb digits EmptyString) && all_digits digits then Some Expired else None
  | None =>
      if String.eqb value EmptyString || negb (all_digits value) then None
      else Some (Seconds (default u64_max (parse_unsigned u64_max value)))
  end.

Definition clamp_expiry (expiry now : SystemTime) : SystemTime :=
  Z.min expiry (default now (time_checked_add now MAX_PERSISTENT_AGE)).

Definition default_cookie_path (path_and_query : string) : string :=
  let path := first_piece "?" path_and_query in
  if negb (starts_with "/" path) || String.eqb path "/" then "/"
  else match rsplit_once "/" path with
       | Some (EmptyString, _) | None => "/"
       | Some (directory, _) => directory
       end.

(** The attributes gathered by the loop of [parse_cookie_internal]. *)
Record Attributes := mkAttributes {
  at_domain : option string;
  at_path : option string;
  at_secure : bool;
  at_http_only : bool;
  at_same_site : SameSite;
  at_max_age : option MaxAge;
  at_expires : option SystemTime
}.
Definition no_attributes : Attributes := mkAttributes None None false false SameSiteDefault None None.

Definition parse_same_site (value : string) : SameSite :=
  if eq_ignore_ascii_case value "strict" then Strict
  else if eq_ignore_ascii_case value "lax" then Lax
  else if eq_ignore_ascii_case value "none" then SameSiteNone
  else SameSiteDefault.

(** One turn of the loop; [None] is its early [return None]. *)
Definition parse_attribute (default_path : string) (now : SystemTime) (a : Attributes) (attribute : string)
  : option Attributes :=
  let '(name, value) := default (attribute, EmptyString) (split_once "=" attribute) in
  let name := trim_whitespace name in
  let value := trim_whitespace value in
  let '(mkAttributes domain path sec http site age expires) := a in
  if (MAX_ATTRIBUTE_VALUE_BYTES <? byte_length value)%N then Some a
  else if eq_ignore_ascii_case name "domain" then
    if negb (forallb (fun b => (1 <=? b) && (b <=? 0x7f))%N (bytes value)) then None
    else Some (mkAttributes (Some (to_ascii_lowercase (default value (strip_prefix "." value))))
                 path sec http site age expires)
  else if eq_ignore_ascii_case name "path" then
    Some (mkAttributes domain (Some (if starts_with "/" value then value else default_path))
            sec http site age expires)
  else if eq_ignore_ascii_case name "secure" then Some (mkAttributes domain path true http site age expires)
  else if eq_ignore_ascii_case name "httponly" then Some (mkAttributes domain path sec true site age expires)
  else if eq_ignore_ascii_case name "max-age" then
    Some (match parse_max_age value with
          | Some parsed => mkAttributes domain path sec http site (Some parsed) expires
          | None => a
          end)
  else if eq_ignore_ascii_case name "expires" then
    Some (match parse_cookie_date value with
          | Some parsed => mkAttributes domain path sec http site age (Some (clamp_expiry parsed now))
          | None => a
          end)
  else if eq_ignore_ascii_case name "samesite" then
    Some (mkAttributes domain path sec http (parse_same_site value) age expires)
  else Some a.

Fixpoint parse_attributes (default_path : string) (now : SystemTime) (a : Attributes) (l : list string)
  : option Attributes :=
  match l with
  | [] => Some a
  | attribute :: l => a ← parse_attribute default_path now a attribute; parse_attributes default_path now a l
  end.

Definition apply_domain_attribute (host : string) (domain_attribute : option string)
  : option (string * bool) :=
  match domain_attribute with
  | None => Some (host, true)
  | Some domain =>
      if public_suffix domain && negb (String.eqb domain host) then None
      else if public_suffix domain || String.eqb domain EmptyString then Some (host, true)
      else if domain_matches host domain then Some (domain, false)
      else None
  end.

Definition breaks_prefix_rules (name value : string) (sec host_only_ path_is_root : bool) : bool :=
  starts_ignoring_case name "__Secure-" && negb sec
  || starts_ignoring_case name "__Host-" && (negb sec || negb host_only_ || negb path_is_root)
  || String.eqb name EmptyString
     && (starts_ignoring_case value "__Secure-" || starts_ignoring_case value "__Host-").

Definition parse_cookie_internal (u : ParsedUrl) (assignment : string) (from_http : bool) (now : SystemTime)
  : option (StoredCookie * bool) :=
  if existsb is_excluded_control (bytes assignment) then None
  else
    let '(assigned, attributes) := default (assignment, EmptyString) (split_once ";" assignment) in
    let '(name, value) := default (EmptyString, assigned) (split_once "=" assigned) in
    let name := trim_whitespace name in
    let value := trim_whitespace value in
    if String.eqb name EmptyString && String.eqb value EmptyString
       || (MAX_COOKIE_PAIR_BYTES <? saturating_add (byte_length name) (byte_length value))%N
    then None
    else
      let host := to_ascii_lowercase (host u) in
      let default_path := default_cookie_path (path_and_query u) in
      a ← parse_attributes default_path now no_attributes (split_on ";" attributes);
      '(domain, host_only) ← apply_domain_attribute host (at_domain a);
      let path := default default_path (at_path a) in
      if at_secure a && negb (is_secure_url u)
         || at_http_only a && negb from_http
         || bool_decide (at_same_site a = SameSiteNone) && negb (at_secure a)
      then None
      else if breaks_prefix_rules name value (at_secure a) host_only
                (bool_decide (is_Some (at_path a)) && String.eqb path "/")
      then None
      else
        let expires := match at_max_age a with
                       | Some Expired => Some UNIX_EPOCH
                       | Some (Seconds n) =>
                           Some (default now (time_checked_add now (N.min (from_secs n) MAX_PERSISTENT_AGE)))
                       | None => at_expires a
                       end in
        let expired := from_option (fun e => e <=? now)%Z false expires in
        Some (mkCookie name value domain path (at_secure a) host_only (at_http_only a) (at_same_site a)
                expires 0, expired).

Definition parse_cookie (u : ParsedUrl) (assignment : string) (now : SystemTime)
  : option (StoredCookie * bool) :=
  parse_cookie_internal u assignment false now.

(** ** src/winhttp/site.rs and the policy of src/winhttp/cookies.rs *)
Definition site_host (host : string) : string := default host (registrable_domain host).
Definition same_site_urls (source target : ParsedUrl) : bool :=
  String.eqb (scheme source) (scheme target) && String.eqb (site_host (host source)) (site_host (host target)).

Definition cookie_matches (c : StoredCookie) (u : ParsedUrl) : bool :=
  if secure c && negb (is_secure_url u) then false
  else
    let h := to_ascii_lowercase (host u) in
    if host_only c && negb (String.eqb h (cookie_domain c))
       || negb (host_only c) && (public_suffix (cookie_domain c) || negb (domain_matches h (cookie_domain c)))
    then false
    else path_matches (first_piece "?" (path_and_query u)) (cookie_path c).

Definition request_is_same_site (r : FetchRequest) : bool :=
  match req_origin r with
  | None => true
  | Some origin =>
      match ParsedUrl_parse (Origin_serialize origin +:+ "/"), FetchUrl_parsed (req_url r) with
      | Ok source, Some target => same_site_urls source target
      | _, _ => false
      end
  end.

Definition same_site_allows_request (c : StoredCookie) (r : FetchRequest) : bool :=
  if bool_decide (same_site c = SameSiteNone) || bool_decide (req_origin r = None) then true
  else if request_is_same_site r then true
  else (bool_decide (same_site c = Lax) || bool_decide (same_site c = SameSiteDefault))
       && bool_decide (context r = Navigation)
       && string_in (method r) ["GET"; "HEAD"; "OPTIONS"].

Definition same_site_allows_setting (c : StoredCookie) (r : FetchRequest) : bool :=
  bool_decide (same_site c = SameSiteNone) || bool_decide (req_origin r = None)
  || request_is_same_site r || bool_decide (context r = Navigation).

(** [sort_by_key(|c| (Reverse(c.path.len()), c.creation))], a stable sort. *)
Definition header_before (c d : StoredCookie) : bool :=
  (byte_length (cookie_path d) <? byte_length (cookie_path c))%N
  || (byte_length (cookie_path c) =? byte_length (cookie_path d))%N && (creation c <=? creation d)%N.
Fixpoint insert_for_header (c : StoredCookie) (l : list StoredCookie) : list StoredCookie :=
  match l with
  | [] => [c]
  | d :: l' => if header_before c d then c :: l else d :: insert_for_header c l'
  end.
Definition sort_for_header (l : list StoredCookie) : list StoredCookie := foldr insert_for_header [] l.

Definition cookie_pair (c : StoredCookie) : string :=
  if String.eqb (cookie_name c) EmptyString then cookie_value c
  else cookie_name c +:+ "=" +:+ cookie_value c.

(** The loop of [cookie_pairs], from the header built so far. *)
Fixpoint push_pairs (header : string) (l : list StoredCookie) : string :=
  match l with
  | [] => header
  | c :: l =>
      let pair_text := cookie_pair c in
      let separator := if String.eqb header EmptyString then 0%N else 2%N in
      if (MAX_COOKIE_HEADER_BYTES
          <? saturating_add (saturating_add (byte_length header) separator) (byte_length pair_text))%N
      then header
      else push_pairs ((if (separator =? 0)%N then header else header +:+ "; ") +:+ pair_text) l
  end.
Definition cookie_pairs (l : list StoredCookie) : string := push_pairs EmptyString l.

(** [min_by_key]: the first of the least. *)
Fixpoint min_creation (l : list StoredCookie) : option StoredCookie :=
  match l with
  | [] => None
  | c :: l => match min_creation l with
              | Some d => if (creation c <=? creation d)%N then Some c else Some d
              | None => Some c
              end
  end.
Fixpoint remove_first (p : StoredCookie -> bool) (l : list StoredCookie) : list StoredCookie :=
  match l with [] => [] | c :: l => if p c then l else c :: remove_first p l end.

Definition remove_oldest (p : StoredCookie -> bool) (l : list StoredCookie) : list StoredCookie :=
  match min_creation (filter (fun c => p c) l) with
  | Some oldest => remove_first (fun c => p c && (creation c =? creation oldest)%N) l
  | None => l
  end.

Definition in_domain (domain : string) (c : StoredCookie) : bool := String.eqb (cookie_domain c) domain.
Definition domain_count (domain : string) (l : list StoredCookie) : N :=
  N.of_nat (length (filter (fun c => in_domain domain c) l)).
Definition evict_for_domain_limit (l : list StoredCookie) (domain : string) : list StoredCookie :=
  if (MAX_COOKIES_PER_DOMAIN <=? domain_count domain l)%N then remove_oldest (in_domain domain) l else l.

(** ** src/winhttp/cookies/store.rs: the state and its operations *)
Record CookieState := mkCookieState {
  cookies : list StoredCookie;
  next_creation : N;
  jar_version : N
}.
Definition CookieState_default : CookieState := mkCookieState [] 1 1.

Definition allocate_creation (st : CookieState) : N * CookieState :=
  (next_creation st,
   mkCookieState (cookies st) (default 1%N (checked_add (next_creation st) 1)) (jar_version st)).
Definition advance_version (st : CookieState) : CookieState :=
  mkCookieState (cookies st) (next_creation st) (default 1%N (checked_add (jar_version st) 1)).
Definition with_cookies (st : CookieState) (l : list StoredCookie) : CookieState :=
  mkCookieState l (next_creation st) (jar_version st).

(** Returns whether something was removed. *)
Definition purge_expired (st : CookieState) (now : SystemTime) : CookieState * bool :=
  let kept := filter (fun c => negb (is_expired c now)) (cookies st) in
  let changed := negb (Nat.eqb (length kept) (length (cookies st))) in
  let st := with_cookies st kept in
  (if changed then advance_version st else st, changed).

Definition same_cookie (c stored : StoredCookie) : bool :=
  String.eqb (cookie_name stored) (cookie_name c) && String.eqb (cookie_domain stored) (cookie_domain c)
  && String.eqb (cookie_path stored) (cookie_path c) && Bool.eqb (host_only stored) (host_only c).

Definition with_creation (c : StoredCookie) (n : N) : StoredCookie :=
  mkCookie (cookie_name c) (cookie_value c) (cookie_domain c) (cookie_path c) (secure c) (host_only c)
    (http_only c) (same_site c) (expires_at c) n.

Definition overlays (c stored : StoredCookie) : bool :=
  secure stored && String.eqb (cookie_name stored) (cookie_name c)
  && (domain_matches (cookie_domain stored) (cookie_domain c)
      || domain_matches (cookie_domain c) (cookie_domain stored))
  && path_matches (cookie_path c) (cookie_path stored).

Definition rejects (l : list StoredCookie) (c : StoredCookie) (from_http source_secure : bool) : bool :=
  negb from_http && existsb (fun stored => same_cookie c stored && http_only stored) l
  || negb (secure c) && negb source_secure && existsb (overlays c) l.

Definition make_room (l : list StoredCookie) (domain : string) : list StoredCookie :=
  let l := evict_for_domain_limit l domain in
  if (MAX_COOKIES <=? N.of_nat (length l))%N then remove_oldest (fun _ => true) l else l.

(** [store_cookie] up to [persist]; whether the jar changed. *)
Definition store_cookie (st : CookieState) (now : SystemTime) (c : StoredCookie)
    (expired from_http source_secure : bool) : CookieState * bool :=
  let '(st, changed) := purge_expired st now in
  if rejects (cookies st) c from_http source_secure then (st, changed)
  else
    let existing := find (same_cookie c) (cookies st) in
    let '(n, st) := match existing with
                    | Some stored => (creation stored, st)
                    | None => allocate_creation st
                    end in
    let kept := filter (fun stored => negb (same_cookie c stored)) (cookies st) in
    let '(l, changed) :=
      if expired then (kept, changed || bool_decide (is_Some existing))
      else (make_room kept (cookie_domain c) ++ [with_creation c n], true) in
    let st := with_cookies st l in
    (if changed then advance_version st else st, changed).

(** What [set_document_cookie] and [store_response_cookie] do before they take
    the lock: the cookie to store, whether it is expired, and the URL it comes
    from; [None] when they return early. [now] is the parser's reading of the
    clock. *)
Definition document_cookie (now : SystemTime) (u : ParsedUrl) (assignment : string)
  : option (StoredCookie * bool * ParsedUrl) :=
  '(c, expired) ← parse_cookie u assignment now; Some (c, expired, u).

Definition response_cookie (now : SystemTime) (r : FetchRequest) (set_cookie : string)
  : option (StoredCookie * bool * ParsedUrl) :=
  u ← FetchUrl_parsed (req_url r);
  '(c, expired) ← parse_cookie_internal u set_cookie true now;
  if negb (same_site_allows_setting c r) then None else Some (c, expired, u).

(** [set_document_cookie] and [store_response_cookie], with the lock held;
    [later] is the store's reading of the clock. *)
Definition set_document_cookie (st : CookieState) (now later : SystemTime) (document_url assignment : string)
  : CookieState * result string bool :=
  match ParsedUrl_parse document_url with
  | Err e => (st, Err e)
  | Ok u =>
      match document_cookie now u assignment with
      | None => (st, Ok false)
      | Some (c, expired, u) =>
          let '(st, changed) := store_cookie st later c expired false (is_secure_url u) in (st, Ok changed)
      end
  end.

Definition store_response_cookie (st : CookieState) (now later : SystemTime) (r : FetchRequest)
    (set_cookie : string) : CookieState * result string bool :=
  match response_cookie now r set_cookie with
  | None => (st, Ok false)
  | Some (c, expired, u) =>
      let '(st, changed) := store_cookie st later c expired true (is_secure_url u) in (st, Ok changed)
  end.

Definition sent_cookies (st : CookieState) (r : FetchRequest) (u : ParsedUrl) : list StoredCookie :=
  sort_for_header
    (filter (fun c => cookie_matches c u && same_site_allows_request c r) (cookies st)).

(** [request_header]: the header, and whether [persist] runs. *)
Definition request_header (st : CookieState) (now : SystemTime) (r : FetchRequest)
  : CookieState * (option string * bool) :=
  match FetchUrl_parsed (req_url r) with
  | None => (st, (None, false))
  | Some u =>
      let '(st, changed) := purge_expired st now in
      let header := cookie_pairs (sent_cookies st r u) in
      (st, (if String.eqb header EmptyString then None else Some header, changed))
  end.

Record CookieSnapshot := mkCookieSnapshot { snapshot_version : N; snapshot_header : string }.

Definition script_cookies (st : CookieState) (u : ParsedUrl) : list StoredCookie :=
  sort_for_header (filter (fun c => negb (http_only c) && cookie_matches c u) (cookies st)).

Definition document_snapshot (st : CookieState) (now : SystemTime) (document_url : string)
  : CookieState * result string (CookieSnapshot * bool) :=
  match ParsedUrl_parse document_url with
  | Err e => (st, Err e)
  | Ok u =>
      let '(st, changed) := purge_expired st now in
      (st, Ok (mkCookieSnapshot (jar_version st) (cookie_pairs (script_cookies st u)), changed))
  end.
End cookies.
