(* ===== verification/SimpleInstances.v ===== *)
(** * SimpleInstances: a small URL library, suffix list and calendar

    Concrete instances of the interfaces of the [url], [psl2] and [time] crates,
    enough to run the components on inputs: scheme://host[:port]/path[?query][#fragment],
    without normalisation; the proleptic Gregorian calendar without RFC 2822 dates.
    Witnesses use them; no theorem depends on them. *)

From S2P Require Import Prelude Text StrOps Clock Origins Net CspSources Csp FetchRequest Cookies.
From Stdlib Require Import ZArith.

(** ** URLs *)
Record SimpleUrl := mkSimpleUrl {
  su_scheme : string;
  su_host : string;
  su_port : option N;
  su_path : string;
  su_query : option string;
  su_fragment : option string
}.

Definition default_port (scheme : string) : option N :=
  if string_in scheme ["https"; "wss"] then Some 443%N
  else if string_in scheme ["http"; "ws"] then Some 80%N else None.

Definition cut (sep : ascii) (s : string) : string * option string :=
  match split_once sep s with Some (l, r) => (l, Some r) | None => (s, None) end.

Definition simple_parse (s : string) : result string SimpleUrl :=
  let '(s, fragment) := cut "#" s in
  let '(s, query) := cut "?" s in
  match split_authority s with
  | Some (scheme, rest) =>
      let '(authority, path) := split_path rest in
      let '(host, port) := cut ":" authority in
      if String.eqb host EmptyString then Err "empty host"
      else
        let port := port ≫= parse_unsigned 65535 in
        let port := if bool_decide (port = default_port scheme) then None else port in
        Ok (mkSimpleUrl scheme host port (if String.eqb path EmptyString then "/" else path) query fragment)
  | None =>
      match split_once ":" s with
      | Some ("data", path) => Ok (mkSimpleUrl "data" EmptyString None path query fragment)
      | _ => Err "relative URL without a base"
      end
  end.

Definition simple_origin (u : SimpleUrl) : string :=
  if String.eqb (su_scheme u) "data" then "null"
  else su_scheme u +:+ "://" +:+ su_host u
       +:+ match su_port u with Some p => ":" +:+ pretty p | None => EmptyString end.

Definition simple_string (u : SimpleUrl) : string :=
  (if String.eqb (su_scheme u) "data" then "data:" else simple_origin u)
  +:+ su_path u
  +:+ match su_query u with Some q => "?" +:+ q | None => EmptyString end
  +:+ match su_fragment u with Some f => "#" +:+ f | None => EmptyString end.

#[global] Instance simple_urls : UrlLib := {|
  Url := SimpleUrl;
  Url_parse := simple_parse;
  url_scheme := su_scheme;
  url_username _ := EmptyString;
  url_password _ := None;
  url_host u := if String.eqb (su_host u) EmptyString then None else Some (su_host u);
  url_port_or_known_default u := match su_port u with Some p => Some p | None => default_port (su_scheme u) end;
  url_path := su_path;
  url_query := su_query;
  url_set_fragment_none u :=
    mkSimpleUrl (su_scheme u) (su_host u) (su_port u) (su_path u) (su_query u) None;
  url_set_query_none u :=
    mkSimpleUrl (su_scheme u) (su_host u) (su_port u) (su_path u) None (su_fragment u);
  url_to_string := simple_string;
  url_ascii_origin := simple_origin
|}.

#[global] Instance simple_url_parts : UrlParts := {|
  url_host_str u := if String.eqb (su_host u) EmptyString then None else Some (su_host u);
  url_port := su_port;
  same_origin u v := negb (String.eqb (simple_origin u) "null") && String.eqb (simple_origin u) (simple_origin v)
|}.

(** Digests that only tell the lengths apart. *)
#[global] Instance demo_digests : Digests := {|
  sha256 l := replicate 32 (N.of_nat (length l) mod 256)%N;
  sha384 l := replicate 48 (N.of_nat (length l) mod 256)%N;
  sha512 l := replicate 64 (N.of_nat (length l) mod 256)%N;
  standard_encode l := of_bytes ((fun b => 65 + b mod 26)%N <$> l)
|}.

Example simple_urls_parse :
  (ParsedUrl_canonical <$> ParsedUrl_parse "https://a.test:8443/x?q#f") = Ok "https://a.test:8443/x?q" /\
  (ParsedUrl_canonical <$> ParsedUrl_parse "http://a.test:80") = Ok "http://a.test/" /\
  is_ok (FetchUrl_parse 1 "data:text/plain,hello") = true.
Proof. split_and!; vm_compute; reflexivity. Qed.

(** ** Suffixes and dates *)
Definition demo_suffix (d : string) : bool := string_in d ["test"; "com"; "uk"; "co.uk"].

(** The last labels of a host, down to one label in front of a suffix. *)
Fixpoint demo_registrable (fuel : nat) (host : string) : option string :=
  match fuel with
  | O => None
  | S fuel =>
      match split_once "." host with
      | Some (_, rest) => if demo_suffix rest then Some host else demo_registrable fuel rest
      | None => None
      end
  end.

#[global] Instance demo_suffixes : PublicSuffixes := {|
  public_suffix := demo_suffix;
  registrable_domain := demo_registrable 8
|}.

Definition leap_year (y : Z) : bool :=
  ((y mod 4 =? 0) && negb (y mod 100 =? 0) || (y mod 400 =? 0))%Z.
Definition month_length (y : Z) (m : N) : N :=
  if (m =? 2)%N then (if leap_year y then 29 else 28)%N
  else if existsb (N.eqb m) [4; 6; 9; 11]%N then 30%N else 31%N.

(** Days from 1970-01-01, counting years from March. *)
Definition days_from_civil (y : Z) (m d : N) : Z :=
  let y := (if (m <=? 2)%N then y - 1 else y)%Z in
  let era := (y / 400)%Z in
  let yoe := (y - era * 400)%Z in
  let mp := (if (m <=? 2)%N then Z.of_N m + 9 else Z.of_N m - 3)%Z in
  let doy := ((153 * mp + 2) / 5 + Z.of_N d - 1)%Z in
  let doe := (yoe * 365 + yoe / 4 - yoe / 100 + doy)%Z in
  (era * 146097 + doe - 719468)%Z.

#[global] Instance demo_calendar : Calendar := {|
  calendar_timestamp y m d hour minute second :=
    if ((1 <=? m) && (m <=? 12) && (1 <=? d) && (d <=? month_length y m)
        && (hour <=? 23) && (minute <=? 59) && (second <=? 59))%N
    then Some (days_from_civil y m d * 86400 + Z.of_N (hour * 3600 + minute * 60 + second))%Z
    else None;
  parse_rfc2822 _ := None
|}.

(** The dates of the unit tests of cookies/date.rs. *)
Example cookie_dates :
  parse_cookie_date "Wed, 21 Oct 2015 07:28:00 GMT" = Some (1445412480 * 1000000000)%Z /\
  is_Some (parse_cookie_date "Wed Oct 21 07:28:00 15") /\
  parse_cookie_date "32 Oct 2015 07:28:00 GMT" = None /\
  parse_cookie_date "21 Oct 1500 07:28:00 GMT" = None.
Proof. split_and!; try (vm_compute; reflexivity). by eexists; vm_compute. Qed.

Definition demo_parse (url assignment : string) (from_http : bool) : option StoredCookie :=
  match ParsedUrl_parse url with
  | Ok u => fst <$> parse_cookie_internal u assignment from_http 0
  | Err _ => None
  end.

(** The cases of the unit tests of cookies/parse.rs and cookies/tests.rs. *)
Example cookie_assignments :
  (cookie_value <$> demo_parse "https://www.example.com/docs/page" "  legacy value  ; Path=/" false) = Some "legacy value" /\
  demo_parse "https://www.example.com/" "= " false = None /\
  demo_parse "https://www.example.co.uk/docs/page" "bad=value; Domain=co.uk" false = None /\
  ((fun c => (cookie_domain c, host_only c, cookie_path c))
     <$> demo_parse "https://www.example.co.uk/docs/page" "good=value; Domain=.example.co.uk" false)
  = Some ("example.co.uk", false, "/docs") /\
  demo_parse "https://www.example.co.uk/docs/page" "__hOsT-token=value; Secure" false = None /\
  is_Some (demo_parse "https://www.example.co.uk/docs/page" "__hOsT-token=value; Secure; Path=/" false) /\
  demo_parse "https://a.test/" "id=1; HttpOnly" false = None.
Proof. split_and!; try vm_refl. by eexists; vm_compute. Qed.
