(* ===== verification/CspTheory.v ===== *)
(** * CspTheory: what a policy container promises

    Parsing keeps the first directive of a name and refuses what it cannot
    enforce; adding policies only restricts; the reported violations are exactly
    the refusals; and a host source admits no other host. *)

From S2P Require Import Prelude Text StrOps Origins Headers CspSources SimpleInstances Csp.

Section csp_theory.
Context {URL : UrlLib} {PARTS : UrlParts} {DIGESTS : Digests}.

(** ** Parsing *)

(** The name and the values of one piece between semicolons. *)
Definition directive_parts (piece : string) : option (string * list string) :=
  match split_ascii_whitespace piece with
  | [] => None
  | name :: values => Some (to_ascii_lowercase name, values)
  end.

(** The values of the first piece with that name. *)
Fixpoint first_directive (name : string) (pieces : list string) : option (list string) :=
  match pieces with
  | [] => None
  | piece :: pieces =>
      match directive_parts piece with
      | Some (n, values) => if String.eqb n name then Some values else first_directive name pieces
      | None => first_directive name pieces
      end
  end.

(** Names whose first directive has an effect. *)
Definition ignored_in_meta (name : string) : bool :=
  string_in name ["report-uri"; "frame-ancestors"; "sandbox"].
Definition effective (from_meta : bool) (name : string) : bool :=
  string_in name source_list_directives && negb (from_meta && ignored_in_meta name).

Definition kept_values (pieces : list string) (name : string) : option (list string) :=
  (fun values => filter (fun v => supported v) values) <$> first_directive name pieces.

Lemma parse_directive_other (from_meta : bool) ds mixed piece ds' mixed' (name : string) :
  (forall values, directive_parts piece <> Some (name, values)) ->
  parse_directive from_meta ds mixed piece = Ok (ds', mixed') -> ds' !! name = ds !! name.
Proof.
  unfold parse_directive, directive_parts. destruct (split_ascii_whitespace piece) as [|w values];
    [by intros _ [= <- _]|]. intros Hn.
  assert (to_ascii_lowercase w <> name) as Hne by (intros Heq; apply (Hn values); by rewrite Heq).
  repeat case_match; unfold unsupported; intros [=]; subst; try done; by rewrite lookup_insert_ne by done.
Qed.

Lemma parse_directive_effective (from_meta : bool) ds mixed piece ds' mixed' (name : string) :
  effective from_meta name = true -> parse_directive from_meta ds mixed piece = Ok (ds', mixed') ->
  ds' !! name = match ds !! name with
                | Some l => Some l
                | None => kept_values [piece] name
                end.
Proof.
  unfold effective, kept_values. simpl.
  intros [Hname Hmeta]%andb_true_iff Hp. pose proof Hp as Hp'. revert Hp.
  unfold parse_directive, directive_parts. destruct (split_ascii_whitespace piece) as [|w values] eqn:Hw.
  { intros [= <- _]. by destruct (ds !! name). }
  set (n := to_ascii_lowercase w). destruct (String.eqb_spec n name) as [Heq|Hne].
  - rewrite Heq. case_bool_decide as Hin; [intros [= <- _]; destruct Hin as [l ->]; done|].
    apply eq_None_not_Some in Hin. rewrite Hin.
    apply negb_true_iff in Hmeta. unfold ignored_in_meta in Hmeta. rewrite Hmeta.
    assert (String.eqb name "block-all-mixed-content" = false) as ->.
    { apply String.eqb_neq. intros ->. vm_compute in Hname. done. }
    assert (string_in name ["report-uri"; "report-to"] = false) as ->.
    { by apply (string_in_disjoint name source_list_directives). }
    rewrite Hname. simpl. intros [= <- _]. by rewrite lookup_insert_eq.
  - intros _. rewrite (parse_directive_other from_meta ds mixed piece ds' mixed' name); [by destruct (ds !! name)| |done]. unfold directive_parts.
    rewrite Hw. intros v [= Hn]. by apply Hne.
Qed.

Lemma parse_directives_effective (from_meta : bool) (pieces : list string) ds mixed ds' mixed' name :
  effective from_meta name = true -> parse_directives from_meta ds mixed pieces = Ok (ds', mixed') ->
  ds' !! name = match ds !! name with Some l => Some l | None => kept_values pieces name end.
Proof.
  intros He. revert ds mixed. induction pieces as [|piece pieces IH]; intros ds mixed; simpl.
  { intros [= <- _]. by destruct (ds !! name). }
  destruct (parse_directive from_meta ds mixed piece) as [[ds1 mixed1]|] eqn:Hp; [|done]. simpl.
  intros Hr. rewrite (IH _ _ Hr), (parse_directive_effective _ _ _ _ _ _ _ He Hp).
  destruct (ds !! name); [done|]. unfold kept_values. simpl.
  destruct (directive_parts piece) as [[n values]|]; [|done]. by destruct (String.eqb n name).
Qed.

(** A name that must be refused is never passed over while it would be effective. *)
Lemma parse_directives_refuses (from_meta : bool) (pieces : list string) ds mixed r (name : string) :
  string_in name refused_directives = true -> negb (from_meta && ignored_in_meta name) = true ->
  ds !! name = None -> parse_directives from_meta ds mixed pieces = Ok r ->
  first_directive name pieces = None.
Proof.
  intros Hname Hmeta. revert ds mixed. induction pieces as [|piece pieces IH]; intros ds mixed Hds; simpl; [done|].
  destruct (parse_directive from_meta ds mixed piece) as [[ds1 mixed1]|] eqn:Hp; [|done]. simpl. intros Hr.
  pose proof Hp as Hp'. unfold parse_directive in Hp. unfold directive_parts.
  destruct (split_ascii_whitespace piece) as [|w values] eqn:Hw.
  { injection Hp as <- <-. by eapply IH. }
  set (n := to_ascii_lowercase w) in *. destruct (String.eqb_spec n name) as [Heq|Hne].
  - exfalso. rewrite Heq in Hp. rewrite bool_decide_eq_false_2 in Hp by by rewrite Hds; intros [].
    apply negb_true_iff in Hmeta. unfold ignored_in_meta in Hmeta. rewrite Hmeta in Hp.
    apply string_in_spec in Hname. unfold refused_directives in Hname.
    repeat (apply elem_of_cons in Hname as [->|Hname]; [by vm_compute in Hp|]).
    by apply not_elem_of_nil in Hname.
  - eapply IH; [|exact Hr]. rewrite <- Hds. eapply parse_directive_other; [|exact Hp'].
    unfold directive_parts. rewrite Hw. intros v [= Hn]. by apply Hne.
Qed.

(** A parsed policy is the text's policy: for each directive that governs
    a source list, the list is that of the first directive of the name, any
    letter case, without the expressions that are not supported; later
    duplicates change nothing; and no text that asks for an enforcement the
    browser lacks is parsed at all. *)
Theorem parse_policy_first_wins (url serialized : string) (from_meta : bool) (p : Policy) :
  parse_policy url serialized from_meta = Ok p ->
  (forall name, effective from_meta name = true ->
     directives p !! name = kept_values (split_on ";" serialized) name) /\
  (forall name, string_in name refused_directives = true ->
     negb (from_meta && ignored_in_meta name) = true ->
     first_directive name (split_on ";" serialized) = None).
Proof.
  unfold parse_policy. destruct (Url_parse url) as [origin|]; [|done].
  destruct (parse_directives from_meta ∅ false (split_on ";" serialized)) as [[ds mixed]|] eqn:Hp; [|done].
  simpl. intros [= <-]. simpl. split.
  - intros name He. by rewrite (parse_directives_effective _ _ _ _ _ _ _ He Hp), lookup_empty.
  - intros name Hn Hm. by apply (parse_directives_refuses from_meta _ ∅ false (ds, mixed)).
Qed.

(** ** Adding policies *)

(** Everything a container is asked. *)
Inductive question :=
  | AskUrl (directive url : string) (redirects : N)
  | AskScript (directive url : string) (redirects : N) (script : ScriptSource)
  | AskHint (url : string)
  | AskRequest (d : RequestDestination) (url : string) (redirects : N) (script : option ScriptSource)
  | AskInline (nonce : option string) (source : string) (parser_inserted : bool)
  | AskAttribute (nonce : option string)
  | AskEval
  | AskStyle.

Definition answer (c : PolicyContainer) (q : question) : bool :=
  match q with
  | AskUrl directive url redirects => allows_url c directive url redirects
  | AskScript directive url redirects script => allows_script_url c directive url redirects script
  | AskHint url => allows_resource_hint c url
  | AskRequest d url redirects script => is_ok (check_request_with_script c d url redirects script)
  | AskInline nonce source parser_inserted => allows_inline_script c nonce source parser_inserted
  | AskAttribute nonce => allows_inline_with_nonce c true nonce
  | AskEval => allows_eval c
  | AskStyle => allows_style_inline c
  end.

Lemma check_request_answer c d url redirects script :
  is_ok (check_request_with_script c d url redirects script)
  = (if bool_decide (d = Script)
     then allows_script_url c "script-src-elem" url redirects (default ScriptSource_default script)
     else allows_url c (destination_directive d) url redirects).
Proof.
  unfold check_request_with_script. case_bool_decide; subst; simpl.
  - by destruct (allows_script_url _ _ _ _ _).
  - by destruct (allows_url _ _ _ _).
Qed.

Lemma allows_url_app c c' directive url redirects :
  allows_url (c ++ c') directive url redirects
  = allows_url c directive url redirects && allows_url c' directive url redirects.
Proof.
  unfold allows_url, allows_script_url.
  destruct (string_in _ _), (Url_parse url); try done; by rewrite forallb_app.
Qed.

Lemma allows_script_url_app c c' directive url redirects script :
  allows_script_url (c ++ c') directive url redirects script
  = allows_script_url c directive url redirects script && allows_script_url c' directive url redirects script.
Proof. unfold allows_script_url. destruct (Url_parse url); [by rewrite forallb_app|done]. Qed.

Lemma answer_app (c c' : PolicyContainer) (q : question) : answer (c ++ c') q = answer c q && answer c' q.
Proof.
  destruct q; simpl.
  - apply allows_url_app.
  - apply allows_script_url_app.
  - unfold allows_resource_hint. destruct (Url_parse url); [by rewrite forallb_app|done].
  - rewrite !check_request_answer. case_bool_decide; [apply allows_script_url_app|apply allows_url_app].
  - unfold allows_inline_script, allows_inline_source. by rewrite forallb_app.
  - unfold allows_inline_with_nonce, allows_inline_source. by rewrite forallb_app.
  - unfold allows_eval, allows_keyword. by rewrite forallb_app.
  - unfold allows_style_inline. by rewrite forallb_app.
Qed.

Lemma push_policies_ok (url : string) (l : list string) (c c' : PolicyContainer) :
  (N.of_nat (length c) <= MAX_POLICIES)%N -> push_policies url c l = Ok c' ->
  (N.of_nat (length c') <= MAX_POLICIES)%N /\
  exists added, c' = c ++ added /\ try_map (fun s => parse_policy url s false) l = Ok added.
Proof.
  revert c. induction l as [|s l IH]; intros c Hc; simpl.
  { intros [= <-]. split; [done|]. exists []. by rewrite app_nil_r. }
  destruct (N.leb_spec MAX_POLICIES (N.of_nat (length c))); [done|].
  destruct (parse_policy url s false) as [p|]; [|done]. simpl. intros Hp.
  destruct (IH (c ++ [p])) as [Hl (added & -> & Hm)]; [rewrite length_app; simpl; lia|done|].
  split; [done|]. exists (p :: added). by rewrite Hm, <- app_assoc.
Qed.

(** C24. Policies accumulate and only restrict. Delivery in headers and
    inheritance as text build the same container; neither it nor an extension by
    a meta element exceeds 32 policies; and a meta policy is added to those that
    were there, so whatever the extended container allows (a URL, a script, a
    hint, a request, an inline script or attribute, eval, an inline style) was
    allowed before, and is allowed by the added policy. *)
Theorem policies_only_restrict (c c' : PolicyContainer) (url serialized : string) (headers : HeaderList) :
  from_headers url headers = Ok c -> append_meta c url serialized = Ok c' ->
  from_serialized_policies url (header_values headers "content-security-policy" ≫= split_on ",") = Ok c /\
  (N.of_nat (length c') <= MAX_POLICIES)%N /\
  exists p, parse_policy url serialized true = Ok p /\ c' = c ++ [p] /\
    forall q, answer c' q = answer c q && answer [p] q.
Proof.
  unfold from_headers. intros Hc Hm. apply push_policies_ok in Hc as [Hb (added & -> & Hc)]; [|done].
  unfold append_meta in Hm. destruct (N.leb_spec MAX_POLICIES (N.of_nat (length ([] ++ added)))) as [|Hl]; [done|].
  inv_res. split.
  { unfold from_serialized_policies. pose proof (proj1 (try_map_Ok _ _ _) Hc) as Hlen%Forall2_length.
    rewrite Hlen. simpl in Hb. by rewrite (proj2 (N.ltb_ge _ _)). }
  split; [rewrite length_app; simpl in *; lia|]. eexists. split_and!; [done..|]. intros q. apply answer_app.
Qed.

(** ** Reports *)

(** Reporting and enforcement agree: a script URL, or an inline script, is
    admitted exactly when no violation is reported for it, and the reports are
    the original texts of exactly the policies that refuse it on their own, in
    order. *)
Theorem violations_are_refusals (c : PolicyContainer) (directive url : string) (redirects : N)
    (script : ScriptSource) (n source : option string) (inserted : bool) u :
  Url_parse url = Ok u ->
  script_url_violations c directive url redirects script
    = policy_serialized <$> filter (fun p => allows_script_url [p] directive url redirects script = false) c /\
  (script_url_violations c directive url redirects script = []
     <-> allows_script_url c directive url redirects script = true) /\
  original_policy <$> inline_script_violations_for_source c n source inserted
    = policy_serialized <$> filter (fun p => allows_inline_source [p] (ScriptElement inserted) n source = false) c /\
  (inline_script_violations_for_source c n source inserted = []
     <-> allows_inline_source c (ScriptElement inserted) n source = true).
Proof.
  intros Hu. unfold script_url_violations, allows_script_url. rewrite Hu.
  unfold inline_script_violations_for_source, allows_inline_source, PolicyContainer in *. simpl inline_directive.
  split_and!.
  - f_equal. apply list_filter_iff. intros p. simpl.
    destruct (policy_allows_script_url p directive u redirects script); simpl; naive_solver.
  - induction c as [|p c IH]; [done|]. rewrite filter_cons. simpl.
    by destruct (policy_allows_script_url p directive u redirects script).
  - induction c as [|p c IH]; [done|]. rewrite filter_cons. simpl.
    destruct (policy_list p "script-src-elem") as [l|] eqn:Hl; simpl;
      case_decide as Hd; unfold unless_listed in Hd; rewrite Hl, andb_true_r in Hd; simpl in Hd; try done.
    + rewrite Hd, !fmap_cons. simpl. by f_equal.
    + apply not_false_is_true in Hd. by rewrite Hd.
  - induction c as [|p c IH]; [done|]. simpl. unfold unless_listed at 1.
    destruct (policy_list p "script-src-elem") as [l|]; simpl; [|apply IH].
    by destruct (matches_inline l (ScriptElement inserted) n source).
Qed.

(** ** Host sources *)
Lemma length_map_string (f : ascii -> ascii) (s : string) : String.length (map_string f s) = String.length s.
Proof. induction s as [|a s IH]; simpl; [done|]. by rewrite IH. Qed.

Lemma length_string_app (s t : string) : String.length (s +:+ t) = String.length s + String.length t.
Proof. rewrite <- !length_bytes, bytes_app, length_app. done. Qed.

Lemma host_matches_spec (host actual : string) :
  host_matches host actual = true ->
  host = "*" \/
  (exists suffix label, host = "*." +:+ suffix /\ label <> EmptyString /\
     to_ascii_lowercase actual = label +:+ "." +:+ to_ascii_lowercase suffix) \/
  (strip_prefix "*." host = None /\ to_ascii_lowercase actual = to_ascii_lowercase host).
Proof.
  unfold host_matches. destruct (String.eqb_spec host "*") as [->|_]; [by left|].
  destruct (strip_prefix "*." host) as [suffix|] eqn:Hs.
  - intros [Hl%N.ltb_lt (label & Hlabel)%ends_with_spec]%andb_true_iff. right. left.
    exists suffix, label. apply strip_prefix_Some in Hs. split_and!; [done| |done].
    intros ->. apply (f_equal String.length) in Hlabel. unfold byte_length in Hl.
    unfold to_ascii_lowercase in Hlabel. rewrite !length_string_app, !length_map_string in Hlabel.
    simpl in Hlabel. lia.
  - unfold eq_ignore_ascii_case. intros ->%String.eqb_eq. by right; right.
Qed.

(** An expression that is neither a keyword, [*] nor a scheme. *)
Definition host_expression (source : string) : Prop :=
  eq_ignore_ascii_case source "'self'" = false /\ source <> "*" /\ starts_with "'" source = false /\
  strip_suffix ":" source = None.

(** A host source stays on its hosts: when one admits a URL, the URL's host
    is the expression's, in any letter case, or, for a wildcard, a proper
    subdomain of it (never the bare domain nor a host that merely ends in the
    same letters); the scheme is the same or a secure upgrade of it; and before
    any redirect the path has the expression's segments, percent-decoded one by
    one so that an escaped slash makes no boundary. *)
Theorem host_source_confines (source : string) (url origin : Url) (redirects : N) :
  host_expression source -> source_matches source url origin redirects = true ->
  exists parts actual, host_parts source (url_scheme origin) = Some parts /\
    url_host_str url = Some actual /\
    (hs_host parts = "*" \/
     (exists suffix label, hs_host parts = "*." +:+ suffix /\ label <> EmptyString /\
        to_ascii_lowercase actual = label +:+ "." +:+ to_ascii_lowercase suffix) \/
     (strip_prefix "*." (hs_host parts) = None /\
        to_ascii_lowercase actual = to_ascii_lowercase (hs_host parts))) /\
    (to_ascii_lowercase (hs_scheme parts) = to_ascii_lowercase (url_scheme url) \/
     (to_ascii_lowercase (hs_scheme parts) = "http" /\ url_scheme url = "https") \/
     (to_ascii_lowercase (hs_scheme parts) = "ws" /\ url_scheme url ∈ ["wss"; "http"; "https"])) /\
    (redirects = 0%N -> hs_path parts <> EmptyString ->
     let wanted := split_on "/" (hs_path parts) in
     let len := length wanted - (if ends_with "/" (hs_path parts) then 1 else 0) in
     decode_segment <$> take len wanted = decode_segment <$> take len (split_on "/" (url_path url)) /\
     (ends_with "/" (hs_path parts) = false -> length (split_on "/" (url_path url)) = len)).
Proof.
  intros (Hself & Hstar & Hquote & Hscheme). unfold source_matches.
  rewrite Hself, (proj2 (String.eqb_neq _ _) Hstar), Hquote, Hscheme.
  destruct (host_parts source (url_scheme origin)) as [parts|]; [|done].
  destruct (scheme_matches _ _) eqn:Hs; [|done]. simpl.
  destruct (url_host_str url) as [actual|]; [|done].
  intros [[Hh%host_matches_spec _]%andb_true_iff Hp]%andb_true_iff.
  exists parts, actual. split_and!; [done..| |].
  - unfold scheme_matches, eq_ignore_ascii_case in Hs. apply orb_true_iff in Hs as [Hs|Hs].
    + apply orb_true_iff in Hs as [Hs%String.eqb_eq|Hs]; [by left|].
      apply andb_true_iff in Hs as [?%String.eqb_eq ?%String.eqb_eq]. by right; left.
    + apply andb_true_iff in Hs as [?%String.eqb_eq ?%string_in_spec]. by right; right.
  - intros -> Hne. unfold path_matches in Hp. rewrite (proj2 (String.eqb_neq _ _) Hne) in Hp. simpl in Hp.
    destruct (_ || _) eqn:Hlen; [done|]. apply orb_false_iff in Hlen as [Hlt%Nat.ltb_ge Hexact].
    set (len := length _ - _) in *. split.
    + assert (Hz : forall l k, length l <= length k ->
        forallb (fun ab => bool_decide (decode_segment ab.1 = decode_segment ab.2)) (zip l k) = true ->
        decode_segment <$> l = decode_segment <$> take (length l) k).
      { clear. induction l as [|x l IH]; intros [|y k] Hl; simpl in *; try done; try lia.
        intros [Hxy%bool_decide_eq_true_1 Hr]%andb_true_iff. rewrite Hxy. f_equal. apply IH; [lia|done]. }
      apply Hz in Hp; rewrite length_take in *; [|lia]. rewrite Hp. f_equal. f_equal. lia.
    + intros He. rewrite He in Hexact. simpl in Hexact. by apply negb_false_iff, Nat.eqb_eq in Hexact.
Qed.
End csp_theory.

(** ** Concrete instances *)
Definition demo_headers : HeaderList :=
  [mkHeader "content-security-policy"
     "default-src 'none'; script-src 'self' 'unsafe-inline' bad?source; script-src *, connect-src https://*.example.test/api/"].

Definition demo_container : PolicyContainer :=
  match from_headers "https://example.test/doc" demo_headers with Ok c => c | Err _ => [] end.
Definition demo_text : string :=
  "default-src 'none'; script-src 'self' 'unsafe-inline' bad?source; script-src *".

Lemma demo_first_parses : exists p,
  parse_policy (URL := simple_urls) "https://example.test/doc" demo_text false = Ok p.
Proof.
  assert (match parse_policy (URL := simple_urls) "https://example.test/doc" demo_text false with
          | Ok _ => true | Err _ => false end = true) as H by vm_refl.
  destruct (parse_policy "https://example.test/doc" demo_text false) as [p|e]; [by exists p|discriminate H].
Qed.

Lemma parse_policy_first_wins_witness : exists p,
  parse_policy (URL := simple_urls) "https://example.test/doc" demo_text false = Ok p /\
  directives p !! "script-src" = kept_values (split_on ";" demo_text) "script-src" /\
  kept_values (split_on ";" demo_text) "script-src" = Some ["'self'"; "'unsafe-inline'"].
Proof.
  destruct demo_first_parses as [p Hp]. exists p. split; [exact Hp|]. split; [|vm_refl].
  refine (proj1 (parse_policy_first_wins (URL := simple_urls) "https://example.test/doc" demo_text false p Hp)
    "script-src" _).
  vm_refl.
Defined.

(** The inline script the headers allowed is refused once the meta policy is added. *)
Lemma demo_restricts : exists c c',
  from_headers "https://example.test/doc" demo_headers = Ok c /\
  append_meta c "https://example.test/doc" "script-src 'self'" = Ok c' /\
  answer c (AskInline None "run()" true) = true /\ answer c' (AskInline None "run()" true) = false.
Proof.
  assert (match from_headers "https://example.test/doc" demo_headers with
    | Ok c => match append_meta c "https://example.test/doc" "script-src 'self'" with
      | Ok c' => answer c (AskInline None "run()" true) && negb (answer c' (AskInline None "run()" true))
      | Err _ => false end
    | Err _ => false end = true) as H by vm_refl.
  destruct (from_headers "https://example.test/doc" demo_headers) as [c|e]; [|done].
  destruct (append_meta c "https://example.test/doc" "script-src 'self'") as [c'|e] eqn:Hc'; [|done].
  apply andb_true_iff in H as [H1 H2]. exists c, c'. split_and!; [done..|by apply negb_true_iff].
Qed.

Lemma policies_only_restrict_witness : exists c c' p,
  answer c (AskInline None "run()" true) = true /\ answer c' (AskInline None "run()" true) = false /\
  forall q, answer c' q = answer c q && answer [p] q.
Proof.
  destruct demo_restricts as (c & c' & Hc & Hc' & H1 & H2).
  destruct (policies_only_restrict (URL := simple_urls) c c' "https://example.test/doc"
    "script-src 'self'" demo_headers Hc Hc') as (_ & _ & p & _ & _ & Hq).
  exists c, c', p. split; [exact H1|]. split; [exact H2|exact Hq].
Defined.

Lemma violations_are_refusals_witness :
  script_url_violations demo_container "script-src-elem" "https://cdn.test/a.js" 0 ScriptSource_default
    = [demo_text] /\
  (script_url_violations demo_container "script-src-elem" "https://example.test/a.js" 0 ScriptSource_default = []
     <-> allows_script_url demo_container "script-src-elem" "https://example.test/a.js" 0 ScriptSource_default = true).
Proof.
  split; [vm_refl|].
  destruct (violations_are_refusals (URL := simple_urls) demo_container "script-src-elem"
    "https://example.test/a.js" 0 ScriptSource_default None None true
    (mkSimpleUrl "https" "example.test" None "/a.js" None None)) as (_ & H & _); [vm_refl|].
  exact H.
Defined.

(** A subdomain is admitted, a lookalike and the bare domain are not. *)
Lemma host_source_confines_witness :
  let at_host h := mkSimpleUrl "https" h None "/api/v1" None None in
  source_matches "https://*.example.test/api/" (at_host "notexample.test") (at_host "a.test") 0 = false /\
  source_matches "https://*.example.test/api/" (at_host "example.test") (at_host "a.test") 0 = false /\
  exists parts actual,
    host_parts "https://*.example.test/api/" "https" = Some parts /\ actual = "Api.example.test".
Proof.
  intros at_host. split; [vm_refl|]. split; [vm_refl|].
  destruct (host_source_confines (URL := simple_urls) "https://*.example.test/api/"
    (at_host "Api.example.test") (at_host "a.test") 0) as (parts & actual & Hp & Ha & _).
  - split_and!; [vm_refl|done|vm_refl|vm_refl].
  - vm_refl.
  - exists parts, actual. split; [exact Hp|]. injection Ha as <-. reflexivity.
Defined.
