(* ===== verification/CookieTheory.v ===== *)
(** * CookieTheory: what the cookie jar promises

    The invariant of the jar, which cookies a request carries and a script sees,
    and which cookies an insecure or script write can reach. The last part
    runs the definitions over a small suffix list and a real calendar. *)

From S2P Require Import Prelude Text StrOps Limits Clock Origins Net Headers CspSources Csp FetchRequest Cookies SimpleInstances.
From Stdlib Require Import ZArith Sorting.Sorted.

(** ** Matching as relations *)
Lemma domain_matches_spec (h d : string) :
  domain_matches h d = true <->
  h = d \/ parses_to_ip h = false /\ exists x, h = x +:+ String "." d.
Proof.
  unfold domain_matches. rewrite orb_true_iff, String.eqb_eq, !andb_true_iff, negb_true_iff, ends_with_spec,
    bool_decide_eq_true, N.ltb_lt.
  split; intros [Hh|Hh]; try by left.
  - right. destruct Hh as [[[Hip Hl] [t ->]] Hdot]. split; [done|].
    assert (Ht : exists s, t = s +:+ ".").
    { unfold byte_length in Hl. rewrite <- !length_bytes, bytes_app, length_app in *.
      rewrite lookup_app_l in Hdot by lia. destruct (reverse_string t) as [|a s] eqn:Hr.
      - apply (f_equal reverse_string) in Hr. rewrite reverse_reverse_string in Hr. subst. simpl in Hl. lia.
      - exists (reverse_string s). apply (f_equal reverse_string) in Hr. rewrite reverse_reverse_string in Hr.
        subst t. apply (inj bytes). rewrite bytes_app, !bytes_reverse in *. simpl in *.
        rewrite length_app, length_rev, lookup_app_r in Hdot by (rewrite length_rev; simpl; lia).
        rewrite length_rev in Hdot. simpl in Hdot.
        replace (_ - _) with 0 in Hdot by lia. simpl in Hdot. by injection Hdot as ->. }
    destruct Ht as [s ->]. exists s. by rewrite string_app_assoc.
  - destruct Hh as [Hip [x ->]]. right. split_and!; [done| | |].
    + unfold byte_length. rewrite <- !length_bytes, bytes_app, length_app. simpl. lia.
    + exists (x +:+ "."). by rewrite string_app_assoc.
    + rewrite <- !length_bytes, bytes_app, length_app. simpl.
      rewrite lookup_app_r by lia. by replace (_ - _ - _ - _) with 0 by lia.
Qed.

Lemma path_matches_spec (rp p : string) :
  path_matches rp p = true <->
  rp = p \/ exists rest, rp = p +:+ rest /\ (StrOps.ends_with "/" p = true \/ exists t, rest = String "/" t).
Proof.
  unfold path_matches. rewrite orb_true_iff, String.eqb_eq, andb_true_iff, orb_true_iff, starts_with_spec,
    bool_decide_eq_true.
  split; (intros [?|H]; [by left|right]).
  - destruct H as [[rest ->] [Hs|Hs]]; exists rest; (split; [done|]); [by left|right].
    rewrite <- length_bytes, bytes_app, lookup_app_r, Nat.sub_diag in Hs by lia.
    destruct rest as [|a rest]; [done|]. simpl in Hs. exists rest. f_equal.
    injection Hs as Ha. by rewrite <- (ascii_N_embedding a), Ha.
  - destruct H as (rest & -> & Hs). split; [by exists rest|]. destruct Hs as [Hs|[t ->]]; [by left|right].
    rewrite <- length_bytes, bytes_app, lookup_app_r, Nat.sub_diag by lia. done.
Qed.

Section theory.
Context {URL : UrlLib} {SUFFIXES : PublicSuffixes} {CALENDAR : Calendar}.
Implicit Types (c d : StoredCookie) (st : CookieState) (u v : ParsedUrl).

(** ** What the parser lets through *)

(** [host] is [domain] or one of its subdomains. *)
Definition within (host domain : string) : Prop :=
  host = domain \/ exists x, host = x +:+ String "." domain.

Definition has_prefix (c : StoredCookie) (p : string) : Prop := starts_ignoring_case (cookie_name c) p = true.

Record cookie_ok c : Prop := {
  ok_pair : cookie_pair c <> EmptyString;
  ok_size : (byte_length (cookie_name c) + byte_length (cookie_value c) <= MAX_COOKIE_PAIR_BYTES)%N;
  ok_suffix : host_only c = false -> public_suffix (cookie_domain c) = false;
  ok_none : same_site c = SameSiteNone -> secure c = true;
  ok_secure_prefix : has_prefix c "__Secure-" -> secure c = true;
  ok_host_prefix : has_prefix c "__Host-" -> secure c = true /\ host_only c = true /\ cookie_path c = "/"
}.

(** What a cookie set by the address [u] has to look like. *)
Record set_by u (from_http : bool) (now : SystemTime) c : Prop := {
  by_domain : if host_only c then cookie_domain c = to_ascii_lowercase (host u)
              else domain_matches (to_ascii_lowercase (host u)) (cookie_domain c) = true;
  by_secure : secure c = true -> is_secure_url u = true;
  by_http : http_only c = true -> from_http = true;
  by_expiry : forall e, expires_at c = Some e -> (e <= Z.max now UNIX_EPOCH + Z.of_N MAX_PERSISTENT_AGE)%Z
}.

Lemma apply_domain_attribute_spec (h : string) (attribute : option string) (domain : string) (ho : bool) :
  apply_domain_attribute h attribute = Some (domain, ho) ->
  if ho then domain = h else domain_matches h domain = true /\ public_suffix domain = false.
Proof.
  unfold apply_domain_attribute. destruct attribute as [a|]; [|by intros [= <- <-]].
  destruct (public_suffix a) eqn:Hs; simpl.
  - destruct (String.eqb a h); simpl; [by intros [= <- <-]|done].
  - destruct (String.eqb a EmptyString); [by intros [= <- <-]|].
    destruct (domain_matches h a) eqn:Hm; [|done]. by intros [= <- <-].
Qed.

Lemma max_age_nonneg : (0 <= Z.of_N MAX_PERSISTENT_AGE)%Z.
Proof. apply N2Z.is_nonneg. Qed.

Lemma max_age_end (now : SystemTime) (n : Duration) :
  (default now (time_checked_add now (N.min n MAX_PERSISTENT_AGE)) <= now + Z.of_N MAX_PERSISTENT_AGE)%Z.
Proof.
  pose proof max_age_nonneg.
  destruct (time_checked_add _ _) as [t|] eqn:Ht; unfold default, from_option, id; [|lia].
  apply time_checked_add_Some in Ht. rewrite Ht, N2Z.inj_min. lia.
Qed.

Lemma clamp_expiry_end (e now : SystemTime) : (clamp_expiry e now <= now + Z.of_N MAX_PERSISTENT_AGE)%Z.
Proof.
  pose proof max_age_nonneg. unfold clamp_expiry.
  destruct (time_checked_add _ _) as [t|] eqn:Ht; unfold default, from_option, id;
    [apply time_checked_add_Some in Ht|]; lia.
Qed.

Definition expiry_capped (now : SystemTime) (o : option SystemTime) : Prop :=
  forall e, o = Some e -> (e <= Z.max now UNIX_EPOCH + Z.of_N MAX_PERSISTENT_AGE)%Z.

Lemma parse_attribute_expiry (path : string) (now : SystemTime) (a b : Attributes) (text : string) :
  expiry_capped now (at_expires a) -> parse_attribute path now a text = Some b -> expiry_capped now (at_expires b).
Proof.
  intros Ha. unfold parse_attribute. destruct (default _ _) as [name value], a as [dom p s h ss age ex].
  repeat case_match; intros [= <-]; try done. intros e [= <-].
  eapply Z.le_trans; [apply clamp_expiry_end|]. lia.
Qed.

Lemma parse_attributes_expiry (path : string) (now : SystemTime) (l : list string) (a b : Attributes) :
  expiry_capped now (at_expires a) -> parse_attributes path now a l = Some b -> expiry_capped now (at_expires b).
Proof.
  revert a. induction l as [|text l IH]; intros a Ha; simpl; [by intros [= <-]|].
  destruct (parse_attribute path now a text) as [a'|] eqn:Hp; simpl; [|done].
  apply IH. by eapply parse_attribute_expiry.
Qed.

(** The expiry of a cookie, from its attributes. *)
Definition cookie_expiry (now : SystemTime) (a : Attributes) : option SystemTime :=
  match at_max_age a with
  | Some Expired => Some UNIX_EPOCH
  | Some (Seconds n) => Some (default now (time_checked_add now (N.min (from_secs n) MAX_PERSISTENT_AGE)))
  | None => at_expires a
  end.

Lemma expiry_of_attributes (now : SystemTime) (a : Attributes) :
  expiry_capped now (at_expires a) -> expiry_capped now (cookie_expiry now a).
Proof.
  intros Ha. unfold cookie_expiry. destruct (at_max_age a) as [[|k]|]; [..|done].
  - intros t [= <-]. pose proof max_age_nonneg. lia.
  - intros t [= <-]. pose proof (max_age_end now (from_secs k)). lia.
Qed.

Lemma parse_cookie_internal_sound u (assignment : string) (from_http : bool) (now : SystemTime) c (e : bool) :
  parse_cookie_internal u assignment from_http now = Some (c, e) ->
  cookie_ok c /\ set_by u from_http now c /\ e = is_expired c now.
Proof.
  unfold parse_cookie_internal. destruct (existsb _ _); [done|].
  destruct (default _ _) as [assigned attributes]. destruct (default _ _) as [name value].
  set (n := trim_whitespace name). set (v := trim_whitespace value). clearbody n v.
  destruct (_ || _) eqn:Hpair; [done|]. apply orb_false_iff in Hpair as [Hempty Hsize].
  intros (a & Ha & ([dom ho] & Hd & Hrest)%bind_Some)%bind_Some. revert Hrest.
  assert (Hexp : expiry_capped now (at_expires a)) by (by eapply parse_attributes_expiry; [|exact Ha]).
  apply apply_domain_attribute_spec in Hd.
  destruct (_ || _) eqn:Hflags; [done|]. destruct (breaks_prefix_rules _ _ _ _ _) eqn:Hprefix; [done|].
  fold (cookie_expiry now a).
  intros [= <- <-]. apply orb_false_iff in Hflags as [[Hsec Hhttp]%orb_false_iff Hnone].
  unfold breaks_prefix_rules in Hprefix. apply orb_false_iff in Hprefix as [[Hps Hph]%orb_false_iff _].
  split_and!; [| |done].
  - split; unfold has_prefix; cbn [cookie_name cookie_value cookie_domain cookie_path secure host_only same_site].
    + unfold cookie_pair. cbn [cookie_name cookie_value]. destruct (String.eqb_spec n EmptyString) as [->|]; [|by destruct n].
      intros ->. done.
    + clear -Hsize. apply N.ltb_ge, N.nlt_ge in Hsize. rewrite saturating_add_gt in Hsize by done.
      by apply N.nlt_ge.
    + intros ->. apply Hd.
    + intros Hss. rewrite Hss in Hnone. rewrite bool_decide_eq_true_2 in Hnone by done. by destruct (at_secure a).
    + intros Hp. rewrite Hp in Hps. by destruct (at_secure a).
    + intros Hp. rewrite Hp in Hph. rewrite andb_true_l in Hph.
      apply orb_false_iff in Hph as [[Hs Hh]%orb_false_iff Hroot].
      apply negb_false_iff in Hs, Hh, Hroot. apply andb_true_iff in Hroot as [_ ->%String.eqb_eq]. done.
  - split; cbn [host_only cookie_domain secure http_only expires_at].
    + destruct ho; [done|apply Hd].
    + intros Hs. rewrite Hs in Hsec. by destruct (is_secure_url u).
    + intros Hh. rewrite Hh in Hhttp. by destruct from_http.
    + apply expiry_of_attributes, Hexp.
Qed.

(** ** The invariant of the jar *)
Definition identity c : string * string * string * bool :=
  (cookie_name c, cookie_domain c, cookie_path c, host_only c).

Lemma same_cookie_spec c d : same_cookie c d = true <-> identity d = identity c.
Proof.
  unfold same_cookie, identity. rewrite !andb_true_iff, !String.eqb_eq, Bool.eqb_true_iff.
  split; [by intros [[[-> ->] ->] ->]|by intros [=]].
Qed.

Lemma identity_with_creation c (n : N) : identity (with_creation c n) = identity c.
Proof. done. Qed.

Record jar_ok st : Prop := {
  jar_identities : NoDup (identity <$> cookies st);
  jar_cookies : Forall cookie_ok (cookies st);
  jar_domains : forall domain, (domain_count domain (cookies st) <= MAX_COOKIES_PER_DOMAIN)%N;
  jar_total : (N.of_nat (length (cookies st)) <= MAX_COOKIES)%N;
  jar_creations : NoDup (creation <$> cookies st);
  jar_next : Forall (fun c => 1 <= creation c < next_creation st)%N (cookies st);
  jar_next_pos : (1 <= next_creation st)%N
}.

Lemma domain_count_sublist (domain : string) (l k : list StoredCookie) :
  l `sublist_of` k -> (domain_count domain l <= domain_count domain k)%N.
Proof.
  intros Hs. unfold domain_count. apply (filter_sublist_mono (fun c => in_domain domain c)) in Hs.
  apply sublist_length in Hs. lia.
Qed.

(** Whatever is dropped from the jar, what stays is a jar. *)
Lemma jar_ok_sublist st (l : list StoredCookie) :
  jar_ok st -> l `sublist_of` cookies st -> jar_ok (with_cookies st l).
Proof.
  intros [Hid Hc Hd Ht Hcr Hn Hp] Hs. split; simpl; [..|done].
  - apply (sublist_NoDup (identity <$> l) (identity <$> cookies st)); [done|by apply fmap_sublist].
  - rewrite Forall_forall in *. intros c Hin. apply Hc. by eapply elem_of_sublist.
  - intros domain. etrans; [by apply domain_count_sublist|apply Hd].
  - apply sublist_length in Hs. lia.
  - apply (sublist_NoDup (creation <$> l) (creation <$> cookies st)); [done|by apply fmap_sublist].
  - rewrite Forall_forall in *. intros c Hin. apply Hn. by eapply elem_of_sublist.
Qed.

Lemma jar_ok_version st : jar_ok st -> jar_ok (advance_version st).
Proof. intros [? ? ? ? ? ? ?]. by split. Qed.

Lemma filter_bool_sublist (p : StoredCookie -> bool) (l : list StoredCookie) :
  filter (fun c => p c) l `sublist_of` l.
Proof. apply sublist_filter. Qed.

Lemma purge_expired_cookies st (now : SystemTime) :
  cookies (purge_expired st now).1 = filter (fun c => negb (is_expired c now)) (cookies st) /\
  next_creation (purge_expired st now).1 = next_creation st.
Proof. unfold purge_expired. simpl. by destruct (negb _). Qed.

Lemma purge_expired_ok st (now : SystemTime) : jar_ok st -> jar_ok (purge_expired st now).1.
Proof.
  intros Hst. unfold purge_expired. simpl.
  destruct (negb _); [apply jar_ok_version|]; apply jar_ok_sublist; try done; apply sublist_filter.
Qed.

(** *** Eviction *)
Lemma remove_first_sublist (p : StoredCookie -> bool) (l : list StoredCookie) : remove_first p l `sublist_of` l.
Proof. induction l as [|c l IH]; simpl; [done|]. destruct (p c); by constructor. Qed.

Lemma remove_oldest_sublist (p : StoredCookie -> bool) (l : list StoredCookie) : remove_oldest p l `sublist_of` l.
Proof. unfold remove_oldest. destruct (min_creation _); [apply remove_first_sublist|done]. Qed.

Lemma min_creation_elem (l : list StoredCookie) c : min_creation l = Some c -> c ∈ l.
Proof.
  revert c. induction l as [|d l IH]; intros c; simpl; [done|].
  destruct (min_creation l) as [e|]; [|intros [= <-]; constructor].
  destruct (_ <=? _)%N; intros [= <-]; [constructor|]. constructor. by apply IH.
Qed.

Lemma min_creation_None (l : list StoredCookie) : min_creation l = None -> l = [].
Proof. destruct l; simpl; [done|]. destruct (min_creation _); [by destruct (_ <=? _)%N|done]. Qed.

Lemma length_remove_first (p q : StoredCookie -> bool) (l : list StoredCookie) c :
  c ∈ l -> p c = true -> (forall d, p d = true -> q d = true) ->
  S (length (filter (fun d => q d) (remove_first p l))) = length (filter (fun d => q d) l).
Proof.
  intros Hc Hp Hpq. induction Hc as [c l|c d l Hc IH]; simpl.
  - rewrite Hp, filter_cons_True by (by rewrite Hpq). done.
  - destruct (p d) eqn:Hd; [rewrite filter_cons_True by (by rewrite Hpq); done|].
    rewrite !filter_cons. case_decide; simpl; by rewrite IH.
Qed.

Lemma remove_oldest_length (p : StoredCookie -> bool) (l : list StoredCookie) :
  (0 < length (filter (fun c => p c) l)) ->
  S (length (filter (fun c => p c) (remove_oldest p l))) = length (filter (fun c => p c) l).
Proof.
  intros Hpos. unfold remove_oldest. destruct (min_creation _) as [c|] eqn:Hm.
  - apply min_creation_elem, list_elem_of_filter in Hm as [Hp%Is_true_true Hin].
    apply (length_remove_first _ _ _ c); [done|by rewrite Hp, N.eqb_refl|].
    intros d Hd. by apply andb_true_iff in Hd as [? _].
  - apply min_creation_None in Hm. rewrite Hm in Hpos. simpl in Hpos. lia.
Qed.

Lemma evict_sublist (l : list StoredCookie) (domain : string) : evict_for_domain_limit l domain `sublist_of` l.
Proof. unfold evict_for_domain_limit. destruct (_ <=? _)%N; [apply remove_oldest_sublist|done]. Qed.

Lemma make_room_sublist (l : list StoredCookie) (domain : string) : make_room l domain `sublist_of` l.
Proof.
  unfold make_room. destruct (_ <=? _)%N; [|apply evict_sublist].
  etrans; [apply remove_oldest_sublist|apply evict_sublist].
Qed.

(** Room for one more cookie of the domain, and in the jar. *)
Lemma make_room_domain (l : list StoredCookie) (domain : string) :
  (domain_count domain l <= MAX_COOKIES_PER_DOMAIN)%N ->
  (domain_count domain (make_room l domain) < MAX_COOKIES_PER_DOMAIN)%N.
Proof.
  intros Hd. assert (He : (domain_count domain (evict_for_domain_limit l domain) < MAX_COOKIES_PER_DOMAIN)%N).
  { unfold evict_for_domain_limit. destruct (N.leb_spec MAX_COOKIES_PER_DOMAIN (domain_count domain l)); [|done].
    unfold domain_count in *. pose proof (remove_oldest_length (in_domain domain) l) as Hr.
    unfold MAX_COOKIES_PER_DOMAIN in *. lia. }
  eapply N.le_lt_trans; [|exact He]. unfold make_room. destruct (_ <=? _)%N; [|done].
  apply domain_count_sublist, remove_oldest_sublist.
Qed.

Lemma filter_true {A} (l : list A) : filter (fun _ => true) l = l.
Proof. induction l as [|x l IH]; [done|]. rewrite filter_cons_True by done. by rewrite IH. Qed.

Lemma make_room_total (l : list StoredCookie) (domain : string) :
  (N.of_nat (length l) <= MAX_COOKIES)%N -> (N.of_nat (length (make_room l domain)) < MAX_COOKIES)%N.
Proof.
  intros Hl. unfold make_room. pose proof (sublist_length _ _ (evict_sublist l domain)).
  destruct (N.leb_spec MAX_COOKIES (N.of_nat (length (evict_for_domain_limit l domain)))); [|lia].
  pose proof (remove_oldest_length (fun _ => true) (evict_for_domain_limit l domain)) as Hr.
  unfold MAX_COOKIES in *.
  rewrite (filter_true (evict_for_domain_limit l domain)), (filter_true (remove_oldest _ _)) in Hr. lia.
Qed.

Lemma find_same c (l : list StoredCookie) d :
  find (same_cookie c) l = Some d -> d ∈ l /\ identity d = identity c.
Proof. intros [Hin Hs]%find_some. split; [by apply list_elem_of_In|by apply same_cookie_spec]. Qed.

Lemma creation_not_kept c d (l : list StoredCookie) :
  NoDup (creation <$> l) -> d ∈ l -> identity d = identity c ->
  creation d ∉ creation <$> filter (fun e => negb (same_cookie c e)) l.
Proof.
  intros Hn Hd Hid (e & He & Hin)%list_elem_of_fmap.
  apply list_elem_of_filter in Hin as [Hne%Is_true_true%negb_true_iff Hin].
  assert (e = d).
  { apply list_elem_of_lookup in Hd as [i Hi], Hin as [j Hj].
    assert (i = j); [|congruence]. eapply (NoDup_lookup (creation <$> l)); [done|..];
      rewrite list_lookup_fmap, ?Hi, ?Hj; simpl; [done|by rewrite He]. }
  subst e. apply same_cookie_spec in Hid. congruence.
Qed.

(** The creation number the stored cookie gets: the one of the cookie it
    replaces, or a new one. *)
Definition chosen_creation st c : N * CookieState :=
  match find (same_cookie c) (cookies st) with
  | Some stored => (creation stored, st)
  | None => allocate_creation st
  end.

Definition others st c : list StoredCookie := filter (fun d => negb (same_cookie c d)) (cookies st).

Lemma chosen_creation_spec st c :
  jar_ok st -> (next_creation st < u64_max)%N ->
  let '(n, st') := chosen_creation st c in
  jar_ok st' /\ cookies st' = cookies st /\
  (next_creation st <= next_creation st' <= next_creation st + 1)%N /\
  (1 <= n < next_creation st')%N /\ n ∉ creation <$> others st c.
Proof.
  intros Hst Hmax. unfold chosen_creation. pose proof Hst as [? ? ? ? Hcr Hn Hp].
  destruct (find _ _) as [d|] eqn:Hf.
  - apply find_same in Hf as [Hd Hid]. rewrite Forall_forall in Hn. pose proof (Hn d Hd).
    split_and!; try done; try lia. by apply creation_not_kept.
  - unfold allocate_creation. assert (checked_add (next_creation st) 1 = Some (next_creation st + 1)%N) as ->.
    { apply checked_add_Some. lia. }
    simpl. split_and!; simpl; try done; try lia.
    + split; simpl; try done; [|lia]. apply (Forall_impl _ _ _ Hn). intros d. lia.
    + intros (d & Hd & Hin)%list_elem_of_fmap. apply list_elem_of_filter in Hin as [_ Hin].
      rewrite Forall_forall in Hn. apply Hn in Hin. lia.
Qed.

Lemma domain_count_snoc (domain : string) (l : list StoredCookie) c :
  domain_count domain (l ++ [c]) =
  (domain_count domain l + if String.eqb (cookie_domain c) domain then 1 else 0)%N.
Proof.
  unfold domain_count, in_domain. rewrite filter_app, length_app, filter_cons.
  destruct (String.eqb _ _); case_decide; simpl; try done; lia.
Qed.

(** A new cookie in the room that was made for it. *)
Lemma push_ok st c (n : N) :
  jar_ok st -> cookie_ok c -> (1 <= n < next_creation st)%N -> n ∉ creation <$> others st c ->
  jar_ok (with_cookies st (make_room (others st c) (cookie_domain c) ++ [with_creation c n])).
Proof.
  intros Hst Hc Hn Hfresh. set (l := make_room (others st c) (cookie_domain c)).
  assert (Hl : l `sublist_of` others st c) by apply make_room_sublist.
  assert (Ho : jar_ok (with_cookies st (others st c))) by (apply jar_ok_sublist; [done|apply sublist_filter]).
  pose proof (jar_ok_sublist _ _ Ho Hl) as [Hid Hall Hd Ht Hcr Hnx Hpos]. simpl in *.
  split; simpl; [..|done].
  - rewrite fmap_app. apply NoDup_app. split_and!; [done| |apply NoDup_singleton].
    intros i (d & -> & Hd')%list_elem_of_fmap Hi%list_elem_of_singleton.
    apply (elem_of_sublist _ _ _ Hd'), list_elem_of_filter in Hl as [Hne%Is_true_true%negb_true_iff _].
    assert (same_cookie c d = true) by (by apply same_cookie_spec). congruence.
  - apply Forall_app. split; [done|]. constructor; [|done]. by destruct Hc.
  - intros domain. rewrite domain_count_snoc. simpl. destruct (String.eqb_spec (cookie_domain c) domain) as [<-|].
    + pose proof (make_room_domain (others st c) (cookie_domain c) (jar_domains _ Ho _)). fold l in H. lia.
    + pose proof (Hd domain). lia.
  - rewrite length_app. simpl.
    pose proof (make_room_total (others st c) (cookie_domain c) (jar_total _ Ho)). fold l in H. lia.
  - rewrite fmap_app. apply NoDup_app. split_and!; [done| |apply NoDup_singleton].
    intros i Hi ->%list_elem_of_singleton. apply Hfresh. eapply elem_of_sublist; [exact Hi|]. by apply fmap_sublist.
  - apply Forall_app. split; [done|]. constructor; [done|constructor].
Qed.

(** [store_cookie] in terms of these. *)
Lemma store_cookie_unfold st (now : SystemTime) c (expired from_http source_secure : bool) :
  store_cookie st now c expired from_http source_secure =
  let '(st, changed) := purge_expired st now in
  if rejects (cookies st) c from_http source_secure then (st, changed)
  else
    let '(n, st') := chosen_creation st c in
    if expired then
      let changed := changed || bool_decide (is_Some (find (same_cookie c) (cookies st))) in
      let st' := with_cookies st' (others st' c) in
      (if changed then advance_version st' else st', changed)
    else (advance_version (with_cookies st' (make_room (others st' c) (cookie_domain c) ++ [with_creation c n])), true).
Proof.
  unfold store_cookie, chosen_creation, others. destruct (purge_expired st now) as [st1 ch].
  destruct (rejects _ _ _ _); [done|]. destruct (find _ _); destruct expired; try done.
Qed.

Lemma store_cookie_ok st (now : SystemTime) c (expired from_http source_secure : bool) :
  jar_ok st -> cookie_ok c -> (next_creation st < u64_max)%N ->
  jar_ok (store_cookie st now c expired from_http source_secure).1 /\
  (next_creation (store_cookie st now c expired from_http source_secure).1 <= next_creation st + 1)%N.
Proof.
  intros Hst Hc Hnext. pose proof (purge_expired_ok st now Hst) as Hp.
  pose proof (proj2 (purge_expired_cookies st now)) as Hpn. rewrite store_cookie_unfold.
  destruct (purge_expired st now) as [st1 changed]. simpl in Hp, Hpn. rewrite <- Hpn in *. clear st Hst Hpn.
  destruct (rejects _ _ _ _); [split; [done|]; simpl; lia|].
  pose proof (chosen_creation_spec st1 c Hp Hnext) as Hch.
  destruct (chosen_creation st1 c) as [n st2]. destruct Hch as (Hok2 & Hcs & Hnx & Hn & Hfresh).
  unfold others in *. rewrite <- Hcs in Hfresh. destruct expired.
  - assert (jar_ok (with_cookies st2 (others st2 c))) by (apply jar_ok_sublist; [done|apply sublist_filter]).
    simpl. destruct (_ || _); simpl; (split; [by try apply jar_ok_version|lia]).
  - split; [by apply jar_ok_version, push_ok|]. simpl. lia.
Qed.

(** ** The operations of a profile *)
Inductive jar_op :=
  | OpDocument (now later : SystemTime) (url assignment : string)
  | OpResponse (now later : SystemTime) (r : FetchRequest) (set_cookie : string)
  | OpHeader (now : SystemTime) (r : FetchRequest)
  | OpSnapshot (now : SystemTime) (url : string).

Definition run_jar_op st (op : jar_op) : CookieState :=
  match op with
  | OpDocument now later url assignment => (set_document_cookie st now later url assignment).1
  | OpResponse now later r set_cookie => (store_response_cookie st now later r set_cookie).1
  | OpHeader now r => (request_header st now r).1
  | OpSnapshot now url => (document_snapshot st now url).1
  end.

(** Every operation leaves the jar alone, purges it, or stores what the parser accepted. *)
Lemma run_jar_op_cases st (op : jar_op) :
  run_jar_op st op = st \/
  (exists now, run_jar_op st op = (purge_expired st now).1) \/
  (exists now later u a from_http c expired,
     parse_cookie_internal u a from_http now = Some (c, expired) /\
     run_jar_op st op = (store_cookie st later c expired from_http (is_secure_url u)).1).
Proof.
  destruct op as [now later url a|now later r sc|now r|now url]; unfold run_jar_op.
  - unfold set_document_cookie. destruct (ParsedUrl_parse url) as [u|]; [|by left].
    unfold document_cookie, parse_cookie.
    destruct (parse_cookie_internal u a false now) as [[c e]|] eqn:Hp; simpl; [|by left]. right; right. exists now, later, u, a, false, c, e. split; [done|]. by destruct (store_cookie _ _ _ _ _ _).
  - unfold store_response_cookie, response_cookie. destruct (FetchUrl_parsed _) as [u|]; simpl; [|by left].
    destruct (parse_cookie_internal u sc true now) as [[c e]|] eqn:Hp; simpl; [|by left].
    destruct (negb _); [by left|]. right; right. exists now, later, u, sc, true, c, e. split; [done|].
    by destruct (store_cookie _ _ _ _ _ _).
  - unfold request_header. destruct (FetchUrl_parsed _) as [u|]; [|by left]. right; left. exists now.
    by destruct (purge_expired st now).
  - unfold document_snapshot. destruct (ParsedUrl_parse url) as [u|]; [|by left]. right; left. exists now.
    by destruct (purge_expired st now).
Qed.

Lemma run_jar_op_ok st (op : jar_op) :
  jar_ok st -> (next_creation st < u64_max)%N ->
  jar_ok (run_jar_op st op) /\ (next_creation (run_jar_op st op) <= next_creation st + 1)%N.
Proof.
  intros Hst Hn. destruct (run_jar_op_cases st op) as [->|[[now ->]|(now & later & u & a & h & c & e & Hp & ->)]].
  - split; [done|lia].
  - split; [by apply purge_expired_ok|]. rewrite (proj2 (purge_expired_cookies _ _)). lia.
  - apply store_cookie_ok; [done| |done]. by apply parse_cookie_internal_sound in Hp as [? _].
Qed.

Lemma default_jar_ok : jar_ok CookieState_default.
Proof.
  split; simpl; try (by constructor); try done.
Qed.

Lemma run_jar_ops_ok (ops : list jar_op) st :
  jar_ok st -> (next_creation st + N.of_nat (length ops) < u64_max)%N -> jar_ok (foldl run_jar_op st ops).
Proof.
  revert st. induction ops as [|op ops IH]; intros st Hst Hn; [done|]. simpl in Hn.
  destruct (run_jar_op_ok st op Hst) as [Hok Hnx]; [lia|]. simpl. apply IH; [done|lia].
Qed.

(** C31. The jar stays within its budgets and its rules: after any operations,
    in any order and at any clock readings, there are at most 3000 cookies and
    180 for a domain, no two cookies with the same name, domain, path and scope
    and no two with the same creation number, no cookie for a public suffix, and
    the [__Secure-], [__Host-] and [SameSite=None] rules hold. *)
Theorem jar_stays_valid (ops : list jar_op) :
  (1 + N.of_nat (length ops) < u64_max)%N -> jar_ok (foldl run_jar_op CookieState_default ops).
Proof. intros Hlen. apply run_jar_ops_ok; [apply default_jar_ok|done]. Qed.

(** ** Who may overwrite what *)

(** A cookie that neither the write nor the eviction it causes can remove. *)
Lemma store_cookie_keeps st (now : SystemTime) c d (expired from_http source_secure : bool) :
  d ∈ cookies st -> is_expired d now = false ->
  (domain_count (cookie_domain c) (cookies st) < MAX_COOKIES_PER_DOMAIN)%N ->
  (N.of_nat (length (cookies st)) < MAX_COOKIES)%N ->
  (same_cookie c d = true -> from_http = false /\ http_only d = true \/
     secure c = false /\ source_secure = false /\ overlays c d = true) ->
  d ∈ cookies (store_cookie st now c expired from_http source_secure).1.
Proof.
  intros Hd Hexp Hroom Htot Hprot. rewrite store_cookie_unfold.
  pose proof (proj1 (purge_expired_cookies st now)) as Hpc.
  destruct (purge_expired st now) as [st1 changed]. simpl in Hpc.
  assert (Hs : cookies st1 `sublist_of` cookies st) by (rewrite Hpc; apply sublist_filter).
  assert (Hd1 : d ∈ cookies st1) by (rewrite Hpc; apply list_elem_of_filter; by rewrite Hexp).
  destruct (rejects (cookies st1) c from_http source_secure) eqn:Hrej; [done|].
  assert (Hsame : same_cookie c d = false).
  { apply not_true_iff_false. intros Hsame. apply not_true_iff_false in Hrej. apply Hrej.
    unfold rejects. apply orb_true_iff. destruct (Hprot Hsame) as [[-> Hh]|(-> & -> & Ho)]; [left|right]; simpl;
      apply existsb_exists; exists d; (split; [by apply list_elem_of_In|]); [by rewrite Hsame|done]. }
  assert (Hch : cookies (chosen_creation st1 c).2 = cookies st1).
  { unfold chosen_creation. by destruct (find _ _). }
  destruct (chosen_creation st1 c) as [n st2]. simpl in Hch.
  assert (Ho : d ∈ others st2 c).
  { unfold others. rewrite Hch. apply list_elem_of_filter. by rewrite Hsame. }
  assert (Hso : others st2 c `sublist_of` cookies st) by (unfold others; rewrite Hch; etrans; [apply sublist_filter|done]).
  destruct expired; simpl.
  - destruct (_ || _); done.
  - apply elem_of_app. left. unfold make_room, evict_for_domain_limit.
    pose proof (domain_count_sublist (cookie_domain c) _ _ Hso).
    rewrite (proj2 (N.leb_gt MAX_COOKIES_PER_DOMAIN _)) by lia. apply sublist_length in Hso.
    by rewrite (proj2 (N.leb_gt MAX_COOKIES _)) by lia.
Qed.

Lemma same_overlays c d : same_cookie c d = true -> secure d = true -> overlays c d = true.
Proof.
  intros Hs%same_cookie_spec Hsec. injection Hs as Hn Hdom Hp _. unfold overlays.
  rewrite Hsec, Hn, Hdom, Hp, String.eqb_refl. unfold domain_matches, path_matches. by rewrite !String.eqb_refl.
Qed.

(** No eviction is due when a cookie for [domain] is stored. *)
Definition has_room st (domain : string) : Prop :=
  (domain_count domain (cookies st) < MAX_COOKIES_PER_DOMAIN)%N /\
  (N.of_nat (length (cookies st)) < MAX_COOKIES)%N.

(** C20. Script cannot reach an HttpOnly cookie, and an insecure address cannot
    reach a Secure one: a write through [document.cookie] leaves every live
    HttpOnly cookie in the jar as it was, and a write from an insecure address,
    by script or by a response, every live Secure cookie, unless the write
    finds the domain or the jar full and evicts the oldest cookie. *)
Theorem protected_cookies_survive st (now later : SystemTime) (url assignment set_cookie : string)
    (r : FetchRequest) d :
  d ∈ cookies st -> is_expired d later = false -> (forall domain, has_room st domain) ->
  (http_only d = true -> d ∈ cookies (set_document_cookie st now later url assignment).1) /\
  (secure d = true ->
     (forall u, ParsedUrl_parse url = Ok u -> is_secure_url u = false ->
        d ∈ cookies (set_document_cookie st now later url assignment).1) /\
     (forall u, FetchUrl_parsed (req_url r) = Some u -> is_secure_url u = false ->
        d ∈ cookies (store_response_cookie st now later r set_cookie).1)).
Proof.
  intros Hd Hexp Hroom.
  assert (Hinsecure : forall u a h c e, parse_cookie_internal u a h now = Some (c, e) ->
    is_secure_url u = false -> secure c = false).
  { intros u a h c e Hp Hu. apply parse_cookie_internal_sound in Hp as (_ & [_ Hs _ _] & _).
    destruct (secure c); [|done]. rewrite Hs in Hu by done. done. }
  split; [|intros Hsec; split].
  - intros Hh. unfold set_document_cookie, document_cookie, parse_cookie. destruct (ParsedUrl_parse url) as [u|]; [|done].
    destruct (parse_cookie_internal u assignment false now) as [[c e]|]; simpl; [|done].
    pose proof (store_cookie_keeps st later c d e false (is_secure_url u) Hd Hexp) as Hk.
    destruct (store_cookie _ _ _ _ _ _). apply Hk; [apply Hroom|apply (Hroom EmptyString)|]. by left.
  - intros u Hp0 Hu. unfold set_document_cookie, document_cookie, parse_cookie. rewrite Hp0.
    destruct (parse_cookie_internal u assignment false now) as [[c e]|] eqn:Hp; simpl; [|done].
    pose proof (store_cookie_keeps st later c d e false (is_secure_url u) Hd Hexp) as Hk.
    destruct (store_cookie _ _ _ _ _ _). apply Hk; [apply Hroom|apply (Hroom EmptyString)|]. intros Hs. right.
    split_and!; [by eapply Hinsecure|done|by apply same_overlays].
  - intros u Hp0 Hu. unfold store_response_cookie, response_cookie. rewrite Hp0. simpl.
    destruct (parse_cookie_internal u set_cookie true now) as [[c e]|] eqn:Hp; simpl; [|done].
    destruct (negb _); [done|].
    pose proof (store_cookie_keeps st later c d e true (is_secure_url u) Hd Hexp) as Hk.
    destruct (store_cookie _ _ _ _ _ _). apply Hk; [apply Hroom|apply (Hroom EmptyString)|]. intros Hs. right.
    split_and!; [by eapply Hinsecure|done|by apply same_overlays].
Qed.

(** ** The header *)
Definition add_pair (h : string) c : string :=
  (if String.eqb h EmptyString then h else h +:+ "; ") +:+ cookie_pair c.

Lemma byte_length_app (s t : string) : byte_length (s +:+ t) = (byte_length s + byte_length t)%N.
Proof. unfold byte_length. rewrite <- !length_bytes, bytes_app, length_app. lia. Qed.

Lemma add_pair_length (h : string) c :
  byte_length (add_pair h c) =
  (byte_length h + (if String.eqb h EmptyString then 0 else 2) + byte_length (cookie_pair c))%N.
Proof.
  unfold add_pair. rewrite byte_length_app. destruct (String.eqb_spec h EmptyString) as [->|]; [done|].
  rewrite byte_length_app. done.
Qed.

Lemma saturating_sum_gt (a b c m : N) :
  (m < u64_max)%N -> (m < saturating_add (saturating_add a b) c)%N <-> (m < a + b + c)%N.
Proof. unfold saturating_add. lia. Qed.

(** The loop stops in front of the first pair that does not fit. *)
Lemma push_pairs_prefix (h : string) (l : list StoredCookie) :
  (byte_length h <= MAX_COOKIE_HEADER_BYTES)%N ->
  exists k, push_pairs h l = foldl add_pair h (take k l) /\
    (byte_length (push_pairs h l) <= MAX_COOKIE_HEADER_BYTES)%N /\
    (k = length l \/
     k < length l /\ (MAX_COOKIE_HEADER_BYTES < byte_length (foldl add_pair h (take (S k) l)))%N).
Proof.
  revert h. induction l as [|c l IH]; intros h Hh; [by exists 0; auto|]. cbn [push_pairs].
  assert (Hadd : (if ((if String.eqb h EmptyString then 0 else 2) =? 0)%N then h else h +:+ "; ") +:+ cookie_pair c
                 = add_pair h c) by (unfold add_pair; by destruct (String.eqb h EmptyString)).
  rewrite Hadd. pose proof (add_pair_length h c) as Hlen.
  revert Hlen. generalize (if String.eqb h EmptyString then 0 else 2)%N. intros sep Hlen.
  destruct (N.ltb_spec MAX_COOKIE_HEADER_BYTES
    (saturating_add (saturating_add (byte_length h) sep) (byte_length (cookie_pair c)))) as [Hbig|Hfits%N.nlt_ge];
    rewrite saturating_sum_gt in * by done.
  - exists 0. split_and!; [done..|]. right. split; [simpl; lia|]. simpl. lia.
  - destruct (IH (add_pair h c)) as (k & Hk & Hle & Hmax).
    { lia. }
    exists (S k). split_and!; [done..|]. destruct Hmax as [->|[? ?]]; [by left|right]. split; [simpl; lia|done].
Qed.

Lemma foldl_add_pair_from (h : string) (l : list StoredCookie) :
  h <> EmptyString -> foldl add_pair h l = h +:+ foldr (fun c t => "; " +:+ cookie_pair c +:+ t) EmptyString l.
Proof.
  revert h. induction l as [|c l IH]; intros h Hh; simpl; [by rewrite string_app_empty|].
  rewrite IH; unfold add_pair; rewrite (proj2 (String.eqb_neq _ _)) by done.
  - by rewrite !string_app_assoc.
  - by destruct h.
Qed.

Lemma concat_pairs (c : StoredCookie) (l : list StoredCookie) :
  String.concat "; " (cookie_pair <$> c :: l) =
  cookie_pair c +:+ foldr (fun d t => "; " +:+ cookie_pair d +:+ t) EmptyString l.
Proof.
  revert c. induction l as [|d l IH]; intros c; simpl; [by rewrite string_app_empty|].
  specialize (IH d). simpl in IH. by rewrite <- IH.
Qed.

Lemma foldl_add_pair (l : list StoredCookie) :
  Forall (fun c => cookie_pair c <> EmptyString) l ->
  foldl add_pair EmptyString l = String.concat "; " (cookie_pair <$> l).
Proof.
  destruct l as [|c l]; [done|]. intros [Hc _]%Forall_cons.
  rewrite concat_pairs. simpl. unfold add_pair at 2. simpl. by rewrite foldl_add_pair_from.
Qed.

(** [header] lists the pairs of [l] in order, as many as fit in 64 KiB. *)
Definition lists_pairs (header : string) (l : list StoredCookie) : Prop :=
  exists k, header = String.concat "; " (cookie_pair <$> take k l) /\
    (byte_length header <= MAX_COOKIE_HEADER_BYTES)%N /\
    (k = length l \/
     k < length l /\ (MAX_COOKIE_HEADER_BYTES < byte_length (String.concat "; " (cookie_pair <$> take (S k) l)))%N).

Lemma cookie_pairs_lists (l : list StoredCookie) : Forall cookie_ok l -> lists_pairs (cookie_pairs l) l.
Proof.
  intros Hok. assert (Hne : forall k, Forall (fun c => cookie_pair c <> EmptyString) (take k l)).
  { intros k. apply Forall_take. apply (Forall_impl _ _ _ Hok). by intros c []. }
  destruct (push_pairs_prefix EmptyString l) as (k & Hk & Hle & Hmax); [done|].
  exists k. rewrite <- !foldl_add_pair by apply Hne. done.
Qed.

(** ** The order: longer paths first, then the older cookie *)
Definition before c d : Prop := header_before c d = true.

Lemma before_spec c d :
  before c d <-> (byte_length (cookie_path d) < byte_length (cookie_path c) \/
    byte_length (cookie_path d) = byte_length (cookie_path c) /\ creation c <= creation d)%N.
Proof.
  unfold before, header_before. rewrite orb_true_iff, andb_true_iff, N.ltb_lt, N.eqb_eq, N.leb_le. lia.
Qed.

Lemma insert_for_header_perm c (l : list StoredCookie) : insert_for_header c l ≡ₚ c :: l.
Proof.
  induction l as [|d l IH]; simpl; [done|]. destruct (header_before c d); [done|].
  rewrite IH. apply Permutation_swap.
Qed.

Lemma insert_for_header_sorted c (l : list StoredCookie) :
  StronglySorted before l -> StronglySorted before (insert_for_header c l).
Proof.
  induction l as [|d l IH]; intros Hs; simpl; [by repeat constructor|].
  apply StronglySorted_inv in Hs as [Hs Hd]. destruct (header_before c d) eqn:Hcd.
  - constructor; [by constructor|]. constructor; [done|]. apply (Forall_impl _ _ _ Hd).
    intros e. assert (before c d) as Hb by done. rewrite !before_spec in *. lia.
  - constructor; [by apply IH|]. rewrite insert_for_header_perm. constructor; [|done].
    assert (~ before c d) as Hb by (unfold before; congruence). rewrite before_spec in *. lia.
Qed.

Lemma sort_for_header_spec (l : list StoredCookie) :
  sort_for_header l ≡ₚ l /\ StronglySorted before (sort_for_header l).
Proof.
  induction l as [|c l [IH Hs]]; simpl; [split; [done|constructor]|].
  split; [by rewrite insert_for_header_perm, IH|by apply insert_for_header_sorted].
Qed.

(** ** Which cookies go where *)

(** The cookie [c] covers the address [u]: host, path on a segment boundary, and scheme. *)
Record covers c u : Prop := {
  cov_secure : secure c = true -> is_secure_url u = true;
  cov_host : let h := to_ascii_lowercase (host u) in
    if host_only c then h = cookie_domain c
    else public_suffix (cookie_domain c) = false /\
         (h = cookie_domain c \/ parses_to_ip h = false /\ exists x, h = x +:+ String "." (cookie_domain c));
  cov_path : let p := first_piece "?" (path_and_query u) in
    p = cookie_path c \/
    exists rest, p = cookie_path c +:+ rest /\
      (StrOps.ends_with "/" (cookie_path c) = true \/ exists t, rest = String "/" t)
}.

Lemma cookie_matches_spec c u : cookie_matches c u = true <-> covers c u.
Proof.
  unfold cookie_matches. destruct (secure c && negb (is_secure_url u)) eqn:Hs.
  { apply andb_true_iff in Hs as [Hc Hu%negb_true_iff]. split; [done|]. intros [H _ _]. rewrite H in Hu; done. }
  assert (Hsec : secure c = true -> is_secure_url u = true).
  { intros Hc. rewrite Hc in Hs. by destruct (is_secure_url u). }
  destruct (host_only c) eqn:Hho; simpl; rewrite ?orb_false_r.
  - destruct (String.eqb_spec (to_ascii_lowercase (host u)) (cookie_domain c)) as [Hh|Hh]; simpl.
    + rewrite path_matches_spec. split; [intros Hp; split; [done|by rewrite Hho|done]|by intros []].
    + split; [done|]. intros [_ Hhost _]. by rewrite Hho in Hhost.
  - destruct (public_suffix (cookie_domain c)) eqn:Hps; simpl.
    + split; [done|]. intros [_ Hhost _]. rewrite Hho in Hhost. destruct Hhost. congruence.
    + destruct (domain_matches _ _) eqn:Hd; simpl.
      * rewrite path_matches_spec. apply domain_matches_spec in Hd.
        split; [intros Hp; split; [done|by rewrite Hho|done]|by intros []].
      * split; [done|]. intros [_ Hhost _]. rewrite Hho in Hhost. destruct Hhost as [_ Hhost].
        apply domain_matches_spec in Hhost. congruence.
Qed.

(** The SameSite rules: a request from another site carries only
    [SameSite=None] cookies, and lax ones when it is a safe navigation. *)
Definition same_site_permits c (r : FetchRequest) : Prop :=
  same_site c = SameSiteNone \/ req_origin r = None \/ request_is_same_site r = true \/
  same_site c <> Strict /\ context r = Navigation /\ method r ∈ ["GET"; "HEAD"; "OPTIONS"].

Lemma same_site_allows_request_spec c (r : FetchRequest) :
  same_site_allows_request c r = true <-> same_site_permits c r.
Proof.
  unfold same_site_allows_request, same_site_permits.
  destruct (decide (same_site c = SameSiteNone)) as [Hn|Hn]; [rewrite bool_decide_eq_true_2 by done; naive_solver|].
  rewrite (bool_decide_eq_false_2 _ Hn). simpl.
  destruct (decide (req_origin r = None)) as [Ho|Ho]; [rewrite bool_decide_eq_true_2 by done; naive_solver|].
  rewrite (bool_decide_eq_false_2 _ Ho). destruct (request_is_same_site r); [naive_solver|].
  rewrite !andb_true_iff, orb_true_iff, !bool_decide_eq_true, string_in_spec.
  destruct (same_site c); naive_solver.
Qed.

(** C11. The [Cookie] header of a request carries exactly the cookies it should:
    the live ones that cover its address and that the SameSite rules permit,
    longer paths first and then older first, joined by semicolons, as many as
    fit in 64 KiB. *)
Theorem request_header_exact st (now : SystemTime) (r : FetchRequest) u :
  jar_ok st -> FetchUrl_parsed (req_url r) = Some u ->
  exists sent,
    (forall c, c ∈ sent <->
       c ∈ cookies st /\ is_expired c now = false /\ covers c u /\ same_site_permits c r) /\
    NoDup (identity <$> sent) /\ StronglySorted before sent /\
    exists header, lists_pairs header sent /\
      (request_header st now r).2.1 = if String.eqb header EmptyString then None else Some header.
Proof.
  intros Hst Hu. pose proof (purge_expired_ok st now Hst) as Hp.
  pose proof (proj1 (purge_expired_cookies st now)) as Hc. unfold request_header. rewrite Hu.
  destruct (purge_expired st now) as [st1 changed]. simpl in Hp, Hc.
  exists (sent_cookies st1 r u). unfold sent_cookies. set (l := filter _ (cookies st1)).
  destruct (sort_for_header_spec l) as [Hperm Hsorted].
  assert (Hl : l `sublist_of` cookies st1) by apply sublist_filter.
  split_and!; [|..|done|].
  - intros c. rewrite Hperm. unfold l. rewrite list_elem_of_filter, Hc, list_elem_of_filter.
    rewrite !Is_true_true, andb_true_iff, cookie_matches_spec, same_site_allows_request_spec, negb_true_iff.
    naive_solver.
  - rewrite Hperm. apply (sublist_NoDup _ (identity <$> cookies st1)); [apply Hp|by apply fmap_sublist].
  - eexists. split; [|done]. apply cookie_pairs_lists. rewrite Hperm. apply Forall_forall. intros c Hin.
    pose proof (jar_cookies _ Hp) as Hok. rewrite Forall_forall in Hok. apply Hok. by eapply elem_of_sublist.
Qed.

(** Script reads exactly the live cookies that cover the document's
    address and are not HttpOnly, in the same order and under the same bound. *)
Theorem document_snapshot_exact st (now : SystemTime) (url : string) u :
  jar_ok st -> ParsedUrl_parse url = Ok u ->
  exists read,
    (forall c, c ∈ read <->
       c ∈ cookies st /\ is_expired c now = false /\ covers c u /\ http_only c = false) /\
    StronglySorted before read /\
    exists snapshot changed, (document_snapshot st now url).2 = Ok (snapshot, changed) /\
      lists_pairs (snapshot_header snapshot) read.
Proof.
  intros Hst Hu. pose proof (purge_expired_ok st now Hst) as Hp.
  pose proof (proj1 (purge_expired_cookies st now)) as Hc. unfold document_snapshot. rewrite Hu.
  destruct (purge_expired st now) as [st1 changed]. simpl in Hp, Hc.
  exists (script_cookies st1 u). unfold script_cookies. set (l := filter _ (cookies st1)).
  destruct (sort_for_header_spec l) as [Hperm Hsorted].
  assert (Hl : l `sublist_of` cookies st1) by apply sublist_filter.
  split_and!; [|done|].
  - intros c. rewrite Hperm. unfold l. rewrite list_elem_of_filter, Hc, list_elem_of_filter.
    rewrite !Is_true_true, andb_true_iff, cookie_matches_spec, !negb_true_iff. naive_solver.
  - eexists _, changed. split; [done|]. apply cookie_pairs_lists. rewrite Hperm. apply Forall_forall. intros c Hin.
    pose proof (jar_cookies _ Hp) as Hok. rewrite Forall_forall in Hok. apply Hok. by eapply elem_of_sublist.
Qed.

(** A cookie stays where it was set: whatever assignment the address [u]
    makes, an address [v] that the resulting cookie covers has the same host, or
    both hosts lie in one domain that is not a public suffix; the cookie is
    Secure only when [u] is, HttpOnly only when it came from a response, and
    ends within 400 days. *)
Theorem cookie_confined u (assignment : string) (from_http : bool) (now : SystemTime) c (expired : bool) :
  parse_cookie_internal u assignment from_http now = Some (c, expired) ->
  (forall v, cookie_matches c v = true ->
     to_ascii_lowercase (host v) = to_ascii_lowercase (host u) \/
     exists domain, public_suffix domain = false /\
       within (to_ascii_lowercase (host u)) domain /\ within (to_ascii_lowercase (host v)) domain) /\
  (secure c = true -> is_secure_url u = true) /\
  (http_only c = true -> from_http = true) /\
  (forall e, expires_at c = Some e -> (e <= Z.max now UNIX_EPOCH + Z.of_N MAX_PERSISTENT_AGE)%Z).
Proof.
  intros (_ & [Hd Hs Hh He] & _)%parse_cookie_internal_sound. split_and!; try done.
  intros v [_ Hv _]%cookie_matches_spec. destruct (host_only c); [left; congruence|right].
  destruct Hv as [Hps Hv]. apply domain_matches_spec in Hd. exists (cookie_domain c).
  unfold within. naive_solver.
Qed.
End theory.

(** ** Runs *)
Lemma domain_count_le (domain : string) (l : list StoredCookie) :
  (domain_count domain l <= N.of_nat (length l))%N.
Proof. unfold domain_count. pose proof (sublist_length _ _ (sublist_filter (fun c => in_domain domain c) l)). lia. Qed.

Lemma small_jar_has_room {SUFFIXES : PublicSuffixes} {CALENDAR : Calendar} (st : CookieState) :
  (N.of_nat (length (cookies st)) < MAX_COOKIES_PER_DOMAIN)%N -> forall domain, has_room st domain.
Proof.
  intros Hl domain. pose proof (domain_count_le domain (cookies st)).
  split; unfold MAX_COOKIES_PER_DOMAIN, MAX_COOKIES in *; lia.
Qed.

(** The request of a document at [url], from nowhere or from [initiator]. *)
Definition demo_request (url : string) (initiator : option string) (c : RequestContext) : option FetchRequest :=
  match navigation 1 url, match initiator with
                          | Some i => match Origin_parse 1 i with Ok (o, _) => Some (Some o) | Err _ => None end
                          | None => Some None
                          end with
  | Ok (r, _), Some o =>
      Some (mkFetchRequest (policy r) (client r) (resulting_client r) (embedding_client r) (req_url r)
              (method r) (headers r) (body r) (keepalive r) c (destination r) (script_source r) (mode r)
              (user_activation r) (credentials r) (cache r) (redirect r) o (referrer r) (referrer_policy r)
              (signal r) (response_body_limit r))
  | _, _ => None
  end.

Definition or_default (o : option FetchRequest) : FetchRequest :=
  default (mkFetchRequest [] RequestClient_default RequestClient_default RequestClient_default
             (mkFetchUrl "" DataUrl (Opaque 0)) "GET" [] None false Navigation Document None Navigate false Omit
             DefaultCache Follow None NoReferrer NoReferrerPolicy FetchSignal_default 0) o.

(** A site sets a session cookie, a preference and a strict one, and script tries to overwrite the first. *)
Definition site_request : FetchRequest := or_default (demo_request "https://shop.test/cart" None Navigation).
Definition demo_ops : list jar_op :=
  [OpResponse 0 0 site_request "session=secret; Secure; HttpOnly; Path=/";
   OpResponse 1 1 site_request "theme=dark; Max-Age=60; Domain=shop.test";
   OpResponse 2 2 site_request "csrf=1; SameSite=Strict; Path=/cart; Secure";
   OpDocument 3 3 "https://shop.test/" "session=stolen; Path=/; Secure"].
Definition demo_jar : CookieState := foldl run_jar_op CookieState_default demo_ops.

Definition sent_by (r : FetchRequest) : option string := (request_header demo_jar 4 r).2.1.

Example demo_headers :
  cookie_pair <$> cookies demo_jar = ["session=secret"; "theme=dark"; "csrf=1"] /\
  sent_by (or_default (demo_request "https://shop.test/cart/pay" (Some "https://shop.test/") Subresource))
    = Some "csrf=1; session=secret; theme=dark" /\
  sent_by (or_default (demo_request "https://shop.test/cart" (Some "https://evil.test/") Navigation))
    = Some "session=secret; theme=dark" /\
  sent_by (or_default (demo_request "https://shop.test/cart" (Some "https://evil.test/") Subresource)) = None /\
  sent_by (or_default (demo_request "http://www.shop.test/" None Navigation)) = Some "theme=dark" /\
  (snapshot_header ∘ fst <$> (document_snapshot demo_jar 4 "https://shop.test/cart").2) = Ok "csrf=1; theme=dark".
Proof. split_and!; vm_refl. Qed.

Lemma demo_jar_ok : jar_ok demo_jar.
Proof. apply run_jar_ops_ok; [apply default_jar_ok|done]. Qed.

Lemma jar_stays_valid_witness :
  (1 + N.of_nat (length demo_ops) < u64_max)%N /\ jar_ok (foldl run_jar_op CookieState_default demo_ops).
Proof.
  assert (Hlen : (1 + N.of_nat (length demo_ops) < u64_max)%N) by done.
  exact (conj Hlen (jar_stays_valid demo_ops Hlen)).
Defined.

Definition session_cookie : StoredCookie :=
  mkCookie "session" "secret" "shop.test" "/" true true true SameSiteDefault None 1.

(** Neither the document nor an insecure response gets at the session cookie. *)
Lemma protected_cookies_survive_witness :
  session_cookie ∈ cookies (set_document_cookie demo_jar 5 5 "https://shop.test/" "session=; Max-Age=0; Path=/").1 /\
  session_cookie ∈ cookies (store_response_cookie demo_jar 5 5
     (or_default (demo_request "http://shop.test/" None Navigation)) "session=stolen; Path=/").1.
Proof.
  destruct (protected_cookies_survive demo_jar 5 5 "https://shop.test/" "session=; Max-Age=0; Path=/"
              "session=stolen; Path=/" (or_default (demo_request "http://shop.test/" None Navigation))
              session_cookie) as [Hhttp Hsecure].
  - apply (bool_decide_eq_true_1 (session_cookie ∈ cookies demo_jar)). vm_refl.
  - vm_refl.
  - apply small_jar_has_room. vm_compute. reflexivity.
  - split; [apply Hhttp; reflexivity|]. destruct (Hsecure eq_refl) as [_ Hresponse].
    apply (Hresponse (mkParsedUrl "http" "shop.test" 80 "/")); vm_refl.
Defined.

Lemma request_header_exact_witness :
  exists sent, NoDup (identity <$> sent) /\ StronglySorted before sent /\
    exists header, lists_pairs header sent /\
      (request_header demo_jar 4 site_request).2.1 = if String.eqb header EmptyString then None else Some header.
Proof.
  destruct (request_header_exact demo_jar 4 site_request (mkParsedUrl "https" "shop.test" 443 "/cart"))
    as (sent & _ & Hn & Hs & Hh); [apply demo_jar_ok|vm_refl|].
  exists sent. exact (conj Hn (conj Hs Hh)).
Defined.

Lemma document_snapshot_exact_witness :
  exists read snapshot changed, StronglySorted before read /\ lists_pairs (snapshot_header snapshot) read /\
    (document_snapshot demo_jar 4 "https://shop.test/cart").2 = Ok (snapshot, changed).
Proof.
  destruct (document_snapshot_exact demo_jar 4 "https://shop.test/cart" (mkParsedUrl "https" "shop.test" 443 "/cart"))
    as (read & _ & Hs & snapshot & changed & Hsnap & Hl); [apply demo_jar_ok|vm_refl|].
  exists read, snapshot, changed. exact (conj Hs (conj Hl Hsnap)).
Defined.

Lemma cookie_confined_witness :
  let u := mkParsedUrl "https" "shop.test" 443 "/cart" in
  exists c, parse_cookie_internal u "theme=dark; Max-Age=60; Domain=shop.test" true 1 = Some (c, false) /\
    (cookie_matches c (mkParsedUrl "https" "www.shop.test" 443 "/cart") = true) /\
    exists domain, public_suffix domain = false /\ within "shop.test" domain /\ within "www.shop.test" domain.
Proof.
  exists (mkCookie "theme" "dark" "shop.test" "/" false false false SameSiteDefault (Some 60000000001%Z) 0).
  split; [vm_refl|]. split; [vm_refl|].
  destruct (cookie_confined (mkParsedUrl "https" "shop.test" 443 "/cart") "theme=dark; Max-Age=60; Domain=shop.test"
              true 1 (mkCookie "theme" "dark" "shop.test" "/" false false false SameSiteDefault
                        (Some 60000000001%Z) 0) false) as [Hv _]; [vm_refl|].
  destruct (Hv (mkParsedUrl "https" "www.shop.test" 443 "/cart")) as [Hh|(d & Hp & Hu & Hw)]; [vm_refl|..].
  - by vm_compute in Hh.
  - by exists d.
Defined.
