(* ===== verification/HttpCache.v ===== *)
(** * HttpCache: the private HTTP cache (src/winhttp/pipeline/cache.rs, cache/prefetch.rs)

    Completed GET responses, partitioned by the request's context, origin,
    credentials and cookies, and further by the fields named in [Vary]; at most
    64 entries and 24 MiB, the oldest leaving first. An [Instant] is a number of
    nanoseconds; a function that reads a clock takes the reading as an argument. *)

From Stdlib Require Import ZArith Strings.Byte.
From S2P Require Import Prelude Text StrOps Limits Clock Origins Headers CspSources Csp FetchRequest SimpleInstances.

Notation Instant := N (only parsing).

Definition MAX_ENTRIES : N := 64.
Definition MAX_ENTRY_BYTES : N := 2 * 1024 * 1024.
Definition MAX_TOTAL_BYTES : N := 24 * 1024 * 1024.

(** [Instant::elapsed], which saturates at zero. *)
Definition elapsed (since now : Instant) : Duration := (now - since)%N.

Record Partition := mkPartition {
  pt_url : string;
  pt_origin : option string;
  pt_context : RequestContext;
  pt_destination : RequestDestination;
  pt_mode : RequestMode;
  pt_credentials : CredentialsMode;
  pt_cookie : option string;
  pt_prefetch_referrer : option string
}.
#[global] Instance Partition_eq_dec : EqDecision Partition.
Proof. solve_decision. Defined.

Record CachedResponse := mkCachedResponse {
  partition : Partition;
  vary : list string;
  request_headers : HeaderList;
  cr_status : N;
  cr_headers : HeaderList;
  cr_body : list byte;
  stored_at : Instant;
  initial_age : Duration;
  freshness_lifetime : Duration;
  no_cache : bool;
  must_revalidate : bool
}.

(** ** Cache-Control *)
Definition cache_parts (hs : HeaderList) : list string := header_values hs "cache-control" ≫= split_on ",".

Definition has_directive (hs : HeaderList) (name : string) : bool :=
  existsb (fun part => eq_ignore_ascii_case (trim (first_piece "=" (trim part))) name) (cache_parts hs).

Fixpoint find_seconds (name : string) (parts : list string) : option N :=
  match parts with
  | [] => None
  | part :: parts =>
      match split_once "=" (trim part) with
      | Some (token, value) =>
          if eq_ignore_ascii_case (trim token) name
          then parse_unsigned u64_max (trim_matches (fun c => c =? 34)%N (trim value))
          else find_seconds name parts
      | None => find_seconds name parts
      end
  end.
Definition directive_seconds (hs : HeaderList) (name : string) : option N := find_seconds name (cache_parts hs).

Definition is_vary_byte (b : N) : bool := is_ascii_alphanumeric b || (b =? 45)%N.

Fixpoint push_vary (fields parts : list string) : option (list string) :=
  match parts with
  | [] => Some fields
  | field :: parts =>
      if String.eqb field "*" then None
      else if String.eqb field EmptyString || negb (forallb is_vary_byte (bytes field)) then None
      else
        let field := to_ascii_lowercase field in
        push_vary (if string_in field fields then fields else fields ++ [field]) parts
  end.
Definition vary_fields (hs : HeaderList) : option (list string) :=
  push_vary [] (trim <$> (header_values hs "vary" ≫= split_on ",")).

Section cache.
Context {URL : UrlLib} {CALENDAR : Calendar}.

Definition Partition_new (r : FetchRequest) (outbound : HeaderList) : Partition :=
  mkPartition (serialized (req_url r)) (Origin_serialize <$> req_origin r) (context r) (destination r) (mode r)
    (credentials r) (header_get outbound "cookie")
    (if bool_decide (context r = Prefetch) then Some (default EmptyString (header_get outbound "referer")) else None).

Definition vary_matches (e : CachedResponse) (outbound : HeaderList) : bool :=
  forallb (fun name => bool_decide (header_values (request_headers e) name = header_values outbound name)) (vary e).
Definition matches (e : CachedResponse) (p : Partition) (outbound : HeaderList) : bool :=
  bool_decide (partition e = p) && vary_matches e outbound.

Definition age (e : CachedResponse) (now : Instant) : Duration :=
  duration_saturating_add (initial_age e) (elapsed (stored_at e) now).
Definition fresh (e : CachedResponse) (now : Instant) : bool :=
  negb (no_cache e) && (age e now <? freshness_lifetime e)%N.
Definition can_serve_stale (e : CachedResponse) : bool := negb (no_cache e) && negb (must_revalidate e).
Definition response_headers (e : CachedResponse) (now : Instant) : HeaderList :=
  (header_set (cr_headers e) "age" (pretty (as_secs (age e now)))).1.

Definition add_validator (e : CachedResponse) (hs : HeaderList) : HeaderList :=
  if header_contains hs "if-none-match" || header_contains hs "if-modified-since" then hs
  else match header_get (cr_headers e) "etag", header_get (cr_headers e) "last-modified" with
       | Some etag, _ => (header_set hs "if-none-match" etag).1
       | None, Some modified => (header_set hs "if-modified-since" modified).1
       | None, None => hs
       end.
Definition has_validator (e : CachedResponse) : bool :=
  header_contains (cr_headers e) "etag" || header_contains (cr_headers e) "last-modified".

(** ** Freshness *)
Record CachePolicy := mkCachePolicy {
  cp_freshness_lifetime : Duration;
  cp_initial_age : Duration;
  cp_no_cache : bool;
  cp_must_revalidate : bool
}.

Definition parse_http_date (value : string) : option SystemTime :=
  timestamp ← parse_rfc2822 value; from_unix_timestamp timestamp.

Definition header_date (hs : HeaderList) (name : string) : option SystemTime :=
  value ← header_get hs name; parse_http_date value.

Definition for_response (hs : HeaderList) (received_at : SystemTime) : option CachePolicy :=
  if has_directive hs "no-store" then None
  else
    let date := header_date hs "date" in
    let lifetime :=
      match directive_seconds hs "max-age" with
      | Some seconds => from_secs seconds
      | None =>
          match header_date hs "expires" with
          | Some expires => default 0%N (duration_since expires (default received_at date))
          | None => 0%N
          end
      end in
    if (lifetime =? 0)%N && negb (header_contains hs "etag") && negb (header_contains hs "last-modified")
    then None
    else
      let apparent_age := default 0%N (date ≫= duration_since received_at) in
      let age := from_option from_secs 0%N (value ← header_get hs "age"; parse_unsigned u64_max value) in
      Some (mkCachePolicy lifetime (N.max apparent_age age) (has_directive hs "no-cache")
              (has_directive hs "must-revalidate")).

(** The loop of [revalidated] over the fields of the 304. *)
Fixpoint replace_fields (hs : HeaderList) (fields : HeaderList) : option HeaderList :=
  match fields with
  | [] => Some hs
  | f :: fields =>
      if string_in (header_name f) ["content-length"; "transfer-encoding"; "set-cookie"]
      then replace_fields hs fields
      else match header_set hs (header_name f) (header_value f) with
           | (hs, Ok _) => replace_fields hs fields
           | (_, Err _) => None
           end
  end.

Definition revalidated (e : CachedResponse) (hs : HeaderList) (received_at : SystemTime) (now : Instant)
  : option CachedResponse :=
  updated ← replace_fields (cr_headers e) hs;
  policy ← for_response updated received_at;
  Some (mkCachedResponse (partition e) (vary e) (request_headers e) (cr_status e) updated (cr_body e) now
          (cp_initial_age policy) (cp_freshness_lifetime policy) (cp_no_cache policy) (cp_must_revalidate policy)).

(** ** cache/prefetch.rs *)
Definition matches_prefetch_consumer (e : CachedResponse) (r : FetchRequest) (outbound : HeaderList) : bool :=
  let prior := partition e in
  let same_origin := match req_origin r with
                     | Some o => is_same_origin o (url_origin (req_url r))
                     | None => false
                     end in
  let credentials_match :=
    bool_decide (pt_credentials prior = credentials r)
    || same_origin && bool_decide (pt_credentials prior = Include)
       && bool_decide (credentials r = SameOriginCredentials) in
  bool_decide (pt_context prior = Prefetch)
  && String.eqb (pt_url prior) (serialized (req_url r))
  && bool_decide (pt_origin prior = Origin_serialize <$> req_origin r)
  && credentials_match
  && bool_decide (pt_cookie prior = header_get outbound "cookie")
  && bool_decide (header_get (request_headers e) "referer" = header_get outbound "referer")
  && bool_decide (header_get (request_headers e) "origin" = header_get outbound "origin")
  && vary_matches e outbound
  && match context r with
     | Navigation => bool_decide (pt_mode prior = NoCors) && bool_decide (mode r = Navigate) && same_origin
     | Subresource => bool_decide (pt_mode prior = mode r)
     | _ => false
     end.

(** ** The cache: oldest entry first *)
Record ResponseCache := mkResponseCache { entries : list CachedResponse; cache_bytes : N }.
Definition ResponseCache_default : ResponseCache := mkResponseCache [] 0.

Definition lookup_cache (c : ResponseCache) (r : FetchRequest) (outbound : HeaderList) : option CachedResponse :=
  let p := Partition_new r outbound in
  match find (fun e => matches e p outbound) (rev (entries c)) with
  | Some e => Some e
  | None => find (fun e => matches_prefetch_consumer e r outbound) (rev (entries c))
  end.

Definition body_size (e : CachedResponse) : N := N.of_nat (length (cr_body e)).

(** Replaced by [response]: the same variant, or an older [Vary] policy. *)
Definition superseded (response e : CachedResponse) : bool :=
  bool_decide (partition e = partition response)
  && (negb (bool_decide (vary e = vary response))
      || matches e (partition response) (request_headers response)).

(** The first loop of [insert]. *)
Fixpoint drop_superseded (response : CachedResponse) (l : list CachedResponse) (total : N)
  : list CachedResponse * N :=
  match l with
  | [] => ([], total)
  | e :: l =>
      if superseded response e then drop_superseded response l (total - body_size e)%N
      else let '(kept, total) := drop_superseded response l total in (e :: kept, total)
  end.

(** The second loop, which would not end on an empty cache of too many bytes:
    [None] when the fuel runs out. *)
Fixpoint evict (fuel : nat) (l : list CachedResponse) (total : N) : option (list CachedResponse * N) :=
  match fuel with
  | O => None
  | S fuel =>
      if (MAX_ENTRIES <? N.of_nat (length l))%N || (MAX_TOTAL_BYTES <? total)%N then
        match l with
        | oldest :: l => evict fuel l (total - body_size oldest)%N
        | [] => evict fuel [] total
        end
      else Some (l, total)
  end.

Definition insert_response (c : ResponseCache) (response : CachedResponse) : option ResponseCache :=
  if (MAX_ENTRY_BYTES <? body_size response)%N then Some c
  else
    let '(kept, total) := drop_superseded response (entries c) (cache_bytes c) in
    '(l, total) ← evict (length kept + 2) (kept ++ [response]) (total + body_size response)%N;
    Some (mkResponseCache l total).

(** ** Which exchanges take part *)
Definition cacheable_request (r : FetchRequest) (outbound : HeaderList) : bool :=
  String.eqb (method r) "GET"
  && bool_decide (body r = None)
  && negb (bool_decide (cache r = NoStore))
  && negb (header_contains outbound "authorization")
  && negb (header_contains outbound "range")
  && negb (header_contains (headers r) "if-none-match")
  && negb (header_contains (headers r) "if-modified-since")
  && negb (has_directive (headers r) "no-store").

Definition request_forces_validation (r : FetchRequest) : bool :=
  has_directive (headers r) "no-cache"
  || bool_decide (directive_seconds (headers r) "max-age" = Some 0%N)
  || match header_get (headers r) "pragma" with
     | Some value => existsb (fun token => eq_ignore_ascii_case (trim token) "no-cache") (split_on "," value)
     | None => false
     end.

Record CacheCandidate := mkCandidate { cand_response : CachedResponse; permitted : bool }.

(** [requested_for] is [requested_at.elapsed()] and [now] the last reading. *)
Definition CacheCandidate_new (r : FetchRequest) (outbound : HeaderList) (status : N) (hs : HeaderList)
    (requested_for : Duration) (received_at : SystemTime) (now : Instant) : option CacheCandidate :=
  if bool_decide (cache r = NoStore) || negb (status =? 200)%N || header_contains hs "set-cookie"
     || header_contains hs "content-range" || negb (cacheable_request r outbound)
  then None
  else
    vary ← vary_fields hs;
    policy ← for_response hs received_at;
    Some (mkCandidate
            (mkCachedResponse (Partition_new r outbound) vary outbound status hs [] now
               (duration_saturating_add (cp_initial_age policy) requested_for)
               (cp_freshness_lifetime policy) (cp_no_cache policy) (cp_must_revalidate policy)) true).

Definition with_body (e : CachedResponse) (b : list byte) : CachedResponse :=
  mkCachedResponse (partition e) (vary e) (request_headers e) (cr_status e) (cr_headers e) b (stored_at e)
    (initial_age e) (freshness_lifetime e) (no_cache e) (must_revalidate e).

Definition candidate_push (c : CacheCandidate) (chunk : list byte) : CacheCandidate :=
  let e := cand_response c in
  if negb (permitted c) then c
  else if (MAX_ENTRY_BYTES - body_size e <? N.of_nat (length chunk))%N
  then mkCandidate (with_body e []) false
  else mkCandidate (with_body e (cr_body e ++ chunk)) true.

Definition candidate_finish (cache : ResponseCache) (c : CacheCandidate) : option ResponseCache :=
  if permitted c then insert_response cache (cand_response c) else Some cache.
End cache.

(** * Theory *)
Section theory.
Context {URL : UrlLib} {CALENDAR : Calendar}.
Implicit Types (c : ResponseCache) (e : CachedResponse) (r : FetchRequest) (outbound : HeaderList).

(** ** Budgets *)
Definition total_size (l : list CachedResponse) : N := sum_by body_size l.
Definition within_budget (l : list CachedResponse) : Prop :=
  (N.of_nat (length l) <= MAX_ENTRIES)%N /\ (total_size l <= MAX_TOTAL_BYTES)%N.

Record cache_ok c : Prop := {
  cache_counts : cache_bytes c = total_size (entries c);
  cache_fits : within_budget (entries c);
  cache_small : Forall (fun e => body_size e <= MAX_ENTRY_BYTES)%N (entries c)
}.

Definition survivors (response : CachedResponse) (l : list CachedResponse) : list CachedResponse :=
  filter (fun e => negb (superseded response e)) l.

Lemma drop_superseded_spec (response : CachedResponse) (l : list CachedResponse) (rest : N) :
  drop_superseded response l (rest + total_size l) =
  (survivors response l, (rest + total_size (survivors response l))%N).
Proof.
  revert rest. induction l as [|e l IH]; intros rest; [done|]. simpl. unfold survivors. rewrite filter_cons.
  destruct (superseded response e) eqn:Hs; simpl.
  - replace (rest + (body_size e + total_size l) - body_size e)%N with (rest + total_size l)%N by lia. apply IH.
  - rewrite N.add_assoc, IH. unfold survivors. simpl. f_equal. unfold total_size. simpl. lia.
Qed.

(** The second loop drops the shortest prefix that brings the rest within the
    budgets; fuel for one turn more than there are entries is enough. *)
Lemma evict_spec (fuel : nat) (l : list CachedResponse) :
  length l < fuel ->
  exists n, evict fuel l (total_size l) = Some (drop n l, total_size (drop n l)) /\
    within_budget (drop n l) /\ (forall m, m < n -> ~ within_budget (drop m l)).
Proof.
  revert l. induction fuel as [|fuel IH]; intros l Hl; [lia|]. simpl. destruct (_ || _) eqn:Hover.
  - assert (Hnot : ~ within_budget l).
    { intros [Hc Ht]. apply orb_true_iff in Hover as [Ho%N.ltb_lt|Ho%N.ltb_lt]; lia. }
    destruct l as [|e l]; [exfalso; apply Hnot; done|]. simpl in Hl.
    destruct (IH l) as (n & He & Hb & Hmin); [lia|]. exists (S n).
    unfold total_size at 1. simpl. replace (body_size e + sum_by body_size l - body_size e)%N with (total_size l)
      by (unfold total_size; lia).
    split_and!; [done|done|]. intros [|m] Hm; [done|]. apply Hmin. lia.
  - apply orb_false_iff in Hover as [Hc%N.ltb_ge Ht%N.ltb_ge]. exists 0. split_and!; [done..|]. intros m Hm. lia.
Qed.

(** What [insert] leaves: the entry itself, after those that stay. *)
Lemma insert_response_spec c e :
  cache_ok c -> (body_size e <= MAX_ENTRY_BYTES)%N ->
  exists kept, insert_response c e = Some (mkResponseCache (kept ++ [e]) (total_size (kept ++ [e]))) /\
    kept `sublist_of` survivors e (entries c) /\ within_budget (kept ++ [e]).
Proof.
  intros [Hc _ _] He. unfold insert_response. rewrite (proj2 (N.ltb_ge _ _)) by done.
  pose proof (drop_superseded_spec e (entries c) 0) as Hd. rewrite !N.add_0_l, <- Hc in Hd. rewrite Hd.
  set (k := survivors e (entries c)).
  assert (Ht : (total_size k + body_size e)%N = total_size (k ++ [e])).
  { unfold total_size. rewrite sum_by_app. simpl. lia. }
  rewrite Ht. destruct (evict_spec (length k + 2) (k ++ [e])) as (n & Hev & Hb & Hmin).
  { rewrite length_app. simpl. lia. }
  assert (Hn : n <= length k).
  { destruct (decide (n <= length k)) as [|Hgt]; [done|]. exfalso. apply (Hmin (length k)); [lia|].
    rewrite drop_app_length. split; [done|]. unfold total_size. simpl.
    unfold MAX_ENTRY_BYTES, MAX_TOTAL_BYTES in *. lia. }
  exists (drop n k). rewrite Hev. simpl.
  assert (drop n (k ++ [e]) = drop n k ++ [e]) as Hdrop by (by rewrite drop_app_le).
  rewrite Hdrop in *. split_and!; [done|apply sublist_drop|done].
Qed.

Lemma insert_response_ok c e :
  cache_ok c -> exists c', insert_response c e = Some c' /\ cache_ok c'.
Proof.
  intros Hc. destruct (N.le_gt_cases (body_size e) MAX_ENTRY_BYTES) as [He|He].
  - destruct (insert_response_spec c e Hc He) as (kept & -> & Hs & Hb). eexists. split; [done|].
    split; [done|done|]. simpl. apply Forall_app. split; [|by constructor].
    apply Forall_forall. intros d Hd. eapply elem_of_sublist in Hd; [|exact Hs].
    apply list_elem_of_filter in Hd as [_ Hd]. pose proof (cache_small _ Hc) as Hall.
    rewrite Forall_forall in Hall. by apply Hall.
  - exists c. split; [|done]. unfold insert_response. by rewrite (proj2 (N.ltb_lt _ _)).
Qed.

(** Every insertion a run of the browser makes. *)
Definition insert_all (l : list CachedResponse) : option ResponseCache :=
  foldl (fun (oc : option ResponseCache) e => c ← oc; insert_response c e) (Some ResponseCache_default) l.

(** C32. The cache stays within its budgets, and its eviction loop ends: after
    any insertions there are at most 64 entries of at most 2 MiB each and 24 MiB
    together, the running total is the sum of the bodies, and the loop always
    has what it needs to reach that. *)
Theorem cache_within_budgets (l : list CachedResponse) :
  exists c, insert_all l = Some c /\ cache_ok c.
Proof.
  unfold insert_all. assert (Hstart : exists c, Some ResponseCache_default = Some c /\ cache_ok c).
  { eexists. split; [done|]. repeat split; [..|constructor]; done. }
  revert Hstart. generalize (Some ResponseCache_default). induction l as [|e l IH]; intros start Hstart; [done|].
  simpl. apply IH. destruct Hstart as (c & -> & Hc). simpl. by apply insert_response_ok.
Qed.

(** ** Reuse *)
Lemma find_rev_elem (p : CachedResponse -> bool) (l : list CachedResponse) e :
  find p (rev l) = Some e -> e ∈ l /\ p e = true.
Proof.
  intros [Hin Hp]%find_some. split; [|done]. apply list_elem_of_In. by apply in_rev.
Qed.

(** A stored response is looked up by the next request of its partition
    that agrees on the fields it varies by, in front of every older one. *)
Theorem inserted_response_is_found c e r outbound :
  cache_ok c -> (body_size e <= MAX_ENTRY_BYTES)%N -> partition e = Partition_new r outbound ->
  vary_matches e outbound = true ->
  exists c', insert_response c e = Some c' /\ lookup_cache c' r outbound = Some e.
Proof.
  intros Hc He Hp Hv. destruct (insert_response_spec c e Hc He) as (kept & -> & _ & _).
  eexists. split; [done|]. unfold lookup_cache. simpl. rewrite rev_app_distr. simpl.
  unfold matches at 1. by rewrite bool_decide_eq_true_2, Hv by done.
Qed.

(** [r] is a request to its own origin, where including credentials and the
    same-origin default send the same ones. *)
Definition own_origin r : Prop := req_origin r = Some (url_origin (req_url r)).

(** The stored exchange had the address, client, cookies and credentials of this
    one, and agreed with it on what the response varies by. *)
Record same_authority e r outbound : Prop := {
  au_url : pt_url (partition e) = serialized (req_url r);
  au_origin : pt_origin (partition e) = Origin_serialize <$> req_origin r;
  au_cookie : pt_cookie (partition e) = header_get outbound "cookie";
  au_credentials : pt_credentials (partition e) = credentials r \/
    own_origin r /\ pt_credentials (partition e) = Include /\ credentials r = SameOriginCredentials;
  au_vary : forall name, name ∈ vary e -> header_values (request_headers e) name = header_values outbound name
}.

Lemma vary_matches_spec e outbound :
  vary_matches e outbound = true <->
  forall name, name ∈ vary e -> header_values (request_headers e) name = header_values outbound name.
Proof.
  unfold vary_matches. rewrite forallb_forall. setoid_rewrite <- list_elem_of_In.
  by setoid_rewrite bool_decide_eq_true.
Qed.

Lemma prefetch_consumer_spec e r outbound :
  matches_prefetch_consumer e r outbound = true ->
  same_authority e r outbound /\ pt_context (partition e) = Prefetch /\
  (context r = Subresource /\ pt_mode (partition e) = mode r \/
   context r = Navigation /\ mode r = Navigate /\ own_origin r).
Proof.
  unfold matches_prefetch_consumer. rewrite !andb_true_iff, !bool_decide_eq_true, String.eqb_eq, vary_matches_spec.
  intros [[[[[[[[Hctx Hurl] Ho] Hcred] Hck] _] _] Hv] Hcase].
  assert (Hown : match req_origin r with Some o => is_same_origin o (url_origin (req_url r)) | None => false end = true
                 -> own_origin r).
  { unfold own_origin, is_same_origin. destruct (req_origin r); [|done]. intros Heq%bool_decide_eq_true. by f_equal. }
  split_and!; [split; try done|done|].
  - apply orb_true_iff in Hcred as [Hcred%bool_decide_eq_true|Hcred]; [by left|right].
    rewrite !andb_true_iff, !bool_decide_eq_true in Hcred. naive_solver.
  - destruct (context r) eqn:Hc; try done; rewrite ?andb_true_iff, ?bool_decide_eq_true in Hcase; naive_solver.
Qed.

(** C23. A response is never replayed across a boundary: whatever the cache
    holds, what it gives for a request was stored for the same address, client
    origin, cookies and effective credentials and the same values of the fields
    it varies by; it was stored for a request of the same context, destination
    and mode, or it is a prefetched response consumed by a subresource of the
    same mode or by a navigation to the client's own origin. *)
Theorem cached_response_is_own c r outbound e :
  lookup_cache c r outbound = Some e ->
  e ∈ entries c /\ same_authority e r outbound /\
  (partition e = Partition_new r outbound \/
   pt_context (partition e) = Prefetch /\
   (context r = Subresource /\ pt_mode (partition e) = mode r \/
    context r = Navigation /\ mode r = Navigate /\ own_origin r)).
Proof.
  unfold lookup_cache. destruct (find _ _) as [d|] eqn:Hf.
  - intros [= ->]. apply find_rev_elem in Hf as [Hin Hm]. unfold matches in Hm.
    apply andb_true_iff in Hm as [Hp%bool_decide_eq_true Hv]. rewrite vary_matches_spec in Hv.
    split_and!; [done| |by left]. split; rewrite ?Hp; try done. by left.
  - intros Hp. apply find_rev_elem in Hp as [Hin Hm].
    apply prefetch_consumer_spec in Hm as (Ha & Hc & Hcase). auto.
Qed.
End theory.

(** ** Runs *)
Definition plain_request (url : string) : FetchRequest :=
  match navigation 1 url with
  | Ok (r, _) => r
  | Err _ =>
      mkFetchRequest [] RequestClient_default RequestClient_default RequestClient_default
        (mkFetchUrl url DataUrl (Opaque 0)) "GET" [] None false Navigation Document None Navigate false Omit
        DefaultCache Follow None NoReferrer NoReferrerPolicy FetchSignal_default 0
  end.

Definition page_request : FetchRequest := plain_request "https://shop.test/page".
Definition page_headers : HeaderList :=
  [mkHeader "cache-control" "max-age=60, must-revalidate"; mkHeader "vary" "Accept, accept"].

(** The candidate of a response whose body arrives in two chunks. *)
Definition page_candidate : option CacheCandidate :=
  (fun c => candidate_push (candidate_push c [x61; x62]) [x63])
    <$> CacheCandidate_new page_request [mkHeader "accept" "text/html"] 200 page_headers 5 0 1000.

Definition page_response : CachedResponse :=
  mkCachedResponse (Partition_new page_request []) ["accept"] [mkHeader "accept" "text/html"] 200 page_headers
    [x61; x62; x63] 1000 5 (from_secs 60) false true.

Example page_is_cached :
  page_candidate = Some (mkCandidate page_response true) /\
  fresh page_response 1000 = true /\ fresh page_response (1000 + from_secs 60) = false /\
  (entries <$> (page_candidate ≫= candidate_finish ResponseCache_default)) = Some [page_response].
Proof. split_and!; vm_refl. Qed.

Lemma one_entry_ok : cache_ok (mkResponseCache [page_response] 3).
Proof. repeat split; [vm_compute; discriminate..|]. constructor; [vm_compute; discriminate|constructor]. Qed.

Lemma inserted_response_is_found_witness :
  exists c', insert_response (mkResponseCache [page_response] 3) page_response = Some c' /\
    lookup_cache c' page_request [mkHeader "accept" "text/html"] = Some page_response.
Proof.
  apply (inserted_response_is_found (mkResponseCache [page_response] 3) page_response page_request
           [mkHeader "accept" "text/html"]).
  - apply one_entry_ok.
  - vm_compute. discriminate.
  - vm_refl.
  - vm_refl.
Defined.

Lemma cached_response_is_own_witness :
  lookup_cache (mkResponseCache [page_response] 3) page_request [mkHeader "accept" "text/html"] = Some page_response /\
  same_authority page_response page_request [mkHeader "accept" "text/html"].
Proof.
  assert (Hl : lookup_cache (mkResponseCache [page_response] 3) page_request [mkHeader "accept" "text/html"]
               = Some page_response) by vm_refl.
  split; [exact Hl|]. destruct (cached_response_is_own _ _ _ _ Hl) as (_ & Ha & _). exact Ha.
Defined.

(** Another cookie, or another value of a field the response varies by: no reuse. *)
Example other_requests_miss :
  lookup_cache (mkResponseCache [page_response] 3) page_request [mkHeader "accept" "image/png"] = None /\
  lookup_cache (mkResponseCache [page_response] 3) page_request
    [mkHeader "accept" "text/html"; mkHeader "cookie" "id=1"] = None.
Proof. split; vm_refl. Qed.
