(* ===== verification/FetchPolicy.v ===== *)
(** * FetchPolicy: what a request may carry and where it may go

    The pure part of the fetch pipeline: src/winhttp/pipeline.rs (credentials,
    referrer, origin, redirect rewriting), src/winhttp/pipeline/metadata.rs,
    [check_request_policy] of pipeline/stream.rs, and how a redirect target is
    resolved (src/fetch/url.rs, src/navigation/web_url.rs). The loop that uses
    it is in FetchPipeline.v. *)

From Stdlib Require Import ZArith.
From S2P Require Import Prelude Text StrOps Limits Words Clock Origins Net Headers CspSources Csp FetchRequest Cors Cookies.

(** ** Redirect targets *)

(** [base.join] through [Url::options], and the setters of an opaque path. *)
Class UrlJoin `{UrlLib} := {
  url_join : Url -> string -> result string Url;
  url_cannot_be_a_base : Url -> bool;
  url_fragment : Url -> option string;
  url_set_path : Url -> string -> Url
}.

Section targets.
Context {URL : UrlLib} {JOIN : UrlJoin}.

Definition normalize_opaque_path (u : Url) : Url :=
  if url_cannot_be_a_base u
     && (bool_decide (is_Some (url_query u)) || bool_decide (is_Some (url_fragment u)))
  then match strip_suffix " " (url_path u) with
       | Some path => url_set_path u (path +:+ "%20")
       | None => u
       end
  else u.

(** [parse_web_url] with a base. *)
Definition resolve_web_url (base reference : string) : option string :=
  if (MAX_URL_BYTES <? byte_length reference)%N || (MAX_URL_BYTES <? byte_length base)%N then None
  else
    match Url_parse base with
    | Err _ => None
    | Ok base =>
        match url_join (normalize_opaque_path base) reference with
        | Err _ => None
        | Ok parsed =>
            let serialized := url_to_string (normalize_opaque_path parsed) in
            if (byte_length serialized <=? MAX_URL_BYTES)%N then Some serialized else None
        end
    end.

Definition FetchUrl_resolve (next : N) (u : FetchUrl) (reference : string) : result FetchError (FetchUrl * N) :=
  resolved ← ok_or (resolve_web_url (serialized u) reference)
               (FetchError_new InvalidRequest ("could not resolve URL reference: " +:+ reference));
  FetchUrl_parse next resolved.
End targets.

Definition FetchUrl_is_data (u : FetchUrl) : bool := match url_kind u with DataUrl => true | _ => false end.

Section policy.
Context {URL : UrlLib} {PARTS : UrlParts} {DIGESTS : Digests} {SUFFIXES : PublicSuffixes}.
Implicit Types r : FetchRequest.

(** ** src/winhttp/pipeline.rs *)
Definition is_redirect_status (status : N) : bool := existsb (N.eqb status) [301; 302; 303; 307; 308]%N.

Definition content_headers : list string :=
  ["content-encoding"; "content-language"; "content-location"; "content-type"].

Definition rewrite_redirect_method r (status : N) : FetchRequest :=
  if (status =? 303)%N && negb (String.eqb (method r) "GET") && negb (String.eqb (method r) "HEAD")
     || ((status =? 301) || (status =? 302))%N && String.eqb (method r) "POST"
  then with_target r (req_url r) "GET" (foldl header_remove (headers r) content_headers) None
  else r.

Definition credentials_permitted r : bool :=
  match credentials r with
  | Omit => false
  | Include => true
  | SameOriginCredentials =>
      match req_origin r with Some o => is_same_origin o (url_origin (req_url r)) | None => false end
  end.

Definition should_send_origin r : bool :=
  if needs_cors_check r && bool_decide (mode r = CorsMode) then true
  else if string_in (method r) ["GET"; "HEAD"] then false
  else match req_origin r with
       | None => false
       | Some o =>
           let cross_origin := negb (is_same_origin o (url_origin (req_url r))) in
           let downgrade := Origin_is_secure o && negb (FetchUrl_is_secure (req_url r)) in
           match referrer_policy r with
           | NoReferrerPolicy => false
           | NoReferrerWhenDowngrade | StrictOrigin | StrictOriginWhenCrossOrigin => negb downgrade
           | SameOriginPolicy => negb cross_origin
           | _ => true
           end
       end.

Definition referrer_header r : option string :=
  match referrer r with
  | NoReferrer => None
  | ReferrerUrl source =>
      let same := is_same_origin (url_origin source) (url_origin (req_url r)) in
      let downgrade := FetchUrl_is_secure source && negb (FetchUrl_is_secure (req_url r)) in
      let full := serialized source in
      let origin := Origin_serialize (url_origin source) +:+ "/" in
      match referrer_policy r with
      | NoReferrerPolicy => None
      | NoReferrerWhenDowngrade => if downgrade then None else Some full
      | SameOriginPolicy => if same then Some full else None
      | OriginPolicy => Some origin
      | StrictOrigin => if downgrade then None else Some origin
      | OriginWhenCrossOrigin => Some (if same then full else origin)
      | StrictOriginWhenCrossOrigin =>
          if same then Some full else if downgrade then None else Some origin
      | UnsafeUrl => Some full
      end
  end.

(** ** src/winhttp/pipeline/metadata.rs *)
Definition is_loopback (host : string) : bool :=
  String.eqb host "localhost" || StrOps.ends_with ".localhost" host || parses_to_loopback host.

Definition metadata_destination r : string :=
  match destination r with
  | Document => if (client_id (resulting_client r) =? 0)%N then "document" else "iframe"
  | Object => "object"
  | Style => "style"
  | Image => "image"
  | Script => "script"
  | Worker => "worker"
  | Font => "font"
  | Fetch => "empty"
  | Video => "video"
  | Audio => "audio"
  end.

Definition metadata_mode (m : RequestMode) : string :=
  match m with
  | Navigate => "navigate"
  | SameOriginMode => "same-origin"
  | NoCors => "no-cors"
  | CorsMode => "cors"
  end.

(** The loop of [site] over the redirect chain. *)
Fixpoint site_relation (o : Origin) (source : ParsedUrl) (relation : string) (url_list : list FetchUrl) : string :=
  match url_list with
  | [] => relation
  | url :: url_list =>
      match FetchUrl_parsed url with
      | None => "cross-site"
      | Some target =>
          if is_same_origin o (url_origin url) then site_relation o source relation url_list
          else if negb (same_site_urls source target) then "cross-site"
          else site_relation o source "same-site" url_list
      end
  end.

Definition metadata_site r (url_list : list FetchUrl) : string :=
  match req_origin r with
  | None => if bool_decide (mode r = Navigate) then "none" else "cross-site"
  | Some o =>
      match ParsedUrl_parse (Origin_serialize o +:+ "/") with
      | Err _ => "cross-site"
      | Ok source => site_relation o source "same-origin" url_list
      end
  end.

(** [headers.set(name, value)?] on a list that an error discards. *)
Definition try_set (hs : HeaderList) (name value : string) : result FetchError HeaderList :=
  match header_set hs name value with (hs, Ok _) => Ok hs | (_, Err e) => Err e end.
Definition try_append (hs : HeaderList) (name value : string) : result FetchError HeaderList :=
  match header_append hs name value with (hs, Ok _) => Ok hs | (_, Err e) => Err e end.

Definition append_fetch_metadata (hs : HeaderList) r (url_list : list FetchUrl) : result FetchError HeaderList :=
  hs ← (if bool_decide (context r = Prefetch) then try_set hs "sec-purpose" "prefetch" else Ok hs);
  match FetchUrl_parsed (req_url r) with
  | None => Ok hs
  | Some target =>
      if negb (String.eqb (scheme target) "https") && negb (is_loopback (host target)) then Ok hs
      else
        hs ← try_set hs "sec-fetch-dest" (metadata_destination r);
        hs ← try_set hs "sec-fetch-mode" (metadata_mode (mode r));
        hs ← try_set hs "sec-fetch-site" (metadata_site r url_list);
        if bool_decide (mode r = Navigate) && user_activation r then try_set hs "sec-fetch-user" "?1" else Ok hs
  end.

(** ** The headers of an exchange: [outbound_headers], from the cookie header
    the jar answered ([None] when credentials are not permitted) *)
Definition conditional_headers : list string :=
  ["if-modified-since"; "if-none-match"; "if-unmodified-since"; "if-match"; "if-range"].

Definition cache_mode_headers (hs : HeaderList) r : result FetchError HeaderList :=
  match cache r with
  | NoStore | Reload =>
      hs ← try_set hs "pragma" "no-cache";
      try_set hs "cache-control" "no-cache"
  | NoCache =>
      if forallb (fun name => negb (header_contains hs name)) conditional_headers
      then try_set hs "cache-control" "max-age=0" else Ok hs
  | _ => Ok hs
  end.

(** The part before the cookie jar is asked, and the part after. *)
Definition headers_before_cookies r (url_list : list FetchUrl) : result FetchError HeaderList :=
  hs ← append_fetch_metadata (headers r) r url_list;
  hs ← cache_mode_headers hs r;
  if header_contains hs "accept-language" then Ok hs else try_append hs "accept-language" "en-CA,en;q=0.9".

Definition try_set_option (hs : HeaderList) (name : string) (value : option string) : result FetchError HeaderList :=
  match value with Some v => try_set hs name v | None => Ok hs end.

Definition headers_after_cookies (hs : HeaderList) r (cookie : option string) : result FetchError HeaderList :=
  hs ← try_set_option hs "cookie" cookie;
  hs ← try_set_option hs "referer" (referrer_header r);
  try_set_option hs "origin"
    (if should_send_origin r then Origin_serialize <$> req_origin r else None).

(** ** [check_request_policy] of pipeline/stream.rs *)
Definition blocks_mixed_prefetch r : bool :=
  negb (FetchUrl_is_data (req_url r))
  && from_option is_potentially_trustworthy false (req_origin r)
  && negb (is_potentially_trustworthy (url_origin (req_url r))).

Definition check_request_policy r (redirects : N) : result FetchError () :=
  if bool_decide (context r = Prefetch) then
    _ ← ensure (negb (blocks_mixed_prefetch r)) (FetchError_new Network "Mixed content blocked prefetch");
    ensure (negb (FetchUrl_is_data (req_url r)) && allows_resource_hint (policy r) (serialized (req_url r)))
      (FetchError_new Network "Content Security Policy blocked prefetch")
  else check_request_with_script (policy r) (destination r) (serialized (req_url r)) redirects (script_source r).
End policy.
