(* ===== verification/FetchPipeline.v ===== *)
(** * FetchPipeline: the fetch loop (src/winhttp/pipeline.rs, pipeline/stream.rs, client.rs)

    A fetch as a program over the browser's state: the HTTP cache and the cookie
    jar, which other fetches share and may change whenever this one does not hold
    them, and the outside world, which answers clock readings, abort checks and
    exchanges. [sent] records the requests handed to WinHTTP; the program never
    reads it. A panic of the source is an outcome of its own. *)

From Stdlib Require Import ZArith Strings.Byte.
From S2P Require Import Prelude Text StrOps Limits Clock Origins Net Headers CspSources Csp FetchRequest Cors Cookies HttpCache FetchPolicy.

(** ** One exchange (src/winhttp/client.rs) *)
Record TransportRequest := mkTransportRequest {
  tr_url : FetchUrl;
  tr_method : string;
  tr_headers : HeaderList;
  tr_body : option Body;
  tr_response_body_limit : N;
  tr_signal : FetchSignal;
  tr_cache : RequestCache
}.

(** What is outside: the clocks, the signals' shared state, the other users of
    the client's locks, the disk behind [CookieStore::persist] (CookieJar.v),
    WinHTTP and the [data_url] crate. *)
Class Environment := {
  World : Type;
  Handle : Type;
  aborted_now : World -> gset N * World;
  instant_now : World -> N * World;
  system_now : World -> Z * World;
  others : World -> ResponseCache -> CookieState -> World * ResponseCache * CookieState;
  (** A thread panicked while it held the jar's lock, the cache's, the saver's. *)
  jar_poisoned : World -> bool;
  cache_poisoned : World -> bool;
  persistence_poisoned : World -> bool;
  (** The cookie store has a file. *)
  jar_on_disk : bool;
  persist_cookies : World -> CookieState -> World * result string ();
  (** [HttpClient::connection], [WinHttpOpenRequest] and [configure_request]:
      the method, the target, and whether the flags ask for a refresh. *)
  open_request : World -> ParsedUrl -> string -> bool -> World * result string Handle;
  (** [WinHttpSendRequest] with the header block and the body. *)
  send_request : World -> Handle -> string -> list byte -> World * result string ();
  receive_response : World -> Handle -> World * result string ();
  query_status : World -> Handle -> World * result string N;
  query_raw_headers : World -> Handle -> World * result string string;
  query_data_available : World -> Handle -> World * result string N;
  read_data : World -> Handle -> N -> World * result string (list byte);
  (** [DataUrl::process]: the media type and, from [decode_to_vec], the bytes. *)
  process_data_url : string -> result string (string * result string (list byte))
}.

Inductive Failure := Fails (e : FetchError) | Panics (message : string).

Inductive ResponseType := Basic | CorsResponse | OpaqueResponse | OpaqueRedirect.

(** src/fetch/response.rs *)
Record FetchResponse := mkFetchResponse {
  fr_type : ResponseType;
  fr_url_list : list FetchUrl;
  fr_status : N;
  fr_headers : HeaderList;
  fr_body : Body
}.
Definition is_success (r : FetchResponse) : bool := ((200 <=? fr_status r) && (fr_status r <=? 299))%N.
Definition final_url (r : FetchResponse) : option FetchUrl := last (fr_url_list r).
Definition content_type (r : FetchResponse) : option string := header_get (fr_headers r) "content-type".

Section pipeline.
Context {URL : UrlLib} {JOIN : UrlJoin} {PARTS : UrlParts} {DIGESTS : Digests} {SUFFIXES : PublicSuffixes}
  {CALENDAR : Calendar} {ENV : Environment}.

(** ** Streams and responses *)
Record TransportBodyStream := mkStream {
  st_request : Handle;
  st_signal : FetchSignal;
  st_limit : N;
  st_received : N;
  st_finished : bool
}.

Record TransportStreamResponse := mkTransportResponse {
  tp_status : N;
  tp_headers : HeaderList;
  tp_body : TransportBodyStream
}.

Inductive StreamingBody :=
  | NetworkBody (body : TransportBodyStream) (candidate : option CacheCandidate)
  | MemoryBody (bytes : list byte) (cursor : nat)
  | EmptyBody.

Record StreamingFetchResponse := mkStreaming {
  sr_type : ResponseType;
  sr_url_list : list FetchUrl;
  sr_status : N;
  sr_headers : HeaderList;
  sr_body : StreamingBody;
  sr_body_limit : N
}.

(** ** The state and its programs *)

(** Where the pipeline takes a response from: a server's answer to an exchange,
    or a stored entry that was found for a request. *)
Inductive Reply :=
  | FromNetwork (t : TransportRequest) (status : N) (hs : HeaderList)
  | FromCache (e : CachedResponse).

(** [sent] and [answers] record what happened; no program reads them. *)
Record Browser := mkBrowser {
  world : World;
  response_cache : ResponseCache;
  jar : CookieState;
  next_opaque_origin : N;
  sent : list TransportRequest;
  answers : list Reply
}.

Definition M (A : Type) : Type := Browser -> Browser * result Failure A.
#[global] Instance M_ret : MRet M := fun A a b => (b, Ok a).
#[global] Instance M_bind : MBind M := fun A B f m b =>
  match m b with (b, Ok a) => f a b | (b, Err e) => (b, Err e) end.

(** A primitive step on the state. *)
Definition step {A} (f : Browser -> Browser * result Failure A) : M A := f.
Definition lift {A} (r : result FetchError A) : M A := fun b => (b, map_err Fails r).
Definition fails {A} (e : FetchError) : M A := fun b => (b, Err (Fails e)).
Definition panics {A} (message : string) : M A := fun b => (b, Err (Panics message)).
Definition network {A} (message : string) : M A := fails (FetchError_new Network message).

Definition with_world (b : Browser) (w : World) : Browser :=
  mkBrowser w (response_cache b) (jar b) (next_opaque_origin b) (sent b) (answers b).

Definition note (reply : Reply) : M () := fun b =>
  (mkBrowser (world b) (response_cache b) (jar b) (next_opaque_origin b) (sent b) (answers b ++ [reply]), Ok tt).

(** A call to the outside. *)
Definition outside {A} (f : World -> World * A) : M A := fun b =>
  let '(w, a) := f (world b) in (with_world b w, Ok a).
Definition instant : M N := outside (fun w => let '(t, w) := instant_now w in (w, t)).
Definition system_time : M Z := outside (fun w => let '(t, w) := system_now w in (w, t)).

Definition check_signal (s : FetchSignal) : M () :=
  aborted ← outside (fun w => let '(a, w) := aborted_now w in (w, a));
  lift (signal_check aborted s).

(** A lock is taken after whatever its other users did; it is refused when one
    of them panicked with the lock in its hands. *)
Definition locked : M () := fun b =>
  let '(w, c, j) := others (world b) (response_cache b) (jar b) in
  (mkBrowser w c j (next_opaque_origin b) (sent b) (answers b), Ok tt).

Definition lock (poisoned : World -> bool) (message : string) : M () :=
  _ ← locked;
  refused ← step (fun b => (b, Ok (poisoned (world b))));
  if refused : bool then network message else mret tt.

Definition lock_jar : M () := lock jar_poisoned "HTTP cookie jar is unavailable".
Definition lock_cache : M () := lock cache_poisoned "response cache lock failed".

Definition with_jar {A} (f : CookieState -> CookieState * A) : M A :=
  _ ← lock_jar;
  step (fun b => let '(j, a) := f (jar b) in
                 (mkBrowser (world b) (response_cache b) j (next_opaque_origin b) (sent b) (answers b), Ok a)).

(** [self.persist()?] when the jar changed. *)
Definition persist_if (changed : bool) : M () :=
  if changed && jar_on_disk then
    _ ← lock persistence_poisoned "cookie persistence lock is poisoned";
    _ ← lock_jar;
    saved ← step (fun b => outside (fun w => persist_cookies w (jar b)) b);
    lift (map_err (FetchError_new Network) saved)
  else mret tt.

(** [ResponseCache::insert], with the lock held. *)
Definition insert_locked (e : CachedResponse) : M () :=
  step (fun b => match insert_response (response_cache b) e with
                 | Some c => (mkBrowser (world b) c (jar b) (next_opaque_origin b) (sent b) (answers b), Ok tt)
                 | None => (b, Err (Panics "the eviction loop does not end"))
                 end).

Definition cache_insert (e : CachedResponse) : M () :=
  _ ← lock_cache; insert_locked e.

(** [CacheCandidate::finish] keeps nothing when the lock is refused. *)
Definition cache_finish (e : CachedResponse) : M () :=
  _ ← locked;
  refused ← step (fun b => (b, Ok (cache_poisoned (world b))));
  if refused : bool then mret tt else insert_locked e.

(** ** The transport *)

(** [str::lines]: a line keeps neither its line feed nor a carriage return before it. *)
Fixpoint end_lines (l : list string) : list string :=
  match l with
  | [] => []
  | [line] => if String.eqb line EmptyString then [] else [line]
  | line :: l => default line (strip_suffix "013" line) :: end_lines l
  end.
Definition str_lines (s : string) : list string := end_lines (split_on "010" s).

Fixpoint append_lines (hs : HeaderList) (l : list string) : result FetchError HeaderList :=
  match l with
  | [] => Ok hs
  | line :: l =>
      match split_once ":" line with
      | None => append_lines hs l
      | Some (name, value) => hs ← try_append hs name value; append_lines hs l
      end
  end.
Definition parse_response_headers (raw : string) : result FetchError HeaderList :=
  append_lines [] (drop 1 (str_lines raw)).

Definition u32_max : N := 4294967295.

(** A fallible call to WinHTTP. *)
Definition winhttp {A} (f : World -> World * result string A) : M A :=
  answer ← outside f; lift (map_err (FetchError_new Network) answer).

(** [WinHttpSendRequest]: from here on the exchange is on the record. *)
Definition send (t : TransportRequest) (handle : Handle) : M () :=
  answer ← step (fun b =>
    let '(w, r) := send_request (world b) handle (to_wire_string (tr_headers t)) (from_option body_bytes [] (tr_body t)) in
    (mkBrowser w (response_cache b) (jar b) (next_opaque_origin b) (sent b ++ [t]) (answers b), Ok r));
  lift (map_err (FetchError_new Network) answer).

(** The lengths WinHTTP takes are 32 bits wide. *)
Definition check_lengths (t : TransportRequest) : result FetchError () :=
  _ ← ensure (N.of_nat (length (encode_utf16 (to_wire_string (tr_headers t)))) <=? u32_max)%N
        (FetchError_new InvalidRequest "request headers exceed the WinHTTP size limit");
  ensure (N.of_nat (length (from_option body_bytes [] (tr_body t))) <=? u32_max)%N
    (FetchError_new InvalidRequest "request body exceeds the WinHTTP size limit").

(** From the answer's arrival to its status and headers. *)
Definition receive (t : TransportRequest) (handle : Handle) : M TransportStreamResponse :=
  _ ← check_signal (tr_signal t);
  _ ← winhttp (fun w => receive_response w handle);
  _ ← check_signal (tr_signal t);
  status ← winhttp (fun w => query_status w handle);
  raw ← winhttp (fun w => query_raw_headers w handle);
  hs ← lift (parse_response_headers raw);
  _ ← note (FromNetwork t (status mod 65536) hs);
  mret (mkTransportResponse (status mod 65536) hs
          (mkStream handle (tr_signal t) (tr_response_body_limit t) 0 false)).

Definition send_once_stream (t : TransportRequest) : M TransportStreamResponse :=
  _ ← check_signal (tr_signal t);
  parsed ← lift (ok_or (FetchUrl_parsed (tr_url t))
                   (FetchError_new InvalidRequest "WinHTTP only transports HTTP(S) URLs"));
  handle ← winhttp (fun w => open_request w parsed (tr_method t)
                               (bool_decide (tr_cache t = NoStore) || bool_decide (tr_cache t = Reload)));
  _ ← lift (check_lengths t);
  _ ← check_signal (tr_signal t);
  _ ← send t handle;
  receive t handle.

(** The result of a fallible step as a value: [match r { Ok(a) => .., Err(e) => .. }]. *)
Definition attempt {A} (m : M A) : M (result FetchError A) := step (fun b =>
  match m b with
  | (b, Ok a) => (b, Ok (Ok a))
  | (b, Err (Fails e)) => (b, Ok (Err e))
  | (b, Err (Panics p)) => (b, Err (Panics p))
  end).

(** [TransportBodyStream::next_chunk]: the stream it leaves and its result. *)
Definition read_available (s : TransportBodyStream) : M (list byte) :=
  _ ← check_signal (st_signal s);
  available ← outside (fun w => query_data_available w (st_request s));
  available ← lift (map_err (FetchError_new Network) available);
  let read_capacity := N.min (N.max available 1) MAX_FETCH_STREAM_CHUNK_BYTES in
  buffer ← outside (fun w => read_data w (st_request s) read_capacity);
  buffer ← lift (map_err (FetchError_new Network) buffer);
  _ ← check_signal (st_signal s);
  mret buffer.

Definition transport_next_chunk (s : TransportBodyStream)
  : M (TransportBodyStream * result FetchError (option (list byte))) :=
  if st_finished s then mret (s, Ok None)
  else
    read ← attempt (read_available s);
    mret match read with
         | Err e => (s, Err e)
         | Ok [] => (mkStream (st_request s) (st_signal s) (st_limit s) (st_received s) true, Ok None)
         | Ok buffer =>
             match checked_add (st_received s) (N.of_nat (length buffer)) with
             | None => (s, Err (body_too_large (st_limit s)))
             | Some received =>
                 (mkStream (st_request s) (st_signal s) (st_limit s) received false,
                  if (st_limit s <? received)%N then Err (body_too_large (st_limit s)) else Ok (Some buffer))
             end
         end.

(** The loop of [send_once]: the body is read to its end and dropped. [fuel]
    bounds the chunks; [None] when it runs out. *)
Fixpoint drain (fuel : nat) (s : TransportBodyStream) (body : Body) : M (option ()) :=
  match fuel with
  | O => mret None
  | S fuel =>
      '(s, read) ← transport_next_chunk s;
      chunk ← lift read;
      match chunk with
      | None => mret (Some tt)
      | Some chunk =>
          let '(body, pushed) := Body_push body chunk in
          _ ← lift pushed;
          drain fuel s body
      end
  end.

(** Enough chunks for [limit] bytes: each holds one at least. *)
Definition chunk_fuel (limit : N) : nat := N.to_nat limit + 2.

Definition send_once (t : TransportRequest) : M (N * HeaderList) :=
  streamed ← send_once_stream t;
  drained ← drain (chunk_fuel (tr_response_body_limit t)) (tp_body streamed) (Body_empty (tr_response_body_limit t));
  match drained with
  | Some _ => mret (tp_status streamed, tp_headers streamed)
  | None => panics "out of fuel"
  end.

(** ** Preflights *)

(** [sort_unstable] and [dedup] on strings. *)
Fixpoint insert_name (name : string) (l : list string) : list string :=
  match l with
  | [] => [name]
  | n :: l' => match cmp (bytes name) (bytes n) with Gt => n :: insert_name name l' | _ => name :: l end
  end.
Fixpoint dedup (l : list string) : list string :=
  match l with
  | n :: ((m :: _) as l') => if String.eqb n m then dedup l' else n :: dedup l'
  | _ => l
  end.
Definition unsafe_names (r : FetchRequest) : list string :=
  dedup (foldr insert_name [] (header_name <$> unsafe_headers r)).

Definition preflight_headers (r : FetchRequest) (origin : string) : result FetchError HeaderList :=
  hs ← try_append [] "origin" origin;
  hs ← try_append hs "access-control-request-method" (method r);
  if bool_decide (unsafe_names r = []) then Ok hs
  else try_append hs "access-control-request-headers" (String.concat ", " (unsafe_names r)).

Definition preflight_request (r : FetchRequest) (hs : HeaderList) : TransportRequest :=
  mkTransportRequest (req_url r) "OPTIONS" hs None MAX_PREFLIGHT_BODY_BYTES (signal r) NoStore.

Definition run_preflight (r : FetchRequest) : M () :=
  match req_origin r with
  | None => panics "CORS preflight has a client origin"
  | Some o =>
      hs ← lift (preflight_headers r (Origin_serialize o));
      '(status, response) ← send_once (preflight_request r hs);
      if ((200 <=? status) && (status <=? 299))%N then lift (validate_preflight_response r response)
      else fails (cors_error ("CORS preflight returned HTTP " +:+ pretty status))
  end.

(** ** Cookies and headers *)
Definition cookie_header_value (r : FetchRequest) : M (option string) :=
  match FetchUrl_parsed (req_url r) with
  | None => mret None
  | Some _ =>
      now ← system_time;
      '(header, changed) ← with_jar (fun j => request_header j now r);
      _ ← persist_if changed;
      mret header
  end.

Definition outbound_headers (r : FetchRequest) (url_list : list FetchUrl) : M HeaderList :=
  hs ← lift (headers_before_cookies r url_list);
  cookie ← (if credentials_permitted r then cookie_header_value r else mret None);
  lift (headers_after_cookies hs r cookie).

Fixpoint store_cookies (r : FetchRequest) (l : list string) : M () :=
  match l with
  | [] => mret tt
  | set_cookie :: l =>
      now ← system_time;
      _ ← (match response_cookie now r set_cookie with
           | None => mret tt
           | Some _ =>
               later ← system_time;
               stored ← with_jar (fun j => store_response_cookie j now later r set_cookie);
               changed ← lift (map_err (FetchError_new Network) stored);
               persist_if changed
           end);
      store_cookies r l
  end.
Definition store_response_cookies (r : FetchRequest) (hs : HeaderList) : M () :=
  if credentials_permitted r then store_cookies r (header_values hs "set-cookie") else mret tt.

(** ** Responses *)
Definition from_buffered (r : FetchResponse) (body_limit : N) : StreamingFetchResponse :=
  mkStreaming (fr_type r) (fr_url_list r) (fr_status r) (fr_headers r) (MemoryBody (body_bytes (fr_body r)) 0)
    body_limit.

Definition fetch_data_url (r : FetchRequest) : M FetchResponse :=
  _ ← check_signal (signal r);
  if negb (String.eqb (method r) "GET") then network "data URLs can only be fetched with GET"
  else if bool_decide (mode r = SameOriginMode) && bool_decide (is_Some (req_origin r)) then
    fails (cors_error "opaque data URL is not same-origin with the requesting document")
  else
    '(content_type, decoded) ← lift (map_err (fun e => FetchError_new Network ("invalid data URL: " +:+ e))
                                       (process_data_url (serialized (req_url r))));
    bytes ← lift (map_err (fun e => FetchError_new Network ("invalid data URL body: " +:+ e)) decoded);
    let '(body, pushed) := Body_push (Body_empty (response_body_limit r)) bytes in
    _ ← lift pushed;
    hs ← lift (try_append [] "content-type" content_type);
    mret (mkFetchResponse Basic [req_url r] 200 hs body).

Definition opaque_response (t : ResponseType) (r : FetchRequest) (url_list : list FetchUrl)
  : StreamingFetchResponse := mkStreaming t url_list 0 [] EmptyBody (response_body_limit r).

Definition manual_redirect (r : FetchRequest) (url_list : list FetchUrl) (t : TransportStreamResponse)
  : StreamingFetchResponse :=
  if bool_decide (context r = ScriptContext) then opaque_response OpaqueRedirect r url_list
  else mkStreaming Basic url_list (tp_status t) (tp_headers t) (NetworkBody (tp_body t) None)
         (response_body_limit r).

(** The part [filtered] and [filtered_cached] share. *)
Definition filtered_response (r : FetchRequest) (url_list : list FetchUrl) (status : N) (hs : HeaderList)
    (body : StreamingBody) : StreamingFetchResponse :=
  let cross_origin := needs_cors_check r in
  if bool_decide (context r = ScriptContext) && cross_origin && bool_decide (mode r = NoCors)
  then opaque_response OpaqueResponse r url_list
  else
    mkStreaming (if bool_decide (context r = ScriptContext) && cross_origin then CorsResponse else Basic)
      url_list status
      (if bool_decide (context r = ScriptContext) then cors_filtered_headers hs r else hs)
      body (response_body_limit r).

Definition filtered (r : FetchRequest) (url_list : list FetchUrl) (t : TransportStreamResponse)
    (candidate : option CacheCandidate) : StreamingFetchResponse :=
  filtered_response r url_list (tp_status t) (tp_headers t) (NetworkBody (tp_body t) candidate).

Definition filtered_cached (r : FetchRequest) (url_list : list FetchUrl) (e : CachedResponse) (now : N)
  : StreamingFetchResponse :=
  filtered_response r url_list (cr_status e) (response_headers e now) (MemoryBody (cr_body e) 0).

(** ** The streamed body *)
Definition with_sr_body (r : StreamingFetchResponse) (body : StreamingBody) : StreamingFetchResponse :=
  mkStreaming (sr_type r) (sr_url_list r) (sr_status r) (sr_headers r) body (sr_body_limit r).

Definition finish_candidate (c : option CacheCandidate) : M () :=
  match c with
  | Some c => if permitted c then cache_finish (cand_response c) else mret tt
  | None => mret tt
  end.

Definition next_chunk (r : StreamingFetchResponse)
  : M (StreamingFetchResponse * result FetchError (option (list byte))) :=
  match sr_body r with
  | NetworkBody body candidate =>
      '(body, read) ← transport_next_chunk body;
      match read with
      | Ok (Some chunk) =>
          mret (with_sr_body r (NetworkBody body ((fun c => candidate_push c chunk) <$> candidate)), read)
      | Ok None =>
          _ ← finish_candidate candidate;
          mret (with_sr_body r (NetworkBody body None), read)
      | Err _ => mret (with_sr_body r (NetworkBody body None), read)
      end
  | MemoryBody bytes cursor =>
      if Nat.eqb cursor (length bytes) then mret (r, Ok None)
      else
        let end_ := Nat.min (cursor + N.to_nat MAX_FETCH_STREAM_CHUNK_BYTES) (length bytes) in
        mret (with_sr_body r (MemoryBody bytes end_), Ok (Some (drop cursor (take end_ bytes))))
  | EmptyBody => mret (r, Ok None)
  end.

(** The loop of [into_buffered]; [fuel] bounds the chunks. *)
Fixpoint buffer_chunks (fuel : nat) (r : StreamingFetchResponse) (body : Body) : M (option Body) :=
  match fuel with
  | O => mret None
  | S fuel =>
      '(r, read) ← next_chunk r;
      chunk ← lift read;
      match chunk with
      | None => mret (Some body)
      | Some chunk =>
          let '(body, pushed) := Body_push body chunk in
          _ ← lift pushed;
          buffer_chunks fuel r body
      end
  end.

Definition body_fuel (r : StreamingFetchResponse) : nat :=
  match sr_body r with
  | NetworkBody body _ => chunk_fuel (st_limit body)
  | MemoryBody bytes _ => length bytes + 2
  | EmptyBody => 1
  end.

Definition into_buffered (r : StreamingFetchResponse) : M FetchResponse :=
  body ← buffer_chunks (body_fuel r) r (Body_empty (sr_body_limit r));
  match body with
  | Some body => mret (mkFetchResponse (sr_type r) (sr_url_list r) (sr_status r) (sr_headers r) body)
  | None => panics "out of fuel"
  end.

(** ** [fetch_stream] *)
Definition resolve (r : FetchRequest) (location : string) : M FetchUrl := step (fun b =>
  match FetchUrl_resolve (next_opaque_origin b) (req_url r) location with
  | Ok (u, next) => (mkBrowser (world b) (response_cache b) (jar b) next (sent b) (answers b), Ok u)
  | Err e => (b, Err (Fails e))
  end).

Definition lookup_response (r : FetchRequest) (outbound : HeaderList) : M (option CachedResponse) :=
  if cacheable_request r outbound && negb (bool_decide (cache r = Reload)) then
    _ ← lock_cache;
    found ← step (fun b => (b, Ok (lookup_cache (response_cache b) r outbound)));
    _ ← (match found with Some e => note (FromCache e) | None => mret tt end);
    mret found
  else mret None.

(** [fresh] reads the clock only when [no_cache] is unset. *)
Definition check_fresh (e : CachedResponse) : M bool :=
  if no_cache e then mret false else now ← instant; mret (fresh e now).

Definition may_reuse (r : FetchRequest) (e : CachedResponse) : M bool :=
  match cache r with
  | DefaultCache => is_fresh ← check_fresh e; mret (is_fresh && negb (request_forces_validation r))
  | ForceCache | OnlyIfCached => is_fresh ← check_fresh e; mret (is_fresh || can_serve_stale e)
  | _ => mret false
  end.

(** The request after a redirect to [next_url]. *)
Definition redirected (r : FetchRequest) (status : N) (next_url : FetchUrl) : FetchRequest :=
  let hs := if is_same_origin (url_origin (req_url r)) (url_origin next_url) then headers r
            else header_remove (headers r) "authorization" in
  let r := rewrite_redirect_method (with_headers r hs) status in
  with_target r next_url (method r) (headers r) (body r).

(** What one turn of the loop decides. *)
Inductive Turn := Respond (response : StreamingFetchResponse) | Again (r : FetchRequest) (url_list : list FetchUrl).

Definition respond_cached (r : FetchRequest) (url_list : list FetchUrl) (e : CachedResponse) : M Turn :=
  now ← instant; mret (Respond (filtered_cached r url_list e now)).

Definition revalidate (transport : TransportStreamResponse) (cached : option CachedResponse)
  : M (option CachedResponse) :=
  match cached with
  | Some previous =>
      if ((tp_status transport =? 304)%N && has_validator previous) then
        received ← system_time;
        now ← instant;
        mret (revalidated previous (tp_headers transport) received now)
      else mret None
  | None => mret None
  end.

Definition new_candidate (r : FetchRequest) (outbound : HeaderList) (transport : TransportStreamResponse)
    (requested_at : N) : M (option CacheCandidate) :=
  received ← system_time;
  later ← instant;
  now ← instant;
  mret (CacheCandidate_new r outbound (tp_status transport) (tp_headers transport) (elapsed requested_at later)
          received now).

(** After the response passed the CORS check: a redirect, or the answer. *)
Definition conclude (r : FetchRequest) (url_list : list FetchUrl) (outbound : HeaderList) (redirect_count : N)
    (requested_at : N) (transport : TransportStreamResponse) : M Turn :=
  match (if is_redirect_status (tp_status transport) then header_get (tp_headers transport) "location" else None) with
  | Some location =>
      match redirect r with
      | ErrorRedirect => fails (FetchError_new Redirect "redirect blocked by request redirect mode")
      | Manual => mret (Respond (manual_redirect r url_list transport))
      | Follow =>
          if (redirect_count =? MAX_REDIRECTS)%N
          then fails (FetchError_new Redirect ("redirect limit of " +:+ pretty MAX_REDIRECTS +:+ " was exceeded"))
          else
            next_url ← resolve r location;
            mret (Again (redirected r (tp_status transport) next_url) (url_list ++ [next_url]))
      end
  | None =>
      candidate ← new_candidate r outbound transport requested_at;
      mret (Respond (filtered r url_list transport candidate))
  end.

Definition exchange_request (r : FetchRequest) (outbound : HeaderList) : TransportRequest :=
  mkTransportRequest (req_url r) (method r) outbound (body r) (response_body_limit r) (signal r) (cache r).

(** The network part of one turn. *)
Definition go_to_network (r : FetchRequest) (url_list : list FetchUrl) (outbound : HeaderList)
    (cached : option CachedResponse) (redirect_count : N) : M Turn :=
  requested_at ← instant;
  transport ← send_once_stream (exchange_request r outbound);
  _ ← store_response_cookies r (tp_headers transport);
  confirmed ← revalidate transport cached;
  match confirmed with
  | Some e =>
      _ ← lift (validate_cors_response r (cr_headers e));
      _ ← cache_insert e;
      respond_cached r url_list e
  | None =>
      _ ← lift (validate_cors_response r (tp_headers transport));
      conclude r url_list outbound redirect_count requested_at transport
  end.

(** The checks at the head of a turn. *)
Definition turn_checks (r : FetchRequest) (redirect_count : N) : M () :=
  _ ← check_signal (signal r);
  _ ← lift (check_request_policy r redirect_count);
  _ ← lift (ensure (negb (needs_cors_check r && bool_decide (mode r = SameOriginMode)))
              (cors_error "cross-origin request blocked by same-origin mode"));
  if needs_preflight r then run_preflight r else mret tt.

Definition turn (r : FetchRequest) (url_list : list FetchUrl) (redirect_count : N) : M Turn :=
  _ ← turn_checks r redirect_count;
  outbound ← outbound_headers r url_list;
  cached ← lookup_response r outbound;
  reuse ← (match cached with Some e => may_reuse r e | None => mret false end);
  match cached, reuse with
  | Some e, true =>
      _ ← lift (validate_cors_response r (cr_headers e));
      respond_cached r url_list e
  | _, _ =>
      let outbound := from_option (fun e => add_validator e outbound) outbound cached in
      if bool_decide (cache r = OnlyIfCached)
      then network "only-if-cached request has no reusable HTTP cache entry"
      else go_to_network r url_list outbound cached redirect_count
  end.

(** [for redirect_count in 0..=MAX_REDIRECTS], with [turns] to go. *)
Fixpoint redirect_loop (turns : nat) (redirect_count : N) (r : FetchRequest) (url_list : list FetchUrl)
  : M StreamingFetchResponse :=
  match turns with
  | O => panics "the bounded redirect loop always returns"
  | S turns =>
      t ← turn r url_list redirect_count;
      match t with
      | Respond response => mret response
      | Again r url_list => redirect_loop turns (redirect_count + 1) r url_list
      end
  end.

Definition fetch_stream (r : FetchRequest) : M StreamingFetchResponse :=
  let '(r, valid) := validate r in
  _ ← lift valid;
  _ ← check_signal (signal r);
  _ ← lift (check_request_policy r 0);
  if FetchUrl_is_data (req_url r) then
    response ← fetch_data_url r; mret (from_buffered response (response_body_limit r))
  else redirect_loop (N.to_nat MAX_REDIRECTS + 1) 0 r [req_url r].

Definition fetch (r : FetchRequest) : M FetchResponse := response ← fetch_stream r; into_buffered response.
End pipeline.
