(* ===== verification/FetchTheory.v ===== *)
(** * FetchTheory: what a fetch sends, how it ends and what script sees of it *)

From Stdlib Require Import ZArith Strings.Byte.
From S2P Require Import Prelude Text StrOps Limits Clock Origins Net Headers CspSources Csp FetchRequest Cors Cookies HttpCache FetchPolicy FetchPipeline.

(** ** Headers under the list operations *)
Lemma header_values_append (hs hs' : HeaderList) (name value other : string) res :
  header_append hs name value = (hs', res) ->
  eq_ignore_ascii_case name other = false -> header_values hs' other = header_values hs other.
Proof.
  intros Ha Hne. apply header_append_cases in Ha. destruct res as [u|e]; [|by subst].
  destruct Ha as (n & v & Hn & _ & ->). unfold header_values, HeaderList in *. rewrite filter_app, fmap_app, filter_cons.
  case_decide as His; simpl; [exfalso|by rewrite app_nil_r].
  unfold normalize_name in Hn. destruct (_ || _); [done|]. injection Hn as <-.
  unfold header_is, eq_ignore_ascii_case in *. simpl in His. rewrite to_ascii_lowercase_idemp in His.
  by rewrite Hne in His.
Qed.

Lemma header_values_remove (hs : HeaderList) (name other : string) :
  eq_ignore_ascii_case name other = false -> header_values (header_remove hs name) other = header_values hs other.
Proof.
  intros Hne. unfold header_values, header_remove, HeaderList in *. f_equal. rewrite list_filter_filter.
  apply list_filter_iff. intros h. unfold header_is, eq_ignore_ascii_case in *. rewrite !Is_true_true, negb_true_iff.
  split; [by intros []|]. intros Ho. split; [done|]. apply String.eqb_eq in Ho. rewrite Ho.
  by rewrite String.eqb_sym.
Qed.

Lemma header_values_remove_same (hs : HeaderList) (name : string) : header_values (header_remove hs name) name = [].
Proof.
  unfold header_values, header_remove, HeaderList in *. rewrite list_filter_filter.
  rewrite (list_filter_iff _ (fun _ => False)); [by induction hs|].
  intros h. rewrite !Is_true_true, negb_true_iff. naive_solver congruence.
Qed.

Lemma header_values_set (hs hs' : HeaderList) (name value other : string) res :
  header_set hs name value = (hs', res) ->
  eq_ignore_ascii_case name other = false -> header_values hs' other = header_values hs other.
Proof.
  unfold header_set. intros Hs Hne. destruct (normalize_name name) as [n|e] eqn:Hn; [|by injection Hs as <- _].
  assert (Hn' : eq_ignore_ascii_case n other = false).
  { unfold normalize_name in Hn. destruct (_ || _); [done|]. injection Hn as <-.
    unfold eq_ignore_ascii_case in *. by rewrite to_ascii_lowercase_idemp. }
  apply header_values_append with (other := other) in Hs; [|done]. rewrite Hs. by apply header_values_remove.
Qed.

Lemma try_set_values (hs hs' : HeaderList) (name value other : string) :
  try_set hs name value = Ok hs' -> eq_ignore_ascii_case name other = false ->
  header_values hs' other = header_values hs other.
Proof.
  unfold try_set. destruct (header_set hs name value) as [hs1 [u|e]] eqn:Hs; [|done]. intros [= <-].
  by eapply header_values_set.
Qed.

Lemma try_append_values (hs hs' : HeaderList) (name value other : string) :
  try_append hs name value = Ok hs' -> eq_ignore_ascii_case name other = false ->
  header_values hs' other = header_values hs other.
Proof.
  unfold try_append. destruct (header_append hs name value) as [hs1 [u|e]] eqn:Hs; [|done]. intros [= <-].
  by eapply header_values_append.
Qed.

(** A header that was set is the only one of its name. *)
Lemma try_set_own (hs hs' : HeaderList) (name value : string) :
  try_set hs name value = Ok hs' -> to_ascii_lowercase name = name ->
  exists v, normalize_value value = Ok v /\ header_values hs' name = [v].
Proof.
  unfold try_set, header_set. intros Hs Hl. destruct (normalize_name name) as [n|e] eqn:Hn; [|done].
  assert (n = name) as ->.
  { unfold normalize_name in Hn. destruct (_ || _); [done|]. by injection Hn as <-. }
  destruct (header_append (header_remove hs name) name value) as [hs1 [u|e]] eqn:Ha; [|done]. injection Hs as <-.
  apply header_append_cases in Ha as (n' & v & Hn' & Hv & ->). rewrite Hn in Hn'. injection Hn' as <-.
  exists v. split; [done|].
  transitivity (header_values (header_remove hs name) name ++ header_values [mkHeader name v] name).
  { unfold header_values, HeaderList in *. by rewrite filter_app, fmap_app. }
  rewrite header_values_remove_same. unfold header_values, header_is, eq_ignore_ascii_case, HeaderList.
  by rewrite filter_cons, decide_True by (simpl; by rewrite String.eqb_refl).
Qed.

Section theory.
Context {URL : UrlLib} {JOIN : UrlJoin} {PARTS : UrlParts} {DIGESTS : Digests} {SUFFIXES : PublicSuffixes}
  {CALENDAR : Calendar}.
Implicit Types (r : FetchRequest) (hs : HeaderList).

(** The names the browser writes before it asks the cookie jar. *)
Definition early_names : list string :=
  ["sec-purpose"; "sec-fetch-dest"; "sec-fetch-mode"; "sec-fetch-site"; "sec-fetch-user"; "pragma";
   "cache-control"; "accept-language"].

Definition differs (other name : string) : Prop := eq_ignore_ascii_case name other = false.

(** Follows one header through a chain of [try_set]s and [try_append]s. *)
Ltac follow_header :=
  repeat match goal with
  | H : try_set _ _ _ = Ok ?hs' |- context [header_values ?hs' _] =>
      rewrite (try_set_values _ _ _ _ _ H) by assumption; clear H
  | H : try_append _ _ _ = Ok ?hs' |- context [header_values ?hs' _] =>
      rewrite (try_append_values _ _ _ _ _ H) by assumption; clear H
  end.

Lemma append_fetch_metadata_values hs r (url_list : list FetchUrl) hs' (other : string) :
  append_fetch_metadata hs r url_list = Ok hs' -> Forall (differs other) early_names ->
  header_values hs' other = header_values hs other.
Proof.
  intros Ha Hd. unfold append_fetch_metadata in Ha. unfold early_names, differs in Hd.
  repeat (apply Forall_cons in Hd as [? Hd]). inv_res.
  assert (Hx : header_values x other = header_values hs other).
  { destruct (bool_decide (context r = Prefetch)); [by follow_header|by inv_res]. }
  rewrite <- Hx. clear Hx. destruct (FetchUrl_parsed _); [|by inv_res]. destruct (_ && _); [by inv_res|].
  inv_res. destruct (_ && _); inv_res; by follow_header.
Qed.

Lemma cache_mode_values hs r hs' (other : string) :
  cache_mode_headers hs r = Ok hs' -> Forall (differs other) early_names ->
  header_values hs' other = header_values hs other.
Proof.
  intros Ha Hd. unfold cache_mode_headers in Ha. unfold early_names, differs in Hd.
  repeat (apply Forall_cons in Hd as [? Hd]).
  destruct (cache r); try (by inv_res); try (inv_res; by follow_header).
  destruct (forallb _ _); [by follow_header|by inv_res].
Qed.

Lemma headers_before_cookies_values r (url_list : list FetchUrl) hs' (other : string) :
  headers_before_cookies r url_list = Ok hs' -> Forall (differs other) early_names ->
  header_values hs' other = header_values (headers r) other.
Proof.
  intros Hb Hd. unfold headers_before_cookies in Hb. inv_res.
  assert (Hx : header_values hs' other = header_values x0 other).
  { destruct (header_contains _ _); [by inv_res|]. unfold early_names, differs in Hd.
    repeat (apply Forall_cons in Hd as [? Hd]). by follow_header. }
  rewrite Hx. erewrite cache_mode_values by done. by eapply append_fetch_metadata_values.
Qed.

Lemma try_set_option_values hs (name : string) (value : option string) hs' (other : string) :
  try_set_option hs name value = Ok hs' -> differs other name -> header_values hs' other = header_values hs other.
Proof.
  unfold try_set_option. destruct value; [|by intros [= ->]]. intros Hs Hd. by eapply try_set_values.
Qed.

(** What the request's own headers become on the wire. *)
Record carries r (cookie : option string) (out : HeaderList) : Prop := {
  car_authorization : header_values out "authorization" = header_values (headers r) "authorization";
  car_cookie : match cookie with
               | None => header_values out "cookie" = header_values (headers r) "cookie"
               | Some c => exists v, normalize_value c = Ok v /\ header_values out "cookie" = [v]
               end;
  car_referer : match referrer_header r with
                | None => header_values out "referer" = header_values (headers r) "referer"
                | Some c => exists v, normalize_value c = Ok v /\ header_values out "referer" = [v]
                end;
  car_origin : if should_send_origin r
               then match req_origin r with
                    | Some o => exists v, normalize_value (Origin_serialize o) = Ok v /\ header_values out "origin" = [v]
                    | None => header_values out "origin" = header_values (headers r) "origin"
                    end
               else header_values out "origin" = header_values (headers r) "origin"
}.

Lemma early_names_differ (other : string) :
  other ∈ ["authorization"; "cookie"; "referer"; "origin"] -> Forall (differs other) early_names.
Proof.
  intros Hin. unfold differs. assert (Hall : forallb (fun other => forallb (fun n => negb (eq_ignore_ascii_case n other))
    early_names) ["authorization"; "cookie"; "referer"; "origin"] = true) by vm_refl.
  rewrite forallb_forall in Hall. apply list_elem_of_In in Hin. specialize (Hall _ Hin).
  rewrite forallb_forall in Hall. apply Forall_forall. intros n Hn%list_elem_of_In.
  by apply negb_true_iff, Hall.
Qed.

Lemma try_set_option_own hs (name : string) (value : option string) hs' :
  try_set_option hs name value = Ok hs' -> to_ascii_lowercase name = name ->
  match value with
  | None => header_values hs' name = header_values hs name
  | Some c => exists v, normalize_value c = Ok v /\ header_values hs' name = [v]
  end.
Proof.
  unfold try_set_option. destruct value; [|by intros [= ->]]. intros Hs Hl. by eapply try_set_own.
Qed.

Lemma outbound_carries r (url_list : list FetchUrl) hs (cookie : option string) out :
  headers_before_cookies r url_list = Ok hs -> headers_after_cookies hs r cookie = Ok out -> carries r cookie out.
Proof.
  intros Hb Ha. unfold headers_after_cookies in Ha. inv_res.
  assert (Hearly : forall other, other ∈ ["authorization"; "cookie"; "referer"; "origin"] ->
    header_values hs other = header_values (headers r) other).
  { intros other Ho. by eapply headers_before_cookies_values, early_names_differ. }
  split.
  - rewrite (try_set_option_values _ _ _ _ "authorization" Ha), (try_set_option_values _ _ _ _ "authorization" H0),
      (try_set_option_values _ _ _ _ "authorization" H) by (unfold differs; vm_refl). apply Hearly, string_in_spec; vm_refl.
  - pose proof (try_set_option_own _ _ _ _ H eq_refl) as Hc.
    rewrite (try_set_option_values _ _ _ _ "cookie" Ha), (try_set_option_values _ _ _ _ "cookie" H0) by (unfold differs; vm_refl).
    destruct cookie; [done|]. rewrite Hc. apply Hearly, string_in_spec; vm_refl.
  - pose proof (try_set_option_own _ _ _ _ H0 eq_refl) as Hc.
    rewrite (try_set_option_values _ _ _ _ "referer" Ha) by (unfold differs; vm_refl).
    destruct (referrer_header r); [done|].
    rewrite Hc, (try_set_option_values _ _ _ _ "referer" H) by (unfold differs; vm_refl). apply Hearly, string_in_spec; vm_refl.
  - pose proof (try_set_option_own _ _ _ _ Ha eq_refl) as Hc.
    assert (Hx : header_values x0 "origin" = header_values (headers r) "origin").
    { rewrite (try_set_option_values _ _ _ _ "origin" H0), (try_set_option_values _ _ _ _ "origin" H) by (unfold differs; vm_refl).
      apply Hearly, string_in_spec; vm_refl. }
    rewrite Hx in Hc. destruct (should_send_origin r); [destruct (req_origin r)|]; done.
Qed.

(** ** A program logic for fetches

    [does m Q]: from a browser whose cache is within its budgets, [m] leaves one
    that is, and appends to the record of exchanges a list that, with the result,
    satisfies [Q]. The other users of the locks keep the budgets too: they run
    the same code. *)
Context {ENV : Environment}.
Class FairOthers : Prop :=
  others_keep_budgets (w : World) (c : ResponseCache) (j : CookieState) :
    cache_ok c -> let '(_, c', _) := others w c j in cache_ok c'.
Context {FAIR : FairOthers}.

Definition does {A} (m : M A) (Q : list TransportRequest -> result Failure A -> Prop) : Prop :=
  forall b, cache_ok (response_cache b) ->
    cache_ok (response_cache (m b).1) /\ exists l, sent (m b).1 = sent b ++ l /\ Q l (m b).2.

(** Neither sends nor panics. *)
Definition calm {A} (l : list TransportRequest) (res : result Failure A) : Prop :=
  l = [] /\ forall p, res <> Err (Panics p).
Definition quiet {A} (m : M A) : Prop := does m calm.

Section rules.
Context {A B : Type}.
Implicit Types Q : list TransportRequest -> result Failure A -> Prop.

Lemma does_weaken (m : M A) Q Q' : does m Q -> (forall l res, Q l res -> Q' l res) -> does m Q'.
Proof. intros Hm HQ b Hb. destruct (Hm b Hb) as (? & l & ? & ?). split; [done|]. exists l. auto. Qed.

Lemma does_here (m : M A) Q :
  (forall b, response_cache (m b).1 = response_cache b /\ sent (m b).1 = sent b /\ Q [] (m b).2) -> does m Q.
Proof.
  intros Hm b Hb. destruct (Hm b) as (Hc & Hs & HQ). rewrite Hc, Hs. split; [done|].
  exists []. by rewrite app_nil_r.
Qed.

Lemma does_ret (a : A) Q : Q [] (Ok a) -> does (mret a) Q.
Proof. intros HQ. by apply does_here. Qed.

Lemma does_fails (e : FetchError) Q : Q [] (Err (Fails e)) -> does (fails e) Q.
Proof. intros HQ. by apply does_here. Qed.

Lemma does_bind (m : M B) (f : B -> M A) (R : list TransportRequest -> result Failure B -> Prop) Q :
  does m R ->
  (forall l a, R l (Ok a) -> does (f a) (fun k => Q (l ++ k))) ->
  (forall l e, R l (Err e) -> Q l (Err e)) -> does (m ≫= f) Q.
Proof.
  intros Hm Hf He b Hb. destruct (Hm b Hb) as (Hc & l & Hl & HR). unfold mbind, M_bind.
  destruct (m b) as [b1 [a|e]]; simpl in *.
  - destruct (Hf l a HR b1 Hc) as (Hc2 & k & Hk & HQ). split; [done|]. exists (l ++ k).
    by rewrite Hk, Hl, app_assoc.
  - split; [done|]. exists l. auto.
Qed.

(** A quiet step in front of the rest; its errors are the program's. *)
Lemma does_quiet_bind (m : M B) (f : B -> M A) Q :
  quiet m -> (forall a, does (f a) Q) -> (forall e, Q [] (Err (Fails e))) -> does (m ≫= f) Q.
Proof.
  intros Hm Hf He. eapply does_bind; [exact Hm|..].
  - intros l a [-> _]. eapply does_weaken; [apply Hf|done].
  - intros l [e|p] [-> Hp]; [done|by destruct (Hp p)].
Qed.

Lemma does_lift_bind (x : result FetchError B) (f : B -> M A) Q :
  (forall a, x = Ok a -> does (f a) Q) -> (forall e, x = Err e -> Q [] (Err (Fails e))) -> does (lift x ≫= f) Q.
Proof.
  intros Hf He. destruct x as [a|e]; [exact (Hf a eq_refl)|].
  apply does_here. intros b. split_and!; [done..|]. by apply He.
Qed.

End rules.

Lemma does_guard_bind {A} (g : bool) (e : FetchError) (f : () -> M A)
    (Q : list TransportRequest -> result Failure A -> Prop) :
  (g = true -> does (f tt) Q) -> Q [] (Err (Fails e)) -> does (lift (ensure g e) ≫= f) Q.
Proof.
  intros Hf He. apply does_lift_bind; [intros [] Hg; apply Hf; by apply ensure_Ok in Hg|].
  unfold ensure. destruct g; [done|]. by intros e' [= <-].
Qed.

Lemma calm_err {A} (e : FetchError) : @calm A [] (Err (Fails e)).
Proof. split; [done|by intros p [=]]. Qed.
Lemma calm_ok {A} (a : A) : calm [] (Ok a).
Proof. split; [done|by intros p [=]]. Qed.
#[local] Hint Resolve calm_err calm_ok : breeze.

Lemma quiet_ret {A} (a : A) : quiet (mret a).
Proof. apply does_ret. auto with breeze. Qed.

Lemma quiet_bind {A B} (m : M A) (f : A -> M B) : quiet m -> (forall a, quiet (f a)) -> quiet (m ≫= f).
Proof. intros Hm Hf. apply does_quiet_bind; auto with breeze. Qed.

Lemma quiet_lift {A} (res : result FetchError A) : quiet (lift res).
Proof. apply does_here. intros b. split_and!; [done..|]. unfold lift. destruct res; simpl; auto with breeze. Qed.

Lemma quiet_fails {A} (e : FetchError) : quiet (A := A) (fails e).
Proof. apply does_here. intros b. split_and!; [done..|]. simpl. auto with breeze. Qed.

Lemma quiet_network {A} (message : string) : quiet (A := A) (network message).
Proof. apply quiet_fails. Qed.

Lemma quiet_outside {A} (f : World -> World * A) : quiet (outside f).
Proof.
  apply does_here. intros b. unfold outside. destruct (f (world b)) as [w a]. split_and!; [done..|].
  simpl. auto with breeze.
Qed.

Lemma quiet_locked : quiet locked.
Proof.
  intros b Hb. unfold locked. pose proof (others_keep_budgets (world b) (response_cache b) (jar b) Hb) as Ho.
  destruct (others _ _ _) as [[w c] j]. simpl. split; [done|]. exists []. rewrite app_nil_r. auto with breeze.
Qed.

Lemma quiet_note (reply : Reply) : quiet (note reply).
Proof. apply does_here. intros b. split_and!; [done..|]. simpl. auto with breeze. Qed.

#[local] Hint Resolve quiet_ret quiet_lift quiet_fails quiet_network quiet_outside quiet_locked quiet_note : breeze.

(** Reads a program clause by clause. *)
Ltac quiet :=
  repeat first
  [ progress auto with breeze
  | apply quiet_bind; [|intros]
  | match goal with
    | |- quiet (match ?x with _ => _ end) => destruct x
    | |- quiet (let '(_, _) := ?x in _) => destruct x
    end ].

Lemma quiet_check_signal (s : FetchSignal) : quiet (check_signal s).
Proof. unfold check_signal. quiet. Qed.
Lemma quiet_instant : quiet instant.
Proof. unfold instant. quiet. Qed.
Lemma quiet_system_time : quiet system_time.
Proof. unfold system_time. quiet. Qed.

Lemma quiet_ask {A} (f : Browser -> A) : quiet (step (fun b => (b, Ok (f b)))).
Proof. apply does_here. intros b. split_and!; [done..|]. simpl. auto with breeze. Qed.

Lemma quiet_lock (poisoned : World -> bool) (message : string) : quiet (lock poisoned message).
Proof.
  unfold lock. apply quiet_bind; [auto with breeze|]. intros _. apply quiet_bind; [apply quiet_ask|].
  intros []; [apply quiet_network|auto with breeze].
Qed.

Lemma quiet_lock_jar : quiet lock_jar.
Proof. apply quiet_lock. Qed.
Lemma quiet_lock_cache : quiet lock_cache.
Proof. apply quiet_lock. Qed.
#[local] Hint Resolve quiet_lock quiet_lock_jar quiet_lock_cache quiet_ask : breeze.

Lemma quiet_with_jar {A} (f : CookieState -> CookieState * A) : quiet (with_jar f).
Proof.
  unfold with_jar. apply quiet_bind; [auto with breeze|]. intros _. apply does_here. intros b. unfold step.
  destruct (f (jar b)). split_and!; [done..|]. simpl. auto with breeze.
Qed.

Lemma quiet_step_outside {A} (f : Browser -> World -> World * A) : quiet (step (fun b => outside (f b) b)).
Proof.
  apply does_here. intros b. unfold step, outside. destruct (f b (world b)). split_and!; [done..|].
  simpl. auto with breeze.
Qed.

#[local] Hint Resolve quiet_check_signal quiet_instant quiet_system_time quiet_with_jar : breeze.

Lemma quiet_persist_if (changed : bool) : quiet (persist_if changed).
Proof.
  unfold persist_if. destruct (changed && jar_on_disk); quiet.
  apply (quiet_step_outside (fun b w => persist_cookies w (jar b))).
Qed.
#[local] Hint Resolve quiet_persist_if : breeze.

(** The cache's loop ends, because the budgets held before. *)
Lemma quiet_insert_locked (e : CachedResponse) : quiet (insert_locked e).
Proof.
  intros b Hb. unfold insert_locked, step.
  destruct (insert_response_ok _ e Hb) as (c & Hc & Hok). rewrite Hc. simpl. split; [done|].
  exists []. rewrite app_nil_r. auto with breeze.
Qed.
#[local] Hint Resolve quiet_insert_locked : breeze.

Lemma quiet_cache_insert (e : CachedResponse) : quiet (cache_insert e).
Proof. unfold cache_insert. quiet. Qed.

Lemma quiet_cache_finish (e : CachedResponse) : quiet (cache_finish e).
Proof. unfold cache_finish. quiet. Qed.
#[local] Hint Resolve quiet_cache_insert quiet_cache_finish : breeze.

Lemma quiet_attempt {A} (m : M A) : quiet m -> quiet (attempt m).
Proof.
  intros Hm b Hb. destruct (Hm b Hb) as (Hc & l & Hl & -> & Hp). unfold attempt, step.
  destruct (m b) as [b1 [a|[e|p]]]; simpl in *; [..|by destruct (Hp p)];
    (split; [done|]); exists []; auto with breeze.
Qed.

Lemma quiet_read_available (s : TransportBodyStream) : quiet (read_available s).
Proof. unfold read_available. quiet. Qed.

Lemma quiet_transport_next_chunk (s : TransportBodyStream) : quiet (transport_next_chunk s).
Proof.
  unfold transport_next_chunk. destruct (st_finished s); [auto with breeze|].
  apply quiet_bind; [apply quiet_attempt, quiet_read_available|auto with breeze].
Qed.
#[local] Hint Resolve quiet_transport_next_chunk : breeze.

Lemma quiet_cookie_header_value r : quiet (cookie_header_value r).
Proof. unfold cookie_header_value. quiet. Qed.

Lemma quiet_store_cookies r (l : list string) : quiet (store_cookies r l).
Proof. induction l as [|c l IH]; simpl; quiet. Qed.

Lemma quiet_store_response_cookies r hs : quiet (store_response_cookies r hs).
Proof. unfold store_response_cookies. destruct (credentials_permitted r); [apply quiet_store_cookies|quiet]. Qed.

Lemma quiet_lookup_response r hs : quiet (lookup_response r hs).
Proof.
  unfold lookup_response. destruct (_ && _); [|quiet]. apply quiet_bind; [quiet|]. intros _.
  apply quiet_bind; [apply quiet_ask|]. intros found. destruct found; quiet.
Qed.

Lemma quiet_may_reuse r (e : CachedResponse) : quiet (may_reuse r e).
Proof. unfold may_reuse, check_fresh. destruct (cache r); quiet. Qed.

Lemma quiet_respond_cached r (url_list : list FetchUrl) (e : CachedResponse) : quiet (respond_cached r url_list e).
Proof. unfold respond_cached. quiet. Qed.

Lemma quiet_revalidate (t : TransportStreamResponse) (cached : option CachedResponse) : quiet (revalidate t cached).
Proof. unfold revalidate. destruct cached; [destruct (_ && _)|]; quiet. Qed.

Lemma quiet_new_candidate r hs (t : TransportStreamResponse) (at_ : N) : quiet (new_candidate r hs t at_).
Proof. unfold new_candidate. quiet. Qed.

Lemma quiet_resolve r (location : string) : quiet (resolve r location).
Proof.
  apply does_here. intros b. unfold resolve, step. destruct (FetchUrl_resolve _ _ _) as [[u n]|e];
    (split_and!; [done..|]); simpl; auto with breeze.
Qed.

#[local] Hint Resolve quiet_cookie_header_value quiet_store_response_cookies quiet_lookup_response
  quiet_may_reuse quiet_respond_cached quiet_revalidate quiet_new_candidate quiet_resolve : breeze.

(** ** Streams are bounded *)

(** What a read of a stream can be: every chunk holds a byte at least and keeps
    the total within the limit. *)
Definition chunk_fact (s : TransportBodyStream)
    (res : result Failure (TransportBodyStream * result FetchError (option (list byte)))) : Prop :=
  forall s' read, res = Ok (s', read) -> st_limit s' = st_limit s /\
    forall chunk, read = Ok (Some chunk) ->
      0 < length chunk /\ st_received s' = (st_received s + N.of_nat (length chunk))%N /\
      (st_received s' <= st_limit s)%N.

Lemma transport_next_chunk_does (s : TransportBodyStream) :
  does (transport_next_chunk s) (fun l res => calm l res /\ chunk_fact s res).
Proof.
  unfold transport_next_chunk. destruct (st_finished s).
  { apply does_ret. split; [auto with breeze|]. intros s' read [= <- <-]. by split. }
  apply does_quiet_bind; [apply quiet_attempt, quiet_read_available| |].
  2:{ intros e. split; [auto with breeze|]. by intros s' read [=]. }
  intros read. apply does_ret. split; [auto with breeze|]. intros s' x. destruct read as [[|a buffer]|e].
  - intros [= <- <-]. by split.
  - destruct (checked_add _ _) as [n|] eqn:Hn; intros [= <- <-]; [|by split].
    apply checked_add_Some in Hn as [-> _]. split; [done|]. intros chunk.
    destruct (N.ltb_spec (st_limit s) (st_received s + N.of_nat (length (a :: buffer)))) as [|Hle]; [done|].
    intros [= <-]. cbn [st_received]. split_and!; [simpl; lia|done|done].
  - intros [= <- <-]. by split.
Qed.

(** The bytes the stream may still deliver. *)
Definition room (s : TransportBodyStream) : nat := N.to_nat (st_limit s - st_received s).

Lemma drain_does (fuel : nat) (s : TransportBodyStream) (body : Body) :
  room s < fuel -> does (drain fuel s body) (fun l res => calm l res /\ res <> Ok None).
Proof.
  revert s body. induction fuel as [|fuel IH]; intros s body Hf; [lia|]. simpl.
  eapply does_bind; [apply transport_next_chunk_does|..].
  2:{ intros l e [[-> Hp] _]. split; [split; [done|]|done]. intros p [= ->]. by apply (Hp p). }
  intros l [s' read] [[-> _] Hfact]. destruct (Hfact _ _ eq_refl) as [Hlim Hchunk].
  apply does_lift_bind; [|intros e _; split; [auto with breeze|done]].
  intros [chunk|] ->; [|apply does_ret; split; [auto with breeze|done]].
  destruct (Hchunk _ eq_refl) as (Hpos & Hrec & Hle). destruct (Body_push body chunk) as [body' pushed].
  apply does_lift_bind; [|intros e _; split; [auto with breeze|done]].
  intros [] _. eapply does_weaken; [apply IH|done]. unfold room in *. lia.
Qed.

(** Sends [t], or fails before it does; never panics. *)
Definition sends_once {A} (t : TransportRequest) (l : list TransportRequest) (res : result Failure A) : Prop :=
  (l = [] \/ l = [t]) /\ forall p, res <> Err (Panics p).

Lemma sends_once_calm {A} (t : TransportRequest) (l : list TransportRequest) (res : result Failure A) :
  calm l res -> sends_once t l res.
Proof. intros [-> Hp]. split; [by left|done]. Qed.

Lemma quiet_winhttp {A} (f : World -> World * result string A) : quiet (winhttp f).
Proof. unfold winhttp. quiet. Qed.
#[local] Hint Resolve quiet_winhttp : breeze.

Lemma send_does (t : TransportRequest) (handle : Handle) :
  does (send t handle) (fun l res => l = [t] /\ forall p, res <> Err (Panics p)).
Proof.
  unfold send. eapply (does_bind _ _ (fun l res => l = [t] /\ exists a, res = Ok a)).
  - intros b Hb. unfold step. destruct (send_request _ _ _ _) as [w res]. simpl. split; [done|].
    exists [t]. split; [done|]. split; [done|]. by eexists.
  - intros l answer [-> _]. eapply does_weaken; [apply quiet_lift|]. intros k res [-> Hp]. by split.
  - by intros l e [-> [a [=]]].
Qed.

(** A stream starts with nothing received of its limit. *)
Definition opened (t : TransportRequest) (res : result Failure TransportStreamResponse) : Prop :=
  forall x, res = Ok x -> st_received (tp_body x) = 0%N /\ st_limit (tp_body x) = tr_response_body_limit t.

Lemma receive_does (t : TransportRequest) (handle : Handle) :
  does (receive t handle) (fun l res => calm l res /\ opened t res).
Proof.
  assert (Herr : forall e, @calm TransportStreamResponse [] (Err (Fails e)) /\ opened t (Err (Fails e))).
  { intros e. split; [auto with breeze|done]. }
  unfold receive. repeat (apply does_quiet_bind; [auto with breeze|intros ?|done]).
  apply does_ret. split; [auto with breeze|]. by intros x [= <-].
Qed.

Lemma send_once_stream_does (t : TransportRequest) :
  does (send_once_stream t) (fun l res => sends_once t l res /\ opened t res /\ (is_ok res = true -> l = [t])).
Proof.
  assert (Herr : forall e, sends_once t [] (@Err _ TransportStreamResponse (Fails e)) /\ opened t (Err (Fails e)) /\
    (is_ok (@Err _ TransportStreamResponse (Fails e)) = true -> [] = [t])).
  { intros e. split_and!; [apply sends_once_calm; auto with breeze|done|done]. }
  unfold send_once_stream. apply does_quiet_bind; [auto with breeze|intros _|done].
  apply does_lift_bind; [intros parsed _|done].
  apply does_quiet_bind; [auto with breeze|intros handle|done].
  apply does_lift_bind; [intros [] _|done].
  apply does_quiet_bind; [auto with breeze|intros _|done].
  eapply does_bind; [apply send_does|..].
  - intros l [] [-> _]. eapply does_weaken; [apply receive_does|]. intros k res [[-> Hp] Ho].
    split_and!; [split; [by right|done]|done|done].
  - intros l e [-> Hp]. split_and!; [split; [by right|]|done|done]. intros p [= ->]. by apply (Hp p).
Qed.

Lemma send_once_does (t : TransportRequest) : does (send_once t) (sends_once t).
Proof.
  unfold send_once. eapply does_bind; [apply send_once_stream_does|..].
  - intros l x ([_ _] & Ho & Hl). destruct (Ho x eq_refl) as [Hrec Hlim]. rewrite (Hl eq_refl).
    eapply does_bind; [apply drain_does|..].
    + unfold room, chunk_fuel. rewrite Hrec, Hlim. lia.
    + intros k [[]|] [[-> _] Hno]; [|done]. apply does_ret. split; [by right|done].
    + intros k e [[-> Hp] _]. split; [by right|]. intros p [= ->]. by apply (Hp p).
  - intros l e ([Hl Hp] & _). split; [done|]. intros p [= ->]. by apply (Hp p).
Qed.

(** ** The turns of the loop *)

(** What [r0] is after redirects: another target, fewer headers, a method and
    a body that a redirect rewrote. *)
Record derived r0 r : Prop := {
  der_same : r = with_target r0 (req_url r) (method r) (headers r) (body r);
  der_headers : headers r `sublist_of` headers r0;
  der_authorization : url_origin (req_url r) = url_origin (req_url r0) \/
    header_values (headers r) "authorization" = []
}.

(** A preflight for [r], or the exchange itself with its browser-made headers. *)
Definition made_for r (t : TransportRequest) : Prop :=
  (needs_preflight r = true /\ exists o hs, req_origin r = Some o /\
     preflight_headers r (Origin_serialize o) = Ok hs /\ t = preflight_request r hs) \/
  (exists cookie out cached, carries r cookie out /\
     (cookie <> None -> credentials_permitted r = true) /\
     t = exchange_request r (from_option (fun e => add_validator e out) out cached)).

(** The request state [r] was admitted at the [count]-th redirect. *)
Record admitted r0 r (count : N) : Prop := {
  adm_derived : derived r0 r;
  adm_count : (count <= MAX_REDIRECTS)%N;
  adm_policy : check_request_policy r count = Ok tt;
  adm_same_origin : mode r = SameOriginMode -> needs_cors_check r = false
}.

Definition admitted_exchange r0 (t : TransportRequest) : Prop :=
  exists r count, admitted r0 r count /\ made_for r t.

Lemma header_remove_sublist hs (name : string) : header_remove hs name `sublist_of` hs.
Proof. unfold header_remove, HeaderList. apply sublist_filter. Qed.

Lemma foldl_remove_sublist hs (names : list string) : foldl header_remove hs names `sublist_of` hs.
Proof.
  revert hs. induction names as [|n names IH]; intros hs; simpl; [done|].
  etrans; [apply IH|apply header_remove_sublist].
Qed.

Lemma header_values_sublist_nil hs hs' (name : string) :
  hs' `sublist_of` hs -> header_values hs name = [] -> header_values hs' name = [].
Proof.
  unfold header_values, HeaderList in *. intros Hs Hn. apply fmap_nil_inv in Hn.
  apply (filter_sublist_mono (fun h => header_is name h)) in Hs. rewrite Hn in Hs.
  apply sublist_nil_r in Hs. by rewrite Hs.
Qed.

Lemma derived_refl r : derived r r.
Proof. split; [by destruct r|done|by left]. Qed.

(** A redirect keeps the request what it was, but for the target. *)
Lemma redirected_derived r0 r (status : N) (next_url : FetchUrl) :
  derived r0 r -> derived r0 (redirected r status next_url).
Proof.
  intros [Hsame Hhs Hauth]. set (hs := if is_same_origin (url_origin (req_url r)) (url_origin next_url) then headers r
                                       else header_remove (headers r) "authorization").
  assert (Hhs1 : hs `sublist_of` headers r).
  { unfold hs. destruct (is_same_origin _ _); [done|apply header_remove_sublist]. }
  assert (Hr1 : exists hs2 m b, redirected r status next_url = with_target r next_url m hs2 b /\
    hs2 `sublist_of` hs).
  { unfold redirected. fold hs. unfold rewrite_redirect_method. destruct (_ || _); simpl.
    - eexists _, _, _. split; [reflexivity|]. apply (foldl_remove_sublist hs content_headers).
    - eexists _, _, _. by split. }
  destruct Hr1 as (hs2 & m & b & -> & Hs2). split; simpl.
  - by rewrite Hsame.
  - by etrans; [exact Hs2|etrans].
  - destruct (is_same_origin (url_origin (req_url r)) (url_origin next_url)) eqn:Ho.
    + apply bool_decide_eq_true in Ho. rewrite <- Ho. destruct Hauth as [|Hauth]; [by left|right].
      eapply header_values_sublist_nil; [exact Hs2|]. by eapply header_values_sublist_nil.
    + right. eapply header_values_sublist_nil; [exact Hs2|]. unfold hs. apply header_values_remove_same.
Qed.

(** What part of a turn sends: at most [n] exchanges, all admitted, no panic. *)
Definition sends {A} r0 (n : nat) (l : list TransportRequest) (res : result Failure A) : Prop :=
  length l <= n /\ Forall (admitted_exchange r0) l /\ forall p, res <> Err (Panics p).

Lemma sends_calm {A} r0 (n : nat) (l : list TransportRequest) (res : result Failure A) :
  calm l res -> sends r0 n l res.
Proof. intros [-> Hp]. split_and!; [simpl; lia|done|done]. Qed.

Lemma sends_error {A} r0 (n : nat) (e : FetchError) : @sends A r0 n [] (Err (Fails e)).
Proof. apply sends_calm; auto with breeze. Qed.

Lemma run_preflight_does r0 r (count : N) :
  admitted r0 r count -> needs_preflight r = true -> does (run_preflight r) (sends r0 1).
Proof.
  intros Ha Hn. unfold run_preflight. destruct (req_origin r) as [o|] eqn:Ho.
  2:{ unfold needs_preflight, needs_cors_check in Hn. by rewrite Ho in Hn. }
  apply does_lift_bind; [|intros e _; apply sends_error]. intros hs Hhs.
  eapply does_bind; [apply send_once_does|..].
  - intros l [status response] [Hl _]. eapply does_weaken.
    + assert (Hq : quiet (if ((200 <=? status) && (status <=? 299))%N then lift (validate_preflight_response r response)
                     else fails (cors_error ("CORS preflight returned HTTP " +:+ pretty status)))) by quiet.
      exact Hq.
    + intros k res [-> Hp]. rewrite app_nil_r. split_and!; [|destruct Hl as [->| ->]|done].
      * destruct Hl as [->| ->]; simpl; lia.
      * constructor.
      * constructor; [|constructor]. exists r, count. split; [done|]. left. split; [done|]. by exists o, hs.
  - intros l e [Hl Hp]. split_and!; [destruct Hl as [->| ->]; simpl; lia|destruct Hl as [->| ->]|].
    + constructor.
    + constructor; [|constructor]. exists r, count. split; [done|]. left. split; [done|]. by exists o, hs.
    + intros p [= ->]. by apply (Hp p).
Qed.

Lemma admit_does r0 r (count : N) :
  derived r0 r -> (count <= MAX_REDIRECTS)%N ->
  does (turn_checks r count) (fun l res => sends r0 1 l res /\ (res = Ok tt -> admitted r0 r count)).
Proof.
  intros Hd Hc. unfold turn_checks.
  apply does_quiet_bind; [auto with breeze| |by intros e; split; [apply sends_error|]]. intros _.
  apply does_lift_bind; [|by intros e _; split; [apply sends_error|]]. intros [] Hpolicy.
  apply does_guard_bind; [|by split; [apply sends_error|]]. intros Hso%negb_true_iff.
  assert (Ha : admitted r0 r count).
  { split; try done. intros Hm. rewrite Hm, bool_decide_eq_true_2, andb_true_r in Hso by done. done. }
  destruct (needs_preflight r) eqn:Hn.
  - eapply does_weaken; [by apply (run_preflight_does r0 r count)|]. intros l res Hs. by split.
  - apply does_ret. split; [apply sends_calm; auto with breeze|done].
Qed.

(** ** The answers *)
Definition chunks_left (r : StreamingFetchResponse) : nat :=
  match sr_body r with
  | NetworkBody body _ => room body
  | MemoryBody bytes cursor => length bytes - cursor
  | EmptyBody => 0
  end.

(** The cursor of a body in memory stays inside it. *)
Definition body_ok (r : StreamingFetchResponse) : Prop :=
  match sr_body r with MemoryBody bytes cursor => cursor <= length bytes | _ => True end.

(** An answer to [r0], made for what it became through redirects. *)
Definition answer r0 (resp : StreamingFetchResponse) : Prop :=
  body_ok resp /\ sr_body_limit resp = response_body_limit r0.

Lemma derived_fields r0 r : derived r0 r ->
  context r = context r0 /\ mode r = mode r0 /\ req_origin r = req_origin r0 /\
  response_body_limit r = response_body_limit r0 /\ credentials r = credentials r0.
Proof. intros [Hr _ _]. by rewrite Hr. Qed.

Lemma filtered_answer r0 r (url_list : list FetchUrl) (status : N) full (body : StreamingBody) :
  derived r0 r -> match body with MemoryBody bytes cursor => cursor <= length bytes | _ => True end ->
  answer r0 (filtered_response r url_list status full body).
Proof.
  intros Hd Hbody. pose proof (derived_fields _ _ Hd) as (_ & _ & _ & Hlim & _).
  unfold answer, filtered_response, body_ok. rewrite <- Hlim. by destruct (_ && _).
Qed.

(** What a turn may hand to the next one, and what it may answer. *)
Definition goes_on r0 (count : N) (res : result Failure Turn) : Prop :=
  match res with
  | Ok (Again r _) => derived r0 r /\ (count < MAX_REDIRECTS)%N
  | Ok (Respond resp) => answer r0 resp
  | Err _ => True
  end.

Lemma goes_on_no {r0 count} {e : Failure} : goes_on r0 count (Err e).
Proof. done. Qed.

Lemma respond_cached_does r0 r (url_list : list FetchUrl) (e : CachedResponse) (count : N) :
  derived r0 r ->
  does (respond_cached r url_list e) (fun l res => calm l res /\ goes_on r0 count res).
Proof.
  intros Hd. unfold respond_cached. apply does_quiet_bind; [auto with breeze| |by intros e'; split; [auto with breeze|]].
  intros now. apply does_ret. split; [auto with breeze|]. simpl. apply filtered_answer; [done|simpl; lia].
Qed.

Lemma conclude_does r0 r (url_list : list FetchUrl) hs (count at_ : N) (t : TransportStreamResponse) :
  derived r0 r -> (count <= MAX_REDIRECTS)%N ->
  does (conclude r url_list hs count at_ t) (fun l res => calm l res /\ goes_on r0 count res).
Proof.
  intros Hd Hc. pose proof (derived_fields _ _ Hd) as (_ & _ & _ & Hlim & _).
  assert (Herr : forall e, @calm Turn [] (Err (Fails e)) /\ goes_on r0 count (Err (Fails e))).
  { intros e. split; [auto with breeze|apply goes_on_no]. }
  unfold conclude. destruct (if is_redirect_status _ then _ else _) as [location|].
  - destruct (redirect r).
    + destruct (N.eqb_spec count MAX_REDIRECTS); [by apply does_fails|].
      apply does_quiet_bind; [auto with breeze| |done]. intros next_url. apply does_ret.
      split; [auto with breeze|]. simpl. split; [by apply redirected_derived|lia].
    + by apply does_fails.
    + apply does_ret. split; [auto with breeze|]. simpl. unfold manual_redirect, answer, body_ok. rewrite <- Hlim.
      by case_bool_decide.
  - apply does_quiet_bind; [auto with breeze| |done]. intros c. apply does_ret.
    split; [auto with breeze|]. simpl. by apply filtered_answer.
Qed.

Lemma go_to_network_does r0 r (url_list : list FetchUrl) (out : HeaderList) (cached : option CachedResponse)
    (count : N) (cookie : option string) out0 :
  admitted r0 r count -> carries r cookie out0 -> (cookie <> None -> credentials_permitted r = true) ->
  out = from_option (fun e => add_validator e out0) out0 cached ->
  does (go_to_network r url_list out cached count) (fun l res => sends r0 1 l res /\ goes_on r0 count res).
Proof.
  intros Ha Hcar Hcred Hout. unfold go_to_network.
  assert (Hone : forall A l (res : result Failure A), sends_once (exchange_request r out) l res -> sends r0 1 l res).
  { intros A l res [Hl Hp]. split_and!; [destruct Hl as [->| ->]; simpl; lia| |done].
    destruct Hl as [->| ->]; [constructor|]. constructor; [|constructor]. exists r, count. split; [done|].
    right. exists cookie, out0, cached. split_and!; [done|done|by rewrite Hout]. }
  apply does_quiet_bind; [auto with breeze| |intros e; split; [apply sends_error|apply goes_on_no]].
  intros requested_at. eapply does_bind; [apply send_once_stream_does|..].
  2:{ intros l e (Hs & _). split; [apply Hone|apply goes_on_no]. destruct Hs as [? Hp]. split; [done|].
      intros p [= ->]. by apply (Hp p). }
  intros l transport ([Hl _] & _).
  assert (Hrest : does (_ ← store_response_cookies r (tp_headers transport);
      confirmed ← revalidate transport cached;
      match confirmed with
      | Some e => _ ← lift (validate_cors_response r (cr_headers e)); _ ← cache_insert e; respond_cached r url_list e
      | None => _ ← lift (validate_cors_response r (tp_headers transport));
                conclude r url_list out count requested_at transport
      end) (fun k res => calm k res /\ goes_on r0 count res)).
  { assert (Herr : forall e, @calm Turn [] (Err (Fails e)) /\ goes_on r0 count (Err (Fails e))).
    { intros e. split; [auto with breeze|apply goes_on_no]. }
    apply does_quiet_bind; [auto with breeze| |done]. intros _.
    apply does_quiet_bind; [auto with breeze| |done]. intros [e|].
    - apply does_lift_bind; [intros [] _|intros e' _; done]. apply does_quiet_bind; [auto with breeze| |done].
      intros _. apply respond_cached_does, Ha.
    - apply does_lift_bind; [intros [] _|intros e' _; done]. apply conclude_does; apply Ha. }
  eapply does_weaken; [exact Hrest|]. intros k res [[-> Hp] Hg]. rewrite app_nil_r. split; [|done].
  apply Hone. split; [done|done].
Qed.

(** One turn makes at most two exchanges: a preflight and the request. *)
Lemma turn_does r0 r (url_list : list FetchUrl) (count : N) :
  derived r0 r -> (count <= MAX_REDIRECTS)%N ->
  does (turn r url_list count) (fun l res => sends r0 2 l res /\ goes_on r0 count res).
Proof.
  intros Hd Hc. unfold turn. eapply does_bind; [by apply (admit_does r0 r count)|..].
  2:{ intros l e [(Hl & Hall & Hp) _]. split; [|apply goes_on_no]. split_and!; [lia|done|].
      intros p [= ->]. by apply (Hp p). }
  intros l [] [(Hl & Hall & _) Ha]. specialize (Ha eq_refl).
  set (Q := fun (k : list TransportRequest) (res : result Failure Turn) => sends r0 1 k res /\ goes_on r0 count res).
  apply (does_weaken _ Q).
  2:{ intros k res [(Hk & Hall' & Hp) Hg]. split; [|done]. split_and!; [rewrite length_app; lia| |done].
      by apply Forall_app. }
  assert (Herr : forall e, Q [] (Err (Fails e))) by (intros e; split; [apply sends_error|apply goes_on_no]).
  unfold outbound_headers. apply (does_bind _ _ (fun k res => calm k res /\
    forall out, res = Ok out -> exists cookie, carries r cookie out /\ (cookie <> None -> credentials_permitted r = true))).
  { apply does_lift_bind; [|intros e _; split; [auto with breeze|done]]. intros hs Hhs.
    destruct (credentials_permitted r) eqn:Hcp.
    - apply does_quiet_bind; [auto with breeze| |intros e; split; [auto with breeze|done]]. intros cookie.
      apply does_here. intros b. split; [done|split; [done|]]. unfold lift.
      destruct (headers_after_cookies hs r cookie) as [out|e] eqn:Hout; simpl; (split; [auto with breeze|]); [|done].
      intros out' [= <-]. exists cookie. split; [by eapply outbound_carries|done].
    - apply does_here. intros b. split; [done|split; [done|]]. unfold mbind, M_bind, mret, M_ret, lift. simpl.
      destruct (headers_after_cookies hs r None) as [out|e] eqn:Hout; simpl; (split; [auto with breeze|]); [|done].
      intros out' [= <-]. exists None. split; [by eapply outbound_carries|done]. }
  2:{ intros k [e|p] [[-> Hp] _]; [apply Herr|by destruct (Hp p)]. }
  intros k out [[-> _] Hout]. destruct (Hout out eq_refl) as (cookie & Hcar & Hcred).
  apply does_quiet_bind; [auto with breeze| |done]. intros cached.
  apply does_quiet_bind; [destruct cached; quiet| |done]. intros reuse.
  assert (Hnet : does (if bool_decide (cache r = OnlyIfCached)
      then network "only-if-cached request has no reusable HTTP cache entry"
      else go_to_network r url_list (from_option (fun e => add_validator e out) out cached) cached count) Q).
  { case_bool_decide; [by apply does_fails|].
    by eapply go_to_network_does. }
  destruct cached as [e|]; [|exact Hnet]. destruct reuse; [|exact Hnet].
  apply does_lift_bind; [intros [] _|by intros e' _].
  eapply does_weaken; [by apply (respond_cached_does r0 r url_list e count)|].
  intros k res [Hcalm Hg]. split; [by apply sends_calm|done].
Qed.

(** What a fetch can come to. *)
Definition answered r0 (res : result Failure StreamingFetchResponse) : Prop :=
  forall resp, res = Ok resp -> answer r0 resp.

Lemma redirect_loop_does r0 (turns : nat) (count : N) r (url_list : list FetchUrl) :
  derived r0 r -> (N.of_nat turns + count = MAX_REDIRECTS + 1)%N -> (count <= MAX_REDIRECTS)%N ->
  does (redirect_loop turns count r url_list) (fun l res => sends r0 (2 * turns) l res /\ answered r0 res).
Proof.
  revert count r url_list. induction turns as [|turns IH]; intros count r url_list Hd Hsum Hc; [lia|].
  cbn [redirect_loop]. eapply does_bind; [by apply (turn_does r0 r url_list count)|..].
  - intros l [response|r' url_list'] [(Hl & Hall & Hp) Hg].
    + apply does_ret. rewrite app_nil_r. split; [split_and!; [lia|done|done]|]. by intros resp [= <-].
    + destruct Hg as [Hd' Hlt]. eapply does_weaken; [apply IH; [done|lia|lia]|].
      intros k res [(Hk & Hall' & Hp') Ha]. split; [|done].
      split_and!; [rewrite length_app; lia|by apply Forall_app|done].
  - intros l e [(Hl & Hall & Hp) _]. split; [|by intros resp [=]]. split_and!; [lia|done|].
    intros p [= ->]. by apply (Hp p).
Qed.

(** Two exchanges for each of the loop's turns. *)
Definition MAX_EXCHANGES : nat := 2 * (N.to_nat MAX_REDIRECTS + 1).

Lemma quiet_fetch_data_url r : quiet (fetch_data_url r).
Proof. unfold fetch_data_url. quiet. Qed.

Lemma fetch_stream_does r :
  does (fetch_stream r) (fun l res => sends (validate r).1 MAX_EXCHANGES l res /\ answered (validate r).1 res /\
    ((validate r).2 <> Ok tt -> l = [] /\ forall resp, res <> Ok resp)).
Proof.
  unfold fetch_stream. destruct (validate r) as [r0 valid]. cbn [fst snd].
  assert (Herr : forall e, sends r0 MAX_EXCHANGES [] (@Err _ StreamingFetchResponse (Fails e)) /\
    answered r0 (Err (Fails e)) /\ (valid <> Ok tt -> @nil TransportRequest = [] /\
      forall resp, @Err _ StreamingFetchResponse (Fails e) <> Ok resp)).
  { intros e. split_and!; [apply sends_error|by intros resp [=]|done]. }
  apply does_lift_bind; [intros [] ->|done].
  apply does_quiet_bind; [auto with breeze| |done]. intros _. apply does_lift_bind; [intros [] _|done].
  destruct (FetchUrl_is_data (req_url r0)) eqn:Hdata.
  - apply does_quiet_bind; [apply quiet_fetch_data_url| |done]. intros response. apply does_ret.
    split_and!; [apply sends_calm; auto with breeze| |done].
    intros resp [= <-]. split; [unfold body_ok; simpl; lia|done].
  - eapply does_weaken; [apply (redirect_loop_does r0 (N.to_nat MAX_REDIRECTS + 1) 0 r0 [req_url r0] (derived_refl r0))|].
    + by vm_compute.
    + by vm_compute.
    + intros l res [Hs Ha]. split_and!; [|done|done]. done.
Qed.

(** ** The buffered body *)

Definition progress (r : StreamingFetchResponse)
    (res : result Failure (StreamingFetchResponse * result FetchError (option (list byte)))) : Prop :=
  forall (r' : StreamingFetchResponse) chunk, res = Ok (r', Ok (Some chunk)) ->
    body_ok r' /\ chunks_left r' < chunks_left r /\ 0 < length chunk.

Lemma next_chunk_does (r : StreamingFetchResponse) :
  body_ok r -> does (next_chunk r) (fun l res => calm l res /\ progress r res).
Proof.
  intros Hok. unfold next_chunk, progress, chunks_left. unfold body_ok in Hok.
  destruct (sr_body r) as [body candidate|bytes cursor|] eqn:Hb.
  - eapply does_bind; [apply transport_next_chunk_does|..].
    2:{ intros l [e|p] [[-> Hp] _]; [split; [auto with breeze|done]|by destruct (Hp p)]. }
    intros l [body' read] [[-> _] Hfact]. destruct (Hfact _ _ eq_refl) as [Hlim Hchunk].
    destruct read as [[chunk|]|e].
    + apply does_ret. split; [auto with breeze|]. intros r' chunk' [= <- <-]. simpl.
      destruct (Hchunk _ eq_refl) as (Hpos & Hrec & Hle). unfold room. split_and!; [done|lia|done].
    + apply does_quiet_bind; [| |intros e; split; [auto with breeze|done]].
      * unfold finish_candidate. destruct candidate; [|quiet]. destruct (permitted _); quiet.
      * intros _. apply does_ret. split; [auto with breeze|by intros].
    + apply does_ret. split; [auto with breeze|by intros].
  - destruct (Nat.eqb_spec cursor (length bytes)); [apply does_ret; split; [auto with breeze|by intros]|].
    apply does_ret. split; [auto with breeze|]. intros r' chunk [= <- <-]. unfold body_ok. simpl.
    rewrite length_drop, length_take. unfold MAX_FETCH_STREAM_CHUNK_BYTES. split_and!; lia.
  - apply does_ret. split; [auto with breeze|by intros].
Qed.

Lemma buffer_chunks_does (fuel : nat) (r : StreamingFetchResponse) (body : Body) :
  body_ok r -> chunks_left r < fuel -> (Body_len body <= body_limit body < u64_max)%N ->
  does (buffer_chunks fuel r body) (fun l res => calm l res /\
    forall o, res = Ok o -> exists body', o = Some body' /\ (Body_len body' <= body_limit body)%N).
Proof.
  revert r body. induction fuel as [|fuel IH]; intros r body Hok Hf Hlen; [lia|]. simpl.
  eapply does_bind; [by apply next_chunk_does|..].
  2:{ intros l [e|p] [[-> Hp] _]; [split; [auto with breeze|done]|by destruct (Hp p)]. }
  intros l [r' read] [[-> _] Hprog].
  apply does_lift_bind; [|intros e _; split; [auto with breeze|done]].
  intros [chunk|] ->.
  2:{ apply does_ret. split; [auto with breeze|]. intros o [= <-]. exists body. split; [done|lia]. }
  destruct (Hprog _ _ eq_refl) as (Hok' & Hless & _). unfold Body_push.
  destruct (N.ltb_spec (body_limit body) (saturating_add (Body_len body) (N.of_nat (length chunk)))) as [Hbig|Hfits].
  - apply does_lift_bind; [done|]. intros e _. split; [auto with breeze|done].
  - apply does_lift_bind; [|intros e _; split; [auto with breeze|done]]. intros [] _.
    eapply does_weaken; [apply IH; [done|lia|]|done].
    apply N.nlt_ge in Hfits. rewrite saturating_add_gt in Hfits by lia. apply N.nlt_ge in Hfits.
    unfold Body_len in *. simpl. rewrite length_app. lia.
Qed.
End theory.
