(* ===== verification/FetchAnswers.v ===== *)
(** * FetchAnswers: what the responses of a fetch are made of

    A second program logic for the pipeline of FetchPipeline.v, over the record
    of the replies it took its responses from: a server's answer to one of the
    exchanges, or a stored entry found for the request. It carries [shown]: the
    status and the headers a page's script gets are those of the last reply. *)

From Stdlib Require Import ZArith Strings.Byte.
From S2P Require Import Prelude Text StrOps Limits Clock Origins Net Headers CspSources Csp FetchRequest Cors Cookies HttpCache FetchPolicy FetchPipeline FetchTheory.

Section answers.
Context {URL : UrlLib} {JOIN : UrlJoin} {PARTS : UrlParts} {DIGESTS : Digests} {SUFFIXES : PublicSuffixes}
  {CALENDAR : Calendar} {ENV : Environment}.
Implicit Types (r : FetchRequest) (b : Browser) (t : TransportRequest) (k l : list Reply).

(** ** The logic *)

(** [notes m Q]: [m] adds to the record a list that satisfies [Q] with its result. *)
Definition notes {A} (m : M A) (Q : list Reply -> result Failure A -> Prop) : Prop :=
  forall b, exists k, answers (m b).1 = answers b ++ k /\ Q k (m b).2.
Definition silent {A} (m : M A) : Prop := notes m (fun k _ => k = []).

Section rules.
Context {A B : Type}.
Implicit Types Q : list Reply -> result Failure A -> Prop.

Lemma notes_weaken (m : M A) Q Q' : notes m Q -> (forall k res, Q k res -> Q' k res) -> notes m Q'.
Proof. intros Hm HQ b. destruct (Hm b) as (k & ? & ?). exists k. auto. Qed.

Lemma notes_here (m : M A) Q : (forall b, answers (m b).1 = answers b /\ Q [] (m b).2) -> notes m Q.
Proof. intros Hm b. destruct (Hm b) as [-> HQ]. exists []. by rewrite app_nil_r. Qed.

Lemma notes_ret (a : A) Q : Q [] (Ok a) -> notes (mret a) Q.
Proof. intros HQ. by apply notes_here. Qed.

Lemma notes_bind (m : M B) (f : B -> M A) (R : list Reply -> result Failure B -> Prop) Q :
  notes m R -> (forall l a, R l (Ok a) -> notes (f a) (fun k => Q (l ++ k))) ->
  (forall l e, R l (Err e) -> Q l (Err e)) -> notes (m ≫= f) Q.
Proof.
  intros Hm Hf He b. destruct (Hm b) as (l & Hl & HR). unfold mbind, M_bind.
  destruct (m b) as [b1 [a|e]]; simpl in *; [|exists l; auto].
  destruct (Hf l a HR b1) as (k & Hk & HQ). exists (l ++ k). by rewrite Hk, Hl, app_assoc.
Qed.

Lemma notes_silent_bind (m : M B) (f : B -> M A) Q :
  silent m -> (forall a, notes (f a) Q) -> (forall e, Q [] (Err e)) -> notes (m ≫= f) Q.
Proof.
  intros Hm Hf He. eapply notes_bind; [exact Hm|..].
  - intros l a ->. apply Hf.
  - intros l e ->. apply He.
Qed.

Lemma notes_lift_bind (x : result FetchError B) (f : B -> M A) Q :
  (forall a, x = Ok a -> notes (f a) Q) -> (forall e, Q [] (Err e)) -> notes (lift x ≫= f) Q.
Proof.
  intros Hf He. destruct x as [a|e]; [exact (Hf a eq_refl)|]. apply notes_here. intros b. split; [done|]. apply He.
Qed.

Lemma silent_bind (m : M B) (f : B -> M A) : silent m -> (forall a, silent (f a)) -> silent (m ≫= f).
Proof. intros Hm Hf. by apply notes_silent_bind. Qed.
End rules.

Lemma silent_here {A} (m : M A) : (forall b, answers (m b).1 = answers b) -> silent m.
Proof. intros Hm. by apply notes_here. Qed.

Lemma silent_ret {A} (a : A) : silent (mret a).
Proof. by apply silent_here. Qed.
Lemma silent_lift {A} (res : result FetchError A) : silent (lift res).
Proof. by apply silent_here. Qed.
Lemma silent_fails {A} (e : FetchError) : silent (A := A) (fails e).
Proof. by apply silent_here. Qed.
Lemma silent_panics {A} (p : string) : silent (A := A) (panics p).
Proof. by apply silent_here. Qed.
Lemma silent_outside {A} (f : World -> World * A) : silent (outside f).
Proof. apply silent_here. intros b. unfold outside. by destruct (f (world b)). Qed.
Lemma silent_locked : silent locked.
Proof. apply silent_here. intros b. unfold locked. by destruct (others _ _ _) as [[w c] j]. Qed.
Lemma silent_ask {A} (f : Browser -> A) : silent (step (fun b => (b, Ok (f b)))).
Proof. by apply silent_here. Qed.
Lemma silent_step_outside {A} (f : Browser -> World -> World * A) : silent (step (fun b => outside (f b) b)).
Proof. apply silent_here. intros b. unfold step, outside. by destruct (f b (world b)). Qed.
Lemma silent_step_jar {A} (f : CookieState -> CookieState * A) :
  silent (step (fun b => let '(j, a) := f (jar b) in
    (mkBrowser (world b) (response_cache b) j (next_opaque_origin b) (sent b) (answers b), Ok a))).
Proof. apply silent_here. intros b. unfold step. by destruct (f (jar b)). Qed.
Lemma silent_insert_locked (e : CachedResponse) : silent (insert_locked e).
Proof. apply silent_here. intros b. unfold insert_locked, step. by destruct (insert_response _ _). Qed.
Lemma silent_resolve r (location : string) : silent (resolve r location).
Proof. apply silent_here. intros b. unfold resolve, step. by destruct (FetchUrl_resolve _ _ _) as [[u n]|e]. Qed.
Lemma silent_send t (handle : Handle) : silent (send t handle).
Proof.
  unfold send. apply silent_bind; [|intros a; apply silent_lift]. apply silent_here. intros b. unfold step.
  by destruct (send_request _ _ _ _).
Qed.

Create HintDb answers.
#[local] Hint Resolve silent_ret silent_lift silent_fails silent_panics silent_outside silent_locked silent_ask
  silent_step_outside silent_step_jar silent_insert_locked silent_resolve silent_send : answers.

(** Reads a program clause by clause. *)
Ltac silent :=
  repeat first
  [ progress auto with answers
  | apply silent_bind; [|intros]
  | match goal with
    | |- silent (match ?x with _ => _ end) => destruct x
    | |- silent (let '(_, _) := ?x in _) => destruct x
    end ].

Lemma silent_attempt {A} (m : M A) : silent m -> silent (attempt m).
Proof.
  intros Hm. apply silent_here. intros b. destruct (Hm b) as (k & Hk & ->). rewrite app_nil_r in Hk.
  unfold attempt, step. by destruct (m b) as [b1 [a|[e|p]]].
Qed.
#[local] Hint Resolve silent_attempt : answers.

Lemma silent_lock (poisoned : World -> bool) (message : string) : silent (lock poisoned message).
Proof. unfold lock, network. silent. Qed.
#[local] Hint Resolve silent_lock : answers.

Lemma silent_with_jar {A} (f : CookieState -> CookieState * A) : silent (with_jar f).
Proof. unfold with_jar, lock_jar. silent. Qed.
Lemma silent_persist_if (changed : bool) : silent (persist_if changed).
Proof.
  unfold persist_if, lock_jar. destruct (changed && jar_on_disk); silent.
Qed.
Lemma silent_winhttp {A} (f : World -> World * result string A) : silent (winhttp f).
Proof. unfold winhttp. silent. Qed.
Lemma silent_check_signal (s : FetchSignal) : silent (check_signal s).
Proof. unfold check_signal. silent. Qed.
Lemma silent_instant : silent instant.
Proof. unfold instant. silent. Qed.
Lemma silent_system_time : silent system_time.
Proof. unfold system_time. silent. Qed.
#[local] Hint Resolve silent_with_jar silent_persist_if silent_winhttp silent_check_signal silent_instant
  silent_system_time : answers.

Lemma silent_cache_insert (e : CachedResponse) : silent (cache_insert e).
Proof. unfold cache_insert, lock_cache. silent. Qed.
Lemma silent_transport_next_chunk (s : TransportBodyStream) : silent (transport_next_chunk s).
Proof.
  unfold transport_next_chunk. destruct (st_finished s); [auto with answers|].
  apply silent_bind; [apply silent_attempt; unfold read_available; silent|auto with answers].
Qed.
#[local] Hint Resolve silent_cache_insert silent_transport_next_chunk : answers.

Lemma silent_drain (fuel : nat) (s : TransportBodyStream) (body : Body) : silent (drain fuel s body).
Proof. revert s body. induction fuel as [|fuel IH]; intros s body; simpl; silent. Qed.
Lemma silent_store_response_cookies r hs : silent (store_response_cookies r hs).
Proof.
  unfold store_response_cookies. destruct (credentials_permitted r); [|silent].
  induction (header_values hs "set-cookie") as [|c cs IH]; simpl; silent.
Qed.
Lemma silent_outbound_headers r (url_list : list FetchUrl) : silent (outbound_headers r url_list).
Proof. unfold outbound_headers, cookie_header_value. silent. Qed.
Lemma silent_may_reuse r (e : CachedResponse) : silent (may_reuse r e).
Proof. unfold may_reuse, check_fresh. destruct (cache r); silent. Qed.
Lemma silent_new_candidate r hs (x : TransportStreamResponse) (at_ : N) : silent (new_candidate r hs x at_).
Proof. unfold new_candidate. silent. Qed.
Lemma silent_revalidate (x : TransportStreamResponse) (cached : option CachedResponse) : silent (revalidate x cached).
Proof. unfold revalidate. destruct cached; [destruct (_ && _)|]; silent. Qed.
#[local] Hint Resolve silent_drain silent_store_response_cookies silent_outbound_headers silent_may_reuse
  silent_new_candidate silent_revalidate : answers.

(** ** Replies *)

(** [t] is the exchange of [r], not its preflight. *)
Definition exchanged r t : Prop := t = exchange_request r (tr_headers t).
(** The entry that a lookup for [r] finds in some state of the shared cache. *)
Definition looked_up r (e : CachedResponse) : Prop := exists c out, lookup_cache c r out = Some e.

(** [read_from r k status hs full]: the last reply of [k] was to [r]; it has this
    status and these headers [hs]; [full] is [hs] with its age brought up to date
    when a stored entry was used. *)
Inductive read_from r : list Reply -> N -> HeaderList -> HeaderList -> Prop :=
  | read_network before t (status : N) hs :
      exchanged r t -> read_from r (before ++ [FromNetwork t status hs]) status hs hs
  | read_cached before e (now : N) :
      looked_up r e ->
      read_from r (before ++ [FromCache e]) (cr_status e) (cr_headers e) (response_headers e now)
  | read_revalidated before e t hs (received : Z) (at_ : N) e' (now : N) :
      looked_up r e -> exchanged r t -> revalidated e hs received at_ = Some e' ->
      read_from r (before ++ [FromCache e; FromNetwork t 304 hs]) (cr_status e') (cr_headers e')
        (response_headers e' now).

Lemma read_from_before r l k (status : N) hs full :
  read_from r k status hs full -> read_from r (l ++ k) status hs full.
Proof. intros [before ?|before ?|before ?]; rewrite app_assoc; by econstructor. Qed.

(** Nothing of the response is left. *)
Definition hidden (resp : StreamingFetchResponse) : Prop :=
  (sr_type resp = OpaqueResponse \/ sr_type resp = OpaqueRedirect) /\
  sr_status resp = 0%N /\ sr_headers resp = [] /\ sr_body resp = EmptyBody.

(** The response is the last reply, which passed the CORS check, with the
    headers script must not read left out. *)
Definition shown r k (resp : StreamingFetchResponse) : Prop :=
  (needs_cors_check r = true -> mode r <> NoCors) /\
  exists hs full, read_from r k (sr_status resp) hs full /\ validate_cors_response r hs = Ok tt /\
    sr_headers resp = cors_filtered_headers full r.

(** A [data:] URL is decoded, not fetched: its only header is the media type. *)
Definition local r (resp : StreamingFetchResponse) : Prop :=
  FetchUrl_is_data (req_url r) = true /\ sr_type resp = Basic /\
  Forall (fun h => header_name h = "content-type") (sr_headers resp).

(** What part of a turn for a script leads to, with everything noted before it. *)
Definition leads r0 k (res : result Failure Turn) : Prop :=
  match res with
  | Ok (Again r _) => derived r0 r
  | Ok (Respond resp) => context r0 = ScriptContext -> hidden resp \/ exists r, derived r0 r /\ shown r k resp
  | Err _ => True
  end.

Lemma filtered_leads r0 r k (url_list : list FetchUrl) (status : N) hs full (body : StreamingBody) :
  derived r0 r -> read_from r k status hs full -> validate_cors_response r hs = Ok tt ->
  leads r0 k (Ok (Respond (filtered_response r url_list status full body))).
Proof.
  intros Hd Hread Hv Hs. pose proof (derived_fields _ _ Hd) as (Hctx & _). rewrite <- Hctx in Hs.
  unfold filtered_response. rewrite (bool_decide_eq_true_2 _ Hs). simpl.
  destruct (needs_cors_check r && bool_decide (mode r = NoCors)) eqn:Hop; [left; by split; [left|]|right].
  exists r. split; [done|]. split; [|by exists hs, full].
  intros Hc Hm. by rewrite Hc, bool_decide_eq_true_2 in Hop.
Qed.

Lemma respond_cached_leads r0 r k (url_list : list FetchUrl) (e : CachedResponse) hs :
  derived r0 r -> (forall now, read_from r k (cr_status e) hs (response_headers e now)) ->
  validate_cors_response r hs = Ok tt ->
  notes (respond_cached r url_list e) (fun l res => leads r0 (k ++ l) res).
Proof.
  intros Hd Hread Hv. unfold respond_cached. apply notes_silent_bind; [auto with answers| |done].
  intros now. apply notes_ret. rewrite app_nil_r. by eapply filtered_leads.
Qed.

Lemma conclude_leads r0 r k (url_list : list FetchUrl) out (count at_ : N) (x : TransportStreamResponse) :
  derived r0 r -> read_from r k (tp_status x) (tp_headers x) (tp_headers x) ->
  validate_cors_response r (tp_headers x) = Ok tt ->
  notes (conclude r url_list out count at_ x) (fun l res => leads r0 (k ++ l) res).
Proof.
  intros Hd Hread Hv. pose proof (derived_fields _ _ Hd) as (Hctx & _).
  unfold conclude. destruct (if is_redirect_status _ then _ else _) as [location|].
  - destruct (redirect r).
    + destruct (count =? MAX_REDIRECTS)%N; [by apply notes_here|].
      apply notes_silent_bind; [auto with answers| |done]. intros next_url. apply notes_ret.
      by apply redirected_derived.
    + by apply notes_here.
    + apply notes_ret. intros Hs. rewrite <- Hctx in Hs. left. unfold manual_redirect.
      rewrite bool_decide_eq_true_2 by done. by split; [right|].
  - apply notes_silent_bind; [auto with answers| |done]. intros c. apply notes_ret. rewrite app_nil_r.
    by eapply filtered_leads.
Qed.

(** An answer that comes back is noted. *)
Lemma send_once_stream_notes t :
  notes (send_once_stream t) (fun k res => forall x, res = Ok x -> k = [FromNetwork t (tp_status x) (tp_headers x)]).
Proof.
  unfold send_once_stream. apply notes_silent_bind; [auto with answers|intros _|done].
  apply notes_lift_bind; [intros parsed _|done]. apply notes_silent_bind; [auto with answers|intros handle|done].
  apply notes_lift_bind; [intros _ _|done]. do 2 (apply notes_silent_bind; [auto with answers|intros _|done]).
  unfold receive. do 5 (apply notes_silent_bind; [auto with answers|intros ?|done]).
  apply notes_lift_bind; [intros hs _|done].
  intros b. eexists. split; [reflexivity|]. by intros x [= <-].
Qed.

Lemma run_preflight_notes r : notes (run_preflight r) (fun _ _ => True).
Proof.
  unfold run_preflight. destruct (req_origin r) as [o|]; [|by apply notes_here].
  apply notes_lift_bind; [intros hs _|done]. unfold send_once.
  eapply (notes_bind _ _ (fun _ _ => True)); [|intros l [status response] _|done].
  - eapply notes_bind; [eapply notes_weaken; [apply send_once_stream_notes|done]|intros l x _|done].
    apply notes_silent_bind; [auto with answers| |done]. intros []; by apply notes_here.
  - destruct (_ && _); by apply notes_here.
Qed.

Lemma turn_checks_notes r (count : N) : notes (turn_checks r count) (fun _ _ => True).
Proof.
  unfold turn_checks. apply notes_silent_bind; [auto with answers|intros _|done].
  do 2 (apply notes_lift_bind; [intros _ _|done]).
  destruct (needs_preflight r); [apply run_preflight_notes|by apply notes_ret].
Qed.

Lemma lookup_response_notes r out :
  notes (lookup_response r out) (fun k res =>
    forall cached, res = Ok cached ->
      match cached with Some e => k = [FromCache e] /\ looked_up r e | None => k = [] end).
Proof.
  unfold lookup_response. destruct (_ && _); [|apply notes_ret; by intros cached [= <-]].
  apply notes_silent_bind; [unfold lock_cache; auto with answers|intros _|done].
  eapply (notes_bind _ _ (fun k res => k = [] /\ forall found, res = Ok found -> forall e, found = Some e -> looked_up r e)).
  - apply notes_here. intros b. split_and!; [done|done|]. intros found [= <-] e He. by exists (response_cache b), out.
  - intros l [e|] [-> Hf]; [|apply notes_ret; by intros cached [= <-]].
    intros b. exists [FromCache e]. split; [done|]. intros cached [= <-]. split; [done|]. by apply (Hf (Some e)).
  - intros l e [-> _]. done.
Qed.

Lemma revalidate_notes (x : TransportStreamResponse) (cached : option CachedResponse) :
  notes (revalidate x cached) (fun k res => k = [] /\
    forall e, res = Ok (Some e) -> exists previous received at_, cached = Some previous /\
      tp_status x = 304%N /\ revalidated previous (tp_headers x) received at_ = Some e).
Proof.
  unfold revalidate. destruct cached as [previous|]; [|by apply notes_ret].
  destruct ((tp_status x =? 304)%N && has_validator previous) eqn:Hc; [|by apply notes_ret].
  apply andb_true_iff in Hc as [Hc%N.eqb_eq _].
  apply notes_silent_bind; [auto with answers|intros received|done].
  apply notes_silent_bind; [auto with answers|intros at_|done].
  apply notes_ret. split; [done|]. intros e [= He]. by exists previous, received, at_.
Qed.

(** [pre] is what the turn noted before it goes to the network. *)
Lemma go_to_network_leads r0 r pre (url_list : list FetchUrl) out (cached : option CachedResponse) (count : N) :
  derived r0 r ->
  (forall e, cached = Some e -> looked_up r e /\ exists before, pre = before ++ [FromCache e]) ->
  notes (go_to_network r url_list out cached count) (fun k res => leads r0 (pre ++ k) res).
Proof.
  intros Hd Hcached. unfold go_to_network. apply notes_silent_bind; [auto with answers|intros requested_at|done].
  eapply notes_bind; [apply send_once_stream_notes|intros l x Hl|done]. specialize (Hl x eq_refl) as ->.
  set (t := exchange_request r out). assert (Ht : exchanged r t) by done.
  apply notes_silent_bind; [auto with answers|intros _|done].
  eapply notes_bind; [apply revalidate_notes|intros l confirmed [-> Hconf]|done].
  eapply notes_weaken; [|intros k res Hk; rewrite app_nil_l, app_assoc; exact Hk].
  destruct confirmed as [e|].
  - apply notes_lift_bind; [intros [] Hv|done]. apply notes_silent_bind; [auto with answers|intros _|done].
    destruct (Hconf e eq_refl) as (previous & received & at_ & Hp & Hst & Hrev).
    destruct (Hcached previous Hp) as (Hlook & before & ->).
    eapply respond_cached_leads; [done| |exact Hv]. intros now. rewrite Hst, <- app_assoc. by econstructor.
  - apply notes_lift_bind; [intros [] Hv|done]. eapply conclude_leads; [done| |done]. by constructor.
Qed.

Lemma turn_leads r0 r (url_list : list FetchUrl) (count : N) :
  derived r0 r -> notes (turn r url_list count) (leads r0).
Proof.
  intros Hd. unfold turn. eapply notes_bind; [apply turn_checks_notes|intros l0 _ _|done].
  apply notes_silent_bind; [auto with answers|intros out|done].
  eapply notes_bind; [apply lookup_response_notes|intros l cached Hl|done]. specialize (Hl cached eq_refl).
  apply notes_silent_bind; [destruct cached; silent|intros reuse|done].
  assert (Hnet : notes (if bool_decide (cache r = OnlyIfCached)
      then network "only-if-cached request has no reusable HTTP cache entry"
      else go_to_network r url_list (from_option (fun e => add_validator e out) out cached) cached count)
      (fun k res => leads r0 (l0 ++ l ++ k) res)).
  { case_bool_decide; [by apply notes_here|].
    eapply notes_weaken; [apply (go_to_network_leads r0 r (l0 ++ l)); [done|]|intros k res; by rewrite app_assoc].
    intros e ->. destruct Hl as [-> Hlook]. split; [done|]. by exists l0. }
  destruct cached as [e|]; [|exact Hnet]. destruct reuse; [|exact Hnet]. destruct Hl as [-> Hlook].
  apply notes_lift_bind; [intros [] Hv|done].
  eapply notes_weaken; [eapply (respond_cached_leads r0 r (l0 ++ [FromCache e])); [done| |exact Hv]|].
  - intros now. by constructor.
  - intros k res. by rewrite app_assoc.
Qed.

Lemma shown_before r l k (resp : StreamingFetchResponse) : shown r k resp -> shown r (l ++ k) resp.
Proof.
  intros (Hm & hs & full & Hread & Hrest). split; [done|]. exists hs, full. split; [by apply read_from_before|done].
Qed.

(** What a fetch by a script comes to. *)
Definition told r0 k (res : result Failure StreamingFetchResponse) : Prop :=
  context r0 = ScriptContext ->
  forall resp, res = Ok resp -> hidden resp \/ local r0 resp \/ exists r, derived r0 r /\ shown r k resp.

Lemma redirect_loop_told r0 (turns : nat) (count : N) r (url_list : list FetchUrl) :
  derived r0 r -> notes (redirect_loop turns count r url_list) (told r0).
Proof.
  revert count r url_list. induction turns as [|turns IH]; intros count r url_list Hd; [by apply notes_here|].
  cbn [redirect_loop]. eapply notes_bind; [by apply turn_leads| |by intros l e _ _ resp [=]].
  intros l [response|r' url_list'] Hl.
  - apply notes_ret. rewrite app_nil_r. intros Hs resp [= <-]. destruct (Hl Hs); auto.
  - eapply notes_weaken; [by apply IH|]. intros k res Hk Hs resp Hresp.
    destruct (Hk Hs resp Hresp) as [|[|(r1 & Hd1 & Hsh)]]; [by auto..|]. right; right.
    exists r1. split; [done|]. by apply shown_before.
Qed.

Lemma fetch_data_url_local r : FetchUrl_is_data (req_url r) = true ->
  notes (fetch_data_url r) (fun _ res =>
    forall response, res = Ok response -> local r (from_buffered response (response_body_limit r))).
Proof.
  intros Hdata. unfold fetch_data_url. apply notes_silent_bind; [auto with answers|intros _|done].
  destruct (negb _); [by apply notes_here|]. destruct (_ && _); [by apply notes_here|].
  apply notes_lift_bind; [intros [media decoded] _|done]. apply notes_lift_bind; [intros data _|done].
  destruct (Body_push _ data) as [body pushed]. apply notes_lift_bind; [intros [] _|done].
  apply notes_lift_bind; [intros hs Hhs|done]. apply notes_ret. intros response [= <-].
  split_and!; [done|done|]. simpl. unfold try_append in Hhs. destruct (header_append _ _ _) as [hs1 [u|e]] eqn:Ha; [|done].
  injection Hhs as <-. apply header_append_cases in Ha as (n & v & Hn & _ & ->).
  assert (n = "content-type") as -> by (vm_compute in Hn; congruence). repeat constructor.
Qed.

Lemma fetch_stream_told r : notes (fetch_stream r) (told (validate r).1).
Proof.
  unfold fetch_stream. destruct (validate r) as [r0 valid]. cbn [fst].
  apply notes_lift_bind; [intros [] _|done]. apply notes_silent_bind; [auto with answers|intros _|done].
  apply notes_lift_bind; [intros [] _|done]. destruct (FetchUrl_is_data (req_url r0)) eqn:Hdata.
  - eapply notes_bind; [by apply fetch_data_url_local| |done]. intros l response Hl.
    apply notes_ret. intros _ resp [= <-]. right; left. by apply Hl.
  - apply redirect_loop_told, derived_refl.
Qed.
End answers.
