(* ===== verification/FetchSecurity.v ===== *)
(** * FetchSecurity: the guarantees of a whole fetch

    The theorems of the pipeline, from the program logic of FetchTheory.v: which
    exchanges leave the browser, that a fetch always comes to an end within its
    budgets, which secrets the exchanges may hold and what script gets to see. *)

From Stdlib Require Import ZArith Strings.Byte.
From S2P Require Import Prelude Text StrOps Limits Clock Origins Net Headers CspSources SimpleInstances Csp FetchRequest Cors Cookies HttpCache FetchPolicy FetchPipeline FetchTheory FetchAnswers.

Section security.
Context {URL : UrlLib} {JOIN : UrlJoin} {PARTS : UrlParts} {DIGESTS : Digests} {SUFFIXES : PublicSuffixes}
  {CALENDAR : Calendar} {ENV : Environment} {FAIR : FairOthers}.
Implicit Types (r : FetchRequest) (b : Browser) (t : TransportRequest).

(** ** The buffered body *)
Lemma chunks_left_fuel (s : StreamingFetchResponse) : body_ok s -> chunks_left s < body_fuel s.
Proof.
  unfold body_ok, chunks_left, body_fuel, chunk_fuel, room. destruct (sr_body s); lia.
Qed.

Lemma into_buffered_does (s : StreamingFetchResponse) :
  body_ok s -> (sr_body_limit s < u64_max)%N ->
  does (into_buffered s) (fun l res => calm l res /\
    forall response, res = Ok response -> (Body_len (fr_body response) <= sr_body_limit s)%N /\
      fr_headers response = sr_headers s).
Proof.
  intros Hok Hlim. unfold into_buffered. eapply does_bind; [apply buffer_chunks_does; [done|by apply chunks_left_fuel|]|..].
  - unfold Body_len. simpl. lia.
  - intros l o [[-> _] Ho]. destruct (Ho o eq_refl) as (body & -> & Hlen). apply does_ret. split; [apply calm_ok|].
    intros response [= <-]. by split.
  - intros l [e|p] [[-> Hp] _]; [split; [apply calm_err|done]|by destruct (Hp p)].
Qed.

Lemma validated_same r : req_url (validate r).1 = req_url r /\ headers (validate r).1 = headers r /\
  context (validate r).1 = context r /\ credentials (validate r).1 = credentials r /\
  req_origin (validate r).1 = req_origin r /\ response_body_limit (validate r).1 = response_body_limit r /\
  mode (validate r).1 = mode r.
Proof. unfold validate. destruct (negb _); [done|]. simpl. by destruct (string_in _ normalized_methods). Qed.

Lemma fetch_does r : (response_body_limit r < u64_max)%N ->
  does (fetch r) (fun l res => sends (validate r).1 MAX_EXCHANGES l res /\
    forall response, res = Ok response -> (Body_len (fr_body response) <= response_body_limit r)%N).
Proof.
  intros Hlim. pose proof (validated_same r) as (_ & _ & _ & _ & _ & Hvl & _).
  unfold fetch. eapply does_bind; [apply fetch_stream_does|..].
  - intros l s (Hs & Ha & _). destruct (Ha _ eq_refl) as [Hok Hbl]. rewrite Hvl in Hbl.
    eapply does_weaken; [apply into_buffered_does; [done|by rewrite Hbl]|].
    intros k res [[-> Hp] Hresp]. rewrite app_nil_r. split.
    + destruct Hs as (Hlen & Hall & _). split_and!; try done.
    + intros response Hres. rewrite <- Hbl. by apply Hresp.
  - intros l e (Hs & _ & _). split; [|done]. destruct Hs as (Hlen & Hall & Hp). split_and!; [done|done|].
    intros p [= ->]. by apply (Hp p).
Qed.

(** C5. Every exchange of a fetch was admitted: it was made for what the
    validated request became through at most [MAX_REDIRECTS] redirects, after
    the policy of the page allowed that target at that redirect count and with
    no cross-origin target in same-origin mode; it is that request with the
    browser's headers, or the preflight it needs. There are at most 42 of them,
    and none at all for a request that does not validate. *)
Theorem fetch_exchanges_admitted r b :
  cache_ok (response_cache b) ->
  exists l, sent (fetch_stream r b).1 = sent b ++ l /\ length l <= MAX_EXCHANGES /\
    Forall (admitted_exchange (validate r).1) l /\ ((validate r).2 <> Ok tt -> l = []).
Proof.
  intros Hb. destruct (fetch_stream_does r b Hb) as (_ & l & Hl & (Hlen & Hall & _) & _ & Hv).
  exists l. split_and!; [done|done|done|]. intros Hbad. by apply Hv.
Qed.

(** A response within the request's limit, or an error, but no panic. *)
Definition bounded_answer r (res : result Failure FetchResponse) : Prop :=
  match res with
  | Ok response => (Body_len (fr_body response) <= response_body_limit r)%N
  | Err (Fails _) => True
  | Err (Panics _) => False
  end.

(** C7. A fetch always comes to its end: whatever the network, the clock and
    the other users of the cache and the jar do, it returns a response or an
    error and reaches none of its panics (the redirect loop ends, the eviction
    loop ends, the body is drained); the body it returns keeps the request's
    limit, and the shared cache keeps its budgets. *)
Theorem fetch_always_answers r b :
  cache_ok (response_cache b) -> (response_body_limit r < u64_max)%N ->
  cache_ok (response_cache (fetch r b).1) /\ bounded_answer r (fetch r b).2.
Proof.
  intros Hb Hlim. destruct (fetch_does r Hlim b Hb) as (Hc & l & _ & (_ & _ & Hp) & Hbody). split; [done|].
  destruct (fetch r b).2 as [response|[e|p]]; [by apply Hbody|done|by destruct (Hp p)].
Qed.

(** ** Secrets *)
Lemma values_add_validator (e : CachedResponse) (hs : HeaderList) (other : string) :
  Forall (differs other) ["if-none-match"; "if-modified-since"] ->
  header_values (add_validator e hs) other = header_values hs other.
Proof.
  intros Hd. apply Forall_cons in Hd as [Hd1 Hd]. apply Forall_cons in Hd as [Hd2 _].
  assert (Hset : forall name v, differs other name -> header_values (header_set hs name v).1 other = header_values hs other).
  { intros name v Hn. eapply header_values_set; [apply surjective_pairing|exact Hn]. }
  unfold add_validator. destruct (_ || _); [done|].
  destruct (header_get _ "etag"); [exact (Hset _ _ Hd1)|].
  destruct (header_get _ "last-modified"); [exact (Hset _ _ Hd2)|done].
Qed.

Lemma values_preflight r (origin : string) (hs : HeaderList) (other : string) :
  Forall (differs other) ["origin"; "access-control-request-method"; "access-control-request-headers"] ->
  preflight_headers r origin = Ok hs -> header_values hs other = [].
Proof.
  intros Hd Hp. unfold differs in Hd. apply Forall_cons in Hd as [H1 Hd], Hd as [H2 Hd], Hd as [H3 _].
  unfold preflight_headers in Hp. destruct (try_append [] "origin" origin) as [hs1|] eqn:Ha; [|done]. simpl in Hp.
  destruct (try_append hs1 _ _) as [hs2|] eqn:Hb; [|done]. simpl in Hp.
  apply try_append_values with (other := other) in Ha; [|exact H1].
  apply try_append_values with (other := other) in Hb; [|exact H2].
  assert (Hx : header_values hs2 other = []) by (rewrite Hb, Ha; reflexivity).
  case_bool_decide; [by injection Hp as <-|]. apply try_append_values with (other := other) in Hp; [|exact H3].
  by rewrite Hp.
Qed.

Lemma validate_admissible r : (validate r).2 = Ok tt -> admissible (validate r).1.
Proof.
  destruct (valid_method (method r)) eqn:Hv; [|unfold validate; by rewrite Hv].
  rewrite validate_normalized by done. simpl. intros Hok. apply request_checks_ok; [by apply normalized_valid|].
  by rewrite Hok.
Qed.

Lemma script_cookie_free r : is_script_context (context r) = true -> Forall header_ok (headers r) ->
  (validate r).2 = Ok tt -> header_values (headers r) "cookie" = [].
Proof.
  intros Hc Hok Hv. assert (Ha : admissible (validate r).1) by by apply validate_admissible.
  pose proof (validated_same r) as (_ & Hh & Hctx & _). destruct Ha as [_ _ _ _ Hs]. rewrite Hctx, Hh in Hs.
  destruct (Hs Hc) as (_ & Hf & _). clear - Hf Hok. unfold header_values, HeaderList in *.
  induction (headers r) as [|h l IH]; [done|]. apply Forall_cons in Hf as [Hh Hf], Hok as [Hk Hok].
  rewrite filter_cons, decide_False; [by apply IH|]. intros He%Is_true_true.
  unfold header_is, eq_ignore_ascii_case in He. apply String.eqb_eq in He.
  destruct Hk as (_ & Hlow & _). rewrite Hlow in He. rewrite He in Hh. by vm_compute in Hh.
Qed.

(** The exchanges of a request made for [r], what they carry. *)
Lemma made_for_url r t : made_for r t -> tr_url t = req_url r.
Proof. intros [(_ & o & hs & _ & _ & ->)|(cookie & out & cached & _ & _ & ->)]; done. Qed.

Lemma sent_values (out : HeaderList) (cached : option CachedResponse) (other : string) :
  Forall (differs other) ["if-none-match"; "if-modified-since"] ->
  header_values (from_option (fun e => add_validator e out) out cached) other = header_values out other.
Proof. intros Hd. destruct cached; [by apply values_add_validator|done]. Qed.

Ltac distinct := repeat (apply List.Forall_cons; [unfold differs; vm_refl|]); apply List.Forall_nil.

Lemma sent_authorization r0 r t : derived r0 r -> made_for r t ->
  url_origin (tr_url t) = url_origin (req_url r0) \/ header_values (tr_headers t) "authorization" = [].
Proof.
  intros Hd Hm. rewrite (made_for_url _ _ Hm). destruct Hm as [(_ & o & hs & _ & Hp & ->)|(cookie & out & cached & Hc & _ & ->)].
  - right. eapply values_preflight; [|exact Hp]. distinct.
  - destruct (der_authorization _ _ Hd) as [|Ha]; [by left|right]. simpl. rewrite sent_values by distinct.
    by rewrite (car_authorization _ _ _ Hc).
Qed.

Lemma sent_cookie r0 r t : derived r0 r -> made_for r t -> header_values (headers r0) "cookie" = [] ->
  header_values (tr_headers t) "cookie" <> [] -> credentials_permitted r = true.
Proof.
  intros Hd Hm Hno Hc. destruct Hm as [(_ & o & hs & _ & Hp & ->)|(cookie & out & cached & Hcar & Hcred & ->)].
  - destruct Hc. eapply values_preflight; [|exact Hp]. distinct.
  - simpl in Hc. rewrite sent_values in Hc by distinct. destruct cookie as [c|]; [by apply Hcred|].
    destruct Hc. rewrite (car_cookie _ _ _ Hcar). eapply header_values_sublist_nil; [apply Hd|done].
Qed.

(** C2. Secrets stay where they belong: no exchange of a fetch, preflights
    and redirected ones included, carries an [Authorization] header to another
    origin than the one the request was made for; and an exchange made for a
    script holds a [Cookie] header only when the request includes credentials,
    or keeps them for its own origin and the exchange goes there. *)
Theorem fetch_keeps_secrets r b l t :
  cache_ok (response_cache b) -> sent (fetch_stream r b).1 = sent b ++ l -> t ∈ l ->
  (url_origin (tr_url t) <> url_origin (req_url r) -> header_values (tr_headers t) "authorization" = []) /\
  (is_script_context (context r) = true -> Forall header_ok (headers r) ->
   header_values (tr_headers t) "cookie" <> [] ->
   credentials r = Include \/
   credentials r = SameOriginCredentials /\ req_origin r = Some (url_origin (tr_url t))).
Proof.
  intros Hb Hl Ht. destruct (fetch_stream_does r b Hb) as (_ & k & Hk & (_ & Hall & _) & _ & Hv).
  rewrite Hl in Hk. apply app_inv_head in Hk as <-. rewrite Forall_forall in Hall.
  destruct (Hall _ Ht) as (r1 & count & Ha & Hm). pose proof (adm_derived _ _ _ Ha) as Hd.
  destruct (validated_same r) as (Hu & Hh & Hctx & Hcr & Ho & _). split.
  - intros Hne. rewrite <- Hu in Hne. destruct (sent_authorization _ _ _ Hd Hm) as [He|He]; [destruct (Hne He)|exact He].
  - intros Hs Hok Hc. assert (Hvalid : (validate r).2 = Ok tt).
    { destruct (validate r).2 as [[]|e]; [done|]. destruct (Hv ltac:(done)) as [-> _]. by apply elem_of_nil in Ht. }
    assert (Hcp : credentials_permitted r1 = true).
    { eapply sent_cookie; [exact Hd|exact Hm| |exact Hc]. rewrite Hh. by apply script_cookie_free. }
    destruct (derived_fields _ _ Hd) as (_ & _ & Ho1 & _ & Hc1). unfold credentials_permitted in Hcp.
    rewrite Hc1, Hcr, Ho1, Ho in Hcp. rewrite (made_for_url _ _ Hm).
    destruct (credentials r); [done| |by left]. right. split; [done|]. destruct (req_origin r); [|done].
    unfold is_same_origin in Hcp. by apply bool_decide_eq_true in Hcp as ->.
Qed.

(** ** What script sees *)

(** A response script may look into: it is the last reply the fetch got, to what
    the request became; for a cross-origin target the server shared that reply in
    CORS mode; and its headers are exactly those of the reply (with its age
    brought up to date, for a stored one) that script may read. *)
Definition readable_answer r0 r (k : list Reply) (resp : StreamingFetchResponse) : Prop :=
  derived r0 r /\
  exists hs full, read_from r k (sr_status resp) hs full /\
    (needs_cors_check r = true -> mode r0 = CorsMode /\ shares_with r hs \/ mode r0 = Navigate) /\
    forall h, h ∈ sr_headers resp <->
      h ∈ full /\ is_forbidden_response_header (header_name h) = false /\
      (needs_cors_check r = true -> mode r0 = CorsMode ->
       is_cors_safelisted_response_header (header_name h) = true \/
       header_name h <> "*" /\ header_name h ∈ token_list hs "access-control-expose-headers" \/
       credentials r0 <> Include /\ "*" ∈ token_list hs "access-control-expose-headers").

Lemma response_headers_values (e : CachedResponse) (now : N) (name : string) :
  differs name "age" -> header_values (response_headers e now) name = header_values (cr_headers e) name.
Proof.
  intros Hd. unfold response_headers. destruct (header_set _ _ _) as [hs res] eqn:Hs. simpl.
  by eapply header_values_set.
Qed.

Lemma read_from_exposes r k (status : N) hs full :
  read_from r k status hs full ->
  token_list full "access-control-expose-headers" = token_list hs "access-control-expose-headers".
Proof.
  assert (Hage : forall e now, token_list (response_headers e now) "access-control-expose-headers" =
                               token_list (cr_headers e) "access-control-expose-headers").
  { intros e now. unfold token_list. by rewrite response_headers_values by (unfold differs; vm_refl). }
  by intros [].
Qed.

Lemma shown_readable r0 r k (resp : StreamingFetchResponse) :
  derived r0 r -> shown r k resp -> readable_answer r0 r k resp.
Proof.
  intros Hd (Hnc & hs & full & Hread & Hv & Hheaders). destruct (derived_fields _ _ Hd) as (_ & Hm & _ & _ & Hcr).
  split; [done|]. exists hs, full. split_and!; [done| |].
  - intros Hcors. specialize (Hnc Hcors). unfold validate_cors_response in Hv. rewrite Hcors in Hv. simpl in Hv.
    rewrite <- Hm. destruct (mode r); [by right|done|done|left]. split; [done|]. by apply validate_allow_origin_ok.
  - intros h. rewrite Hheaders, cors_filter_exposes_exactly. unfold readable.
    by rewrite (read_from_exposes _ _ _ _ _ Hread), Hm, Hcr.
Qed.

(** C3. What a page's script gets from a fetch is one of three things: an
    opaque response with no status, no header and no body; the decoding of a
    [data:] URL, with nothing but its media type; or the last reply the fetch got
    from a server or from the store, with that reply's status. When that reply
    came from another origin in CORS mode, its headers name the page's origin
    (or everybody, without credentials), and script gets exactly those of its
    headers that are safelisted or that it exposes; never a [Set-Cookie]. *)
Theorem script_sees_only_shared r b resp :
  context r = ScriptContext -> (fetch_stream r b).2 = Ok resp ->
  exists k, answers (fetch_stream r b).1 = answers b ++ k /\
    (hidden resp \/ local r resp \/ exists r', readable_answer (validate r).1 r' k resp).
Proof.
  intros Hs Hresp. destruct (fetch_stream_told r b) as (k & Hk & Ht).
  destruct (validated_same r) as (Hu & _ & Hctx & _). rewrite <- Hctx in Hs.
  exists k. split; [done|]. destruct (Ht Hs resp Hresp) as [Hh|[Hl|(r' & Hd & Hsh)]]; [by left|right; left|right; right].
  - unfold local in *. by rewrite Hu in Hl.
  - exists r'. by apply shown_readable.
Qed.
End security.

(** ** A concrete environment *)

(** The server's answers in order, the body of the last one and a clock. *)
Record DemoWorld := mkDemoWorld {
  replies : list (N * string * list byte);
  last_status : N;
  last_headers : string;
  pending : list byte;
  ticks : N
}.

#[global] Instance demo_environment : Environment := {|
  World := DemoWorld;
  Handle := ();
  aborted_now w := (∅, w);
  instant_now w := (ticks w, mkDemoWorld (replies w) (last_status w) (last_headers w) (pending w) (ticks w + 1));
  system_now w := (Z.of_N (ticks w), w);
  others w c j := (w, c, j);
  jar_poisoned _ := false;
  cache_poisoned _ := false;
  persistence_poisoned _ := false;
  jar_on_disk := true;
  persist_cookies w _ := (w, Ok tt);
  open_request w _ _ _ := (w, Ok tt);
  send_request w _ _ _ := (w, Ok tt);
  receive_response w _ :=
    match replies w with
    | (status, raw, body) :: rest => (mkDemoWorld rest status raw body (ticks w), Ok tt)
    | [] => (w, Err "no answer")
    end;
  query_status w _ := (w, Ok (last_status w));
  query_raw_headers w _ := (w, Ok (last_headers w));
  query_data_available w _ := (w, Ok (N.of_nat (length (pending w))));
  read_data w _ n := (mkDemoWorld (replies w) (last_status w) (last_headers w) (drop (N.to_nat n) (pending w)) (ticks w),
                      Ok (take (N.to_nat n) (pending w)));
  process_data_url _ := Err "no data"
|}.

#[global] Instance demo_join : UrlJoin := {|
  url_join _ s := simple_parse s;
  url_cannot_be_a_base _ := false;
  url_fragment := su_fragment;
  url_set_path u p := mkSimpleUrl (su_scheme u) (su_host u) (su_port u) p (su_query u) (su_fragment u)
|}.

#[global] Instance demo_fair : FairOthers.
Proof. intros w c j Hc. exact Hc. Qed.

(** A page's script asks its own origin, with a secret and a custom header; the
    server redirects to another origin, which grants the preflight. *)
Definition demo_url (s : string) : FetchUrl :=
  match FetchUrl_parse 1 s with Ok (u, _) => u | Err _ => mkFetchUrl s DataUrl (Opaque 0) end.
Definition demo_script (url : string) (hs : HeaderList) : FetchRequest :=
  mkFetchRequest [] RequestClient_default RequestClient_default RequestClient_default (demo_url url) "get" hs
    None false ScriptContext Fetch None CorsMode false SameOriginCredentials DefaultCache Follow
    (Some (url_origin (demo_url "https://app.test/"))) (ReferrerUrl (demo_url "https://app.test/page"))
    StrictOriginWhenCrossOrigin FetchSignal_default 1000.
Definition demo_fetch : FetchRequest :=
  demo_script "https://app.test/data" [mkHeader "authorization" "Basic c2VjcmV0"; mkHeader "x-token" "1"].

(** The header block of an answer: a status line, then the headers. *)
Definition raw_headers (l : list string) : string :=
  String.concat EmptyString ((fun line => line +:+ String "013" (String "010" EmptyString)) <$> ("HTTP/1.1" :: l)).

Definition demo_browser : Browser := mkBrowser
  (mkDemoWorld
     [(302%N, raw_headers ["Location: https://api.test/data"], []);
      (204%N, raw_headers ["Access-Control-Allow-Origin: https://app.test";
                           "Access-Control-Allow-Headers: X-Token"], []);
      (200%N, raw_headers ["Access-Control-Allow-Origin: *"; "Content-Type: text/plain";
                           "Access-Control-Expose-Headers: X-Rate"; "X-Rate: 7";
                           "X-Internal: 9"; "Set-Cookie: id=1"], [x68; x69])] 0 EmptyString [] 0)
  (mkResponseCache [] 0) CookieState_default 1 [] [].

Definition demo_result := fetch demo_fetch demo_browser.

Example demo_exchanges :
  ((fun t => (serialized (tr_url t), tr_method t, header_values (tr_headers t) "authorization",
              header_values (tr_headers t) "referer")) <$> sent demo_result.1) =
    [("https://app.test/data", "GET", ["Basic c2VjcmV0"], ["https://app.test/page"]);
     ("https://api.test/data", "OPTIONS", [], []);
     ("https://api.test/data", "GET", [], ["https://app.test/"])] /\
  match demo_result.2 with
  | Ok response => fr_status response = 200%N /\ header_name <$> fr_headers response = ["content-type"; "x-rate"] /\
                   body_bytes (fr_body response) = [x68; x69]
  | Err _ => False
  end.
Proof. split; [vm_refl|]. vm_compute. done. Qed.

Lemma demo_cache_ok : cache_ok (response_cache demo_browser).
Proof. split; [vm_refl|split; by vm_compute|apply List.Forall_nil]. Qed.

Definition demo_stream := fetch_stream demo_fetch demo_browser.

Lemma fetch_exchanges_admitted_witness :
  length (sent demo_stream.1) = 3 /\
  exists l, sent demo_stream.1 = sent demo_browser ++ l /\ length l <= MAX_EXCHANGES /\
    Forall (admitted_exchange (validate demo_fetch).1) l /\ ((validate demo_fetch).2 <> Ok tt -> l = []).
Proof. exact (conj eq_refl (fetch_exchanges_admitted demo_fetch demo_browser demo_cache_ok)). Defined.

Lemma demo_limit : (response_body_limit demo_fetch < u64_max)%N.
Proof. by vm_compute. Qed.

Lemma fetch_always_answers_witness :
  (response_body_limit demo_fetch < u64_max)%N /\ cache_ok (response_cache demo_result.1) /\
  bounded_answer demo_fetch demo_result.2.
Proof. exact (conj demo_limit (fetch_always_answers demo_fetch demo_browser demo_cache_ok demo_limit)). Defined.

(** The second hop: another origin, so the secret stayed behind. *)
Lemma fetch_keeps_secrets_witness :
  exists t, nth_error (sent demo_stream.1) 2 = Some t /\ header_values (tr_headers t) "authorization" = [].
Proof.
  destruct (nth_error (sent demo_stream.1) 2) as [t|] eqn:Ht; [|by vm_compute in Ht]. exists t. split; [done|].
  apply (fetch_keeps_secrets demo_fetch demo_browser (sent demo_stream.1) t demo_cache_ok eq_refl).
  - apply list_elem_of_In. exact (nth_error_In _ _ Ht).
  - vm_compute in Ht. injection Ht as <-. vm_compute. done.
Defined.

Lemma demo_succeeds : is_ok (fetch_stream demo_fetch demo_browser).2 = true.
Proof. vm_refl. Qed.

Lemma demo_script_context : context demo_fetch = ScriptContext.
Proof. vm_refl. Qed.

(** The answers of the two hops and of the preflight between them. *)
Lemma script_sees_only_shared_witness :
  length (answers demo_stream.1) = 3 /\
  exists resp, (fetch_stream demo_fetch demo_browser).2 = Ok resp /\
    exists k, answers (fetch_stream demo_fetch demo_browser).1 = answers demo_browser ++ k /\
      (hidden resp \/ local demo_fetch resp \/ exists r', readable_answer (validate demo_fetch).1 r' k resp).
Proof.
  split; [vm_refl|].
  pose proof demo_succeeds as Hok. destruct (fetch_stream demo_fetch demo_browser).2 as [resp|e] eqn:Hr; [|discriminate Hok]. exists resp.
  exact (conj eq_refl (script_sees_only_shared demo_fetch demo_browser resp demo_script_context Hr)).
Defined.
