(* ===== verification/Keys.v ===== *)
(** * Keys: IndexedDB's keys, their order and key ranges

    src/indexed_db/model/keys.rs, and the error type of
    src/indexed_db/model/types.rs. [key_cmp] is [Ord for Key], [key_eqb] the
    derived [PartialEq], which the code mixes: they agree on the finite keys
    that [Key::validate] lets through. The order is shown lawful by an order
    embedding into sequences of integers, the encoding a sorted store could use. *)

From Stdlib Require Import Strings.Byte.
From S2P Require Import Prelude Text Float64.

(** ** Errors (src/indexed_db/model/types.rs) *)
Inductive DbError :=
  | Data (message : string)
  | InvalidState (message : string)
  | Constraint (message : string)
  | ReadOnlyError
  | Version
  | Quota
  | Persistence (message : string).
#[global] Instance DbError_eq_dec : EqDecision DbError.
Proof. solve_decision. Defined.

Definition DbError_name (e : DbError) : string :=
  match e with
  | Data _ => "DataError"
  | InvalidState _ => "InvalidStateError"
  | Constraint _ => "ConstraintError"
  | ReadOnlyError => "ReadOnlyError"
  | Version => "VersionError"
  | Quota => "QuotaExceededError"
  | Persistence _ => "UnknownError"
  end.

Definition DbError_fmt (e : DbError) : string :=
  match e with
  | Data message | InvalidState message | Constraint message => message
  | ReadOnlyError => "transaction is read-only"
  | Version => "database version changed"
  | Quota => "IndexedDB origin quota exceeded"
  | Persistence message => message
  end.

(** ** Limits of src/indexed_db/model.rs *)
Definition MAX_ORIGIN_BYTES : N := 16 * 1024 * 1024.
Definition MAX_DATABASE_BYTES : N := 64 * 1024 * 1024.
Definition MAX_NAME_BYTES : N := 1024.
Definition MAX_OPERATIONS : N := 256.

(** ** Keys *)
#[global] Instance byte_cmp : TotalCmp byte := cmp_on Byte.to_N.
#[global] Instance byte_cmp_laws : TotalCmpLaws byte.
Proof. apply cmp_on_laws. Qed.
#[global] Instance byte_to_N_inj : Inj (=) (=) Byte.to_N.
Proof. intros x y Hxy. apply (inj Some). by rewrite <- !Byte.of_to_N, Hxy. Qed.

Inductive Key :=
  | Number (number : f64)
  | Date (time : f64)
  | KeyString (text : string)
  | Binary (data : list byte)
  | Array (members : list Key).

Definition key_rank (k : Key) : N :=
  match k with
  | Number _ => 0
  | Date _ => 1
  | KeyString _ => 2
  | Binary _ => 3
  | Array _ => 4
  end.

(** [Ord::cmp]. The last arm is the code's [unreachable!()]: keys of one rank
    have one constructor. *)
Fixpoint key_cmp (left right : Key) : comparison :=
  match cmp (key_rank left) (key_rank right) with
  | Eq =>
      match left, right with
      | Number a, Number b | Date a, Date b =>
          if f64_eqb a 0 && f64_eqb b 0 then Eq else total_cmp a b
      | KeyString a, KeyString b => cmp (encode_utf16 a) (encode_utf16 b)
      | Binary a, Binary b => cmp a b
      | Array a, Array b => @list_cmp Key key_cmp a b
      | _, _ => Eq
      end
  | ordering => ordering
  end.
#[global] Instance Key_cmp : TotalCmp Key := key_cmp.

(** Derived [PartialEq]; [Vec] compares lengths and then elements. *)
Fixpoint list_eqb {A} (eqb : A -> A -> bool) (l k : list A) : bool :=
  match l, k with
  | [], [] => true
  | x :: l, y :: k => eqb x y && list_eqb eqb l k
  | _, _ => false
  end.

Fixpoint key_eqb (left right : Key) : bool :=
  match left, right with
  | Number a, Number b | Date a, Date b => f64_eqb a b
  | KeyString a, KeyString b => String.eqb a b
  | Binary a, Binary b => list_eqb Byte.eqb a b
  | Array a, Array b => list_eqb key_eqb a b
  | _, _ => false
  end.

Fixpoint Key_validate (depth : N) (k : Key) : result DbError () :=
  if (32 <? depth)%N then Err (Data "key nesting exceeds the supported limit")
  else
    match k with
    | Number v | Date v => if is_finite v then Ok tt else Err (Data "a key must be finite")
    | KeyString v => if (MAX_ORIGIN_BYTES <? byte_length v)%N then Err Quota else Ok tt
    | Binary v => if (MAX_ORIGIN_BYTES <? N.of_nat (length v))%N then Err Quota else Ok tt
    | Array values =>
        if (MAX_OPERATIONS <? N.of_nat (length values))%N then Err Quota
        else try_for_each (Key_validate (depth + 1)) values
    end.

(** ** Key ranges *)
Record KeyRange := mkRange {
  lower : option Key;
  upper : option Key;
  lower_open : bool;
  upper_open : bool
}.

Definition is_gt (c : comparison) : bool := match c with Gt => true | _ => false end.
Definition is_lt (c : comparison) : bool := match c with Lt => true | _ => false end.
Definition is_eq (c : comparison) : bool := match c with Eq => true | _ => false end.

Definition KeyRange_validate (r : KeyRange) : result DbError () :=
  _ ← match lower r with Some lower => Key_validate 0 lower | None => Ok tt end;
  _ ← match upper r with Some upper => Key_validate 0 upper | None => Ok tt end;
  match lower r, upper r with
  | Some lower, Some upper =>
      if is_gt (cmp lower upper)
         || (key_eqb lower upper && (lower_open r || upper_open r))
      then Err (Data "empty or inverted key range") else Ok tt
  | _, _ => Ok tt
  end.

Definition KeyRange_contains (r : KeyRange) (key : Key) : bool :=
  match lower r with
  | None => true
  | Some lower => if lower_open r then is_gt (cmp key lower) else negb (is_lt (cmp key lower))
  end
  && match upper r with
     | None => true
     | Some upper => if upper_open r then is_lt (cmp key upper) else negb (is_gt (cmp key upper))
     end.

(** * Theory *)
Section key_induction.
Variable P : Key -> Prop.
Hypothesis P_Number : forall v, P (Number v).
Hypothesis P_Date : forall v, P (Date v).
Hypothesis P_KeyString : forall v, P (KeyString v).
Hypothesis P_Binary : forall v, P (Binary v).
Hypothesis P_Array : forall ks, Forall P ks -> P (Array ks).

Fixpoint key_induction (k : Key) : P k :=
  match k with
  | Number v => P_Number v
  | Date v => P_Date v
  | KeyString v => P_KeyString v
  | Binary v => P_Binary v
  | Array ks =>
      P_Array ks ((fix go (ks : list Key) : Forall P ks :=
        match ks with
        | [] => Forall_nil_2 P
        | k :: ks => Forall_cons_2 P k ks (key_induction k) (go ks)
        end) ks)
  end.
End key_induction.

(** ** The order embedding *)
Definition terminated (l : list N) : list Z := ((fun u => Z.of_N u + 1)%Z <$> l) ++ [0%Z].

Fixpoint key_code (k : Key) : list Z :=
  match k with
  | Number v => [0%Z; number_rank v]
  | Date v => [1%Z; number_rank v]
  | KeyString v => 2%Z :: terminated (encode_utf16 v)
  | Binary v => 3%Z :: terminated (Byte.to_N <$> v)
  | Array ks => 4%Z :: (ks ≫= fun k => 1%Z :: key_code k) ++ [0%Z]
  end.

Definition cmp_then (c d : comparison) : comparison := match c with Eq => d | _ => c end.

Lemma list_cmp_cons {K} `{TotalCmp K} (x y : K) l k :
  list_cmp (x :: l) (y :: k) = cmp_then (cmp x y) (list_cmp l k).
Proof. simpl. by destruct (cmp x y). Qed.

Lemma cmp_then_eq (c : comparison) : cmp_then c Eq = c.
Proof. by destruct c. Qed.

Lemma cmp_then_assoc (a b c : comparison) :
  cmp_then (cmp_then a b) c = cmp_then a (cmp_then b c).
Proof. by destruct a. Qed.

Lemma list_cmp_terminated (u v : list N) (l k : list Z) :
  list_cmp (terminated u ++ l) (terminated v ++ k) = cmp_then (list_cmp u v) (list_cmp l k).
Proof.
  unfold terminated. revert v. induction u as [|a u IH]; intros [|b v]; simpl.
  - done.
  - unfold cmp, Z_cmp. by rewrite (proj2 (Z.compare_lt_iff _ _)) by lia.
  - unfold cmp, Z_cmp. by rewrite (proj2 (Z.compare_gt_iff _ _)) by lia.
  - rewrite IH. unfold cmp at 1, Z_cmp, cmp, N_cmp.
    assert (Z.compare (Z.of_N a + 1) (Z.of_N b + 1) = N.compare a b) as ->.
    { destruct (N.compare_spec a b); zcompare. }
    by destruct (N.compare a b).
Qed.

Lemma list_cmp_fmap {A K} `{TotalCmp K} (f : A -> K) (l k : list A) :
  list_cmp (f <$> l) (f <$> k) = @list_cmp A (cmp_on f) l k.
Proof.
  revert k. induction l as [|x l IH]; intros [|y k]; simpl; try done. by rewrite IH.
Qed.

Lemma number_cmp_rank (a b : f64) :
  (if f64_eqb a 0 && f64_eqb b 0 then Eq else total_cmp a b)
  = Z.compare (number_rank a) (number_rank b).
Proof.
  rewrite !f64_eqb_zero. destruct (is_zero a && is_zero b) eqn:Hz.
  - unfold number_rank. apply andb_true_iff in Hz as [-> ->]. done.
  - by apply total_cmp_rank.
Qed.

Lemma number_code_cmp (tag : Z) (a b : f64) (l k : list Z) :
  list_cmp ([tag; number_rank a] ++ l) ([tag; number_rank b] ++ k)
  = cmp_then (if f64_eqb a 0 && f64_eqb b 0 then Eq else total_cmp a b) (list_cmp l k).
Proof.
  rewrite number_cmp_rank. cbn [app]. rewrite !list_cmp_cons, cmp_refl. reflexivity.
Qed.

Lemma key_code_cmp (x y : Key) (l k : list Z) :
  list_cmp (key_code x ++ l) (key_code y ++ k) = cmp_then (cmp x y) (list_cmp l k).
Proof.
  revert y l k. induction x as [a|a|s|bs|xs IH] using key_induction; intros y l k;
    destruct y as [b|b|t|cs|ys]; try reflexivity.
  - apply number_code_cmp.
  - apply number_code_cmp.
  - change (key_code ?x ++ l) with (2%Z :: terminated (encode_utf16 s) ++ l).
    simpl. apply list_cmp_terminated.
  - simpl. rewrite list_cmp_terminated, list_cmp_fmap. reflexivity.
  - change (cmp (Array xs) (Array ys)) with (@list_cmp Key key_cmp xs ys). simpl.
    rewrite <- !app_assoc. simpl. revert ys. induction IH as [|x xs Hx _ IHl]; intros [|y ys].
    + reflexivity.
    + reflexivity.
    + reflexivity.
    + simpl. rewrite <- !app_assoc, Hx, IHl. by destruct (cmp x y).
Qed.

Lemma key_cmp_code (x y : Key) : cmp x y = list_cmp (key_code x) (key_code y).
Proof.
  rewrite <- (app_nil_r (key_code x)), <- (app_nil_r (key_code y)), key_code_cmp.
  simpl. by destruct (cmp x y).
Qed.

#[global] Instance Key_cmp_laws : TotalCmpLaws Key.
Proof.
  split; intros *; rewrite ?key_cmp_code.
  - apply (cmp_antisym (K := list Z)).
  - apply (cmp_eq_compat (K := list Z)).
  - apply (cmp_lt_trans (K := list Z)).
Qed.

(** ** Equality *)
Fixpoint finite_numbers (k : Key) : bool :=
  match k with
  | Number v | Date v => is_finite v
  | Array ks => forallb finite_numbers ks
  | _ => true
  end.

Lemma Key_validate_finite (k : Key) (depth : N) :
  Key_validate depth k = Ok tt -> finite_numbers k = true.
Proof.
  revert depth. induction k as [v|v|v|v|ks IH] using key_induction; intros depth; simpl;
    (case_match; [done|]); [by case_match| by case_match|done..|].
  case_match; [done|]. rewrite try_for_each_Ok. intros Hk. apply forallb_forall.
  rewrite Forall_forall in IH, Hk. intros k Hin%list_elem_of_In. eauto.
Qed.

Lemma f64_eqb_rank (a b : f64) :
  is_finite a = true -> is_finite b = true ->
  f64_eqb a b = true <-> Z.compare (number_rank a) (number_rank b) = Eq.
Proof.
  intros Ha Hb. unfold f64_eqb. rewrite f64_cmp_finite, value_compare by done.
  rewrite bool_decide_eq_true. split; congruence.
Qed.

Lemma list_eqb_cmp {A} `{TotalCmp A} (eqb : A -> A -> bool) (l k : list A) :
  (forall x y, x ∈ l -> y ∈ k -> eqb x y = true <-> cmp x y = Eq) ->
  list_eqb eqb l k = true <-> list_cmp l k = Eq.
Proof.
  revert k. induction l as [|x l IH]; intros [|y k] Hxy; simpl; try done.
  rewrite andb_true_iff, Hxy by constructor.
  rewrite IH by (intros; apply Hxy; by constructor).
  destruct (cmp x y); naive_solver.
Qed.

Lemma key_eqb_cmp (x y : Key) :
  finite_numbers x = true -> finite_numbers y = true -> key_eqb x y = true <-> cmp x y = Eq.
Proof.
  revert y. induction x as [a|a|s|bs|xs IH] using key_induction; intros y Hx Hy;
    destruct y as [b|b|t|cs|ys]; try done.
  - change (cmp (Number a) (Number b)) with (if f64_eqb a 0 && f64_eqb b 0 then Eq else total_cmp a b).
    rewrite number_cmp_rank. by apply f64_eqb_rank.
  - change (cmp (Date a) (Date b)) with (if f64_eqb a 0 && f64_eqb b 0 then Eq else total_cmp a b).
    rewrite number_cmp_rank. by apply f64_eqb_rank.
  - change (cmp (KeyString s) (KeyString t)) with (cmp (encode_utf16 s) (encode_utf16 t)).
    change (key_eqb (KeyString s) (KeyString t)) with (String.eqb s t).
    rewrite String.eqb_eq. split; [intros ->; apply cmp_refl|].
    intros Hc. by apply (inj encode_utf16), cmp_eq.
  - apply list_eqb_cmp. intros b c _ _. unfold cmp, byte_cmp, cmp_on.
    split.
    + intros ->%Byte.byte_dec_bl. apply cmp_refl.
    + intros Hc%cmp_eq. apply Byte.byte_dec_lb. by apply (inj Byte.to_N).
  - apply (list_eqb_cmp (A := Key)). intros x y Hxin Hyin. simpl in Hx, Hy.
    rewrite Forall_forall in IH. rewrite forallb_forall in Hx, Hy.
    apply IH; [done|by apply Hx, list_elem_of_In|by apply Hy, list_elem_of_In].
Qed.

(** ** Ranges *)
Lemma is_gt_spec (x y : Key) : is_gt (cmp x y) = is_lt (cmp y x).
Proof. rewrite (cmp_antisym x y). by destruct (cmp x y). Qed.

Lemma contains_between (r : KeyRange) (a b c : Key) :
  cmp a b <> Gt -> cmp b c <> Gt ->
  KeyRange_contains r a = true -> KeyRange_contains r c = true -> KeyRange_contains r b = true.
Proof.
  unfold KeyRange_contains. rewrite !andb_true_iff. intros Hab Hbc [Hl _] [_ Hu]. split.
  - destruct (lower r) as [l|]; [|done]. rewrite !is_gt_spec in *.
    destruct (cmp a b) eqn:Eab; [| |done].
    + by rewrite <- (cmp_eq_compat a b l Eab), <- (cmp_eq_compat_r a b l Eab).
    + destruct (lower_open r).
      * destruct (cmp l a) eqn:E; try done. by rewrite (cmp_lt_trans l a b).
      * destruct (cmp b l) eqn:E; try done. by rewrite (cmp_lt_trans a b l) in Hl.
  - destruct (upper r) as [u|]; [|done].
    destruct (cmp b c) eqn:Ebc; [| |done].
    + by rewrite (cmp_eq_compat b c u Ebc).
    + destruct (upper_open r).
      * destruct (cmp c u) eqn:E; try done. by rewrite (cmp_lt_trans b c u).
      * destruct (cmp b u) eqn:E; try done. rewrite cmp_gt_lt in E.
        rewrite (proj2 (cmp_gt_lt c u)) in Hu; [done|]. by eapply cmp_lt_trans.
Qed.

(** Keys that compare equal are in the same ranges. *)
#[global] Instance KeyRange_contains_proper (r : KeyRange) :
  Proper (cmp_equiv ==> eq) (KeyRange_contains r).
Proof.
  intros a b Hab. unfold KeyRange_contains.
  repeat f_equal; case_match; try done; by rewrite (cmp_eq_compat a b _ Hab).
Qed.

Lemma KeyRange_validate_bounds (r : KeyRange) (l u : Key) :
  lower r = Some l -> upper r = Some u ->
  Key_validate 0 l = Ok tt -> Key_validate 0 u = Ok tt ->
  KeyRange_validate r
  = if is_gt (cmp l u) || (is_eq (cmp l u) && (lower_open r || upper_open r))
    then Err (Data "empty or inverted key range") else Ok tt.
Proof.
  intros Hl Hu Hvl Hvu. unfold KeyRange_validate. rewrite Hl, Hu. cbn. rewrite Hvl, Hvu. cbn.
  assert (key_eqb l u = is_eq (cmp l u)) as ->; [|done].
  apply eq_true_iff_eq. rewrite key_eqb_cmp by eauto using Key_validate_finite.
  by destruct (cmp l u).
Qed.

Lemma Key_validate_message (k : Key) (depth : N) :
  Key_validate depth k <> Err (Data "empty or inverted key range").
Proof.
  revert depth. induction k as [v|v|v|v|ks IH] using key_induction; intros depth; simpl;
    (case_match; [done|]); try by case_match.
  destruct (MAX_OPERATIONS <? _)%N; [done|]. induction IH as [|k ks Hk _ IHks]; simpl; [done|].
  specialize (Hk (depth + 1)%N). destruct (Key_validate _ k) as [|e]; [|exact Hk].
  apply IHks.
Qed.

Lemma KeyRange_validate_cases (r : KeyRange) :
  let bound o := forall k, o = Some k -> Key_validate 0 k = Ok tt in
  (bound (lower r) /\ bound (upper r)) \/
  exists e, KeyRange_validate r = Err e /\ e <> Data "empty or inverted key range".
Proof.
  intros bound. unfold bound, KeyRange_validate.
  assert (Hv : forall o : option Key, (forall k, o = Some k -> Key_validate 0 k = Ok tt) \/
    exists k e, o = Some k /\ Key_validate 0 k = Err e /\ e <> Data "empty or inverted key range").
  { intros [k|]; [|by left]. pose proof (Key_validate_message k 0) as Hm.
    destruct (Key_validate 0 k) as [[]|e] eqn:Hk; [left|right]; [by intros ? [= <-]|].
    exists k, e. split_and!; congruence. }
  destruct (Hv (lower r)) as [Hl|(k & e & -> & Hk & He)].
  2:{ right. exists e. cbn. by rewrite Hk. }
  destruct (Hv (upper r)) as [Hu|(k & e & -> & Hk & He)].
  2:{ right. exists e. cbn. split; [|done].
      destruct (lower r) as [l|]; cbn; [rewrite (Hl l) by done; cbn|]; by rewrite Hk. }
  by left.
Qed.

(** C40. The order of keys is sound: it is a total preorder (what the binary
    search and the ordered sets of the store rely on), equality of finite keys
    is exactly comparing equal, and numbers are ordered by their numeric value
    with the two zeros identified. *)
Theorem key_order_sound (x y z : Key) :
  cmp y x = CompOpp (cmp x y) /\
  (cmp x y <> Gt -> cmp y z <> Gt -> cmp x z <> Gt) /\
  (forall d e, Key_validate d x = Ok tt -> Key_validate e y = Ok tt ->
    (key_eqb x y = true <-> cmp x y = Eq)) /\
  (forall a b, is_finite a = true -> is_finite b = true ->
    f64_cmp a b = Some (cmp (Number a) (Number b))).
Proof.
  split_and!.
  - apply cmp_antisym.
  - apply cmp_le_trans.
  - intros d e Hx Hy. apply key_eqb_cmp; eauto using Key_validate_finite.
  - intros a b Ha Hb. rewrite f64_cmp_finite, value_compare by done.
    change (cmp (Number a) (Number b))
      with (if f64_eqb a 0 && f64_eqb b 0 then Eq else total_cmp a b).
    by rewrite number_cmp_rank.
Qed.

(** Key ranges: [validate] refuses a range as empty only if it contains no
    key, an accepted range contains each of its closed bounds, and every range
    is an interval of the order. *)
Theorem key_range_sound (r : KeyRange) :
  (forall k, KeyRange_validate r = Err (Data "empty or inverted key range") ->
    KeyRange_contains r k = false) /\
  (KeyRange_validate r = Ok tt ->
    (forall l, lower r = Some l -> KeyRange_contains r l = negb (lower_open r)) /\
    (forall u, upper r = Some u -> KeyRange_contains r u = negb (upper_open r))) /\
  (forall a b c, cmp a b <> Gt -> cmp b c <> Gt ->
    KeyRange_contains r a = true -> KeyRange_contains r c = true -> KeyRange_contains r b = true).
Proof.
  split_and!; [| |apply contains_between].
  - intros k He. destruct (KeyRange_validate_cases r) as [[Hl Hu]|(e & He' & Hne)];
      [|congruence].
    destruct (lower r) as [l|] eqn:El, (upper r) as [u|] eqn:Eu;
      try (unfold KeyRange_validate in He; rewrite El, Eu in He; cbn in He;
           rewrite ?(Hl _ eq_refl), ?(Hu _ eq_refl) in He; by cbn in He).
    rewrite (KeyRange_validate_bounds r l u) in He by eauto.
    destruct (KeyRange_contains r k) eqn:Hk; [|done]. exfalso. revert He Hk.
    unfold KeyRange_contains. rewrite El, Eu, !is_gt_spec.
    rewrite (cmp_antisym k u), (cmp_antisym l k), (cmp_antisym l u).
    assert (cmp l k <> Gt -> cmp k u <> Gt ->
            cmp l u = cmp_then (cmp l k) (cmp_then (cmp k u) Eq)) as Hlu.
    { intros Hlk Hku. destruct (cmp l k) eqn:Elk; [by rewrite (cmp_eq_compat l k u), cmp_then_eq| |done].
      destruct (cmp k u) eqn:Eku; [by rewrite <- (cmp_eq_compat_r k u l Eku), Elk| |done].
      by rewrite (cmp_lt_trans l k u). }
    destruct (cmp l k), (cmp k u); simpl in *;
      try rewrite Hlu by done; by destruct (lower_open r), (upper_open r).
  - intros Hok. destruct (KeyRange_validate_cases r) as [[Hl Hu]|(e & He' & Hne)];
      [|congruence].
    split; intros b Hb; unfold KeyRange_contains; rewrite Hb, cmp_refl.
    + destruct (upper r) as [u|] eqn:Eu; [|by destruct (lower_open r)].
      rewrite (KeyRange_validate_bounds r b u) in Hok by eauto.
      destruct (cmp b u), (lower_open r), (upper_open r); by simpl in *.
    + destruct (lower r) as [l|] eqn:El; [|by destruct (upper_open r)].
      rewrite (KeyRange_validate_bounds r l b) in Hok by eauto. rewrite is_gt_spec.
      rewrite (cmp_antisym l b).
      destruct (cmp l b), (lower_open r), (upper_open r); by simpl in *.
Qed.
