(* ===== verification/StructuredClone.v ===== *)
(** * StructuredClone: keys inside serialised records

    src/indexed_db/model/index.rs (from [keys_for_value] down: projecting an
    index key out of a structured clone) and src/indexed_db/model/inline_key.rs
    (injecting a generated key into one). A record's value is the JSON text of
    its clone: [serde_json]'s [Value] is the inductive type below, its numbers
    and its parser are the parameters [JsonNumbers] and [JsonText]. *)

From Stdlib Require Import Strings.Byte.
From S2P Require Import Prelude Text OrderedMap Float64 Keys.

(** ** [serde_json::Value] *)
Class JsonNumbers := {
  JNumber : Type;
  number_as_u64 : JNumber -> option N;
  number_as_f64 : JNumber -> option f64;
  number_of_u64 : N -> JNumber;
  number_of_f64 : f64 -> option JNumber
}.

(** [Number::from_f64] keeps finite doubles, and every number is finite. *)
Class JsonNumbersLaws `{JsonNumbers} : Prop := {
  number_f64_round_trip (x : f64) :
    is_finite x = true -> exists n, number_of_f64 x = Some n /\ number_as_f64 n = Some x;
  number_as_f64_finite (n : JNumber) (x : f64) : number_as_f64 n = Some x -> is_finite x = true
}.

Inductive Value `{JsonNumbers} :=
  | VNull
  | VBool (b : bool)
  | VNumber (n : JNumber)
  | VString (s : string)
  | VArray (items : list Value)
  | VObject (fields : list (string * Value)).

(** [serde_json::from_str] and [to_string]. *)
Class JsonText `{JsonNumbers} := {
  value_from_str : string -> option Value;
  value_to_string : Value -> option string
}.

Section values.
Context {NUM : JsonNumbers}.
Implicit Types v : Value.

Definition value_get (name : string) v : option Value :=
  match v with VObject fields => bt_get name fields | _ => None end.
Definition as_str v : option string := match v with VString s => Some s | _ => None end.
Definition as_array v : option (list Value) := match v with VArray l => Some l | _ => None end.
Definition as_u64 v : option N := match v with VNumber n => number_as_u64 n | _ => None end.
Definition as_f64 v : option f64 := match v with VNumber n => number_as_f64 n | _ => None end.
Definition value_of_f64 (x : f64) : Value := from_option VNumber VNull (number_of_f64 x).

(** The tag of a clone node. *)
Definition tag v : option string := value_get "t" v ≫= as_str.

Fixpoint value_depth v : nat :=
  match v with
  | VArray items => S (foldr (fun v n => Nat.max (value_depth v) n) 0 items)
  | VObject fields => S (foldr (fun kv n => Nat.max (value_depth kv.2) n) 0 fields)
  | _ => 1
  end.

(** ** Projection (src/indexed_db/model/index.rs) *)

(** The closure of the two [find_map]s: the second item of a pair whose first
    is the string [name]. *)
Definition property (name : string) (member : Value) : option Value :=
  pair ← as_array member;
  first ← head pair ≫= as_str;
  if String.eqb first name then pair !! 1 else None.

Fixpoint find_map {A B} (f : A -> option B) (l : list A) : option B :=
  match l with
  | [] => None
  | x :: l => match f x with Some y => Some y | None => find_map f l end
  end.

Definition length_property (part : string) v : option f64 :=
  if String.eqb part "length" then
    if bool_decide (tag v = Some "array") then f64_of_u64 <$> (value_get "l" v ≫= as_u64)
    else (fun s => f64_of_u64 (N.of_nat (length (encode_utf16 s)))) <$> as_str v
  else None.

Fixpoint project_parts (current : Value) (parts : list string) : option Value :=
  match parts with
  | [] => Some current
  | part :: parts =>
      match length_property part current with
      | Some length =>
          match parts with [] => Some (value_of_f64 length) | _ :: _ => None end
      | None =>
          members ← value_get "v" current ≫= as_array;
          current ← find_map (property part) members;
          project_parts current parts
      end
  end.

Definition project_path v (path : string) : option Value :=
  project_parts v (if String.eqb path EmptyString then [] else split_on "." path).

Definition base64_digit (byte : N) : option N :=
  (if (65 <=? byte) && (byte <=? 90) then Some (byte - 65)
   else if (97 <=? byte) && (byte <=? 122) then Some (byte - 97 + 26)
   else if (48 <=? byte) && (byte <=? 57) then Some (byte - 48 + 52)
   else if byte =? 43 then Some 62
   else if byte =? 47 then Some 63
   else None)%N.

Definition as_u8 (n : N) : byte := default x00 (Byte.of_N (n mod 256)).

(** One round of the loop, on the chunk [c0 c1 c2 c3]; 61 is ['=']. *)
Definition base64_chunk (c0 c1 c2 c3 : N) : option (list byte) :=
  a ← base64_digit c0;
  b ← base64_digit c1;
  c ← (if (c2 =? 61)%N then Some 0%N else base64_digit c2);
  d ← (if (c3 =? 61)%N then Some 0%N else base64_digit c3);
  let bits := N.lor (N.lor (N.lor (N.shiftl a 18) (N.shiftl b 12)) (N.shiftl c 6)) d in
  Some (as_u8 (N.shiftr bits 16)
        :: (if (c2 =? 61)%N then [] else [as_u8 (N.shiftr bits 8)])
        ++ (if (c3 =? 61)%N then [] else [as_u8 bits])).

Fixpoint decode_chunks (text : list N) : option (list byte) :=
  match text with
  | c0 :: c1 :: c2 :: c3 :: text =>
      chunk ← base64_chunk c0 c1 c2 c3;
      rest ← decode_chunks text;
      Some (chunk ++ rest)
  | _ => Some []
  end.

Definition decode_base64 (text : string) : option (list byte) :=
  if (byte_length text mod 4 =? 0)%N then decode_chunks (bytes text) else None.

(** [iter.collect::<Option<Vec<_>>>()] over a mapped iterator. *)
Fixpoint option_map_all {A B} (f : A -> option B) (l : list A) : option (list B) :=
  match l with
  | [] => Some []
  | x :: l => y ← f x; ys ← option_map_all f l; Some (y :: ys)
  end.

(** The fuel is the depth of the value, which suffices ([clone_key_fuel_enough]). *)
Fixpoint clone_key_fuel (fuel : nat) v : option Key :=
  match fuel with
  | O => None
  | S fuel =>
      match as_f64 v, as_str v with
      | Some number, _ => if is_finite number then Some (Number number) else None
      | None, Some text => Some (KeyString text)
      | None, None =>
          tag ← tag v;
          if String.eqb tag "date" then time ← value_get "v" v ≫= as_f64; Some (Date time)
          else if String.eqb tag "number" then
            text ← value_get "v" v ≫= as_str;
            if String.eqb text "-0" then Some (Number 0) else None
          else if String.eqb tag "buffer" then
            text ← value_get "v" v ≫= as_str;
            data ← decode_base64 text;
            Some (Binary data)
          else if String.eqb tag "array" then
            length ← value_get "l" v ≫= as_u64;
            if (MAX_OPERATIONS <? length)%N then None
            else
              members ← value_get "v" v ≫= as_array;
              keys ← option_map_all
                       (fun index => find_map (property (pretty (N.of_nat index))) members
                                     ≫= clone_key_fuel fuel)
                       (seq 0 (N.to_nat length));
              Some (Array keys)
          else None
      end
  end.

Definition clone_key v : option Key := clone_key_fuel (value_depth v) v.

Definition extract_path v (path : string) : option Key := project_path v path ≫= clone_key.

(** ** Injection (src/indexed_db/model/inline_key.rs) *)
Fixpoint maximum_id v : N :=
  let own := default 0%N (value_get "id" v ≫= as_u64) in
  match v with
  | VObject fields => foldl (fun max item => N.max max (maximum_id item.2)) own fields
  | VArray items => foldl (fun max item => N.max max (maximum_id item)) own items
  | _ => own
  end.

Definition entry_name (entry : Value) : option string := (as_array entry ≫= head) ≫= as_str.

(** [iter.position(p)]. *)
Fixpoint position_of {A} (p : A -> bool) (l : list A) : option nat :=
  match l with
  | [] => None
  | x :: l => if p x then Some 0 else S <$> position_of p l
  end.

Definition new_node (name : string) (id : N) : Value :=
  VArray [VString name;
          VObject [("id", VNumber (number_of_u64 id)); ("n", VBool false);
                   ("t", VString "object"); ("v", VArray [])]].

(** The path is [name :: rest]: [split] never returns an empty list. *)
Fixpoint inject_parts (node : Value) (name : string) (rest : list string) (key : f64)
    (next_id : N) : result DbError (Value * N) :=
  if negb (bool_decide (tag node = Some "object" \/ tag node = Some "array")) then
    Err (Data "inline key path cannot be injected into this value")
  else
    match node, value_get "v" node with
    | VObject fields, Some (VArray entries) =>
        let position := position_of (fun e => bool_decide (entry_name e = Some name)) entries in
        let put entries := VObject (bt_insert "v" (VArray entries) fields) in
        match rest with
        | [] =>
            let pair := VArray [VString name; value_of_f64 key] in
            Ok (put (match position with
                     | Some index => <[index := pair]> entries
                     | None => entries ++ [pair]
                     end), next_id)
        | name' :: rest =>
            '(index, entries, next_id) ←
              match position with
              | Some index => Ok (index, entries, next_id)
              | None =>
                  next ← ok_or (checked_add next_id 1) Quota;
                  Ok (length entries, entries ++ [new_node name next_id], next)
              end;
            match entries !! index with
            | Some (VArray (first :: child :: tail)) =>
                '(child, next_id) ← inject_parts child name' rest key next_id;
                Ok (put (<[index := VArray (first :: child :: tail)]> entries), next_id)
            | _ => Err (Data "invalid structured clone property")
            end
        end
    | _, _ => Err (Data "invalid structured clone object")
    end.

Definition inject_value (clone : Value) (path : string) (number : f64) : result DbError Value :=
  next_id ← ok_or (checked_add (maximum_id clone) 1) Quota;
  match split_on "." path with
  | [] => Ok clone
  | name :: rest => '(clone, _) ← inject_parts clone name rest number next_id; Ok clone
  end.

Definition inject {TEXT : JsonText} (value path : string) (key : Key) : result DbError string :=
  match key with
  | Number number =>
      clone ← ok_or (value_from_str value) (Data "record is not a structured clone");
      clone ← inject_value clone path number;
      ok_or (value_to_string clone) (Data "record is not serializable")
  | _ => Err (Data "generated inline key is not numeric")
  end.

(** * Theory *)

(** ** The fuel of [clone_key] suffices *)
Lemma find_map_Some {A B} (f : A -> option B) (l : list A) (y : B) :
  find_map f l = Some y -> exists x, x ∈ l /\ f x = Some y.
Proof.
  induction l as [|x l IH]; simpl; [done|]. destruct (f x) eqn:Hx.
  - intros [= ->]. exists x. split; [constructor|done].
  - intros (x' & Hin & Hx')%IH. exists x'. split; [by constructor|done].
Qed.

Lemma value_depth_item (items : list Value) v : v ∈ items -> value_depth v < value_depth (VArray items).
Proof. simpl. induction 1; simpl in *; lia. Qed.

Lemma value_depth_field (name : string) v w : value_get name v = Some w -> value_depth w < value_depth v.
Proof.
  destruct v as [| | | |items|fields]; try done. simpl. intros Hg.
  assert (value_depth w <= foldr (fun kv n => Nat.max (value_depth kv.2) n) 0 fields); [|lia].
  induction fields as [|[k x] fields IH]; simpl in *; [done|].
  destruct (cmp name k); [injection Hg as ->; lia|done|specialize (IH Hg); lia].
Qed.

Lemma property_depth (name : string) (member v : Value) :
  property name member = Some v -> value_depth v < value_depth member.
Proof.
  unfold property. destruct member as [| | | |items|]; try done. cbn. intros H.
  destruct (head items ≫= as_str); [|done]. cbn in H. destruct (String.eqb _ _); [|done].
  by apply value_depth_item, list_elem_of_lookup_2 with 1.
Qed.

Lemma option_map_all_ext {A B} (f g : A -> option B) (l : list A) :
  (forall x, f x = g x) -> option_map_all f l = option_map_all g l.
Proof. intros Hfg. induction l as [|x l IH]; simpl; [done|]. by rewrite Hfg, IH. Qed.

Lemma clone_key_fuel_enough (n m : nat) v :
  value_depth v <= n -> value_depth v <= m -> clone_key_fuel n v = clone_key_fuel m v.
Proof.
  revert m v. induction n as [|n IH]; intros m v Hn Hm; [destruct v; simpl in Hn; lia|].
  destruct m as [|m]; [destruct v; simpl in Hm; lia|]. cbn.
  destruct (as_f64 v), (as_str v); try done. destruct (tag v) as [t|]; [|done]. cbn.
  do 3 (destruct (String.eqb t _); [done|]). destruct (String.eqb t _); [|done].
  destruct (value_get "l" v ≫= as_u64) as [length|]; [|done]. cbn.
  destruct (_ <? _)%N; [done|].
  destruct (value_get "v" v) as [w|] eqn:Hw; [|done]. cbn.
  destruct w as [| | | |members|]; try done. cbn.
  apply value_depth_field in Hw.
  rewrite (option_map_all_ext _ (fun index =>
    find_map (property (pretty (N.of_nat index))) members ≫= clone_key_fuel m)); [done|].
  intros index. destruct (find_map _ members) as [x|] eqn:Hx; [|done]. cbn.
  apply find_map_Some in Hx as (member & Hin & Hx).
  apply property_depth in Hx. apply value_depth_item in Hin. apply IH; lia.
Qed.

Lemma clone_key_number x : clone_key (VNumber x) =
  match number_as_f64 x with
  | Some f => if is_finite f then Some (Number f) else None
  | None => None
  end.
Proof. unfold clone_key. cbn. by destruct (number_as_f64 x). Qed.

(** An array clone reads as the array key of its elements 0 to length - 1:
    the equation of the source's recursion, free of the model's fuel. *)
Lemma clone_key_array (fields : list (string * Value)) :
  tag (VObject fields) = Some "array" ->
  clone_key (VObject fields) =
    (length ← value_get "l" (VObject fields) ≫= as_u64;
     if (MAX_OPERATIONS <? length)%N then None
     else
       members ← value_get "v" (VObject fields) ≫= as_array;
       keys ← option_map_all
                (fun index => find_map (property (pretty (N.of_nat index))) members ≫= clone_key)
                (seq 0 (N.to_nat length));
       Some (Array keys)).
Proof.
  intros Ht. unfold clone_key at 1. remember (VObject fields) as v eqn:Hv.
  destruct (value_depth v) as [|n] eqn:Hd; [by subst v|]. cbn.
  assert (as_f64 v = None) as -> by by subst v. assert (as_str v = None) as -> by by subst v.
  rewrite Ht. cbn. destruct (value_get "l" v ≫= as_u64) as [length|]; [|done]. cbn.
  destruct (_ <? _)%N; [done|].
  destruct (value_get "v" v) as [w|] eqn:Hw; [|done]. cbn.
  destruct w as [| | | |members|]; try done. cbn.
  apply value_depth_field in Hw.
  rewrite (option_map_all_ext _ (fun index =>
    find_map (property (pretty (N.of_nat index))) members ≫= clone_key)); [done|].
  intros index. destruct (find_map _ members) as [x|] eqn:Hx; [|done]. cbn.
  apply find_map_Some in Hx as (member & Hin & Hx).
  apply property_depth in Hx. apply value_depth_item in Hin. apply clone_key_fuel_enough; lia.
Qed.

(** ** An injected key is found where indexes and stores look for it *)
Lemma bt_get_insert_same {V} (k : string) (x : V) (m : list (string * V)) :
  bt_get k (bt_insert k x m) = Some x.
Proof.
  induction m as [|[k' y] m IH]; simpl; [by rewrite cmp_refl|].
  destruct (cmp k k') eqn:Hk; simpl; [by rewrite Hk|by rewrite cmp_refl|by rewrite Hk].
Qed.

Lemma position_of_spec {A} (p : A -> bool) (l : list A) :
  match position_of p l with
  | Some i => exists x, l !! i = Some x /\ p x = true /\ Forall (fun y => p y = false) (take i l)
  | None => Forall (fun y => p y = false) l
  end.
Proof.
  induction l as [|x l IH]; simpl; [constructor|]. destruct (p x) eqn:Hx.
  - exists x. split_and!; [done..|constructor].
  - destruct (position_of p l) as [i|]; simpl; [|by constructor].
    destruct IH as (y & ? & ? & ?). exists y. split_and!; [done..|by constructor].
Qed.

Lemma find_map_none {A B} (f : A -> option B) (l k : list A) :
  Forall (fun y => f y = None) l -> find_map f (l ++ k) = find_map f k.
Proof. induction 1 as [|x l Hx _ IH]; simpl; [done|]. by rewrite Hx. Qed.

Lemma property_none (name : string) (member : Value) :
  bool_decide (entry_name member = Some name) = false -> property name member = None.
Proof.
  unfold entry_name, property. intros Hne%bool_decide_eq_false. destruct (as_array member) as [pair|];
    [|done]. simpl in *. destruct (head pair ≫= as_str) as [first|]; [|done]. simpl.
  destruct (String.eqb_spec first name); [|done]. congruence.
Qed.

(** The entry that [inject_parts] writes, at [index], is the first one with
    the name. *)
Lemma find_property_insert (name : string) (entries : list Value) (index : nat) (first child : Value)
    (tail : list Value) :
  index < length entries -> as_str first = Some name ->
  Forall (fun e => bool_decide (entry_name e = Some name) = false) (take index entries) ->
  find_map (property name) (<[index := VArray (first :: child :: tail)]> entries) = Some child.
Proof.
  intros Hi Hf Ht. rewrite insert_take_drop by done. rewrite find_map_none.
  - cbn. rewrite Hf. cbn. by rewrite String.eqb_refl.
  - eapply Forall_impl; [done|]. intros e. apply property_none.
Qed.

Lemma find_property_append (name : string) (entries : list Value) (first child : Value) (tail : list Value) :
  as_str first = Some name ->
  Forall (fun e => bool_decide (entry_name e = Some name) = false) entries ->
  find_map (property name) (entries ++ [VArray (first :: child :: tail)]) = Some child.
Proof.
  intros Hf Ht. rewrite find_map_none.
  - cbn. rewrite Hf. cbn. by rewrite String.eqb_refl.
  - eapply Forall_impl; [done|]. intros e. apply property_none.
Qed.

(** A path component that reads a property, not the length of a string or
    array. *)
Definition plain_part (part : string) : Prop := part <> "length".

Lemma project_inserted (name : string) (parts : list string) (fields : list (string * Value))
    (entries : list Value) (child : Value) :
  plain_part name -> find_map (property name) entries = Some child ->
  project_parts (VObject (bt_insert "v" (VArray entries) fields)) (name :: parts)
  = project_parts child parts.
Proof.
  intros Hn%String.eqb_neq Hf. cbn [project_parts]. unfold length_property. rewrite Hn.
  unfold value_get. rewrite bt_get_insert_same. cbn. by rewrite Hf.
Qed.

Lemma inject_parts_project (node node' : Value) (name : string) (rest : list string) (key : f64)
    (next_id next_id' : N) :
  Forall plain_part (name :: rest) ->
  inject_parts node name rest key next_id = Ok (node', next_id') ->
  project_parts node' (name :: rest) = Some (value_of_f64 key).
Proof.
  revert node node' name next_id next_id'. induction rest as [|name' rest IH];
    intros node node' name next_id next_id' [Hn Hrest]%Forall_cons Hi; cbn [inject_parts] in Hi;
    (case_match; [done|]); (destruct node as [| | | | |fields]; try done);
    (destruct (value_get "v" (VObject fields)) as [v|] eqn:Hv; [|done]);
    (destruct v as [| | | |entries|]; try done);
    pose proof (position_of_spec (fun e => bool_decide (entry_name e = Some name)) entries) as Hp.
  - injection Hi as <- _. rewrite (project_inserted _ _ _ _ (value_of_f64 key)); [done..|].
    destruct (position_of _ entries) as [i|].
    + destruct Hp as (x & Hx & _ & Ht). apply find_property_insert; [|done..].
      by eapply lookup_lt_Some.
    + by apply find_property_append.
  - apply bind_Ok in Hi as ([[index entries'] id] & Hpos & Hi).
    destruct (entries' !! index) as [pair|] eqn:Hpair; [|done].
    destruct pair as [| | | |items|]; try done. destruct items as [|first [|child tail]]; try done.
    apply bind_Ok in Hi as ([child' id'] & Hchild & Hi). injection Hi as <- _.
    assert (as_str first = Some name /\
      Forall (fun e => bool_decide (entry_name e = Some name) = false) (take index entries')) as [Hf Ht].
    { destruct (position_of _ entries) as [i|].
      - injection Hpos as <- <- <-. destruct Hp as (x & Hx & Hname & Ht). split; [|done].
        rewrite Hx in Hpair. injection Hpair as ->. by apply bool_decide_eq_true_1 in Hname.
      - destruct (checked_add next_id 1) as [next|]; [|done]. injection Hpos as <- <- <-.
        rewrite lookup_app_r, Nat.sub_diag in Hpair by lia. injection Hpair as <- <- <-.
        split; [done|]. by rewrite take_app_length. }
    rewrite (project_inserted _ _ _ _ child'); [by eapply IH|done|].
    apply find_property_insert; [by eapply lookup_lt_Some|done..].
Qed.

Lemma split_on_nonempty (sep : ascii) (s : string) : split_on sep s <> [].
Proof.
  destruct s as [|a s]; simpl; [done|]. destruct (Ascii.eqb a sep); [done|]. by destruct (split_on sep s).
Qed.

(** A generated key is found where it was injected: after [inject] wrote
    the key [number] into a clone at the store's key path, projecting that path
    out of the clone, as an index on it does, gives exactly that key. *)
Theorem inject_then_extract {LAWS : JsonNumbersLaws} (clone clone' : Value) (path : string) (number : f64) :
  path <> EmptyString -> Forall plain_part (split_on "." path) -> is_finite number = true ->
  inject_value clone path number = Ok clone' ->
  extract_path clone' path = Some (Number number).
Proof.
  intros Hpath Hparts Hfin. unfold inject_value, extract_path, project_path.
  intros (id & Hid & Hi)%bind_Ok. apply String.eqb_neq in Hpath as ->.
  destruct (split_on "." path) as [|name rest] eqn:Hs; [by apply split_on_nonempty in Hs|].
  apply bind_Ok in Hi as ([node' id'] & Hi & [= <-]).
  rewrite (inject_parts_project _ _ _ _ _ _ _ Hparts Hi). cbn.
  destruct (number_f64_round_trip number Hfin) as (n & Hn & Hx).
  unfold value_of_f64. rewrite Hn. cbn [from_option]. by rewrite clone_key_number, Hx, Hfin.
Qed.
End values.

(** ** Base64 *)

(** The reference encoder (RFC 4648, section 4). *)
Definition base64_char (d : N) : N :=
  (if d <? 26 then d + 65 else if d <? 52 then d + 71 else if d <? 62 then d - 4
   else if d =? 62 then 43 else 47)%N.

Definition base64_group (n : N) : N * N * N * N :=
  (n / 2 ^ 18, n / 2 ^ 12 mod 64, n / 2 ^ 6 mod 64, n mod 64)%N.

Fixpoint base64_encode (l : list byte) : list N :=
  match l with
  | [] => []
  | [a] =>
      let '(w, x, _, _) := base64_group (Byte.to_N a * 2 ^ 16) in
      [base64_char w; base64_char x; 61%N; 61%N]
  | [a; b] =>
      let '(w, x, y, _) := base64_group (Byte.to_N a * 2 ^ 16 + Byte.to_N b * 2 ^ 8) in
      [base64_char w; base64_char x; base64_char y; 61%N]
  | a :: b :: c :: l =>
      let '(w, x, y, z) :=
        base64_group (Byte.to_N a * 2 ^ 16 + Byte.to_N b * 2 ^ 8 + Byte.to_N c) in
      base64_char w :: base64_char x :: base64_char y :: base64_char z :: base64_encode l
  end.

Lemma base64_digit_char (d : N) :
  (d < 64)%N -> base64_digit (base64_char d) = Some d /\ N.eqb (base64_char d) 61 = false /\ (base64_char d < 256)%N.
Proof.
  intros Hd. unfold base64_digit, base64_char.
  split_and!; repeat case_match; bool_props; try (f_equal; lia); try lia.
Qed.

Lemma lor_shift (x y k : N) : (y < 2 ^ k)%N -> N.lor (x * 2 ^ k) y = (x * 2 ^ k + y)%N.
Proof.
  intros Hy. assert (N.land (x * 2 ^ k) y = 0%N) as Hl.
  { apply N.bits_inj. intros i. rewrite N.land_spec, N.bits_0.
    destruct (decide (i < k)%N) as [Hi|Hi].
    - by rewrite N.mul_pow2_bits_low.
    - destruct (N.eq_dec y 0%N) as [->|Hy0]; [by rewrite N.bits_0, andb_false_r|].
      rewrite (N.bits_above_log2 y), andb_false_r; [done|].
      apply N.lt_le_trans with k; [|lia]. apply N.log2_lt_pow2; lia. }
  by rewrite <- N.lxor_lor, N.add_nocarry_lxor.
Qed.

Lemma base64_bits (n : N) :
  (n < 2 ^ 24)%N ->
  N.lor (N.lor (N.lor (N.shiftl (n / 2 ^ 18) 18) (N.shiftl (n / 2 ^ 12 mod 64) 12))
               (N.shiftl (n / 2 ^ 6 mod 64) 6)) (n mod 64) = n.
Proof.
  intros Hn. rewrite !N.shiftl_mul_pow2.
  pose proof (N.div_mod n 64 ltac:(lia)) as H0. pose proof (N.mod_lt n 64 ltac:(lia)).
  assert (E1 : (n / 2 ^ 6 = n / 64)%N) by done.
  assert (E2 : (n / 2 ^ 12 = n / 64 / 64)%N) by (by rewrite N.Div0.div_div).
  assert (E3 : (n / 2 ^ 18 = n / 64 / 64 / 64)%N) by (by rewrite !N.Div0.div_div).
  rewrite E1, E2, E3. set (m := (n / 64)%N) in *. set (k := (m / 64)%N).
  pose proof (N.div_mod m 64 ltac:(lia)). pose proof (N.mod_lt m 64 ltac:(lia)).
  pose proof (N.div_mod k 64 ltac:(lia)). pose proof (N.mod_lt k 64 ltac:(lia)).
  rewrite lor_shift by lia.
  replace (k / 64 * 2 ^ 18 + k mod 64 * 2 ^ 12)%N with (k * 2 ^ 12)%N by lia.
  rewrite lor_shift by lia.
  replace (k * 2 ^ 12 + m mod 64 * 2 ^ 6)%N with (m * 2 ^ 6)%N by lia.
  rewrite lor_shift by lia. lia.
Qed.

Lemma base64_group_bounds (n : N) :
  (n < 2 ^ 24)%N ->
  let '(w, x, y, z) := base64_group n in (w < 64 /\ x < 64 /\ y < 64 /\ z < 64)%N.
Proof.
  intros Hn. simpl. split_and!; try (apply N.mod_lt; lia).
  apply N.Div0.div_lt_upper_bound. lia.
Qed.

Lemma as_u8_byte (b : byte) (n : N) : (n mod 256 = Byte.to_N b)%N -> as_u8 n = b.
Proof. intros Hn. unfold as_u8. by rewrite Hn, Byte.of_to_N. Qed.

Lemma byte_bound (b : byte) : (Byte.to_N b < 256)%N.
Proof. pose proof (Byte.to_N_bounded b). lia. Qed.

Lemma base64_encode_ind (P : list byte -> Prop) :
  P [] -> (forall a, P [a]) -> (forall a b, P [a; b]) ->
  (forall a b c l, P l -> P (a :: b :: c :: l)) -> forall l, P l.
Proof.
  intros H0 H1 H2 H3. fix IH 1. intros [|a [|b [|c l]]]; [done|done|done|]. apply H3, IH.
Qed.

(** One full group: the three bytes come back; a group whose tail is padding
    decodes to the bytes before it. *)
Lemma base64_chunk_group (a b c : N) (n := (a * 2 ^ 16 + b * 2 ^ 8 + c)%N) :
  (a < 256)%N -> (b < 256)%N -> (c < 256)%N ->
  let '(w, x, y, z) := base64_group n in
  base64_chunk (base64_char w) (base64_char x) (base64_char y) (base64_char z)
    = Some [as_u8 a; as_u8 b; as_u8 c] /\
  (c = 0%N -> base64_chunk (base64_char w) (base64_char x) (base64_char y) 61
    = Some [as_u8 a; as_u8 b]) /\
  (b = 0%N -> c = 0%N -> base64_chunk (base64_char w) (base64_char x) 61 61 = Some [as_u8 a]).
Proof.
  intros Ha Hb Hc. assert (Hn : (n < 2 ^ 24)%N) by (unfold n; lia).
  pose proof (base64_group_bounds n Hn) as (Hw & Hx & Hy & Hz).
  pose proof (base64_bits n Hn) as Hbits.
  assert (Hhi : as_u8 (N.shiftr n 16) = as_u8 a).
  { unfold as_u8. rewrite N.shiftr_div_pow2. do 2 f_equal. f_equal. symmetry.
    apply (N.div_unique _ _ _ (b * 2 ^ 8 + c)); unfold n; lia. }
  assert (Hmid : as_u8 (N.shiftr n 8) = as_u8 b).
  { unfold as_u8. rewrite N.shiftr_div_pow2. do 2 f_equal.
    assert (n / 2 ^ 8 = a * 256 + b)%N as ->.
    { symmetry. apply (N.div_unique _ _ _ c); unfold n; lia. }
    rewrite N.add_comm, N.Div0.mod_add. done. }
  assert (Hlo : as_u8 n = as_u8 c).
  { unfold as_u8. do 2 f_equal. unfold n.
    replace (a * 2 ^ 16 + b * 2 ^ 8 + c)%N with (c + (a * 256 + b) * 256)%N by lia.
    by rewrite N.Div0.mod_add. }
  cbn [base64_group]. unfold base64_chunk. cbn [base64_group] in Hw, Hx, Hy, Hz.
  destruct (base64_digit_char _ Hw) as (-> & _ & _), (base64_digit_char _ Hx) as (-> & _ & _),
    (base64_digit_char _ Hy) as (-> & -> & _), (base64_digit_char _ Hz) as (-> & -> & _).
  cbn. cbn in Hbits. rewrite Hbits, Hhi, Hmid, Hlo. split; [done|].
  assert (Hz0 : c = 0%N -> (n mod 64 = 0)%N).
  { intros ->. unfold n. replace (a * 2 ^ 16 + b * 2 ^ 8 + 0)%N with ((a * 1024 + b * 4) * 64)%N by lia.
    apply N.Div0.mod_mul. }
  split; [intros H0; specialize (Hz0 H0)|intros Hb0 H0; specialize (Hz0 H0)].
  - cbn in Hz0. rewrite Hz0 in Hbits. by rewrite Hbits, Hhi, Hmid.
  - assert (Hy0 : (n / 2 ^ 6 mod 64 = 0)%N).
    { unfold n. rewrite Hb0, H0.
      replace (a * 2 ^ 16 + 0 * 2 ^ 8 + 0)%N with (a * 1024 * 2 ^ 6)%N by lia.
      rewrite N.div_mul by lia. replace (a * 1024)%N with (a * 16 * 64)%N by lia.
      apply N.Div0.mod_mul. }
    cbn in Hz0, Hy0. rewrite Hz0, Hy0 in Hbits. by rewrite Hbits, Hhi.
Qed.

Lemma as_u8_to_N (b : byte) : as_u8 (Byte.to_N b) = b.
Proof. apply as_u8_byte. apply N.mod_small, byte_bound. Qed.

Lemma decode_chunks_encode (l : list byte) : decode_chunks (base64_encode l) = Some l.
Proof.
  induction l as [|a|a b|a b c l IH] using base64_encode_ind; [done|..].
  - pose proof (base64_chunk_group (Byte.to_N a) 0 0 (byte_bound a) eq_refl eq_refl) as Hg.
    rewrite N.mul_0_l, !N.add_0_r in Hg. cbn [base64_encode].
    destruct (base64_group _) as [[[w x] y] z]. destruct Hg as (_ & _ & Hg).
    cbn [decode_chunks]. rewrite Hg by done. cbn. by rewrite as_u8_to_N.
  - pose proof (base64_chunk_group (Byte.to_N a) (Byte.to_N b) 0
      (byte_bound a) (byte_bound b) eq_refl) as Hg.
    rewrite N.add_0_r in Hg. cbn [base64_encode].
    destruct (base64_group _) as [[[w x] y] z]. destruct Hg as (_ & Hg & _).
    cbn [decode_chunks]. rewrite Hg by done. cbn. by rewrite !as_u8_to_N.
  - pose proof (base64_chunk_group (Byte.to_N a) (Byte.to_N b) (Byte.to_N c)
      (byte_bound a) (byte_bound b) (byte_bound c)) as Hg. cbn [base64_encode].
    destruct (base64_group _) as [[[w x] y] z]. destruct Hg as (Hg & _).
    cbn [decode_chunks]. rewrite Hg, IH. cbn. by rewrite !as_u8_to_N.
Qed.

Lemma base64_encode_shape (l : list byte) :
  Forall (fun c => c < 256)%N (base64_encode l) /\
  exists k, length (base64_encode l) = k * 4.
Proof.
  assert (Hc : forall n, (n < 64)%N -> (base64_char n < 256)%N) by (intros n; apply base64_digit_char).
  induction l as [|a|a b|a b c l [IH [k Hk]]] using base64_encode_ind.
  - split; [constructor|by exists 0].
  - cbn [base64_encode]. pose proof (byte_bound a).
    pose proof (base64_group_bounds (Byte.to_N a * 2 ^ 16) ltac:(lia)).
    destruct (base64_group _) as [[[w x] y] z]. split; [|by exists 1].
    repeat constructor; try (apply Hc; tauto).
  - cbn [base64_encode]. pose proof (byte_bound a). pose proof (byte_bound b).
    pose proof (base64_group_bounds (Byte.to_N a * 2 ^ 16 + Byte.to_N b * 2 ^ 8) ltac:(lia)).
    destruct (base64_group _) as [[[w x] y] z]. split; [|by exists 1].
    repeat constructor; try (apply Hc; tauto).
  - cbn [base64_encode]. pose proof (byte_bound a). pose proof (byte_bound b).
    pose proof (byte_bound c).
    pose proof (base64_group_bounds (Byte.to_N a * 2 ^ 16 + Byte.to_N b * 2 ^ 8 + Byte.to_N c) ltac:(lia)).
    destruct (base64_group _) as [[[w x] y] z]. split.
    + repeat (constructor; [apply Hc; tauto|]). done.
    + exists (S k). simpl. lia.
Qed.

(** Binary keys: the decoder of buffer clones inverts the standard base64
    encoding on every byte string, padding included. *)
Theorem base64_round_trip (l : list byte) : decode_base64 (of_bytes (base64_encode l)) = Some l.
Proof.
  destruct (base64_encode_shape l) as [Hb [k Hk]]. unfold decode_base64.
  rewrite bytes_of_bytes by done. unfold byte_length.
  assert (String.length (of_bytes (base64_encode l)) = k * 4) as ->.
  { by rewrite <- length_bytes, bytes_of_bytes. }
  assert ((N.of_nat (k * 4) mod 4 =? 0)%N = true) as ->.
  { apply N.eqb_eq. rewrite Nat2N.inj_mul. apply N.Div0.mod_mul. }
  apply decode_chunks_encode.
Qed.

(** ** A concrete JSON library *)
Inductive demo_number := PosInt (n : N) | Float (x : f64).

#[global] Instance demo_numbers : JsonNumbers := {|
  JNumber := demo_number;
  number_as_u64 n := match n with PosInt n => Some n | Float _ => None end;
  number_as_f64 n := match n with
                     | PosInt n => Some (if (n <=? u64_max)%N then f64_of_u64 n else 0%N)
                     | Float x => if is_finite x then Some x else None
                     end;
  number_of_u64 := PosInt;
  number_of_f64 x := if is_finite x then Some (Float x) else None
|}.

#[global] Instance demo_numbers_laws : JsonNumbersLaws.
Proof.
  split.
  - intros x Hx. exists (Float x). simpl. by rewrite Hx.
  - intros [n|x] y; simpl; [|by case_match; intros [= <-]].
    intros [= <-]. case_match eqn:Hn; [|done]. apply is_finite_of_u64. lia.
Qed.

(** The clone of [{}], and the number 7 injected at "a.b". *)
Definition demo_clone : Value :=
  VObject [("id", VNumber (PosInt 1)); ("n", VBool false); ("t", VString "object"); ("v", VArray [])].

Lemma inject_then_extract_witness :
  let c := VObject [("id", VNumber (PosInt 1)); ("n", VBool false); ("t", VString "object");
            ("v", VArray [VArray [VString "a";
               VObject [("id", VNumber (PosInt 2)); ("n", VBool false); ("t", VString "object");
                        ("v", VArray [VArray [VString "b"; VNumber (Float (f64_of_u64 7))]])]]])] in
  inject_value demo_clone "a.b" (f64_of_u64 7) = Ok c /\
  extract_path c "a.b" = Some (Number (f64_of_u64 7)).
Proof.
  intros c. split; [reflexivity|].
  apply (inject_then_extract demo_clone c "a.b" (f64_of_u64 7)).
  - done.
  - repeat constructor; done.
  - reflexivity.
  - reflexivity.
Defined.
