(* ===== verification/ObjectStores.v ===== *)
(** * ObjectStores: IndexedDB's object stores, indexes and transactions on them

    src/indexed_db/model/types.rs, records.rs and index.rs. A store keeps its
    records sorted by key and finds them by the standard library's binary
    search; indexes are computed from the records when they are asked for. The
    operations mutate the store in place and may fail half way, so each is a
    function to the store left behind and the result. *)

From stdpp Require Import sorting.
From Stdlib Require Import Strings.Byte.
From S2P Require Import Prelude Text OrderedMap Float64 Keys StructuredClone.

(** ** Definitions and operations (src/indexed_db/model/types.rs) *)
Inductive IndexKeyPath :=
  | Single (path : string)
  | Compound (paths : list string).
#[global] Instance IndexKeyPath_eq_dec : EqDecision IndexKeyPath.
Proof. solve_decision. Defined.

Record IndexDefinition := mkIndex {
  index_name : string;
  index_key_path : IndexKeyPath;
  unique : bool;
  multi_entry : bool
}.
#[global] Instance IndexDefinition_eq_dec : EqDecision IndexDefinition.
Proof. solve_decision. Defined.

Record StoreDefinition := mkDefinition {
  store_name : string;
  store_key_path : option string;
  auto_increment : bool;
  indexes : list IndexDefinition
}.
#[global] Instance StoreDefinition_eq_dec : EqDecision StoreDefinition.
Proof. solve_decision. Defined.

Record DatabaseInfo := mkInfo { info_version : N; info_stores : list StoreDefinition }.
Record DatabaseListing := mkListing { listing_name : string; listing_version : N }.

Inductive TransactionMode := ReadOnly | ReadWrite.
#[global] Instance TransactionMode_eq_dec : EqDecision TransactionMode.
Proof. solve_decision. Defined.

Inductive DbOperation :=
  | Put (store : string) (key : option Key) (value : string) (overwrite : bool)
  | Get (store : string) (key : Key)
  | GetAll (store : string) (range : option KeyRange) (limit : option N) (keys_only : bool)
  | Scan (store : string) (range : option KeyRange) (after : option Key) (inclusive : bool)
         (skip : N) (reverse keys_only : bool)
  | Delete (store : string) (key : Key)
  | DeleteRange (store : string) (range : KeyRange)
  | Clear (store : string)
  | Count (store : string) (range : option KeyRange)
  | IndexGet (store index : string) (range : KeyRange) (keys_only : bool)
  | IndexGetAll (store index : string) (range : option KeyRange) (limit : option N)
                (keys_only : bool)
  | IndexCount (store index : string) (range : option KeyRange)
  | IndexScan (store index : string) (range : option KeyRange) (after after_primary : option Key)
              (inclusive : bool) (skip : N) (reverse unique keys_only : bool).

Record CursorRecord := mkCursor {
  cursor_key : Key;
  cursor_primary_key : option Key;
  cursor_value : option string
}.

Inductive DbResult :=
  | RKey (key : Key)
  | RValue (value : option string)
  | RValues (values : list string)
  | RKeys (keys : list Key)
  | RRecord (record : option CursorRecord)
  | RCount (count : N)
  | RUnit.

(** ** Stores (src/indexed_db/model.rs) *)
Record IdbRecord := mkRecord { record_key : Key; record_value : string }.

Record ObjectStore := mkStore {
  definition : StoreDefinition;
  next_key : N;
  records : list IdbRecord
}.
Definition set_next_key (s : ObjectStore) (n : N) : ObjectStore :=
  mkStore (definition s) n (records s).
Definition set_records (s : ObjectStore) (rs : list IdbRecord) : ObjectStore :=
  mkStore (definition s) (next_key s) rs.

Record Database := mkDatabase {
  db_version : N;
  generation : N;
  stores : list (string * ObjectStore)
}.
Definition set_stores (db : Database) (ss : list (string * ObjectStore)) : Database :=
  mkDatabase (db_version db) (generation db) ss.

(** ** Validation of definitions (src/indexed_db/model/index.rs) *)
Definition validate_name (name : string) : result DbError () :=
  if (MAX_NAME_BYTES <? byte_length name)%N then Err Quota else Ok tt.

Definition has_empty_part (path : string) : bool :=
  existsb (fun part => String.eqb part EmptyString) (split_on "." path).

Definition validate_path (path : string) : result DbError () :=
  if (MAX_NAME_BYTES <? byte_length path)%N
     || (has_empty_part path && negb (String.eqb path EmptyString))
  then Err (Data "invalid index key path") else Ok tt.

Definition IndexDefinition_validate (i : IndexDefinition) : result DbError () :=
  if (MAX_NAME_BYTES <? byte_length (index_name i))%N then Err Quota
  else
    match index_key_path i with
    | Single path => validate_path path
    | Compound paths =>
        if bool_decide (paths = []) || multi_entry i
        then Err (Data "invalid compound index key path")
        else try_for_each validate_path paths
    end.

(** [BTreeSet::insert] into a set of names: a name seen before is an error. *)
Fixpoint validate_index_list (duplicate : string) (names : list (string * ()))
    (defs : list IndexDefinition) : result DbError () :=
  match defs with
  | [] => Ok tt
  | i :: defs =>
      _ ← IndexDefinition_validate i;
      if bt_contains (index_name i) names then Err (Constraint duplicate)
      else validate_index_list duplicate (bt_insert (index_name i) tt names) defs
  end.

Definition StoreDefinition_validate (d : StoreDefinition) : result DbError () :=
  _ ← validate_name (store_name d);
  _ ← match store_key_path d with
      | Some path =>
          if (MAX_NAME_BYTES <? byte_length path)%N || has_empty_part path
          then Err (Data "invalid key path") else Ok tt
      | None => Ok tt
      end;
  validate_index_list "index already exists" [] (indexes d).

(** ** Ordered views *)
Definition key_le (x y : Key) : Prop := cmp x y <> Gt.
#[global] Instance key_le_dec x y : Decision (key_le x y).
Proof. unfold key_le. apply _. Defined.

(** [iter.collect::<BTreeSet<Key>>()]: a stable sort, of whose equal runs the
    last key is kept. *)
Fixpoint dedup_sorted (l : list Key) : list Key :=
  match l with
  | x :: (y :: _) as rest => if key_eqb x y then dedup_sorted rest else x :: dedup_sorted rest
  | _ => l
  end.
Definition collect_key_set (l : list Key) : list Key := dedup_sorted (merge_sort key_le l).

(** The loop of [slice::binary_search_by] on the comparison [f] of the element
    at an index with the key; the fuel is the size, which at least halves. *)
Fixpoint binary_search_loop (fuel : nat) (f : nat -> comparison) (base size : nat) : nat :=
  match fuel with
  | O => base
  | S fuel =>
      if Nat.leb size 1 then base
      else
        let half := Nat.div2 size in
        let mid := base + half in
        binary_search_loop fuel f (if is_gt (f mid) then base else mid) (size - half)
  end.

Definition binary_search (f : nat -> comparison) (size : nat) : result nat nat :=
  if Nat.eqb size 0 then Err 0
  else
    let base := binary_search_loop size f 0 size in
    match f base with
    | Eq => Ok base
    | Lt => Err (base + 1)
    | Gt => Err base
    end.

Definition locate (rs : list IdbRecord) (key : Key) : result nat nat :=
  binary_search (fun i => from_option (fun r => cmp (record_key r) key) Eq (rs !! i)) (length rs).

Definition in_range (range : option KeyRange) (key : Key) : bool :=
  match range with Some range => KeyRange_contains range key | None => true end.

Definition validate_range (range : option KeyRange) : result DbError () :=
  match range with Some range => KeyRange_validate range | None => Ok tt end.

Definition validate_key (key : option Key) : result DbError () :=
  match key with Some key => Key_validate 0 key | None => Ok tt end.

Definition take_limit {A} (limit : option N) (l : list A) : list A :=
  match limit with Some limit => take (N.to_nat limit) l | None => l end.

(** A cursor's position test: past [after], or at it when [inclusive]. *)
Definition past (reverse inclusive : bool) (order : comparison) : bool :=
  (if reverse then is_lt order else is_gt order) || (inclusive && is_eq order).

Section stores.
Context {NUM : JsonNumbers} {TEXT : JsonText}.

Definition valid_key (key : Key) : bool := is_ok (Key_validate 0 key).

Definition keys_for_value (i : IndexDefinition) (serialized : string) : list Key :=
  match value_from_str serialized with
  | None => []
  | Some value =>
      let single :=
        match (match index_key_path i with
               | Single path => extract_path value path
               | Compound paths => Array <$> option_map_all (extract_path value) paths
               end) with
        | Some key => if valid_key key then [key] else []
        | None => []
        end in
      match multi_entry i, index_key_path i with
      | true, Single path =>
          match project_path value path with
          | None => []
          | Some projected =>
              if bool_decide (tag projected = Some "array") then
                match value_get "v" projected ≫= as_array with
                | None => []
                | Some members =>
                    collect_key_set
                      (filter (fun key => valid_key key = true)
                        (omap clone_key (omap (fun member => as_array member ≫= lookup 1) members)))
                end
              else single
          end
      | _, _ => single
      end
  end.

(** *** Uniqueness *)
Fixpoint insert_all (seen : list (Key * ())) (keys : list Key) : option (list (Key * ())) :=
  match keys with
  | [] => Some seen
  | key :: keys =>
      if bt_contains key seen then None else insert_all (bt_insert key tt seen) keys
  end.

Definition validate_unique (i : IndexDefinition) (rs : list IdbRecord) : result DbError () :=
  match insert_all [] (rs ≫= fun r => keys_for_value i (record_value r)) with
  | Some _ => Ok tt
  | None => Err (Constraint "unique index key already exists")
  end.

Fixpoint validate_indexes_loop (names : list (string * ())) (defs : list IndexDefinition)
    (rs : list IdbRecord) : result DbError () :=
  match defs with
  | [] => Ok tt
  | i :: defs =>
      _ ← IndexDefinition_validate i;
      if bt_contains (index_name i) names then Err (Constraint "index name already exists")
      else
        _ ← (if unique i then validate_unique i rs else Ok tt);
        validate_indexes_loop (bt_insert (index_name i) tt names) defs rs
  end.

Definition ObjectStore_validate_indexes (s : ObjectStore) : result DbError () :=
  validate_indexes_loop [] (indexes (definition s)) (records s).

Definition Database_validate_indexes (db : Database) : result DbError () :=
  try_for_each (fun kv => ObjectStore_validate_indexes kv.2) (stores db).

Definition index_conflict (i : IndexDefinition) (primary : Key) (value : string)
    (rs : list IdbRecord) : bool :=
  existsb (fun r =>
      negb (key_eqb (record_key r) primary)
      && existsb (fun key => existsb (key_eqb key) (keys_for_value i (record_value r)))
           (keys_for_value i value)) rs.

Definition check_unique_index_values (s : ObjectStore) (primary : Key) (value : string)
  : result DbError () :=
  if existsb (fun i => unique i && index_conflict i primary value (records s))
       (indexes (definition s))
  then Err (Constraint "unique index key already exists") else Ok tt.

(** *** Index views *)
Record IndexEntry := mkEntry { entry_key : Key; entry_primary : Key; entry_value : string }.

Definition entry_cmp (x y : IndexEntry) : comparison :=
  match cmp (entry_key x) (entry_key y) with
  | Eq => cmp (entry_primary x) (entry_primary y)
  | order => order
  end.
Definition entry_le (x y : IndexEntry) : Prop := entry_cmp x y <> Gt.
#[global] Instance entry_le_dec x y : Decision (entry_le x y).
Proof. unfold entry_le. apply _. Defined.

Definition unsorted_entries (i : IndexDefinition) (rs : list IdbRecord) : list IndexEntry :=
  rs ≫= fun r =>
    (fun key => mkEntry key (record_key r) (record_value r)) <$> keys_for_value i (record_value r).

Definition index_entries (s : ObjectStore) (name : string) : result DbError (list IndexEntry) :=
  match find (fun i => String.eqb (index_name i) name) (indexes (definition s)) with
  | None => Err (InvalidState "index does not exist")
  | Some i => Ok (merge_sort entry_le (unsorted_entries i (records s)))
  end.

(** The stateful filter of a unique cursor, with its captured [previous_key]. *)
Fixpoint unique_entries (previous : option Key) (l : list IndexEntry) : list IndexEntry :=
  match l with
  | [] => []
  | e :: l =>
      if from_option (fun p => key_eqb p (entry_key e)) false previous
      then unique_entries previous l
      else e :: unique_entries (Some (entry_key e)) l
  end.

Definition index_position (after_primary : option Key) (after : Key) (e : IndexEntry) : comparison :=
  match cmp (entry_key e) after with
  | Eq => from_option (fun primary => cmp (entry_primary e) primary) Eq after_primary
  | order => order
  end.

Definition apply_index (s : ObjectStore) (op : DbOperation) : result DbError DbResult :=
  let select range name k :=
    _ ← validate_range range;
    entries ← index_entries s name;
    k (filter (fun e => in_range range (entry_key e) = true) entries) in
  match op with
  | IndexGet _ name range keys_only =>
      select (Some range) name (fun matches =>
        if keys_only : bool
        then Ok (RKeys (from_option (fun e => [entry_primary e]) [] (head matches)))
        else Ok (RValue (entry_value <$> head matches)))
  | IndexGetAll _ name range limit keys_only =>
      select range name (fun matches =>
        let values := take_limit limit matches in
        if keys_only : bool then Ok (RKeys (entry_primary <$> values))
        else Ok (RValues (entry_value <$> values)))
  | IndexCount _ name range =>
      select range name (fun matches => Ok (RCount (N.of_nat (length matches))))
  | IndexScan _ name range after after_primary inclusive skip reverse unique keys_only =>
      select range name (fun matches =>
        _ ← validate_key after;
        _ ← validate_key after_primary;
        let ordered := if reverse : bool then rev matches else matches in
        let ordered := if unique : bool then unique_entries None ordered else ordered in
        let ordered :=
          filter (fun e =>
            from_option (fun after => past reverse inclusive (index_position after_primary after e))
              true after = true) ordered in
        Ok (RRecord ((fun e => mkCursor (entry_key e) (Some (entry_primary e))
                                (if keys_only : bool then None else Some (entry_value e)))
                     <$> ordered !! N.to_nat skip)))
  | _ => Ok RUnit
  end.

(** ** Operations on one store (src/indexed_db/model/records.rs) *)

(** The key of a new record: given, or generated (the second component). *)
Definition choose_key (s : ObjectStore) (key : option Key)
  : ObjectStore * result DbError (Key * bool) :=
  match key with
  | Some key => (s, Ok (key, false))
  | None =>
      if auto_increment (definition s) then
        match checked_add (next_key s) 1 with
        | Some n => (set_next_key s n, Ok (Number (f64_of_u64 (next_key s)), true))
        | None => (s, Err Quota)
        end
      else (s, Err (Data "record has no key"))
  end.

Definition two_53 : f64 := 0x4340000000000000.

(** Key generators skip past the numbers used explicitly. *)
Definition bump_generator (s : ObjectStore) (key : Key) : ObjectStore :=
  match key with
  | Number number =>
      if auto_increment (definition s) && f64_geb number (f64_of_u64 (next_key s))
         && f64_ltb number two_53
      then set_next_key s (floor_u64 number + 1) else s
  | _ => s
  end.

Definition stored_value (s : ObjectStore) (key : Key) (generated : bool) (value : string)
  : result DbError string :=
  match generated, store_key_path (definition s) with
  | true, Some path => inject value path key
  | _, _ => Ok value
  end.

Definition store_put (s : ObjectStore) (key : option Key) (value : string) (overwrite : bool)
  : ObjectStore * result DbError DbResult :=
  if (MAX_ORIGIN_BYTES <? byte_length value)%N then (s, Err Quota)
  else
    match choose_key s key with
    | (s, Err e) => (s, Err e)
    | (s, Ok (key, generated)) =>
        match (_ ← Key_validate 0 key;
               stored ← stored_value s key generated value;
               _ ← check_unique_index_values s key stored;
               Ok stored) with
        | Err e => (s, Err e)
        | Ok stored =>
            let s := bump_generator s key in
            match locate (records s) key with
            | Ok index =>
                if overwrite then
                  (set_records s
                     (alter (fun r => mkRecord (record_key r) stored) index (records s)),
                   Ok (RKey key))
                else (s, Err (Constraint "record already exists"))
            | Err index =>
                (set_records s (take index (records s)
                                ++ mkRecord key stored :: drop index (records s)),
                 Ok (RKey key))
            end
        end
    end.

Definition store_read (s : ObjectStore) (op : DbOperation) : result DbError DbResult :=
  match op with
  | Get _ key =>
      _ ← Key_validate 0 key;
      Ok (RValue (match locate (records s) key with
                  | Ok index => record_value <$> records s !! index
                  | Err _ => None
                  end))
  | GetAll _ range limit keys_only =>
      _ ← validate_range range;
      let rs := take_limit limit (filter (fun r => in_range range (record_key r) = true) (records s)) in
      if keys_only : bool then Ok (RKeys (record_key <$> rs)) else Ok (RValues (record_value <$> rs))
  | Scan _ range after inclusive skip reverse keys_only =>
      _ ← validate_range range;
      _ ← validate_key after;
      let ordered := if reverse : bool then rev (records s) else records s in
      let ordered :=
        filter (fun r => in_range range (record_key r)
                         && from_option (fun after => past reverse inclusive (cmp (record_key r) after))
                              true after = true) ordered in
      Ok (RRecord ((fun r => mkCursor (record_key r) None
                              (if keys_only : bool then None else Some (record_value r)))
                   <$> ordered !! N.to_nat skip))
  | Count _ range =>
      _ ← validate_range range;
      Ok (RCount (N.of_nat (length (filter (fun r => in_range range (record_key r) = true) (records s)))))
  | _ => apply_index s op
  end.

Definition ObjectStore_apply (s : ObjectStore) (op : DbOperation)
  : ObjectStore * result DbError DbResult :=
  match op with
  | Put _ key value overwrite => store_put s key value overwrite
  | Delete _ key =>
      match Key_validate 0 key with
      | Err e => (s, Err e)
      | Ok _ =>
          (match locate (records s) key with
           | Ok index => set_records s (delete index (records s))
           | Err _ => s
           end, Ok RUnit)
      end
  | DeleteRange _ range =>
      match KeyRange_validate range with
      | Err e => (s, Err e)
      | Ok _ =>
          (set_records s (filter (fun r => KeyRange_contains range (record_key r) = false) (records s)),
           Ok RUnit)
      end
  | Clear _ => (set_records s [], Ok RUnit)
  | _ => (s, store_read s op)
  end.

(** ** Transactions (src/indexed_db/model/records.rs) *)
Definition operation_target (op : DbOperation) : string * bool :=
  match op with
  | Put store _ _ _ => (store, true)
  | Get store _ => (store, false)
  | GetAll store _ _ _ => (store, false)
  | Scan store _ _ _ _ _ _ => (store, false)
  | Delete store _ => (store, true)
  | DeleteRange store _ => (store, true)
  | Clear store => (store, true)
  | Count store _ => (store, false)
  | IndexGet store _ _ _ | IndexGetAll store _ _ _ _ | IndexCount store _ _
  | IndexScan store _ _ _ _ _ _ _ _ _ => (store, false)
  end.

Definition apply_operation (mode : TransactionMode) (db : Database) (op : DbOperation)
  : Database * result DbError DbResult :=
  let '(name, writable) := operation_target op in
  if writable && bool_decide (mode = ReadOnly) then (db, Err ReadOnlyError)
  else
    match bt_get name (stores db) with
    | None => (db, Err (InvalidState "object store does not exist"))
    | Some s =>
        let '(s, r) := ObjectStore_apply s op in (set_stores db (bt_insert name s (stores db)), r)
    end.

(** The lazy [map] and [collect]: the first error ends the iteration, leaving
    the operations before it applied. *)
Fixpoint Database_apply (mode : TransactionMode) (db : Database) (ops : list DbOperation)
  : Database * result DbError (list DbResult) :=
  match ops with
  | [] => (db, Ok [])
  | op :: ops =>
      match apply_operation mode db op with
      | (db, Err e) => (db, Err e)
      | (db, Ok r) =>
          match Database_apply mode db ops with
          | (db, Err e) => (db, Err e)
          | (db, Ok rs) => (db, Ok (r :: rs))
          end
      end
  end.

Definition Database_info (db : Database) : DatabaseInfo :=
  mkInfo (db_version db) ((fun kv => definition kv.2) <$> stores db).
End stores.
