(* ===== verification/RecordOrder.v ===== *)
(** * RecordOrder: the sorted record list as an ordered map

    The records of an object store are found by the standard library's binary
    search and inserted, replaced and removed by index. This file proves the
    search correct on any monotone comparison and shows that the store's list
    operations are exactly those of an ordered map ([OrderedMap]), whose lookup
    equations the theorems about stores then use. *)

From Stdlib Require Import Sorted.
From S2P Require Import Prelude OrderedMap Float64 Keys StructuredClone ObjectStores.

(** ** Binary search *)
Section search.
Variable f : nat -> comparison.
Variable n : nat.
Hypothesis f_gt : forall i j, i < j < n -> f i = Gt -> f j = Gt.
Hypothesis f_lt : forall i j, i < j < n -> f j = Lt -> f i = Lt.

Definition search_inv (base size : nat) : Prop :=
  1 <= size /\ base + size <= n /\ (base = 0 \/ f base <> Gt) /\
  forall j, base + size <= j < n -> f j = Gt.

Lemma binary_search_loop_spec (fuel base size : nat) :
  size <= fuel -> search_inv base size ->
  search_inv (binary_search_loop fuel f base size) 1.
Proof.
  revert base size. induction fuel as [|fuel IH]; intros base size Hf (H1 & H2 & H3 & H4); [lia|].
  simpl. destruct (Nat.leb_spec size 1) as [Hs|Hs].
  - assert (size = 1) as -> by lia. exact (conj H1 (conj H2 (conj H3 H4))).
  - pose proof (Nat.div2_odd size) as Ho. pose proof (Nat.div2_decr size size ltac:(lia)).
    assert (1 <= Nat.div2 size) by (destruct size as [|[|size]]; simpl; lia).
    assert (Nat.div2 size < size) by (apply Nat.lt_div2; lia).
    apply IH; [lia|]. unfold search_inv. destruct (f (base + Nat.div2 size)) eqn:Hm; simpl.
    + split_and!; [lia|lia|right; by rewrite Hm|]. intros j Hj. apply H4. lia.
    + split_and!; [lia|lia|right; by rewrite Hm|]. intros j Hj. apply H4. lia.
    + split_and!; [lia|lia|done|]. intros j Hj.
      destruct (Nat.eq_dec j (base + Nat.div2 size)) as [->|Hne]; [done|].
      destruct (decide (base + size <= j)); [apply H4; lia|].
      apply (f_gt (base + Nat.div2 size)); [|done].
      destruct (Nat.odd size); simpl in Ho; lia.
Qed.

(** The contract of [binary_search_by]: the index of a match, or the only
    index where the key can be inserted. *)
Lemma binary_search_spec :
  match binary_search f n with
  | Ok i => i < n /\ f i = Eq
  | Err i => i <= n /\ (forall j, j < i -> f j = Lt) /\ (forall j, i <= j < n -> f j = Gt)
  end.
Proof.
  unfold binary_search. destruct (Nat.eqb_spec n 0) as [->|Hn]; [split_and!; lia|].
  destruct (binary_search_loop_spec n 0 n) as (_ & H2 & H3 & H4); [done| |].
  { split_and!; [lia..|by left|lia]. }
  set (b := binary_search_loop n f 0 n) in *. destruct (f b) eqn:Hb.
  - split; [lia|done].
  - split_and!; [lia| |intros j Hj; apply H4; lia]. intros j Hj.
    destruct (Nat.eq_dec j b) as [->|]; [done|]. apply (f_lt j b); [lia|done].
  - destruct H3 as [H3|]; [|done]. rewrite H3 in *. split_and!; [lia|lia|]. intros j Hj.
    destruct (Nat.eq_dec j 0) as [->|]; [done|]. apply (f_gt 0 j); [lia|done].
Qed.
End search.

(** ** Ordered maps split at an index *)
Section split.
Context {K : Type} `{TotalCmpLaws K} {V : Type}.
Implicit Types (m l : list (K * V)) (k : K) (v : V).

Definition below k l : Prop := Forall (fun x => cmp x.1 k = Lt) l.

Lemma bt_get_below k l m : below k l -> bt_get k (l ++ m) = bt_get k m.
Proof.
  induction 1 as [|[k' v'] l Hk _ IH]; simpl; [done|].
  by rewrite (proj2 (cmp_gt_lt k k') Hk).
Qed.

Lemma bt_insert_below k v l m : below k l -> bt_insert k v (l ++ m) = l ++ bt_insert k v m.
Proof.
  induction 1 as [|[k' v'] l Hk _ IH]; simpl; [done|].
  by rewrite (proj2 (cmp_gt_lt k k') Hk), IH.
Qed.

Lemma bt_remove_below k l m : below k l -> bt_remove k (l ++ m) = l ++ bt_remove k m.
Proof.
  induction 1 as [|[k' v'] l Hk _ IH]; simpl; [done|].
  by rewrite (proj2 (cmp_gt_lt k k') Hk), IH.
Qed.

Lemma sorted_app_inv l m :
  sorted (l ++ m) ->
  sorted l /\ sorted m /\ Forall (fun x => Forall (fun y => cmp x.1 y.1 = Lt) m) l.
Proof.
  induction l as [|x l IH]; intros Hs; simpl in *; [split_and!; [constructor|done|constructor]|].
  apply StronglySorted_inv in Hs as [Hs Hx]. destruct (IH Hs) as (Hl & Hm & Hlm).
  apply Forall_app in Hx as [Hxl Hxm]. split_and!; [by constructor|done|by constructor].
Qed.

Lemma sorted_app l m :
  sorted l -> sorted m -> Forall (fun x => Forall (fun y => cmp x.1 y.1 = Lt) m) l ->
  sorted (l ++ m).
Proof.
  intros Hl Hm. induction Hl as [|x l Hl IH Hx]; intros Hlm; simpl; [done|].
  apply Forall_cons in Hlm as [Hxm Hlm]. constructor; [by apply IH|]. by apply Forall_app.
Qed.

Lemma sorted_filter (P : K * V -> Prop) `{!forall x, Decision (P x)} m :
  sorted m -> sorted (filter P m).
Proof.
  induction 1 as [|x m Hm IH Hx]; [constructor|]. rewrite filter_cons. case_decide; [|done].
  constructor; [done|]. apply Forall_forall. intros y [_ Hy]%list_elem_of_filter. by eapply Forall_forall in Hx.
Qed.
End split.

(** ** Records *)
Definition record_entry (r : IdbRecord) : Key * string := (record_key r, record_value r).
Definition entries (rs : list IdbRecord) : list (Key * string) := record_entry <$> rs.

Lemma entries_lookup (rs : list IdbRecord) (i : nat) :
  entries rs !! i = record_entry <$> rs !! i.
Proof. apply list_lookup_fmap. Qed.

Lemma sorted_lookup_lt (rs : list IdbRecord) (i j : nat) (r r' : IdbRecord) :
  sorted (entries rs) -> i < j -> rs !! i = Some r -> rs !! j = Some r' ->
  cmp (record_key r) (record_key r') = Lt.
Proof.
  intros Hs Hij Hi Hj. rewrite <- (take_drop_middle rs i r Hi) in Hs.
  unfold entries in Hs. rewrite fmap_app, fmap_cons in Hs.
  apply sorted_app_inv in Hs as (_ & Hs & _). apply StronglySorted_inv in Hs as [_ Hs].
  rewrite Forall_fmap, Forall_forall in Hs. apply Hs.
  apply list_elem_of_lookup_2 with (j - S i). rewrite lookup_drop.
  by replace (S i + (j - S i)) with j by lia.
Qed.

(** What [locate] finds: a record with an equal key, or the split of the list
    at the key. *)
Lemma locate_spec (rs : list IdbRecord) (key : Key) :
  sorted (entries rs) ->
  match locate rs key with
  | Ok i => exists r, rs !! i = Some r /\ cmp (record_key r) key = Eq
  | Err i => below key (entries (take i rs)) /\
             Forall (fun x => cmp key x.1 = Lt) (entries (drop i rs))
  end.
Proof.
  intros Hs. unfold locate.
  set (f := fun i => from_option (fun r => cmp (record_key r) key) Eq (rs !! i)).
  assert (Hf : forall i r, rs !! i = Some r -> f i = cmp (record_key r) key)
    by (intros i r Hi; unfold f; by rewrite Hi).
  assert (Hlt : forall i, i < length rs -> exists r, rs !! i = Some r) by (apply lookup_lt_is_Some_2).
  pose proof (binary_search_spec f (length rs)) as Hb.
  destruct (binary_search f (length rs)) as [i|i].
  - destruct Hb as [Hi Hfi]; [..|].
    1,2: intros i' j Hij; destruct (Hlt i' ltac:(lia)) as [r Hr], (Hlt j ltac:(lia)) as [r' Hr'];
      rewrite (Hf _ _ Hr), (Hf _ _ Hr');
      pose proof (sorted_lookup_lt rs i' j r r' Hs ltac:(lia) Hr Hr') as Hrr.
    + rewrite !cmp_gt_lt. intros. by eapply cmp_lt_trans.
    + intros. by eapply cmp_lt_trans.
    + destruct (Hlt i Hi) as [r Hr]. exists r. split; [done|]. by rewrite <- (Hf _ _ Hr).
  - destruct Hb as (Hi & Hlo & Hhi); [..|].
    1,2: intros i' j Hij; destruct (Hlt i' ltac:(lia)) as [r Hr], (Hlt j ltac:(lia)) as [r' Hr'];
      rewrite (Hf _ _ Hr), (Hf _ _ Hr');
      pose proof (sorted_lookup_lt rs i' j r r' Hs ltac:(lia) Hr Hr') as Hrr.
    + rewrite !cmp_gt_lt. intros. by eapply cmp_lt_trans.
    + intros. by eapply cmp_lt_trans.
    + split; unfold below, entries; rewrite Forall_fmap; apply Forall_lookup; intros j r Hj.
      * apply lookup_take_Some in Hj as [Hj Hji]. simpl. rewrite <- (Hf j r Hj). by apply Hlo.
      * rewrite lookup_drop in Hj. simpl. rewrite <- cmp_gt_lt, <- (Hf _ r Hj).
        apply Hhi. split; [lia|]. by eapply lookup_lt_Some.
Qed.

Lemma entries_split (rs : list IdbRecord) (i : nat) (r : IdbRecord) (key : Key) :
  sorted (entries rs) -> rs !! i = Some r -> cmp (record_key r) key = Eq ->
  entries rs = entries (take i rs) ++ record_entry r :: entries (drop (S i) rs) /\
  below key (entries (take i rs)).
Proof.
  intros Hs Hi Hk. assert (He : entries rs = entries (take i rs) ++ record_entry r :: entries (drop (S i) rs)).
  { rewrite <- (take_drop_middle rs i r Hi) at 1. unfold entries. by rewrite fmap_app. }
  split; [done|]. rewrite He in Hs. apply sorted_app_inv in Hs as (_ & _ & Hs).
  eapply Forall_impl; [done|]. intros x [Hx _]%Forall_cons. simpl in Hx.
  by rewrite <- (cmp_eq_compat_r _ _ x.1 Hk).
Qed.

(** *** The store's list operations are the ordered map's *)
Lemma locate_get (rs : list IdbRecord) (key : Key) :
  sorted (entries rs) ->
  match locate rs key with Ok i => record_value <$> rs !! i | Err _ => None end
  = bt_get key (entries rs).
Proof.
  intros Hs. pose proof (locate_spec rs key Hs) as Hl. destruct (locate rs key) as [i|i].
  - destruct Hl as (r & Hi & Hk). destruct (entries_split rs i r key Hs Hi Hk) as [-> Hb].
    rewrite Hi, bt_get_below by done. simpl. by rewrite (cmp_eq_sym _ _ Hk).
  - destruct Hl as [Hlo Hhi]. rewrite <- (take_drop i rs) at 1. unfold entries.
    rewrite fmap_app, bt_get_below by done. symmetry. by apply bt_get_none_lt.
Qed.

Lemma locate_replace (rs : list IdbRecord) (key : Key) (i : nat) (v : string) :
  sorted (entries rs) -> locate rs key = Ok i ->
  entries (alter (fun r => mkRecord (record_key r) v) i rs) = bt_insert key v (entries rs).
Proof.
  intros Hs Hl. pose proof (locate_spec rs key Hs) as Hi. rewrite Hl in Hi.
  destruct Hi as (r & Hi & Hk). destruct (entries_split rs i r key Hs Hi Hk) as [-> Hb].
  rewrite bt_insert_below by done. simpl. rewrite (cmp_eq_sym _ _ Hk).
  assert (alter (fun r => mkRecord (record_key r) v) i rs
          = take i rs ++ mkRecord (record_key r) v :: drop (S i) rs) as ->.
  { rewrite <- (take_drop_middle rs i r Hi) at 1.
    rewrite <- (Nat.add_0_r i) at 1. rewrite <- (length_take_le rs i) at 1.
    - by rewrite alter_app_r.
    - apply lookup_lt_Some in Hi. lia. }
  unfold entries. by rewrite fmap_app.
Qed.

Lemma locate_insert (rs : list IdbRecord) (key : Key) (i : nat) (v : string) :
  sorted (entries rs) -> locate rs key = Err i ->
  entries (take i rs ++ mkRecord key v :: drop i rs) = bt_insert key v (entries rs) /\
  bt_get key (entries rs) = None.
Proof.
  intros Hs Hl. pose proof (locate_spec rs key Hs) as Hi. rewrite Hl in Hi.
  destruct Hi as [Hlo Hhi].
  assert (He : entries rs = entries (take i rs) ++ entries (drop i rs)).
  { rewrite <- (take_drop i rs) at 1. unfold entries. by rewrite fmap_app. }
  rewrite He, bt_insert_below, bt_get_below by done. split; [|by apply bt_get_none_lt].
  assert (entries (take i rs ++ mkRecord key v :: drop i rs)
          = entries (take i rs) ++ (key, v) :: entries (drop i rs)) as ->.
  { unfold entries. by rewrite fmap_app. }
  f_equal. destruct (entries (drop i rs)) as [|[k' v'] l]; [done|].
  apply Forall_cons in Hhi as [Hk' _]. simpl in *. by rewrite Hk'.
Qed.

Lemma locate_delete (rs : list IdbRecord) (key : Key) :
  sorted (entries rs) ->
  entries (match locate rs key with Ok i => delete i rs | Err _ => rs end)
  = bt_remove key (entries rs).
Proof.
  intros Hs. pose proof (locate_spec rs key Hs) as Hl. destruct (locate rs key) as [i|i].
  - destruct Hl as (r & Hi & Hk). destruct (entries_split rs i r key Hs Hi Hk) as [-> Hb].
    rewrite bt_remove_below by done. simpl. rewrite (cmp_eq_sym _ _ Hk).
    rewrite delete_take_drop. unfold entries. by rewrite fmap_app.
  - destruct Hl as [Hlo Hhi]. rewrite bt_remove_none; [done|].
    rewrite <- (take_drop i rs). unfold entries. rewrite fmap_app, bt_get_below by done.
    by apply bt_get_none_lt.
Qed.
