(* ===== verification/StoreTheory.v ===== *)
(** * StoreTheory: what object stores guarantee

    The theorems about [ObjectStores]: every accepted operation leaves a store
    that the loader would accept ([store_valid]), the store implements an
    ordered map from keys to values, unique indexes stay unique, index views are
    sorted and complete, and cursors visit every record exactly once. *)

From stdpp Require Import sorting.
From Stdlib Require Import Sorted.
From S2P Require Import Prelude Text OrderedMap Float64 Keys StructuredClone ObjectStores RecordOrder.

(** ** Distinct keys *)
Lemma cmp_code_eq (x y : Key) : cmp x y = Eq <-> key_code x = key_code y.
Proof.
  rewrite key_cmp_code. split.
  - apply (cmp_eq (K := list Z)).
  - intros ->. apply (cmp_refl (K := list Z)).
Qed.

(** No two keys of the list compare equal. *)
Definition distinct (l : list Key) : Prop := NoDup (key_code <$> l).

Lemma insert_all_distinct (seen : list (Key * ())) (keys : list Key) :
  sorted seen ->
  is_Some (insert_all seen keys) <-> distinct keys /\ Forall (fun k => bt_get k seen = None) keys.
Proof.
  unfold distinct. revert seen. induction keys as [|k keys IH]; intros seen Hs; simpl.
  - split; [|eauto]. intros _. split; [constructor|constructor].
  - rewrite NoDup_cons, Forall_cons. unfold bt_contains. case_bool_decide as Hk.
    { split; [by intros [??]|]. intros [_ [Hn _]]. rewrite Hn in Hk. by destruct Hk. }
    apply eq_None_not_Some in Hk. rewrite IH by (by apply bt_insert_sorted). rewrite !Forall_forall.
    assert (Hget : forall x, bt_get x (bt_insert k tt seen) = None <->
                     key_code x <> key_code k /\ bt_get x seen = None).
    { intros x. rewrite bt_get_insert by done. rewrite <- cmp_code_eq.
      destruct (cmp x k); intuition congruence. }
    split.
    + intros [Hd Hf]. split_and!; [|done|done|].
      * intros (x & Hx & Hin)%list_elem_of_fmap. apply Hf, Hget in Hin as [Hne _]. by symmetry in Hx.
      * intros x Hin. by apply Hget, Hf.
    + intros [[Hnin Hd] [_ Hf]]. split; [done|]. intros x Hin. apply Hget. split; [|by apply Hf].
      intros Hx. apply Hnin. rewrite <- Hx. by apply list_elem_of_fmap_2.
Qed.

Definition keys_valid (l : list Key) : Prop := Forall (fun k => Key_validate 0 k = Ok tt) l.

Lemma valid_key_ok (k : Key) : valid_key k = true <-> Key_validate 0 k = Ok tt.
Proof. unfold valid_key. destruct (Key_validate 0 k) as [[]|]; naive_solver. Qed.

Lemma valid_eqb (x y : Key) :
  Key_validate 0 x = Ok tt -> Key_validate 0 y = Ok tt -> key_eqb x y = true <-> cmp x y = Eq.
Proof. intros. apply key_eqb_cmp; eauto using Key_validate_finite. Qed.

#[global] Instance key_le_transitive : Transitive key_le.
Proof. intros x y z. unfold key_le. apply cmp_le_trans. Qed.

#[global] Instance key_le_total : Total key_le.
Proof. intros x y. unfold key_le. rewrite (cmp_antisym x y). destruct (cmp x y); auto. Qed.

Lemma dedup_sorted_spec (l : list Key) :
  StronglySorted key_le l -> keys_valid l ->
  StronglySorted (fun x y => cmp x y = Lt) (dedup_sorted l) /\
  (forall x, x ∈ dedup_sorted l -> x ∈ l) /\
  (forall x, x ∈ l -> exists y, y ∈ dedup_sorted l /\ cmp x y = Eq).
Proof.
  induction 1 as [|x l Hl IH Hx]; intros Hv.
  { split_and!; [constructor|done|]. intros x Hin. by apply not_elem_of_nil in Hin. }
  apply Forall_cons in Hv as [Hvx Hv]. destruct (IH Hv) as (Hs & Hsub & Hcov). clear IH.
  destruct l as [|y l].
  { split_and!; [repeat constructor|done|]. intros z Hz. exists z. split; [done|apply cmp_refl]. }
  change (dedup_sorted (x :: y :: l))
    with (if key_eqb x y then dedup_sorted (y :: l) else x :: dedup_sorted (y :: l)).
  pose proof (Forall_inv Hv) as Hvy. pose proof (valid_eqb x y Hvx Hvy) as Heq.
  destruct (key_eqb x y).
  - split_and!; [done|intros z Hz; constructor; auto|].
    intros z [->|Hz]%elem_of_cons; [|auto]. destruct (Hcov y) as (w & Hw & Hyw); [constructor|].
    exists w. split; [done|]. rewrite <- Hyw. apply cmp_eq_compat. by apply Heq.
  - split_and!.
    + constructor; [done|]. apply Forall_forall. intros z Hz%Hsub.
      assert (cmp x y = Lt) as Hxy.
      { apply Forall_inv in Hx. unfold key_le in Hx. destruct (cmp x y); [|done|done].
        destruct Heq as [_ Heq]. by specialize (Heq eq_refl). }
      apply elem_of_cons in Hz as [->|Hz]; [done|]. apply StronglySorted_inv in Hl as [_ Hy].
      rewrite Forall_forall in Hy. specialize (Hy z Hz). unfold key_le in Hy.
      destruct (cmp y z) eqn:Hyz; [by rewrite <- (cmp_eq_compat_r y z x Hyz)| |done].
      by eapply cmp_lt_trans.
    + intros z [->|Hz]%elem_of_cons; [constructor|]. constructor. by apply Hsub.
    + intros z [->|Hz]%elem_of_cons.
      * exists x. split; [constructor|apply cmp_refl].
      * destruct (Hcov z Hz) as (w & Hw & Hzw). exists w. split; [by constructor|done].
Qed.

Lemma strictly_sorted_distinct (l : list Key) :
  StronglySorted (fun x y => cmp x y = Lt) l -> distinct l.
Proof.
  unfold distinct. induction 1 as [|x l _ IH Hx]; simpl; [constructor|]. constructor; [|done].
  intros (y & Hy & Hin)%list_elem_of_fmap. apply cmp_code_eq in Hy.
  rewrite Forall_forall in Hx. specialize (Hx y Hin). congruence.
Qed.

Lemma collect_key_set_spec (l : list Key) :
  keys_valid l ->
  StronglySorted (fun x y => cmp x y = Lt) (collect_key_set l) /\ keys_valid (collect_key_set l) /\
  (forall x, x ∈ l -> exists y, y ∈ collect_key_set l /\ cmp x y = Eq).
Proof.
  intros Hv. unfold collect_key_set. pose proof (merge_sort_Permutation key_le l) as Hp.
  destruct (dedup_sorted_spec (merge_sort key_le l)) as (Hs & Hsub & Hcov).
  - apply StronglySorted_merge_sort; apply _.
  - unfold keys_valid. by rewrite Hp.
  - split_and!; [done| |].
    + unfold keys_valid in *. rewrite Forall_forall in Hv |- *. intros x Hx%Hsub. apply Hv.
      by rewrite <- Hp.
    + intros x Hx. apply Hcov. by rewrite Hp.
Qed.

Section stores.
Context {NUM : JsonNumbers} {TEXT : JsonText}.
Implicit Types (s : ObjectStore) (rs : list IdbRecord) (i : IndexDefinition).

(** The keys an index has for a record are valid and pairwise different. *)
Lemma keys_for_value_spec i (value : string) :
  keys_valid (keys_for_value i value) /\ distinct (keys_for_value i value).
Proof.
  unfold keys_for_value. destruct (value_from_str value) as [v|]; [|split; constructor].
  set (single := match _ with Some key => if valid_key key then [key] else [] | None => [] end).
  assert (Hs : keys_valid single /\ distinct single).
  { unfold single. case_match; [|split; constructor]. destruct (valid_key k) eqn:Hk; [|split; constructor].
    apply valid_key_ok in Hk. split; [by repeat constructor|]. apply NoDup_singleton. }
  destruct (multi_entry i), (index_key_path i) as [path|]; [|done..].
  destruct (project_path v path) as [projected|]; [|split; constructor].
  case_bool_decide; [|done]. destruct (value_get "v" projected ≫= as_array) as [members|];
    [|split; constructor].
  match goal with |- keys_valid (collect_key_set ?l) /\ _ => destruct (collect_key_set_spec l) as (Hl & Hv & _) end.
  - apply Forall_forall. intros k [Hk _]%list_elem_of_filter. by apply valid_key_ok.
  - split; [done|by apply strictly_sorted_distinct].
Qed.

(** All the keys of an index, over the records. *)
Definition index_keys i rs : list Key := rs ≫= fun r => keys_for_value i (record_value r).

Lemma validate_unique_distinct i rs :
  validate_unique i rs = Ok tt <-> distinct (index_keys i rs).
Proof.
  unfold validate_unique. fold (index_keys i rs).
  pose proof (insert_all_distinct [] (index_keys i rs) sorted_nil) as Hi.
  destruct (insert_all [] (index_keys i rs)) as [m|].
  - split; [intros _; by apply Hi|done].
  - split; [done|]. intros Hd. destruct Hi as [_ [? ?]]; [|done]. split; [done|].
    apply Forall_forall. done.
Qed.

Lemma index_keys_app i rs rs' : index_keys i (rs ++ rs') = index_keys i rs ++ index_keys i rs'.
Proof. apply bind_app. Qed.

Lemma index_keys_valid i rs : keys_valid (index_keys i rs).
Proof.
  apply Forall_forall. intros k (r & Hk & _)%list_elem_of_bind.
  destruct (keys_for_value_spec i (record_value r)) as [Hv _].
  by apply (proj1 (Forall_forall _ _) Hv).
Qed.

Lemma distinct_sublist i rs rs' :
  rs' `sublist_of` rs -> distinct (index_keys i rs) -> distinct (index_keys i rs').
Proof.
  unfold distinct, index_keys. intros Hsub Hd. eapply sublist_NoDup; [exact Hd|]. by do 2 f_equiv.
Qed.

(** The conflict check is exact: with valid keys, it lets a value through
    exactly when its index keys differ from those of every other record. *)
Lemma index_conflict_spec i (primary : Key) (value : string) rs :
  Key_validate 0 primary = Ok tt -> Forall (fun r => Key_validate 0 (record_key r) = Ok tt) rs ->
  index_conflict i primary value rs = false <->
  (forall r k k', r ∈ rs -> cmp (record_key r) primary <> Eq ->
    k ∈ keys_for_value i value -> k' ∈ keys_for_value i (record_value r) -> cmp k k' <> Eq).
Proof.
  intros Hp Hrs. unfold index_conflict. rewrite <- not_true_iff_false, existsb_exists.
  rewrite Forall_forall in Hrs.
  assert (Hvalid : forall v k, k ∈ keys_for_value i v -> Key_validate 0 k = Ok tt).
  { intros v. apply Forall_forall. apply keys_for_value_spec. }
  split.
  - intros Hno r k k' Hr Hne Hk Hk' Heq. apply Hno. exists r.
    split; [by apply list_elem_of_In|]. rewrite andb_true_iff, negb_true_iff. split.
    + apply not_true_iff_false. by rewrite valid_eqb by eauto.
    + apply existsb_exists. exists k. split; [by apply list_elem_of_In|].
      apply existsb_exists. exists k'. split; [by apply list_elem_of_In|].
      apply valid_eqb; eauto.
  - intros Hall (r & Hr%list_elem_of_In & Hc). rewrite andb_true_iff, negb_true_iff in Hc.
    destruct Hc as [Hne Hc]. apply existsb_exists in Hc as (k & Hk%list_elem_of_In & Hc).
    apply existsb_exists in Hc as (k' & Hk'%list_elem_of_In & Hc).
    apply valid_eqb in Hc; [|by eauto..]. apply (Hall r k k'); [done| |done..].
    intros Heq. apply valid_eqb in Heq; [congruence|eauto..].
Qed.

(** ** Validity: what [State::validate] checks of a store *)
Record store_valid s : Prop := {
  valid_definition : StoreDefinition_validate (definition s) = Ok tt;
  valid_next_key : (0 < next_key s <= u64_max)%N;
  valid_keys : Forall (fun r => Key_validate 0 (record_key r) = Ok tt) (records s);
  valid_order : sorted (entries (records s));
  valid_indexes : ObjectStore_validate_indexes s = Ok tt
}.

(** All of it but the indexes, which a version change may redefine before it
    validates them. *)
Record store_shape s : Prop := {
  shape_definition : StoreDefinition_validate (definition s) = Ok tt;
  shape_next_key : (0 < next_key s <= u64_max)%N;
  shape_keys : Forall (fun r => Key_validate 0 (record_key r) = Ok tt) (records s);
  shape_order : sorted (entries (records s))
}.

Lemma store_valid_shape s :
  store_valid s <-> store_shape s /\ ObjectStore_validate_indexes s = Ok tt.
Proof. split; [by intros []|by intros [[] ?]]. Qed.

Lemma validate_indexes_loop_records (names : list (string * ())) (defs : list IndexDefinition) rs rs' :
  validate_indexes_loop names defs rs = Ok tt ->
  (forall i, i ∈ defs -> unique i = true -> validate_unique i rs = Ok tt -> validate_unique i rs' = Ok tt) ->
  validate_indexes_loop names defs rs' = Ok tt.
Proof.
  revert names. induction defs as [|i defs IH]; intros names Hok Hsame; simpl in *; [done|].
  destruct (IndexDefinition_validate i); [|done]. simpl in *. destruct (bt_contains _ names); [done|].
  destruct (unique i) eqn:Hu; simpl in *.
  - destruct (validate_unique i rs) as [[]|] eqn:Hrs; [|done]. simpl in *.
    rewrite (Hsame i) by (done || constructor). simpl. apply IH; [done|]. intros j Hj. apply Hsame. by constructor.
  - apply IH; [done|]. intros j Hj. apply Hsame. by constructor.
Qed.

Lemma validate_indexes_loop_unique (names : list (string * ())) (defs : list IndexDefinition) rs i :
  validate_indexes_loop names defs rs = Ok tt -> i ∈ defs -> unique i = true ->
  distinct (index_keys i rs).
Proof.
  revert names. induction defs as [|j defs IH]; intros names Hok Hin Hu; [by apply not_elem_of_nil in Hin|].
  simpl in Hok. destruct (IndexDefinition_validate j); [|done]. simpl in *.
  destruct (bt_contains _ names); [done|]. apply elem_of_cons in Hin as [->|Hin].
  - rewrite Hu in Hok. apply validate_unique_distinct. by destruct (validate_unique j rs) as [[]|].
  - destruct (if unique j then _ else _); [|done]. simpl in Hok. by eapply IH.
Qed.

(** A store whose records are a part of a valid store's, in order. *)
Lemma store_valid_sublist s rs :
  store_valid s -> rs `sublist_of` records s -> sorted (entries rs) -> store_valid (set_records s rs).
Proof.
  intros [Hd Hn Hk Ho Hi] Hsub Hs. split; simpl; [done..| |done|].
  - rewrite Forall_forall in Hk |- *. intros r Hr. apply Hk. by eapply elem_of_sublist.
  - eapply validate_indexes_loop_records; [done|]. intros i _ _.
    rewrite !validate_unique_distinct. by apply distinct_sublist.
Qed.

(** A record put between the others, whose index keys it does not share. *)
Lemma distinct_put i (l m : list IdbRecord) (r : IdbRecord) :
  distinct (index_keys i (l ++ m)) ->
  (forall r' k k', r' ∈ l ++ m -> k ∈ keys_for_value i (record_value r) ->
    k' ∈ keys_for_value i (record_value r') -> cmp k k' <> Eq) ->
  distinct (index_keys i (l ++ r :: m)).
Proof.
  intros Hd Hdisj. unfold distinct.
  assert (index_keys i (l ++ r :: m) ≡ₚ keys_for_value i (record_value r) ++ index_keys i (l ++ m)) as Hp.
  { rewrite !index_keys_app. unfold index_keys at 2. rewrite bind_cons.
    fold (index_keys i m). rewrite !app_assoc. apply Permutation_app_tail, Permutation_app_comm. }
  rewrite Hp, fmap_app. apply NoDup_app. split_and!; [apply keys_for_value_spec| |done].
  intros x (k & -> & Hk)%list_elem_of_fmap (k' & Hkk & Hk')%list_elem_of_fmap.
  apply list_elem_of_bind in Hk' as (r' & Hk' & Hr').
  apply (Hdisj r' k k'); [done..|]. by apply cmp_code_eq.
Qed.

(** *** What an accepted put does *)
Record put_effect s (key : option Key) (value : string) (overwrite : bool) s' (r : DbResult)
    (k : Key) (stored : string) : Prop := {
  put_result : r = RKey k;
  put_key_valid : Key_validate 0 k = Ok tt;
  put_key : match key with
            | Some key => k = key /\ stored = value
            | None => auto_increment (definition s) = true /\
                      k = Number (f64_of_u64 (next_key s)) /\
                      stored_value s k true value = Ok stored
            end;
  put_definition : definition s' = definition s;
  put_next_key :
    next_key s' = next_key (bump_generator
      (match key with Some _ => s | None => set_next_key s (next_key s + 1) end) k);
  put_generator : key = None -> (next_key s < u64_max)%N;
  put_unique : check_unique_index_values s k stored = Ok tt;
  put_entries : entries (records s') = bt_insert k stored (entries (records s));
  put_fresh : overwrite = false -> bt_get k (entries (records s)) = None;
  put_records : exists l m k', records s' = l ++ mkRecord k' stored :: m /\
    (l ++ m) `sublist_of` records s /\ cmp k' k = Eq /\
    (k' = k \/ exists old, old ∈ records s /\ record_key old = k')
}.

Lemma bump_generator_fields s (k : Key) :
  definition (bump_generator s k) = definition s /\ records (bump_generator s k) = records s.
Proof. unfold bump_generator. destruct k; [|done..]. by case_match. Qed.

Lemma choose_key_spec s (key : option Key) s1 (k : Key) (generated : bool) :
  choose_key s key = (s1, Ok (k, generated)) ->
  definition s1 = definition s /\ records s1 = records s /\
  match key with
  | Some key => k = key /\ generated = false /\ s1 = s
  | None => auto_increment (definition s) = true /\ k = Number (f64_of_u64 (next_key s)) /\
            generated = true /\ s1 = set_next_key s (next_key s + 1) /\ (next_key s < u64_max)%N
  end.
Proof.
  unfold choose_key. destruct key as [key|]; [by intros [= <- <- <-]|].
  destruct (auto_increment (definition s)); [|done].
  destruct (checked_add (next_key s) 1) as [n|] eqn:Hn; [|done]. intros [= <- <- <-].
  apply checked_add_Some in Hn as [-> Hn]. split_and!; try done. lia.
Qed.

Lemma store_put_inv s (key : option Key) (value : string) (overwrite : bool) s' (r : DbResult) :
  sorted (entries (records s)) -> store_put s key value overwrite = (s', Ok r) ->
  exists k stored, put_effect s key value overwrite s' r k stored.
Proof.
  intros Hs. unfold store_put. destruct (_ <? _)%N; [done|].
  destruct (choose_key s key) as [s1 [[k generated]|e]] eqn:Hc; [|done].
  apply choose_key_spec in Hc as (Hd1 & Hr1 & Hkey).
  destruct (_ ≫= _) as [stored|e] eqn:Hchecks; [|done].
  apply bind_Ok in Hchecks as ([] & Hkv & Hchecks).
  apply bind_Ok in Hchecks as (stored' & Hst & Hchecks).
  apply bind_Ok in Hchecks as ([] & Hu & [= ->]).
  destruct (bump_generator_fields s1 k) as [Hd2 Hr2].
  unfold check_unique_index_values in Hu. rewrite Hd1, Hr1 in Hu.
  fold (check_unique_index_values s k stored) in Hu.
  rewrite Hr2, Hr1, <- Hr1. intros Hput.
  assert (Hgen : next_key (bump_generator s1 k) = next_key (bump_generator
      (match key with Some _ => s | None => set_next_key s (next_key s + 1) end) k) /\
    (key = None -> (next_key s < u64_max)%N) /\
    match key with
    | Some key => k = key /\ stored = value
    | None => auto_increment (definition s) = true /\ k = Number (f64_of_u64 (next_key s)) /\
              stored_value s k true value = Ok stored
    end).
  { destruct key as [key|]; [destruct Hkey as (-> & -> & ->)|destruct Hkey as (? & -> & -> & -> & ?)].
    - split_and!; [done..|]. unfold stored_value in Hst. by injection Hst.
    - split_and!; done. }
  destruct Hgen as (Hn & Hg & Hkey'). rewrite Hr1 in Hput.
  exists k, stored. destruct (locate (records s) k) as [index|index] eqn:Hl.
  - destruct overwrite; [|done]. injection Hput as <- <-.
    pose proof (locate_spec (records s) k Hs) as Hi. rewrite Hl in Hi. destruct Hi as (old & Hi & Hk).
    split; simpl; try done; [by rewrite Hd2, Hd1|by apply locate_replace|].
    exists (take index (records s)), (drop (S index) (records s)), (record_key old). split_and!.
    + rewrite <- (take_drop_middle (records s) index old Hi) at 1.
      assert (length (take index (records s)) = index) as Hlen.
      { apply length_take_le. apply lookup_lt_Some in Hi. lia. }
      rewrite <- Hlen at 1. rewrite <- (Nat.add_0_r (length _)). by rewrite alter_app_r.
    + rewrite <- delete_take_drop. apply sublist_delete.
    + done.
    + right. exists old. split; [by eapply list_elem_of_lookup_2|done].
  - injection Hput as <- <-. destruct (locate_insert (records s) k index stored Hs Hl) as [He Hg'].
    split; simpl; try done; [by rewrite Hd2, Hd1|].
    exists (take index (records s)), (drop index (records s)), k.
    split_and!; [done|by rewrite take_drop|apply cmp_refl|by left].
Qed.

(** *** The key generator *)
Lemma two_53_value : value two_53 = (2 ^ 53 * 2 ^ 1074)%Z.
Proof. by vm_compute. Qed.

Lemma bump_generator_next s (k : Key) :
  (0 < next_key s <= u64_max)%N -> Key_validate 0 k = Ok tt ->
  (next_key s <= next_key (bump_generator s k) <= u64_max)%N /\
  (forall x, k = Number x -> auto_increment (definition s) = true ->
     (value x < 2 ^ 53 * 2 ^ 1074)%Z ->
     (value x < Z.of_N (next_key (bump_generator s k)) * 2 ^ 1074)%Z).
Proof.
  intros Hn Hk. destruct k as [x| | | |]; simpl; try (split; [lia|done]).
  assert (is_finite x = true) as Hx by (apply (Key_validate_finite _ _ Hk)).
  destruct (auto_increment (definition s)); simpl; [|split; [lia|done]].
  assert (Hltb : f64_ltb x two_53 = true <-> (value x < 2 ^ 53 * 2 ^ 1074)%Z).
  { rewrite f64_ltb_value, two_53_value by done. done. }
  destruct (f64_ltb x two_53); [|rewrite andb_false_r; split; [lia|]].
  2:{ intros y [= <-] _ Hy. apply Hltb in Hy. done. }
  assert (Hlt : (value x < 2 ^ 53 * 2 ^ 1074)%Z) by (by apply Hltb).
  pose proof (f64_geb_u64 x (next_key s) Hx ltac:(lia) Hlt) as Hge.
  destruct (f64_geb x (f64_of_u64 (next_key s))); simpl.
  - destruct (floor_u64_spec x (next_key s) Hx) as [Hf1 Hf2]; [split; [by apply Hge|done]|].
    unfold u64_max in *. split; [lia|]. intros y [= <-] _ _. lia.
  - split; [lia|]. intros y [= <-] _ _. destruct Hge as [_ Hge].
    destruct (decide (Z.of_N (next_key s) * 2 ^ 1074 <= value x)%Z) as [Hd|Hd]; [by apply Hge in Hd|lia].
Qed.

Lemma put_next_key_bounds s (key : option Key) (value : string) (overwrite : bool) s' r k stored :
  (0 < next_key s <= u64_max)%N -> put_effect s key value overwrite s' r k stored ->
  (next_key s <= next_key s' <= u64_max)%N.
Proof.
  intros Hn Hp. rewrite (put_next_key _ _ _ _ _ _ _ _ Hp).
  pose proof (put_generator _ _ _ _ _ _ _ _ Hp) as Hg.
  pose proof (put_key_valid _ _ _ _ _ _ _ _ Hp) as Hv. destruct key.
  - by apply bump_generator_next.
  - specialize (Hg eq_refl).
    destruct (bump_generator_next (set_next_key s (next_key s + 1)) k) as [Hb _]; simpl in *; [lia|done|lia].
Qed.

(** *** Validity is preserved *)
Lemma store_put_shape s (key : option Key) (value : string) (overwrite : bool) s' (r : DbResult) :
  store_shape s -> store_put s key value overwrite = (s', Ok r) -> store_shape s'.
Proof.
  intros [Hd Hn Hk Ho] Hput.
  destruct (store_put_inv s key value overwrite s' r Ho Hput) as (k & stored & Hp).
  pose proof (put_next_key_bounds _ _ _ _ _ _ _ _ Hn Hp) as Hnk.
  destruct Hp as [_ Hkv _ Hdef _ _ _ He _ (l & m & k' & Hrs & Hsub & Hkk & Hk')].
  assert (Hk'v : Key_validate 0 k' = Ok tt).
  { destruct Hk' as [->|(old & Hold & <-)]; [done|]. rewrite Forall_forall in Hk. by apply Hk. }
  split; [by rewrite Hdef|lia| |rewrite He; by apply bt_insert_sorted].
  rewrite Hrs. rewrite Forall_forall in Hk |- *. intros x.
  rewrite elem_of_app, elem_of_cons. intros [Hx|[->|Hx]]; [|done|];
    (apply Hk; eapply elem_of_sublist; [|exact Hsub]; rewrite elem_of_app; auto).
Qed.

Lemma store_put_valid s (key : option Key) (value : string) (overwrite : bool) s' (r : DbResult) :
  store_valid s -> store_put s key value overwrite = (s', Ok r) -> store_valid s'.
Proof.
  intros Hs Hput. apply store_valid_shape. apply store_valid_shape in Hs as [Hs Hi].
  split; [by eapply store_put_shape|]. destruct Hs as [Hd Hn Hk Ho].
  destruct (store_put_inv s key value overwrite s' r Ho Hput) as (k & stored & Hp).
  destruct Hp as [_ Hkv _ Hdef _ _ Hu He _ (l & m & k' & Hrs & Hsub & Hkk & Hk')].
  unfold ObjectStore_validate_indexes. rewrite Hdef.
  eapply validate_indexes_loop_records; [exact Hi|]. intros i Hin Huniq.
  rewrite !validate_unique_distinct, Hrs. intros Hdist. apply distinct_put.
  { by eapply distinct_sublist. }
  intros r' x x' Hr' Hx Hx'. simpl in Hx.
  unfold check_unique_index_values in Hu. destruct (existsb _ _) eqn:Hex; [done|].
  assert (index_conflict i k stored (records s) = false) as Hc.
  { destruct (index_conflict i k stored (records s)) eqn:Hc; [|done]. rewrite <- Hex.
    symmetry. apply existsb_exists. exists i. split; [by apply list_elem_of_In|]. by rewrite Huniq, Hc. }
  rewrite index_conflict_spec in Hc by done.
  apply (Hc r'); [by eapply elem_of_sublist| |done|done].
  rewrite <- (cmp_eq_compat_r k' k _ Hkk). intros Heq.
  (* the records of a sorted list have different keys *)
  assert (sorted (entries (records s'))) as Hs' by (rewrite He; by apply bt_insert_sorted).
  rewrite Hrs in Hs'. unfold entries in Hs'. rewrite fmap_app, fmap_cons in Hs'.
  apply sorted_app_inv in Hs' as (_ & Hs' & Hlm). apply elem_of_app in Hr' as [Hr'|Hr'].
  - rewrite Forall_fmap, Forall_forall in Hlm. apply Hlm, Forall_inv in Hr'. simpl in Hr'. congruence.
  - apply StronglySorted_inv in Hs' as [_ Hs']. rewrite Forall_fmap, Forall_forall in Hs'.
    apply Hs' in Hr'. unfold key_lt in Hr'. simpl in Hr'. apply cmp_eq_sym in Heq. congruence.
Qed.

(** ** Every operation *)
Lemma entries_filter (f : Key -> bool) (b : bool) rs :
  entries (filter (fun r => f (record_key r) = b) rs) = filter (fun x => f x.1 = b) (entries rs).
Proof.
  induction rs as [|r rs IH]; [done|]. unfold entries in *. rewrite fmap_cons, !filter_cons.
  simpl. case_decide; [|done]. by rewrite fmap_cons, IH.
Qed.

Lemma bt_get_filter (f : Key -> bool) (k : Key) (m : list (Key * string)) :
  (forall x y, cmp x y = Eq -> f x = f y) -> sorted m ->
  bt_get k (filter (fun x => f x.1 = true) m) = if f k then bt_get k m else None.
Proof.
  intros Hf. induction m as [|[k' v] m IH]; intros Hs; [by destruct (f k)|].
  apply sorted_cons_inv in Hs as [Hm Hlt]. specialize (IH Hm). rewrite filter_cons. simpl.
  destruct (decide (f k' = true)) as [Hk'|Hk']; simpl; rewrite ?IH.
  - destruct (cmp k k') eqn:Hk; [by rewrite (Hf k k' Hk), Hk'|by destruct (f k)|done].
  - destruct (cmp k k') eqn:Hk.
    + rewrite (Hf k k' Hk). destruct (f k'); done.
    + destruct (f k); [|done]. apply bt_get_none_lt. eapply Forall_impl; [done|].
      intros x Hx. by eapply cmp_lt_trans.
    + done.
Qed.

Lemma in_range_proper (range : option KeyRange) (x y : Key) :
  cmp x y = Eq -> in_range range x = in_range range y.
Proof. intros Hxy. destruct range as [r|]; [|done]. by apply KeyRange_contains_proper. Qed.

Lemma apply_delete s (store : string) (key : Key) s' (r : DbResult) :
  sorted (entries (records s)) -> ObjectStore_apply s (Delete store key) = (s', Ok r) ->
  r = RUnit /\ exists rs, s' = set_records s rs /\ rs `sublist_of` records s /\
  entries rs = bt_remove key (entries (records s)).
Proof.
  intros Hs. simpl. destruct (Key_validate 0 key); [|done]. intros [= <- <-]. split; [done|].
  pose proof (locate_delete (records s) key Hs) as Hl. destruct (locate (records s) key) as [i|i].
  - exists (delete i (records s)). split_and!; [done|apply sublist_delete|done].
  - exists (records s). split_and!; [by destruct s|done|done].
Qed.

Lemma apply_delete_range s (store : string) (range : KeyRange) s' (r : DbResult) :
  ObjectStore_apply s (DeleteRange store range) = (s', Ok r) ->
  r = RUnit /\ exists rs, s' = set_records s rs /\ rs `sublist_of` records s /\
  entries rs = filter (fun x => KeyRange_contains range x.1 = false) (entries (records s)).
Proof.
  simpl. destruct (KeyRange_validate range); [|done]. intros [= <- <-]. split; [done|].
  eexists. split_and!; [done|apply sublist_filter|apply entries_filter].
Qed.

(** Operations that only read. *)
Definition is_read (op : DbOperation) : bool := negb (operation_target op).2.

Lemma apply_read s (op : DbOperation) :
  is_read op = true -> ObjectStore_apply s op = (s, store_read s op).
Proof. by destruct op. Qed.

Lemma store_apply_keeps_valid s (op : DbOperation) s' (r : DbResult) :
  store_valid s -> ObjectStore_apply s op = (s', Ok r) -> store_valid s'.
Proof.
  intros Hs Ha. pose proof (valid_order _ Hs) as Ho. destruct (is_read op) eqn:Hread.
  { rewrite apply_read in Ha by done. congruence. }
  destruct op; try done.
  - by eapply store_put_valid.
  - apply apply_delete in Ha as (_ & rs & -> & Hsub & He); [|done].
    apply store_valid_sublist; [done..|]. rewrite He. by apply bt_remove_sorted.
  - apply apply_delete_range in Ha as (_ & rs & -> & Hsub & He).
    apply store_valid_sublist; [done..|]. rewrite He. by apply sorted_filter.
  - injection Ha as <- <-. apply store_valid_sublist; [done|apply sublist_nil_l|constructor].
Qed.

Lemma store_shape_sublist s rs :
  store_shape s -> rs `sublist_of` records s -> sorted (entries rs) -> store_shape (set_records s rs).
Proof.
  intros [Hd Hn Hk Ho] Hsub Hs. split; simpl; [done..| |done].
  rewrite Forall_forall in Hk |- *. intros r Hr. apply Hk. by eapply elem_of_sublist.
Qed.

Lemma store_apply_keeps_shape s (op : DbOperation) s' (r : DbResult) :
  store_shape s -> ObjectStore_apply s op = (s', Ok r) ->
  store_shape s' /\ definition s' = definition s.
Proof.
  intros Hs Ha. pose proof (shape_order _ Hs) as Ho. destruct (is_read op) eqn:Hread.
  { rewrite apply_read in Ha by done. injection Ha as <- _. done. }
  destruct op; try done.
  - split; [by eapply store_put_shape|].
    destruct (store_put_inv _ _ _ _ _ _ Ho Ha) as (k & stored & Hp). apply Hp.
  - apply apply_delete in Ha as (_ & rs & -> & Hsub & He); [|done]. split; [|done].
    apply store_shape_sublist; [done..|]. rewrite He. by apply bt_remove_sorted.
  - apply apply_delete_range in Ha as (_ & rs & -> & Hsub & He). split; [|done].
    apply store_shape_sublist; [done..|]. rewrite He. by apply sorted_filter.
  - injection Ha as <- <-. split; [|done].
    apply store_shape_sublist; [done|apply sublist_nil_l|constructor].
Qed.

(** Everything the loader checks of a store is preserved: a store with a
    valid definition, valid keys in strictly increasing order, a key generator
    in range and duplicate-free unique indexes is left with all of these by
    every accepted operation. *)
Theorem store_apply_valid s (op : DbOperation) s' (r : DbResult) :
  store_valid s -> ObjectStore_apply s op = (s', Ok r) -> store_valid s'.
Proof. apply store_apply_keeps_valid. Qed.

(** C25. An object store is an ordered map: an accepted put binds the key (the
    given one with the given value, or a generated one), an add finds it free,
    deletions unbind exactly the keys they name, reads answer from the map in
    key order and change nothing. *)
Theorem object_store_refines_map s (op : DbOperation) s' (r : DbResult) :
  store_valid s -> ObjectStore_apply s op = (s', Ok r) ->
  let get s k := bt_get k (entries (records s)) in
  let selected range := filter (fun x => in_range range x.1 = true) (entries (records s)) in
  match op with
  | Put _ key value overwrite => exists k stored,
      r = RKey k /\ from_option (fun key => k = key /\ stored = value)
                      (auto_increment (definition s) = true) key /\
      (overwrite = false -> get s k = None) /\
      forall k', get s' k' = if is_eq (cmp k' k) then Some stored else get s k'
  | Delete _ key => r = RUnit /\
      forall k', get s' k' = if is_eq (cmp k' key) then None else get s k'
  | DeleteRange _ range => r = RUnit /\
      forall k', get s' k' = if KeyRange_contains range k' then None else get s k'
  | Clear _ => r = RUnit /\ forall k', get s' k' = None
  | Get _ key => s' = s /\ r = RValue (get s key)
  | GetAll _ range limit keys_only => s' = s /\
      r = (if keys_only then RKeys ((take_limit limit (selected range)).*1)
           else RValues ((take_limit limit (selected range)).*2))
  | Count _ range => s' = s /\ r = RCount (N.of_nat (length (selected range)))
  | _ => s' = s
  end.
Proof.
  intros Hs Ha get selected. pose proof (valid_order _ Hs) as Ho.
  assert (Hsel : forall range, selected range
    = entries (filter (fun r => in_range range (record_key r) = true) (records s)))
    by (intros range; unfold selected; by rewrite entries_filter).
  destruct (is_read op) eqn:Hread.
  - rewrite apply_read in Ha by done. injection Ha as <- Ha. destruct op; try done; simpl in Ha.
    + apply bind_Ok in Ha as ([] & _ & [= <-]). split; [done|]. unfold get. by rewrite <- locate_get.
    + apply bind_Ok in Ha as ([] & _ & Ha). split; [done|]. rewrite Hsel.
      destruct keys_only; injection Ha as <-; f_equal; unfold entries;
        destruct limit; simpl; rewrite <- ?fmap_take, <- list_fmap_compose; done.
    + apply bind_Ok in Ha as ([] & _ & [= <-]). split; [done|]. rewrite Hsel.
      unfold entries. by rewrite length_fmap.
  - destruct op; try done.
    + destruct (store_put_inv s key value overwrite s' r Ho Ha) as (k & stored & Hp).
      exists k, stored. destruct Hp as [-> _ Hkey _ _ _ _ He Hf _]. split_and!; [done| |done|].
      { destruct key; simpl; [done|tauto]. }
      intros k'. unfold get. rewrite He, bt_get_insert by done. by destruct (cmp k' k).
    + apply apply_delete in Ha as (-> & rs & -> & _ & He); [|done]. split; [done|]. intros k'.
      unfold get. simpl. rewrite He, bt_get_remove by done. by destruct (cmp k' key).
    + apply apply_delete_range in Ha as (-> & rs & -> & _ & He). split; [done|]. intros k'.
      unfold get. simpl. rewrite He.
      rewrite (list_filter_iff _ (fun x => negb (KeyRange_contains range x.1) = true))
        by (intros x; by rewrite negb_true_iff).
      rewrite (bt_get_filter (fun k => negb (KeyRange_contains range k))); [|intros x y Hxy|done].
      * by destruct (KeyRange_contains range k').
      * f_equal. by apply KeyRange_contains_proper.
    + by injection Ha as <- <-.
Qed.

(** A refused operation may consume a generated key, and leaves the records. *)
Lemma store_apply_refused s (op : DbOperation) s' (e : DbError) :
  ObjectStore_apply s op = (s', Err e) -> definition s' = definition s /\ records s' = records s.
Proof.
  destruct op; simpl; try (intros [= <- _]; done); try (case_match; by intros [= <- _]); try done.
  unfold store_put. destruct (_ <? _)%N; [by intros [= <- _]|].
  destruct (choose_key s key) as [s1 [[k generated]|e']] eqn:Hc.
  - apply choose_key_spec in Hc as (Hd & Hr & _). destruct (_ ≫= _) as [stored|].
    + destruct (bump_generator_fields s1 k) as [Hd2 Hr2].
      destruct (locate _ _); [destruct overwrite|]; intros [= <- _]. by rewrite Hd2, Hr2.
    + by intros [= <- _].
  - intros [= <- _]. unfold choose_key in Hc. destruct key; [done|].
    destruct (auto_increment _); [|by injection Hc as <- _].
    destruct (checked_add _ _); [done|]. by injection Hc as <- _.
Qed.

(** ** Generated keys *)

(** The generator is ahead of every number key below 2^53 it has seen. *)
Definition generator_ahead s : Prop :=
  auto_increment (definition s) = true ->
  Forall (fun r => forall x, record_key r = Number x -> (value x < 2 ^ 53 * 2 ^ 1074)%Z ->
            (value x < Z.of_N (next_key s) * 2 ^ 1074)%Z) (records s).

Lemma bt_get_Some_elem (k : Key) (v : string) (m : list (Key * string)) :
  bt_get k m = Some v -> exists k', (k', v) ∈ m /\ cmp k k' = Eq.
Proof.
  induction m as [|[k' v'] m IH]; simpl; [done|]. destruct (cmp k k') eqn:Hk; [|done|].
  - intros [= ->]. exists k'. split; [constructor|done].
  - intros (k2 & Hin & Hk2)%IH. exists k2. split; [by constructor|done].
Qed.

Lemma cmp_number_inv (x : f64) (k : Key) :
  cmp (Number x) k = Eq -> exists y, k = Number y /\ value x = value y.
Proof.
  rewrite cmp_code_eq. destruct k as [y| | | |]; simpl; try done.
  intros [= Hr]. exists y. split; [done|]. by apply value_rank_eq.
Qed.

Lemma generator_ahead_sublist s rs :
  generator_ahead s -> rs `sublist_of` records s -> generator_ahead (set_records s rs).
Proof.
  intros Hg Hsub Ha. specialize (Hg Ha). simpl in *. rewrite Forall_forall in Hg |- *.
  intros r Hr. apply Hg. by eapply elem_of_sublist.
Qed.

Lemma put_generator_ahead s (key : option Key) (v : string) (overwrite : bool) s' (r : DbResult) :
  store_valid s -> generator_ahead s -> store_put s key v overwrite = (s', Ok r) -> generator_ahead s'.
Proof.
  intros Hs Hg Hput. pose proof (valid_next_key _ Hs) as Hn.
  destruct (store_put_inv s key v overwrite s' r (valid_order _ Hs) Hput) as (k & stored & Hp).
  pose proof (put_next_key_bounds _ _ _ _ _ _ _ _ Hn Hp) as Hnk.
  destruct Hp as [_ Hkv _ Hdef Hnext Hgen _ _ _ (l & m & k' & Hrs & Hsub & Hkk & _)].
  intros Ha. rewrite Hdef in Ha. specialize (Hg Ha). rewrite Hrs. apply Forall_forall.
  intros x Hx.
  assert (Hold : forall x, x ∈ l ++ m -> forall y, record_key x = Number y ->
    (value y < 2 ^ 53 * 2 ^ 1074)%Z -> (value y < Z.of_N (next_key s') * 2 ^ 1074)%Z).
  { intros z Hz y Hy Hlt. eapply elem_of_sublist in Hz; [|done]. rewrite Forall_forall in Hg.
    specialize (Hg z Hz y Hy Hlt). assert (0 < 2 ^ 1074)%Z by (apply Z.pow_pos_nonneg; lia). nia. }
  assert (x ∈ l ++ m \/ x = mkRecord k' stored) as [?| ->]
    by (rewrite elem_of_app, elem_of_cons in *; tauto); [by apply Hold|]. simpl. intros y -> Hlt.
  apply cmp_number_inv in Hkk as (z & -> & Hyz). rewrite Hyz in *. rewrite Hnext.
  destruct key.
  - by eapply (bump_generator_next s).
  - specialize (Hgen eq_refl).
    eapply (bump_generator_next (set_next_key s (next_key s + 1))); [simpl; lia|done..].
Qed.

(** Generated keys are fresh: while the generator is below 2^53 the key it
    gives is bound to no record, and this is kept up by every accepted
    operation, whatever number keys the page uses explicitly. *)
Theorem generated_keys_fresh s (op : DbOperation) s' (r : DbResult) :
  store_valid s -> generator_ahead s -> ObjectStore_apply s op = (s', Ok r) ->
  generator_ahead s' /\
  (forall store v overwrite, op = Put store None v overwrite -> (next_key s < 2 ^ 53)%N ->
    exists x, r = RKey (Number x) /\ value x = (Z.of_N (next_key s) * 2 ^ 1074)%Z /\
              bt_get (Number x) (entries (records s)) = None).
Proof.
  intros Hs Hg Ha. split.
  - destruct (is_read op) eqn:Hread; [rewrite apply_read in Ha by done; by injection Ha as <- _|].
    pose proof (valid_order _ Hs) as Ho. destruct op; try done.
    + by eapply put_generator_ahead.
    + apply apply_delete in Ha as (_ & rs & -> & Hsub & _); [|done]. by apply generator_ahead_sublist.
    + apply apply_delete_range in Ha as (_ & rs & -> & Hsub & _). by apply generator_ahead_sublist.
    + injection Ha as <- <-. apply generator_ahead_sublist; [done|]. apply sublist_nil_l.
  - intros store v overwrite -> Hlt.
    destruct (store_put_inv s None v overwrite s' r (valid_order _ Hs) Ha) as (k & stored & Hp).
    destruct Hp as [-> _ (Hauto & -> & _) _ _ _ _ _ _ _].
    exists (f64_of_u64 (next_key s)). rewrite value_of_u64 by lia. split_and!; [done..|].
    destruct (bt_get _ _) as [old|] eqn:Hget; [|done]. exfalso.
    apply bt_get_Some_elem in Hget as (k' & Hin & Hk').
    apply cmp_number_inv in Hk' as (y & -> & Hy). rewrite value_of_u64 in Hy by lia.
    specialize (Hg Hauto). rewrite Forall_forall in Hg.
    apply list_elem_of_fmap in Hin as (rec & Hrec & Hin). injection Hrec as Hrec _.
    specialize (Hg rec Hin y (eq_sym Hrec)). rewrite <- Hy in Hg.
    assert (0 < 2 ^ 1074)%Z by (apply Z.pow_pos_nonneg; lia). nia.
Qed.
End stores.

(** ** Concrete instances *)

(** A library in which a text is the clone of the string it spells. *)
#[global] Instance demo_text : JsonText := {|
  value_from_str s := Some (VString s);
  value_to_string := as_str
|}.

Definition demo_store : ObjectStore :=
  mkStore (mkDefinition "s" None true [mkIndex "by_value" (Single EmptyString) true false]) 3
    [mkRecord (KeyString "a") "y"; mkRecord (KeyString "b") "x"].

Lemma demo_store_valid : store_valid demo_store.
Proof.
  split; [reflexivity|vm_compute; by split|repeat constructor| |vm_compute; reflexivity].
  repeat constructor.
Defined.

Definition demo_put : ObjectStore :=
  mkStore (definition demo_store) 4 (mkRecord (Number (f64_of_u64 3)) "z" :: records demo_store).

Lemma store_apply_valid_witness :
  ObjectStore_apply demo_store (Put "s" None "z" true)
    = (demo_put, Ok (RKey (Number (f64_of_u64 3)))) /\ store_valid demo_put.
Proof.
  assert (H : ObjectStore_apply demo_store (Put "s" None "z" true)
              = (demo_put, Ok (RKey (Number (f64_of_u64 3))))) by (vm_compute; reflexivity).
  split; [exact H|]. apply (store_apply_valid _ _ _ _ demo_store_valid H).
Defined.

Lemma object_store_refines_map_witness :
  ObjectStore_apply demo_store (Delete "s" (KeyString "a"))
    = (set_records demo_store [mkRecord (KeyString "b") "x"], Ok RUnit) /\
  bt_get (KeyString "a") (entries [mkRecord (KeyString "b") "x"]) = None.
Proof.
  assert (H : ObjectStore_apply demo_store (Delete "s" (KeyString "a"))
    = (set_records demo_store [mkRecord (KeyString "b") "x"], Ok RUnit)) by (vm_compute; reflexivity).
  split; [exact H|].
  destruct (object_store_refines_map _ _ _ _ demo_store_valid H) as [_ Hg].
  apply (Hg (KeyString "a")).
Defined.

Lemma generated_keys_fresh_witness :
  exists x, RKey (Number (f64_of_u64 3)) = RKey (Number x) /\
            bt_get (Number x) (entries (records demo_store)) = None.
Proof.
  assert (H : ObjectStore_apply demo_store (Put "s" None "z" true)
              = (demo_put, Ok (RKey (Number (f64_of_u64 3))))) by (vm_compute; reflexivity).
  assert (Ha : generator_ahead demo_store) by (intros _; repeat constructor; done).
  destruct (generated_keys_fresh _ _ _ _ demo_store_valid Ha H) as [_ Hf].
  destruct (Hf "s" "z" true eq_refl) as (x & Hx & _ & Hn); [vm_compute; reflexivity|].
  exists x. split; [exact Hx|exact Hn].
Defined.

(** Past 2^53 doubles no longer separate the generator's values: after the
    explicit key 2^53 - 1, two generated puts bind the same key, the second
    silently replacing the record of the first. *)
Definition run_puts (s : ObjectStore) (ops : list DbOperation) : ObjectStore :=
  foldl (fun s op => (ObjectStore_apply s op).1) s ops.

Lemma generator_past_2_53_overwrites :
  let s := run_puts (mkStore (mkDefinition "s" None true []) 1 [])
             [Put "s" (Some (Number (f64_of_u64 (2 ^ 53 - 1)))) "a" true;
              Put "s" None "b" true; Put "s" None "c" true] in
  records s = [mkRecord (Number (f64_of_u64 (2 ^ 53 - 1))) "a"; mkRecord (Number two_53) "c"].
Proof. vm_compute. reflexivity. Qed.
