(* ===== verification/Cursors.v ===== *)
(** * Cursors: index views and cursor iteration

    A page walks a store or an index by repeating a [Scan] or [IndexScan] with
    the position of the record it got last. This file shows that index views
    are sorted and complete and that the walk visits every selected record once,
    in order, and ends. *)

From stdpp Require Import sorting.
From Stdlib Require Import Sorted.
From S2P Require Import Prelude Text OrderedMap Float64 Keys StructuredClone ObjectStores.
From S2P Require Import RecordOrder StoreTheory.

(** ** Walking a strictly sorted list *)
Section walk.
Context {A : Type} (lt : A -> A -> bool).
Hypothesis lt_irrefl : forall x, lt x x = false.
Hypothesis lt_trans : forall x y z, lt x y = true -> lt y z = true -> lt x z = true.

Definition ascending (l : list A) : Prop := StronglySorted (fun x y => lt x y = true) l.

Lemma lt_asym (x y : A) : lt x y = true -> lt y x = false.
Proof.
  intros Hxy. destruct (lt y x) eqn:Hyx; [|done]. by rewrite <- (lt_irrefl x), (lt_trans x y x).
Qed.

Lemma filter_none (P : A -> Prop) `{!forall x, Decision (P x)} (l : list A) :
  Forall (fun x => ~ P x) l -> filter P l = [].
Proof. induction 1; [done|]. by rewrite filter_cons_False. Qed.

Lemma filter_all (P : A -> Prop) `{!forall x, Decision (P x)} (l : list A) :
  Forall P l -> filter P l = l.
Proof. induction 1 as [|x l Hx _ IH]; [done|]. by rewrite filter_cons_True, IH. Qed.

(** The elements after [x]. *)
Lemma ascending_after (l k : list A) (x : A) :
  ascending (l ++ x :: k) -> filter (fun y => lt x y = true) (l ++ x :: k) = k.
Proof.
  intros Hs. rewrite filter_app, filter_none, filter_cons_False by
    first [by rewrite lt_irrefl
          |apply Forall_forall; intros y Hy; induction l as [|z l IH]; [by apply not_elem_of_nil in Hy|];
           apply StronglySorted_inv in Hs as [Hs Hz]; apply elem_of_cons in Hy as [->|Hy]; [|by apply IH];
           rewrite Forall_app, Forall_cons in Hz; destruct Hz as (_ & Hz & _);
           by rewrite (lt_asym z x)].
  apply filter_all. induction l as [|z l IH]; [by apply StronglySorted_inv in Hs as [_ Hs]|].
  apply IH. by apply StronglySorted_inv in Hs as [Hs _].
Qed.

Lemma ascending_sublist (l k : list A) : k `sublist_of` l -> ascending l -> ascending k.
Proof.
  induction 1 as [|x l k Hsub IH|x l k Hsub IH]; intros Hs; [done|..];
    apply StronglySorted_inv in Hs as [Hs Hx]; [|by apply IH].
  constructor; [by apply IH|]. rewrite Forall_forall in Hx |- *. intros y Hy. apply Hx.
  by eapply elem_of_sublist.
Qed.

(** [next None] gives the first element, [next (Some x)] the one after [x]. *)
Fixpoint walk (fuel : nat) (next : option A -> option A) (after : option A) : list A :=
  match fuel with
  | O => []
  | S fuel => match next after with Some x => x :: walk fuel next (Some x) | None => [] end
  end.

Lemma walk_visits_all (L : list A) (next : option A -> option A) (fuel : nat) :
  ascending L -> length L <= fuel ->
  next None = head L ->
  (forall x, x ∈ L -> next (Some x) = head (filter (fun y => lt x y = true) L)) ->
  walk fuel next None = L.
Proof.
  intros Hs Hf H0 Hnext.
  assert (Hg : forall k l after fuel, L = l ++ k -> length k <= fuel -> next after = head k ->
    walk fuel next after = k).
  { clear Hf H0 fuel. induction k as [|x k IH]; intros l after fuel HL Hf Ha.
    - destruct fuel; simpl; [done|]. by rewrite Ha.
    - destruct fuel as [|fuel]; simpl in *; [lia|]. rewrite Ha. f_equal.
      apply (IH (l ++ [x])); [by rewrite <- app_assoc|lia|].
      rewrite Hnext by (rewrite HL; apply elem_of_app; right; constructor).
      rewrite HL, ascending_after; [done|]. by rewrite <- HL. }
  by apply (Hg L []).
Qed.
End walk.

Lemma StronglySorted_mono {A} (R S : A -> A -> Prop) (l : list A) :
  (forall x y, R x y -> S x y) -> StronglySorted R l -> StronglySorted S l.
Proof. intros HRS Hl. rewrite <- (list_fmap_id l). by apply (StronglySorted_fmap id R S). Qed.

Lemma StronglySorted_fmap_inv {A B} (f : A -> B) (R : B -> B -> Prop) (l : list A) :
  StronglySorted R (f <$> l) -> StronglySorted (fun x y => R (f x) (f y)) l.
Proof.
  induction l as [|x l IH]; [constructor|]. rewrite fmap_cons.
  intros [Hl Hx]%StronglySorted_inv. constructor; [by apply IH|]. by rewrite Forall_fmap in Hx.
Qed.

Lemma StronglySorted_snoc {A} (R : A -> A -> Prop) (l : list A) (x : A) :
  StronglySorted R l -> Forall (fun y => R y x) l -> StronglySorted R (l ++ [x]).
Proof.
  induction 1 as [|y l Hl IH Hy]; intros Hx; simpl; [repeat constructor|].
  apply Forall_cons in Hx as [Hyx Hx]. constructor; [by apply IH|].
  apply Forall_app. split; [done|by constructor].
Qed.

Lemma StronglySorted_rev {A} (R : A -> A -> Prop) (l : list A) :
  StronglySorted R l -> StronglySorted (flip R) (rev l).
Proof.
  induction 1 as [|x l Hl IH Hx]; simpl; [constructor|]. apply StronglySorted_snoc; [done|].
  rewrite Forall_forall in Hx |- *. intros y Hy. apply Hx. rewrite list_elem_of_In in *. by apply in_rev.
Qed.

Lemma past_filter {A} (P Q : A -> bool) (l : list A) :
  filter (fun x => P x && Q x = true) l = filter (fun x => Q x = true) (filter (fun x => P x = true) l).
Proof.
  rewrite list_filter_filter. apply list_filter_iff. intros x. rewrite andb_true_iff. tauto.
Qed.

Lemma filter_fmap_eq {A B} (f : A -> B) (P : B -> bool) (l : list A) :
  filter (fun x => P x = true) (f <$> l) = f <$> filter (fun x => P (f x) = true) l.
Proof.
  induction l as [|x l IH]; [done|]. rewrite fmap_cons, !filter_cons.
  case_decide; [|done]. by rewrite fmap_cons, IH.
Qed.

Lemma filter_rev {A} (P : A -> bool) (l : list A) :
  filter (fun x => P x = true) (rev l) = rev (filter (fun x => P x = true) l).
Proof.
  induction l as [|x l IH]; [done|]. simpl rev. rewrite filter_app, IH, !filter_cons.
  case_decide; simpl; [done|]. by rewrite app_nil_r.
Qed.

(** The order a cursor moves in. *)
Section direction.
Context {K : Type} `{TotalCmpLaws K} (reverse : bool).
Definition moves (x y : K) : bool := past reverse false (cmp y x).

Lemma moves_irrefl (x : K) : moves x x = false.
Proof. unfold moves, past. rewrite cmp_refl. by destruct reverse. Qed.

Lemma moves_trans (x y z : K) : moves x y = true -> moves y z = true -> moves x z = true.
Proof.
  unfold moves, past. rewrite !orb_false_r. destruct reverse.
  - intros Hxy Hyz. destruct (cmp y x) eqn:Exy, (cmp z y) eqn:Eyz; try done.
    by rewrite (cmp_lt_trans z y x).
  - intros Hxy Hyz. destruct (cmp y x) eqn:Exy, (cmp z y) eqn:Eyz; try done.
    by rewrite (cmp_gt_trans z y x).
Qed.

Definition directed {A} (l : list A) : list A := if reverse then rev l else l.

Lemma ascending_directed {A} (f : A -> K) (l : list A) :
  StronglySorted (fun x y => cmp (f x) (f y) = Lt) l ->
  ascending (fun x y => moves (f x) (f y)) (directed l).
Proof.
  intros Hs. unfold ascending, directed, moves, past. destruct reverse.
  - apply StronglySorted_rev in Hs. eapply StronglySorted_mono; [|done].
    intros x y Hxy. unfold flip in Hxy. by rewrite Hxy.
  - eapply StronglySorted_mono; [|done]. intros x y Hxy. simpl.
    by rewrite (proj2 (cmp_gt_lt _ _) Hxy).
Qed.
End direction.

Lemma head_map {A B} (f : A -> B) (l : list A) : head (f <$> l) = f <$> head l.
Proof. by destruct l. Qed.

Lemma list_cmp_singleton {K} `{TotalCmp K} (x y : K) : list_cmp [x] [y] = cmp x y.
Proof. simpl. by destruct (cmp x y). Qed.

(** The walk with cursor positions: [row] is what a request returns for an
    element, [code] the position it stands for. *)
Lemma cursor_walk {A} (L : list A) (row : A -> CursorRecord) (code : CursorRecord -> list Key)
    (next : option CursorRecord -> option CursorRecord) (reverse : bool) (fuel : nat) :
  StronglySorted (fun x y => cmp (code (row x)) (code (row y)) = Lt) L ->
  length L <= fuel ->
  next None = row <$> head (directed reverse L) ->
  (forall x, x ∈ L -> next (Some (row x))
    = row <$> head (filter (fun y => moves reverse (code (row x)) (code (row y)) = true)
                      (directed reverse L))) ->
  walk fuel next None = row <$> directed reverse L.
Proof.
  intros Hs Hf H0 Hnext.
  apply (walk_visits_all (fun c d => moves reverse (code c) (code d))).
  - intros c. apply moves_irrefl.
  - intros c d e. apply moves_trans.
  - pose proof (ascending_directed reverse (fun x => code (row x)) L Hs) as Ha.
    unfold ascending in *. eapply (StronglySorted_fmap row); [|exact Ha]. done.
  - rewrite length_fmap. unfold directed. destruct reverse; [by rewrite length_rev|done].
  - rewrite H0. by rewrite head_map.
  - intros c (x & -> & Hx)%list_elem_of_fmap. rewrite Hnext.
    + by rewrite filter_fmap_eq, head_map.
    + unfold directed in Hx. destruct reverse; [|done]. by rewrite list_elem_of_In, <- in_rev, <- list_elem_of_In in Hx.
Qed.

Section stores.
Context {NUM : JsonNumbers} {TEXT : JsonText}.
Implicit Types (s : ObjectStore) (rs : list IdbRecord) (i : IndexDefinition).

Definition record_of (r : result DbError DbResult) : option CursorRecord :=
  match r with Ok (RRecord c) => c | _ => None end.

(** A cursor on a store: each request passes the key it is at. *)
Definition store_cursor s (range : option KeyRange) (reverse keys_only : bool) (fuel : nat)
  : list CursorRecord :=
  walk fuel (fun at_ => record_of (ObjectStore_apply s
    (Scan (store_name (definition s)) range (cursor_key <$> at_) false 0 reverse keys_only)).2) None.

Definition store_row (keys_only : bool) (r : IdbRecord) : CursorRecord :=
  mkCursor (record_key r) None (if keys_only then None else Some (record_value r)).

Lemma scan_result s (range : option KeyRange) (reverse keys_only : bool) (after : option Key) (skip : N) :
  validate_range range = Ok tt -> validate_key after = Ok tt ->
  record_of (ObjectStore_apply s
    (Scan (store_name (definition s)) range after false skip reverse keys_only)).2
  = store_row keys_only <$>
      filter (fun r => from_option (fun a => moves reverse a (record_key r)) true after = true)
        (directed reverse (filter (fun r => in_range range (record_key r) = true) (records s)))
      !! N.to_nat skip.
Proof.
  intros Hrange Hafter. simpl. rewrite Hrange. simpl. rewrite Hafter. simpl.
  rewrite past_filter. unfold directed. destruct reverse; [|done]. by rewrite filter_rev.
Qed.

(** A store cursor visits every record of its range exactly once, in key
    order or in reverse, and then ends. *)
Theorem store_cursor_visits_all s (range : option KeyRange) (reverse keys_only : bool) (fuel : nat) :
  store_valid s -> validate_range range = Ok tt -> length (records s) <= fuel ->
  store_cursor s range reverse keys_only fuel
  = store_row keys_only <$>
      directed reverse (filter (fun r => in_range range (record_key r) = true) (records s)).
Proof.
  intros Hs Hrange Hfuel. set (F := filter (fun r => in_range range (record_key r) = true) (records s)).
  apply (cursor_walk _ _ (fun c => [cursor_key c])).
  - pose proof (sorted_filter (fun x => in_range range x.1 = true) _ (valid_order _ Hs)) as Ho.
    rewrite <- entries_filter in Ho. fold F in Ho. apply StronglySorted_fmap_inv in Ho.
    eapply StronglySorted_mono; [|exact Ho]. intros x y Hxy. unfold cmp, list_total_cmp.
    by rewrite list_cmp_singleton.
  - etrans; [|done]. apply length_filter.
  - rewrite scan_result by done. simpl from_option. rewrite filter_all by (by apply Forall_forall).
    by rewrite <- head_lookup.
  - intros x Hx. rewrite scan_result; [|done|].
    + simpl fmap at 2. simpl from_option. rewrite <- head_lookup. do 2 f_equal.
      apply list_filter_iff. intros y. unfold moves, cmp at 2, list_total_cmp.
      by rewrite list_cmp_singleton.
    + apply list_elem_of_filter in Hx as [_ Hx]. simpl.
      apply (proj1 (Forall_forall _ _) (valid_keys _ Hs) x Hx).
Qed.

(** ** Index views *)

(** The position of an entry: its index key, then its primary key. *)
Definition entry_code (e : IndexEntry) : list Key := [entry_key e; entry_primary e].

Lemma entry_cmp_code (x y : IndexEntry) : entry_cmp x y = cmp (entry_code x) (entry_code y).
Proof.
  change (cmp (entry_code x) (entry_code y)) with (list_cmp (entry_code x) (entry_code y)).
  unfold entry_cmp, entry_code. rewrite list_cmp_cons, list_cmp_singleton.
  by destruct (cmp (entry_key x) _).
Qed.

#[local] Instance entry_le_transitive : Transitive entry_le.
Proof. intros x y z. unfold entry_le. rewrite !entry_cmp_code. apply cmp_le_trans. Qed.
#[local] Instance entry_le_total : Total entry_le.
Proof.
  intros x y. unfold entry_le. rewrite !entry_cmp_code, (cmp_antisym (entry_code x)).
  destruct (cmp (entry_code x) _); auto.
Qed.

Lemma elem_of_unsorted_entries i rs (e : IndexEntry) :
  e ∈ unsorted_entries i rs <->
  mkRecord (entry_primary e) (entry_value e) ∈ rs /\
  entry_key e ∈ keys_for_value i (entry_value e).
Proof.
  unfold unsorted_entries. rewrite list_elem_of_bind. split.
  - intros (r & (k & -> & Hk)%list_elem_of_fmap & Hr). simpl. by destruct r.
  - intros [Hr Hk]. eexists. split; [|exact Hr]. apply list_elem_of_fmap.
    exists (entry_key e). split; [by destruct e|done].
Qed.

Lemma unsorted_entries_distinct i rs :
  sorted (entries rs) ->
  NoDup ((fun e => (key_code (entry_key e), key_code (entry_primary e))) <$> unsorted_entries i rs).
Proof.
  induction rs as [|r rs IH]; intros Hs; [constructor|].
  unfold entries in Hs. rewrite fmap_cons in Hs. apply StronglySorted_inv in Hs as [Hs Hr].
  specialize (IH Hs). unfold unsorted_entries. rewrite bind_cons, fmap_app.
  fold (unsorted_entries i rs). apply NoDup_app. split_and!; [| |done].
  - rewrite <- list_fmap_compose. destruct (keys_for_value_spec i (record_value r)) as [_ Hd].
    apply (NoDup_fmap_1 fst). by rewrite <- list_fmap_compose.
  - intros c (e & -> & He)%list_elem_of_fmap (e' & Hc & He')%list_elem_of_fmap.
    apply elem_of_unsorted_entries in He' as [He' _]. apply list_elem_of_fmap in He as (k & -> & _).
    simpl in Hc. injection Hc as _ Hc. apply cmp_code_eq in Hc.
    rewrite Forall_fmap, Forall_forall in Hr. specialize (Hr _ He'). unfold key_lt in Hr.
    simpl in Hr. congruence.
Qed.

Lemma sorted_strict {A} (code : A -> list Key) (l : list A) :
  StronglySorted (fun x y => cmp (code x) (code y) <> Gt) l ->
  NoDup ((fun x => key_code <$> code x) <$> l) ->
  StronglySorted (fun x y => cmp (code x) (code y) = Lt) l.
Proof.
  induction 1 as [|x l _ IH Hx]; intros Hd; [constructor|]. rewrite fmap_cons in Hd.
  apply NoDup_cons in Hd as [Hn Hd]. constructor; [by apply IH|].
  rewrite Forall_forall in Hx |- *. intros y Hy. specialize (Hx y Hy).
  destruct (cmp (code x) (code y)) eqn:Hc; [|done|done]. exfalso. apply Hn.
  apply list_elem_of_fmap. exists y. split; [|done]. clear -Hc.
  unfold cmp, list_total_cmp in Hc. revert Hc. generalize (code x) (code y).
  intros k. induction k as [|a k IH]; intros [|b m]; simpl; try done.
  destruct (cmp a b) eqn:Hab; try done. intros Hkm. apply cmp_code_eq in Hab.
  rewrite Hab. f_equal. by apply IH.
Qed.

Lemma index_entries_sorted s (name : string) (es : list IndexEntry) :
  store_valid s -> index_entries s name = Ok es ->
  exists i, i ∈ indexes (definition s) /\ index_name i = name /\
  es ≡ₚ unsorted_entries i (records s) /\
  StronglySorted (fun x y => cmp (entry_code x) (entry_code y) = Lt) es.
Proof.
  intros Hs. unfold index_entries. destruct (find _ _) as [i|] eqn:Hfind; [|done]. intros [= <-].
  apply find_some in Hfind as [Hin Hname%String.eqb_eq]. exists i.
  split_and!; [by apply list_elem_of_In|done|apply merge_sort_Permutation|].
  apply sorted_strict.
  - eapply StronglySorted_mono; [|apply StronglySorted_merge_sort; apply _].
    intros x y. unfold entry_le. by rewrite entry_cmp_code.
  - rewrite merge_sort_Permutation.
    pose proof (unsorted_entries_distinct i _ (valid_order _ Hs)) as Hd. revert Hd.
    generalize (unsorted_entries i (records s)). intros l.
    induction l as [|x l IH]; [constructor|]. rewrite !fmap_cons, !NoDup_cons.
    intros [Hx Hl]. split; [|by apply IH]. intros (y & Hxy & Hy)%list_elem_of_fmap. apply Hx.
    apply list_elem_of_fmap. exists y. split; [|done]. simpl in Hxy. congruence.
Qed.

(** An index view is the index: sorted by index key and then by primary key
    with no entry twice, holding an entry exactly for each key the index has
    for a record, and with each index key once when the index is unique. *)
Theorem index_view_sound s (name : string) (es : list IndexEntry) :
  store_valid s -> index_entries s name = Ok es ->
  exists i, i ∈ indexes (definition s) /\ index_name i = name /\
  StronglySorted (fun x y => entry_cmp x y = Lt) es /\
  (forall e, e ∈ es <-> mkRecord (entry_primary e) (entry_value e) ∈ records s /\
                       entry_key e ∈ keys_for_value i (entry_value e)) /\
  (unique i = true -> distinct (entry_key <$> es)).
Proof.
  intros Hs He. destruct (index_entries_sorted s name es Hs He) as (i & Hin & Hname & Hp & Hsort).
  exists i. split_and!; [done..| | |].
  - eapply StronglySorted_mono; [|exact Hsort]. intros x y. by rewrite entry_cmp_code.
  - intros e. by rewrite Hp, elem_of_unsorted_entries.
  - intros Hu. pose proof (validate_indexes_loop_unique _ _ _ i (valid_indexes _ Hs) Hin Hu) as Hd.
    unfold distinct in *. rewrite Hp. revert Hd. unfold unsorted_entries, index_keys.
    generalize (records s). intros l. clear.
    assert (entry_key <$> (l ≫= fun r => (fun key => mkEntry key (record_key r) (record_value r))
              <$> keys_for_value i (record_value r))
            = l ≫= fun r => keys_for_value i (record_value r)) as ->; [|done].
    induction l as [|r l IH]; [done|]. rewrite !bind_cons, fmap_app, IH. f_equal.
    rewrite <- list_fmap_compose. apply list_fmap_id.
Qed.

(** An index cursor: each request passes the index key and the primary key it
    is at. *)
Definition index_cursor s (name : string) (range : option KeyRange) (reverse keys_only : bool)
    (fuel : nat) : list CursorRecord :=
  walk fuel (fun at_ => record_of (ObjectStore_apply s
    (IndexScan (store_name (definition s)) name range (cursor_key <$> at_)
       (at_ ≫= cursor_primary_key) false 0 reverse false keys_only)).2) None.

Definition index_row (keys_only : bool) (e : IndexEntry) : CursorRecord :=
  mkCursor (entry_key e) (Some (entry_primary e)) (if keys_only then None else Some (entry_value e)).

Lemma index_scan_result s (name : string) (es : list IndexEntry) (range : option KeyRange)
    (reverse keys_only : bool) (at_ : option IndexEntry) :
  index_entries s name = Ok es -> validate_range range = Ok tt ->
  from_option (fun e => Key_validate 0 (entry_key e) = Ok tt /\
                        Key_validate 0 (entry_primary e) = Ok tt) True at_ ->
  record_of (ObjectStore_apply s
    (IndexScan (store_name (definition s)) name range (entry_key <$> at_)
       (entry_primary <$> at_) false 0 reverse false keys_only)).2
  = index_row keys_only <$>
      head (filter (fun e => from_option (fun a => moves reverse (entry_code a) (entry_code e))
                                 true at_ = true)
        (directed reverse (filter (fun e => in_range range (entry_key e) = true) es))).
Proof.
  intros He Hrange Hat. simpl. rewrite Hrange. simpl. rewrite He. simpl.
  assert (validate_key (entry_key <$> at_) = Ok () /\ validate_key (entry_primary <$> at_) = Ok ()) as [-> ->].
  { destruct at_; [done|done]. }
  simpl. rewrite <- head_lookup. unfold directed. do 3 f_equal. apply list_filter_iff.
  intros e. destruct at_ as [a|]; [|done]. simpl. unfold moves. rewrite <- entry_cmp_code.
  unfold entry_cmp, index_position. by destruct (cmp (entry_key e) (entry_key a)).
Qed.

(** C39. An index cursor visits every entry of its range exactly once, in the
    order of the index or in reverse, and then ends. *)
Theorem index_cursor_visits_all s (name : string) (es : list IndexEntry) (range : option KeyRange)
    (reverse keys_only : bool) (fuel : nat) :
  store_valid s -> index_entries s name = Ok es -> validate_range range = Ok tt ->
  length es <= fuel ->
  index_cursor s name range reverse keys_only fuel
  = index_row keys_only <$>
      directed reverse (filter (fun e => in_range range (entry_key e) = true) es).
Proof.
  intros Hs He Hrange Hfuel. set (F := filter (fun e => in_range range (entry_key e) = true) es).
  destruct (index_entries_sorted s name es Hs He) as (i & _ & _ & Hp & Hsort).
  apply (cursor_walk _ _ (fun c => [cursor_key c; default (cursor_key c) (cursor_primary_key c)])).
  - change (StronglySorted (fun x y => cmp (entry_code x) (entry_code y) = Lt) F).
    assert (ascending (fun x y => bool_decide (cmp (entry_code x) (entry_code y) = Lt)) F) as Ha.
    { eapply ascending_sublist; [apply sublist_filter|]. eapply StronglySorted_mono; [|exact Hsort].
      intros x y Hxy. by apply bool_decide_eq_true. }
    eapply StronglySorted_mono; [|exact Ha]. intros x y Hxy. by apply bool_decide_eq_true in Hxy.
  - etrans; [|done]. apply length_filter.
  - etrans; [apply (index_scan_result s name es range reverse keys_only None He Hrange I)|].
    by rewrite filter_all by (by apply Forall_forall).
  - intros x Hx. apply (index_scan_result s name es range reverse keys_only (Some x) He Hrange).
    apply list_elem_of_filter in Hx as [_ Hx]. rewrite Hp in Hx.
    apply elem_of_unsorted_entries in Hx as [Hr Hk]. simpl. split.
    + destruct (keys_for_value_spec i (entry_value x)) as [Hv _].
      by apply (proj1 (Forall_forall _ _) Hv).
    + by apply (proj1 (Forall_forall _ _) (valid_keys _ Hs) _ Hr).
Qed.
End stores.

(** ** Concrete instances *)
Lemma store_cursor_visits_all_witness :
  @store_cursor demo_numbers demo_text demo_store None true true 2
  = [mkCursor (KeyString "b") None None; mkCursor (KeyString "a") None None].
Proof.
  etrans; [apply (store_cursor_visits_all demo_store None true true 2)|reflexivity].
  - apply demo_store_valid.
  - reflexivity.
  - simpl. lia.
Defined.

Lemma index_view_sound_witness :
  exists i, i ∈ indexes (definition demo_store) /\ index_name i = "by_value" /\
  distinct (entry_key <$> [mkEntry (KeyString "x") (KeyString "b") "x";
                           mkEntry (KeyString "y") (KeyString "a") "y"]).
Proof.
  destruct (index_view_sound demo_store "by_value"
    [mkEntry (KeyString "x") (KeyString "b") "x"; mkEntry (KeyString "y") (KeyString "a") "y"])
    as (i & Hi & Hn & _ & _ & Hu).
  - apply demo_store_valid.
  - vm_compute. reflexivity.
  - exists i. split; [exact Hi|split; [exact Hn|]]. apply Hu. apply list_elem_of_singleton in Hi as ->.
    reflexivity.
Defined.

Lemma index_cursor_visits_all_witness :
  @index_cursor demo_numbers demo_text demo_store "by_value" None false true 2
  = [mkCursor (KeyString "x") (Some (KeyString "b")) None;
     mkCursor (KeyString "y") (Some (KeyString "a")) None].
Proof.
  etrans; [apply (index_cursor_visits_all demo_store "by_value"
    [mkEntry (KeyString "x") (KeyString "b") "x"; mkEntry (KeyString "y") (KeyString "a") "y"])|].
  - apply demo_store_valid.
  - vm_compute. reflexivity.
  - reflexivity.
  - simpl. lia.
  - reflexivity.
Defined.

(** A [prevunique] cursor returns the record with the greatest primary key of
    each index key; the standard asks for the least. *)
Definition demo_shared : ObjectStore :=
  mkStore (mkDefinition "s" None false [mkIndex "by_value" (Single EmptyString) false false]) 1
    [mkRecord (KeyString "a") "x"; mkRecord (KeyString "b") "x"].

Lemma prevunique_returns_greatest_primary :
  (@ObjectStore_apply demo_numbers demo_text demo_shared
     (IndexScan "s" "by_value" None None None false 0 true true true)).2
  = Ok (RRecord (Some (mkCursor (KeyString "x") (Some (KeyString "b")) None))).
Proof. vm_compute. reflexivity. Qed.
