(* ===== verification/Fs.v ===== *)
(** * Fs: the file system the persistent stores write to, and their saver

    [std::fs] as the program uses it, over a disk that maps paths to files.
    Every call consumes one [event] of a schedule, which decides whether it
    succeeds, fails, or the machine stops there, so a theorem over all
    schedules covers every fault and every crash point. [write_recoverable]
    (src/storage/persistence.rs) and [write_snapshot]
    (src/indexed_db/persistence.rs, src/cache_storage/persistence.rs) replace a
    state file: temporary file, sync, old file to the backup name, rename.

    Renames and removals are atomic and take effect in order (a journalled file
    system); file contents survive a crash only when [sync_all] returned. *)

From S2P Require Import Prelude.
From Stdlib Require Import Strings.Byte.

(** ** Paths, files, events *)

(** A [Path] by its parent, file stem and extension. [parent] is [None] for a
    path without a file name, where [with_extension] does nothing. *)
Record Path := mkPath {
  parent : option string;
  file_stem : string;
  extension : option string
}.
#[global] Instance Path_eq_dec : EqDecision Path.
Proof. solve_decision. Defined.
#[global] Instance Path_countable : Countable Path.
Proof.
  apply (inj_countable' (fun p => (parent p, file_stem p, extension p))
                        (fun t => mkPath t.1.1 t.1.2 t.2)). by intros [].
Defined.

Definition with_extension (e : string) (p : Path) : Path :=
  match parent p with
  | Some _ => mkPath (parent p) (file_stem p) (Some e)
  | None => p
  end.

Record File := mkFile { content : list byte; synced : bool }.

Inductive ErrorKind := NotFound | OtherKind.
Record IoError := mkIoError { error_kind : ErrorKind; error_text : string }.

(** What the environment does to one call. [Fail n] and [Crash n] of a write
    leave [n] bytes written; [CrashAfter] stops the machine when the call has had
    its whole effect and before it answers; [Unreadable] makes [Path::exists]
    answer [false] for a path it cannot query, and is [Proceed] to every other
    call. *)
Inductive event :=
  | Proceed
  | Unreadable
  | Fail (e : IoError) (written : nat)
  | Crash (written : nat)
  | CrashAfter.

Record World := mkWorld { disk : gmap Path File; schedule : list event }.

(** ** The monad of programs that call the file system *)
Inductive outcome (A : Type) := Done (a : A) | Crashed.
Arguments Done {A} a.
Arguments Crashed {A}.

Definition io (A : Type) : Type := World -> World * outcome A.

#[global] Instance io_ret : MRet io := fun A a w => (w, Done a).
#[global] Instance io_bind : MBind io := fun A B f m w =>
  match m w with
  | (w, Done a) => f a w
  | (w, Crashed) => (w, Crashed)
  end.

(** Rust's [?] inside such a program. *)
Definition io_try {E A B} (m : io (result E A)) (f : A -> io (result E B)) : io (result E B) :=
  m ≫= fun r => match r with Ok a => f a | Err e => mret (Err e) end.
Notation "x ←? m ; k" := (io_try m (fun x : _ => k))
  (at level 20, m at level 100, k at level 200, only parsing) : stdpp_scope.

(** Rust's [Result::map_err] on the result of a call. *)
Definition io_map_err {E F A} (f : E -> F) (m : io (result E A)) : io (result F A) :=
  m ≫= fun r => mret (map_err f r).

(** One call: [effect] when it proceeds, [partial n] when it does not. *)
Definition fs_call {A} (effect : gmap Path File -> gmap Path File * result IoError A)
    (partial : nat -> gmap Path File -> gmap Path File) : io (result IoError A) := fun w =>
  let go s := let '(d, r) := effect (disk w) in (mkWorld d s, Done r) in
  match schedule w with
  | [] => go []
  | Proceed :: s | Unreadable :: s => go s
  | Fail e n :: s => (mkWorld (partial n (disk w)) s, Done (Err e))
  | Crash n :: s => (mkWorld (partial n (disk w)) s, Crashed)
  | CrashAfter :: s => (mkWorld (effect (disk w)).1 s, Crashed)
  end.

Definition no_effect (n : nat) (d : gmap Path File) : gmap Path File := d.
Definition not_found : IoError := mkIoError NotFound "The system cannot find the file specified.".

(** [fs::create_dir_all]: directories hold no state of the program. *)
Definition create_dir_all (dir : string) : io (result IoError ()) :=
  fs_call (fun d => (d, Ok tt)) no_effect.

(** [File::create]: an empty file, truncating one that exists. *)
Definition file_create (p : Path) : io (result IoError ()) :=
  fs_call (fun d => (<[p := mkFile [] false]> d, Ok tt))
          (fun n d => match n with O => d | S _ => <[p := mkFile [] false]> d end).

Definition append_to (p : Path) (bytes : list byte) (d : gmap Path File) : gmap Path File :=
  alter (fun f => mkFile (content f ++ bytes) false) p d.

Definition write_all (p : Path) (bytes : list byte) : io (result IoError ()) :=
  fs_call (fun d => (append_to p bytes d, Ok tt)) (fun n d => append_to p (take n bytes) d).

Definition sync_all (p : Path) : io (result IoError ()) :=
  fs_call (fun d => (alter (fun f => mkFile (content f) true) p d, Ok tt)) no_effect.

(** [Path::exists] answers [false] on any error. *)
Definition exists_ (p : Path) : io bool := fun w =>
  let go s := (mkWorld (disk w) s, Done (bool_decide (is_Some (disk w !! p)))) in
  match schedule w with
  | [] => go []
  | Proceed :: s | Fail _ _ :: s => go s
  | Unreadable :: s => (mkWorld (disk w) s, Done false)
  | Crash _ :: s | CrashAfter :: s => (mkWorld (disk w) s, Crashed)
  end.

Definition remove_file (p : Path) : io (result IoError ()) :=
  fs_call (fun d => if decide (is_Some (d !! p)) then (delete p d, Ok tt) else (d, Err not_found))
          no_effect.

(** [fs::rename] replaces the destination. *)
Definition rename (from to : Path) : io (result IoError ()) :=
  fs_call (fun d => match d !! from with
                    | Some f => (<[to := f]> (delete from d), Ok tt)
                    | None => (d, Err not_found)
                    end) no_effect.

(** [File::open] and [take(limit).read_to_end]. *)
Definition file_open (p : Path) : io (result IoError ()) :=
  fs_call (fun d => match d !! p with Some _ => (d, Ok tt) | None => (d, Err not_found) end)
          no_effect.
Definition read_limited (p : Path) (limit : N) : io (result IoError (list byte)) :=
  fs_call (fun d => match d !! p with
                    | Some f => (d, Ok (take (N.to_nat limit) (content f)))
                    | None => (d, Err not_found)
                    end) no_effect.

(** ** The savers *)
Section savers.
(** [std::process::id()] *)
Variable pid : N.

Definition temporary_path (p : Path) : Path := with_extension ("tmp-" +:+ pretty pid) p.

(** src/storage/persistence.rs *)
Definition backup_path (p : Path) : Path := with_extension "bak" p.

Definition write_recoverable (path : Path) (bytes : list byte) : io (result string ()) :=
  match parent path with
  | None => mret (Err "profile storage path has no parent")
  | Some dir =>
      _ ←? io_map_err error_text (create_dir_all dir);
      let temporary := temporary_path path in
      let backup := backup_path path in
      _ ←? io_map_err error_text (file_create temporary);
      _ ←? io_map_err error_text (write_all temporary bytes);
      _ ←? io_map_err error_text (sync_all temporary);
      present ← exists_ path;
      _ ←? (if present : bool then
              _ ← remove_file backup;
              io_map_err error_text (rename path backup)
            else mret (Ok tt));
      moved ← rename temporary path;
      match moved with
      | Ok _ => mret (Ok tt)
      | Err error =>
          restorable ← exists_ backup;
          (if restorable : bool then _ ← rename backup path; mret (Err (error_text error))
           else mret (Err (error_text error)))
      end
  end.

(** src/indexed_db/persistence.rs and src/cache_storage/persistence.rs differ
    in the backup name, the error type and the message for a path without a
    parent. *)
Definition write_snapshot {E} (persistence : string -> E) (no_parent : string)
    (backup_extension : string) (path : Path) (bytes : list byte) : io (result E ()) :=
  let io_error e := persistence (error_text e) in
  match parent path with
  | None => mret (Err (persistence no_parent))
  | Some dir =>
      _ ←? io_map_err io_error (create_dir_all dir);
      let temporary := temporary_path path in
      let backup := with_extension backup_extension path in
      _ ←? io_map_err io_error (file_create temporary);
      _ ←? io_map_err io_error (write_all temporary bytes);
      _ ←? io_map_err io_error (sync_all temporary);
      present ← exists_ path;
      _ ←? (if present : bool then
              removed ← remove_file backup;
              match removed with
              | Ok _ => io_map_err io_error (rename path backup)
              | Err e =>
                  match error_kind e with
                  | NotFound => io_map_err io_error (rename path backup)
                  | OtherKind => mret (Err (io_error e))
                  end
              end
            else mret (Ok tt));
      moved ← rename temporary path;
      match moved with
      | Ok _ => mret (Ok tt)
      | Err error =>
          restorable ← exists_ backup;
          (if restorable : bool then _ ← rename backup path; mret (Err (io_error error))
           else mret (Err (io_error error)))
      end
  end.
End savers.

(** * Theory *)

(** [triple U P m Q I]: from a disk satisfying [P], on any schedule, [m] ends
    with a result and a disk in [Q], or the machine stops on a disk in [I].
    [U] is a fact that holds when a query of the schedule fails: the only way
    [Path::exists] can answer [false] for a file that is there. *)
Definition triple {A} (U : Prop) (P : gmap Path File -> Prop) (m : io A)
    (Q : A -> gmap Path File -> Prop) (I : gmap Path File -> Prop) : Prop :=
  forall w, (Unreadable ∈ schedule w -> U) -> P (disk w) ->
    let '(w', o) := m w in
    (Unreadable ∈ schedule w' -> U) /\
    match o with Done a => Q a (disk w') | Crashed => I (disk w') end.

Section triples.
Context {A B E : Type} {U : Prop}.
Implicit Types (P I : gmap Path File -> Prop).

Lemma triple_ret P (a : A) (Q : A -> gmap Path File -> Prop) I :
  (forall d, P d -> Q a d) -> triple U P (mret a) Q I.
Proof. intros HQ w Hw HP. split; [done|by apply HQ]. Qed.

Lemma triple_conseq P P' (m : io A) (Q : A -> gmap Path File -> Prop) I :
  (forall d, P d -> P' d) -> triple U P' m Q I -> triple U P m Q I.
Proof. intros HP Hm w Hw Hd. by apply Hm, HP. Qed.

Lemma triple_conseq_post P (m : io A) (Q Q' : A -> gmap Path File -> Prop) I I' :
  triple U P m Q I -> (forall a d, Q a d -> Q' a d) -> (forall d, I d -> I' d) -> triple U P m Q' I'.
Proof.
  intros Hm HQ HI w Hw Hd. specialize (Hm w Hw Hd).
  destruct (m w) as [w' [a|]]; (split; [apply Hm|]); [apply HQ|apply HI]; apply Hm.
Qed.

Lemma triple_bind P (m : io A) (f : A -> io B) R Q I :
  triple U P m R I -> (forall a, triple U (R a) (f a) Q I) -> triple U P (m ≫= f) Q I.
Proof.
  intros Hm Hf w Hw HP. specialize (Hm w Hw HP). unfold mbind, io_bind.
  destruct (m w) as [w' [a|]]; [|done]. destruct Hm. by apply Hf.
Qed.

Lemma triple_fs_call P effect partial (Q : result IoError A -> gmap Path File -> Prop) I :
  (forall d, P d -> Q (effect d).2 (effect d).1 /\ I (effect d).1) ->
  (forall d n, P d -> I (partial n d) /\ forall e, Q (Err e) (partial n d)) ->
  triple U P (fs_call effect partial) Q I.
Proof.
  intros He Hp [d s] Hw HP. unfold fs_call. simpl in *.
  destruct (He d HP) as [HQ HI]. destruct (effect d) as [d' r].
  destruct s as [|[| |e n|n|] s]; simpl; rewrite ?elem_of_cons in Hw;
    (split; [by intros Hin; apply Hw; eauto|]); try done; by apply Hp.
Qed.

Lemma triple_exists P p (Q : bool -> gmap Path File -> Prop) I :
  (forall d, P d -> I d /\ Q (bool_decide (is_Some (d !! p))) d /\ (U -> Q false d)) ->
  triple U P (exists_ p) Q I.
Proof.
  intros HQ [d s] Hw HP. unfold exists_. simpl in *. destruct (HQ d HP) as (? & ? & Hno).
  destruct s as [|[| |e n|n|] s]; simpl; rewrite ?elem_of_cons in Hw;
    (split; [by intros Hin; apply Hw; eauto|]); try done. apply Hno, Hw. by left.
Qed.
End triples.

Lemma triple_try {E A B} U P (m : io (result E A)) (f : A -> io (result E B)) R Q I :
  triple U P m R I -> (forall a, triple U (R (Ok a)) (f a) Q I) ->
  (forall e d, R (Err e) d -> Q (Err e) d) -> triple U P (io_try m f) Q I.
Proof.
  intros Hm Hf He. eapply triple_bind; [done|]. intros [a|e]; [done|]. by apply triple_ret, He.
Qed.

Lemma triple_map_err {E F A} U P (f : E -> F) (m : io (result E A)) Q I :
  triple U P m (fun r => Q (map_err f r)) I -> triple U P (io_map_err f m) Q I.
Proof. intros Hm. eapply triple_bind; [done|]. intros r. by apply triple_ret. Qed.

(** The file a loader reads: the state file, or the backup in its absence. *)
Definition stored (backup path : Path) (d : gmap Path File) : option File :=
  match d !! path with Some f => Some f | None => d !! backup end.

(** What a crash may do to the disk: unsynced contents are lost or damaged. *)
Definition after_crash (d d' : gmap Path File) : Prop :=
  forall p, match d !! p with
            | Some f => if synced f then d' !! p = Some f
                        else True
            | None => d' !! p = None
            end.

Lemma stored_after_crash (backup path : Path) (d d' : gmap Path File) :
  (forall f, stored backup path d = Some f -> synced f = true) ->
  after_crash d d' -> stored backup path d' = stored backup path d.
Proof.
  unfold stored. intros Hs Hc. pose proof (Hc path) as Hp. pose proof (Hc backup) as Hb.
  destruct (d !! path) as [f|].
  - rewrite (Hs f eq_refl) in Hp. by rewrite Hp.
  - rewrite Hp. destruct (d !! backup) as [f|]; [|done]. by rewrite (Hs f eq_refl) in Hb.
Qed.

(** ** The stages both savers share *)
Section stages.
Variables (temporary backup path : Path) (bytes : list byte).
Hypotheses (Htp : temporary <> path) (Htb : temporary <> backup) (Hpb : path <> backup).
(** [U]: a query of the schedule fails; [po], [bo]: the two files at the start. *)
Variables (U : Prop) (po bo : option File).

Definition untouched (d : gmap Path File) : Prop := d !! path = po /\ d !! backup = bo.
Definition unchanged (d : gmap Path File) : Prop :=
  stored backup path d = match po with Some f => Some f | None => bo end.
(** A query failed, so the saver did not move the file out of the way; then a
    failure to put the new one there makes it put the backup in its place. *)
Definition reverted (d : gmap Path File) : Prop := U /\ is_Some bo /\ d !! path = bo.
Definition installed (d : gmap Path File) : Prop := d !! path = Some (mkFile bytes true).

Definition staged (d : gmap Path File) : Prop :=
  untouched d /\ d !! temporary = Some (mkFile bytes true).
Definition cleared (d : gmap Path File) : Prop :=
  d !! path = po /\ is_Some po /\ d !! temporary = Some (mkFile bytes true).
(** The new file may be renamed into place: the old one is at the backup name,
    unless the query for it failed. *)
Definition ready (d : gmap Path File) : Prop :=
  d !! temporary = Some (mkFile bytes true) /\
  ((d !! path = None /\ unchanged d) \/ (U /\ untouched d)).

(** Where a crash, and the two outcomes of a saver, leave the disk. *)
Definition interrupted (d : gmap Path File) : Prop := unchanged d \/ installed d \/ reverted d.
Definition saved {E} (r : result E ()) (d : gmap Path File) : Prop :=
  match r with
  | Ok _ => installed d
  | Err _ => unchanged d \/ reverted d
  end.

Definition saving {E} (next : gmap Path File -> Prop) (r : result E ()) (d : gmap Path File) :=
  match r with Ok _ => next d | Err _ => unchanged d end.

Lemma untouched_unchanged d : untouched d -> unchanged d.
Proof. unfold untouched, unchanged, stored. by intros [-> ->]. Qed.

Lemma cleared_unchanged d : cleared d -> unchanged d.
Proof. unfold cleared, unchanged, stored. by intros (-> & [f ->] & _). Qed.

Lemma ready_unchanged d : ready d -> unchanged d.
Proof. intros [_ [[_ ?]|[_ ?]]]; [done|by apply untouched_unchanged]. Qed.

Lemma untouched_insert d f : untouched d -> untouched (<[temporary := f]> d).
Proof. unfold untouched. by rewrite !lookup_insert_ne by done. Qed.

Lemma untouched_alter d g : untouched d -> untouched (alter g temporary d).
Proof. unfold untouched. by rewrite !lookup_alter_ne by done. Qed.

#[local] Hint Resolve untouched_unchanged cleared_unchanged ready_unchanged untouched_insert
  untouched_alter : core.

Lemma triple_create :
  triple U untouched (file_create temporary)
    (saving (fun d => untouched d /\ d !! temporary = Some (mkFile [] false))) unchanged.
Proof.
  apply triple_fs_call; simpl.
  - intros d Hd. rewrite lookup_insert_eq. auto.
  - intros d [|n] Hd; auto.
Qed.

Lemma triple_write :
  triple U (fun d => untouched d /\ d !! temporary = Some (mkFile [] false))
    (write_all temporary bytes)
    (saving (fun d => untouched d /\ d !! temporary = Some (mkFile bytes false))) unchanged.
Proof.
  apply triple_fs_call; simpl; unfold append_to.
  - intros d [Hd Ht]. rewrite lookup_alter_eq, Ht. auto.
  - intros d n [Hd Ht]. auto.
Qed.

Lemma triple_sync :
  triple U (fun d => untouched d /\ d !! temporary = Some (mkFile bytes false))
    (sync_all temporary) (saving staged) unchanged.
Proof.
  apply triple_fs_call; simpl; unfold staged.
  - intros d [Hd Ht]. rewrite lookup_alter_eq, Ht. auto.
  - intros d n [Hd Ht]. auto.
Qed.

(** A path that is reported absent is absent, unless the query failed. *)
Lemma triple_present :
  triple U staged (exists_ path) (fun b d => staged d /\ (b = true -> is_Some po) /\ (b = false -> ready d))
    unchanged.
Proof.
  apply triple_exists. intros d [Hd Ht]. pose proof Hd as [Hp Hb].
  split_and!; [auto|done| | |].
  - intros Hx%bool_decide_eq_true. by rewrite <- Hp.
  - intros Hx%bool_decide_eq_false%eq_None_not_Some. split; [done|]. left. auto.
  - intros HU. split_and!; [done|done|]. intros _. split; [done|]. by right.
Qed.

Lemma triple_remove_backup :
  triple U (fun d => staged d /\ is_Some po) (remove_file backup) (fun _ => cleared) unchanged.
Proof.
  apply triple_fs_call; simpl; unfold no_effect.
  - intros d [[[Hp Hb] Ht] Hpo]. case_decide; simpl.
    + assert (Hc : cleared (delete backup d)) by (unfold cleared; by simplify_map_eq). auto.
    + assert (Hc : cleared d) by done. auto.
  - intros d n [[[Hp Hb] Ht] Hpo]. assert (Hc : cleared d) by done. auto.
Qed.

Lemma triple_move_aside :
  triple U cleared (rename path backup) (saving ready) unchanged.
Proof.
  apply triple_fs_call; simpl; unfold no_effect; [|auto].
  intros d (Hp & [f Hpo] & Ht). rewrite Hpo in Hp. rewrite Hp. simpl.
  assert (Hr : ready (<[backup := f]> (delete path d))).
  { split; [by simplify_map_eq|]. left. unfold unchanged, stored. by simplify_map_eq. }
  auto.
Qed.

Lemma triple_install :
  triple U ready (rename temporary path)
    (fun r d => match r with Ok _ => installed d | Err _ => ready d end) interrupted.
Proof.
  apply triple_fs_call; simpl; unfold interrupted, installed.
  - intros d [Ht _]. rewrite Ht. simpl. rewrite lookup_insert_eq. auto.
  - intros d n Hd. auto.
Qed.

(** Taking the backup back, whether or not that succeeds. *)
Lemma triple_restore {E} (e : E) :
  triple U ready
    (restorable ← exists_ backup;
     (if restorable : bool then _ ← rename backup path; mret (Err e) else mret (Err e)))
    saved interrupted.
Proof.
  eapply triple_bind; [apply (triple_exists _ _ (fun _ => ready))|].
  { unfold interrupted. auto. }
  intros []; [|apply triple_ret; simpl; auto].
  eapply triple_bind.
  - apply (triple_fs_call _ _ _ (fun _ d => unchanged d \/ reverted d)); simpl;
      unfold no_effect, interrupted; [|auto].
    intros d Hd. cut (forall d', (match d !! backup with
        | Some f => (<[path:=f]> (delete backup d), Ok tt)
        | None => (d, Err not_found) end).1 = d' -> unchanged d' \/ reverted d');
      [intros Hr; specialize (Hr _ eq_refl); tauto|].
    destruct (d !! backup) as [f|] eqn:Hb; simpl; intros d' <-; [|auto].
    destruct Hd as [_ [[Hp Hd]|[HU [Hp Hbo]]]].
    + left. unfold unchanged, stored in *. rewrite Hp, Hb in Hd. by rewrite lookup_insert_eq.
    + right. unfold reverted. rewrite lookup_insert_eq, <- Hbo, Hb. eauto.
  - intros a. by apply triple_ret.
Qed.

(** Everything after the temporary file is written, whatever moves the old one. *)
Lemma triple_installing {E} (io_error : IoError -> E) (move : bool -> io (result E ())) :
  (forall b, triple U (fun d => staged d /\ (b = true -> is_Some po) /\ (b = false -> ready d)) (move b)
     (saving ready) unchanged) ->
  triple U staged
    (present ← exists_ path;
     _ ←? move present;
     moved ← rename temporary path;
     match moved with
     | Ok _ => mret (Ok tt)
     | Err error =>
         restorable ← exists_ backup;
         (if restorable : bool then _ ← rename backup path; mret (Err (io_error error))
          else mret (Err (io_error error)))
     end)
    saved interrupted.
Proof.
  assert (Hi : forall d, unchanged d -> interrupted d) by (by left).
  intros Hmove. eapply triple_bind.
  { eapply triple_conseq_post; [apply triple_present|by intros b d Hd; exact Hd|done]. }
  intros b. eapply (triple_try _ _ _ _ (saving ready)).
  - eapply triple_conseq_post; [apply Hmove|done|done].
  - intros u. eapply triple_bind; [by apply triple_install|]. intros [v|e].
    + by apply triple_ret.
    + by apply triple_restore.
  - intros e d Hd. by left.
Qed.

(** The first four calls of a saver, whatever follows. *)
Lemma triple_staging {E} (io_error : IoError -> E) dir (rest : io (result E ())) :
  triple U staged rest saved interrupted ->
  triple U untouched
    (_ ←? io_map_err io_error (create_dir_all dir);
     _ ←? io_map_err io_error (file_create temporary);
     _ ←? io_map_err io_error (write_all temporary bytes);
     _ ←? io_map_err io_error (sync_all temporary);
     rest)
    saved interrupted.
Proof.
  assert (Hstage : forall P (m : io (result IoError ())) next (rest : () -> io (result E ())),
    triple U P m (saving next) unchanged -> triple U next (rest tt) saved interrupted ->
    triple U P (io_try (io_map_err io_error m) rest) saved interrupted).
  { intros P m next rest' Hm Hrest. apply (triple_try _ _ _ _ (saving next)).
    - apply triple_map_err. eapply triple_conseq_post; [exact Hm|by intros []|by left].
    - by intros [].
    - by left. }
  intros Hrest.
  eapply (Hstage _ _ untouched).
  { apply triple_fs_call; simpl; unfold no_effect; auto. }
  eapply Hstage; [by apply triple_create|].
  eapply Hstage; [by apply triple_write|].
  by eapply Hstage; [by apply triple_sync|].
Qed.
End stages.

Lemma with_extension_ne (e e' : string) (p : Path) dir :
  parent p = Some dir -> e <> e' -> with_extension e p <> with_extension e' p.
Proof. unfold with_extension. intros -> Hne [=]. done. Qed.

Lemma with_extension_ne_path (e : string) (p : Path) :
  extension p <> Some e -> is_Some (parent p) -> with_extension e p <> p.
Proof. unfold with_extension. intros Hne [dir Hp]. rewrite Hp. intros Heq. apply Hne. by rewrite <- Heq. Qed.

(** The one way a save loses the state it replaces without storing the new one:
    a failed query, and a backup older than the file it is put over. *)
Definition reverts (backup path : Path) (w w' : World) : Prop :=
  Unreadable ∈ schedule w /\ is_Some (disk w !! backup) /\ disk w' !! path = disk w !! backup.

(** What both savers promise of the state at [path], on every schedule: after
    [Ok] the new bytes are the state file, after [Err] the stored state is the
    old one, after a crash at any point one of the two, and the loss of unsynced
    contents changes none of that. Only when a query failed, and the call did not
    answer [Ok], may the older backup take the state file's place. *)
Definition save_contract {E} (backup path : Path) (bytes : list byte) (m : io (result E ())) : Prop :=
  forall w, (forall f, stored backup path (disk w) = Some f -> synced f = true) ->
    let '(w', o) := m w in
    (reverts backup path w w' /\ (forall u, o <> Done (Ok u))) \/
    exists kept,
      match o with
      | Done (Ok _) => kept = Some (mkFile bytes true)
      | Done (Err _) => kept = stored backup path (disk w)
      | Crashed => kept = stored backup path (disk w) \/ kept = Some (mkFile bytes true)
      end /\
      forall d', d' = disk w' \/ after_crash (disk w') d' -> stored backup path d' = kept.

Lemma stays_stored (backup path : Path) (d : gmap Path File) kept :
  stored backup path d = kept -> (forall f, kept = Some f -> synced f = true) ->
  forall d', d' = d \/ after_crash d d' -> stored backup path d' = kept.
Proof.
  intros Hk Hs d' [->|Hc]; [done|]. rewrite <- Hk. apply stored_after_crash; [by rewrite Hk|done].
Qed.

Lemma save_contract_intro {E} (backup path : Path) (bytes : list byte) (m : io (result E ())) :
  (forall U po bo, triple U (untouched backup path po bo) m (saved backup path bytes U po bo)
                     (interrupted backup path bytes U po bo)) ->
  save_contract backup path bytes m.
Proof.
  intros Hm w Hs.
  specialize (Hm (Unreadable ∈ schedule w) _ _ w (fun H => H) (conj eq_refl eq_refl)).
  destruct (m w) as [w' o]. destruct Hm as [_ Ho].
  set (so := stored backup path (disk w)) in *.
  assert (Hold : unchanged backup path (disk w !! path) (disk w !! backup) (disk w') ->
    forall d', d' = disk w' \/ after_crash (disk w') d' -> stored backup path d' = so).
  { intros Hu. by apply stays_stored. }
  assert (Hnew : installed path bytes (disk w') ->
    forall d', d' = disk w' \/ after_crash (disk w') d' ->
      stored backup path d' = Some (mkFile bytes true)).
  { intros Hu. apply stays_stored; [|by intros f [= <-]].
    unfold stored. unfold installed in Hu. by rewrite Hu. }
  assert (Hback : reverted path (Unreadable ∈ schedule w) (disk w !! backup) (disk w') ->
    reverts backup path w w') by (by intros (? & ? & ?)).
  destruct o as [[u|e]|]; simpl in Ho.
  - right. eauto.
  - destruct Ho as [Ho|Ho]; [right; eauto|left; by split; [auto|]].
  - destruct Ho as [Ho|[Ho|Ho]]; [right; eauto|right; eauto|left; by split; [auto|]].
Qed.

(** A state file's name is not one of the names a saver makes for itself. *)
Definition saver_names (pid : N) (backup_extension : string) (path : Path) : Prop :=
  is_Some (parent path) /\ extension path <> Some ("tmp-" +:+ pretty pid) /\
  extension path <> Some backup_extension /\ "tmp-" +:+ pretty pid <> backup_extension.

Lemma saver_names_ne (pid : N) (ext : string) (path : Path) :
  saver_names pid ext path ->
  temporary_path pid path <> path /\ temporary_path pid path <> with_extension ext path /\
  path <> with_extension ext path.
Proof.
  intros (Hp & Ht & Hb & Hne). split_and!.
  - by apply with_extension_ne_path.
  - destruct Hp as [dir Hp]. by eapply with_extension_ne.
  - intros Heq. by eapply with_extension_ne_path.
Qed.

(** Without a fault, the calls before the first query leave a synced temporary. *)
Lemma staging_runs {E} (io_error : IoError -> E) (temporary : Path) dir bytes d
    (rest : io (result E ())) (v : outcome (result E ())) :
  (forall d', d' !! temporary = Some (mkFile bytes true) -> (rest (mkWorld d' [])).2 = v) ->
  ((_ ←? io_map_err io_error (create_dir_all dir);
    _ ←? io_map_err io_error (file_create temporary);
    _ ←? io_map_err io_error (write_all temporary bytes);
    _ ←? io_map_err io_error (sync_all temporary);
    rest) (mkWorld d [])).2 = v.
Proof. intros Hrest. apply Hrest. unfold append_to. by simplify_map_eq. Qed.

(** The rest of such a run, by cases on the files that exist. *)
Ltac run_calls :=
  unfold io_try, io_map_err, mbind, io_bind, mret, io_ret, exists_, remove_file, rename, fs_call;
  simpl; repeat (case_bool_decide || case_decide); simpl; simplify_map_eq; try done;
  repeat match goal with H : is_Some _ |- _ => destruct H end; congruence.

Lemma write_recoverable_contract (pid : N) (path : Path) (bytes : list byte) :
  saver_names pid "bak" path ->
  save_contract (backup_path path) path bytes (write_recoverable pid path bytes).
Proof.
  intros Hn. destruct (saver_names_ne _ _ _ Hn) as (Htp & Htb & Hpb).
  destruct Hn as ([dir Hdir] & _). apply save_contract_intro. intros U po bo.
  unfold write_recoverable. rewrite Hdir.
  apply triple_staging; [done..|]. apply triple_installing. intros [|].
  - eapply triple_conseq; [|eapply triple_bind; [by apply (triple_remove_backup (temporary_path pid path))|]].
    { intros d (Hd & Hpo & _). split; [exact Hd|by apply Hpo]. }
    intros r. apply triple_map_err.
    eapply triple_conseq_post; [by apply triple_move_aside|intros [] d Hd; exact Hd|done].
  - apply triple_ret. intros d (_ & _ & Hr). by apply Hr.
Qed.

(** Without a fault it answers [Ok]. *)
Lemma write_recoverable_runs (pid : N) (path : Path) (bytes : list byte) (d : gmap Path File) :
  saver_names pid "bak" path -> (write_recoverable pid path bytes (mkWorld d [])).2 = Done (Ok tt).
Proof.
  intros Hn. destruct (saver_names_ne _ _ _ Hn) as (Htp & Htb & Hpb). destruct Hn as ([dir Hdir] & _).
  unfold write_recoverable. rewrite Hdir.
  apply staging_runs. intros d' Ht. destruct (d' !! path) as [f|] eqn:Hf; run_calls.
Qed.

(** Saving is atomic (Web Storage): whatever calls fail and wherever the
    machine stops, [write_recoverable] leaves a disk from which the loader's
    file is the new bytes when it answered [Ok], the previous state when it
    answered an error, and one of the two when the machine stopped, except
    that a failed query may leave the older backup ([failed_query_restores_backup]);
    and with no fault it returns [Ok]. *)
Theorem write_recoverable_atomic (pid : N) (path : Path) (bytes : list byte) (w : World) :
  saver_names pid "bak" path ->
  save_contract (backup_path path) path bytes (write_recoverable pid path bytes) /\
  (schedule w = [] -> (write_recoverable pid path bytes w).2 = Done (Ok tt)).
Proof.
  intros Hn. split; [by apply write_recoverable_contract|].
  destruct w as [d s]. simpl. intros ->. by apply write_recoverable_runs.
Qed.

Definition state_path : Path := mkPath (Some "profile") "local-storage" (Some "json").

Lemma state_path_names :
  saver_names 7 "bak" state_path /\ saver_names 7 "idb-bak" state_path /\
  saver_names 7 "cache-bak" state_path.
Proof. unfold saver_names. split_and!; first [done|by eexists]. Qed.

(** The old state is on disk and the machine stops between the two renames. *)
Lemma write_recoverable_atomic_witness :
  save_contract (backup_path state_path) state_path [x01] (write_recoverable 7 state_path [x01]) /\
  (write_recoverable 7 state_path [x01] (mkWorld {[ state_path := mkFile [x00] true ]} [])).2
  = Done (Ok tt).
Proof.
  destruct (write_recoverable_atomic 7 state_path [x01]
    (mkWorld {[ state_path := mkFile [x00] true ]} [])) as [H1 H2].
  - split_and!; first [done|by eexists].
  - split; [exact H1|by apply H2].
Defined.

Lemma write_snapshot_contract {E} (persistence : string -> E) (no_parent ext : string)
    (pid : N) (path : Path) (bytes : list byte) :
  saver_names pid ext path ->
  save_contract (with_extension ext path) path bytes
    (write_snapshot pid persistence no_parent ext path bytes).
Proof.
  intros Hn. destruct (saver_names_ne _ _ _ Hn) as (Htp & Htb & Hpb).
  destruct Hn as ([dir Hdir] & _).
  apply save_contract_intro. intros U po bo. unfold write_snapshot. rewrite Hdir.
  apply triple_staging; [done..|]. apply triple_installing; [done..|]. intros [|].
  - eapply triple_conseq; [|eapply triple_bind; [by apply (triple_remove_backup (temporary_path pid path))|]].
    { intros d (Hd & Hpo & _). split; [exact Hd|by apply Hpo]. }
    assert (Hmove : forall f : IoError -> E,
      triple U (cleared (temporary_path pid path) path bytes po)
        (io_map_err f (rename path (with_extension ext path)))
        (saving (with_extension ext path) path po bo
          (ready (temporary_path pid path) (with_extension ext path) path bytes U po bo))
        (unchanged (with_extension ext path) path po bo)).
    { intros f. apply triple_map_err.
      eapply triple_conseq_post; [by apply triple_move_aside|intros [] d Hd; exact Hd|done]. }
    intros [u|e]; [apply Hmove|]. destruct (error_kind e); [apply Hmove|].
    apply triple_ret. intros d Hd. by eapply cleared_unchanged.
  - apply triple_ret. intros d (_ & _ & Hr). by apply Hr.
Qed.

Lemma write_snapshot_runs {E} (persistence : string -> E) (no_parent ext : string)
    (pid : N) (path : Path) (bytes : list byte) (d : gmap Path File) :
  saver_names pid ext path ->
  (write_snapshot pid persistence no_parent ext path bytes (mkWorld d [])).2 = Done (Ok tt).
Proof.
  intros Hn. destruct (saver_names_ne _ _ _ Hn) as (Htp & Htb & Hpb). destruct Hn as ([dir Hdir] & _).
  unfold write_snapshot. rewrite Hdir.
  apply staging_runs. intros d' Ht. destruct (d' !! path) as [f|] eqn:Hf; run_calls.
Qed.

(** Saving is atomic (IndexedDB and CacheStorage): [write_snapshot] keeps the
    same promise with its own backup name, and additionally gives up, before
    touching the state file, when the old backup cannot be removed. *)
Theorem write_snapshot_atomic {E} (persistence : string -> E) (no_parent ext : string)
    (pid : N) (path : Path) (bytes : list byte) (w : World) :
  saver_names pid ext path ->
  save_contract (with_extension ext path) path bytes
    (write_snapshot pid persistence no_parent ext path bytes) /\
  (schedule w = [] ->
   (write_snapshot pid persistence no_parent ext path bytes w).2 = Done (Ok tt)).
Proof.
  intros Hn. split; [by apply write_snapshot_contract|].
  destruct w as [d s]. simpl. intros ->. by apply write_snapshot_runs.
Qed.

Lemma write_snapshot_atomic_witness :
  save_contract (with_extension "idb-bak" state_path) state_path [x01]
    (write_snapshot 7 Some "invalid database path" "idb-bak" state_path [x01]) /\
  (write_snapshot 7 Some "invalid database path" "idb-bak" state_path [x01] (mkWorld ∅ [])).2
  = Done (Ok tt).
Proof.
  destruct (write_snapshot_atomic Some "invalid database path" "idb-bak" 7 state_path [x01]
    (mkWorld ∅ [])) as [H1 H2].
  - split_and!; first [done|by eexists].
  - split; [exact H1|by apply H2].
Defined.

(** The loaders fall back to the backup when the state file does not decode.
    The next save removes that backup before the new file is in place: a crash
    there leaves no readable state, although the disk held one before. *)
Lemma save_after_corruption_loses_backup :
  let good := mkFile [x01] true in
  let corrupt := mkFile [] true in
  let d := <[state_path := corrupt]> {[ backup_path state_path := good ]} in
  let steps := replicate 7 Proceed ++ [Crash 0] in
  let w := (write_recoverable 7 state_path [x02] (mkWorld d steps)).1 in
  disk w !! state_path = None /\ disk w !! backup_path state_path = Some corrupt.
Proof. vm_compute. split; reflexivity. Qed.

(** [Path::exists] reports a file it cannot query as absent. When the query for
    the state file fails, the saver does not move that file to the backup name;
    when the new file then cannot be renamed into place, the recovery puts the
    older backup over a state file that was never touched. *)
Lemma failed_query_restores_backup :
  let older := mkFile [x00] true in
  let current := mkFile [x01] true in
  let busy := mkIoError OtherKind "The process cannot access the file." in
  let d := <[state_path := current]> {[ backup_path state_path := older ]} in
  let steps := replicate 4 Proceed ++ [Unreadable; Fail busy 0] in
  let r := write_recoverable 7 state_path [x02] (mkWorld d steps) in
  r.2 = Done (Err (error_text busy)) /\ disk r.1 !! state_path = Some older /\
  disk r.1 !! backup_path state_path = None.
Proof. vm_compute. split_and!; reflexivity. Qed.

(** A crash in the final rename may come after it took effect. *)
Lemma crash_may_install :
  let old := mkFile [x00] true in
  let d := {[ state_path := old ]} in
  let run last := (write_recoverable 7 state_path [x01]
    (mkWorld d (replicate 7 Proceed ++ [last]))).1 in
  stored (backup_path state_path) state_path (disk (run (Crash 0))) = Some old /\
  stored (backup_path state_path) state_path (disk (run CrashAfter)) = Some (mkFile [x01] true).
Proof. vm_compute. split; reflexivity. Qed.
