(* ===== verification/CookieJar.v ===== *)
(** * CookieJar: the jar on disk (src/winhttp/cookies/persistence.rs)

    A profile's persistent cookies are one JSON file, rewritten after every
    change and checked when the profile opens. The theory says which jars
    survive the round trip, and that the checks of the two directions do not
    agree: some cookies the browser accepts make the file it writes unreadable. *)

From Stdlib Require Import ZArith Strings.Byte.
From S2P Require Import Prelude Text StrOps Limits Clock Origins Net Headers CspSources Csp FetchRequest Cookies SimpleInstances CookieTheory Fs.

Definition FORMAT_VERSION : N := 1.

Record PersistedCookie := mkPersistedCookie {
  pc_name : string;
  pc_value : string;
  pc_domain : string;
  pc_path : string;
  pc_secure : bool;
  pc_host_only : bool;
  pc_http_only : bool;
  pc_same_site : N;
  pc_expires_unix_seconds : N;
  pc_creation : N
}.

Record PersistedJar := mkPersistedJar {
  pj_format_version : N;
  pj_version : N;
  pj_next_creation : N;
  pj_cookies : list PersistedCookie
}.

#[global] Instance PersistedCookie_eq_dec : EqDecision PersistedCookie.
Proof. solve_decision. Defined.
#[global] Instance PersistedJar_eq_dec : EqDecision PersistedJar.
Proof. solve_decision. Defined.

(** [serde_json::to_vec_pretty] and [from_slice] at [PersistedJar]. *)
Class CookieJson := {
  jar_to_vec : PersistedJar -> result string (list byte);
  jar_from_slice : list byte -> result string PersistedJar
}.

(** A file the serialiser wrote reads back as what it was given. *)
Class CookieJsonLaws `{CookieJson} : Prop :=
  jar_json_round_trip (j : PersistedJar) bytes : jar_to_vec j = Ok bytes -> jar_from_slice bytes = Ok j.

Definition same_site_tag (s : SameSite) : N :=
  match s with SameSiteDefault => 1 | Strict => 2 | Lax => 3 | SameSiteNone => 4 end.

Definition decode_same_site (tag : N) : result string SameSite :=
  match tag with
  | 1%N => Ok SameSiteDefault
  | 2%N => Ok Strict
  | 3%N => Ok Lax
  | 4%N => Ok SameSiteNone
  | _ => Err "invalid persistent cookie SameSite value"
  end.

(** [s.contains("..")] *)
Fixpoint has_double_dot (l : list N) : bool :=
  match l with
  | a :: ((b :: _) as l) => ((a =? 46) && (b =? 46))%N || has_double_dot l
  | _ => false
  end.

Definition is_ascii (s : string) : bool := forallb (fun b => b <? 128)%N (bytes s).

Section jar.
Context {URL : UrlLib} {SUFFIXES : PublicSuffixes} {JSON : CookieJson}.

(** The reading of the clock the filter makes for this cookie is [now]. *)
Definition from_cookie (now : SystemTime) (c : StoredCookie) : option PersistedCookie :=
  expires ← expires_at c;
  if (expires <=? now)%Z then None
  else
    since ← duration_since expires UNIX_EPOCH;
    Some (mkPersistedCookie (cookie_name c) (cookie_value c) (cookie_domain c) (cookie_path c) (secure c)
            (host_only c) (http_only c) (same_site_tag (same_site c)) (as_secs since) (creation c)).

Definition prefix_rules_are_invalid (p : PersistedCookie) : bool :=
  breaks_prefix_rules (pc_name p) (pc_value p) (pc_secure p) (pc_host_only p) (String.eqb (pc_path p) "/").

Definition bad_text_byte (b : N) : bool := ((b <=? 0x1f) || (b =? 0x7f) || (b =? 59))%N.

Definition is_invalid (p : PersistedCookie) : bool :=
  (4096 <? saturating_add (byte_length (pc_name p)) (byte_length (pc_value p)))%N
  || String.eqb (pc_domain p) EmptyString
  || (253 <? byte_length (pc_domain p))%N
  || negb (is_ascii (pc_domain p))
  || negb (String.eqb (pc_domain p) (to_ascii_lowercase (pc_domain p)))
  || starts_with "." (pc_domain p)
  || StrOps.ends_with "." (pc_domain p)
  || has_double_dot (bytes (pc_domain p))
  || negb (starts_with "/" (pc_path p))
  || (1024 <? byte_length (pc_path p))%N
  || (pc_creation p =? 0)%N
  || negb (pc_host_only p) && public_suffix (pc_domain p)
  || (pc_same_site p =? 4)%N && negb (pc_secure p)
  || prefix_rules_are_invalid p
  || existsb bad_text_byte (bytes (pc_name p) ++ bytes (pc_value p)).

Definition into_cookie (p : PersistedCookie) (now : SystemTime) : result string (option StoredCookie) :=
  if is_invalid p then Err "invalid persistent cookie"
  else
    expires ← ok_or (time_checked_add UNIX_EPOCH (from_secs (pc_expires_unix_seconds p)))
                "invalid persistent cookie expiry";
    if (expires <=? now)%Z then Ok None
    else if (default now (time_checked_add now MAX_PERSISTENT_AGE) <? expires)%Z
    then Err "persistent cookie expiry exceeds four hundred days"
    else
      ss ← decode_same_site (pc_same_site p);
      Ok (Some (mkCookie (pc_name p) (pc_value p) (pc_domain p) (pc_path p) (pc_secure p) (pc_host_only p)
                  (pc_http_only p) ss (Some expires) (pc_creation p))).

(** The loop of [into_state]: the cookies read so far, and the sets and counts
    it keeps of them. *)
Record Loaded := mkLoaded {
  ld_cookies : list StoredCookie;
  ld_identities : gset (string * string * string * bool);
  ld_domain_counts : gmap string N;
  ld_creations : gset N;
  ld_greatest : N
}.
Definition nothing_loaded : Loaded := mkLoaded [] ∅ ∅ ∅ 0.

Definition load_one (now : SystemTime) (st : Loaded) (p : PersistedCookie) : result string Loaded :=
  read ← into_cookie p now;
  match read with
  | None => Ok st
  | Some c =>
      let count := (default 0 (ld_domain_counts st !! cookie_domain c) + 1)%N in
      if bool_decide (identity c ∈ ld_identities st) || bool_decide (creation c ∈ ld_creations st)
         || (MAX_COOKIES_PER_DOMAIN <? count)%N
      then Err "invalid persistent cookie collection"
      else Ok (mkLoaded (ld_cookies st ++ [c]) ({[identity c]} ∪ ld_identities st)
                 (<[cookie_domain c := count]> (ld_domain_counts st)) ({[creation c]} ∪ ld_creations st)
                 (N.max (ld_greatest st) (creation c)))
  end.

Fixpoint load_all (now : SystemTime) (st : Loaded) (l : list PersistedCookie) : result string Loaded :=
  match l with
  | [] => Ok st
  | p :: l => st ← load_one now st p; load_all now st l
  end.

Definition into_state (j : PersistedJar) (now : SystemTime) : result string CookieState :=
  if negb (pj_format_version j =? FORMAT_VERSION)%N || (pj_version j =? 0)%N || (pj_next_creation j =? 0)%N
     || (MAX_COOKIES <? N.of_nat (length (pj_cookies j)))%N
  then Err "invalid persistent cookie metadata"
  else
    loaded ← load_all now nothing_loaded (pj_cookies j);
    Ok (mkCookieState (ld_cookies loaded)
          (N.max (pj_next_creation j) (default 1%N (checked_add (ld_greatest loaded) 1))) (pj_version j)).

(** [clock i] is the reading made for the cookie at position [i]. *)
Definition persisted_jar (clock : nat -> SystemTime) (st : CookieState) : PersistedJar :=
  mkPersistedJar FORMAT_VERSION (jar_version st) (next_creation st)
    (omap id (imap (fun i c => from_cookie (clock i) c) (cookies st))).

Definition over_budget {A} : result string A := Err "persistent cookie state exceeded its byte budget".

Definition encode_jar (j : PersistedJar) : result string (list byte) :=
  bytes ← jar_to_vec j;
  if (MAX_PERSISTED_COOKIE_BYTES <? N.of_nat (length bytes))%N then over_budget else Ok bytes.

Definition decode_jar (bytes : list byte) (now : SystemTime) : result string CookieState :=
  if (MAX_PERSISTED_COOKIE_BYTES <? N.of_nat (length bytes))%N then over_budget
  else j ← jar_from_slice bytes; into_state j now.

(** [write_recoverable] of this file is the one of src/storage/persistence.rs
    with another message for a path without a parent. *)
Definition cookie_write_recoverable (pid : N) (path : Path) (bytes : list byte) : io (result string ()) :=
  match parent path with
  | None => mret (Err "cookie path has no parent")
  | Some _ => write_recoverable pid path bytes
  end.

Definition cookie_save (pid : N) (clock : nat -> SystemTime) (path : Path) (st : CookieState)
  : io (result string ()) :=
  bytes ←? mret (encode_jar (persisted_jar clock st));
  cookie_write_recoverable pid path bytes.

(** [fs::read] *)
Definition fs_read (p : Path) : io (result IoError (list byte)) :=
  fs_call (fun d => match d !! p with
                    | Some f => (d, Ok (content f))
                    | None => (d, Err not_found)
                    end) no_effect.

Definition cookie_load_file (now : SystemTime) (p : Path) : io (result string (option CookieState)) :=
  read ← fs_read p;
  match read with
  | Ok bytes => mret (Some <$> decode_jar bytes now)
  | Err e => match error_kind e with
             | NotFound => mret (Ok None)
             | OtherKind => mret (Err (error_text e))
             end
  end.

Definition cookie_load (now : SystemTime) (p : Path) : io (result string CookieState) :=
  primary ← cookie_load_file now p;
  match primary with
  | Ok (Some state) => mret (Ok state)
  | Ok None => state ←? cookie_load_file now (backup_path p); mret (Ok (default CookieState_default state))
  | Err primary => state ←? cookie_load_file now (backup_path p); mret (ok_or state primary)
  end.

(** src/winhttp/cookies/store.rs: the jar behind its mutex, its file, and the
    mutex that makes saves one at a time. A mutex is poisoned when a thread
    panics while it holds the lock; both are then refused for good. *)
Record CookieStore := mkCookieStore {
  jar_state : CookieState;
  jar_poisoned : bool;
  jar_path : option Path;
  persistence_poisoned : bool
}.

Definition in_memory : CookieStore := mkCookieStore CookieState_default false None false.

Definition cookie_open (now : SystemTime) (path : Path) : io (result string CookieStore) :=
  state ←? cookie_load now path;
  mret (Ok (mkCookieStore state false (Some path) false)).

Definition jar_lock (store : CookieStore) : result string CookieState :=
  if jar_poisoned store then Err "HTTP cookie jar is unavailable" else Ok (jar_state store).

Definition persist (pid : N) (clock : nat -> SystemTime) (store : CookieStore) : io (result string ()) :=
  match jar_path store with
  | None => mret (Ok tt)
  | Some path =>
      _ ←? mret (if persistence_poisoned store then Err "cookie persistence lock is poisoned" else Ok tt);
      state ←? mret (jar_lock store);
      cookie_save pid clock path state
  end.

(** A critical section on the jar, [persist] when it changed the jar, and the answer. *)
Definition with_lock {A} (pid : N) (clock : nat -> SystemTime) (store : CookieStore)
    (section : CookieState -> CookieState * (A * bool)) : io (CookieStore * result string A) :=
  match jar_lock store with
  | Err e => mret (store, Err e)
  | Ok state =>
      let '(state, (answer, changed)) := section state in
      let store := mkCookieStore state (jar_poisoned store) (jar_path store) (persistence_poisoned store) in
      saved ← (if changed : bool then persist pid clock store else mret (Ok tt));
      mret (store, _ ← saved; Ok answer)
  end.

Definition CookieStore_store_cookie (pid : N) (clock : nat -> SystemTime) (store : CookieStore)
    (later : SystemTime) (c : StoredCookie) (expired from_http source_secure : bool)
  : io (CookieStore * result string ()) :=
  with_lock pid clock store (fun state =>
    let '(state, changed) := store_cookie state later c expired from_http source_secure in
    (state, (tt, changed))).

Definition CookieStore_set_document_cookie (pid : N) (clock : nat -> SystemTime) (store : CookieStore)
    (now later : SystemTime) (document_url assignment : string) : io (CookieStore * result string ()) :=
  match ParsedUrl_parse document_url with
  | Err e => mret (store, Err e)
  | Ok u =>
      match document_cookie now u assignment with
      | None => mret (store, Ok tt)
      | Some (c, expired, u) =>
          CookieStore_store_cookie pid clock store later c expired false (is_secure_url u)
      end
  end.

Definition CookieStore_store_response_cookie (pid : N) (clock : nat -> SystemTime) (store : CookieStore)
    (now later : SystemTime) (r : FetchRequest) (set_cookie : string) : io (CookieStore * result string ()) :=
  match response_cookie now r set_cookie with
  | None => mret (store, Ok tt)
  | Some (c, expired, u) =>
      CookieStore_store_cookie pid clock store later c expired true (is_secure_url u)
  end.

Definition CookieStore_request_header (pid : N) (clock : nat -> SystemTime) (store : CookieStore)
    (now : SystemTime) (r : FetchRequest) : io (CookieStore * result string (option string)) :=
  match FetchUrl_parsed (req_url r) with
  | None => mret (store, Ok None)
  | Some _ => with_lock pid clock store (fun state => request_header state now r)
  end.

Definition CookieStore_document_snapshot (pid : N) (clock : nat -> SystemTime) (store : CookieStore)
    (now : SystemTime) (document_url : string) : io (CookieStore * result string CookieSnapshot) :=
  match ParsedUrl_parse document_url with
  | Err e => mret (store, Err e)
  | Ok u =>
      with_lock pid clock store (fun state =>
        let '(state, changed) := purge_expired state now in
        (state, (mkCookieSnapshot (jar_version state) (cookie_pairs (script_cookies state u)), changed)))
  end.
End jar.

(** * Theory *)
Section theory.
Context {URL : UrlLib} {SUFFIXES : PublicSuffixes} {CALENDAR : Calendar} {JSON : CookieJson}.
Implicit Types (c : StoredCookie) (st : CookieState) (now saved : SystemTime).

(** What the reader asks of a cookie beyond the rules of the jar. *)
Record storable now c : Prop := {
  sto_domain : cookie_domain c <> EmptyString /\ (byte_length (cookie_domain c) <= 253)%N /\
    is_ascii (cookie_domain c) = true /\ to_ascii_lowercase (cookie_domain c) = cookie_domain c;
  sto_dots : starts_with "." (cookie_domain c) = false /\ StrOps.ends_with "." (cookie_domain c) = false /\
    has_double_dot (bytes (cookie_domain c)) = false;
  sto_path : starts_with "/" (cookie_path c) = true /\ (byte_length (cookie_path c) <= 1024)%N;
  sto_text : existsb bad_text_byte (bytes (cookie_name c) ++ bytes (cookie_value c)) = false;
  sto_nameless : cookie_name c = EmptyString -> starts_ignoring_case (cookie_value c) "__Secure-" = false /\
    starts_ignoring_case (cookie_value c) "__Host-" = false;
  sto_expiry : forall e, expires_at c = Some e ->
    in_range e = true /\ (e <= default now (time_checked_add now MAX_PERSISTENT_AGE))%Z
}.

(** The expiry in whole seconds. *)
Definition whole_seconds (t : SystemTime) : SystemTime := Z.of_N (from_secs (as_secs (Z.to_N t))).

Definition with_expiry c (e : SystemTime) : StoredCookie :=
  mkCookie (cookie_name c) (cookie_value c) (cookie_domain c) (cookie_path c) (secure c) (host_only c)
    (http_only c) (same_site c) (Some e) (creation c).

(** What becomes of a cookie that is saved at [saved] and loaded at [now]. *)
Definition reloaded saved now c : option StoredCookie :=
  e ← expires_at c;
  if (e <=? saved)%Z || (e <? UNIX_EPOCH)%Z || (whole_seconds e <=? now)%Z then None
  else Some (with_expiry c (whole_seconds e)).

Lemma whole_seconds_bounds (t : SystemTime) : (0 <= t)%Z -> (0 <= whole_seconds t <= t)%Z.
Proof.
  intros Ht. unfold whole_seconds, from_secs, as_secs. split; [apply N2Z.is_nonneg|].
  rewrite N2Z.inj_mul, N2Z.inj_div, Z2N.id by done.
  pose proof (Z.mul_div_le t (Z.of_N nanos_per_sec)). unfold nanos_per_sec in *. lia.
Qed.

Lemma decode_same_site_tag (s : SameSite) : decode_same_site (same_site_tag s) = Ok s.
Proof. by destruct s. Qed.

Lemma from_cookie_valid saved now c (p : PersistedCookie) :
  cookie_ok c -> (1 <= creation c)%N -> storable now c -> from_cookie saved c = Some p -> is_invalid p = false.
Proof.
  intros [_ Hsize Hps Hnone Hsp Hhp] Hcr [[Hd [Hdl [Hda Hdc]]] [Hd1 [Hd2 Hd3]] [Hp Hpl] Ht Hn _].
  unfold from_cookie. intros (e & _ & H)%bind_Some. destruct (e <=? saved)%Z; [done|].
  apply bind_Some in H as (since & _ & [= <-]). unfold is_invalid, prefix_rules_are_invalid.
  cbn [pc_name pc_value pc_domain pc_path pc_secure pc_host_only pc_same_site pc_creation].
  rewrite Hda, Hd1, Hd2, Hd3, Hp, Ht, Hdc, String.eqb_refl, (proj2 (String.eqb_neq _ _) Hd).
  rewrite (proj2 (N.ltb_ge _ _) Hdl), (proj2 (N.ltb_ge _ _) Hpl), (proj2 (N.eqb_neq _ _)) by lia. simpl negb.
  rewrite ?orb_false_r, !orb_false_iff. split_and!.
  - apply N.ltb_ge, N.nlt_ge. rewrite saturating_add_gt by done. apply N.nlt_ge. exact Hsize.
  - destruct (host_only c); [done|]. by rewrite Hps.
  - destruct (same_site c); try done. by rewrite Hnone.
  - unfold breaks_prefix_rules. unfold has_prefix in *. rewrite !orb_false_iff. split_and!.
    + destruct (starts_ignoring_case (cookie_name c) "__Secure-"); [by rewrite Hsp|done].
    + destruct (starts_ignoring_case (cookie_name c) "__Host-"); [|done].
      destruct Hhp as (-> & -> & ->); [done|]. done.
    + destruct (String.eqb_spec (cookie_name c) EmptyString) as [Hempty|]; [|done].
      destruct (Hn Hempty) as [-> ->]. done.
Qed.

Lemma in_range_le (t u : Z) : in_range u = true -> (0 <= t <= u)%Z -> in_range t = true.
Proof.
  unfold in_range. rewrite !andb_true_iff, !Z.leb_le. unfold SYSTEM_TIME_MIN. lia.
Qed.

(** Written and read back, one cookie. *)
Lemma into_from_cookie saved now c :
  cookie_ok c -> (1 <= creation c)%N -> storable now c ->
  match from_cookie saved c with
  | Some p => into_cookie p now = Ok (reloaded saved now c)
  | None => reloaded saved now c = None
  end.
Proof.
  intros Hok Hcr Hst. destruct (from_cookie saved c) as [p|] eqn:Hf.
  - pose proof (from_cookie_valid _ _ _ _ Hok Hcr Hst Hf) as Hv. unfold into_cookie. rewrite Hv.
    unfold from_cookie in Hf. apply bind_Some in Hf as (e & He & Hf).
    destruct (e <=? saved)%Z eqn:Hsv; [done|]. apply bind_Some in Hf as (since & Hs & [= <-]).
    unfold duration_since in Hs. destruct (UNIX_EPOCH <=? e)%Z eqn:H0; [|done]. injection Hs as <-.
    unfold UNIX_EPOCH in H0. apply Z.leb_le in H0.
    destruct (sto_expiry _ _ Hst _ He) as [Hr Hle]. pose proof (whole_seconds_bounds e H0).
    assert (Hadd : time_checked_add UNIX_EPOCH (from_secs (as_secs (Z.to_N (e - UNIX_EPOCH)))) = Some (whole_seconds e)).
    { unfold UNIX_EPOCH. rewrite Z.sub_0_r. unfold time_checked_add. rewrite Z.add_0_l. fold (whole_seconds e).
      by rewrite (in_range_le (whole_seconds e) e). }
    cbn [pc_expires_unix_seconds pc_same_site]. rewrite Hadd. unfold reloaded. rewrite He. simpl.
    rewrite Hsv. replace (e <? UNIX_EPOCH)%Z with false by (symmetry; apply Z.ltb_ge; exact H0). simpl.
    destruct (whole_seconds e <=? now)%Z; [done|].
    rewrite (proj2 (Z.ltb_ge _ _)) by lia. by rewrite decode_same_site_tag.
  - unfold from_cookie in Hf. unfold reloaded. destruct (expires_at c) as [e|]; [|done]. simpl in *.
    destruct (e <=? saved)%Z; [done|]. unfold duration_since in Hf.
    destruct (Z.leb_spec UNIX_EPOCH e) as [|He]; [done|]. by rewrite (proj2 (Z.ltb_lt _ _) He).
Qed.

(** ** The whole file *)

(** What the loop has read, as a function of the cookies. *)
Record reads (ld : Loaded) : Prop := {
  rd_identities : forall i, i ∈ ld_identities ld <-> i ∈ identity <$> ld_cookies ld;
  rd_counts : forall d, default 0%N (ld_domain_counts ld !! d) = domain_count d (ld_cookies ld);
  rd_creations : forall n, n ∈ ld_creations ld <-> n ∈ creation <$> ld_cookies ld
}.

Lemma load_one_pushes saved now (ld : Loaded) c (p : PersistedCookie) :
  reads ld -> into_cookie p now = Ok (Some c) ->
  identity c ∉ identity <$> ld_cookies ld -> creation c ∉ creation <$> ld_cookies ld ->
  (domain_count (cookie_domain c) (ld_cookies ld ++ [c]) <= MAX_COOKIES_PER_DOMAIN)%N ->
  exists ld', load_one now ld p = Ok ld' /\ reads ld' /\ ld_cookies ld' = ld_cookies ld ++ [c] /\
    ld_greatest ld' = N.max (ld_greatest ld) (creation c).
Proof.
  intros [Hi Hd Hc] Hp Hid Hcr Hcount. unfold load_one. rewrite Hp. simpl.
  rewrite domain_count_snoc, String.eqb_refl, <- Hd in Hcount.
  rewrite bool_decide_eq_false_2 by (by rewrite Hi). rewrite bool_decide_eq_false_2 by (by rewrite Hc).
  rewrite (proj2 (N.ltb_ge _ _)) by done. simpl. eexists. split; [done|]. split_and!; [|done..].
  split; simpl.
  - intros i. rewrite fmap_app, elem_of_app, elem_of_union, elem_of_singleton, Hi.
    change (identity <$> [c]) with [identity c]. rewrite list_elem_of_singleton. tauto.
  - intros d. rewrite domain_count_snoc. destruct (String.eqb_spec (cookie_domain c) d) as [<-|Hne].
    + by rewrite lookup_insert_eq, <- Hd.
    + rewrite lookup_insert_ne by done. rewrite Hd. lia.
  - intros n. rewrite fmap_app, elem_of_app, elem_of_union, elem_of_singleton, Hc.
    change (creation <$> [c]) with [creation c]. rewrite list_elem_of_singleton. tauto.
Qed.

Lemma reloaded_same saved now c d :
  reloaded saved now c = Some d ->
  identity d = identity c /\ creation d = creation c /\ cookie_domain d = cookie_domain c.
Proof.
  unfold reloaded. intros (e & _ & H)%bind_Some. destruct (_ || _); [done|]. by injection H as <-.
Qed.

(** The collection of [l] after the cookies [k]: no clash and no full domain. *)
Record fits (k l : list StoredCookie) : Prop := {
  fit_identities : NoDup (identity <$> (k ++ l));
  fit_creations : NoDup (creation <$> (k ++ l));
  fit_domains : forall d, (domain_count d (k ++ l) <= MAX_COOKIES_PER_DOMAIN)%N
}.

Lemma fits_skip (k l : list StoredCookie) c : fits k (c :: l) -> fits k l.
Proof.
  intros [Hi Hc Hd]. assert (Hs : (k ++ l) `sublist_of` (k ++ c :: l)).
  { apply sublist_app; [done|]. by apply sublist_cons. }
  split.
  - eapply sublist_NoDup; [exact Hi|]. by apply fmap_sublist.
  - eapply sublist_NoDup; [exact Hc|]. by apply fmap_sublist.
  - intros d. etrans; [by apply domain_count_sublist|apply Hd].
Qed.

Lemma domain_count_app (domain : string) (k l : list StoredCookie) :
  domain_count domain (k ++ l) = (domain_count domain k + domain_count domain l)%N.
Proof. unfold domain_count. rewrite filter_app, length_app. lia. Qed.

Lemma domain_count_cons (domain : string) (l : list StoredCookie) c :
  domain_count domain (c :: l) = ((if String.eqb (cookie_domain c) domain then 1 else 0) + domain_count domain l)%N.
Proof. change (c :: l) with ([] ++ [c] ++ l). rewrite app_assoc, domain_count_app, domain_count_snoc. done. Qed.

Lemma fits_push (k l : list StoredCookie) c d :
  identity d = identity c -> creation d = creation c -> cookie_domain d = cookie_domain c ->
  fits k (c :: l) ->
  fits (k ++ [d]) l /\ (identity d ∉ identity <$> k) /\ (creation d ∉ creation <$> k) /\
  (domain_count (cookie_domain d) (k ++ [d]) <= MAX_COOKIES_PER_DOMAIN)%N.
Proof.
  intros Hid Hcr Hdom [Hi Hc Hd]. split_and!.
  - split.
    + rewrite <- app_assoc. rewrite !fmap_app in *. cbn [fmap list_fmap app] in *. by rewrite Hid.
    + rewrite <- app_assoc. rewrite !fmap_app in *. cbn [fmap list_fmap app] in *. by rewrite Hcr.
    + intros domain. rewrite domain_count_app, domain_count_snoc, Hdom. specialize (Hd domain).
      rewrite domain_count_app, domain_count_cons in Hd. lia.
  - rewrite Hid. rewrite fmap_app, NoDup_app in Hi. destruct Hi as (_ & Hi & _). intros Hin. apply (Hi _ Hin).
    simpl. constructor.
  - rewrite Hcr. rewrite fmap_app, NoDup_app in Hc. destruct Hc as (_ & Hc & _). intros Hin. apply (Hc _ Hin).
    simpl. constructor.
  - rewrite Hdom, domain_count_snoc, Hdom, String.eqb_refl. specialize (Hd (cookie_domain c)).
    rewrite domain_count_app, domain_count_cons, String.eqb_refl in Hd. lia.
Qed.

Lemma load_all_reads (clock : nat -> SystemTime) now (ld : Loaded) (l : list StoredCookie) (bound : N) :
  reads ld -> fits (ld_cookies ld) l -> (ld_greatest ld < bound)%N ->
  Forall (fun c => cookie_ok c /\ (1 <= creation c < bound)%N /\ storable now c) l ->
  exists ld', load_all now ld (omap id (imap (fun i c => from_cookie (clock i) c) l)) = Ok ld' /\
    ld_cookies ld' = ld_cookies ld ++ omap id (imap (fun i c => reloaded (clock i) now c) l) /\
    (ld_greatest ld' < bound)%N.
Proof.
  revert clock ld. induction l as [|c l IH]; intros clock ld Hld Hfits Hg Hall.
  { exists ld. simpl. by rewrite app_nil_r. }
  apply Forall_cons in Hall as [(Hok & [Hcr Hb] & Hst) Hall]. rewrite !imap_cons. cbn [omap list_omap].
  pose proof (into_from_cookie (clock 0) now c Hok Hcr Hst) as Hone.
  destruct (from_cookie (clock 0) c) as [p|] eqn:Hf; cbn [id].
  - cbn [load_all]. destruct (reloaded (clock 0) now c) as [d|] eqn:Hr; cbn [id].
    + apply reloaded_same in Hr as (Hid & Hcd & Hdom).
      destruct (fits_push _ _ _ _ Hid Hcd Hdom Hfits) as (Hfits' & Hni & Hnc & Hcount).
      destruct (load_one_pushes (clock 0) now ld d p Hld Hone Hni Hnc Hcount) as (ld1 & Hl1 & Hld1 & Hc1 & Hg1).
      rewrite Hl1. simpl. rewrite <- Hc1 in Hfits'.
      destruct (IH (fun i => clock (S i)) ld1 Hld1 Hfits') as (ld' & Hl' & Hc' & Hg'); [lia|done|].
      exists ld'. split_and!; [exact Hl'| |done]. rewrite Hc', Hc1, <- app_assoc. done.
    + unfold load_one. rewrite Hone. simpl.
      apply (IH (fun i => clock (S i)) ld Hld); [by eapply fits_skip|done..].
  - rewrite Hone. cbn [id]. apply (IH (fun i => clock (S i)) ld Hld); [by eapply fits_skip|done..].
Qed.

(** The jar a saved file stands for when it is loaded at [now]. *)
Definition reloaded_state (clock : nat -> SystemTime) now st : CookieState :=
  mkCookieState (omap id (imap (fun i c => reloaded (clock i) now c) (cookies st)))
    (next_creation st) (jar_version st).

Lemma length_omap_imap {A B} (f : nat -> A -> option B) (l : list A) :
  length (omap id (imap f l)) <= length l.
Proof.
  revert f. induction l as [|x l IH]; intros f; [done|]. rewrite imap_cons. cbn [omap list_omap].
  specialize (IH (f ∘ S)). destruct (f 0 x); simpl in *; lia.
Qed.

(** Saving and loading a jar of storable cookies gives back every persistent
    cookie that is still alive, with its expiry in whole seconds, in the same
    order and with the same version and numbering; session cookies are gone. *)
Lemma jar_round_trip (clock : nat -> SystemTime) now st :
  jar_ok st -> (next_creation st <= u64_max)%N -> jar_version st <> 0%N -> Forall (storable now) (cookies st) ->
  into_state (persisted_jar clock st) now = Ok (reloaded_state clock now st).
Proof.
  intros Hst Hnext Hv Hall. pose proof Hst as [Hid Hok Hd Ht Hcr Hn Hpos]. unfold into_state, persisted_jar. simpl.
  rewrite (proj2 (N.eqb_neq _ _) Hv), (proj2 (N.eqb_neq (next_creation st) 0)) by lia.
  pose proof (length_omap_imap (fun i c => from_cookie (clock i) c) (cookies st)).
  rewrite (proj2 (N.ltb_ge _ _)) by lia. simpl.
  destruct (load_all_reads clock now nothing_loaded (cookies st) (next_creation st)) as (ld & -> & Hc & Hg).
  - split; simpl; [set_solver| |set_solver]. intros d. by rewrite lookup_empty.
  - by split.
  - simpl. lia.
  - rewrite Forall_forall in *. naive_solver.
  - simpl. unfold reloaded_state. rewrite Hc. simpl. f_equal. f_equal.
    assert (checked_add (ld_greatest ld) 1 = Some (ld_greatest ld + 1)%N) as -> by (apply checked_add_Some; lia).
    simpl. lia.
Qed.

(** ** The file *)
Context {JL : CookieJsonLaws}.

(** The profile's file, or its backup when there is none, stands for [st]. *)
Definition jar_file (path : Path) now (d : gmap Path File) st : Prop :=
  match stored (backup_path path) path d with
  | Some f => synced f = true /\ decode_jar (content f) now = Ok st
  | None => st = CookieState_default
  end.

Lemma cookie_load_file_runs now (p : Path) (d : gmap Path File) :
  cookie_load_file now p (mkWorld d []) =
  (mkWorld d [], Done (match d !! p with None => Ok None | Some f => Some <$> decode_jar (content f) now end)).
Proof.
  unfold cookie_load_file, mbind, io_bind, fs_read, fs_call. simpl. by destruct (d !! p).
Qed.

Lemma cookie_load_runs now (p : Path) (d : gmap Path File) st :
  jar_file p now d st -> cookie_load now p (mkWorld d []) = (mkWorld d [], Done (Ok st)).
Proof.
  unfold jar_file, stored, cookie_load, mbind, io_bind. rewrite cookie_load_file_runs.
  destruct (d !! p) as [f|]; [intros [_ Hd]; by rewrite Hd|].
  unfold io_try, mbind, io_bind. rewrite cookie_load_file_runs.
  destruct (d !! backup_path p) as [f|]; [intros [_ Hd]; by rewrite Hd|by intros ->].
Qed.

Lemma encode_decode_jar (clock : nat -> SystemTime) now st bytes :
  into_state (persisted_jar clock st) now = Ok (reloaded_state clock now st) ->
  encode_jar (persisted_jar clock st) = Ok bytes -> decode_jar bytes now = Ok (reloaded_state clock now st).
Proof.
  intros Hround. unfold encode_jar, decode_jar. intros He. apply bind_Ok in He as (b & Hb & He).
  destruct (_ <? _)%N eqn:Hl; [done|]. injection He as ->. rewrite Hl, (jar_json_round_trip _ _ Hb). done.
Qed.

(** The cookie file is replaced atomically, for a jar of cookies the reader
    accepts ([unreadable_cookie_loses_jar] is about the others). On any schedule
    of failures and at any crash point, a later load gives the saved jar when
    [save] answered [Ok], the jar that was there before when it answered an
    error, and one of the two when the machine stopped, unless a query for the
    file failed and the older backup took its place. *)
Theorem cookie_save_durable (pid : N) (clock : nat -> SystemTime) now (path : Path) st old (w : World) :
  saver_names pid "bak" path -> jar_file path now (disk w) old ->
  jar_ok st -> (next_creation st <= u64_max)%N -> jar_version st <> 0%N -> Forall (storable now) (cookies st) ->
  let '(w', out) := cookie_save pid clock path st w in
  (reverts (backup_path path) path w w' /\ forall u, out <> Done (Ok u)) \/
  exists kept,
    match out with
    | Done (Ok _) => kept = reloaded_state clock now st
    | Done (Err _) => kept = old
    | Crashed => kept = old \/ kept = reloaded_state clock now st
    end /\
    forall d, d = disk w' \/ after_crash (disk w') d ->
      cookie_load now path (mkWorld d []) = (mkWorld d [], Done (Ok kept)).
Proof.
  intros Hn Hold Hst Hnext Hv Hall.
  assert (Hround : into_state (persisted_jar clock st) now = Ok (reloaded_state clock now st))
    by (by apply jar_round_trip).
  pose proof (encode_decode_jar clock now st) as Hcodec.
  assert (Hs : forall f, stored (backup_path path) path (disk w) = Some f -> synced f = true).
  { intros f Hf. unfold jar_file in Hold. rewrite Hf in Hold. apply Hold. }
  assert (Hstay : forall d, stored (backup_path path) path d = stored (backup_path path) path (disk w) ->
    jar_file path now d old) by (intros d Hd; unfold jar_file; by rewrite Hd).
  unfold cookie_save, io_try, mbind, io_bind, mret, io_ret.
  destruct (encode_jar (persisted_jar clock st)) as [bytes|e]; simpl.
  - assert (Hnew : forall d, stored (backup_path path) path d = Some (mkFile bytes true) ->
      jar_file path now d (reloaded_state clock now st)).
    { intros d Hd. unfold jar_file. rewrite Hd. simpl. split; [done|]. by apply Hcodec. }
    unfold cookie_write_recoverable. destruct Hn as ([dir Hdir] & Hn'). rewrite Hdir.
    pose proof (write_recoverable_contract pid path bytes (conj (ex_intro _ dir Hdir) Hn') w Hs) as Hc.
    destruct (write_recoverable pid path bytes w) as [w' out].
    destruct Hc as [Hc|(kept & Hk & Hc)]; [by left|right].
    destruct out as [[u|e]|];
      [eexists (reloaded_state _ _ _)|exists old|destruct Hk as [Hk|Hk]; [exists old|eexists (reloaded_state _ _ _)]];
      (split; [auto|]); intros d Hd; apply cookie_load_runs; specialize (Hc d Hd);
      first [apply Hnew; congruence|apply Hstay; congruence].
  - right. exists old. split; [done|]. intros d Hd. apply cookie_load_runs, Hstay.
    destruct Hd as [->|Hd]; [done|]. by apply stored_after_crash.
Qed.

(** An operation on the store: the jar in memory takes the section's state even
    when its save fails, and a poisoned lock is an error that changes nothing. *)
Lemma with_lock_cases {A} (pid : N) (clock : nat -> SystemTime) (store : CookieStore)
    (section : CookieState -> CookieState * (A * bool)) (w w' : World) store' answer :
  with_lock pid clock store section w = (w', Done (store', answer)) ->
  (jar_poisoned store = true /\ w' = w /\ store' = store /\ answer = Err "HTTP cookie jar is unavailable") \/
  (jar_poisoned store = false /\
   jar_state store' = (section (jar_state store)).1 /\ jar_path store' = jar_path store /\
   ((section (jar_state store)).2.2 = false -> w' = w) /\
   forall a, answer = Ok a -> a = (section (jar_state store)).2.1).
Proof.
  unfold with_lock, jar_lock. destruct (jar_poisoned store) eqn:Hp.
  { intros [= <- <- <-]. by left. }
  destruct (section (jar_state store)) as [st [a changed]]. unfold mbind, io_bind, mret, io_ret.
  intros Hrun. right. split; [done|]. simpl. destruct changed.
  - destruct (persist pid clock _ w) as [w1 [[u|e]|]]; simplify_eq; split_and!; try done; naive_solver.
  - simplify_eq. split_and!; try done. naive_solver.
Qed.
End theory.

(** ** Cookies that make the file unreadable *)
Section unreadable.
Context {URL : UrlLib} {SUFFIXES : PublicSuffixes} {JSON : CookieJson}.

(** One cookie that fails the check fails the file, whatever else is in it. *)
Lemma load_all_invalid (now : SystemTime) (ld : Loaded) (l : list PersistedCookie) (p : PersistedCookie) :
  p ∈ l -> is_invalid p = true -> exists e, load_all now ld l = Err e.
Proof.
  intros Hp Hv. revert ld. induction Hp as [p l|p q l Hp IH]; intros ld; simpl.
  - unfold load_one, into_cookie. rewrite Hv. by eexists.
  - destruct (load_one now ld q) as [ld'|e]; simpl; [by apply IH|by eexists].
Qed.

Lemma into_state_invalid (j : PersistedJar) (now : SystemTime) (p : PersistedCookie) :
  p ∈ pj_cookies j -> is_invalid p = true -> exists e, into_state j now = Err e.
Proof.
  intros Hp Hv. unfold into_state. destruct (_ || _); [by eexists|].
  destruct (load_all_invalid now nothing_loaded _ _ Hp Hv) as [e ->]. by eexists.
Qed.

Lemma persisted_elem (clock : nat -> SystemTime) (st : CookieState) (i : nat) c (p : PersistedCookie) :
  cookies st !! i = Some c -> from_cookie (clock i) c = Some p -> p ∈ pj_cookies (persisted_jar clock st).
Proof.
  intros Hi Hp. unfold persisted_jar. simpl. apply list_elem_of_omap. exists (Some p). split; [|done].
  apply list_elem_of_lookup. exists i. by rewrite list_lookup_imap, Hi, <- Hp.
Qed.

(** What the reader refuses and the parser does not: a tab in the value, a path
    of more than 1024 bytes, a domain that ends in a dot. *)
Definition unreadable (c : StoredCookie) : Prop :=
  existsb (N.eqb 9) (bytes (cookie_value c)) = true \/
  (1024 < byte_length (cookie_path c))%N \/
  StrOps.ends_with "." (cookie_domain c) = true.

Lemma unreadable_is_invalid saved c (p : PersistedCookie) :
  unreadable c -> from_cookie saved c = Some p -> is_invalid p = true.
Proof.
  intros Hu. unfold from_cookie. intros (e & _ & H)%bind_Some. destruct (e <=? saved)%Z; [done|].
  apply bind_Some in H as (since & _ & [= <-]). unfold is_invalid.
  cbn [pc_name pc_value pc_domain pc_path pc_secure pc_host_only pc_same_site pc_creation].
  destruct Hu as [Hu|[Hu|Hu]].
  - assert (existsb bad_text_byte (bytes (cookie_name c) ++ bytes (cookie_value c)) = true) as ->.
    { rewrite existsb_app, orb_true_iff. right. apply existsb_exists in Hu as (b & Hb & <-%N.eqb_eq).
      apply existsb_exists. by exists 9%N. }
    by rewrite !orb_true_r.
  - rewrite (proj2 (N.ltb_lt _ _) Hu). by rewrite !orb_true_r, ?orb_true_l.
  - rewrite Hu. by rewrite !orb_true_r, ?orb_true_l.
Qed.

(** One such cookie loses the jar: while it is alive, the file the browser
    writes is one the browser refuses to read, whenever it reads it and whatever
    the other cookies are. *)
Theorem unreadable_cookie_loses_jar (clock : nat -> SystemTime) (now : SystemTime) (st : CookieState) (i : nat)
    c (e : SystemTime) bytes :
  cookies st !! i = Some c -> unreadable c -> expires_at c = Some e -> (UNIX_EPOCH <= e)%Z -> (clock i < e)%Z ->
  encode_jar (persisted_jar clock st) = Ok bytes ->
  forall {JL : CookieJsonLaws}, exists message, decode_jar bytes now = Err message.
Proof.
  intros Hi Hu He H0 Hlive Henc JL. unfold encode_jar in Henc. apply bind_Ok in Henc as (b & Hb & Henc).
  unfold decode_jar. destruct (_ <? _)%N eqn:Hl; [done|]. injection Henc as ->. rewrite Hl.
  rewrite (jar_json_round_trip _ _ Hb). simpl.
  destruct (from_cookie (clock i) c) as [p|] eqn:Hp.
  - eapply into_state_invalid; [by eapply persisted_elem|by eapply unreadable_is_invalid].
  - unfold from_cookie in Hp. rewrite He in Hp. simpl in Hp. rewrite (proj2 (Z.leb_gt _ _) Hlive) in Hp.
    unfold duration_since in Hp. by rewrite (proj2 (Z.leb_le _ _) H0) in Hp.
Qed.
End unreadable.

(** ** Runs *)

(** A serialiser of one jar. *)
Definition one_jar_json (j : PersistedJar) : CookieJson := {|
  jar_to_vec k := if decide (k = j) then Ok [x01] else Err "unsupported";
  jar_from_slice bytes := match bytes with [x01] => Ok j | _ => Err "unsupported" end
|}.

Lemma one_jar_json_laws (j : PersistedJar) : @CookieJsonLaws (one_jar_json j).
Proof. intros k bytes. simpl. case_decide as Hk; [|done]. intros [= <-]. by rewrite Hk. Qed.

Definition cookie_file : Path := mkPath (Some "profile") "cookies" (Some "json").
Definition demo_clock (i : nat) : SystemTime := 5.

(** The conditions of [storable], by computation. *)
Ltac run_storable :=
  split;
  [ split_and!; [discriminate|vm_compute; discriminate|vm_refl|vm_refl]
  | split_and!; vm_refl
  | split; [vm_refl|vm_compute; discriminate]
  | vm_refl
  | discriminate
  | intros e [= <-]; split; first [vm_refl|vm_compute; discriminate] ].

Lemma demo_jar_storable : Forall (storable 6) (cookies demo_jar).
Proof.
  assert (Hc : cookies demo_jar =
    [session_cookie;
     mkCookie "theme" "dark" "shop.test" "/" false false false SameSiteDefault (Some 60000000001%Z) 2;
     mkCookie "csrf" "1" "shop.test" "/cart" true true false Strict None 3]) by vm_refl.
  rewrite Hc. repeat (apply Forall_cons; split); [run_storable..|constructor].
Qed.

(** The machine stops while the new file is put in place, and it is. *)
Lemma cookie_save_durable_witness :
  let w := mkWorld ∅ (replicate 5 Proceed ++ [CrashAfter]) in
  let json := one_jar_json (persisted_jar demo_clock demo_jar) in
  let '(w', out) := @cookie_save json 7 demo_clock cookie_file demo_jar w in
  (reverts (backup_path cookie_file) cookie_file w w' /\ forall u, out <> Done (Ok u)) \/
  exists kept,
    match out with
    | Done (Ok _) => kept = reloaded_state demo_clock 6 demo_jar
    | Done (Err _) => kept = CookieState_default
    | Crashed => kept = CookieState_default \/ kept = reloaded_state demo_clock 6 demo_jar
    end /\
    forall d, d = disk w' \/ after_crash (disk w') d ->
      @cookie_load demo_suffixes json 6 cookie_file (mkWorld d []) = (mkWorld d [], Done (Ok kept)).
Proof.
  apply (@cookie_save_durable demo_suffixes (one_jar_json (persisted_jar demo_clock demo_jar))
           (one_jar_json_laws _) 7 demo_clock 6 cookie_file).
  - split_and!; first [done|by eexists].
  - reflexivity.
  - apply demo_jar_ok.
  - vm_compute. discriminate.
  - vm_compute. discriminate.
  - apply demo_jar_storable.
Defined.

Definition tab : string := String "009" EmptyString.
Definition tab_jar : CookieState :=
  (store_response_cookie demo_jar 4 4 site_request ("note=a" +:+ tab +:+ "b; Max-Age=60")).1.
Definition long_path : string := "/" +:+ of_bytes (replicate 1024 97%N).
Definition long_path_cookie : option StoredCookie :=
  demo_parse ("https://shop.test" +:+ long_path +:+ "/x") "id=1; Max-Age=60" true.

(** The parser accepts all three, and the jar with the tab is written and lost. *)
Lemma unreadable_cookie_loses_jar_witness :
  ((fun c => 1024 <? byte_length (cookie_path c))%N <$> long_path_cookie) = Some true /\
  ((fun c => StrOps.ends_with "." (cookie_domain c))
     <$> demo_parse "https://shop.test./" "id=1; Max-Age=60" true) = Some true /\
  exists message, @decode_jar demo_suffixes (one_jar_json (persisted_jar demo_clock tab_jar)) [x01] 6 = Err message.
Proof.
  split_and!; [vm_refl..|].
  apply (unreadable_cookie_loses_jar demo_clock 6 tab_jar 3
           (mkCookie "note" ("a" +:+ tab +:+ "b") "shop.test" "/" false true false SameSiteDefault
              (Some 60000000004%Z) 4) 60000000004%Z [x01]).
  - vm_refl.
  - left. vm_refl.
  - reflexivity.
  - done.
  - done.
  - vm_refl.
  - apply one_jar_json_laws.
Defined.
