(* ===== verification/Snapshots.v ===== *)
(** * Snapshots: loading and saving a whole store

    src/indexed_db/persistence.rs and src/cache_storage/persistence.rs are the
    same program up to the error type, the names and the format check; this file
    is that program with those as parameters. Its contract, [snapshot_saves],
    is what both stores' durability rests on: after a save, and after a crash
    during one, loading gives the new state or the old one. *)

From Stdlib Require Import Strings.Byte.
From S2P Require Import Prelude Fs.

Section snapshots.
Context {E State : Type}.
Variables (persistence : string -> E) (quota : E).
Variable max_file_bytes : N.
(** [serde_json::from_slice], the format check and [validate]. *)
Variable decode : list byte -> result E State.
Variable default_state : State.
Variables (no_parent backup_extension : string).
Variable pid : N.

Definition backup (p : Path) : Path := with_extension backup_extension p.

Definition decode_file (bytes : list byte) : result E State :=
  if (max_file_bytes <? N.of_nat (length bytes))%N then Err quota else decode bytes.

Definition read (p : Path) : io (result E (option State)) :=
  opened ← file_open p;
  match opened with
  | Err e => match error_kind e with
             | NotFound => mret (Ok None)
             | OtherKind => mret (Err (persistence (error_text e)))
             end
  | Ok _ =>
      bytes ←? io_map_err (fun e => persistence (error_text e)) (read_limited p (max_file_bytes + 1));
      mret (Some <$> decode_file bytes)
  end.

Definition load (p : Path) : io (result E State) :=
  primary ← read p;
  match primary with
  | Ok (Some state) => mret (Ok state)
  | Ok None => state ←? read (backup p); mret (Ok (default default_state state))
  | Err primary => state ←? read (backup p); mret (ok_or state primary)
  end.

(** [encoded] is what [serde_json::to_vec] returned. *)
Definition write (p : Path) (encoded : result string (list byte)) : io (result E ()) :=
  bytes ←? mret (map_err persistence encoded);
  if (max_file_bytes <? N.of_nat (length bytes))%N then mret (Err quota)
  else write_snapshot pid persistence no_parent backup_extension p bytes.

(** ** Theory *)
Definition holds (p : Path) (d : gmap Path File) (st : State) : Prop :=
  match stored (backup p) p d with
  | Some f => synced f = true /\ decode_file (content f) = Ok st
  | None => st = default_state
  end.

Lemma decode_file_take bytes (st : State) :
  decode_file bytes = Ok st -> take (N.to_nat (max_file_bytes + 1)) bytes = bytes.
Proof.
  unfold decode_file. destruct (N.ltb_spec max_file_bytes (N.of_nat (length bytes))); [done|].
  intros _. apply take_ge. lia.
Qed.

Lemma read_runs (p : Path) (d : gmap Path File) :
  read p (mkWorld d []) =
  (mkWorld d [], Done (match d !! p with
                       | None => Ok None
                       | Some f => Some <$> decode_file (take (N.to_nat (max_file_bytes + 1)) (content f))
                       end)).
Proof.
  unfold read, mbind, io_bind, file_open, fs_call. simpl.
  destruct (d !! p) as [f|] eqn:Hp; simpl; [|done].
  unfold io_try, io_map_err, mbind, io_bind, read_limited, fs_call. simpl. by rewrite Hp.
Qed.

Lemma load_runs (p : Path) (d : gmap Path File) (st : State) :
  holds p d st -> load p (mkWorld d []) = (mkWorld d [], Done (Ok st)).
Proof.
  unfold holds, stored, load, mbind, io_bind. rewrite read_runs.
  destruct (d !! p) as [f|].
  - intros [_ Hd]. by rewrite (decode_file_take _ _ Hd), Hd.
  - unfold io_try, mbind, io_bind. rewrite read_runs.
    destruct (d !! backup p) as [f|]; [|by intros ->].
    intros [_ Hd]. by rewrite (decode_file_take _ _ Hd), Hd.
Qed.

Lemma holds_stays (p : Path) (d d' : gmap Path File) (st : State) :
  holds p d st -> d' = d \/ after_crash d d' -> holds p d' st.
Proof.
  intros Hd [->|Hc]; [done|]. unfold holds in *.
  rewrite (stored_after_crash _ _ _ _ (ltac:(intros f Hf; rewrite Hf in Hd; apply Hd)) Hc). done.
Qed.

Lemma write_runs (p : Path) (bytes : list byte) (d : gmap Path File) :
  saver_names pid backup_extension p -> (N.of_nat (length bytes) <= max_file_bytes)%N ->
  (write p (Ok bytes) (mkWorld d [])).2 = Done (Ok tt).
Proof.
  intros Hn Hl. unfold write, io_try, mbind, io_bind, mret, io_ret. simpl.
  rewrite (proj2 (N.ltb_ge _ _)) by done. by apply write_snapshot_runs.
Qed.

(** What one save leaves, on any schedule and after any crash. *)
Definition left_by_save (p : Path) (encoded : result string (list byte)) (old new : State)
    (w w' : World) (out : outcome (result E ())) : Prop :=
  (reverts (backup p) p w w' /\ forall u, out <> Done (Ok u)) \/
  exists st,
    match out with
    | Done (Ok _) => st = new
    | Done (Err _) => st = old
    | Crashed => st = old \/ (st = new /\ (write p encoded (mkWorld (disk w) [])).2 = Done (Ok tt))
    end /\
    forall d, d = disk w' \/ after_crash (disk w') d -> holds p d st.

Lemma snapshot_saves (p : Path) (encoded : result string (list byte)) (old new : State) (w : World) :
  saver_names pid backup_extension p -> holds p (disk w) old ->
  (forall bytes, encoded = Ok bytes -> (N.of_nat (length bytes) <= max_file_bytes)%N ->
     decode bytes = Ok new) ->
  let '(w', out) := write p encoded w in left_by_save p encoded old new w w' out.
Proof.
  intros Hn Hd Hdec. unfold left_by_save.
  assert (Hstay : forall d, d = disk w \/ after_crash (disk w) d -> holds p d old)
    by (intros d; by apply holds_stays).
  destruct encoded as [bytes|e]; [|by right; eauto].
  pose proof (write_runs p bytes (disk w) Hn) as Hruns.
  unfold write, io_try, mbind, io_bind, mret, io_ret in *. simpl in *.
  destruct (N.ltb_spec max_file_bytes (N.of_nat (length bytes))) as [Hl|Hl]; [by right; eauto|].
  specialize (Hruns Hl).
  assert (Hnew : forall d, stored (backup p) p d = Some (mkFile bytes true) -> holds p d new).
  { intros d Hs. unfold holds. rewrite Hs. simpl. split; [done|]. unfold decode_file.
    rewrite (proj2 (N.ltb_ge _ _)) by done. by apply Hdec. }
  assert (Hold : forall d, stored (backup p) p d = stored (backup p) p (disk w) -> holds p d old).
  { intros d Hs. unfold holds. by rewrite Hs. }
  assert (Hs : forall f, stored (backup p) p (disk w) = Some f -> synced f = true).
  { intros f Hf. unfold holds in Hd. rewrite Hf in Hd. apply Hd. }
  pose proof (write_snapshot_contract persistence no_parent _ _ _ bytes Hn w Hs) as Hc.
  destruct (write_snapshot _ _ _ _ _ _ w) as [w' out].
  destruct Hc as [Hc|(kept & Hk & Hc)]; [by left|right].
  destruct out as [[u|e]|]; [exists new|exists old|destruct Hk as [Hk|Hk]; [exists old|exists new]];
    (split; [auto|]); intros d Hd'; specialize (Hc d Hd'); unfold backup in *;
    first [apply Hnew; congruence|apply Hold; congruence].
Qed.
End snapshots.
