(* ===== verification/WebStorage.v ===== *)
(** * WebStorage: storage strings, mutations and one origin's area

    src/storage/string.rs, the data types of src/storage.rs, and
    src/storage/area.rs. A [StorageAreaState] is one origin's versioned map;
    [StorageAreaState_apply] is its only mutator. *)

From S2P Require Import Prelude Text OrderedMap Limits.

(** ** StorageString (src/storage/string.rs) *)

(** UTF-16 code units; [quota_bytes] is cached by the Rust type and never set
    to anything else, so here it is a function of the units. *)
Record StorageString := from_units { units : list N }.

#[global] Instance StorageString_eq_dec : EqDecision StorageString.
Proof. solve_decision. Defined.
#[global] Instance units_inj : Inj (=) (=) units.
Proof. by intros [u] [v]; simpl; intros ->. Qed.
(** The derived [Ord]: by the units. *)
#[global] Instance StorageString_cmp : TotalCmp StorageString := cmp_on units.
#[global] Instance StorageString_cmp_laws : TotalCmpLaws StorageString.
Proof. apply cmp_on_laws. Qed.
#[global] Instance StorageString_cmp_eq : CmpEq StorageString.
Proof. apply (cmp_on_eq units). Qed.

(** The loop of [quota_bytes], with its two local variables. *)
Fixpoint quota_bytes_loop (bytes : N) (preceding_high : bool) (units : list N) : N :=
  match units with
  | [] => bytes
  | unit :: units =>
      (if unit <=? 0x7f then quota_bytes_loop (bytes + 1) false units
       else if unit <=? 0x7ff then quota_bytes_loop (bytes + 2) false units
       else
         quota_bytes_loop
           (bytes + if preceding_high && is_low unit then 1 else 3)
           (is_high unit) units)%N
  end.

Definition quota_bytes (units : list N) : N := quota_bytes_loop 0 false units.

Definition byte_len (s : StorageString) : N := quota_bytes (units s).

(** [impl From<&str> for StorageString]. *)
Definition StorageString_from (s : string) : StorageString := from_units (encode_utf16 s).

(** [Serialize] and [Deserialize]: a JSON string when the units are valid
    UTF-16, and otherwise the list of code units. The untagged [StoredString]
    keeps the two forms apart. *)
Inductive StoredString :=
  | Text (text : string)
  | Units (units : list N).

Definition StorageString_serialize (s : StorageString) : StoredString :=
  match from_utf16 (units s) with
  | Some value => Text value
  | None => Units (units s)
  end.

Definition StorageString_deserialize (stored : StoredString) : StorageString :=
  match stored with
  | Text text => StorageString_from text
  | Units units => from_units units
  end.

(** ** Data of src/storage.rs *)
Inductive StorageAreaKind := LocalArea | SessionArea.
#[global] Instance StorageAreaKind_eq_dec : EqDecision StorageAreaKind.
Proof. solve_decision. Defined.

Record StorageEntry := mkEntry { entry_key : StorageString; entry_value : StorageString }.
#[global] Instance StorageEntry_eq_dec : EqDecision StorageEntry.
Proof. solve_decision. Defined.

Record StorageAreaSnapshot := mkSnapshot {
  snapshot_version : N;
  snapshot_entries : list StorageEntry
}.
#[global] Instance StorageAreaSnapshot_eq_dec : EqDecision StorageAreaSnapshot.
Proof. solve_decision. Defined.

Inductive StorageOperation :=
  | Set_ (key value : StorageString)
  | Remove (key : StorageString)
  | Clear.
#[global] Instance StorageOperation_eq_dec : EqDecision StorageOperation.
Proof. solve_decision. Defined.

Record StorageMutation := mkMutation {
  area : StorageAreaKind;
  expected_version : N;
  operation : StorageOperation
}.
#[global] Instance StorageMutation_eq_dec : EqDecision StorageMutation.
Proof. solve_decision. Defined.

Inductive StorageError :=
  | Invalid (field : string)
  | QuotaExceeded
  | Stale (snapshot : StorageAreaSnapshot)
  | Persistence (detail : string).
#[global] Instance StorageError_eq_dec : EqDecision StorageError.
Proof. solve_decision. Defined.

(** [impl Display for StorageError]. *)
Definition StorageError_to_string (e : StorageError) : string :=
  match e with
  | Invalid field => "invalid " +:+ field
  | QuotaExceeded => "Web Storage quota exceeded"
  | Stale _ => "Web Storage snapshot is stale"
  | Persistence detail => "persist Web Storage: " +:+ detail
  end.

Definition validate_bytes (bytes : N) : result StorageError () :=
  if (MAX_STORAGE_BYTES_PER_ORIGIN <? bytes)%N then Err QuotaExceeded else Ok tt.

Definition StorageEntry_validate (e : StorageEntry) : result StorageError () :=
  validate_bytes (saturating_add (byte_len (entry_key e)) (byte_len (entry_value e))).

Definition StorageAreaSnapshot_empty : StorageAreaSnapshot := mkSnapshot 1 [].

(** The loop of [StorageAreaSnapshot::validate]. *)
Fixpoint snapshot_total (total : N) (entries : list StorageEntry) : result StorageError N :=
  match entries with
  | [] => Ok total
  | e :: entries =>
      _ ← StorageEntry_validate e;
      total ← ok_or (checked_add total (byte_len (entry_key e))
                       ≫= fun value => checked_add value (byte_len (entry_value e)))
                    QuotaExceeded;
      snapshot_total total entries
  end.

Definition StorageAreaSnapshot_validate (s : StorageAreaSnapshot) : result StorageError () :=
  if (snapshot_version s =? 0)%N
     || (MAX_STORAGE_ENTRIES_PER_ORIGIN <? N.of_nat (length (snapshot_entries s)))%N
  then Err (Invalid "storage snapshot metadata")
  else
    total ← snapshot_total 0 (snapshot_entries s);
    if (MAX_STORAGE_BYTES_PER_ORIGIN <? total)%N then Err QuotaExceeded else Ok tt.

Definition StorageMutation_byte_len (m : StorageMutation) : N :=
  match operation m with
  | Set_ key value => byte_len key + byte_len value
  | Remove key => byte_len key
  | Clear => 0
  end.

Definition StorageMutation_validate (m : StorageMutation) : result StorageError () :=
  if (expected_version m =? 0)%N then Err (Invalid "storage mutation version")
  else
    match operation m with
    | Set_ key value => validate_bytes (saturating_add (byte_len key) (byte_len value))
    | Remove key => validate_bytes (byte_len key)
    | Clear => Ok tt
    end.

(** ** One origin's area (src/storage/area.rs) *)
Record StorageAreaState := mkArea {
  version : N;
  entries : list (StorageString * StorageString)  (* a [BTreeMap] *)
}.
#[global] Instance StorageAreaState_eq_dec : EqDecision StorageAreaState.
Proof. solve_decision. Defined.

Definition StorageAreaState_default : StorageAreaState := mkArea 1 [].

Definition from_snapshot (s : StorageAreaSnapshot) : result StorageError StorageAreaState :=
  _ ← StorageAreaSnapshot_validate s;
  let expected := length (snapshot_entries s) in
  let es := bt_collect ((fun e => (entry_key e, entry_value e)) <$> snapshot_entries s) in
  if bool_decide (length es <> expected) then Err (Invalid "duplicate storage keys")
  else Ok (mkArea (snapshot_version s) es).

Definition StorageAreaState_snapshot (a : StorageAreaState) : StorageAreaSnapshot :=
  mkSnapshot (version a) ((fun kv => mkEntry kv.1 kv.2) <$> entries a).

Definition StorageAreaState_len (a : StorageAreaState) : nat := length (entries a).
Definition StorageAreaState_key (a : StorageAreaState) (index : nat) : option StorageString :=
  fst <$> (entries a !! index).
Definition StorageAreaState_get (a : StorageAreaState) (key : StorageString)
  : option StorageString := bt_get key (entries a).

Definition entry_bytes (kv : StorageString * StorageString) : N :=
  byte_len kv.1 + byte_len kv.2.

(** [saturating_add] never saturates on lengths of allocated strings, and the
    sum is a [usize] for the same reason. *)
Definition StorageAreaState_byte_len (a : StorageAreaState) : N :=
  sum_by entry_bytes (entries a).

Definition operation_changes (a : StorageAreaState) (op : StorageOperation) : bool :=
  match op with
  | Set_ key value => negb (bool_decide (StorageAreaState_get a key = Some value))
  | Remove key => bt_contains key (entries a)
  | Clear => bool_decide (entries a <> [])
  end.

(** The [match] of [apply]: the new entries and [changed], or an early return.
    No branch touches the map before its last error check. *)
Definition apply_operation (a : StorageAreaState) (op : StorageOperation)
  : result StorageError (list (StorageString * StorageString) * bool) :=
  match op with
  | Set_ key value =>
      if bool_decide (bt_get key (entries a) = Some value) then Ok (entries a, false)
      else
        let adding := negb (bt_contains key (entries a)) in
        if adding && (MAX_STORAGE_ENTRIES_PER_ORIGIN <=? N.of_nat (length (entries a)))%N
        then Err QuotaExceeded
        else
          let old_bytes := match bt_get key (entries a) with
                           | Some old => byte_len key + byte_len old
                           | None => 0
                           end%N in
          _ ← validate_bytes
                (StorageAreaState_byte_len a - old_bytes + byte_len key + byte_len value);
          Ok (bt_insert key value (entries a), true)
  | Remove key => Ok (bt_remove key (entries a), bt_contains key (entries a))
  | Clear => Ok ([], bool_decide (entries a <> []))
  end.

Definition StorageAreaState_apply (a : StorageAreaState) (m : StorageMutation)
  : StorageAreaState * result StorageError bool :=
  match StorageMutation_validate m with
  | Err e => (a, Err e)
  | Ok _ =>
      if negb (expected_version m =? version a)%N then
        (a, Err (Stale (StorageAreaState_snapshot a)))
      else if (version a =? u64_max)%N && operation_changes a (operation m) then
        (a, Err (Invalid "storage version exhausted"))
      else
        match apply_operation a (operation m) with
        | Err e => (a, Err e)
        | Ok (es, changed) =>
            if changed then
              match checked_add (version a) 1 with
              | Some v => (mkArea v es, Ok true)
              | None => (mkArea (version a) es, Err (Invalid "storage version exhausted"))
              end
            else (mkArea (version a) es, Ok false)
        end
  end.

(** * Theorems *)

(** ** Quota accounting *)

(** The cost of one decoded item: a scalar's UTF-8 length, three for an
    isolated surrogate. *)
Definition decoded_cost (x : N + N) : N :=
  match x with inl c => len_utf8 c | inr _ => 3%N end.
Definition utf16_cost (units : list N) : N := sum_by decoded_cost (decode_utf16 units).

(** Decides which class a unit falls in. *)
Ltac unit_classes :=
  unfold is_low, is_high, is_surrogate, len_utf8 in *; repeat case_match; lia.

Lemma utf16_cost_plain (u : N) (us : list N) :
  is_surrogate u = false -> utf16_cost (u :: us) = (len_utf8 u + utf16_cost us)%N.
Proof. intros Hu. unfold utf16_cost. simpl. by rewrite Hu. Qed.

Lemma utf16_cost_low (u : N) (us : list N) :
  is_low u = true -> utf16_cost (u :: us) = (3 + utf16_cost us)%N.
Proof.
  intros Hu. unfold utf16_cost. simpl. assert (is_surrogate u = true) as -> by unit_classes.
  simpl. by rewrite Hu.
Qed.

Lemma utf16_cost_high (h : N) (us : list N) :
  is_high h = true ->
  utf16_cost (h :: us)
  = match us with
    | u :: us' => if is_low u then 4 + utf16_cost us' else 3 + utf16_cost us
    | [] => 3
    end%N.
Proof.
  intros Hh. unfold utf16_cost. simpl.
  assert (is_surrogate h = true) as -> by unit_classes.
  assert (is_low h = false) as -> by unit_classes. simpl.
  destruct us as [|u us]; [done|]. destruct (is_low u) eqn:Hl; [|done].
  rewrite sum_by_cons. f_equal. unfold decoded_cost. unit_classes.
Qed.

(** The loop's flag stands for a high surrogate already paid for. *)
Lemma quota_bytes_loop_cost (us : list N) :
  Forall (fun u => u < 0x10000)%N us ->
  forall b,
    quota_bytes_loop b false us = (b + utf16_cost us)%N /\
    forall h, is_high h = true -> quota_bytes_loop (b + 3) true us = (b + utf16_cost (h :: us))%N.
Proof.
  induction 1 as [|u us Hu Hus IH]; intros b.
  { split; [unfold utf16_cost; simpl; lia|]. intros h Hh. by rewrite utf16_cost_high. }
  assert (Hgen : forall b ph, quota_bytes_loop b ph (u :: us)
    = if ph && is_low u then (b + 1 + utf16_cost us)%N else (b + utf16_cost (u :: us))%N).
  { clear b. intros b ph. cbn [quota_bytes_loop]. destruct (N.leb_spec u 0x7f) as [H1|H1].
    { assert (is_low u = false) as -> by unit_classes.
      rewrite andb_false_r, (proj1 (IH _)), utf16_cost_plain; unit_classes. }
    destruct (N.leb_spec u 0x7ff) as [H2|H2].
    { assert (is_low u = false) as -> by unit_classes.
      rewrite andb_false_r, (proj1 (IH _)), utf16_cost_plain; unit_classes. }
    destruct (is_low u) eqn:Hl.
    { assert (is_high u = false) as -> by unit_classes.
      rewrite (proj1 (IH _)), utf16_cost_low by done. destruct ph; simpl; lia. }
    rewrite !andb_false_r. destruct (is_high u) eqn:Hh; [by apply (proj2 (IH b))|].
    rewrite (proj1 (IH _)), utf16_cost_plain; unit_classes. }
  split; [by rewrite Hgen|]. intros h Hh. rewrite Hgen, (utf16_cost_high h) by done. simpl.
  destruct (is_low u); lia.
Qed.

(** [quota_bytes] charges every sequence of UTF-16 units exactly what
    decoding it would: each scalar value its UTF-8 length, and each isolated
    surrogate three bytes, although it never decodes and never looks ahead. *)
Theorem quota_bytes_decoded (us : list N) :
  Forall (fun u => u < 0x10000)%N us -> quota_bytes us = utf16_cost us.
Proof. intros Hus. unfold quota_bytes. by rewrite (proj1 (quota_bytes_loop_cost us Hus 0)). Qed.

(** A string converted to UTF-16 keeps the byte cost it had as UTF-8, so
    profiles written before the conversion keep their accounting. *)
Theorem storage_string_keeps_utf8_length (s : string) :
  well_formed s = true -> byte_len (StorageString_from s) = byte_length s.
Proof.
  intros Hwf. unfold byte_len, StorageString_from. simpl. unfold quota_bytes.
  rewrite (proj1 (quota_bytes_loop_cost _ (encode_utf16_units s Hwf) 0)).
  unfold utf16_cost. rewrite decode_encode_utf16, byte_length_chars, sum_by_fmap by done. done.
Qed.

Lemma storage_string_keeps_utf8_length_witness :
  byte_len (StorageString_from "key") = byte_length "key".
Proof. apply storage_string_keeps_utf8_length. by vm_compute. Defined.

Lemma quota_bytes_decoded_witness :
  quota_bytes [0x61; 0xd83e; 0xdd80; 0xd800; 0x20ac]%N = utf16_cost [0x61; 0xd83e; 0xdd80; 0xd800; 0x20ac]%N.
Proof. apply quota_bytes_decoded. repeat constructor. Defined.

(** The [u16] invariant of the units. *)
Definition u16_units (s : StorageString) : Prop := Forall (fun u => u < 0x10000)%N (units s).

Lemma StorageString_deserialize_serialize (s : StorageString) :
  u16_units s -> StorageString_deserialize (StorageString_serialize s) = s.
Proof.
  destruct s as [us]. unfold u16_units, StorageString_serialize. simpl. intros Hus.
  destruct (from_utf16 us) as [text|] eqn:Ht; simpl; [|done].
  unfold StorageString_from. f_equal. by apply encode_from_utf16.
Qed.

(** Both serialised forms of a string read back as the same string, isolated
    surrogates included. *)
Theorem storage_string_serde (s : StorageString) :
  u16_units s -> StorageString_deserialize (StorageString_serialize s) = s.
Proof. apply StorageString_deserialize_serialize. Qed.

Lemma storage_string_serde_witness :
  let lone := from_units [0x61; 0xd800; 0x62]%N in
  let pair := from_units [0x61; 0xd83e; 0xdd80]%N in
  StorageString_deserialize (StorageString_serialize lone) = lone /\
  StorageString_deserialize (StorageString_serialize pair) = pair.
Proof. split; apply storage_string_serde; repeat constructor. Defined.

(** ** The area: invariant, refinement, exact quota *)

#[global] Instance StorageString_countable : Countable StorageString.
Proof. apply (inj_countable' units from_units). by intros []. Defined.

(** What the storage standard calls the origin's map. *)
Definition storage_map (a : StorageAreaState) : gmap StorageString StorageString :=
  bt_map (entries a).

Definition map_bytes (M : gmap StorageString StorageString) : N :=
  sum_by entry_bytes (map_to_list M).

(** A map within the per-origin budget. *)
Definition fits (M : gmap StorageString StorageString) : Prop :=
  (N.of_nat (size M) <= MAX_STORAGE_ENTRIES_PER_ORIGIN)%N /\
  (map_bytes M <= MAX_STORAGE_BYTES_PER_ORIGIN)%N.

#[global] Instance fits_dec M : Decision (fits M).
Proof. unfold fits. apply _. Defined.

(** The effect the standard gives each operation. *)
Definition spec_operation (op : StorageOperation) (M : gmap StorageString StorageString)
  : gmap StorageString StorageString :=
  match op with
  | Set_ k v => <[k:=v]> M
  | Remove k => delete k M
  | Clear => ∅
  end.

Record area_wf (a : StorageAreaState) : Prop := {
  wf_version : (1 <= version a <= u64_max)%N;
  wf_sorted : sorted (entries a);
  wf_fits : fits (storage_map a)
}.

#[export] Hint Resolve wf_sorted : breeze.

Lemma map_bytes_storage_map (a : StorageAreaState) :
  sorted (entries a) -> map_bytes (storage_map a) = StorageAreaState_byte_len a.
Proof. intros Hs. apply sum_by_Permutation, bt_map_to_list, Hs. Qed.

Lemma size_storage_map (a : StorageAreaState) :
  sorted (entries a) -> size (storage_map a) = length (entries a).
Proof. apply size_bt_map. Qed.

Lemma fits_entries (v : N) (es : list (StorageString * StorageString)) :
  sorted es ->
  fits (storage_map (mkArea v es)) <->
  (N.of_nat (length es) <= MAX_STORAGE_ENTRIES_PER_ORIGIN)%N /\
  (sum_by entry_bytes es <= MAX_STORAGE_BYTES_PER_ORIGIN)%N.
Proof.
  intros Hs. unfold fits. rewrite map_bytes_storage_map, size_storage_map by done. done.
Qed.

Lemma area_wf_default : area_wf StorageAreaState_default.
Proof.
  split; [done|apply sorted_nil|]. apply fits_entries; [apply sorted_nil|]. by vm_compute.
Qed.
#[export] Hint Resolve area_wf_default : breeze.

Lemma bt_empty_map (es : list (StorageString * StorageString)) :
  sorted es -> bt_map es = ∅ <-> es = [].
Proof.
  intros Hs. split; [|by intros ->]. intros He. apply bt_map_inj; [done|apply sorted_nil|done].
Qed.

(** The entries after [apply_operation] are the ones the standard asks for. *)
Lemma apply_operation_spec (a : StorageAreaState) (op : StorageOperation) es changed :
  area_wf a -> apply_operation a op = Ok (es, changed) ->
  sorted es /\ bt_map es = spec_operation op (storage_map a) /\
  changed = operation_changes a op /\ (changed = false -> es = entries a) /\ fits (bt_map es).
Proof.
  destruct a as [ver es0]. intros [Hv Hs Hfit] Happ. simpl in *.
  apply fits_entries in Hfit as [Hlen Hbytes]; [|done].
  assert (Hfits : sorted es -> (N.of_nat (length es) <= MAX_STORAGE_ENTRIES_PER_ORIGIN)%N ->
    (sum_by entry_bytes es <= MAX_STORAGE_BYTES_PER_ORIGIN)%N -> fits (bt_map es)).
  { intros. by apply (fits_entries 1 es). }
  destruct op as [k v|k|]; simpl in Happ; unfold storage_map; simpl.
  - unfold StorageAreaState_get. case_bool_decide as Hget; simpl in *.
    { inv_res. rewrite insert_id by (by rewrite lookup_bt_map).
      split_and!; [done..|by rewrite bool_decide_eq_true_2|done|by apply Hfits]. }
    destruct (_ && _) eqn:Hroom; [done|]. inv_res. unfold validate_bytes in *.
    destruct (N.ltb_spec MAX_STORAGE_BYTES_PER_ORIGIN
      (StorageAreaState_byte_len (mkArea ver es0)
       - match bt_get k es0 with Some old => byte_len k + byte_len old | None => 0 end
       + byte_len k + byte_len v)) as [|Hroomb]; [done|].
    split; [by apply bt_insert_sorted|].
    split_and!; [by apply bt_map_insert|by rewrite bool_decide_eq_false_2|done|].
    apply Hfits; [by apply bt_insert_sorted| |].
    + rewrite length_bt_insert. unfold bt_contains in *. case_bool_decide; simpl in *; lia.
    + pose proof (sum_by_bt_insert entry_bytes k v es0) as Hsum.
      unfold StorageAreaState_byte_len, entry_bytes in *. simpl in *.
      destruct (bt_get k es0); lia.
  - inv_res. split_and!; [by apply bt_remove_sorted|by apply bt_map_remove|done| |].
    + intros Hc. apply bt_remove_none. unfold bt_contains in Hc. bool_props.
      by apply eq_None_not_Some.
    + apply Hfits; [by apply bt_remove_sorted| |].
      * pose proof (length_bt_remove_le k es0). lia.
      * pose proof (sum_by_bt_remove_le entry_bytes k es0). lia.
  - inv_res. split_and!; [apply sorted_nil|done|done| |].
    + intros Hc. bool_props. destruct es0; [done|by destruct Hc].
    + apply Hfits; [apply sorted_nil|done..].
Qed.

(** [operation_changes] decides whether the standard's effect is visible. *)
Lemma operation_changes_spec (a : StorageAreaState) (op : StorageOperation) :
  sorted (entries a) ->
  true = operation_changes a op <-> spec_operation op (storage_map a) <> storage_map a.
Proof.
  intros Hs. unfold storage_map. destruct op as [k v|k|]; simpl.
  - unfold StorageAreaState_get. rewrite <- lookup_bt_map by done.
    case_bool_decide as Hget; simpl.
    + split; [done|]. intros []. by apply insert_id.
    + split; [|done]. intros _ Heq. apply Hget. rewrite <- Heq. apply lookup_insert_eq.
  - rewrite bt_contains_lookup by done. case_bool_decide as Hget.
    + split; [|done]. intros _ Heq. rewrite <- Heq, lookup_delete_eq in Hget. by destruct Hget.
    + split; [done|]. intros []. apply delete_id. by apply eq_None_not_Some.
  - case_bool_decide as He.
    + split; [|done]. intros _ Heq. apply He, bt_empty_map; [done|]. by rewrite <- Heq.
    + split; [done|]. intros []. symmetry. apply bt_empty_map; [done|].
      destruct (entries a); [done|by destruct He].
Qed.

(** What [apply] leaves behind, on every path. *)
Lemma StorageAreaState_apply_cases (a : StorageAreaState) (m : StorageMutation) a' r :
  area_wf a -> StorageAreaState_apply a m = (a', r) ->
  match r with
  | Err _ => a' = a
  | Ok changed =>
      expected_version m = version a /\
      version a' = (version a + if changed then 1 else 0)%N /\
      sorted (entries a') /\
      storage_map a' = spec_operation (operation m) (storage_map a) /\
      changed = operation_changes a (operation m) /\
      (changed = false -> a' = a) /\
      area_wf a'
  end.
Proof.
  intros Hwf. pose proof Hwf as [Hv Hs _]. unfold StorageAreaState_apply.
  destruct (StorageMutation_validate m); [|intros; by inv_res].
  destruct (N.eqb_spec (expected_version m) (version a)) as [Hexp|]; simpl; [|intros; by inv_res].
  destruct (_ && _) eqn:Hexh; [intros; by inv_res|].
  destruct (apply_operation a (operation m)) as [[es changed]|e] eqn:Hop; [|intros; by inv_res].
  destruct (apply_operation_spec a _ es changed Hwf Hop) as (Hes & Hmap & Hch & Hsame & Hfit).
  destruct changed.
  - unfold checked_add. destruct (N.leb_spec (version a + 1) u64_max).
    + intros. inv_res. simpl. split_and!; try done. by split; simpl; [lia|..].
    + rewrite <- Hch in Hexh. lia.
  - intros. inv_res. simpl. rewrite Hsame, N.add_0_r in * by done.
    assert (mkArea (version a) (entries a) = a) as Ha by (by destruct a).
    rewrite Ha. split_and!; try done.
Qed.

(** [StorageAreaState::apply] preserves the area invariant: keys sorted and
    unique, at most 1024 entries, at most 5 MiB of accounted bytes, and a
    version in [1, u64::MAX]. *)
Theorem area_apply_wf (a : StorageAreaState) (m : StorageMutation) :
  area_wf a -> area_wf (StorageAreaState_apply a m).1.
Proof.
  intros Hwf. destruct (StorageAreaState_apply a m) as [a' r] eqn:Happ.
  apply StorageAreaState_apply_cases in Happ; [|done]. destruct r; naive_solver.
Qed.

Lemma area_apply_wf_witness :
  area_wf (StorageAreaState_apply StorageAreaState_default
             (mkMutation LocalArea 1 (Set_ (StorageString_from "k") (StorageString_from "v")))).1.
Proof. apply area_apply_wf, area_wf_default. Defined.

(** C37. [StorageAreaState::apply] refines the Web Storage map: an accepted
    mutation names the current version, has exactly the standard's effect on
    the map, reports [true] precisely when it changes the map, and advances the
    version by one precisely then; a refused mutation changes nothing, and a
    mutation against another version is answered with the current snapshot. *)
Theorem area_apply_refines_map (a : StorageAreaState) (m : StorageMutation) :
  area_wf a ->
  let '(a', r) := StorageAreaState_apply a m in
  match r with
  | Ok changed =>
      expected_version m = version a /\
      storage_map a' = spec_operation (operation m) (storage_map a) /\
      (changed = true <-> storage_map a' <> storage_map a) /\
      version a' = (version a + if changed then 1 else 0)%N
  | Err e =>
      a' = a /\
      (StorageMutation_validate m = Ok tt -> expected_version m <> version a ->
       e = Stale (StorageAreaState_snapshot a))
  end.
Proof.
  intros Hwf. destruct (StorageAreaState_apply a m) as [a' r] eqn:Happ.
  pose proof (StorageAreaState_apply_cases a m a' r Hwf Happ) as Hcase.
  destruct r as [changed|e].
  - destruct Hcase as (Hexp & Hver & Hs' & Hmap & Hch & Hsame & _). split_and!; [done..| |done].
    rewrite Hmap. split.
    + intros ->. by apply operation_changes_spec; [apply Hwf|].
    + intros Hne. destruct changed; [done|]. by rewrite <- Hmap, Hsame in Hne.
  - split; [done|]. intros Hval Hne. unfold StorageAreaState_apply in Happ.
    rewrite Hval in Happ. apply N.eqb_neq in Hne. rewrite Hne in Happ. simpl in Happ. by inv_res.
Qed.

Lemma area_apply_refines_map_witness :
  let a := StorageAreaState_default in
  area_wf a /\
  storage_map (StorageAreaState_apply a
     (mkMutation LocalArea 1 (Set_ (StorageString_from "k") (StorageString_from "v")))).1
  = {[ StorageString_from "k" := StorageString_from "v" ]}.
Proof.
  split; [apply area_wf_default|].
  pose proof (area_apply_refines_map StorageAreaState_default
    (mkMutation LocalArea 1 (Set_ (StorageString_from "k") (StorageString_from "v")))
    area_wf_default) as H.
  vm_compute (StorageAreaState_apply _ _) in H. destruct H as (_ & H & _). exact H.
Defined.

(** The map's byte total after an insertion. *)
Lemma map_bytes_insert (a : StorageAreaState) (k v : StorageString) :
  sorted (entries a) ->
  map_bytes (<[k:=v]> (storage_map a))
  = (StorageAreaState_byte_len a
     - match bt_get k (entries a) with Some old => byte_len k + byte_len old | None => 0 end
     + byte_len k + byte_len v)%N.
Proof.
  intros Hs. unfold storage_map. rewrite <- bt_map_insert by done.
  change (bt_map (bt_insert k v (entries a))) with (storage_map (mkArea 1 (bt_insert k v (entries a)))).
  rewrite map_bytes_storage_map by (by apply bt_insert_sorted).
  unfold StorageAreaState_byte_len. simpl.
  pose proof (sum_by_bt_insert entry_bytes k v (entries a)) as Hsum.
  pose proof (sum_by_bt_remove entry_bytes k (entries a)) as Hrem.
  assert (Heb : forall x, entry_bytes (k, x) = (byte_len k + byte_len x)%N) by done.
  rewrite Heb in Hsum. destruct (bt_get k (entries a)); rewrite ?Heb in *; lia.
Qed.

Lemma byte_len_le_map_bytes (M : gmap StorageString StorageString) (k v : StorageString) :
  M !! k = Some v -> (byte_len k + byte_len v <= map_bytes M)%N.
Proof.
  intros Hk%elem_of_map_to_list. by apply (sum_by_elem_le entry_bytes) in Hk.
Qed.

(** The quota is exact: against the current version, a [Set] is refused for
    quota precisely when the resulting map would exceed 1024 entries or 5 MiB
    of accounted bytes. It is never refused early and never accepted late. *)
Theorem area_set_quota_exact (a : StorageAreaState) (ar : StorageAreaKind) (k v : StorageString) :
  area_wf a -> (version a < u64_max)%N ->
  (StorageAreaState_apply a (mkMutation ar (version a) (Set_ k v))).2 = Err QuotaExceeded
  <-> ~ fits (<[k:=v]> (storage_map a)).
Proof.
  intros [Hv Hs Hfit] Hmax.
  assert (Hkv : fits (<[k:=v]> (storage_map a)) ->
                (byte_len k + byte_len v <= MAX_STORAGE_BYTES_PER_ORIGIN)%N).
  { intros [_ Hb]. etrans; [|exact Hb]. apply byte_len_le_map_bytes, lookup_insert_eq. }
  unfold StorageAreaState_apply, StorageMutation_validate. simpl.
  destruct (N.eqb_spec (version a) 0) as [|_]; [lia|]. unfold validate_bytes at 1.
  destruct (N.ltb_spec MAX_STORAGE_BYTES_PER_ORIGIN (saturating_add (byte_len k) (byte_len v)))
    as [Hbig|_].
  { simpl. split; [intros _ Hf|done]. apply Hkv in Hf.
    apply saturating_add_gt in Hbig; [lia|done]. }
  rewrite N.eqb_refl. destruct (N.eqb_spec (version a) u64_max) as [|_]; [lia|]. simpl.
  unfold storage_map in *. case_bool_decide as Hget; simpl.
  { rewrite insert_id by (by rewrite lookup_bt_map). split; [done|by intros []]. }
  unfold fits in *. change (bt_map (entries a)) with (storage_map a) in *.
  rewrite map_bytes_insert, map_size_insert by done.
  rewrite (size_storage_map a Hs) in *. unfold storage_map. rewrite lookup_bt_map by done.
  unfold bt_contains. destruct (bt_get k (entries a)) as [old|] eqn:Hold; simpl.
  - unfold validate_bytes. destruct (N.ltb_spec MAX_STORAGE_BYTES_PER_ORIGIN
      (StorageAreaState_byte_len a - (byte_len k + byte_len old) + byte_len k + byte_len v)); simpl.
    + split; [intros _; lia|done].
    + unfold checked_add. destruct (N.leb_spec (version a + 1) u64_max); simpl; [|lia].
      split; [done|]. intros []. lia.
  - destruct (N.leb_spec MAX_STORAGE_ENTRIES_PER_ORIGIN (N.of_nat (length (entries a)))); simpl.
    + split; [intros _; lia|done].
    + unfold validate_bytes. destruct (N.ltb_spec MAX_STORAGE_BYTES_PER_ORIGIN
        (StorageAreaState_byte_len a - 0 + byte_len k + byte_len v)); simpl.
      * split; [intros _; lia|done].
      * unfold checked_add. destruct (N.leb_spec (version a + 1) u64_max); simpl; [|lia].
        split; [done|]. intros []. lia.
Qed.

Lemma area_set_quota_exact_witness :
  let k := StorageString_from "k" in
  let v := from_units (replicate 2000 0x20ac%N) in
  (StorageAreaState_apply StorageAreaState_default (mkMutation SessionArea 1 (Set_ k v))).2
    = Err QuotaExceeded
  <-> ~ fits (<[k := v]> (storage_map StorageAreaState_default)).
Proof.
  apply (area_set_quota_exact StorageAreaState_default SessionArea); [apply area_wf_default|done].
Defined.

(** ** Snapshots *)
Lemma snapshot_total_Ok (total : N) (es : list StorageEntry) t :
  snapshot_total total es = Ok t ->
  t = (total + sum_by (fun e => byte_len (entry_key e) + byte_len (entry_value e)) es)%N.
Proof.
  revert total. induction es as [|e es IH]; intros total; simpl; [intros; inv_res; lia|].
  intros Ht. inv_res. destruct (checked_add total _) as [t1|] eqn:H1; [|done]. simpl in *.
  apply checked_add_Some in H1 as [-> _]. apply IH in Ht.
  match goal with H : checked_add _ _ = Some _ |- _ => apply checked_add_Some in H as [-> _] end.
  lia.
Qed.

Lemma snapshot_total_fits (total : N) (es : list StorageEntry) :
  (total + sum_by (fun e => byte_len (entry_key e) + byte_len (entry_value e)) es
   <= MAX_STORAGE_BYTES_PER_ORIGIN)%N ->
  exists t, snapshot_total total es = Ok t /\ (t <= MAX_STORAGE_BYTES_PER_ORIGIN)%N.
Proof.
  revert total. induction es as [|e es IH]; intros total; simpl; intros Hle; [exists total; split; [done|lia]|].
  assert (MAX_STORAGE_BYTES_PER_ORIGIN < u64_max)%N by done.
  unfold StorageEntry_validate, validate_bytes.
  destruct (N.ltb_spec MAX_STORAGE_BYTES_PER_ORIGIN
    (saturating_add (byte_len (entry_key e)) (byte_len (entry_value e)))) as [Hgt|_].
  { apply saturating_add_gt in Hgt; [lia|done]. }
  unfold checked_add. simpl.
  destruct (N.leb_spec (total + byte_len (entry_key e)) u64_max); simpl; [|lia].
  destruct (N.leb_spec (total + byte_len (entry_key e) + byte_len (entry_value e)) u64_max);
    simpl; [|lia].
  apply IH. lia.
Qed.

Lemma sum_snapshot_entries (es : list (StorageString * StorageString)) :
  sum_by (fun e => byte_len (entry_key e) + byte_len (entry_value e))%N
         ((fun kv => mkEntry kv.1 kv.2) <$> es) = sum_by entry_bytes es.
Proof. by rewrite sum_by_fmap. Qed.

Lemma from_snapshot_wf (s : StorageAreaSnapshot) (a : StorageAreaState) :
  (snapshot_version s <= u64_max)%N -> from_snapshot s = Ok a ->
  area_wf a /\ version a = snapshot_version s.
Proof.
  unfold from_snapshot, StorageAreaSnapshot_validate. intros Hmax Ha. inv_res.
  destruct (_ || _) eqn:Hmeta; [done|]. inv_res.
  match goal with H : snapshot_total _ _ = Ok _ |- _ => apply snapshot_total_Ok in H; subst end.
  case_bool_decide as Hdup; [done|]. inv_res.
  case_match eqn:Hb; [done|]. apply N.ltb_ge in Hb.
  split; [|done]. split; simpl; [lia|apply bt_collect_sorted|].
  apply fits_entries; [apply bt_collect_sorted|]. rewrite Hdup. split; [lia|].
  rewrite (sum_by_Permutation _ _ _ (bt_collect_Permutation _ (eq_trans Hdup (eq_sym (length_fmap _ _))))).
  rewrite sum_by_fmap. unfold entry_bytes. simpl. lia.
Qed.

Lemma from_snapshot_snapshot (a : StorageAreaState) :
  area_wf a -> from_snapshot (StorageAreaState_snapshot a) = Ok a.
Proof.
  destruct a as [v es]. intros [Hv Hs Hf]. apply fits_entries in Hf as [Hl Hb]; [|done].
  unfold from_snapshot, StorageAreaSnapshot_validate, StorageAreaState_snapshot. simpl in *.
  rewrite length_fmap.
  destruct (N.eqb_spec v 0) as [|_]; [lia|].
  destruct (N.ltb_spec MAX_STORAGE_ENTRIES_PER_ORIGIN (N.of_nat (length es))) as [|_]; [lia|]. simpl.
  destruct (snapshot_total_fits 0 ((fun kv => mkEntry kv.1 kv.2) <$> es)) as (t & -> & Ht).
  { by rewrite sum_snapshot_entries. }
  simpl. destruct (N.ltb_spec MAX_STORAGE_BYTES_PER_ORIGIN t) as [|_]; [lia|]. simpl.
  assert ((fun e => (entry_key e, entry_value e)) <$> ((fun kv => mkEntry kv.1 kv.2) <$> es) = es)
    as ->.
  { rewrite <- list_fmap_compose. rewrite <- (list_fmap_id es) at 2.
    apply list_fmap_ext. by intros _ [] _. }
  rewrite bt_collect_id by done. by case_bool_decide.
Qed.

(** Snapshots round trip: an area rebuilt from its own snapshot is the same
    area, and whatever [from_snapshot] accepts (a renderer message, a profile
    file) satisfies the area invariant at the snapshot's version. *)
Theorem snapshot_round_trip (a : StorageAreaState) (s : StorageAreaSnapshot) (b : StorageAreaState) :
  area_wf a -> (snapshot_version s <= u64_max)%N -> from_snapshot s = Ok b ->
  from_snapshot (StorageAreaState_snapshot a) = Ok a /\
  area_wf b /\ version b = snapshot_version s.
Proof. intros Ha Hs Hb. split; [by apply from_snapshot_snapshot|by apply from_snapshot_wf]. Qed.

Lemma snapshot_round_trip_witness :
  let e := mkEntry (StorageString_from "k") (StorageString_from "v") in
  from_snapshot (StorageAreaState_snapshot StorageAreaState_default) = Ok StorageAreaState_default /\
  area_wf (mkArea 7 [(entry_key e, entry_value e)]) /\ 7%N = 7%N.
Proof.
  apply (snapshot_round_trip StorageAreaState_default
           (mkSnapshot 7 [mkEntry (StorageString_from "k") (StorageString_from "v")])
           (mkArea 7 [(StorageString_from "k", StorageString_from "v")])).
  - apply area_wf_default.
  - done.
  - by vm_compute.
Defined.
