(* ===== verification/Wire.v ===== *)
(** * Wire: the primitive codec of the renderer pipe (src/renderer_protocol/wire.rs)

    [WireWriter] and [WireReader] with all their methods, as two instances of one
    state-and-error monad, and the relation between them: [carries w r a] says
    that whatever [w] appends, [r] reads back as [a] and nothing more. The codecs
    of the messages are proved by walking both programs in step. *)

From Stdlib Require Import Strings.Byte.
From S2P Require Import Prelude Text Words Protocol WebStorage.

(** ** The monad of both *)
Definition Wire (S A : Type) := S -> result ProtocolError (A * S).
#[global] Instance wire_ret S : MRet (Wire S) := fun A a s => Ok (a, s).
#[global] Instance wire_bind S : MBind (Wire S) := fun A B f m s =>
  match m s with Ok (a, s) => f a s | Err e => Err e end.
(** A step that only decides. *)
Definition lift {S A} (r : result ProtocolError A) : Wire S A := fun s => a ← r; Ok (a, s).

(** ** WireWriter *)
Record WireWriter := mkWriter { w_bytes : list byte; counted : option N }.
Definition writer_new : WireWriter := mkWriter [] None.
Definition writer_counting : WireWriter := mkWriter [] (Some 0%N).
Definition writer_len (w : WireWriter) : N := default (N.of_nat (length (w_bytes w))) (counted w).
Definition put_bytes (value : list byte) (w : WireWriter) : WireWriter :=
  match counted w with
  | Some n => mkWriter (w_bytes w) (Some (n + N.of_nat (length value))%N)
  | None => mkWriter (w_bytes w ++ value) None
  end.

Definition Writer := Wire WireWriter.
Definition put (value : list byte) : Writer () := fun w => Ok (tt, put_bytes value w).
Definition put_u8 (value : N) : Writer () := put [byte_of value].
Definition put_bool (value : bool) : Writer () := put_u8 (if value then 1 else 0).
Definition put_u16 (value : N) : Writer () := put (le_bytes 2 value).
Definition put_u32 (value : N) : Writer () := put (le_bytes 4 value).
Definition put_u64 (value : N) : Writer () := put (le_bytes 8 value).
Definition put_u128 (value : N) : Writer () := put (le_bytes 16 value).

(** [u32::try_from] of a length. *)
Definition length_prefix (field : string) (n : N) : Writer () :=
  _ ← lift (ensure (n <=? 4294967295)%N (InvalidPayload field));
  put_u32 n.
Definition put_string (value : string) : Writer () :=
  _ ← length_prefix "wire string length" (byte_length value);
  put (String.list_byte_of_string value).
Definition put_blob (value : list byte) : Writer () :=
  _ ← length_prefix "wire byte length" (N.of_nat (length value));
  put value.
Definition put_storage_string (value : StorageString) : Writer () :=
  _ ← length_prefix "storage string length" (N.of_nat (length (units value)) * 2);
  put (units value ≫= le_bytes 2).

(** [WireWriter::finish] of what an encoder wrote into a fresh writer. *)
Definition written (m : Writer ()) : result ProtocolError (list byte) :=
  match m writer_new with Ok (_, w) => Ok (w_bytes w) | Err e => Err e end.

(** ** WireReader *)
Record WireReader := mkReader { r_bytes : list byte; cursor : N }.
Definition reader_new (bytes : list byte) : WireReader := mkReader bytes 0.
Definition Reader := Wire WireReader.

Definition get_finish : Reader () := fun r =>
  if (cursor r =? N.of_nat (length (r_bytes r)))%N then Ok (tt, r)
  else Err (InvalidPayload "trailing wire bytes").

(** [bytes.get(cursor..end)] *)
Definition slice (l : list byte) (from to : N) : option (list byte) :=
  if (from <=? to)%N && (to <=? N.of_nat (length l))%N
  then Some (take (N.to_nat (to - from)) (drop (N.to_nat from) l)) else None.

Definition get_take (n : N) : Reader (list byte) := fun r =>
  match checked_add (cursor r) n with
  | None => Err (InvalidPayload "wire length overflow")
  | Some stop =>
      match slice (r_bytes r) (cursor r) stop with
      | None => Err (InvalidPayload "truncated wire value")
      | Some value => Ok (value, mkReader (r_bytes r) stop)
      end
  end.

Definition get_word (hi : N) (k : N) : Reader (word hi) := l ← get_take k; mret (to_word hi (le_value l)).
Definition get_u8 : Reader u8 := get_word 255 1.
Definition get_bool : Reader bool :=
  v ← get_u8;
  match val v with 0 => mret false | 1 => mret true | _ => lift (Err (InvalidPayload "wire boolean")) end%N.
Definition get_u16 : Reader u16 := get_word 65535 2.
Definition get_u32 : Reader u32 := get_word 4294967295 4.
Definition get_u64 : Reader u64 := get_word u64_max 8.
Definition get_u128 : Reader u128 := get_word u128_max 16.

Definition get_string (maximum : N) : Reader ustring :=
  n ← get_u32;
  _ ← lift (ensure (val n <=? maximum)%N (InvalidPayload "wire string budget"));
  l ← get_take (val n);
  lift (ok_or (to_ustring (String.string_of_list_byte l)) InvalidUtf8).
Definition get_blob (maximum : N) : Reader (list byte) :=
  n ← get_u32;
  _ ← lift (ensure (val n <=? maximum)%N (InvalidPayload "wire byte budget"));
  get_take (val n).

(** [chunks_exact(2)] drops an odd last byte; none is left here. *)
Fixpoint units_of (l : list byte) : list N :=
  match l with a :: b :: l => le_value [a; b] :: units_of l | _ => [] end.
Definition get_storage_string (maximum : N) : Reader StorageString :=
  n ← get_u32;
  _ ← lift (ensure ((val n <=? N.min (maximum * 2) u64_max) && (val n mod 2 =? 0))%N
              (InvalidPayload "storage string budget or encoding"));
  l ← get_take (val n);
  mret (from_units (units_of l)).

(** A decoder run on a whole payload. *)
Definition read_from {A} (m : Reader A) (payload : list byte) : result ProtocolError A :=
  match m (reader_new payload) with Ok (a, _) => Ok a | Err e => Err e end.

(** ** Loops: [for x in list { write }] and [(0..count).map(|_| read).collect()] *)
Fixpoint put_all {A} (f : A -> Writer ()) (l : list A) : Writer () :=
  match l with [] => mret tt | x :: l => _ ← f x; put_all f l end.
Fixpoint get_times {A} (f : Reader A) (n : nat) : Reader (list A) :=
  match n with O => mret [] | S n => x ← f; l ← get_times f n; mret (x :: l) end.
Definition put_option {A} (f : A -> Writer ()) (o : option A) : Writer () :=
  _ ← put_bool (bool_decide (is_Some o));
  match o with Some a => f a | None => mret tt end.
Definition get_option {A} (f : Reader A) : Reader (option A) :=
  present ← get_bool;
  if present : bool then a ← f; mret (Some a) else mret None.
