(* ===== verification/WireTheory.v ===== *)
(** * WireTheory: what is written is read

    [carries stop w r a]: the writer program [w] either refuses (whatever the
    state of the writer) or appends one list of bytes, and on that list the
    reader program [r] answers [a] and leaves the cursor behind it; with [stop]
    the list must be the end of the payload. The lemmas walk a writer and a reader
    in step, and [carry] applies them. *)

From Stdlib Require Import Strings.Byte.
From S2P Require Import Prelude Text Words Protocol WebStorage Wire.

(** ** The relation *)
Definition appends (w : Writer ()) (l : list byte) : Prop := forall s, w s = Ok (tt, put_bytes l s).
Definition refuses (w : Writer ()) : Prop := exists e, forall s, w s = Err e.
Definition reads {A} (stop : bool) (r : Reader A) (l : list byte) (a : A) : Prop :=
  forall pre post, (stop = true -> post = []) -> (N.of_nat (length (pre ++ l ++ post)) <= u64_max)%N ->
    r (mkReader (pre ++ l ++ post) (N.of_nat (length pre)))
    = Ok (a, mkReader (pre ++ l ++ post) (N.of_nat (length (pre ++ l)))).
Definition carries {A} (stop : bool) (w : Writer ()) (r : Reader A) (a : A) : Prop :=
  refuses w \/ exists l, appends w l /\ reads stop r l a.

Lemma put_bytes_nil (s : WireWriter) : put_bytes [] s = s.
Proof. destruct s as [l [n|]]; unfold put_bytes; simpl; f_equal; [f_equal; lia|apply app_nil_r]. Qed.

Lemma put_bytes_app (l k : list byte) (s : WireWriter) : put_bytes (l ++ k) s = put_bytes k (put_bytes l s).
Proof.
  destruct s as [b [n|]]; unfold put_bytes; simpl; f_equal.
  - f_equal. rewrite length_app. lia.
  - by rewrite app_assoc.
Qed.

(** What an encoder's output is worth. *)
Lemma carries_read_back {A} (w : Writer ()) (r : Reader A) (a : A) (p : list byte) :
  carries true w r a -> written w = Ok p -> (N.of_nat (length p) <= u64_max)%N -> read_from r p = Ok a.
Proof.
  unfold written, read_from. intros [[e He]|(l & Hl & Hr)]; [by rewrite He|].
  rewrite Hl. unfold put_bytes, writer_new. simpl. intros [= <-] Hp.
  specialize (Hr [] [] (fun _ => eq_refl)). rewrite app_nil_r in Hr. specialize (Hr Hp). simpl in Hr.
  unfold reader_new. change (N.of_nat 0) with 0%N in Hr. by rewrite Hr.
Qed.

(** A counting writer, given the same encoder, counts its output. *)
Lemma carries_counts {A} (stop : bool) (w : Writer ()) (r : Reader A) (a : A) (p : list byte) :
  carries stop w r a -> written w = Ok p ->
  exists s, w writer_counting = Ok (tt, s) /\ writer_len s = N.of_nat (length p) /\ w_bytes s = [].
Proof.
  unfold written. intros [[e He]|(l & Hl & _)]; [by rewrite He|].
  rewrite !Hl. unfold put_bytes. simpl. intros [= <-]. eexists. split; [done|].
  split; [|done]. unfold writer_len. simpl. lia.
Qed.

(** ** Walking both programs *)
Section rules.
Context {A B : Type}.

Lemma carries_done (stop : bool) (a : A) : carries stop (mret tt) (mret a) a.
Proof.
  right. exists []. split; [intros s; by rewrite put_bytes_nil|].
  intros pre post _ _. by rewrite !app_nil_r.
Qed.

Lemma carries_bind (stop : bool) (w1 w2 : Writer ()) (r : Reader A) (k : A -> Reader B) (x : A) (b : B) :
  carries false w1 r x -> carries stop w2 (k x) b -> carries stop (_ ← w1; w2) (r ≫= k) b.
Proof.
  intros [[e He]|(l1 & Hw1 & Hr1)] H2; [left; exists e; intros s; unfold mbind, wire_bind; by rewrite He|].
  destruct H2 as [[e He]|(l2 & Hw2 & Hr2)].
  - left. exists e. intros s. unfold mbind, wire_bind. by rewrite Hw1.
  - right. exists (l1 ++ l2). split.
    + intros s. unfold mbind, wire_bind. by rewrite Hw1, Hw2, put_bytes_app.
    + intros pre post Hp Hb. unfold mbind, wire_bind. rewrite <- app_assoc in Hb |- *.
      rewrite Hr1; [|done|exact Hb]. rewrite (app_assoc pre l1) in Hb |- *.
      rewrite Hr2; [|done|exact Hb]. by rewrite !app_assoc.
Qed.

Lemma wire_bind_assoc {S X Y Z} (m : Wire S X) (f : X -> Wire S Y) (g : Y -> Wire S Z) (s : S) :
  ((m ≫= f) ≫= g) s = (m ≫= fun x => f x ≫= g) s.
Proof. unfold mbind, wire_bind. by destruct (m s) as [[x t]|e]. Qed.

Lemma bind_skip (w : Writer ()) (s : WireWriter) : (_ ← w; mret tt) s = w s.
Proof. unfold mbind, wire_bind, mret, wire_ret. by destruct (w s) as [[[] ?]|]. Qed.

(** The last write needs nothing after it. *)
Lemma carries_last (stop : bool) (w : Writer ()) (r : Reader A) (k : A -> Reader B) (x : A) (b : B) :
  carries false w r x -> carries stop (mret tt) (k x) b -> carries stop w (r ≫= k) b.
Proof.
  intros H1 H2. destruct (carries_bind stop w (mret tt) r k x b H1 H2) as [[e He]|(l & Hw & Hr)].
  - left. exists e. intros s. by rewrite <- bind_skip.
  - right. exists l. split; [intros s; by rewrite <- bind_skip|done].
Qed.

Lemma carries_stop (w : Writer ()) (r : Reader A) (a : A) : carries false w r a -> carries true w r a.
Proof.
  intros [He|(l & Hw & Hr)]; [by left|]. right. exists l. split; [done|].
  intros pre post _ Hb. by apply Hr.
Qed.

(** A refusal anywhere refuses the whole. *)
Lemma carries_refused {X} (stop : bool) (w : Wire WireWriter X) (k : X -> Writer ()) (r : Reader A) (a : A) :
  (exists e, forall s, w s = Err e) -> carries stop (w ≫= k) r a.
Proof. intros [e He]. left. exists e. intros s. unfold mbind, wire_bind. by rewrite He. Qed.

(** Programs that agree on every state. *)
Lemma carries_same (stop : bool) (w w' : Writer ()) (r r' : Reader A) (a : A) :
  (forall s, w s = w' s) -> (forall s, r s = r' s) -> carries stop w r a -> carries stop w' r' a.
Proof.
  intros Hw Hr [[e He]|(l & Hl & Hread)].
  - left. exists e. intros s. by rewrite <- Hw.
  - right. exists l. split; [intros s; by rewrite <- Hw|]. intros pre post Hp Hb. rewrite <- Hr. by apply Hread.
Qed.

(** Steps that write or read nothing. *)
Lemma carries_check {X} (stop : bool) (c : result ProtocolError X) (w : X -> Writer ()) (r : Reader A) (a : A) :
  (forall x, c = Ok x -> carries stop (w x) r a) -> carries stop (x ← lift c; w x) r a.
Proof.
  intros H. destruct c as [x|e].
  - destruct (H x eq_refl) as [[e He]|(l & Hw & Hr)].
    + left. exists e. exact He.
    + right. exists l. split; [exact Hw|done].
  - left. by exists e.
Qed.

Lemma carries_skip {X} (stop : bool) (c : result ProtocolError X) (w : Writer ()) (k : X -> Reader A) (x : X) (a : A) :
  c = Ok x -> carries stop w (k x) a -> carries stop w (x ← lift c; k x) a.
Proof. intros -> H. exact H. Qed.

Lemma carries_guard (stop : bool) (b : bool) (e : ProtocolError) (w : Writer ()) (k : () -> Reader A) (a : A) :
  b = true -> carries stop w (k tt) a -> carries stop w (x ← lift (ensure b e); k x) a.
Proof. intros -> H. exact H. Qed.

Lemma carries_decided (stop : bool) (c : result ProtocolError A) (a : A) :
  c = Ok a -> carries stop (mret tt) (lift c) a.
Proof. intros ->. apply carries_done. Qed.

Lemma carries_finish (k : Reader A) (a : A) :
  carries true (mret tt) k a -> carries true (mret tt) (_ ← get_finish; k) a.
Proof.
  intros [[e He]|(l & Hw & Hr)].
  - specialize (He writer_new). discriminate He.
  - right. exists l. split; [done|]. assert (l = []) as ->.
    { specialize (Hw writer_new). unfold put_bytes in Hw. simpl in Hw. injection Hw as Hw. done. }
    intros pre post Hp Hb. unfold mbind, wire_bind, get_finish. simpl.
    rewrite (Hp eq_refl), app_nil_r in *. rewrite N.eqb_refl.
    specialize (Hr pre []). rewrite !app_nil_r in Hr. by apply Hr.
Qed.
End rules.

(** ** The primitives *)
Lemma appends_put (l : list byte) : appends (put l) l.
Proof. done. Qed.

Lemma slice_middle (pre l post : list byte) :
  slice (pre ++ l ++ post) (N.of_nat (length pre)) (N.of_nat (length (pre ++ l))) = Some l.
Proof.
  unfold slice. rewrite !length_app.
  replace ((N.of_nat (length pre) <=? N.of_nat (length pre + length l))
    && (N.of_nat (length pre + length l) <=? N.of_nat (length pre + (length l + length post))))%N
    with true by lia.
  rewrite Nat2N.id, drop_app_length. f_equal.
  replace (N.to_nat (N.of_nat (length pre + length l) - N.of_nat (length pre))) with (length l) by lia.
  apply take_app_length.
Qed.

Lemma reads_take (stop : bool) (l : list byte) (n : N) :
  n = N.of_nat (length l) -> reads stop (get_take n) l l.
Proof.
  intros -> pre post _ Hb. unfold get_take. simpl. unfold checked_add.
  rewrite !length_app in Hb. replace (N.of_nat (length pre) + N.of_nat (length l))%N
    with (N.of_nat (length (pre ++ l))) by (rewrite length_app; lia).
  destruct (N.leb_spec (N.of_nat (length (pre ++ l))) u64_max) as [H|H].
  - by rewrite slice_middle.
  - rewrite length_app in H. lia.
Qed.

Lemma carries_put (stop : bool) (l : list byte) (n : N) :
  n = N.of_nat (length l) -> carries stop (put l) (get_take n) l.
Proof. intros Hn. right. exists l. split; [done|by apply reads_take]. Qed.

Lemma carries_fmap {A B} (stop : bool) (w : Writer ()) (r : Reader A) (f : A -> B) (a : A) :
  carries stop w r a -> carries stop w (x ← r; mret (f x)) (f a).
Proof.
  intros [?|(l & Hw & Hr)]; [by left|]. right. exists l. split; [done|].
  intros pre post Hp Hb. unfold mbind, wire_bind. by rewrite (Hr pre post Hp Hb).
Qed.

Lemma carries_word (stop : bool) (hi : N) (k : nat) (n kn : N) :
  kn = N.of_nat k -> (n < 256 ^ kn)%N ->
  carries stop (put (le_bytes k n)) (get_word hi kn) (to_word hi n).
Proof.
  intros -> Hn. unfold get_word. rewrite <- (le_value_bytes k n Hn) at 2.
  apply (carries_fmap stop (put (le_bytes k n)) (get_take (N.of_nat k)) (fun l => to_word hi (le_value l))).
  apply carries_put. by rewrite length_le_bytes.
Qed.

Lemma byte_le_bytes (n : N) : (n < 256)%N -> [byte_of n] = le_bytes 1 n.
Proof. intros H. simpl. by rewrite N.mod_small. Qed.

(** A number in range, and a word. *)
Lemma carries_u8 (stop : bool) (n : N) : (n < 256)%N -> carries stop (put_u8 n) get_u8 (to_word 255 n).
Proof. intros H. unfold put_u8. rewrite byte_le_bytes by done. by apply carries_word. Qed.
Lemma carries_u16 (stop : bool) (n : N) : (n <= 65535)%N -> carries stop (put_u16 n) get_u16 (to_word 65535 n).
Proof. intros H. apply carries_word; [done|]. simpl. lia. Qed.
Lemma carries_u32 (stop : bool) (n : N) :
  (n <= 4294967295)%N -> carries stop (put_u32 n) get_u32 (to_word 4294967295 n).
Proof. intros H. apply carries_word; [done|]. simpl. lia. Qed.
Lemma carries_u64 (stop : bool) (n : N) :
  (n <= u64_max)%N -> carries stop (put_u64 n) get_u64 (to_word u64_max n).
Proof. intros H. apply carries_word; [done|]. unfold u64_max in H. simpl. lia. Qed.
Lemma carries_u128 (stop : bool) (n : N) :
  (n <= u128_max)%N -> carries stop (put_u128 n) get_u128 (to_word u128_max n).
Proof. intros H. apply carries_word; [done|]. unfold u128_max in H. simpl. lia. Qed.

Lemma carries_w8 (stop : bool) (v : u8) : carries stop (put_u8 (val v)) get_u8 v.
Proof.
  pose proof (val_le v). pose proof (carries_u8 stop (val v)) as H1. rewrite to_word_val in H1. apply H1. lia.
Qed.
Lemma carries_w16 (stop : bool) (v : u16) : carries stop (put_u16 (val v)) get_u16 v.
Proof. pose proof (carries_u16 stop (val v) (val_le v)) as H. by rewrite to_word_val in H. Qed.
Lemma carries_w32 (stop : bool) (v : u32) : carries stop (put_u32 (val v)) get_u32 v.
Proof. pose proof (carries_u32 stop (val v) (val_le v)) as H. by rewrite to_word_val in H. Qed.
Lemma carries_w64 (stop : bool) (v : u64) : carries stop (put_u64 (val v)) get_u64 v.
Proof. pose proof (carries_u64 stop (val v) (val_le v)) as H. by rewrite to_word_val in H. Qed.
Lemma carries_w128 (stop : bool) (v : u128) : carries stop (put_u128 (val v)) get_u128 v.
Proof. pose proof (carries_u128 stop (val v) (val_le v)) as H. by rewrite to_word_val in H. Qed.

(** A number kept as [N], read back with its value. *)
Lemma carries_num64 {A} (stop : bool) (n : N) (w : Writer ()) (k : N -> Reader A) (a : A) :
  (n <= u64_max)%N -> carries stop w (k n) a -> carries stop (_ ← put_u64 n; w) (v ← get_u64; k (val v)) a.
Proof.
  intros Hn H. eapply carries_bind; [by apply carries_u64|]. by rewrite val_to_word.
Qed.

Lemma carries_bool (b : bool) : carries false (put_bool b) get_bool b.
Proof.
  unfold put_bool, get_bool. eapply carries_last.
  - apply carries_u8. by destruct b.
  - destruct b; apply carries_done.
Qed.

(** ** Strings and bytes *)
Lemma carries_prefixed {A} (stop : bool) (field : string) (n : N) (w : Writer ()) (k : u32 -> Reader A) (a : A) :
  ((n <= 4294967295)%N -> carries stop w (k (to_word 4294967295 n)) a) ->
  carries stop (_ ← length_prefix field n; w) (v ← get_u32; k v) a.
Proof.
  intros H. destruct (N.leb_spec n 4294967295) as [Hn|Hn].
  - eapply carries_bind; [|by apply H]. unfold length_prefix. apply carries_check. intros _ _. by apply carries_u32.
  - left. exists (InvalidPayload field). intros s. unfold length_prefix.
    by replace (n <=? 4294967295)%N with false by lia.
Qed.

Lemma carries_string (stop : bool) (s : ustring) (maximum : N) :
  (byte_length s <= maximum)%N -> carries stop (put_string s) (get_string maximum) s.
Proof.
  intros Hs. unfold put_string, get_string. apply carries_prefixed. intros Hn.
  rewrite val_to_word by done. apply carries_guard; [lia|].
  eapply carries_last; [apply carries_put|].
  - by rewrite length_bytes_of.
  - rewrite string_of_bytes, to_ustring_text. by apply carries_decided.
Qed.

(** A string the model keeps as bytes. *)
Lemma carries_text (stop : bool) (s : string) (H : well_formed s = true) (maximum : N) :
  (byte_length s <= maximum)%N -> carries stop (put_string s) (get_string maximum) (Str s H).
Proof. apply (carries_string stop (Str s H)). Qed.

Lemma carries_blob (stop : bool) (l : list byte) (maximum : N) :
  (N.of_nat (length l) <= maximum)%N -> carries stop (put_blob l) (get_blob maximum) l.
Proof.
  intros Hl. unfold put_blob, get_blob. apply carries_prefixed. intros Hn.
  rewrite val_to_word by done. apply carries_guard; [lia|]. by apply carries_put.
Qed.

Definition units_ok (s : StorageString) : Prop := Forall (fun u => u < 65536)%N (units s).

Lemma units_of_bytes (us : list N) : Forall (fun u => u < 65536)%N us -> units_of (us ≫= le_bytes 2) = us.
Proof.
  intros H. induction H as [|u us Hu _ IH]; [done|].
  change (units_of (le_bytes 2 u ++ (us ≫= le_bytes 2)) = u :: us).
  change (le_value (le_bytes 2 u) :: units_of (us ≫= le_bytes 2) = u :: us).
  rewrite IH, le_value_bytes; [done|]. exact Hu.
Qed.

Lemma length_unit_bytes (us : list N) : length (us ≫= le_bytes 2) = (length us * 2)%nat.
Proof.
  induction us as [|u us IH]; [done|]. change (length (le_bytes 2 u ++ (us ≫= le_bytes 2)) = (S (length us) * 2)%nat).
  rewrite length_app, IH, length_le_bytes. lia.
Qed.

Lemma carries_storage_string (stop : bool) (s : StorageString) (maximum : N) :
  units_ok s -> (N.of_nat (length (units s)) <= maximum)%N ->
  carries stop (put_storage_string s) (get_storage_string maximum) s.
Proof.
  intros Hs Hm. unfold put_storage_string, get_storage_string. apply carries_prefixed. intros Hn.
  rewrite val_to_word by done. apply carries_guard.
  - apply andb_true_iff. split; [|by rewrite N.Div0.mod_mul].
    apply N.leb_le, N.min_glb; unfold u64_max; lia.
  - eapply carries_last; [apply carries_put|].
    + rewrite length_unit_bytes. lia.
    + destruct s as [us]. simpl. rewrite units_of_bytes by exact Hs. apply carries_done.
Qed.

(** ** Loops and options *)
Lemma carries_all {A} (f : A -> Writer ()) (g : Reader A) (l : list A) :
  Forall (fun x => carries false (f x) g x) l -> carries false (put_all f l) (get_times g (length l)) l.
Proof.
  intros H. induction H as [|x l Hx _ IH]; simpl; [apply carries_done|].
  eapply carries_bind; [exact Hx|]. eapply carries_last; [exact IH|]. apply carries_done.
Qed.

Lemma carries_option {A} (f : A -> Writer ()) (g : Reader A) (o : option A) :
  (forall x, o = Some x -> carries false (f x) g x) -> carries false (put_option f o) (get_option g) o.
Proof.
  intros H. unfold put_option, get_option. eapply carries_bind; [apply carries_bool|].
  destruct o as [x|]; simpl.
  - eapply carries_last; [by apply H|apply carries_done].
  - apply carries_done.
Qed.

(** ** Tags of enumerations *)
Definition get_tag {T} (decode : N -> result ProtocolError T) : Reader T := tag ← get_u8; lift (decode (val tag)).

Lemma carries_tag {T} (decode : N -> result ProtocolError T) (tag : N) (x : T) :
  decode tag = Ok x -> (tag < 256)%N -> carries false (put_u8 tag) (get_tag decode) x.
Proof.
  intros Hd Ht. unfold get_tag. eapply carries_last; [by apply carries_u8|].
  rewrite val_to_word by lia. by apply carries_decided.
Qed.

(** ** Identifiers *)
Definition get_document : Reader DocumentId := v ← get_u64; lift (DocumentId_new v).
Definition get_node : Reader DocumentNodeId := v ← get_u128; lift (DocumentNodeId_new v).

Lemma carries_document (d : DocumentId) : carries false (put_u64 (id_value d)) get_document d.
Proof.
  unfold get_document. eapply carries_last; [apply carries_w64|]. apply carries_decided, nonzero_id_new_get.
Qed.

Lemma carries_node (n : DocumentNodeId) : carries false (put_u128 (node_value n)) get_node n.
Proof.
  unfold get_node. eapply carries_last; [apply carries_w128|]. apply carries_decided, DocumentNodeId_new_get.
Qed.

Create HintDb wire.
Create HintDb wire_validate.
#[export] Hint Unfold reject : wire_validate.
#[export] Hint Resolve carries_document carries_node carries_bool carries_w8 carries_w16 carries_w32 carries_w64
  carries_w128 : wire.

(** A decision of the reader: what the writer checked, or a bound. *)
Ltac wire_side :=
  first
    [ eassumption | reflexivity
    | match goal with H : ?b = false |- context [?b] => rewrite H; reflexivity end
    | match goal with H : ?b = true |- context [?b] => rewrite H; reflexivity end
    | simpl in *; lia ].

Ltac wire_prim :=
  first
    [ solve [auto 2 with wire nocore]
    | apply carries_string; wire_side
    | match goal with H : well_formed ?s = true |- carries _ (put_string ?s) _ _ => apply (carries_text _ s H); wire_side end
    | apply carries_blob; wire_side
    | apply carries_u64; wire_side
    | apply carries_u8; wire_side
    | apply carries_u16; wire_side
    | apply carries_u32; wire_side
    | apply carries_tag; [wire_side|wire_side] ].

Ltac wire_reduce :=
  repeat match goal with
  | |- context [val (to_word ?hi ?n)] => rewrite (val_to_word hi n) by wire_side
  end; cbv beta iota; cbn [text].

(** A check of the writer stays in the context, as it is for the reader's, and
    taken apart for the bounds it gives. The checks are unfolded by the database
    [wire_validate]. *)
Ltac wire_break H :=
  lazymatch type of H with
  | (if ?b then Err _ else _) = Ok _ =>
      let E := fresh "Hcheck" in destruct b eqn:E; [discriminate H|wire_break H]
  | ensure _ _ = Ok _ => apply ensure_Ok in H
  | (_ ≫= _) = Ok _ =>
      let x := fresh in let H1 := fresh "Hcheck" in
      apply bind_Ok in H as (x & H1 & H); wire_break H1; wire_break H
  | _ => idtac
  end.
Ltac wire_check :=
  let x := fresh "checked" in let H := fresh "Hvalid" in
  apply carries_check; intros x H; lazymatch type of x with unit => destruct x | _ => idtac end;
  let H' := fresh "Hparts" in
  pose proof H as H'; autounfold with wire_validate in H'; cbv beta zeta in H'; cbn in H'; wire_break H';
  lazymatch type of H' with Ok ?r = Ok x => assert (r = x) as <- by congruence; clear H' | _ => idtac end.

Ltac carry_step :=
  lazymatch goal with
  | |- carries _ (lift _ ≫= _) _ _ => wire_check
  | |- carries _ (mret tt) (get_finish ≫= _) _ => apply carries_finish
  | |- carries _ (mret tt) (lift _) _ => apply carries_decided; solve [wire_side]
  | |- carries _ _ (lift (reject _ _) ≫= _) _ => apply carries_guard; [solve [wire_side]|]
  | |- carries _ _ (lift (ensure _ _) ≫= _) _ => apply carries_guard; [solve [wire_side]|]
  | |- carries _ _ (lift _ ≫= _) _ => eapply carries_skip; [solve [wire_side]|]
  | |- carries _ (mret tt) (mret _) _ => apply carries_done
  | |- carries _ (_ ≫= _) (_ ≫= _) _ => eapply carries_bind; [solve [wire_prim]|wire_reduce]
  | |- carries _ _ (_ ≫= _) _ => eapply carries_last; [solve [wire_prim]|wire_reduce]
  | |- carries _ _ _ _ => solve [wire_prim]
  end.
Ltac carry := repeat carry_step.

(** ** The interface of a payload: its writer and reader, and what they carry. *)
Class Payload {A} (w : A -> Writer ()) (r : Reader A) (sendable : A -> Prop) : Prop :=
  payload_carries : forall a, sendable a -> carries true (w a) r a.

Lemma payload_round_trip `{Payload A w r sendable} (a : A) (p : list byte) :
  sendable a -> written (w a) = Ok p -> (N.of_nat (length p) <= u64_max)%N -> read_from r p = Ok a.
Proof. intros Ha. by apply carries_read_back, payload_carries. Qed.

Definition anything {A} (a : A) : Prop := True.
