(* ===== verification/PayloadFields.v ===== *)
(** * PayloadFields: what the payload codecs share

    The early returns of the checks, the requesting client, optional fields and
    64-bit floats, as the codecs under src/renderer_protocol/codec/payload write
    them out each time. *)

From Stdlib Require Import Strings.Byte.
From S2P Require Import Prelude Text Limits Words Protocol WebStorage Wire WireTheory FetchRequest.

Definition longer (s : ustring) (limit : N) : bool := (limit <? byte_length s)%N.
#[export] Hint Unfold longer : wire_validate.

Definition nonzero (value : u64) (field : string) : result ProtocolError u64 :=
  if (value =? 0)%N then Err (InvalidPayload field) else Ok value.

(** [RequestClient]. *)
Definition put_client (c : RequestClient) : Writer () :=
  _ ← put_u64 (val (client_id c));
  put_bool (client_opaque c).
Definition get_client : Reader RequestClient :=
  id ← get_u64;
  opaque ← get_bool;
  mret (mkClient id opaque).

Lemma carries_client (c : RequestClient) : carries false (put_client c) get_client c.
Proof. destruct c. unfold put_client, get_client. simpl. carry. Qed.
#[export] Hint Resolve carries_client : wire.

(** An optional field of a type that any value of it carries. *)
Lemma carries_optional {A} (f : A -> Writer ()) (g : Reader A) (o : option A) :
  (forall x, carries false (f x) g x) -> carries false (put_option f o) (get_option g) o.
Proof. intros H. apply carries_option. intros x _. apply H. Qed.

Lemma carries_optional_u64 (o : option u64) : carries false (put_option (fun v : u64 => put_u64 (val v)) o) (get_option get_u64) o.
Proof. apply carries_optional, carries_w64. Qed.
Lemma carries_optional_u32 (o : option u32) : carries false (put_option (fun v : u32 => put_u32 (val v)) o) (get_option get_u32) o.
Proof. apply carries_optional, carries_w32. Qed.
#[export] Hint Resolve carries_optional_u64 carries_optional_u32 : wire.

(** A list of strings under a limit each. *)
Lemma carries_strings (l : list ustring) (maximum : N) :
  Forall (fun s : ustring => byte_length s <= maximum)%N l ->
  carries false (put_all (fun s : ustring => put_string (text s)) l) (get_times (get_string maximum) (length l)) l.
Proof.
  intros H. apply carries_all. eapply Forall_impl; [exact H|]. intros s Hs. by apply carries_string.
Qed.

Lemma existsb_false_Forall {A} (f : A -> bool) (l : list A) :
  existsb f l = false -> Forall (fun x => f x = false) l.
Proof.
  induction l as [|x l IH]; simpl; [constructor|]. intros [Hx Hl]%orb_false_iff. constructor; [done|by apply IH].
Qed.

(** [writer.u32(list.len())] in front of a loop, and the counted loop of the reader. *)
Lemma get_times_counted {A} (g : Reader A) (w : Writer ()) (l : list A) (n : nat) (stop : bool) :
  n = length l -> carries stop w (get_times g (length l)) l -> carries stop w (get_times g n) l.
Proof. by intros ->. Qed.

(** [nonzero(reader.u64()?, field)?] *)
Definition get_nonzero (field : string) : Reader u64 := value ← get_u64; lift (nonzero value field).

Lemma carries_nonzero (v : u64) (field : string) :
  (v =? 0)%N = false -> carries false (put_u64 (val v)) (get_nonzero field) v.
Proof.
  intros Hv. unfold get_nonzero. eapply carries_last; [apply carries_w64|]. apply carries_decided.
  unfold nonzero. by rewrite Hv.
Qed.
Lemma carries_nonzero_num (n : N) (field : string) :
  (n <= u64_max)%N -> n <> 0%N -> carries false (put_u64 n) (get_nonzero field) (to_word u64_max n).
Proof.
  intros Hn H0. pose proof (carries_nonzero (to_word u64_max n) field) as H. rewrite val_to_word in H by done.
  apply H. lia.
Qed.
#[export] Hint Extern 1 (carries _ (put_u64 _) (get_nonzero _) _) =>
  first [apply carries_nonzero; wire_side | apply carries_nonzero_num; wire_side] : wire.
