(* ===== verification/DevicePayloads.v ===== *)
(** * DevicePayloads: wake locks, permissions, notifications, handlers, clipboard, speech

    The message types of src/renderer_protocol/{wake_lock, permission,
    notification, media_devices, protocol_handler, clipboard, speech}.rs, their
    checks, and their writers and readers of src/renderer_protocol/codec/payload. *)

From Stdlib Require Import Strings.Byte.
From S2P Require Import Prelude Text Limits Words Protocol WebStorage Wire WireTheory PayloadFields FetchRequest.

(** ** Wake locks *)
Inductive WakeLockAction := WakeLockAcquire | WakeLockRelease.
Record WakeLockRequest := mkWakeLockRequest {
  wlr_document : DocumentId; wlr_request_id : u64; wlr_client : RequestClient; wlr_action : WakeLockAction }.
Definition WakeLockRequest_validate (r : WakeLockRequest) : result ProtocolError WakeLockRequest :=
  if (wlr_request_id r =? 0)%N then Err (InvalidPayload "wake lock request id") else Ok r.

Inductive WakeLockDisposition := WakeLockGranted | WakeLockDenied | WakeLockReleased.
Record WakeLockUpdate := mkWakeLockUpdate {
  wlu_document : DocumentId; wlu_request_id : u64; wlu_disposition : WakeLockDisposition }.
Definition WakeLockUpdate_validate (u : WakeLockUpdate) : result ProtocolError WakeLockUpdate :=
  if (wlu_request_id u =? 0)%N then Err (InvalidPayload "wake lock update id") else Ok u.

Definition wake_lock_action_tag (a : WakeLockAction) : N := match a with WakeLockAcquire => 1 | WakeLockRelease => 2 end.
Definition decode_wake_lock_action (tag : N) : result ProtocolError WakeLockAction :=
  match tag with
  | 1 => Ok WakeLockAcquire | 2 => Ok WakeLockRelease
  | _ => Err (InvalidPayload "wake lock action")
  end%N.
Definition wake_lock_disposition_tag (d : WakeLockDisposition) : N :=
  match d with WakeLockGranted => 1 | WakeLockDenied => 2 | WakeLockReleased => 3 end.
Definition decode_wake_lock_disposition (tag : N) : result ProtocolError WakeLockDisposition :=
  match tag with
  | 1 => Ok WakeLockGranted | 2 => Ok WakeLockDenied | 3 => Ok WakeLockReleased
  | _ => Err (InvalidPayload "wake lock disposition")
  end%N.

Definition put_wake_lock_request (r : WakeLockRequest) : Writer () :=
  r ← lift (WakeLockRequest_validate r);
  _ ← put_u64 (id_value (wlr_document r));
  _ ← put_u64 (val (wlr_request_id r));
  _ ← put_client (wlr_client r);
  put_u8 (wake_lock_action_tag (wlr_action r)).
Definition get_wake_lock_request : Reader WakeLockRequest :=
  document ← get_document;
  request_id ← get_u64;
  client ← get_client;
  action ← get_tag decode_wake_lock_action;
  _ ← get_finish;
  lift (WakeLockRequest_validate (mkWakeLockRequest document request_id client action)).

Definition put_wake_lock_update (u : WakeLockUpdate) : Writer () :=
  u ← lift (WakeLockUpdate_validate u);
  _ ← put_u64 (id_value (wlu_document u));
  _ ← put_u64 (val (wlu_request_id u));
  put_u8 (wake_lock_disposition_tag (wlu_disposition u)).
Definition get_wake_lock_update : Reader WakeLockUpdate :=
  document ← get_document;
  request_id ← get_u64;
  disposition ← get_tag decode_wake_lock_disposition;
  _ ← get_finish;
  lift (WakeLockUpdate_validate (mkWakeLockUpdate document request_id disposition)).

#[export] Hint Unfold WakeLockRequest_validate WakeLockUpdate_validate : wire_validate.

#[export] Instance wake_lock_request_payload : Payload put_wake_lock_request get_wake_lock_request anything.
Proof. intros [d i c a] _. unfold put_wake_lock_request, get_wake_lock_request. simpl. destruct a; carry. Qed.
#[export] Instance wake_lock_update_payload : Payload put_wake_lock_update get_wake_lock_update anything.
Proof. intros [d i a] _. unfold put_wake_lock_update, get_wake_lock_update. simpl. destruct a; carry. Qed.

(** ** Permission queries *)
Inductive PermissionName :=
  | PermNotifications | PermGeolocation | PermClipboardRead | PermClipboardWrite
  | PermAccelerometer | PermGyroscope | PermMagnetometer | PermAmbientLightSensor.
Inductive PermissionState := PermPrompt | PermGranted | PermDenied.
Record PermissionRequest := mkPermissionRequest {
  pmr_document : DocumentId; pmr_request_id : u64; pmr_client : RequestClient; pmr_embedded : bool;
  pmr_name : PermissionName }.
Record PermissionUpdate := mkPermissionUpdate {
  pmu_document : DocumentId; pmu_request_id : u64; pmu_name : PermissionName; pmu_state : PermissionState;
  pmu_rejected : bool }.
Definition u32_max : N := 4294967295.
Definition PermissionRequest_validate (r : PermissionRequest) : result ProtocolError () :=
  reject ((pmr_request_id r =? 0) || (u32_max <? pmr_request_id r))%N "permission query".
Definition PermissionUpdate_validate (u : PermissionUpdate) : result ProtocolError () :=
  reject ((pmu_request_id u =? 0) || (u32_max <? pmu_request_id u))%N "permission update".

Definition permission_name_tag (n : PermissionName) : N :=
  match n with
  | PermNotifications => 1 | PermGeolocation => 2 | PermClipboardRead => 8 | PermClipboardWrite => 9
  | PermAccelerometer => 4 | PermGyroscope => 5 | PermMagnetometer => 6 | PermAmbientLightSensor => 7
  end.
Definition decode_permission_name (tag : N) : result ProtocolError PermissionName :=
  match tag with
  | 1 => Ok PermNotifications | 2 => Ok PermGeolocation | 8 => Ok PermClipboardRead | 9 => Ok PermClipboardWrite
  | 4 => Ok PermAccelerometer | 5 => Ok PermGyroscope | 6 => Ok PermMagnetometer | 7 => Ok PermAmbientLightSensor
  | _ => Err (InvalidPayload "permission name")
  end%N.
Definition permission_state_tag (s : PermissionState) : N :=
  match s with PermPrompt => 1 | PermGranted => 2 | PermDenied => 3 end.
Definition decode_permission_state (tag : N) : result ProtocolError PermissionState :=
  match tag with
  | 1 => Ok PermPrompt | 2 => Ok PermGranted | 3 => Ok PermDenied
  | _ => Err (InvalidPayload "permission state")
  end%N.

Definition put_permission_request (r : PermissionRequest) : Writer () :=
  _ ← lift (PermissionRequest_validate r);
  _ ← put_u64 (id_value (pmr_document r));
  _ ← put_u64 (val (pmr_request_id r));
  _ ← put_client (pmr_client r);
  _ ← put_bool (pmr_embedded r);
  put_u8 (permission_name_tag (pmr_name r)).
Definition get_permission_request : Reader PermissionRequest :=
  document ← get_document;
  request_id ← get_u64;
  client ← get_client;
  embedded ← get_bool;
  name ← get_tag decode_permission_name;
  _ ← get_finish;
  let request := mkPermissionRequest document request_id client embedded name in
  _ ← lift (PermissionRequest_validate request);
  mret request.
Definition put_permission_update (u : PermissionUpdate) : Writer () :=
  _ ← lift (PermissionUpdate_validate u);
  _ ← put_u64 (id_value (pmu_document u));
  _ ← put_u64 (val (pmu_request_id u));
  _ ← put_u8 (permission_name_tag (pmu_name u));
  _ ← put_u8 (permission_state_tag (pmu_state u));
  put_bool (pmu_rejected u).
Definition get_permission_update : Reader PermissionUpdate :=
  document ← get_document;
  request_id ← get_u64;
  name ← get_tag decode_permission_name;
  state ← get_tag decode_permission_state;
  rejected ← get_bool;
  _ ← get_finish;
  let update := mkPermissionUpdate document request_id name state rejected in
  _ ← lift (PermissionUpdate_validate update);
  mret update.

#[export] Hint Unfold PermissionRequest_validate PermissionUpdate_validate : wire_validate.
#[export] Instance permission_request_payload : Payload put_permission_request get_permission_request anything.
Proof. intros [d i c e n] _. unfold put_permission_request, get_permission_request. simpl. destruct n; carry. Qed.
#[export] Instance permission_update_payload : Payload put_permission_update get_permission_update anything.
Proof. intros [d i n s r] _. unfold put_permission_update, get_permission_update. simpl. destruct n, s; carry. Qed.

(** ** Notifications *)
Definition MAX_NOTIFICATION_TITLE_BYTES : N := 512.
Definition MAX_NOTIFICATION_BODY_BYTES : N := 2 * 1024.
Definition MAX_NOTIFICATION_TAG_BYTES : N := 256.
Inductive NotificationPermission := NotifyDefault | NotifyGranted | NotifyDenied.
#[global] Instance NotificationPermission_eq_dec : EqDecision NotificationPermission.
Proof. solve_decision. Defined.
Inductive NotificationAction := RequestPermission | ShowNotification (title body tag : ustring) | CloseNotification.
Record NotificationRequest := mkNotificationRequest {
  ntr_document : DocumentId; ntr_request_id : u64; ntr_client : RequestClient; ntr_action : NotificationAction }.
Inductive NotificationEvent :=
  | NotificationPermissionIs (p : NotificationPermission)
  | NotificationShown | NotificationClicked | NotificationClosed | NotificationError.
Record NotificationUpdate := mkNotificationUpdate {
  ntu_document : DocumentId; ntu_request_id : u64; ntu_event : NotificationEvent }.
Definition NotificationRequest_validate (r : NotificationRequest) : result ProtocolError () :=
  _ ← reject (ntr_request_id r =? 0)%N "notification request identifier";
  match ntr_action r with
  | ShowNotification title body tag =>
      reject (longer title MAX_NOTIFICATION_TITLE_BYTES || longer body MAX_NOTIFICATION_BODY_BYTES
              || longer tag MAX_NOTIFICATION_TAG_BYTES) "notification text"
  | _ => Ok tt
  end.
Definition NotificationUpdate_validate (u : NotificationUpdate) : result ProtocolError () :=
  reject (ntu_request_id u =? 0)%N "notification update identifier".

Definition put_notification_action (a : NotificationAction) : Writer () :=
  match a with
  | RequestPermission => put_u8 1
  | ShowNotification title body tag =>
      _ ← put_u8 2; _ ← put_string (text title); _ ← put_string (text body); put_string (text tag)
  | CloseNotification => put_u8 3
  end.
Definition get_notification_action : Reader NotificationAction :=
  tag ← get_u8;
  match val tag with
  | 1 => mret RequestPermission
  | 2 =>
      title ← get_string MAX_NOTIFICATION_TITLE_BYTES;
      body ← get_string MAX_NOTIFICATION_BODY_BYTES;
      tag ← get_string MAX_NOTIFICATION_TAG_BYTES;
      mret (ShowNotification title body tag)
  | 3 => mret CloseNotification
  | _ => lift (Err (InvalidPayload "notification action"))
  end%N.
Definition put_notification_request (r : NotificationRequest) : Writer () :=
  _ ← lift (NotificationRequest_validate r);
  _ ← put_u64 (id_value (ntr_document r));
  _ ← put_u64 (val (ntr_request_id r));
  _ ← put_client (ntr_client r);
  put_notification_action (ntr_action r).
Definition get_notification_request : Reader NotificationRequest :=
  document ← get_document;
  request_id ← get_u64;
  client ← get_client;
  action ← get_notification_action;
  _ ← get_finish;
  let request := mkNotificationRequest document request_id client action in
  _ ← lift (NotificationRequest_validate request);
  mret request.

Definition notification_event_tag (e : NotificationEvent) : N :=
  match e with
  | NotificationPermissionIs NotifyDefault => 1 | NotificationPermissionIs NotifyGranted => 2
  | NotificationPermissionIs NotifyDenied => 3 | NotificationShown => 4 | NotificationClicked => 5
  | NotificationClosed => 6 | NotificationError => 7
  end.
Definition decode_notification_event (tag : N) : result ProtocolError NotificationEvent :=
  match tag with
  | 1 => Ok (NotificationPermissionIs NotifyDefault) | 2 => Ok (NotificationPermissionIs NotifyGranted)
  | 3 => Ok (NotificationPermissionIs NotifyDenied) | 4 => Ok NotificationShown | 5 => Ok NotificationClicked
  | 6 => Ok NotificationClosed | 7 => Ok NotificationError
  | _ => Err (InvalidPayload "notification event")
  end%N.
Definition put_notification_update (u : NotificationUpdate) : Writer () :=
  _ ← lift (NotificationUpdate_validate u);
  _ ← put_u64 (id_value (ntu_document u));
  _ ← put_u64 (val (ntu_request_id u));
  put_u8 (notification_event_tag (ntu_event u)).
Definition get_notification_update : Reader NotificationUpdate :=
  document ← get_document;
  request_id ← get_u64;
  event ← get_tag decode_notification_event;
  _ ← get_finish;
  let update := mkNotificationUpdate document request_id event in
  _ ← lift (NotificationUpdate_validate update);
  mret update.

#[export] Hint Unfold NotificationRequest_validate NotificationUpdate_validate : wire_validate.
#[export] Instance notification_request_payload : Payload put_notification_request get_notification_request anything.
Proof.
  intros [d i c a] _. unfold put_notification_request, get_notification_request, get_notification_action.
  simpl. carry. destruct a; simpl in *; wire_break Hparts; (eapply carries_last; [carry|carry]).
Qed.
#[export] Instance notification_update_payload : Payload put_notification_update get_notification_update anything.
Proof.
  intros [d i e] _. unfold put_notification_update, get_notification_update. simpl.
  destruct e as [[]| | | |]; carry.
Qed.

(** ** Media devices *)
Inductive MediaDeviceError := DeviceNotAllowed | DeviceNotReadable.
Inductive MediaDeviceResult := DevicePresence (microphone camera : bool) | DeviceFailed (e : MediaDeviceError).
Record MediaDeviceRequest := mkMediaDeviceRequest {
  mdr_document : DocumentId; mdr_request_id : u64; mdr_client : RequestClient }.
Record MediaDeviceUpdate := mkMediaDeviceUpdate {
  mdu_document : DocumentId; mdu_request_id : u64; mdu_result : MediaDeviceResult }.
Definition MediaDeviceRequest_validate (r : MediaDeviceRequest) : result ProtocolError () :=
  reject (mdr_request_id r =? 0)%N "media-device request identifier".
Definition MediaDeviceUpdate_validate (u : MediaDeviceUpdate) : result ProtocolError () :=
  reject (mdu_request_id u =? 0)%N "media-device update identifier".

Definition put_media_device_request (r : MediaDeviceRequest) : Writer () :=
  _ ← lift (MediaDeviceRequest_validate r);
  _ ← put_u64 (id_value (mdr_document r));
  _ ← put_u64 (val (mdr_request_id r));
  put_client (mdr_client r).
Definition get_media_device_request : Reader MediaDeviceRequest :=
  document ← get_document;
  request_id ← get_u64;
  client ← get_client;
  _ ← get_finish;
  let request := mkMediaDeviceRequest document request_id client in
  _ ← lift (MediaDeviceRequest_validate request);
  mret request.
Definition put_media_device_result (r : MediaDeviceResult) : Writer () :=
  match r with
  | DevicePresence microphone camera => _ ← put_u8 1; _ ← put_bool microphone; put_bool camera
  | DeviceFailed DeviceNotAllowed => put_u8 2
  | DeviceFailed DeviceNotReadable => put_u8 3
  end.
Definition get_media_device_result : Reader MediaDeviceResult :=
  tag ← get_u8;
  match val tag with
  | 1 => microphone ← get_bool; camera ← get_bool; mret (DevicePresence microphone camera)
  | 2 => mret (DeviceFailed DeviceNotAllowed)
  | 3 => mret (DeviceFailed DeviceNotReadable)
  | _ => lift (Err (InvalidPayload "media-device update"))
  end%N.
Definition put_media_device_update (u : MediaDeviceUpdate) : Writer () :=
  _ ← lift (MediaDeviceUpdate_validate u);
  _ ← put_u64 (id_value (mdu_document u));
  _ ← put_u64 (val (mdu_request_id u));
  put_media_device_result (mdu_result u).
Definition get_media_device_update : Reader MediaDeviceUpdate :=
  document ← get_document;
  request_id ← get_u64;
  result ← get_media_device_result;
  _ ← get_finish;
  let update := mkMediaDeviceUpdate document request_id result in
  _ ← lift (MediaDeviceUpdate_validate update);
  mret update.

#[export] Hint Unfold MediaDeviceRequest_validate MediaDeviceUpdate_validate : wire_validate.
#[export] Instance media_device_request_payload : Payload put_media_device_request get_media_device_request anything.
Proof. intros [d i c] _. unfold put_media_device_request, get_media_device_request. simpl. carry. Qed.

Lemma media_device_result_carries (r : MediaDeviceResult) :
  carries false (put_media_device_result r) get_media_device_result r.
Proof. unfold get_media_device_result. destruct r as [m c|[]]; simpl; carry. Qed.
#[export] Hint Resolve media_device_result_carries : wire.

#[export] Instance media_device_update_payload : Payload put_media_device_update get_media_device_update anything.
Proof. intros [d i r] _. unfold put_media_device_update, get_media_device_update. simpl. carry. Qed.

(** ** Custom scheme handlers (limits of src/protocol_handlers.rs) *)
Definition MAX_HANDLER_TEMPLATE_BYTES : N := 2 * 1024.
Definition MAX_HANDLER_SCHEME_BYTES : N := 32.
Inductive ProtocolHandlerAction := HandlerRegister | HandlerUnregister.
Record ProtocolHandlerRequest := mkProtocolHandlerRequest {
  phr_document : DocumentId; phr_client : RequestClient; phr_action : ProtocolHandlerAction;
  phr_scheme : ustring; phr_template : ustring }.
Definition is_empty (s : ustring) : bool := (byte_length s =? 0)%N.
#[export] Hint Unfold is_empty : wire_validate.
Definition ProtocolHandlerRequest_validate (r : ProtocolHandlerRequest) : result ProtocolError () :=
  reject (is_empty (phr_scheme r) || longer (phr_scheme r) MAX_HANDLER_SCHEME_BYTES
          || longer (phr_template r) MAX_HANDLER_TEMPLATE_BYTES || is_empty (phr_template r))
    "protocol handler parameters".
Definition handler_action_tag (a : ProtocolHandlerAction) : N :=
  match a with HandlerRegister => 1 | HandlerUnregister => 2 end.
Definition decode_handler_action (tag : N) : result ProtocolError ProtocolHandlerAction :=
  match tag with
  | 1 => Ok HandlerRegister | 2 => Ok HandlerUnregister
  | _ => Err (InvalidPayload "protocol handler action")
  end%N.
Definition put_protocol_handler_request (r : ProtocolHandlerRequest) : Writer () :=
  _ ← lift (ProtocolHandlerRequest_validate r);
  _ ← put_u64 (id_value (phr_document r));
  _ ← put_client (phr_client r);
  _ ← put_u8 (handler_action_tag (phr_action r));
  _ ← put_string (text (phr_scheme r));
  put_string (text (phr_template r)).
Definition get_protocol_handler_request : Reader ProtocolHandlerRequest :=
  document ← get_document;
  client ← get_client;
  action ← get_tag decode_handler_action;
  scheme ← get_string 32;
  template ← get_string MAX_HANDLER_TEMPLATE_BYTES;
  _ ← get_finish;
  let request := mkProtocolHandlerRequest document client action scheme template in
  _ ← lift (ProtocolHandlerRequest_validate request);
  mret request.

#[export] Hint Unfold ProtocolHandlerRequest_validate MAX_HANDLER_SCHEME_BYTES : wire_validate.
#[export] Instance protocol_handler_request_payload :
  Payload put_protocol_handler_request get_protocol_handler_request anything.
Proof.
  intros [d c a s t] _. unfold put_protocol_handler_request, get_protocol_handler_request. simpl.
  destruct a; carry.
Qed.

(** ** Clipboard *)
Definition MAX_CLIPBOARD_TEXT_BYTES : N := 256 * 1024.
Inductive ClipboardAction := ReadText | WriteText (t : ustring).
Inductive ClipboardValue := ClipboardText (t : ustring) | ClipboardWritten.
Inductive ClipboardError := ClipboardNotAllowed | ClipboardNotFound | ClipboardNotReadable.
Record ClipboardRequest := mkClipboardRequest {
  cbr_document : DocumentId; cbr_request_id : u64; cbr_client : RequestClient; cbr_action : ClipboardAction }.
Record ClipboardUpdate := mkClipboardUpdate {
  cbu_document : DocumentId; cbu_request_id : u64; cbu_result : result ClipboardError ClipboardValue }.
Definition ClipboardRequest_validate (r : ClipboardRequest) : result ProtocolError () :=
  _ ← reject (cbr_request_id r =? 0)%N "clipboard request identifier";
  match cbr_action r with
  | WriteText t => reject (longer t MAX_CLIPBOARD_TEXT_BYTES) "clipboard write text"
  | ReadText => Ok tt
  end.
Definition ClipboardUpdate_validate (u : ClipboardUpdate) : result ProtocolError () :=
  _ ← reject (cbu_request_id u =? 0)%N "clipboard update identifier";
  match cbu_result u with
  | Ok (ClipboardText t) => reject (longer t MAX_CLIPBOARD_TEXT_BYTES) "clipboard read text"
  | _ => Ok tt
  end.
Definition put_clipboard_action (a : ClipboardAction) : Writer () :=
  match a with ReadText => put_u8 1 | WriteText t => _ ← put_u8 2; put_string (text t) end.
Definition get_clipboard_action : Reader ClipboardAction :=
  tag ← get_u8;
  match val tag with
  | 1 => mret ReadText
  | 2 => t ← get_string MAX_CLIPBOARD_TEXT_BYTES; mret (WriteText t)
  | _ => lift (Err (InvalidPayload "clipboard action"))
  end%N.
Definition put_clipboard_request (r : ClipboardRequest) : Writer () :=
  _ ← lift (ClipboardRequest_validate r);
  _ ← put_u64 (id_value (cbr_document r));
  _ ← put_u64 (val (cbr_request_id r));
  _ ← put_client (cbr_client r);
  put_clipboard_action (cbr_action r).
Definition get_clipboard_request : Reader ClipboardRequest :=
  document ← get_document;
  request_id ← get_u64;
  client ← get_client;
  action ← get_clipboard_action;
  _ ← get_finish;
  let request := mkClipboardRequest document request_id client action in
  _ ← lift (ClipboardRequest_validate request);
  mret request.
Definition put_clipboard_result (r : result ClipboardError ClipboardValue) : Writer () :=
  match r with
  | Ok (ClipboardText t) => _ ← put_u8 1; put_string (text t)
  | Ok ClipboardWritten => put_u8 2
  | Err ClipboardNotAllowed => put_u8 3
  | Err ClipboardNotFound => put_u8 4
  | Err ClipboardNotReadable => put_u8 5
  end.
Definition get_clipboard_result : Reader (result ClipboardError ClipboardValue) :=
  tag ← get_u8;
  match val tag with
  | 1 => t ← get_string MAX_CLIPBOARD_TEXT_BYTES; mret (Ok (ClipboardText t))
  | 2 => mret (Ok ClipboardWritten)
  | 3 => mret (Err ClipboardNotAllowed)
  | 4 => mret (Err ClipboardNotFound)
  | 5 => mret (Err ClipboardNotReadable)
  | _ => lift (Err (InvalidPayload "clipboard result"))
  end%N.
Definition put_clipboard_update (u : ClipboardUpdate) : Writer () :=
  _ ← lift (ClipboardUpdate_validate u);
  _ ← put_u64 (id_value (cbu_document u));
  _ ← put_u64 (val (cbu_request_id u));
  put_clipboard_result (cbu_result u).
Definition get_clipboard_update : Reader ClipboardUpdate :=
  document ← get_document;
  request_id ← get_u64;
  result ← get_clipboard_result;
  _ ← get_finish;
  let update := mkClipboardUpdate document request_id result in
  _ ← lift (ClipboardUpdate_validate update);
  mret update.

#[export] Hint Unfold ClipboardRequest_validate ClipboardUpdate_validate : wire_validate.
#[export] Instance clipboard_request_payload : Payload put_clipboard_request get_clipboard_request anything.
Proof.
  intros [d i c a] _. unfold put_clipboard_request, get_clipboard_request, get_clipboard_action. simpl. carry.
  destruct a; simpl in *; wire_break Hparts; (eapply carries_last; [carry|carry]).
Qed.
#[export] Instance clipboard_update_payload : Payload put_clipboard_update get_clipboard_update anything.
Proof.
  intros [d i r] _. unfold put_clipboard_update, get_clipboard_update, get_clipboard_result. simpl. carry.
  destruct r as [[]|[]]; simpl in *; wire_break Hparts; (eapply carries_last; [carry|carry]).
Qed.
