(* ===== verification/MediaPayloads.v ===== *)
(** * MediaPayloads: speech, location, sensors, capture, files and video frames

    The message types of src/renderer_protocol/{speech, geolocation, sensor,
    media_capture, file_picker, video}.rs, their checks, and their writers and
    readers; doubles are the patterns of [Float64]. *)

From Stdlib Require Import Strings.Byte.
From S2P Require Import Prelude Text Limits Words Protocol WebStorage Wire WireTheory PayloadFields Float64 FetchRequest DevicePayloads.

(** ** Speech *)
Definition MAX_SPEECH_TEXT_BYTES : N := 16 * 1024.
Definition MAX_SPEECH_VOICES : N := 64.
Definition MAX_VOICE_FIELD_BYTES : N := 256.
Definition MAX_SPEECH_ERROR_BYTES : N := 512.
Inductive SpeechAction :=
  | Speak (t voice_uri lang : ustring) (rate pitch volume : f32)
  | PauseSpeech | ResumeSpeech | CancelSpeech | GetVoices.
Record SpeechRequest := mkSpeechRequest {
  spr_document : DocumentId; spr_utterance_id : u64; spr_action : SpeechAction }.
Record SpeechVoiceInfo := mkVoice {
  voice_uri : ustring; voice_name : ustring; voice_lang : ustring; voice_is_default : bool }.
Inductive SpeechEvent :=
  | Voices (l : list SpeechVoiceInfo)
  | SpeechStarted | SpeechEnded | SpeechPaused | SpeechResumed | SpeechCancelled | SpeechError (e : ustring).
Record SpeechUpdate := mkSpeechUpdate {
  spu_document : DocumentId; spu_utterance_id : u64; spu_event : SpeechEvent }.

Definition f32_outside (lo hi v : N) : bool := negb (f32_is_finite v) || negb (f32_within lo hi v).
Definition SpeechRequest_validate (r : SpeechRequest) : result ProtocolError () :=
  match spr_action r with
  | Speak t voice_uri lang rate pitch volume =>
      reject ((spr_utterance_id r =? 0)%N || longer t MAX_SPEECH_TEXT_BYTES || longer voice_uri MAX_VOICE_FIELD_BYTES
              || longer lang MAX_VOICE_FIELD_BYTES || f32_outside f32_tenth f32_10 rate
              || f32_outside f32_0 f32_2 pitch || f32_outside f32_0 f32_1 volume) "speech utterance"
  | PauseSpeech | ResumeSpeech | CancelSpeech =>
      reject (negb (spr_utterance_id r =? 0)%N) "speech action identity"
  | GetVoices => reject (spr_utterance_id r =? 0)%N "speech action identity"
  end.
Definition voice_too_long (v : SpeechVoiceInfo) : bool :=
  longer (voice_uri v) MAX_VOICE_FIELD_BYTES || longer (voice_name v) MAX_VOICE_FIELD_BYTES
  || longer (voice_lang v) MAX_VOICE_FIELD_BYTES.
Definition SpeechUpdate_validate (u : SpeechUpdate) : result ProtocolError () :=
  let zero := (spu_utterance_id u =? 0)%N in
  match spu_event u with
  | Voices voices =>
      reject (zero || (MAX_SPEECH_VOICES <? N.of_nat (length voices))%N || existsb voice_too_long voices)
        "speech voices"
  | SpeechError e => reject (zero || longer e MAX_SPEECH_ERROR_BYTES) "speech error"
  | _ => reject zero "speech event identity"
  end.

Definition put_speech_action (a : SpeechAction) : Writer () :=
  match a with
  | Speak t voice_uri lang rate pitch volume =>
      _ ← put_u8 1;
      _ ← put_string (text t); _ ← put_string (text voice_uri); _ ← put_string (text lang);
      _ ← put_u32 (val rate); _ ← put_u32 (val pitch); put_u32 (val volume)
  | PauseSpeech => put_u8 2
  | ResumeSpeech => put_u8 3
  | CancelSpeech => put_u8 4
  | GetVoices => put_u8 5
  end.
Definition get_speech_action : Reader SpeechAction :=
  tag ← get_u8;
  match val tag with
  | 1 =>
      t ← get_string MAX_SPEECH_TEXT_BYTES;
      voice_uri ← get_string MAX_VOICE_FIELD_BYTES;
      lang ← get_string MAX_VOICE_FIELD_BYTES;
      rate ← get_u32; pitch ← get_u32; volume ← get_u32;
      mret (Speak t voice_uri lang rate pitch volume)
  | 2 => mret PauseSpeech
  | 3 => mret ResumeSpeech
  | 4 => mret CancelSpeech
  | 5 => mret GetVoices
  | _ => lift (Err (InvalidPayload "speech action tag"))
  end%N.
Definition put_speech_request (r : SpeechRequest) : Writer () :=
  _ ← lift (SpeechRequest_validate r);
  _ ← put_u64 (id_value (spr_document r));
  _ ← put_u64 (val (spr_utterance_id r));
  put_speech_action (spr_action r).
Definition get_speech_request : Reader SpeechRequest :=
  document ← get_document;
  utterance_id ← get_u64;
  action ← get_speech_action;
  _ ← get_finish;
  let request := mkSpeechRequest document utterance_id action in
  _ ← lift (SpeechRequest_validate request);
  mret request.

Definition put_voice (v : SpeechVoiceInfo) : Writer () :=
  _ ← put_string (text (voice_uri v));
  _ ← put_string (text (voice_name v));
  _ ← put_string (text (voice_lang v));
  put_bool (voice_is_default v).
Definition get_voice : Reader SpeechVoiceInfo :=
  voice_uri ← get_string MAX_VOICE_FIELD_BYTES;
  name ← get_string MAX_VOICE_FIELD_BYTES;
  lang ← get_string MAX_VOICE_FIELD_BYTES;
  is_default ← get_bool;
  mret (mkVoice voice_uri name lang is_default).
Definition put_speech_event (e : SpeechEvent) : Writer () :=
  match e with
  | Voices voices => _ ← put_u8 1; _ ← put_u16 (N.of_nat (length voices) mod 65536); put_all put_voice voices
  | SpeechStarted => put_u8 2
  | SpeechEnded => put_u8 3
  | SpeechPaused => put_u8 4
  | SpeechResumed => put_u8 5
  | SpeechCancelled => put_u8 6
  | SpeechError e => _ ← put_u8 7; put_string (text e)
  end.
Definition get_speech_event : Reader SpeechEvent :=
  tag ← get_u8;
  match val tag with
  | 1 =>
      count ← get_u16;
      _ ← lift (reject (MAX_SPEECH_VOICES <? val count)%N "speech voice count");
      voices ← get_times get_voice (N.to_nat (val count));
      mret (Voices voices)
  | 2 => mret SpeechStarted
  | 3 => mret SpeechEnded
  | 4 => mret SpeechPaused
  | 5 => mret SpeechResumed
  | 6 => mret SpeechCancelled
  | 7 => e ← get_string MAX_SPEECH_ERROR_BYTES; mret (SpeechError e)
  | _ => lift (Err (InvalidPayload "speech event tag"))
  end%N.
Definition put_speech_update (u : SpeechUpdate) : Writer () :=
  _ ← lift (SpeechUpdate_validate u);
  _ ← put_u64 (id_value (spu_document u));
  _ ← put_u64 (val (spu_utterance_id u));
  put_speech_event (spu_event u).
Definition get_speech_update : Reader SpeechUpdate :=
  document ← get_document;
  utterance_id ← get_u64;
  event ← get_speech_event;
  _ ← get_finish;
  let update := mkSpeechUpdate document utterance_id event in
  _ ← lift (SpeechUpdate_validate update);
  mret update.

#[export] Hint Unfold SpeechRequest_validate SpeechUpdate_validate : wire_validate.
#[export] Instance speech_request_payload : Payload put_speech_request get_speech_request anything.
Proof.
  intros [d i a] _. unfold put_speech_request, get_speech_request, get_speech_action. simpl. carry.
  destruct a; simpl in *; wire_break Hparts; (eapply carries_last; [carry|carry]).
Qed.

Lemma voice_carries (v : SpeechVoiceInfo) : voice_too_long v = false -> carries false (put_voice v) get_voice v.
Proof. destruct v. unfold voice_too_long, longer, put_voice, get_voice. simpl. intros H. carry. Qed.

Lemma voices_carry (l : list SpeechVoiceInfo) :
  existsb voice_too_long l = false -> carries false (put_all put_voice l) (get_times get_voice (length l)) l.
Proof.
  intros H. apply carries_all. eapply Forall_impl; [exact (existsb_false_Forall _ _ H)|]. apply voice_carries.
Qed.

#[export] Instance speech_update_payload : Payload put_speech_update get_speech_update anything.
Proof.
  intros [d i e] _. unfold put_speech_update, get_speech_update, get_speech_event. simpl. carry.
  destruct e; simpl in *; wire_break Hparts; (eapply carries_last; [|carry]); carry.
  unfold MAX_SPEECH_VOICES in *. rewrite N.mod_small by lia. carry. rewrite Nat2N.id.
  eapply carries_last; [apply voices_carry; lia|carry].
Qed.

(** ** Doubles: patterns on the wire, compared exactly *)
Definition f64_float := u64.
Definition f64_from_int (z : Z) : Z := (z * 2 ^ 1074)%Z.
(** [(lo..=hi).contains(&v)] with integer bounds, [v < 0.0] and the like; false for NaN. *)
Definition f64_within (lo hi : Z) (v : N) : bool :=
  negb (is_nan v) && (f64_from_int lo <=? value v)%Z && (value v <=? f64_from_int hi)%Z.
Definition f64_negative (v : N) : bool := negb (is_nan v) && (value v <? 0)%Z.
Definition f64_at_least_0 (v : N) : bool := negb (is_nan v) && (0 <=? value v)%Z.
Definition some_and {A} (f : A -> bool) (o : option A) : bool := match o with Some x => f x | None => false end.
Definition put_f64 (v : f64_float) : Writer () := put_u64 (val v).
Definition get_f64 : Reader f64_float := get_u64.
Lemma carries_f64 (v : f64_float) : carries false (put_f64 v) get_f64 v.
Proof. apply carries_w64. Qed.
Lemma carries_optional_f64 (o : option f64_float) : carries false (put_option put_f64 o) (get_option get_f64) o.
Proof. apply carries_optional, carries_f64. Qed.
#[export] Hint Resolve carries_f64 carries_optional_f64 : wire.

(** ** Geolocation *)
Inductive GeolocationAction :=
  | GeoStart (watch high_accuracy : bool) (timeout_millis maximum_age_millis : u64) | GeoClear.
Record GeolocationRequest := mkGeolocationRequest {
  glr_document : DocumentId; glr_request_id : u64; glr_client : RequestClient; glr_action : GeolocationAction }.
Inductive GeolocationErrorCode := GeoPermissionDenied | GeoPositionUnavailable | GeoTimeout.
Record GeolocationPosition := mkPosition {
  latitude : f64_float; longitude : f64_float; accuracy : f64_float; altitude : option f64_float;
  altitude_accuracy : option f64_float; heading : option f64_float; speed : option f64_float;
  timestamp_millis : u64 }.
Inductive GeolocationEvent :=
  | GeoPosition (p : GeolocationPosition) | GeoError (code : GeolocationErrorCode) (message : ustring).
Record GeolocationUpdate := mkGeolocationUpdate {
  glu_document : DocumentId; glu_request_id : u64; glu_terminal : bool; glu_event : GeolocationEvent }.

Definition GeolocationPosition_validate (p : GeolocationPosition) : result ProtocolError () :=
  reject (negb (is_finite (latitude p)) || negb (f64_within (-90) 90 (latitude p))
          || negb (is_finite (longitude p)) || negb (f64_within (-180) 180 (longitude p))
          || negb (is_finite (accuracy p)) || f64_negative (accuracy p)
          || some_and (fun v : f64_float => negb (is_finite v)) (altitude p)
          || some_and (fun v : f64_float => negb (is_finite v) || f64_negative v) (altitude_accuracy p)
          || some_and (fun v : f64_float => negb (is_finite v)
                         || negb (f64_at_least_0 v && (value v <? f64_from_int 360)%Z)) (heading p)
          || some_and (fun v : f64_float => negb (is_finite v) || f64_negative v) (speed p))
    "geolocation position".
Definition GeolocationRequest_validate (r : GeolocationRequest) : result ProtocolError () :=
  reject (glr_request_id r =? 0)%N "geolocation request identifier".
Definition GeolocationUpdate_validate (u : GeolocationUpdate) : result ProtocolError () :=
  _ ← reject (glu_request_id u =? 0)%N "geolocation update identifier";
  match glu_event u with
  | GeoPosition p => GeolocationPosition_validate p
  | GeoError _ message => reject (longer message 512) "geolocation error length"
  end.

Definition put_geolocation_action (a : GeolocationAction) : Writer () :=
  match a with
  | GeoStart watch high_accuracy timeout maximum_age =>
      _ ← put_u8 1;
      _ ← put_bool watch; _ ← put_bool high_accuracy;
      _ ← put_u64 (val timeout); put_u64 (val maximum_age)
  | GeoClear => put_u8 2
  end.
Definition get_geolocation_action : Reader GeolocationAction :=
  tag ← get_u8;
  match val tag with
  | 1 =>
      watch ← get_bool; high_accuracy ← get_bool; timeout ← get_u64; maximum_age ← get_u64;
      mret (GeoStart watch high_accuracy timeout maximum_age)
  | 2 => mret GeoClear
  | _ => lift (Err (InvalidPayload "geolocation action"))
  end%N.
Definition put_geolocation_request (r : GeolocationRequest) : Writer () :=
  _ ← lift (GeolocationRequest_validate r);
  _ ← put_u64 (id_value (glr_document r));
  _ ← put_u64 (val (glr_request_id r));
  _ ← put_client (glr_client r);
  put_geolocation_action (glr_action r).
Definition get_geolocation_request : Reader GeolocationRequest :=
  document ← get_document;
  request_id ← get_u64;
  client ← get_client;
  action ← get_geolocation_action;
  _ ← get_finish;
  let request := mkGeolocationRequest document request_id client action in
  _ ← lift (GeolocationRequest_validate request);
  mret request.

Definition put_position (p : GeolocationPosition) : Writer () :=
  _ ← put_f64 (latitude p); _ ← put_f64 (longitude p); _ ← put_f64 (accuracy p);
  _ ← put_option put_f64 (altitude p); _ ← put_option put_f64 (altitude_accuracy p);
  _ ← put_option put_f64 (heading p); _ ← put_option put_f64 (speed p);
  put_u64 (val (timestamp_millis p)).
Definition get_position : Reader GeolocationPosition :=
  latitude ← get_f64; longitude ← get_f64; accuracy ← get_f64;
  altitude ← get_option get_f64; altitude_accuracy ← get_option get_f64;
  heading ← get_option get_f64; speed ← get_option get_f64;
  timestamp_millis ← get_u64;
  mret (mkPosition latitude longitude accuracy altitude altitude_accuracy heading speed timestamp_millis).
Definition geolocation_code (c : GeolocationErrorCode) : N :=
  match c with GeoPermissionDenied => 1 | GeoPositionUnavailable => 2 | GeoTimeout => 3 end.
Definition decode_geolocation_code (tag : N) : result ProtocolError GeolocationErrorCode :=
  match tag with
  | 1 => Ok GeoPermissionDenied | 2 => Ok GeoPositionUnavailable | 3 => Ok GeoTimeout
  | _ => Err (InvalidPayload "geolocation error code")
  end%N.
Definition put_geolocation_event (e : GeolocationEvent) : Writer () :=
  match e with
  | GeoPosition p => _ ← put_u8 1; put_position p
  | GeoError code message => _ ← put_u8 2; _ ← put_u8 (geolocation_code code); put_string (text message)
  end.
Definition get_geolocation_event : Reader GeolocationEvent :=
  tag ← get_u8;
  match val tag with
  | 1 => p ← get_position; mret (GeoPosition p)
  | 2 => code ← get_tag decode_geolocation_code; message ← get_string 512; mret (GeoError code message)
  | _ => lift (Err (InvalidPayload "geolocation update"))
  end%N.
Definition put_geolocation_update (u : GeolocationUpdate) : Writer () :=
  _ ← lift (GeolocationUpdate_validate u);
  _ ← put_u64 (id_value (glu_document u));
  _ ← put_u64 (val (glu_request_id u));
  _ ← put_bool (glu_terminal u);
  put_geolocation_event (glu_event u).
Definition get_geolocation_update : Reader GeolocationUpdate :=
  document ← get_document;
  request_id ← get_u64;
  terminal ← get_bool;
  event ← get_geolocation_event;
  _ ← get_finish;
  let update := mkGeolocationUpdate document request_id terminal event in
  _ ← lift (GeolocationUpdate_validate update);
  mret update.

#[export] Hint Unfold GeolocationRequest_validate GeolocationUpdate_validate : wire_validate.

Lemma geolocation_action_carries (a : GeolocationAction) :
  carries false (put_geolocation_action a) get_geolocation_action a.
Proof. unfold get_geolocation_action. destruct a; simpl; carry. Qed.
Lemma position_carries (p : GeolocationPosition) : carries false (put_position p) get_position p.
Proof. destruct p. unfold put_position, get_position. simpl. carry. Qed.
#[export] Hint Resolve geolocation_action_carries position_carries : wire.

#[export] Instance geolocation_request_payload : Payload put_geolocation_request get_geolocation_request anything.
Proof. intros [d i c a] _. unfold put_geolocation_request, get_geolocation_request. simpl. carry. Qed.
#[export] Instance geolocation_update_payload : Payload put_geolocation_update get_geolocation_update anything.
Proof.
  intros [d i t e] _. unfold put_geolocation_update, get_geolocation_update, get_geolocation_event. simpl. carry.
  destruct e as [p|[] m]; simpl in *; wire_break Hparts; (eapply carries_last; [carry|carry]).
Qed.
