(* ===== verification/SensorPayloads.v ===== *)
(** * SensorPayloads: sensors, capture, file selections and video frames

    src/renderer_protocol/{sensor, media_capture, file_picker, video}.rs and their
    codecs, with the two assemblers of video frames and file selections. *)

From Stdlib Require Import Strings.Byte.
From S2P Require Import Prelude Text StrOps Limits Words Protocol WebStorage Wire WireTheory PayloadFields Float64 FetchRequest DevicePayloads MediaPayloads.

(** ** Sensors *)
Inductive SensorKind :=
  | SensorOrientation | SensorMotion | SensorAccelerometer | SensorGyroscope | SensorMagnetometer
  | SensorAbsoluteOrientation | SensorRelativeOrientation | SensorAmbientLight | SensorLinearAcceleration
  | SensorGravity | SensorOrientationAbsoluteLegacy.
#[global] Instance SensorKind_eq_dec : EqDecision SensorKind.
Proof. solve_decision. Defined.
Inductive SensorAction :=
  | SensorRequestPermission (kind : SensorKind) (absolute : bool)
  | SensorStart (kind : SensorKind) (frequency_hz : option f64_float)
  | SensorStop (kind : SensorKind).
Record SensorRequest := mkSensorRequest {
  snr_document : DocumentId; snr_request_id : u64; snr_client : RequestClient; snr_user_activation : bool;
  snr_action : SensorAction }.
Definition vector : Type := f64_float * f64_float * f64_float.
Inductive SensorReading :=
  | ReadingOrientation (alpha beta gamma : option f64_float) (absolute : bool)
  | ReadingMotion (acceleration including_gravity rotation_rate : option vector) (interval_ms : f64_float)
  | ReadingThreeAxis (x y z timestamp_ms : f64_float)
  | ReadingQuaternion (x y z w timestamp_ms : f64_float)
  | ReadingIlluminance (illuminance timestamp_ms : f64_float).
Inductive SensorPermission := SensorGranted | SensorDenied.
Inductive SensorErrorKind := SensorNotAllowed | SensorNotReadable | SensorNotSupported.
Inductive SensorEvent :=
  | SensorPermissionIs (p : SensorPermission) | SensorActivated | SensorRead (r : SensorReading)
  | SensorFailed (e : SensorErrorKind).
Record SensorUpdate := mkSensorUpdate { snu_document : DocumentId; snu_request_id : u64; snu_event : SensorEvent }.

Definition SensorRequest_validate (r : SensorRequest) : result ProtocolError () :=
  _ ← reject (snr_request_id r =? 0)%N "sensor request identifier";
  match snr_action r with
  | SensorRequestPermission kind absolute =>
      reject (negb (bool_decide (kind = SensorOrientation) || bool_decide (kind = SensorMotion))
              || absolute && negb (bool_decide (kind = SensorOrientation))) "sensor permission kind"
  | SensorStart _ (Some frequency) =>
      reject (negb (is_finite frequency) || (value frequency <=? 0)%Z || (f64_from_int 60 <? value frequency)%Z)
        "sensor frequency"
  | _ => Ok tt
  end.

(** [v * v > 0.0] in doubles: the square of a small value underflows to zero. A
    sum of squares, which may reach infinity, is positive when one of them is. *)
Definition square_is_positive (v : N) : bool := (2 ^ 1073 <? value v * value v)%Z.
Definition finite (v : f64_float) : bool := is_finite v.
Definition finite_vector (v : vector) : bool := finite v.1.1 && finite v.1.2 && finite v.2.
Definition none_or {A} (f : A -> bool) (o : option A) : bool := match o with Some x => f x | None => true end.
Definition reading_valid (r : SensorReading) : bool :=
  match r with
  | ReadingOrientation alpha beta gamma _ => none_or finite alpha && none_or finite beta && none_or finite gamma
  | ReadingMotion a g r interval_ms =>
      finite interval_ms && f64_at_least_0 interval_ms && none_or finite_vector a && none_or finite_vector g
      && none_or finite_vector r
  | ReadingThreeAxis x y z t => finite x && finite y && finite z && finite t && f64_at_least_0 t
  | ReadingQuaternion x y z w t =>
      (finite x && finite y && finite z && finite w) && finite t && f64_at_least_0 t
      && existsb square_is_positive [val x; val y; val z; val w]
  | ReadingIlluminance i t => finite i && f64_at_least_0 i && finite t && f64_at_least_0 t
  end.
Definition SensorUpdate_validate (u : SensorUpdate) : result ProtocolError () :=
  _ ← reject (snu_request_id u =? 0)%N "sensor update identifier";
  match snu_event u with
  | SensorRead reading => reject (negb (reading_valid reading)) "sensor reading"
  | _ => Ok tt
  end.

Definition sensor_kind_tag (k : SensorKind) : N :=
  match k with
  | SensorOrientation => 1 | SensorMotion => 2 | SensorAccelerometer => 3 | SensorGyroscope => 4
  | SensorMagnetometer => 5 | SensorAbsoluteOrientation => 6 | SensorRelativeOrientation => 7
  | SensorAmbientLight => 8 | SensorLinearAcceleration => 9 | SensorGravity => 10
  | SensorOrientationAbsoluteLegacy => 11
  end.
Definition sensor_kind_from_tag (tag : N) : result ProtocolError SensorKind :=
  match tag with
  | 1 => Ok SensorOrientation | 2 => Ok SensorMotion | 3 => Ok SensorAccelerometer | 4 => Ok SensorGyroscope
  | 5 => Ok SensorMagnetometer | 6 => Ok SensorAbsoluteOrientation | 7 => Ok SensorRelativeOrientation
  | 8 => Ok SensorAmbientLight | 9 => Ok SensorLinearAcceleration | 10 => Ok SensorGravity
  | 11 => Ok SensorOrientationAbsoluteLegacy
  | _ => Err (InvalidPayload "sensor kind")
  end%N.
Definition put_vector (v : vector) : Writer () := _ ← put_f64 v.1.1; _ ← put_f64 v.1.2; put_f64 v.2.
Definition get_vector : Reader vector := x ← get_f64; y ← get_f64; z ← get_f64; mret (x, y, z).

Definition put_sensor_action (a : SensorAction) : Writer () :=
  match a with
  | SensorRequestPermission kind absolute => _ ← put_u8 1; _ ← put_u8 (sensor_kind_tag kind); put_bool absolute
  | SensorStart kind frequency_hz => _ ← put_u8 2; _ ← put_u8 (sensor_kind_tag kind); put_option put_f64 frequency_hz
  | SensorStop kind => _ ← put_u8 3; put_u8 (sensor_kind_tag kind)
  end.
Definition get_sensor_action : Reader SensorAction :=
  tag ← get_u8;
  match val tag with
  | 1 => kind ← get_tag sensor_kind_from_tag; absolute ← get_bool; mret (SensorRequestPermission kind absolute)
  | 2 => kind ← get_tag sensor_kind_from_tag; frequency ← get_option get_f64; mret (SensorStart kind frequency)
  | 3 => kind ← get_tag sensor_kind_from_tag; mret (SensorStop kind)
  | _ => lift (Err (InvalidPayload "sensor action"))
  end%N.
Definition put_sensor_request (r : SensorRequest) : Writer () :=
  _ ← lift (SensorRequest_validate r);
  _ ← put_u64 (id_value (snr_document r));
  _ ← put_u64 (val (snr_request_id r));
  _ ← put_client (snr_client r);
  _ ← put_bool (snr_user_activation r);
  put_sensor_action (snr_action r).
Definition get_sensor_request : Reader SensorRequest :=
  document ← get_document;
  request_id ← get_u64;
  client ← get_client;
  user_activation ← get_bool;
  action ← get_sensor_action;
  _ ← get_finish;
  let request := mkSensorRequest document request_id client user_activation action in
  _ ← lift (SensorRequest_validate request);
  mret request.

Definition sensor_error_tag (e : SensorErrorKind) : N :=
  match e with SensorNotAllowed => 1 | SensorNotReadable => 2 | SensorNotSupported => 3 end.
Definition decode_sensor_error (tag : N) : result ProtocolError SensorErrorKind :=
  match tag with
  | 1 => Ok SensorNotAllowed | 2 => Ok SensorNotReadable | 3 => Ok SensorNotSupported
  | _ => Err (InvalidPayload "sensor error")
  end%N.
Definition put_sensor_event (e : SensorEvent) : Writer () :=
  match e with
  | SensorPermissionIs SensorGranted => put_u8 1
  | SensorPermissionIs SensorDenied => put_u8 2
  | SensorActivated => put_u8 3
  | SensorFailed e => _ ← put_u8 4; put_u8 (sensor_error_tag e)
  | SensorRead (ReadingOrientation alpha beta gamma absolute) =>
      _ ← put_u8 5;
      _ ← put_option put_f64 alpha; _ ← put_option put_f64 beta; _ ← put_option put_f64 gamma;
      put_bool absolute
  | SensorRead (ReadingMotion a g r interval_ms) =>
      _ ← put_u8 6;
      _ ← put_option put_vector a; _ ← put_option put_vector g; _ ← put_option put_vector r;
      put_f64 interval_ms
  | SensorRead (ReadingThreeAxis x y z t) =>
      _ ← put_u8 7; _ ← put_f64 x; _ ← put_f64 y; _ ← put_f64 z; put_f64 t
  | SensorRead (ReadingQuaternion x y z w t) =>
      _ ← put_u8 8; _ ← put_f64 x; _ ← put_f64 y; _ ← put_f64 z; _ ← put_f64 w; put_f64 t
  | SensorRead (ReadingIlluminance i t) => _ ← put_u8 9; _ ← put_f64 i; put_f64 t
  end.
Definition get_sensor_event : Reader SensorEvent :=
  tag ← get_u8;
  match val tag with
  | 1 => mret (SensorPermissionIs SensorGranted)
  | 2 => mret (SensorPermissionIs SensorDenied)
  | 3 => mret SensorActivated
  | 4 => e ← get_tag decode_sensor_error; mret (SensorFailed e)
  | 5 =>
      alpha ← get_option get_f64; beta ← get_option get_f64; gamma ← get_option get_f64;
      absolute ← get_bool; mret (SensorRead (ReadingOrientation alpha beta gamma absolute))
  | 6 =>
      a ← get_option get_vector; g ← get_option get_vector; r ← get_option get_vector;
      interval_ms ← get_f64; mret (SensorRead (ReadingMotion a g r interval_ms))
  | 7 =>
      x ← get_f64; y ← get_f64; z ← get_f64; t ← get_f64; mret (SensorRead (ReadingThreeAxis x y z t))
  | 8 =>
      x ← get_f64; y ← get_f64; z ← get_f64; w ← get_f64; t ← get_f64;
      mret (SensorRead (ReadingQuaternion x y z w t))
  | 9 => i ← get_f64; t ← get_f64; mret (SensorRead (ReadingIlluminance i t))
  | _ => lift (Err (InvalidPayload "sensor event"))
  end%N.
Definition put_sensor_update (u : SensorUpdate) : Writer () :=
  _ ← lift (SensorUpdate_validate u);
  _ ← put_u64 (id_value (snu_document u));
  _ ← put_u64 (val (snu_request_id u));
  put_sensor_event (snu_event u).
Definition get_sensor_update : Reader SensorUpdate :=
  document ← get_document;
  request_id ← get_u64;
  event ← get_sensor_event;
  _ ← get_finish;
  let update := mkSensorUpdate document request_id event in
  _ ← lift (SensorUpdate_validate update);
  mret update.

#[export] Hint Unfold SensorRequest_validate SensorUpdate_validate : wire_validate.

Lemma vector_carries (v : vector) : carries false (put_vector v) get_vector v.
Proof. destruct v as [[x y] z]. unfold put_vector, get_vector. simpl. carry. Qed.
Lemma optional_vector_carries (o : option vector) : carries false (put_option put_vector o) (get_option get_vector) o.
Proof. apply carries_optional, vector_carries. Qed.
Lemma sensor_kind_carries (k : SensorKind) : carries false (put_u8 (sensor_kind_tag k)) (get_tag sensor_kind_from_tag) k.
Proof. destruct k; carry. Qed.
#[export] Hint Resolve optional_vector_carries sensor_kind_carries : wire.
Lemma sensor_action_carries (a : SensorAction) : carries false (put_sensor_action a) get_sensor_action a.
Proof. unfold get_sensor_action. destruct a; simpl; carry. Qed.
Lemma sensor_event_carries (e : SensorEvent) : carries false (put_sensor_event e) get_sensor_event e.
Proof. unfold get_sensor_event. destruct e as [[]| |[]|[]]; simpl; carry. Qed.
#[export] Hint Resolve sensor_action_carries sensor_event_carries : wire.

#[export] Instance sensor_request_payload : Payload put_sensor_request get_sensor_request anything.
Proof. intros [d i c u a] _. unfold put_sensor_request, get_sensor_request. simpl. carry. Qed.
#[export] Instance sensor_update_payload : Payload put_sensor_update get_sensor_update anything.
Proof. intros [d i e] _. unfold put_sensor_update, get_sensor_update. simpl. carry. Qed.
