(* ===== verification/FramePayloads.v ===== *)
(** * FramePayloads: capture, file selections and video frames

    src/renderer_protocol/{media_capture, file_picker, video}.rs and their codecs:
    the messages that carry bytes of their own. *)

From Stdlib Require Import Strings.Byte.
From S2P Require Import Prelude Text StrOps Limits Words Protocol WebStorage Wire WireTheory PayloadFields FetchRequest DevicePayloads.

(** ** Capture *)
Definition MAX_CAPTURE_FRAME_BYTES : N := 2 * 1024 * 1024.
Inductive MediaCaptureAction := CaptureStart (camera microphone : bool) | CaptureStop (track_id : u8).
Record MediaCaptureRequest := mkCaptureRequest {
  mcr_document : DocumentId; mcr_request_id : u64; mcr_client : RequestClient; mcr_action : MediaCaptureAction }.
Inductive MediaCaptureError := CaptureNotAllowed | CaptureNotFound | CaptureNotReadable | CaptureAbort.
Inductive MediaCaptureEvent :=
  | CaptureStarted (camera microphone : bool) | CaptureTrackEnded (track_id : u8) | CaptureEnded
  | CaptureFailed (e : MediaCaptureError).
Record MediaCaptureUpdate := mkCaptureUpdate {
  mcu_document : DocumentId; mcu_request_id : u64; mcu_event : MediaCaptureEvent }.
Inductive MediaCaptureFrameKind := VideoNv12 | AudioPcm16.
Record MediaCaptureFrame := mkCaptureFrame {
  mcf_document : DocumentId; mcf_request_id : u64; mcf_track_id : u64; mcf_sequence : u64;
  mcf_timestamp_100ns : u64; mcf_kind : MediaCaptureFrameKind;
  width_or_rate : u32; height_or_frames : u32; stride_or_channels : u32; mcf_bytes : list byte }.

Definition MediaCaptureRequest_validate (r : MediaCaptureRequest) : result ProtocolError () :=
  _ ← reject (mcr_request_id r =? 0)%N "capture request identifier";
  match mcr_action r with
  | CaptureStart camera microphone => reject (negb camera && negb microphone) "empty capture request"
  | CaptureStop track_id => reject (2 <? track_id)%N "capture stop track"
  end.
Definition MediaCaptureUpdate_validate (u : MediaCaptureUpdate) : result ProtocolError () :=
  _ ← reject (mcu_request_id u =? 0)%N "capture update identifier";
  match mcu_event u with
  | CaptureStarted camera microphone => reject (negb camera && negb microphone) "empty capture stream"
  | CaptureTrackEnded track_id => reject (negb ((1 <=? track_id) && (track_id <=? 2)))%N "capture ended track"
  | _ => Ok tt
  end.
Definition multiple_of (n d : N) : bool := (n mod d =? 0)%N.
Definition MediaCaptureFrame_validate (f : MediaCaptureFrame) : result ProtocolError () :=
  let size := N.of_nat (length (mcf_bytes f)) in
  _ ← reject ((mcf_request_id f =? 0) || (mcf_sequence f =? 0))%N "capture frame identity";
  _ ← reject ((size =? 0) || (MAX_CAPTURE_FRAME_BYTES <? size))%N "capture frame size";
  expected ←
    match mcf_kind f with
    | VideoNv12 =>
        let width := val (width_or_rate f) in
        let height := val (height_or_frames f) in
        let stride := val (stride_or_channels f) in
        _ ← reject (negb (mcf_track_id f =? 1) || (width =? 0) || (height =? 0) || (1280 <? width) || (720 <? height)
                    || negb (multiple_of width 2) || negb (multiple_of height 2) || (stride <? width)
                    || (1280 * 4 <? stride) || negb (multiple_of stride 2))%N "capture NV12 shape";
        let numerator := (size * 2)%N in
        let denominator := (stride * 3)%N in
        _ ← reject (negb (multiple_of numerator denominator)) "capture NV12 allocation";
        let storage_height := (numerator / denominator)%N in
        _ ← reject ((storage_height <? height) || (720 + 64 <? storage_height)
                    || negb (multiple_of storage_height 2))%N "capture NV12 storage height";
        Ok size
    | AudioPcm16 =>
        let rate := val (width_or_rate f) in
        let frames := val (height_or_frames f) in
        let channels := val (stride_or_channels f) in
        _ ← reject (negb (mcf_track_id f =? 2) || negb ((8000 <=? rate) && (rate <=? 48000)) || (frames =? 0)
                    || (960 <? frames) || negb ((1 <=? channels) && (channels <=? 2))
                    || (rate * 20 <? frames * 1000))%N "capture PCM shape";
        Ok (frames * channels * 2)%N
    end;
  reject (negb (size =? expected)%N) "capture frame byte count".

Definition put_capture_action (a : MediaCaptureAction) : Writer () :=
  match a with
  | CaptureStart camera microphone => _ ← put_u8 1; _ ← put_bool camera; put_bool microphone
  | CaptureStop track_id => _ ← put_u8 2; put_u8 (val track_id)
  end.
Definition get_capture_action : Reader MediaCaptureAction :=
  tag ← get_u8;
  match val tag with
  | 1 => camera ← get_bool; microphone ← get_bool; mret (CaptureStart camera microphone)
  | 2 => track_id ← get_u8; mret (CaptureStop track_id)
  | _ => lift (Err (InvalidPayload "capture action"))
  end%N.
Definition put_capture_request (r : MediaCaptureRequest) : Writer () :=
  _ ← lift (MediaCaptureRequest_validate r);
  _ ← put_u64 (id_value (mcr_document r));
  _ ← put_u64 (val (mcr_request_id r));
  _ ← put_client (mcr_client r);
  put_capture_action (mcr_action r).
Definition get_capture_request : Reader MediaCaptureRequest :=
  document ← get_document;
  request_id ← get_u64;
  client ← get_client;
  action ← get_capture_action;
  _ ← get_finish;
  let request := mkCaptureRequest document request_id client action in
  _ ← lift (MediaCaptureRequest_validate request);
  mret request.
Definition capture_error_tag (e : MediaCaptureError) : N :=
  match e with CaptureNotAllowed => 3 | CaptureNotFound => 4 | CaptureNotReadable => 5 | CaptureAbort => 6 end.
Definition put_capture_event (e : MediaCaptureEvent) : Writer () :=
  match e with
  | CaptureStarted camera microphone => _ ← put_u8 1; _ ← put_bool camera; put_bool microphone
  | CaptureEnded => put_u8 2
  | CaptureTrackEnded track_id => _ ← put_u8 7; put_u8 (val track_id)
  | CaptureFailed e => put_u8 (capture_error_tag e)
  end.
Definition get_capture_event : Reader MediaCaptureEvent :=
  tag ← get_u8;
  match val tag with
  | 1 => camera ← get_bool; microphone ← get_bool; mret (CaptureStarted camera microphone)
  | 2 => mret CaptureEnded
  | 7 => track_id ← get_u8; mret (CaptureTrackEnded track_id)
  | 3 => mret (CaptureFailed CaptureNotAllowed)
  | 4 => mret (CaptureFailed CaptureNotFound)
  | 5 => mret (CaptureFailed CaptureNotReadable)
  | 6 => mret (CaptureFailed CaptureAbort)
  | _ => lift (Err (InvalidPayload "capture update event"))
  end%N.
Definition put_capture_update (u : MediaCaptureUpdate) : Writer () :=
  _ ← lift (MediaCaptureUpdate_validate u);
  _ ← put_u64 (id_value (mcu_document u));
  _ ← put_u64 (val (mcu_request_id u));
  put_capture_event (mcu_event u).
Definition get_capture_update : Reader MediaCaptureUpdate :=
  document ← get_document;
  request_id ← get_u64;
  event ← get_capture_event;
  _ ← get_finish;
  let update := mkCaptureUpdate document request_id event in
  _ ← lift (MediaCaptureUpdate_validate update);
  mret update.
Definition capture_kind_tag (k : MediaCaptureFrameKind) : N := match k with VideoNv12 => 1 | AudioPcm16 => 2 end.
Definition decode_capture_kind (tag : N) : result ProtocolError MediaCaptureFrameKind :=
  match tag with 1 => Ok VideoNv12 | 2 => Ok AudioPcm16 | _ => Err (InvalidPayload "capture frame kind") end%N.
Definition put_capture_frame (f : MediaCaptureFrame) : Writer () :=
  _ ← lift (MediaCaptureFrame_validate f);
  _ ← put_u64 (id_value (mcf_document f));
  _ ← put_u64 (val (mcf_request_id f));
  _ ← put_u64 (val (mcf_track_id f));
  _ ← put_u64 (val (mcf_sequence f));
  _ ← put_u64 (val (mcf_timestamp_100ns f));
  _ ← put_u8 (capture_kind_tag (mcf_kind f));
  _ ← put_u32 (val (width_or_rate f));
  _ ← put_u32 (val (height_or_frames f));
  _ ← put_u32 (val (stride_or_channels f));
  put_blob (mcf_bytes f).
Definition get_capture_frame : Reader MediaCaptureFrame :=
  document ← get_document;
  request_id ← get_u64; track_id ← get_u64; sequence ← get_u64; timestamp_100ns ← get_u64;
  kind ← get_tag decode_capture_kind;
  width_or_rate ← get_u32; height_or_frames ← get_u32; stride_or_channels ← get_u32;
  bytes ← get_blob MAX_CAPTURE_FRAME_BYTES;
  _ ← get_finish;
  let frame := mkCaptureFrame document request_id track_id sequence timestamp_100ns kind
                 width_or_rate height_or_frames stride_or_channels bytes in
  _ ← lift (MediaCaptureFrame_validate frame);
  mret frame.

#[export] Hint Unfold MediaCaptureRequest_validate MediaCaptureUpdate_validate : wire_validate.
Lemma capture_action_carries (a : MediaCaptureAction) : carries false (put_capture_action a) get_capture_action a.
Proof. unfold get_capture_action. destruct a; simpl; carry. Qed.
Lemma capture_event_carries (e : MediaCaptureEvent) : carries false (put_capture_event e) get_capture_event e.
Proof. unfold get_capture_event. destruct e as [| | |[]]; simpl; carry. Qed.
#[export] Hint Resolve capture_action_carries capture_event_carries : wire.

#[export] Instance capture_request_payload : Payload put_capture_request get_capture_request anything.
Proof. intros [d i c a] _. unfold put_capture_request, get_capture_request. simpl. carry. Qed.
#[export] Instance capture_update_payload : Payload put_capture_update get_capture_update anything.
Proof. intros [d i e] _. unfold put_capture_update, get_capture_update. simpl. carry. Qed.

Lemma capture_frame_size (f : MediaCaptureFrame) :
  MediaCaptureFrame_validate f = Ok tt -> (0 < N.of_nat (length (mcf_bytes f)) <= MAX_CAPTURE_FRAME_BYTES)%N.
Proof.
  unfold MediaCaptureFrame_validate, reject. intros H. inv_res. bool_props. lia.
Qed.
#[export] Instance capture_frame_payload : Payload put_capture_frame get_capture_frame anything.
Proof.
  intros f _. unfold put_capture_frame, get_capture_frame. apply carries_check. intros [] Hv.
  pose proof (capture_frame_size f Hv). destruct f as [d i t s ts k w h st b]. simpl in *. destruct k; carry.
Qed.

(** ** File selections *)
Definition MAX_FILE_PICKER_FILES : N := 8.
Definition MAX_FILE_PICKER_BYTES : N := 4 * 1024 * 1024.
Definition MAX_FILE_PICKER_CHUNK_BYTES : N := 64 * 1024.
Definition MAX_FILE_PICKER_NAME_BYTES : N := 255.
Definition MAX_FILE_PICKER_MIME_BYTES : N := 255.
Definition MAX_FILE_PICKER_ACCEPT_BYTES : N := 4096.
Record FilePickerRequest := mkFilePickerRequest {
  fpr_document : DocumentId; fpr_request_id : u64; fpr_node : DocumentNodeId; fpr_client : RequestClient;
  fpr_multiple : bool; fpr_accept : ustring }.
(** [last_modified] is an [i64] by its pattern. *)
Record SelectedFileMetadata := mkSelectedMetadata {
  sf_name : ustring; sf_mime_type : ustring; sf_last_modified : u64; sf_size : u32 }.
Inductive FilePickerUpdate :=
  | PickStart (document : DocumentId) (request_id : u64) (files : list SelectedFileMetadata)
  | PickChunk (document : DocumentId) (request_id : u64) (file_index : u8) (offset : u32) (bytes : list byte)
  | PickEnd (document : DocumentId) (request_id : u64)
  | PickCanceled (document : DocumentId) (request_id : u64)
  | PickFailed (document : DocumentId) (request_id : u64).
Definition picker_document (u : FilePickerUpdate) : DocumentId :=
  match u with PickStart d _ _ | PickChunk d _ _ _ _ | PickEnd d _ | PickCanceled d _ | PickFailed d _ => d end.
Definition picker_request_id (u : FilePickerUpdate) : u64 :=
  match u with PickStart _ i _ | PickChunk _ i _ _ _ | PickEnd _ i | PickCanceled _ i | PickFailed _ i => i end.

Definition FilePickerRequest_validate (r : FilePickerRequest) : result ProtocolError () :=
  _ ← reject (fpr_request_id r =? 0)%N "file picker request identifier";
  reject (longer (fpr_accept r) MAX_FILE_PICKER_ACCEPT_BYTES || contains_char zero (fpr_accept r))
    "file picker accept hint".
Definition is_ascii_control (c : N) : bool := (c <? 32)%N || (c =? 127)%N.
Definition forbidden_in_name (c : N) : bool :=
  (c =? 47)%N || (c =? 92)%N || (c =? 58)%N || is_ascii_control c.
Definition is_mime_token (b : N) : bool :=
  ((97 <=? b) && (b <=? 122))%N || is_ascii_digit b || one_of "!#$%&'*+-.^_`|~" b.
Definition mime_type_ok (s : string) : bool :=
  match split_once "/"%char s with
  | Some (type_, subtype) =>
      negb (String.eqb type_ EmptyString) && negb (String.eqb subtype EmptyString)
      && forallb is_mime_token (bytes type_) && forallb is_mime_token (bytes subtype)
  | None => false
  end.
Definition unsigned_abs (v : u64) : N := if N.testbit v 63 then (2 ^ 64 - v)%N else v.
Definition SelectedFileMetadata_validate (f : SelectedFileMetadata) : result ProtocolError () :=
  _ ← reject (is_empty (sf_name f) || longer (sf_name f) MAX_FILE_PICKER_NAME_BYTES
              || String.eqb (sf_name f) "." || String.eqb (sf_name f) ".."
              || existsb forbidden_in_name (chars (sf_name f))) "selected file basename";
  reject (longer (sf_mime_type f) MAX_FILE_PICKER_MIME_BYTES
          || negb (is_empty (sf_mime_type f)) && negb (mime_type_ok (sf_mime_type f))
          || (9007199254740991 <? unsigned_abs (sf_last_modified f))%N
          || (MAX_FILE_PICKER_BYTES <? sf_size f)%N) "selected file metadata".

(** The loop that validates and sums; at most 8 sizes of 32 bits do not overflow. *)
Fixpoint files_total (total : N) (files : list SelectedFileMetadata) : result ProtocolError N :=
  match files with
  | [] => Ok total
  | f :: files =>
      _ ← SelectedFileMetadata_validate f;
      total ← ok_or (checked_add total (sf_size f)) (InvalidPayload "selected file size");
      files_total total files
  end.
Definition FilePickerUpdate_validate (u : FilePickerUpdate) : result ProtocolError () :=
  _ ← reject (picker_request_id u =? 0)%N "file picker update identifier";
  match u with
  | PickStart _ _ files =>
      let n := N.of_nat (length files) in
      _ ← reject ((n =? 0) || (MAX_FILE_PICKER_FILES <? n))%N "selected file count";
      total ← files_total 0 files;
      reject (MAX_FILE_PICKER_BYTES <? total)%N "selected file size"
  | PickChunk _ _ file_index _ bytes =>
      let n := N.of_nat (length bytes) in
      reject ((MAX_FILE_PICKER_FILES <=? file_index) || (n =? 0) || (MAX_FILE_PICKER_CHUNK_BYTES <? n))%N
        "selected file chunk"
  | _ => Ok tt
  end.

Definition put_file_picker_request (r : FilePickerRequest) : Writer () :=
  _ ← lift (FilePickerRequest_validate r);
  _ ← put_u64 (id_value (fpr_document r));
  _ ← put_u64 (val (fpr_request_id r));
  _ ← put_u128 (node_value (fpr_node r));
  _ ← put_client (fpr_client r);
  _ ← put_bool (fpr_multiple r);
  put_string (text (fpr_accept r)).
Definition get_file_picker_request : Reader FilePickerRequest :=
  document ← get_document;
  request_id ← get_u64;
  node ← get_node;
  client ← get_client;
  multiple ← get_bool;
  accept ← get_string MAX_FILE_PICKER_ACCEPT_BYTES;
  _ ← get_finish;
  let request := mkFilePickerRequest document request_id node client multiple accept in
  _ ← lift (FilePickerRequest_validate request);
  mret request.
Definition put_file_metadata (f : SelectedFileMetadata) : Writer () :=
  _ ← put_string (text (sf_name f));
  _ ← put_string (text (sf_mime_type f));
  _ ← put_u64 (val (sf_last_modified f));
  put_u32 (val (sf_size f)).
Definition get_file_metadata : Reader SelectedFileMetadata :=
  name ← get_string MAX_FILE_PICKER_NAME_BYTES;
  mime_type ← get_string MAX_FILE_PICKER_MIME_BYTES;
  last_modified ← get_u64;
  size ← get_u32;
  mret (mkSelectedMetadata name mime_type last_modified size).
Definition put_picker_body (u : FilePickerUpdate) : Writer () :=
  match u with
  | PickStart _ _ files => _ ← put_u8 1; _ ← put_u8 (N.of_nat (length files) mod 256); put_all put_file_metadata files
  | PickChunk _ _ file_index offset bytes =>
      _ ← put_u8 2; _ ← put_u8 (val file_index); _ ← put_u32 (val offset); put_blob bytes
  | PickEnd _ _ => put_u8 3
  | PickCanceled _ _ => put_u8 4
  | PickFailed _ _ => put_u8 5
  end.
Definition get_picker_body (document : DocumentId) (request_id : u64) : Reader FilePickerUpdate :=
  tag ← get_u8;
  match val tag with
  | 1 =>
      count ← get_u8;
      _ ← lift (reject ((val count =? 0) || (MAX_FILE_PICKER_FILES <? val count)) "selected file count");
      files ← get_times get_file_metadata (N.to_nat (val count));
      mret (PickStart document request_id files)
  | 2 =>
      file_index ← get_u8; offset ← get_u32; bytes ← get_blob MAX_FILE_PICKER_CHUNK_BYTES;
      mret (PickChunk document request_id file_index offset bytes)
  | 3 => mret (PickEnd document request_id)
  | 4 => mret (PickCanceled document request_id)
  | 5 => mret (PickFailed document request_id)
  | _ => lift (Err (InvalidPayload "file picker update kind"))
  end%N.
Definition put_file_picker_update (u : FilePickerUpdate) : Writer () :=
  _ ← lift (FilePickerUpdate_validate u);
  _ ← put_u64 (id_value (picker_document u));
  _ ← put_u64 (val (picker_request_id u));
  put_picker_body u.
Definition get_file_picker_update : Reader FilePickerUpdate :=
  document ← get_document;
  request_id ← get_u64;
  update ← get_picker_body document request_id;
  _ ← get_finish;
  _ ← lift (FilePickerUpdate_validate update);
  mret update.

#[export] Hint Unfold FilePickerRequest_validate FilePickerUpdate_validate : wire_validate.
#[export] Instance file_picker_request_payload : Payload put_file_picker_request get_file_picker_request anything.
Proof. intros [d i n c m a] _. unfold put_file_picker_request, get_file_picker_request. simpl. carry. Qed.

Lemma file_metadata_carries (f : SelectedFileMetadata) :
  SelectedFileMetadata_validate f = Ok tt -> carries false (put_file_metadata f) get_file_metadata f.
Proof.
  unfold SelectedFileMetadata_validate, reject, longer. intros H. inv_res.
  destruct f. unfold put_file_metadata, get_file_metadata. simpl in *. carry.
Qed.
Lemma files_total_each (files : list SelectedFileMetadata) (t t' : N) :
  files_total t files = Ok t' ->
  Forall (fun f => SelectedFileMetadata_validate f = Ok tt) files /\ t' = (t + sum_by (fun f => val (sf_size f)) files)%N.
Proof.
  revert t. induction files as [|f files IH]; intros t; simpl; [intros [= <-]; split; [constructor|unfold sum_by; simpl; lia]|].
  intros H. inv_res. apply IH in H as [Hf ->]. destruct x. split; [by constructor|].
  unfold checked_add in *. destruct (N.leb_spec (t + sf_size f) u64_max); [|done].
  match goal with H : Some _ = Some _ |- _ => injection H as <- end. unfold sum_by. simpl. lia.
Qed.
#[export] Instance file_picker_update_payload : Payload put_file_picker_update get_file_picker_update anything.
Proof.
  intros u _. unfold put_file_picker_update, get_file_picker_update, get_picker_body. carry.
  destruct u as [d i files|d i x o b|d i|d i|d i]; simpl in *; wire_break Hparts;
    (eapply carries_last; [|carry]); carry.
  pose proof Hcheck1 as [Hf _]%files_total_each.
  unfold MAX_FILE_PICKER_FILES in *. rewrite N.mod_small by lia. carry. rewrite Nat2N.id.
  eapply carries_last; [apply carries_all|carry].
  eapply Forall_impl; [exact Hf|]. apply file_metadata_carries.
Qed.

(** ** Video frames *)
Record VideoFrameIdentity := mkVideoIdentity {
  vf_document : DocumentId; vf_revision : u64; vf_frame : u64; vf_node : u128; vf_width : u32; vf_height : u32 }.
#[global] Instance VideoFrameIdentity_eq_dec : EqDecision VideoFrameIdentity.
Proof. solve_decision. Defined.
Record VideoFrameChunk := mkVideoChunk { vc_identity : VideoFrameIdentity; vc_offset : u32; vc_bytes : list byte }.
Definition checked_mul (a b : N) : option N := if (a * b <=? u64_max)%N then Some (a * b)%N else None.
Definition VideoFrameIdentity_byte_length (i : VideoFrameIdentity) : result ProtocolError N :=
  let length := default u64_max (pixels ← checked_mul (vf_width i) (vf_height i); checked_mul pixels 4) in
  if ((vf_revision i =? 0) || (vf_frame i =? 0) || (vf_node i =? 0) || (vf_width i =? 0) || (vf_height i =? 0)
      || (MAX_MEDIA_DIMENSION <? vf_width i) || (MAX_MEDIA_DIMENSION <? vf_height i)
      || (MAX_MEDIA_DECODED_FRAME_BYTES <? length))%N
  then Err (InvalidPayload "video frame identity or dimensions") else Ok length.
Definition VideoFrameChunk_validate (c : VideoFrameChunk) : result ProtocolError () :=
  total ← VideoFrameIdentity_byte_length (vc_identity c);
  let n := N.of_nat (length (vc_bytes c)) in
  reject ((n =? 0) || (1024 * 1024 <? n)
          || match checked_add (vc_offset c) n with Some stop => total <? stop | None => true end)%N
    "video frame chunk extent".
Definition put_video_chunk (c : VideoFrameChunk) : Writer () :=
  let i := vc_identity c in
  _ ← lift (VideoFrameChunk_validate c);
  _ ← put_u64 (id_value (vf_document i));
  _ ← put_u64 (val (vf_revision i));
  _ ← put_u64 (val (vf_frame i));
  _ ← put_u128 (val (vf_node i));
  _ ← put_u32 (val (vf_width i));
  _ ← put_u32 (val (vf_height i));
  _ ← put_u32 (val (vc_offset c));
  put_blob (vc_bytes c).
Definition get_video_chunk : Reader VideoFrameChunk :=
  document ← get_document;
  revision ← get_u64; frame ← get_u64; node ← get_u128; width ← get_u32; height ← get_u32;
  let identity := mkVideoIdentity document revision frame node width height in
  _ ← lift (VideoFrameIdentity_byte_length identity);
  offset ← get_u32;
  bytes ← get_blob (1024 * 1024);
  _ ← get_finish;
  let chunk := mkVideoChunk identity offset bytes in
  _ ← lift (VideoFrameChunk_validate chunk);
  mret chunk.

#[export] Instance video_chunk_payload : Payload put_video_chunk get_video_chunk anything.
Proof.
  intros c _. unfold put_video_chunk, get_video_chunk. apply carries_check. intros [] Hv.
  pose proof Hv as Hv'. unfold VideoFrameChunk_validate, reject in Hv'. inv_res.
  destruct c as [[d r f n w h] o b]. simpl in *. carry.
Qed.
