(* ===== verification/LocalStore.v ===== *)
(** * LocalStore: the stores of many origins, and their file

    src/storage.rs ([SessionStorage], [LocalStorage]), src/storage/changes.rs
    (the transaction and its change records) and src/storage/persistence.rs (the
    profile file). A transaction applies a batch to one origin and saves the
    store once; [transact] is a program of the file-system monad of [Fs]. *)

From stdpp Require Import sorting.
From Stdlib Require Import Strings.Byte.
From S2P Require Import Prelude Text OrderedMap Limits Origins Fs WebStorage.

(** [HashMap<String, StorageAreaState>]. *)
Abbreviation Origins := (gmap string StorageAreaState) (only parsing).

(** [StorageChange] of src/storage/changes.rs. *)
Record StorageChange := mkChange {
  change_version : N;
  change_key : option StorageString;
  old_value : option StorageString;
  new_value : option StorageString
}.
#[global] Instance StorageChange_eq_dec : EqDecision StorageChange.
Proof. solve_decision. Defined.

Definition StorageChange_before (area : option StorageAreaState) (op : StorageOperation)
  : StorageChange :=
  let '(key, new_value) := match op with
                           | Set_ key value => (Some key, Some value)
                           | Remove key => (Some key, None)
                           | Clear => (None, None)
                           end in
  let old_value := key ≫= fun key => area ≫= fun area => StorageAreaState_get area key in
  mkChange 0 key old_value new_value.

(** [origins.get(&origin).map(snapshot).unwrap_or_else(empty)]. *)
Definition area_snapshot (area : option StorageAreaState) : StorageAreaSnapshot :=
  from_option StorageAreaState_snapshot StorageAreaSnapshot_empty area.

(** The area is mutated in place, also when it refuses. *)
Definition apply_to_origin (origins : Origins) (origin : string) (m : StorageMutation)
  : Origins * result StorageError bool :=
  match origins !! origin with
  | Some area => let '(area, r) := StorageAreaState_apply area m in (<[origin := area]> origins, r)
  | None =>
      if (MAX_STORAGE_ORIGINS <=? N.of_nat (size origins))%N then (origins, Err QuotaExceeded)
      else
        match StorageAreaState_apply StorageAreaState_default m with
        | (_, Err e) => (origins, Err e)
        | (area, Ok changed) =>
            (if changed then <[origin := area]> origins else origins, Ok changed)
        end
  end.

(** The loop of [transact], with its locals [changed] and [records]; [record]
    says whether the caller asked for records. An early return leaves [origins]
    as far as the loop got. Indexing [state.origins[&origin]] cannot miss: a
    change has just been made there ([apply_to_origin_cases]). *)
Fixpoint transact_loop (origins : Origins) (origin : string) (record : bool)
    (changed : bool) (records : list StorageChange) (ms : list StorageMutation)
  : Origins * result StorageError (bool * list StorageChange) :=
  match ms with
  | [] => (origins, Ok (changed, records))
  | m :: ms =>
      let rec := StorageChange_before (origins !! origin) (operation m) in
      match apply_to_origin origins origin m with
      | (origins, Err e) => (origins, Err e)
      | (origins, Ok true) =>
          let records :=
            if record then
              records ++ [mkChange (from_option version 0%N (origins !! origin))
                            (change_key rec) (old_value rec) (new_value rec)]
            else records in
          transact_loop origins origin record true records ms
      | (origins, Ok false) => transact_loop origins origin record changed records ms
      end
  end.

(** [LocalStorage]: the mutex holds the origins; a panic elsewhere while it was
    held poisons it. *)
Record LocalStorage := mkLocal {
  origins : Origins;
  poisoned : bool;
  store_path : option Path
}.
Definition set_origins (ls : LocalStorage) (o : Origins) : LocalStorage :=
  mkLocal o (poisoned ls) (store_path ls).

Record SessionStorage := mkSession { session_origins : Origins }.

(** ** The profile file (src/storage/persistence.rs) *)
Definition FORMAT_VERSION : N := 2.

Record PersistedOrigin := mkPersistedOrigin {
  persisted_origin : string;
  persisted_version : N;
  persisted_entries : list (StoredString * StoredString)
}.
Record PersistedStorage := mkPersisted {
  format_version : N;
  persisted_origins : list PersistedOrigin
}.

(** The [serde_json] crate on [PersistedStorage]: the chunks its serialiser
    passes to the writer, with the error it may stop at, and its parser. *)
Class JsonLib := {
  to_writer_chunks : PersistedStorage -> list (list byte) * option string;
  from_slice : list byte -> result string PersistedStorage
}.

(** Derived [Serialize] and [Deserialize] agree on the document they exchange. *)
Class JsonLaws `{JsonLib} : Prop :=
  json_round_trip (d : PersistedStorage) chunks :
    to_writer_chunks d = (chunks, None) -> from_slice (concat chunks) = Ok d.

(** [BoundedOutput]: the writer refuses the chunk that would pass the limit. *)
Fixpoint bounded_write (out : list byte) (chunks : list (list byte)) : option (list byte) :=
  match chunks with
  | [] => Some out
  | c :: chunks =>
      if (MAX_PERSISTED_STORAGE_BYTES
          <? saturating_add (N.of_nat (length out)) (N.of_nat (length c)))%N
      then None else bounded_write (out ++ c) chunks
  end.

Definition persist_area (origin : string) (a : StorageAreaState) : PersistedOrigin :=
  mkPersistedOrigin origin (version a)
    ((fun kv => (StorageString_serialize kv.1, StorageString_serialize kv.2)) <$> entries a).

(** [sort_by] on the origin; [map_to_list] stands for the hash map's order. *)
Definition origin_le (p q : PersistedOrigin) : Prop :=
  cmp (persisted_origin p) (persisted_origin q) <> Gt.
#[global] Instance origin_le_dec p q : Decision (origin_le p q).
Proof. unfold origin_le. apply _. Defined.

Definition from_state (o : Origins) : PersistedStorage :=
  mkPersisted FORMAT_VERSION
    (merge_sort origin_le ((fun oa => persist_area oa.1 oa.2) <$> map_to_list o)).

Section store.
Context {URL : UrlLib} {JSON : JsonLib}.

(** [storage_origin] of src/storage.rs. *)
Definition storage_origin (url : string) : result StorageError string :=
  serialized ← map_err (fun _ => Invalid "storage origin") (origin_string url);
  if String.eqb serialized "null" then Err (Invalid "opaque storage origin") else Ok serialized.

Fixpoint into_state_loop (o : Origins) (ps : list PersistedOrigin) : result StorageError Origins :=
  match ps with
  | [] => Ok o
  | p :: ps =>
      parsed ← storage_origin (persisted_origin p +:+ "/");
      if negb (String.eqb parsed (persisted_origin p)) || (persisted_version p =? 0)%N then
        Err (Invalid "persisted storage origin")
      else
        area ← from_snapshot (mkSnapshot (persisted_version p)
                 ((fun kv => mkEntry (StorageString_deserialize kv.1)
                                     (StorageString_deserialize kv.2)) <$> persisted_entries p));
        if bool_decide (is_Some (o !! persisted_origin p)) then
          Err (Invalid "duplicate storage origin")
        else into_state_loop (<[persisted_origin p := area]> o) ps
  end.

Definition into_state (d : PersistedStorage) : result StorageError Origins :=
  if negb ((format_version d =? 1) || (format_version d =? FORMAT_VERSION))%N
     || (MAX_STORAGE_ORIGINS <? N.of_nat (length (persisted_origins d)))%N
  then Err (Invalid "storage file metadata")
  else into_state_loop ∅ (persisted_origins d).

Definition encode (o : Origins) : result StorageError (list byte) :=
  let '(chunks, failure) := to_writer_chunks (from_state o) in
  match bounded_write [] chunks, failure with
  | None, _ => Err QuotaExceeded
  | Some _, Some error => Err (Persistence error)
  | Some out, None => Ok out
  end.

(** What [load_file] makes of the bytes it read. *)
Definition decode (bytes : list byte) : result StorageError Origins :=
  if (MAX_PERSISTED_STORAGE_BYTES <? N.of_nat (length bytes))%N then Err QuotaExceeded
  else d ← map_err Persistence (from_slice bytes); into_state d.

Definition load_file (p : Path) : io (result StorageError (option Origins)) :=
  opened ← file_open p;
  match opened with
  | Err e => match error_kind e with
             | NotFound => mret (Ok None)
             | OtherKind => mret (Err (Persistence (error_text e)))
             end
  | Ok _ =>
      bytes ←? io_map_err (fun e => Persistence (error_text e))
                 (read_limited p (MAX_PERSISTED_STORAGE_BYTES + 1));
      mret (Some <$> decode bytes)
  end.

Definition load (p : Path) : io (result StorageError Origins) :=
  primary ← load_file p;
  match primary with
  | Ok (Some state) => mret (Ok state)
  | Ok None => state ←? load_file (backup_path p); mret (Ok (default ∅ state))
  | Err primary => state ←? load_file (backup_path p); mret (ok_or state primary)
  end.

(** ** The public operations of src/storage.rs *)
Definition SessionStorage_snapshot (s : SessionStorage) (url : string)
  : result StorageError StorageAreaSnapshot :=
  origin ← storage_origin url; Ok (area_snapshot (session_origins s !! origin)).

Definition SessionStorage_apply (s : SessionStorage) (url : string) (m : StorageMutation)
  : SessionStorage * result StorageError bool :=
  if bool_decide (area m <> SessionArea) then
    (s, Err (Invalid "session storage mutation area"))
  else
    match storage_origin url with
    | Err e => (s, Err e)
    | Ok origin => let '(o, r) := apply_to_origin (session_origins s) origin m in (mkSession o, r)
    end.

Definition in_memory : LocalStorage := mkLocal ∅ false None.

Definition LocalStorage_open (p : Path) : io (result StorageError LocalStorage) :=
  state ←? load p; mret (Ok (mkLocal state false (Some p))).

Definition lock (ls : LocalStorage) : result StorageError Origins :=
  if poisoned ls then Err (Persistence "storage lock is poisoned") else Ok (origins ls).

Definition LocalStorage_snapshot (ls : LocalStorage) (url : string)
  : result StorageError StorageAreaSnapshot :=
  origin ← storage_origin url; state ← lock ls; Ok (area_snapshot (state !! origin)).

Definition LocalStorage_usage (ls : LocalStorage) (url : string) : result StorageError N :=
  origin ← storage_origin url;
  state ← lock ls;
  Ok (from_option StorageAreaState_byte_len 0%N (state !! origin)).

(** [transact] of src/storage/changes.rs. *)
Definition flush (pid : N) (p : option Path) (changed : bool) (o : Origins)
  : io (result StorageError ()) :=
  match p with
  | Some path =>
      if changed then
        bytes ←? mret (encode o);
        io_map_err Persistence (write_recoverable pid path bytes)
      else mret (Ok tt)
  | None => mret (Ok tt)
  end.

Definition rollback (o : Origins) (origin : string) (previous : option StorageAreaState)
    (error : StorageError) : Origins * StorageError :=
  let o := match previous with
           | Some area => <[origin := area]> o
           | None => delete origin o
           end in
  (o, match error with Stale _ => Stale (area_snapshot (o !! origin)) | _ => error end).

Definition transact (pid : N) (ls : LocalStorage) (url : string) (ms : list StorageMutation)
    (record : bool)
  : io (LocalStorage * result StorageError (bool * list StorageChange)) :=
  if existsb (fun m => negb (bool_decide (area m = LocalArea))) ms then
    mret (ls, Err (Invalid "local storage mutation area"))
  else
    match (origin ← storage_origin url; state ← lock ls; Ok (origin, state)) with
    | Err e => mret (ls, Err e)
    | Ok (origin, state) =>
        let previous := state !! origin in
        let '(state, looped) := transact_loop state origin record false [] ms in
        flushed ← match looped with
                  | Err e => mret (Err e)
                  | Ok (changed, _) => flush pid (store_path ls) changed state
                  end;
        match looped, flushed with
        | Ok success, Ok _ => mret (set_origins ls state, Ok success)
        | Err e, _ | Ok _, Err e =>
            let '(state, e) := rollback state origin previous e in
            mret (set_origins ls state, Err e)
        end
    end.

Definition apply_batch (pid : N) (ls : LocalStorage) (url : string) (ms : list StorageMutation)
  : io (LocalStorage * result StorageError bool) :=
  '(ls, r) ← transact pid ls url ms false; mret (ls, fst <$> r).

Definition LocalStorage_apply (pid : N) (ls : LocalStorage) (url : string) (m : StorageMutation)
  : io (LocalStorage * result StorageError bool) := apply_batch pid ls url [m].

Definition apply_batch_with_changes (pid : N) (ls : LocalStorage) (url : string)
    (ms : list StorageMutation) : io (LocalStorage * result StorageError (list StorageChange)) :=
  '(ls, r) ← transact pid ls url ms true; mret (ls, snd <$> r).
End store.

(** * Theory *)

(** ** One origin inside the map of all *)

(** The area a script of [origin] sees: the stored one, or a fresh one. *)
Definition area_at (o : Origins) (origin : string) : StorageAreaState :=
  default StorageAreaState_default (o !! origin).

Record origins_wf (o : Origins) : Prop := {
  wf_count : (N.of_nat (size o) <= MAX_STORAGE_ORIGINS)%N;
  wf_areas : map_Forall (fun _ => area_wf) o
}.

Lemma area_at_wf (o : Origins) (origin : string) : origins_wf o -> area_wf (area_at o origin).
Proof.
  intros [_ Ho]. unfold area_at. destruct (o !! origin) eqn:Ha; simpl; [|auto with breeze].
  by apply (Ho origin).
Qed.
#[export] Hint Resolve area_at_wf : breeze.

Lemma area_snapshot_at (o : Origins) (origin : string) :
  area_snapshot (o !! origin) = StorageAreaState_snapshot (area_at o origin).
Proof. unfold area_at, area_snapshot. by destruct (o !! origin). Qed.

(** What [apply_to_origin] does, seen at the origin and elsewhere. *)
Lemma apply_to_origin_cases (o : Origins) (origin : string) (m : StorageMutation) o' r :
  origins_wf o -> apply_to_origin o origin m = (o', r) ->
  delete origin o' = delete origin o /\
  match r with
  | Err _ => o' = o
  | Ok changed =>
      StorageAreaState_apply (area_at o origin) m = (area_at o' origin, Ok changed) /\
      (changed = true -> is_Some (o' !! origin)) /\ (changed = false -> o' = o) /\ origins_wf o'
  end.
Proof.
  intros Hwf. pose proof (area_at_wf o origin Hwf) as Ha. unfold apply_to_origin, area_at in *.
  destruct (o !! origin) as [a|] eqn:Ho; simpl in *.
  - destruct (StorageAreaState_apply a m) as [a' r'] eqn:Happ. intros [= <- <-].
    pose proof (StorageAreaState_apply_cases a m a' r' Ha Happ) as Hc.
    rewrite delete_insert_eq, lookup_insert_eq. split; [done|]. destruct r' as [changed|e].
    + destruct Hc as (_ & _ & _ & _ & _ & Hsame & Hwf'). split_and!; [done|by eexists| |].
      * intros ->. rewrite Hsame by done. by apply insert_id.
      * split; [rewrite map_size_insert, Ho; apply Hwf|]. apply map_Forall_insert_2; [done|apply Hwf].
    + subst a'. by apply insert_id.
  - destruct (N.leb_spec MAX_STORAGE_ORIGINS (N.of_nat (size o))); [intros; by inv_res|].
    destruct (StorageAreaState_apply StorageAreaState_default m) as [a' [changed|e]] eqn:Happ;
      [|intros; by inv_res].
    pose proof (StorageAreaState_apply_cases _ m a' _ Ha Happ) as (_ & _ & _ & _ & _ & Hsame & Hwf').
    destruct changed; intros [= <- <-].
    + rewrite delete_insert_id by done. rewrite lookup_insert_eq. split_and!; try done.
      * by rewrite delete_id.
      * split; [rewrite map_size_insert, Ho; lia|]. apply map_Forall_insert_2; [done|apply Hwf].
    + rewrite Ho. simpl. rewrite Hsame by done. by split_and!.
Qed.

(** ** Replaying change records *)
Definition replay (c : StorageChange) (M : gmap StorageString StorageString)
  : gmap StorageString StorageString :=
  match change_key c, new_value c with
  | Some k, Some v => <[k:=v]> M
  | Some k, None => delete k M
  | None, _ => ∅
  end.

(** [replays M v cs M' v']: the records [cs] lead from map [M] at version [v] to
    [M'] at [v'], one version each, every record changing the map and naming
    the value it replaced. *)
Inductive replays : gmap StorageString StorageString -> N -> list StorageChange ->
    gmap StorageString StorageString -> N -> Prop :=
  | replays_nil M v : replays M v [] M v
  | replays_snoc M v cs M1 v1 c :
      replays M v cs M1 v1 -> change_version c = (v1 + 1)%N ->
      old_value c = (change_key c ≫= fun k => M1 !! k) -> replay c M1 <> M1 ->
      replays M v (cs ++ [c]) (replay c M1) (v1 + 1).

Lemma replay_before (area : option StorageAreaState) (op : StorageOperation) v M :
  replay (mkChange v (change_key (StorageChange_before area op))
            (old_value (StorageChange_before area op)) (new_value (StorageChange_before area op))) M
  = spec_operation op M.
Proof. by destruct op. Qed.

Lemma old_value_before (o : Origins) (origin : string) (op : StorageOperation) :
  origins_wf o ->
  old_value (StorageChange_before (o !! origin) op)
  = (change_key (StorageChange_before (o !! origin) op)
       ≫= fun k => storage_map (area_at o origin) !! k).
Proof.
  intros Hwf. pose proof (area_at_wf o origin Hwf) as [_ Hs _]. unfold area_at in *.
  destruct op as [k v|k|]; simpl; [..|done]; unfold storage_map; rewrite lookup_bt_map by done;
    by destruct (o !! origin).
Qed.

(** The fold the standard prescribes for a batch. *)
Definition spec_batch (ms : list StorageMutation) (M : gmap StorageString StorageString) :=
  foldl (fun M m => spec_operation (operation m) M) M ms.

Lemma transact_loop_cases (o : Origins) origin record changed records ms o' r :
  origins_wf o -> transact_loop o origin record changed records ms = (o', r) ->
  delete origin o' = delete origin o /\
  match r with
  | Err _ => True
  | Ok (changed', records') =>
      origins_wf o' /\
      storage_map (area_at o' origin) = spec_batch ms (storage_map (area_at o origin)) /\
      (changed' = changed \/ changed' = true) /\
      (changed' = false -> o' = o) /\
      (record = false -> records' = records) /\
      (forall M v, record = true ->
         replays M v records (storage_map (area_at o origin)) (version (area_at o origin)) ->
         replays M v records' (storage_map (area_at o' origin)) (version (area_at o' origin))) /\
      (record = true -> changed = bool_decide (records <> []) ->
       changed' = bool_decide (records' <> []))
  end.
Proof.
  revert o changed records. induction ms as [|m ms IH]; intros o changed records Hwf; simpl.
  { intros [= <- <-]. split_and!; try done; auto. }
  destruct (apply_to_origin o origin m) as [o1 r1] eqn:Happ.
  pose proof (apply_to_origin_cases o origin m o1 r1 Hwf Happ) as [Hdel Hcase].
  destruct r1 as [[]|e]; [| |by intros [= <- <-]].
  - destruct Hcase as (Harea & Hsome & _ & Hwf1). destruct (Hsome eq_refl) as [a1 Ha1].
    pose proof (StorageAreaState_apply_cases _ _ _ _ (area_at_wf o origin Hwf) Harea)
      as (_ & Hver & _ & Hmap & Hch & _ & _).
    intros Hloop. destruct (IH _ _ _ Hwf1 Hloop) as [Hdel' Hr].
    split; [by rewrite Hdel', Hdel|]. destruct r as [[changed' records']|e]; [|done].
    destruct Hr as (Hwf' & Hbatch & Hor & Hsame & Hnorec & Hrep & Hch').
    destruct Hor as [->| ->]; split_and!; try done; try (by right);
      try (by rewrite Hbatch, Hmap); try (intros ->; by apply Hnorec);
      try (intros -> _; apply Hch'; [done|]; by rewrite bool_decide_eq_true_2 by (by destruct records)).
    all: intros M v -> Hrep0; apply Hrep; [done|]; rewrite Hmap, Hver;
      rewrite <- (replay_before (o !! origin) (operation m) (from_option version 0%N (o1 !! origin)));
      apply replays_snoc; [done| |by apply old_value_before|].
    all: try (rewrite Ha1; simpl; unfold area_at in Hver at 1; rewrite Ha1 in Hver; apply Hver).
    all: rewrite replay_before; by apply operation_changes_spec; [apply area_at_wf|].
  - destruct Hcase as (Harea & _ & Hsame1 & _). rewrite Hsame1 in * by done.
    pose proof (StorageAreaState_apply_cases _ _ _ _ (area_at_wf o origin Hwf) Harea)
      as (_ & _ & _ & Hmap & _).
    intros Hloop. destruct (IH _ _ _ Hwf Hloop) as [Hdel' Hr]. split; [done|].
    destruct r as [[changed' records']|e]; [|done]. unfold spec_batch. simpl. by rewrite <- Hmap.
Qed.

Lemma rollback_restores (o o' : Origins) (origin : string) (e : StorageError) :
  delete origin o' = delete origin o -> (rollback o' origin (o !! origin) e).1 = o.
Proof.
  intros Hdel. unfold rollback. simpl. destruct (o !! origin) as [a|] eqn:Ho.
  - rewrite <- insert_delete_eq, Hdel, insert_delete_eq. by apply insert_id.
  - by rewrite Hdel, delete_id.
Qed.

Lemma rollback_stale (o : Origins) (origin : string) previous (e : StorageError) s :
  (rollback o origin previous e).2 = Stale s ->
  s = area_snapshot ((rollback o origin previous e).1 !! origin).
Proof. destruct e; simpl; congruence. Qed.

(** ** The profile file *)
Section file.
Context {URL : UrlLib} {JSON : JsonLib} {JL : JsonLaws}.

(** Origins that [into_state] reads back: the [url] crate parses a serialised
    origin followed by a slash to a URL of that origin. *)
Definition canonical_origin (origin : string) : Prop := storage_origin (origin +:+ "/") = Ok origin.
Definition reparses_origins : Prop :=
  forall url origin, storage_origin url = Ok origin -> canonical_origin origin.

Definition area_units (a : StorageAreaState) : Prop :=
  Forall (fun kv => u16_units kv.1 /\ u16_units kv.2) (entries a).

(** A store a transaction can have produced. *)
Record store_wf (o : Origins) : Prop := {
  store_origins : origins_wf o;
  store_names : map_Forall (fun origin a => canonical_origin origin /\ area_units a) o
}.

Lemma bounded_write_Some (chunks : list (list byte)) out bytes :
  bounded_write out chunks = Some bytes ->
  bytes = out ++ concat chunks /\
  ((N.of_nat (length out) <= MAX_PERSISTED_STORAGE_BYTES)%N ->
   (N.of_nat (length bytes) <= MAX_PERSISTED_STORAGE_BYTES)%N).
Proof.
  revert out. induction chunks as [|c chunks IH]; intros out; simpl.
  - intros [= ->]. by rewrite app_nil_r.
  - assert (MAX_PERSISTED_STORAGE_BYTES < u64_max)%N by done.
    destruct (N.ltb_spec MAX_PERSISTED_STORAGE_BYTES
      (saturating_add (N.of_nat (length out)) (N.of_nat (length c)))) as [|Hle]; [done|].
    intros [-> Hb]%IH. rewrite <- app_assoc. split; [done|]. intros _. rewrite app_assoc.
    apply Hb. rewrite length_app. unfold saturating_add in Hle. lia.
Qed.

Lemma into_state_area (origin : string) (a : StorageAreaState) :
  area_wf a -> area_units a ->
  from_snapshot (mkSnapshot (persisted_version (persist_area origin a))
    ((fun kv => mkEntry (StorageString_deserialize kv.1) (StorageString_deserialize kv.2))
       <$> persisted_entries (persist_area origin a))) = Ok a.
Proof.
  intros Hwf Hu. rewrite <- (from_snapshot_snapshot a) by done. f_equal.
  unfold StorageAreaState_snapshot. simpl. f_equal. rewrite <- list_fmap_compose.
  apply list_fmap_ext. intros i [k v] Hkv. simpl.
  apply (Forall_lookup_1 _ _ _ _ Hu) in Hkv as [Hk Hv].
  by rewrite !StorageString_deserialize_serialize.
Qed.

Lemma into_state_loop_persisted (l : list (string * StorageAreaState)) (o : Origins) :
  NoDup l.*1 -> (forall origin, origin ∈ l.*1 -> o !! origin = None) ->
  (forall oa, oa ∈ l -> area_wf oa.2 /\ canonical_origin oa.1 /\ area_units oa.2) ->
  into_state_loop o ((fun oa => persist_area oa.1 oa.2) <$> l) = Ok (list_to_map l ∪ o).
Proof.
  revert o. induction l as [|[origin a] l IH]; intros o Hnd Hfresh Hok.
  { simpl. by rewrite (left_id_L ∅ (∪)). }
  apply NoDup_cons in Hnd as [Hnin Hnd]. simpl in *.
  destruct (Hok (origin, a)) as (Hwf & Hcan & Hu); [by constructor|]. simpl in *.
  unfold canonical_origin in Hcan. rewrite Hcan. simpl. rewrite String.eqb_refl.
  pose proof (wf_version a Hwf) as Hv. destruct (N.eqb_spec (version a) 0) as [|_]; [lia|]. simpl.
  pose proof (into_state_area origin a Hwf Hu) as Harea. simpl in Harea. rewrite Harea. simpl.
  case_bool_decide as Hdup.
  { rewrite (Hfresh origin) in Hdup by constructor. by destruct Hdup. }
  rewrite IH; [|done| |intros; apply Hok; by constructor].
  - f_equal. rewrite <- insert_union_r by (by apply not_elem_of_list_to_map_1).
    by rewrite insert_union_l.
  - intros origin' Hin. rewrite lookup_insert_ne; [apply Hfresh; by constructor|].
    by intros ->.
Qed.

(** The document of a store reads back as that store. *)
Lemma into_state_from_state (o : Origins) : store_wf o -> into_state (from_state o) = Ok o.
Proof.
  intros [[Hcount Hareas] Hnames]. unfold into_state, from_state. simpl.
  destruct (Permutation_map_inv (fun oa => persist_area oa.1 oa.2) (map_to_list o)
    (merge_sort_Permutation origin_le _)) as (l & Hl & Hperm).
  change (map ?f ?x) with (f <$> x) in Hl. rewrite Hl, length_fmap, <- Hperm, length_map_to_list.
  destruct (N.ltb_spec MAX_STORAGE_ORIGINS (N.of_nat (size o))); [lia|].
  rewrite into_state_loop_persisted.
  - by rewrite <- (list_to_map_proper (map_to_list o) l), list_to_map_to_list, (right_id_L ∅ (∪))
      by (done || apply NoDup_fst_map_to_list).
  - rewrite <- Hperm. apply NoDup_fst_map_to_list.
  - intros. apply lookup_empty.
  - intros [origin a] Hin. rewrite <- Hperm in Hin. apply elem_of_map_to_list in Hin. simpl.
    split; [by apply (Hareas origin)|by apply (Hnames origin)].
Qed.

Lemma decode_encode (o : Origins) bytes : store_wf o -> encode o = Ok bytes -> decode bytes = Ok o.
Proof.
  intros Hwf. unfold encode, decode.
  destruct (to_writer_chunks (from_state o)) as [chunks failure] eqn:Hc.
  destruct (bounded_write [] chunks) as [out|] eqn:Hb; [|done].
  destruct failure; [done|]. intros [= <-].
  apply bounded_write_Some in Hb as [Hout Hlen]. simpl in Hout. subst out.
  destruct (N.ltb_spec MAX_PERSISTED_STORAGE_BYTES (N.of_nat (length (concat chunks)))) as [Hgt|_].
  { simpl in Hlen. lia. }
  rewrite (json_round_trip _ _ Hc). by apply into_state_from_state.
Qed.

(** ** The store and the disk *)

(** The profile at [p] holds exactly [o]. *)
Definition disk_holds (p : Path) (d : gmap Path File) (o : Origins) : Prop :=
  match stored (backup_path p) p d with
  | Some f => synced f = true /\ decode (content f) = Ok o
  | None => o = ∅
  end.

Lemma decode_length bytes (o : Origins) :
  decode bytes = Ok o -> take (N.to_nat (MAX_PERSISTED_STORAGE_BYTES + 1)) bytes = bytes.
Proof.
  unfold decode. destruct (N.ltb_spec MAX_PERSISTED_STORAGE_BYTES (N.of_nat (length bytes))); [done|].
  intros _. apply take_ge. lia.
Qed.

Lemma load_file_runs (p : Path) (d : gmap Path File) :
  load_file p (mkWorld d []) =
  (mkWorld d [], Done (match d !! p with
                       | None => Ok None
                       | Some f => Some <$> decode (take (N.to_nat (MAX_PERSISTED_STORAGE_BYTES + 1)) (content f))
                       end)).
Proof.
  unfold load_file, mbind, io_bind, file_open, fs_call. simpl.
  destruct (d !! p) as [f|] eqn:Hp; simpl; [|done].
  unfold io_try, io_map_err, mbind, io_bind, read_limited, fs_call. simpl. by rewrite Hp.
Qed.

(** A profile that holds a store loads it. *)
Lemma load_holds (p : Path) (d : gmap Path File) (o : Origins) :
  disk_holds p d o -> load p (mkWorld d []) = (mkWorld d [], Done (Ok o)).
Proof.
  unfold disk_holds, stored, load, mbind, io_bind. rewrite load_file_runs.
  destruct (d !! p) as [f|].
  - intros [_ Hd]. by rewrite (decode_length _ _ Hd), Hd.
  - unfold io_try, mbind, io_bind. rewrite load_file_runs.
    destruct (d !! backup_path p) as [f|]; [|by intros ->].
    intros [_ Hd]. by rewrite (decode_length _ _ Hd), Hd.
Qed.

(** [Set] carries [u16] units; the other operations store no string. *)
Definition operation_units (op : StorageOperation) : Prop :=
  match op with Set_ k v => u16_units k /\ u16_units v | _ => True end.

Lemma apply_operation_units (a : StorageAreaState) (op : StorageOperation) es changed :
  area_units a -> operation_units op -> apply_operation a op = Ok (es, changed) ->
  Forall (fun kv => u16_units kv.1 /\ u16_units kv.2) es.
Proof.
  intros Ha Hop. destruct op as [k v|k|]; simpl; intros Happ.
  - case_bool_decide; [by inv_res|]. destruct (_ && _); [done|]. inv_res.
    destruct Hop as [Hk Hv]. apply Forall_bt_insert; [|done].
    intros k' Hkk. apply cmp_eq in Hkk. by subst.
  - inv_res. by apply Forall_bt_remove.
  - inv_res. constructor.
Qed.

Lemma StorageAreaState_apply_units (a : StorageAreaState) (m : StorageMutation) :
  area_units a -> operation_units (operation m) -> area_units (StorageAreaState_apply a m).1.
Proof.
  intros Ha Hop. unfold StorageAreaState_apply.
  destruct (StorageMutation_validate m); [|done].
  destruct (negb _); [done|]. destruct (_ && _); [done|].
  destruct (apply_operation a (operation m)) as [[es changed]|e] eqn:Happ; [|done].
  pose proof (apply_operation_units a _ es changed Ha Hop Happ).
  destruct changed; [destruct (checked_add _ _)|]; done.
Qed.

Lemma apply_to_origin_store_wf (o : Origins) origin m o' r :
  store_wf o -> canonical_origin origin -> operation_units (operation m) ->
  apply_to_origin o origin m = (o', r) -> store_wf o'.
Proof.
  intros [Ho Hn] Hcan Hop Happ. split.
  - apply apply_to_origin_cases in Happ as [_ Hr]; [|done]. destruct r; [apply Hr|by subst].
  - unfold apply_to_origin in Happ. destruct (o !! origin) as [a|] eqn:Ha.
    + pose proof (StorageAreaState_apply_units a m) as Hu.
      destruct (StorageAreaState_apply a m) as [a' r']. injection Happ as <- <-.
      apply map_Forall_insert_2; [|done]. split; [done|]. apply Hu; [|done]. by apply (Hn origin).
    + destruct (_ <=? _)%N; [by inv_res|].
      pose proof (StorageAreaState_apply_units StorageAreaState_default m) as Hu.
      destruct (StorageAreaState_apply _ m) as [a' [[]|e]]; inv_res; try done.
      apply map_Forall_insert_2; [|done]. split; [done|]. apply Hu; [constructor|done].
Qed.

Lemma transact_loop_store_wf (o : Origins) origin record changed records ms o' r :
  store_wf o -> canonical_origin origin -> Forall (fun m => operation_units (operation m)) ms ->
  transact_loop o origin record changed records ms = (o', r) -> store_wf o'.
Proof.
  intros Hwf Hcan Hms. revert o changed records Hwf.
  induction Hms as [|m ms Hm Hms IH]; intros o changed records Hwf; simpl; [by intros [= <- _]|].
  destruct (apply_to_origin o origin m) as [o1 r1] eqn:Happ.
  apply apply_to_origin_store_wf in Happ; [|done..].
  destruct r1 as [[]|e]; [by apply IH|by apply IH|by intros [= <- _]].
Qed.

(** What a run of [transact] can be. *)
Lemma transact_cases (pid : N) (ls : LocalStorage) url ms record w :
  origins_wf (origins ls) ->
  let '(w', out) := transact pid ls url ms record w in
  (exists e, out = Done (ls, Err e) /\ w' = w /\ forall s, e <> Stale s) \/
  exists origin o' looped,
    storage_origin url = Ok origin /\ poisoned ls = false /\ Forall (fun m => area m = LocalArea) ms /\
    transact_loop (origins ls) origin record false [] ms = (o', looped) /\
    match looped with
    | Err e => w' = w /\ exists e', out = Done (ls, Err e') /\
               forall s, e' = Stale s -> s = area_snapshot (origins ls !! origin)
    | Ok (changed, records) =>
        let '(wf, flushed) := flush pid (store_path ls) changed o' w in
        w' = wf /\
        out = match flushed with
              | Crashed => Crashed
              | Done (Ok _) => Done (set_origins ls o', Ok (changed, records))
              | Done (Err e) => Done (ls, Err (rollback o' origin (origins ls !! origin) e).2)
              end
    end.
Proof.
  intros Hwf. unfold transact.
  destruct (existsb _ ms) eqn:Hlocal; [left; by eexists|].
  destruct (storage_origin url) as [origin|e] eqn:Horigin; simpl.
  2:{ left. eexists. split_and!; [done..|]. intros s ->. unfold storage_origin in Horigin.
      destruct (map_err _ _) eqn:Hm; simpl in Horigin; [by case_match|].
      destruct (origin_string url); simplify_eq/=. }
  unfold lock. destruct (poisoned ls) eqn:Hp; simpl; [left; by eexists|].
  destruct (transact_loop (origins ls) origin record false [] ms) as [o' looped] eqn:Hloop.
  pose proof (transact_loop_cases _ _ _ _ _ _ _ _ Hwf Hloop) as [Hdel _].
  assert (Hback : forall e, set_origins ls (rollback o' origin (origins ls !! origin) e).1 = ls).
  { intros e. rewrite rollback_restores by done. by destruct ls. }
  assert (Hms : Forall (fun m => area m = LocalArea) ms).
  { apply Forall_forall. intros m Hm. destruct (decide (area m = LocalArea)) as [|Hne]; [done|].
    assert (existsb (fun m => negb (bool_decide (area m = LocalArea))) ms = true) as Ht; [|congruence].
    apply existsb_exists. exists m. split; [by apply list_elem_of_In|].
    by rewrite bool_decide_eq_false_2. }
  unfold mbind, io_bind. destruct looped as [[changed records]|e].
  - destruct (flush pid (store_path ls) changed o' w) as [w1 [[u|e]|]] eqn:Hf; right;
      exists origin, o', (Ok (changed, records)); split_and!; try done; rewrite Hf; [done| |done].
    specialize (Hback e). simpl in *. by rewrite Hback.
  - simpl. right. exists origin, o', (Err e).
    specialize (Hback e). pose proof (rollback_restores _ _ _ e Hdel) as Hr.
    pose proof (rollback_stale o' origin (origins ls !! origin) e) as Hs.
    simpl in *. rewrite Hback. split_and!; try done. eexists. split; [done|].
    intros s He. rewrite <- Hr. by apply Hs.
Qed.
End file.

(** * The transaction's properties *)
Section transactions.
Context {URL : UrlLib} {JSON : JsonLib} {JL : JsonLaws}.

(** C26. A refused batch leaves no trace: when [transact] returns [Err], at
    whatever mutation or file-system call it failed, the store in memory is
    the one it started from, and a [Stale] error carries the snapshot of that
    store, not of the half-applied batch. *)
Theorem transact_rolls_back (pid : N) (ls : LocalStorage) (url : string)
    (ms : list StorageMutation) (record : bool) (w w' : World) (ls' : LocalStorage) e :
  origins_wf (origins ls) -> transact pid ls url ms record w = (w', Done (ls', Err e)) ->
  ls' = ls /\
  (forall s, e = Stale s ->
     exists origin, storage_origin url = Ok origin /\ s = area_snapshot (origins ls !! origin)).
Proof.
  intros Hwf Ht. pose proof (transact_cases pid ls url ms record w Hwf) as Hc. rewrite Ht in Hc.
  destruct Hc as [(e' & [= -> ->] & _ & Hne)|(origin & o' & looped & Ho & _ & _ & Hloop & Hl)].
  { split; [done|]. intros s ->. by destruct (Hne s). }
  destruct looped as [[changed records]|e'].
  - destruct (flush pid (store_path ls) changed o' w) as [wf [[u|ef]|]]; destruct Hl as [_ Hl];
      [done| |done].
    injection Hl as -> ->. split; [done|]. intros s Hs. exists origin. split; [done|].
    apply rollback_stale in Hs. rewrite rollback_restores in Hs; [done|].
    by apply (transact_loop_cases _ _ _ _ _ _ _ _ Hwf Hloop).
  - destruct Hl as [_ (e'' & [= -> ->] & Hs)]. eauto.
Qed.

(** C27. An accepted batch is the sequential run of its operations: the map at
    the origin is the standard's fold over the batch, every other origin is
    untouched, every store invariant holds again, [true] is answered exactly
    when there is something to report, and the change records form a gapless
    chain of versions which replays the old map into the new one, each record
    naming the value it replaced. *)
Theorem transact_commits (pid : N) (ls : LocalStorage) (url : string)
    (ms : list StorageMutation) (w w' : World) (ls' : LocalStorage) changed records :
  origins_wf (origins ls) ->
  transact pid ls url ms true w = (w', Done (ls', Ok (changed, records))) ->
  exists origin,
    storage_origin url = Ok origin /\
    storage_map (area_at (origins ls') origin)
      = spec_batch ms (storage_map (area_at (origins ls) origin)) /\
    delete origin (origins ls') = delete origin (origins ls) /\
    origins_wf (origins ls') /\
    changed = bool_decide (records <> []) /\
    replays (storage_map (area_at (origins ls) origin)) (version (area_at (origins ls) origin))
      records
      (storage_map (area_at (origins ls') origin)) (version (area_at (origins ls') origin)).
Proof.
  intros Hwf Ht. pose proof (transact_cases pid ls url ms true w Hwf) as Hc. rewrite Ht in Hc.
  destruct Hc as [(? & [=] & _)|(origin & o' & looped & Ho & _ & _ & Hloop & Hl)].
  destruct looped as [[changed' records']|e']; [|by destruct Hl as (_ & ? & [=] & _)].
  destruct (flush pid (store_path ls) changed' o' w) as [wf [[u|ef]|]]; destruct Hl as [_ Hl];
    [|done|done].
  injection Hl as -> -> ->. exists origin.
  destruct (transact_loop_cases _ _ _ _ _ _ _ _ Hwf Hloop) as [Hdel Hr].
  destruct Hr as (Hwf' & Hmap & _ & _ & _ & Hrep & Hch). split_and!; try done.
  - by apply Hch.
  - apply Hrep; [done|]. constructor.
Qed.

(** A save of the store obeys the saver's contract. *)
Lemma flush_holds (pid : N) (p : Path) changed (o o' : Origins) w :
  saver_names pid "bak" p -> store_wf o' -> disk_holds p (disk w) o -> (changed = false -> o' = o) ->
  let '(w', out) := flush pid (Some p) changed o' w in
  (reverts (backup_path p) p w w' /\ forall u, out <> Done (Ok u)) \/
  exists o1,
    match out with
    | Done (Ok _) => o1 = o'
    | Done (Err _) => o1 = o
    | Crashed => o1 = o \/ (o1 = o' /\ (flush pid (Some p) changed o' (mkWorld (disk w) [])).2 = Done (Ok tt))
    end /\
    forall d, d = disk w' \/ after_crash (disk w') d -> disk_holds p d o1.
Proof.
  intros Hn Hwf Hd Hch. unfold flush.
  assert (Hs : forall f, stored (backup_path p) p (disk w) = Some f -> synced f = true).
  { intros f Hf. unfold disk_holds in Hd. rewrite Hf in Hd. apply Hd. }
  assert (Hold : forall d, stored (backup_path p) p d = stored (backup_path p) p (disk w) -> disk_holds p d o).
  { intros d Hf. unfold disk_holds. by rewrite Hf. }
  assert (Hstay : forall d, d = disk w \/ after_crash (disk w) d -> disk_holds p d o).
  { intros d [->|Hc]; [done|]. by apply Hold, stored_after_crash. }
  destruct changed; [|right; rewrite Hch by done; by eauto].
  unfold io_try, mbind, io_bind, mret, io_ret.
  destruct (encode o') as [bytes|e] eqn:Henc; [|by right; eauto].
  pose proof (write_recoverable_contract pid p bytes Hn w Hs) as Hc.
  pose proof (write_recoverable_runs pid p bytes (disk w) Hn) as Hruns. unfold io_map_err.
  unfold mbind, io_bind, mret, io_ret.
  assert (Hnew : forall d, stored (backup_path p) p d = Some (mkFile bytes true) -> disk_holds p d o').
  { intros d Hf. unfold disk_holds. rewrite Hf. simpl. split; [done|]. by apply decode_encode. }
  destruct (write_recoverable pid p bytes (mkWorld (disk w) [])) as [w2 out2]. simpl in Hruns. subst out2.
  destruct (write_recoverable pid p bytes w) as [w1 out].
  destruct Hc as [[Hr Hc]|(kept & Hk & Hc)].
  { destruct out as [[u|e]|]; [by destruct (Hc u)|by left..]. }
  destruct out as [[u|e]|]; right; [exists o'|exists o|destruct Hk as [Hk|Hk]; [exists o|exists o']];
    (split; [simpl; auto|]); intros d Hd'; specialize (Hc d Hd');
    first [apply Hnew; congruence|apply Hold; congruence].
Qed.

Lemma reparses_canonical (url origin : string) :
  reparses_origins -> storage_origin url = Ok origin -> canonical_origin origin.
Proof. intros Hr. apply Hr. Qed.

(** A transaction whose save succeeds answers with the batch's store. *)
Lemma transact_runs (pid : N) (ls : LocalStorage) url ms record d p origin o' changed records :
  store_path ls = Some p -> poisoned ls = false -> Forall (fun m => area m = LocalArea) ms ->
  storage_origin url = Ok origin ->
  transact_loop (origins ls) origin record false [] ms = (o', Ok (changed, records)) ->
  (flush pid (Some p) changed o' (mkWorld d [])).2 = Done (Ok tt) ->
  exists ls' r, (transact pid ls url ms record (mkWorld d [])).2 = Done (ls', Ok r) /\ o' = origins ls'.
Proof.
  intros Hp Hlock Hms Ho Hloop Hf. unfold transact.
  destruct (existsb _ ms) eqn:Hlocal.
  { apply existsb_exists in Hlocal as (m & Hm & Hne). rewrite Forall_forall in Hms.
    rewrite bool_decide_eq_true_2 in Hne; [done|]. by apply Hms, list_elem_of_In. }
  rewrite Ho. unfold lock. rewrite Hlock, Hp. cbn [mbind result_bind]. rewrite Hloop. unfold mbind, io_bind.
  destruct (flush pid (Some p) changed o' (mkWorld d [])) as [w1 out]. cbn in Hf. subst out. cbn. eauto.
Qed.

(** C1. Web Storage is durable. On any schedule of failures and at any crash
    point of a transaction, loading the profile afterwards, after a restart that
    lost every unsynced write, gives exactly the store in memory when the
    transaction answered; when the machine stopped before it answered, the store
    before it or the one it would have answered with. The one exception is the
    environment's: when [Path::exists] could not query the state file and the
    save then did not succeed, the older backup may have taken its place. *)
Theorem transact_durable (pid : N) (p : Path) (ls : LocalStorage) (url : string)
    (ms : list StorageMutation) (record : bool) (w : World) :
  store_path ls = Some p -> saver_names pid "bak" p ->
  reparses_origins -> store_wf (origins ls) ->
  Forall (fun m => operation_units (operation m)) ms -> disk_holds p (disk w) (origins ls) ->
  let '(w', out) := transact pid ls url ms record w in
  (reverts (backup_path p) p w w' /\ forall ls' r, out = Done (ls', r) -> ls' = ls /\ exists e, r = Err e) \/
  exists o,
    match out with
    | Done (ls', _) => o = origins ls'
    | Crashed => o = origins ls \/
        exists ls' r, (transact pid ls url ms record (mkWorld (disk w) [])).2 = Done (ls', Ok r) /\
                      o = origins ls'
    end /\
    forall d, d = disk w' \/ after_crash (disk w') d ->
      load p (mkWorld d []) = (mkWorld d [], Done (Ok o)).
Proof.
  intros Hpath Hn Hrep Hwf Hms Hd.
  pose proof (transact_cases pid ls url ms record w (store_origins _ Hwf)) as Hc.
  assert (Hstay : forall d, d = disk w \/ after_crash (disk w) d ->
    load p (mkWorld d []) = (mkWorld d [], Done (Ok (origins ls)))).
  { intros d [->|Hcr]; apply load_holds; [done|]. unfold disk_holds in *.
    rewrite (stored_after_crash _ _ _ _ (ltac:(intros f Hf; rewrite Hf in Hd; apply Hd)) Hcr). done. }
  destruct (transact pid ls url ms record w) as [w' out].
  destruct Hc as [(e & -> & -> & _)|(origin & o' & looped & Ho & Hp & Harea & Hloop & Hl)]; [by right; eauto|].
  destruct looped as [[changed records]|e]; [|by destruct Hl as (-> & e' & -> & _); right; eauto].
  destruct (transact_loop_cases _ _ _ _ _ _ _ _ (store_origins _ Hwf) Hloop)
    as (_ & _ & _ & _ & Hsame & _).
  pose proof (transact_loop_store_wf _ _ _ _ _ _ _ _ Hwf
    (reparses_canonical _ _ Hrep Ho) Hms Hloop) as Hwf'.
  pose proof (flush_holds pid p changed (origins ls) o' w Hn Hwf' Hd Hsame) as Hf.
  rewrite Hpath in Hl. destruct (flush pid (Some p) changed o' w) as [wf flushed].
  destruct Hl as [-> ->]. destruct Hf as [[Hr Hno]|(o1 & Ho1 & Hf)].
  { left. split; [done|]. intros ls' r.
    destruct flushed as [[u|e]|]; [by destruct (Hno u)|intros [= <- <-]; eauto|done]. }
  right. exists o1. split; [|intros d Hd'; by apply load_holds, Hf].
  destruct flushed as [[u|e]|]; [done..|]. destruct Ho1 as [->|[-> Hruns]]; [by left|right].
  by eapply transact_runs.
Qed.

Lemma storage_origin_parse (url origin : string) :
  storage_origin url = Ok origin ->
  exists o n, Origin_parse 1 url = Ok (o, n) /\ Origin_serialize o = origin /\ origin <> "null".
Proof.
  unfold storage_origin, origin_string. destruct (Origin_parse 1 url) as [[o n]|e]; [|done]. simpl.
  case_match eqn:Hn; [done|]. intros [= <-]. apply String.eqb_neq in Hn. eauto.
Qed.

(** Storage is partitioned by origin: a batch sent by a document changes
    nothing a cross-origin document can read, whatever the batch and whatever
    becomes of it. *)
Theorem transact_isolated (pid : N) (ls ls' : LocalStorage) (url other : string) (o1 o2 : Origin)
    (n1 n2 : N) (ms : list StorageMutation) (record : bool) (w w' : World) r :
  origins_wf (origins ls) ->
  Origin_parse 1 url = Ok (o1, n1) -> Origin_parse 1 other = Ok (o2, n2) ->
  is_same_origin o1 o2 = false ->
  transact pid ls url ms record w = (w', Done (ls', r)) ->
  LocalStorage_snapshot ls' other = LocalStorage_snapshot ls other /\
  LocalStorage_usage ls' other = LocalStorage_usage ls other.
Proof.
  intros Hwf H1 H2 Hdiff Ht. pose proof (transact_cases pid ls url ms record w Hwf) as Hc.
  rewrite Ht in Hc.
  destruct Hc as [(e & [= -> ->] & _)|(origin & o' & looped & Ho & Hp & _ & Hloop & Hl)]; [done|].
  destruct looped as [[changed records]|e]; [|by destruct Hl as (_ & e' & [= -> ->] & _)].
  destruct (flush pid (store_path ls) changed o' w) as [wf [[u|ef]|]]; destruct Hl as [_ Hl];
    simplify_eq; [|done].
  destruct (transact_loop_cases _ _ _ _ _ _ _ _ Hwf Hloop) as [Hdel _].
  unfold LocalStorage_snapshot, LocalStorage_usage.
  destruct (storage_origin other) as [origin'|e] eqn:Ho'; simpl; [|done].
  assert (Hsame : o' !! origin' = origins ls !! origin').
  { apply storage_origin_parse in Ho as (q1 & k1 & Hq1 & <- & Hnull).
    apply storage_origin_parse in Ho' as (q2 & k2 & Hq2 & <- & _).
    rewrite H1 in Hq1. rewrite H2 in Hq2. simplify_eq.
    destruct (decide (Origin_serialize q1 = Origin_serialize q2)) as [Heq|Hne].
    - apply (Origin_serialize_identifies 1 1 url other q1 q2 k1 k2) in Heq; [|done..]. subst.
      unfold is_same_origin in Hdiff. by rewrite bool_decide_eq_true_2 in Hdiff.
    - apply (f_equal (lookup (Origin_serialize q2))) in Hdel.
      by rewrite !lookup_delete_ne in Hdel. }
  unfold lock. simpl. rewrite Hp. simpl. by rewrite Hsame.
Qed.
End transactions.

(** ** Instances of the interfaces, for concrete runs *)
#[global] Instance StoredString_eq_dec : EqDecision StoredString.
Proof. solve_decision. Defined.
#[global] Instance StoredString_countable : Countable StoredString.
Proof.
  apply (inj_countable' (fun s => match s with Text t => inl t | Units u => inr u end)
                        (fun x => match x with inl t => Text t | inr u => Units u end)).
  by intros [].
Defined.
#[global] Instance PersistedOrigin_eq_dec : EqDecision PersistedOrigin.
Proof. solve_decision. Defined.
#[global] Instance PersistedOrigin_countable : Countable PersistedOrigin.
Proof.
  apply (inj_countable' (fun p => (persisted_origin p, persisted_version p, persisted_entries p))
                        (fun t => mkPersistedOrigin t.1.1 t.1.2 t.2)). by intros [].
Defined.
#[global] Instance PersistedStorage_eq_dec : EqDecision PersistedStorage.
Proof. solve_decision. Defined.
#[global] Instance PersistedStorage_countable : Countable PersistedStorage.
Proof.
  apply (inj_countable' (fun p => (format_version p, persisted_origins p))
                        (fun t => mkPersisted t.1 t.2)). by intros [].
Defined.

(** A serialiser that writes a document's code number, a byte per bit. *)
Fixpoint bits (p : positive) : list byte :=
  match p with xH => [] | xO p => x00 :: bits p | xI p => x01 :: bits p end.
Fixpoint unbits (l : list byte) : positive :=
  match l with
  | [] => xH
  | x01 :: l => xI (unbits l)
  | _ :: l => xO (unbits l)
  end.

Lemma unbits_bits (p : positive) : unbits (bits p) = p.
Proof. induction p as [p IH|p IH|]; simpl; [by rewrite IH..|done]. Qed.

Definition demo_json : JsonLib := {|
  to_writer_chunks d := ([bits (countable.encode d)], None);
  from_slice l := ok_or (countable.decode (unbits l)) "expected value at line 1 column 1"
|}.

Lemma demo_json_laws : @JsonLaws demo_json.
Proof.
  intros d chunks [= <-]. simpl. by rewrite app_nil_r, unbits_bits, countable.decode_encode.
Qed.

Lemma demo_reparses_origins : @reparses_origins demo_urls.
Proof.
  intros url origin. unfold canonical_origin, storage_origin, origin_string, Origin_parse.
  unfold FetchUrl_parse at 1. destruct (_ <? _)%N; [done|]. unfold Url_parse at 1. simpl.
  destruct (String.eqb_spec (trim url) "https://a.test/") as [Ha|]; [|destruct (String.eqb_spec (trim url) "https://b.test/") as [Hb|]; [|done]]; simpl.
  - destruct (ParsedUrl_parse (trim url)) as [u|] eqn:Hu; simpl; [|done].
    rewrite Ha in Hu. vm_compute in Hu. injection Hu as <-. intros [= <-]. by vm_compute.
  - destruct (ParsedUrl_parse (trim url)) as [u|] eqn:Hu; simpl; [|done].
    rewrite Hb in Hu. vm_compute in Hu. injection Hu as <-. intros [= <-]. by vm_compute.
Qed.

Lemma store_wf_empty `{UrlLib} : store_wf ∅.
Proof. split; [split; [by vm_compute|apply map_Forall_empty]|apply map_Forall_empty]. Qed.

Definition demo_set (version : N) (k v : string) : StorageMutation :=
  mkMutation LocalArea version (Set_ (StorageString_from k) (StorageString_from v)).
Definition demo_store : LocalStorage := mkLocal ∅ false (Some state_path).

Lemma demo_store_wf : origins_wf (origins demo_store).
Proof. apply (@store_origins demo_urls), store_wf_empty. Qed.

(** A batch whose second mutation is stale, on a store with a profile. *)
Lemma transact_rolls_back_witness :
  demo_store = demo_store /\
  (forall s, Stale StorageAreaSnapshot_empty = Stale s ->
     exists origin, @storage_origin demo_urls "https://a.test/" = Ok origin /\
       s = area_snapshot (origins demo_store !! origin)).
Proof.
  apply (@transact_rolls_back demo_urls demo_json 7 demo_store "https://a.test/"
    [demo_set 1 "k" "v"; demo_set 1 "k" "w"] true (mkWorld ∅ []) (mkWorld ∅ []) demo_store
    (Stale StorageAreaSnapshot_empty)).
  - apply demo_store_wf.
  - vm_compute. reflexivity.
Defined.

(** Set a key twice in one batch: two records. *)
Lemma transact_commits_witness :
  let ms := [demo_set 1 "k" "v"; demo_set 2 "k" "w"] in
  let k := StorageString_from "k" in
  let ls' := mkLocal {[ "https://a.test" := mkArea 3 [(k, StorageString_from "w")] ]} false None in
  let records := [mkChange 2 (Some k) None (Some (StorageString_from "v"));
                  mkChange 3 (Some k) (Some (StorageString_from "v")) (Some (StorageString_from "w"))] in
  exists origin, @storage_origin demo_urls "https://a.test/" = Ok origin /\
    replays (storage_map (area_at ∅ origin)) (version (area_at ∅ origin)) records
      (storage_map (area_at (origins ls') origin)) (version (area_at (origins ls') origin)).
Proof.
  intros ms k ls' records.
  destruct (@transact_commits demo_urls demo_json 7 in_memory "https://a.test/" ms
    (mkWorld ∅ []) (mkWorld ∅ []) ls' true records) as (origin & Ho & _ & _ & _ & _ & Hr).
  - apply demo_store_wf.
  - vm_compute. reflexivity.
  - exists origin. split; [exact Ho|exact Hr].
Defined.

(** The machine stops in the last rename of the save, after it took effect. *)
Lemma transact_durable_witness :
  let w := mkWorld ∅ (replicate 5 Proceed ++ [CrashAfter]) in
  let '(w', out) := @transact demo_urls demo_json 7 demo_store "https://a.test/"
                      [demo_set 1 "k" "v"] true w in
  (reverts (backup_path state_path) state_path w w' /\
   forall ls' r, out = Done (ls', r) -> ls' = demo_store /\ exists e, r = Err e) \/
  exists o,
    match out with
    | Done (ls', _) => o = origins ls'
    | Crashed => o = origins demo_store \/
        exists ls' r, (@transact demo_urls demo_json 7 demo_store "https://a.test/"
                         [demo_set 1 "k" "v"] true (mkWorld (disk w) [])).2 = Done (ls', Ok r) /\
                      o = origins ls'
    end /\
    forall d, d = disk w' \/ after_crash (disk w') d ->
      @load demo_urls demo_json state_path (mkWorld d []) = (mkWorld d [], Done (Ok o)).
Proof.
  apply (@transact_durable demo_urls demo_json demo_json_laws 7 state_path demo_store
    "https://a.test/" [demo_set 1 "k" "v"] true (mkWorld ∅ (replicate 5 Proceed ++ [CrashAfter]))).
  - done.
  - apply state_path_names.
  - apply demo_reparses_origins.
  - apply store_wf_empty.
  - repeat constructor; simpl; repeat constructor.
  - done.
Defined.

Lemma transact_isolated_witness :
  let ls' := mkLocal {[ "https://a.test" := mkArea 2 [(StorageString_from "k", StorageString_from "v")] ]}
               false None in
  @LocalStorage_snapshot demo_urls ls' "https://b.test/"
    = @LocalStorage_snapshot demo_urls in_memory "https://b.test/" /\
  @LocalStorage_usage demo_urls ls' "https://b.test/"
    = @LocalStorage_usage demo_urls in_memory "https://b.test/".
Proof.
  intros ls'.
  apply (@transact_isolated demo_urls demo_json 7 in_memory ls' "https://a.test/" "https://b.test/"
    (Tuple "https" "a.test" 443) (Tuple "https" "b.test" 443) 1 1 [demo_set 1 "k" "v"] false
    (mkWorld ∅ []) (mkWorld ∅ []) (Ok (true, []))); try (vm_compute; reflexivity).
  apply demo_store_wf.
Defined.
