(* ===== verification/StorageSync.v ===== *)
(** * StorageSync: optimistic writes and the authority's updates

    src/storage/synchronization.rs ([StorageWrite], [StorageUpdate], the checks
    on change records) and src/storage/projection.rs: a document's view of its
    origin, the authority's map with the document's unacknowledged writes on
    top. *)

From S2P Require Import Prelude Text OrderedMap Limits WebStorage Fs LocalStore.

(** ** src/storage/synchronization.rs *)
Record StorageWrite := mkWrite {
  sequence : N;
  source_url : string;
  mutation : StorageMutation
}.
#[global] Instance StorageWrite_eq_dec : EqDecision StorageWrite.
Proof. solve_decision. Defined.

Definition StorageWrite_validate (w : StorageWrite) : result StorageError () :=
  if (sequence w =? 0)%N || (MAX_URL_BYTES <? byte_length (source_url w))%N
  then Err (Invalid "storage write identity")
  else StorageMutation_validate (mutation w).

Record StorageUpdate := mkUpdate {
  update_area : StorageAreaKind;
  update_version : N;
  acknowledgement : N;
  update_change : option StorageChange;
  update_source_url : string
}.
#[global] Instance StorageUpdate_eq_dec : EqDecision StorageUpdate.
Proof. solve_decision. Defined.

Definition option_byte_len (s : option StorageString) : N := from_option byte_len 0%N s.

Definition StorageChange_byte_len (c : StorageChange) : N :=
  sum_by option_byte_len [change_key c; old_value c; new_value c].

Definition StorageChange_validate (c : StorageChange) : result StorageError () :=
  if (change_version c =? 0)%N
     || bool_decide (change_key c = None)
        && (bool_decide (is_Some (old_value c)) || bool_decide (is_Some (new_value c)))
  then Err (Invalid "storage change payload")
  else
    let key_bytes := option_byte_len (change_key c) in
    try_for_each (fun value => validate_bytes (key_bytes + option_byte_len value))
                 [old_value c; new_value c].

Definition StorageChange_operation (c : StorageChange) : StorageOperation :=
  match change_key c, new_value c with
  | Some key, Some value => Set_ key value
  | Some key, None => Remove key
  | None, _ => Clear
  end.

Definition StorageUpdate_byte_len (u : StorageUpdate) : N :=
  byte_length (update_source_url u) + from_option StorageChange_byte_len 0%N (update_change u).

Definition StorageUpdate_validate (u : StorageUpdate) : result StorageError () :=
  if (update_version u =? 0)%N || (MAX_URL_BYTES <? byte_length (update_source_url u))%N
     || (acknowledgement u =? 0)%N && bool_decide (update_change u = None)
  then Err (Invalid "storage update metadata")
  else
    match update_change u with
    | Some change =>
        if negb (change_version change =? update_version u)%N
        then Err (Invalid "storage change version")
        else StorageChange_validate change
    | None => Ok tt
    end.

(** ** src/storage/projection.rs *)
Record StorageProjection := mkProjection {
  base : StorageAreaState;
  visible : StorageAreaState;
  pending : list StorageWrite;  (* a [VecDeque] *)
  last_sequence : N;
  acknowledged : N;
  pending_bytes : N
}.
#[global] Instance StorageProjection_eq_dec : EqDecision StorageProjection.
Proof. solve_decision. Defined.

Definition StorageProjection_from_snapshot (s : StorageAreaSnapshot)
  : result StorageError StorageProjection :=
  base ← from_snapshot s; Ok (mkProjection base base [] 0 0 0).

Definition is_set (op : StorageOperation) : bool :=
  match op with Set_ _ _ => true | _ => false end.

Definition write_bytes (w : StorageWrite) : N :=
  StorageMutation_byte_len (mutation w) + byte_length (source_url w).

(** [write]: the new projection, with the write to transmit if there is one. *)
Definition StorageProjection_write (p : StorageProjection) (kind : StorageAreaKind) (url : string)
    (op : StorageOperation) : StorageProjection * result StorageError (option StorageWrite) :=
  if negb (operation_changes (visible p) op) then (p, Ok None)
  else
    let m := mkMutation kind (version (visible p)) op in
    if is_set op
       && ((MAX_PENDING_STORAGE_BYTES
            <? saturating_add (pending_bytes p) (StorageMutation_byte_len m + byte_length url))
           || (MAX_QUEUED_BROWSER_WRITES <=? N.of_nat (length (pending p))))%N
    then (p, Err QuotaExceeded)
    else
      match checked_add (last_sequence p) 1 with
      | None => (p, Err (Invalid "storage write sequence exhausted"))
      | Some sequence =>
          let write := mkWrite sequence url m in
          match StorageWrite_validate write with
          | Err e => (p, Err e)
          | Ok _ =>
              match StorageAreaState_apply (visible p) m with
              | (v, Err e) =>
                  (mkProjection (base p) v (pending p) (last_sequence p) (acknowledged p)
                     (pending_bytes p), Err e)
              | (v, Ok _) =>
                  (mkProjection (base p) v (pending p ++ [write]) sequence (acknowledged p)
                     (pending_bytes p + write_bytes write), Ok (Some write))
              end
          end
      end.

(** One intent laid over the entries, without quota or version. *)
Definition overlay_operation (es : list (StorageString * StorageString)) (op : StorageOperation)
  : list (StorageString * StorageString) :=
  match op with
  | Set_ key value => bt_insert key value es
  | Remove key => bt_remove key es
  | Clear => []
  end.

Definition overlay (es : list (StorageString * StorageString)) (ws : list StorageWrite)
  : list (StorageString * StorageString) :=
  foldl (fun es w => overlay_operation es (operation (mutation w))) es ws.

Definition preserves_projection (p : StorageProjection) (u : StorageUpdate) : bool :=
  negb (acknowledgement u =? 0)%N
  && match head (pending p) with
     | Some write =>
         match update_change u with
         | None => negb (operation_changes (base p) (operation (mutation write)))
         | Some change => bool_decide (StorageChange_operation change = operation (mutation write))
         end
     | None => false
     end.

(** The part of [apply] that advances [base]. *)
Definition advance_base (p : StorageProjection) (u : StorageUpdate)
  : StorageAreaState * result StorageError () :=
  match update_change u with
  | Some change =>
      match checked_add (version (base p)) 1 with
      | None => (base p, Err (Invalid "storage version exhausted"))
      | Some next =>
          if negb (change_version change =? next)%N then
            (base p, Err (Invalid "storage update order"))
          else if match change_key change with
                  | Some key =>
                      bool_decide (StorageAreaState_get (base p) key <> old_value change)
                  | None => false
                  end
          then (base p, Err (Invalid "storage change old value"))
          else
            match StorageAreaState_apply (base p)
                    (mkMutation (update_area u) (version (base p)) (StorageChange_operation change)) with
            | (b, Err e) => (b, Err e)
            | (b, Ok false) => (b, Err (Invalid "redundant storage change"))
            | (b, Ok true) => (b, Ok tt)
            end
      end
  | None =>
      if negb (update_version u =? version (base p))%N
      then (base p, Err (Invalid "storage acknowledgement version"))
      else (base p, Ok tt)
  end.

(** [acknowledged + 1] wraps in the release build; an acknowledgement is never 0
    there. [pop_front().expect] cannot fail: [front] was just compared. *)
Definition StorageProjection_apply (p : StorageProjection) (u : StorageUpdate)
  : StorageProjection * result StorageError () :=
  match StorageUpdate_validate u with
  | Err e => (p, Err e)
  | Ok _ =>
      if negb (acknowledgement u =? 0)%N
         && (negb (acknowledgement u =? wrapping_add (acknowledged p) 1)%N
             || bool_decide (sequence <$> head (pending p) <> Some (acknowledgement u)))
      then (p, Err (Invalid "storage acknowledgement order"))
      else
        let preserves := preserves_projection p u in
        match advance_base p u with
        | (b, Err e) =>
            (mkProjection b (visible p) (pending p) (last_sequence p) (acknowledged p)
               (pending_bytes p), Err e)
        | (b, Ok _) =>
            let p :=
              if negb (acknowledgement u =? 0)%N then
                mkProjection b (visible p) (tail (pending p)) (last_sequence p) (acknowledgement u)
                  (pending_bytes p - from_option write_bytes 0%N (head (pending p)))
              else
                mkProjection b (visible p) (pending p) (last_sequence p) (acknowledged p)
                  (pending_bytes p) in
            let v :=
              if preserves then mkArea (version b) (entries (visible p))
              else mkArea (version b) (overlay (entries b) (pending p)) in
            (mkProjection b v (pending p) (last_sequence p) (acknowledged p) (pending_bytes p), Ok tt)
        end
  end.

(** * Theory *)

Lemma overlay_operation_sorted es op : sorted es -> sorted (overlay_operation es op).
Proof.
  destruct op; simpl; intros Hs; [by apply bt_insert_sorted|by apply bt_remove_sorted|apply sorted_nil].
Qed.

Lemma overlay_sorted es ws : sorted es -> sorted (overlay es ws).
Proof.
  unfold overlay. revert es. induction ws as [|w ws IH]; intros es Hs; simpl; [done|].
  by apply IH, overlay_operation_sorted.
Qed.

Lemma overlay_snoc es ws w :
  overlay es (ws ++ [w]) = overlay_operation (overlay es ws) (operation (mutation w)).
Proof. unfold overlay. by rewrite foldl_app. Qed.

(** An operation that changes nothing overlays nothing. *)
Lemma overlay_operation_noop (a : StorageAreaState) (op : StorageOperation) :
  operation_changes a op = false -> overlay_operation (entries a) op = entries a.
Proof.
  destruct op as [k v|k|]; simpl; unfold StorageAreaState_get, bt_contains; intros Hc; bool_props.
  - by apply bt_insert_id.
  - apply bt_remove_none. by apply eq_None_not_Some.
  - destruct (entries a); [done|by destruct Hc].
Qed.

(** What an accepted operation leaves is what overlaying it leaves. *)
Lemma apply_operation_overlay (a : StorageAreaState) (op : StorageOperation) es changed :
  apply_operation a op = Ok (es, changed) -> es = overlay_operation (entries a) op.
Proof.
  destruct op as [k v|k|]; simpl; intros Happ.
  - case_bool_decide as Hg; [inv_res; by rewrite bt_insert_id|].
    destruct (_ && _); [done|]. by inv_res.
  - by inv_res.
  - by inv_res.
Qed.


Lemma apply_operation_changed (a : StorageAreaState) (op : StorageOperation) es changed :
  apply_operation a op = Ok (es, changed) -> changed = operation_changes a op.
Proof.
  destruct op as [k v|k|]; simpl; unfold StorageAreaState_get; intros Happ.
  - case_bool_decide; [by inv_res|]. destruct (_ && _); [done|]. by inv_res.
  - by inv_res.
  - by inv_res.
Qed.

(** [apply] on any area, also one an overlay took over the quota. *)
Lemma StorageAreaState_apply_any (a a' : StorageAreaState) (m : StorageMutation) r :
  (version a <= u64_max)%N -> StorageAreaState_apply a m = (a', r) ->
  match r with
  | Err _ => a' = a
  | Ok changed =>
      entries a' = overlay_operation (entries a) (operation m) /\
      version a' = (version a + if changed then 1 else 0)%N /\ (version a' <= u64_max)%N /\
      changed = operation_changes a (operation m)
  end.
Proof.
  intros Hv. unfold StorageAreaState_apply.
  destruct (StorageMutation_validate m); [|intros; by inv_res].
  destruct (negb _); [intros; by inv_res|].
  destruct (_ && _) eqn:Hexh; [intros; by inv_res|].
  destruct (apply_operation a (operation m)) as [[es changed]|e] eqn:Happ; [|intros; by inv_res].
  pose proof (apply_operation_overlay _ _ _ _ Happ) as Hes.
  pose proof (apply_operation_changed _ _ _ _ Happ) as Hch. destruct changed.
  - destruct (checked_add (version a) 1) as [v|] eqn:Hadd.
    + apply checked_add_Some in Hadd as [-> Hle]. intros. inv_res. by split_and!.
    + rewrite <- Hch in Hexh. unfold checked_add in Hadd. case_match; [done|]. lia.
  - intros. inv_res. simpl. split_and!; [done|lia|lia|done].
Qed.

(** ** The projection's invariant *)
Record projection_wf (p : StorageProjection) : Prop := {
  pw_base : area_wf (base p);
  pw_view : entries (visible p) = overlay (entries (base p)) (pending p);
  pw_version : (1 <= version (visible p) <= u64_max)%N;
  pw_sequences : forall i w, pending p !! i = Some w -> sequence w = (acknowledged p + 1 + N.of_nat i)%N;
  pw_last : last_sequence p = (acknowledged p + N.of_nat (length (pending p)))%N;
  pw_last_max : (last_sequence p <= u64_max)%N;
  pw_bytes : pending_bytes p = sum_by write_bytes (pending p)
}.

Lemma projection_from_snapshot_wf (s : StorageAreaSnapshot) p :
  (snapshot_version s <= u64_max)%N -> StorageProjection_from_snapshot s = Ok p ->
  projection_wf p /\ visible p = base p.
Proof.
  unfold StorageProjection_from_snapshot. intros Hmax Hp. inv_res.
  match goal with H : from_snapshot s = Ok ?b |- _ =>
    destruct (from_snapshot_wf s b Hmax H) as [Hwf _] end.
  split; [|done]. split; simpl; try done. apply Hwf.
Qed.

(** A document's write keeps the projection consistent: the view is the base
    with every unacknowledged write on top, sequence numbers are the contiguous
    range after the last acknowledgement, and [pending_bytes] is the exact total
    of the journal; the write is queued last with the next sequence number, is
    refused without a trace, and is skipped exactly when the view would not
    change. *)
Theorem projection_write_consistent (p : StorageProjection) (kind : StorageAreaKind) (url : string)
    (op : StorageOperation) :
  projection_wf p ->
  let '(p', r) := StorageProjection_write p kind url op in
  projection_wf p' /\
  match r with
  | Err _ => p' = p
  | Ok None => p' = p /\ operation_changes (visible p) op = false
  | Ok (Some w) =>
      sequence w = (last_sequence p + 1)%N /\ pending p' = pending p ++ [w] /\ base p' = base p /\
      mutation w = mkMutation kind (version (visible p)) op /\
      entries (visible p') = overlay_operation (entries (visible p)) op
  end.
Proof.
  intros Hwf. unfold StorageProjection_write.
  destruct (operation_changes (visible p) op) eqn:Hch; simpl; [|done].
  destruct (_ && _); [done|].
  destruct (checked_add (last_sequence p) 1) as [seq|] eqn:Hseq; [|done].
  apply checked_add_Some in Hseq as [-> Hmax].
  destruct (StorageWrite_validate _); [|done].
  destruct (StorageAreaState_apply (visible p) _) as [v r] eqn:Happ.
  apply StorageAreaState_apply_any in Happ; [|apply Hwf]. simpl in Happ.
  destruct r as [changed|e]; [|subst; by destruct p].
  destruct Happ as (He & Hver & Hvmax & _). destruct Hwf as [Hb Hview Hv Hsq Hlast Hlmax Hbytes].
  split; [|by split_and!]. split; simpl; try done.
  - by rewrite overlay_snoc, He, Hview.
  - destruct changed; lia.
  - intros i w Hi. apply lookup_snoc_Some in Hi as [[Hi Hw]|[-> <-]]; [by apply Hsq|]. simpl. lia.
  - rewrite length_app. simpl. lia.
  - rewrite sum_by_app. simpl. lia.
Qed.

Lemma preserves_projection_overlay (p : StorageProjection) (u : StorageUpdate) b w ws :
  area_wf (base p) -> pending p = w :: ws -> acknowledgement u <> 0%N ->
  advance_base p u = (b, Ok tt) -> preserves_projection p u = true ->
  overlay (entries b) ws = overlay (entries (base p)) (w :: ws).
Proof.
  unfold preserves_projection, advance_base. intros Hwf Hp Hack Hadv Hpres. rewrite Hp in Hpres.
  apply andb_true_iff in Hpres as [_ Hpres]. simpl in *.
  unfold overlay at 2. simpl. fold (overlay (overlay_operation (entries (base p)) (operation (mutation w))) ws).
  f_equal. destruct (update_change u) as [c|].
  - apply bool_decide_eq_true_1 in Hpres. rewrite Hpres in Hadv.
    destruct (checked_add _ _); [|by inv_res]. destruct (negb _); [by inv_res|].
    destruct (match change_key c with Some _ => _ | None => _ end); [by inv_res|].
    destruct (StorageAreaState_apply (base p) _) as [b' [[]|e]] eqn:Happ; inv_res.
    apply StorageAreaState_apply_any in Happ as (He & _); [by rewrite He|apply Hwf].
  - apply negb_true_iff in Hpres. destruct (negb _); inv_res. by rewrite overlay_operation_noop.
Qed.

(** The map after an update's change, if it has one. *)
Definition replay_update (u : StorageUpdate) (M : gmap StorageString StorageString)
  : gmap StorageString StorageString :=
  from_option (fun c => replay c M) M (update_change u).

Lemma spec_operation_replay (c : StorageChange) M :
  spec_operation (StorageChange_operation c) M = replay c M.
Proof. unfold StorageChange_operation, replay. by repeat case_match. Qed.

Lemma advance_base_cases (p : StorageProjection) (u : StorageUpdate) b r :
  area_wf (base p) -> StorageUpdate_validate u = Ok tt -> advance_base p u = (b, r) ->
  match r with
  | Err _ => b = base p
  | Ok _ => area_wf b /\ version b = update_version u /\
            storage_map b = replay_update u (storage_map (base p))
  end.
Proof.
  unfold advance_base, replay_update, StorageUpdate_validate. intros Hwf Hval.
  destruct (_ || _); [done|]. destruct (update_change u) as [c|]; simpl.
  - destruct (N.eqb_spec (change_version c) (update_version u)) as [Hcv|]; [simpl in Hval|done].
    destruct (checked_add _ _) as [next|] eqn:Hadd; [|intros; by inv_res].
    apply checked_add_Some in Hadd as [-> _].
    destruct (N.eqb_spec (change_version c) (version (base p) + 1)) as [Hcn|]; simpl;
      [|intros; by inv_res].
    destruct (match change_key c with Some _ => _ | None => _ end); [intros; by inv_res|].
    destruct (StorageAreaState_apply (base p) _) as [b' r'] eqn:Happ.
    apply StorageAreaState_apply_cases in Happ; [|done]. simpl in Happ.
    destruct r' as [[]|e]; intros; inv_res; [| |done].
    + destruct Happ as (_ & Hv & _ & Hm & _ & _ & Hwf'). split_and!; [done|lia|].
      by rewrite Hm, spec_operation_replay.
    + destruct Happ as (_ & _ & _ & _ & _ & Hsame & _). by apply Hsame.
  - destruct (N.eqb_spec (update_version u) (version (base p))); simpl; intros; by inv_res.
Qed.

Lemma projection_head (p : StorageProjection) :
  projection_wf p ->
  match pending p with
  | [] => acknowledged p = last_sequence p
  | w :: _ => sequence w = (acknowledged p + 1)%N /\ (acknowledged p + 1 <= last_sequence p)%N
  end.
Proof.
  intros [_ _ _ Hsq Hlast _ _]. destruct (pending p) as [|w ws]; simpl in *; [lia|].
  specialize (Hsq 0 w eq_refl). lia.
Qed.

(** C28. An update from the authority reconciles the projection: the base moves to
    exactly the authority's version and map, an acknowledgement retires exactly
    the oldest write, the view is again the base with the remaining writes on
    top (also on the path that does not rebuild it), the journal accounting
    stays exact, and a malformed, reordered or redundant update changes
    nothing. *)
Theorem projection_apply_reconciles (p : StorageProjection) (u : StorageUpdate) :
  projection_wf p ->
  let '(p', r) := StorageProjection_apply p u in
  projection_wf p' /\
  match r with
  | Err _ => p' = p
  | Ok _ =>
      version (base p') = update_version u /\
      storage_map (base p') = replay_update u (storage_map (base p)) /\
      pending p' = (if (acknowledgement u =? 0)%N then pending p else tail (pending p)) /\
      (acknowledgement u <> 0%N -> acknowledgement u = (acknowledged p + 1)%N)
  end.
Proof.
  intros Hwf. pose proof Hwf as [Hb Hview Hv Hsq Hlast Hlmax Hbytes].
  pose proof (projection_head p Hwf) as Hhead. unfold StorageProjection_apply.
  destruct (StorageUpdate_validate u) as [[]|] eqn:Hval; [|done].
  destruct (_ && _) eqn:Hack; [done|].
  destruct (advance_base p u) as [b r] eqn:Hadv.
  pose proof (advance_base_cases p u b r Hb Hval Hadv) as Hcase.
  destruct r as [[]|e]; [|subst; by destruct p].
  destruct Hcase as (Hwfb & Hver & Hmap). pose proof (wf_version b Hwfb) as Hvb.
  destruct (N.eqb_spec (acknowledgement u) 0) as [Hz|Hz]; simpl in *.
  - assert (preserves_projection p u = false) as -> by (unfold preserves_projection; by rewrite Hz).
    split; [|by split_and!]. by split.
  - apply orb_false_iff in Hack as [_ Hfront]. bool_props. apply dec_stable in Hfront.
    destruct (pending p) as [|w ws] eqn:Hp; [done|]. simpl in *.
    injection Hfront as Hfront. destruct Hhead as [Hsw Hle].
    split; [|split_and!; [done..|lia]]. split; simpl; try done.
    + destruct (preserves_projection p u) eqn:Hpres; simpl; [|done].
      rewrite Hview. symmetry. by eapply preserves_projection_overlay.
    + by case_match.
    + intros i w' Hi. rewrite (Hsq (S i) w' Hi). lia.
    + lia.
    + rewrite Hbytes. lia.
Qed.

(** ** Concrete runs *)
Definition demo_projection : StorageProjection :=
  mkProjection StorageAreaState_default StorageAreaState_default [] 0 0 0.

Lemma demo_projection_wf : projection_wf demo_projection.
Proof.
  apply (projection_from_snapshot_wf StorageAreaSnapshot_empty); [done|]. by vm_compute.
Qed.

Lemma projection_write_consistent_witness :
  let p' := (StorageProjection_write demo_projection LocalArea "https://a.test/"
               (Set_ (StorageString_from "k") (StorageString_from "v"))).1 in
  projection_wf p' /\ length (pending p') = 1.
Proof.
  pose proof (projection_write_consistent demo_projection LocalArea "https://a.test/"
    (Set_ (StorageString_from "k") (StorageString_from "v")) demo_projection_wf) as H.
  vm_compute (StorageProjection_write _ _ _ _) in H. destruct H as [H _].
  split; [exact H|reflexivity].
Defined.

(** A write from another document arrives below one of ours. *)
Lemma projection_apply_reconciles_witness :
  let k := StorageString_from "k" in
  let p := (StorageProjection_write demo_projection LocalArea "https://a.test/"
              (Set_ k (StorageString_from "v"))).1 in
  let u := mkUpdate LocalArea 2 0 (Some (mkChange 2 (Some k) None (Some (StorageString_from "w"))))
             "https://a.test/other" in
  let p' := (StorageProjection_apply p u).1 in
  projection_wf p' /\ version (base p') = 2%N.
Proof.
  intros k p u.
  assert (Hp : projection_wf p).
  { split; try (vm_compute; done).
    - apply area_wf_default.
    - intros [|[|i]] w; vm_compute; [by intros [= <-]|done..]. }
  pose proof (projection_apply_reconciles p u Hp) as H.
  vm_compute (StorageProjection_apply p u) in H. destruct H as (H & H2 & _).
  split; [exact H|exact H2].
Defined.
