(* ===== verification/Coordinator.v ===== *)
(** * Coordinator: one authority, many documents

    src/storage/coordinator.rs. Documents subscribe an endpoint each; the
    coordinator keeps weak references to them, validates a document's batch,
    commits it, and appends one update per operation to every recipient's
    queue. The endpoints live in a heap shared by the coordinator and the
    subscriptions: a location is alive while its subscription is. *)

From S2P Require Import Prelude Text OrderedMap Limits Origins Fs WebStorage LocalStore StorageSync.

Definition loc := positive.

Record Endpoint := mkEndpoint {
  endpoint_origin : string;
  queue : list StorageUpdate;  (* a [VecDeque] *)
  queue_bytes : N;
  local_sequence : N;    (* sequences[0] *)
  session_sequence : N;  (* sequences[1] *)
  wake : bool;           (* a notifier is installed *)
  endpoint_error : option string
}.

(** The coordinator with the heap of live endpoints. *)
Record Coordinator := mkCoordinator {
  local : LocalStorage;
  endpoints : list loc;        (* [Vec<Weak<..>>] *)
  heap : gmap loc Endpoint
}.

(** [sequences[slot]]. *)
Definition get_sequence (kind : StorageAreaKind) (e : Endpoint) : N :=
  match kind with LocalArea => local_sequence e | SessionArea => session_sequence e end.
Definition set_sequence (kind : StorageAreaKind) (n : N) (e : Endpoint) : Endpoint :=
  match kind with
  | LocalArea => mkEndpoint (endpoint_origin e) (queue e) (queue_bytes e) n (session_sequence e)
                   (wake e) (endpoint_error e)
  | SessionArea => mkEndpoint (endpoint_origin e) (queue e) (queue_bytes e) (local_sequence e) n
                     (wake e) (endpoint_error e)
  end.
Definition set_error (err : option string) (e : Endpoint) : Endpoint :=
  mkEndpoint (endpoint_origin e) (queue e) (queue_bytes e) (local_sequence e) (session_sequence e)
    (wake e) err.
Definition set_queue (q : list StorageUpdate) (bytes : N) (e : Endpoint) : Endpoint :=
  mkEndpoint (endpoint_origin e) q bytes (local_sequence e) (session_sequence e) (wake e)
    (endpoint_error e).
Definition set_heap (h : gmap loc Endpoint) (c : Coordinator) : Coordinator :=
  mkCoordinator (local c) (endpoints c) h.
Definition set_local (ls : LocalStorage) (c : Coordinator) : Coordinator :=
  mkCoordinator ls (endpoints c) (heap c).

(** ** Subscriptions *)
Definition take_error (l : loc) (c : Coordinator) : Coordinator * option string :=
  match heap c !! l with
  | Some e => (set_heap (<[l := set_error None e]> (heap c)) c, endpoint_error e)
  | None => (c, None)
  end.

Definition has_pending (l : loc) (c : Coordinator) : bool :=
  match heap c !! l with Some e => bool_decide (queue e <> []) | None => false end.

Definition set_notifier (l : loc) (c : Coordinator) : Coordinator :=
  set_heap (alter (fun e => mkEndpoint (endpoint_origin e) (queue e) (queue_bytes e)
    (local_sequence e) (session_sequence e) true (endpoint_error e)) l (heap c)) c.

Definition take_if (accepts : StorageUpdate -> bool) (l : loc) (c : Coordinator)
  : Coordinator * option StorageUpdate :=
  match heap c !! l with
  | Some e =>
      match queue e with
      | update :: rest =>
          if accepts update then
            (set_heap (<[l := set_queue rest (queue_bytes e - StorageUpdate_byte_len update) e]> (heap c)) c,
             Some update)
          else (c, None)
      | [] => (c, None)
      end
  | None => (c, None)
  end.

(** Dropping a subscription frees its endpoint. *)
Definition drop_subscription (l : loc) (c : Coordinator) : Coordinator :=
  set_heap (delete l (heap c)) c.

(** [endpoints.retain(|endpoint| endpoint.strong_count() > 0)]. *)
Definition retain (c : Coordinator) : Coordinator :=
  mkCoordinator (local c) (filter (fun l => is_Some (heap c !! l)) (endpoints c)) (heap c).

Definition empty_endpoint (origin : string) : Endpoint := mkEndpoint origin [] 0 0 0 false None.

Definition Coordinator_new (ls : LocalStorage) : Coordinator := mkCoordinator ls [] ∅.

(** ** The batch of one document *)

(** [StorageUpdate]s for one recipient ([make_updates]). *)
Fixpoint make_updates_loop (kind : StorageAreaKind) (is_source : bool) (version : N)
    (writes : list StorageWrite) (changes : list (option StorageChange)) : list StorageUpdate :=
  match writes, changes with
  | write :: writes, change :: changes =>
      let version := from_option change_version version change in
      let rest := make_updates_loop kind is_source version writes changes in
      if is_source || bool_decide (is_Some change) then
        mkUpdate kind version (if is_source then sequence write else 0%N) change (source_url write) :: rest
      else rest
  | _, _ => []
  end.

(** The run on a copy of the area, up to the first refusal. *)
Fixpoint preflight (state : StorageAreaState) (writes : list StorageWrite)
  : StorageAreaState * list StorageMutation * list (option StorageChange) * option string :=
  match writes with
  | [] => (state, [], [], None)
  | write :: writes =>
      let m := mkMutation (area (mutation write)) (version state) (operation (mutation write)) in
      let change := StorageChange_before (Some state) (operation m) in
      match StorageAreaState_apply state m with
      | (state, Err error) => (state, [], [], Some (StorageError_to_string error))
      | (state, Ok changed) =>
          let change :=
            if changed then
              Some (mkChange (version state) (change_key change) (old_value change) (new_value change))
            else None in
          let '(state, ms, changes, rejection) := preflight state writes in
          (state, m :: ms, change :: changes, rejection)
      end
  end.

Definition over_capacity (count bytes : N) : bool :=
  ((MAX_QUEUED_BROWSER_WRITES <? count) || (MAX_PENDING_STORAGE_BYTES <? bytes))%N.

Definition updates_bytes (us : list StorageUpdate) : N := sum_by StorageUpdate_byte_len us.

(** Reservation, before anything is written: an error, [Ok false] for
    backpressure, or room for every recipient. *)
Fixpoint reserve (updates_for : loc -> list StorageUpdate) (h : gmap loc Endpoint) (targets : list loc)
  : result StorageError bool :=
  match targets with
  | [] => Ok true
  | t :: targets =>
      let updates := updates_for t in
      let bytes := updates_bytes updates in
      if over_capacity (N.of_nat (length updates)) bytes then
        Err (Invalid "storage transaction exceeds delivery capacity")
      else
        match h !! t with
        | Some e =>
            if over_capacity (N.of_nat (length (queue e) + length updates)) (queue_bytes e + bytes)
            then Ok false
            else reserve updates_for h targets
        | None => reserve updates_for h targets
        end
  end.

(** Delivery to one recipient. *)
Definition deliver (updates : list StorageUpdate) (e : Endpoint) : Endpoint :=
  match updates with
  | [] => e
  | _ => set_queue (queue e ++ updates) (queue_bytes e + updates_bytes updates) e
  end.

Section coordinator.
Context {URL : UrlLib} {JSON : JsonLib}.

Definition subscribe (url : string) (c : Coordinator)
  : Coordinator * result StorageError (StorageAreaSnapshot * loc) :=
  match storage_origin url with
  | Err e => (c, Err e)
  | Ok origin =>
      let c := retain c in
      match LocalStorage_snapshot (local c) url with
      | Err e => (c, Err e)
      | Ok snapshot =>
          let l := fresh (dom (heap c) ∪ list_to_set (endpoints c)) in
          (mkCoordinator (local c) (endpoints c ++ [l]) (<[l := empty_endpoint origin]> (heap c)),
           Ok (snapshot, l))
      end
  end.

(** The checks of the batch: its sequence numbers continue [sequence]. *)
Fixpoint check_writes (kind : StorageAreaKind) (origin : string) (seq : N) (writes : list StorageWrite)
  : result StorageError N :=
  match writes with
  | [] => Ok seq
  | write :: writes =>
      _ ← StorageWrite_validate write;
      seq ← ok_or (checked_add seq 1) (Invalid "storage sequence exhausted");
      if negb (sequence write =? seq)%N || negb (bool_decide (area (mutation write) = kind))
      then Err (Invalid "storage source identity or sequence")
      else
        o ← storage_origin (source_url write);
        if negb (String.eqb o origin) then Err (Invalid "storage source identity or sequence")
        else check_writes kind origin seq writes
  end.

(** Validation of the batch and a copy of the area it applies to: the last
    sequence number, the version before, and the copy. *)
Definition prepare (c : Coordinator) (session : SessionStorage) (kind : StorageAreaKind)
    (src : Endpoint) (first : StorageWrite) (writes : list StorageWrite)
  : result StorageError (N * N * StorageAreaState) :=
  seq ← check_writes kind (endpoint_origin src) (get_sequence kind src) writes;
  snapshot ← match kind with
             | LocalArea => LocalStorage_snapshot (local c) (source_url first)
             | SessionArea => SessionStorage_snapshot session (source_url first)
             end;
  state ← from_snapshot snapshot;
  Ok (seq, snapshot_version snapshot, state).

(** [apply]; [Ok true] comes with the list of endpoints whose notifier runs. The
    source is a live subscription. *)
Definition commit (pid : N) (kind : StorageAreaKind) (url origin : string) (ms : list StorageMutation)
    (state : StorageAreaState) (c : Coordinator) (session : SessionStorage)
  : io (LocalStorage * SessionStorage * result StorageError bool) :=
  match kind with
  | LocalArea => '(ls, r) ← apply_batch pid (local c) url ms; mret (ls, session, r)
  | SessionArea =>
      mret (local c, mkSession (<[origin := state]> (session_origins session)), Ok true)
  end.

Definition is_target (kind : StorageAreaKind) (source : loc) (origin : string) (h : gmap loc Endpoint)
    (l : loc) : Prop :=
  exists e, h !! l = Some e /\ (l = source \/ kind = LocalArea /\ endpoint_origin e = origin).
#[global] Instance is_target_dec kind source origin h l : Decision (is_target kind source origin h l).
Proof.
  unfold is_target. destruct (h !! l) as [e|].
  - destruct (decide (l = source \/ kind = LocalArea /\ endpoint_origin e = origin)).
    + left. eauto.
    + right. intros (? & [= <-] & ?). done.
  - right. by intros (? & ? & _).
Defined.

Definition deliver_to (kind : StorageAreaKind) (source : loc) (seq : N) (rejection : option string)
    (updates_for : loc -> list StorageUpdate) (h : gmap loc Endpoint) (t : loc) : gmap loc Endpoint :=
  alter (fun e =>
    deliver (updates_for t)
      (if decide (t = source) then set_error rejection (set_sequence kind seq e) else e)) t h.

(** The second half of [apply]: reserve room, commit, deliver. *)
Definition settle (pid : N) (c : Coordinator) (source : loc) (kind : StorageAreaKind) (url origin : string)
    (writes : list StorageWrite) (seq original_version : N) (state : StorageAreaState)
    (session : SessionStorage)
  : io (Coordinator * SessionStorage * result StorageError (bool * list loc)) :=
  let '(state, ms, changes, rejection) := preflight state writes in
  let changes :=
    if bool_decide (is_Some rejection) then replicate (length writes) None else changes in
  let targets := filter (is_target kind source origin (heap c)) (endpoints c) in
  let updates_for changes t :=
    make_updates_loop kind (bool_decide (t = source)) original_version writes changes in
  match reserve (updates_for changes) (heap c) targets with
  | Err e => mret (c, session, Err e)
  | Ok false => mret (c, session, Ok (false, []))
  | Ok true =>
      '(ls, session, result) ←
        match rejection with
        | Some _ => mret (local c, session, Ok false)
        | None => commit pid kind url origin ms state c session
        end;
      let '(rejection, changes) :=
        match result with
        | Err error => (Some (StorageError_to_string error), replicate (length changes) None)
        | Ok _ => (rejection, changes)
        end in
      let h := foldl (deliver_to kind source seq rejection (updates_for changes)) (heap c) targets in
      let wakes :=
        filter (fun t => updates_for changes t <> [] /\ wake <$> heap c !! t = Some true) targets in
      mret (mkCoordinator ls (endpoints c) h, session, Ok (true, wakes))
  end.

Definition Coordinator_apply (pid : N) (c : Coordinator) (source : loc) (writes : list StorageWrite)
    (session : SessionStorage)
  : io (Coordinator * SessionStorage * result StorageError (bool * list loc)) :=
  match writes with
  | [] => mret (c, session, Ok (true, []))
  | first :: _ =>
      let c := retain c in
      match heap c !! source with
      | None => mret (c, session, Err (Invalid "retired storage source"))
      | Some src =>
          if bool_decide (source ∉ endpoints c)
          then mret (c, session, Err (Invalid "retired storage source"))
          else
            let kind := area (mutation first) in
            match prepare c session kind src first writes with
            | Err e => mret (c, session, Err e)
            | Ok (seq, original_version, state) =>
                settle pid c source kind (source_url first) (endpoint_origin src) writes seq
                  original_version state session
            end
      end
  end.
End coordinator.

(** * Theory *)

(** ** Queues that lead a replica to the authority *)

(** [follows M v us M' v']: consuming the local-storage updates [us], in order,
    takes the map [M] at version [v] to [M'] at [v']; every update is one the
    projection accepts at that point. *)
Inductive follows : gmap StorageString StorageString -> N -> list StorageUpdate ->
    gmap StorageString StorageString -> N -> Prop :=
  | follows_nil M v : follows M v [] M v
  | follows_session M v u us M' v' :
      update_area u = SessionArea -> follows M v us M' v' -> follows M v (u :: us) M' v'
  | follows_local M v u us M' v' :
      update_area u = LocalArea ->
      update_version u = (v + if bool_decide (is_Some (update_change u)) then 1 else 0)%N ->
      (forall c, update_change u = Some c ->
         change_version c = update_version u /\
         old_value c = (change_key c ≫= fun k => M !! k)) ->
      follows (replay_update u M) (update_version u) us M' v' ->
      follows M v (u :: us) M' v'.

Lemma follows_app M v us M1 v1 us' M2 v2 :
  follows M v us M1 v1 -> follows M1 v1 us' M2 v2 -> follows M v (us ++ us') M2 v2.
Proof. induction 1; intros Hf; simpl; [done|by apply follows_session; auto|by apply follows_local; auto]. Qed.

Lemma make_updates_unchanged is_source v writes n M :
  length writes = n ->
  follows M v (make_updates_loop LocalArea is_source v writes (replicate n None)) M v.
Proof.
  intros <-. induction writes as [|w writes IH]; simpl; [constructor|].
  rewrite orb_false_r. destruct is_source; [|done].
  apply follows_local; simpl; [done|lia|done|done].
Qed.

Lemma make_updates_session is_source v writes changes M v0 :
  follows M v0 (make_updates_loop SessionArea is_source v writes changes) M v0.
Proof.
  revert v changes. induction writes as [|w writes IH]; intros v [|c changes]; simpl; try constructor.
  destruct (_ || _); [|done]. by apply follows_session.
Qed.

(** The updates of a successful preflight follow the copy it ran on. *)
Lemma preflight_follows is_source state writes state' ms changes :
  area_wf state -> preflight state writes = (state', ms, changes, None) ->
  follows (storage_map state) (version state)
    (make_updates_loop LocalArea is_source (version state) writes changes)
    (storage_map state') (version state') /\ area_wf state' /\ length changes = length writes.
Proof.
  revert state ms changes. induction writes as [|w writes IH]; intros state ms changes Hwf; simpl.
  { intros [= <- <- <-]. by split_and!; [constructor|..]. }
  destruct (StorageAreaState_apply state _) as [s1 [changed|e]] eqn:Happ; [|done].
  destruct (preflight s1 writes) as [[[s2 ms1] cs1] rej] eqn:Hpre. intros [= <- <- <- ->].
  pose proof (StorageAreaState_apply_cases _ _ _ _ Hwf Happ)
    as (_ & Hver & _ & Hmap & _ & Hsame & Hwf1).
  destruct (IH s1 ms1 cs1 Hwf1 Hpre) as (Hf & Hwf2 & Hlen). simpl in *.
  split_and!; [|done|by rewrite Hlen].
  destruct changed; simpl.
  - rewrite orb_true_r. apply follows_local; simpl; [done|done| |].
    + intros c [= <-]. split; [done|]. simpl.
      destruct (operation (mutation w)) as [k v|k|]; simpl; [..|done];
        unfold storage_map; by rewrite lookup_bt_map by apply Hwf.
    + unfold replay_update. simpl. by rewrite (replay_before (Some state)), <- Hmap.
  - rewrite (Hsame eq_refl) in *. rewrite orb_false_r. destruct is_source; [|done].
    apply follows_local; simpl; [done|lia|done|done].
Qed.

(** The mutations of a successful preflight do the same to the store. *)
Lemma preflight_transact o origin writes state' ms changes ch o' r :
  origins_wf o -> preflight (area_at o origin) writes = (state', ms, changes, None) ->
  transact_loop o origin false ch [] ms = (o', Ok r) -> area_at o' origin = state'.
Proof.
  revert o ms changes ch. induction writes as [|w writes IH]; intros o ms changes ch Hwf; simpl.
  { intros [= <- <- <-]. simpl. by intros [= <- _]. }
  destruct (StorageAreaState_apply (area_at o origin) _) as [s1 [changed|e]] eqn:Happ; [|done].
  destruct (preflight s1 writes) as [[[s2 ms1] cs1] rej] eqn:Hpre. intros [= <- <- <- ->]. simpl.
  destruct (apply_to_origin o origin _) as [o1 r1] eqn:Happo.
  pose proof (apply_to_origin_cases _ _ _ _ _ Hwf Happo) as [_ Hcase].
  destruct r1 as [changed1|e]; [|done]. destruct Hcase as (Harea & _ & Hsame & Hwf1).
  rewrite Happ in Harea. injection Harea as -> ->.
  destruct changed1; intros Hloop; by eapply IH.
Qed.

(** ** The coordinator's invariant *)
Record endpoint_wf (e : Endpoint) : Prop := {
  ew_count : (N.of_nat (length (queue e)) <= MAX_QUEUED_BROWSER_WRITES)%N;
  ew_bytes : queue_bytes e = updates_bytes (queue e);
  ew_budget : (queue_bytes e <= MAX_PENDING_STORAGE_BYTES)%N
}.

Record coordinator_wf (c : Coordinator) : Prop := {
  cw_local : origins_wf (origins (local c));
  cw_nodup : NoDup (endpoints c);
  cw_registered : forall l, is_Some (heap c !! l) -> l ∈ endpoints c;
  cw_queues : map_Forall (fun _ => endpoint_wf) (heap c)
}.

Lemma over_capacity_false count bytes :
  over_capacity count bytes = false <->
  (count <= MAX_QUEUED_BROWSER_WRITES)%N /\ (bytes <= MAX_PENDING_STORAGE_BYTES)%N.
Proof. unfold over_capacity. lia. Qed.

Lemma retain_wf (c : Coordinator) : coordinator_wf c -> coordinator_wf (retain c).
Proof.
  intros [Hl Hn Hr Hq]. split; simpl; try done.
  - by apply NoDup_filter.
  - intros l Hs. apply list_elem_of_filter. auto.
Qed.

Lemma reserve_room updates_for h targets :
  reserve updates_for h targets = Ok true ->
  forall t e, t ∈ targets -> h !! t = Some e ->
    (N.of_nat (length (queue e) + length (updates_for t)) <= MAX_QUEUED_BROWSER_WRITES)%N /\
    (queue_bytes e + updates_bytes (updates_for t) <= MAX_PENDING_STORAGE_BYTES)%N.
Proof.
  induction targets as [|t0 targets IH]; simpl; [by intros _ t e ?%not_elem_of_nil|].
  destruct (over_capacity _ _); [done|]. intros Hres t e Hin He.
  destruct (h !! t0) as [e0|] eqn:He0.
  - destruct (over_capacity _ _) eqn:Hover; [done|].
    apply elem_of_cons in Hin as [->|Hin]; [|by apply IH]. rewrite He0 in He. injection He as ->.
    by apply over_capacity_false in Hover.
  - apply elem_of_cons in Hin as [->|Hin]; [congruence|by apply IH].
Qed.

Lemma deliver_queue us e :
  queue (deliver us e) = queue e ++ us /\
  queue_bytes (deliver us e) = (queue_bytes e + updates_bytes us)%N /\
  endpoint_origin (deliver us e) = endpoint_origin e.
Proof. destruct us; simpl; [rewrite app_nil_r; split_and!; [done|unfold updates_bytes; simpl; lia|done]|done]. Qed.

(** What one recipient looks like after delivery. *)
Definition delivered (kind : StorageAreaKind) (source : loc) (seq : N) (rejection : option string)
    (updates_for : loc -> list StorageUpdate) (t : loc) (e : Endpoint) : Endpoint :=
  deliver (updates_for t)
    (if decide (t = source) then set_error rejection (set_sequence kind seq e) else e).

Lemma delivered_queue kind source seq rejection updates_for t e :
  queue (delivered kind source seq rejection updates_for t e) = queue e ++ updates_for t /\
  queue_bytes (delivered kind source seq rejection updates_for t e)
    = (queue_bytes e + updates_bytes (updates_for t))%N /\
  endpoint_origin (delivered kind source seq rejection updates_for t e) = endpoint_origin e.
Proof.
  unfold delivered.
  destruct (deliver_queue (updates_for t)
    (if decide (t = source) then set_error rejection (set_sequence kind seq e) else e)) as (-> & -> & ->).
  case_decide; [|done]. by destruct kind.
Qed.

Lemma foldl_deliver_lookup kind source seq rejection updates_for h targets l :
  NoDup targets ->
  foldl (deliver_to kind source seq rejection updates_for) h targets !! l =
  if decide (l ∈ targets) then delivered kind source seq rejection updates_for l <$> h !! l
  else h !! l.
Proof.
  intros Hnd. revert h. induction Hnd as [|t targets Hnin _ IH]; intros h.
  { case_decide as Hin; [by apply not_elem_of_nil in Hin|done]. }
  cbn [foldl].
  rewrite IH. unfold deliver_to. destruct (decide (l = t)) as [->|Hne].
  - destruct (decide (t ∈ targets)); [done|].
    destruct (decide (t ∈ t :: targets)) as [|Hn]; [by rewrite lookup_alter_eq|].
    destruct Hn. by constructor.
  - rewrite lookup_alter_ne by done.
    destruct (decide (l ∈ targets)) as [Hin|Hnot], (decide (l ∈ t :: targets)) as [Hin'|Hnot']; try done.
    + destruct Hnot'. by constructor.
    + apply elem_of_cons in Hin' as [|]; done.
Qed.

(** Dropping the changes of a refused batch needs no more room. *)
Lemma make_updates_None_le kind is_source v v' writes changes n :
  length changes = n ->
  length (make_updates_loop kind is_source v' writes (replicate n None))
    <= length (make_updates_loop kind is_source v writes changes) /\
  (updates_bytes (make_updates_loop kind is_source v' writes (replicate n None))
    <= updates_bytes (make_updates_loop kind is_source v writes changes))%N.
Proof.
  intros <-. revert v v' changes. induction writes as [|w writes IH]; intros v v' [|ch changes]; simpl; try done.
  destruct (IH (from_option change_version v ch) v' changes) as [IH1 IH2]. rewrite orb_false_r.
  unfold updates_bytes in *. destruct is_source; simpl.
  - unfold StorageUpdate_byte_len in *. simpl. lia.
  - case_bool_decide; simpl; lia.
Qed.

Lemma make_updates_acknowledge kind v writes changes :
  length changes = length writes ->
  acknowledgement <$> make_updates_loop kind true v writes changes = sequence <$> writes.
Proof.
  revert v changes. induction writes as [|w writes IH]; intros v [|ch changes]; simpl; try done.
  intros [= Hlen]. by rewrite IH.
Qed.

Lemma make_updates_elem kind is_source v writes changes u :
  u ∈ make_updates_loop kind is_source v writes changes ->
  update_area u = kind /\ (is_source = false -> acknowledgement u = 0%N) /\ update_change u ∈ changes.
Proof.
  revert v changes. induction writes as [|w writes IH]; intros v [|ch changes]; simpl;
    try (by intros ?%not_elem_of_nil).
  destruct (_ || _).
  - intros [->|Hin]%elem_of_cons; simpl.
    + split_and!; [done|by intros ->|by constructor].
    + destruct (IH _ _ Hin) as (H1 & H2 & H3). split_and!; [done..|by constructor].
  - intros Hin. destruct (IH _ _ Hin) as (H1 & H2 & H3). split_and!; [done..|by constructor].
Qed.

Lemma preflight_length state writes state' ms changes :
  preflight state writes = (state', ms, changes, None) -> length changes = length writes.
Proof.
  revert state ms changes. induction writes as [|w writes IH]; intros state ms changes; simpl.
  { by intros [= _ _ <-]. }
  destruct (StorageAreaState_apply state _) as [s1 [changed|e]]; [|done].
  destruct (preflight s1 writes) as [[[s2 ms1] cs1] rej] eqn:Hpre. intros [= <- <- <- ->]. simpl.
  f_equal. by eapply IH.
Qed.

Section apply_theory.
Context {URL : UrlLib} {JSON : JsonLib}.

(** The local store's part of a commit. *)
Lemma apply_batch_cases pid ls url ms w :
  origins_wf (origins ls) ->
  let '(w', out) := apply_batch pid ls url ms w in
  match out with
  | Crashed => True
  | Done (ls', Err _) => ls' = ls
  | Done (ls', Ok _) =>
      exists origin r, storage_origin url = Ok origin /\
        transact_loop (origins ls) origin false false [] ms = (origins ls', Ok r)
  end.
Proof.
  intros Hwf. pose proof (transact_cases pid ls url ms false w Hwf) as Hc.
  unfold apply_batch, mbind, io_bind, mret, io_ret.
  destruct (transact pid ls url ms false w) as [w' out].
  destruct Hc as [(e & -> & _)|(origin & o' & looped & Ho & _ & _ & Hloop & Hl)]; [done|].
  destruct looped as [[changed records]|e]; [|by destruct Hl as (_ & e' & -> & _)].
  destruct (flush pid (store_path ls) changed o' w) as [wf [[u|ef]|]]; destruct Hl as [_ ->];
    simpl; eauto.
Qed.

(** Everything [Coordinator_apply] guarantees of an accepted batch. *)
Record committed (c : Coordinator) (source : loc) (writes : list StorageWrite) (c' : Coordinator)
    (src : Endpoint) (kind : StorageAreaKind) (seq : N) (rejection : option string)
    (us : loc -> list StorageUpdate) : Prop := {
  cm_source : heap c !! source = Some src;
  cm_kind : Forall (fun w => area (mutation w) = kind) writes;
  cm_sequence : check_writes kind (endpoint_origin src) (get_sequence kind src) writes = Ok seq;
  cm_endpoints : endpoints c' = endpoints (retain c);
  cm_heap : forall l, heap c' !! l =
    if decide (l ∈ filter (is_target kind source (endpoint_origin src) (heap c)) (endpoints (retain c)))
    then delivered kind source seq rejection us l <$> heap c !! l else heap c !! l;
  cm_room : forall t e,
    t ∈ filter (is_target kind source (endpoint_origin src) (heap c)) (endpoints (retain c)) ->
    heap c !! t = Some e ->
    (N.of_nat (length (queue e) + length (us t)) <= MAX_QUEUED_BROWSER_WRITES)%N /\
    (queue_bytes e + updates_bytes (us t) <= MAX_PENDING_STORAGE_BYTES)%N;
  cm_local_wf : origins_wf (origins (local c'));
  cm_isolated : delete (endpoint_origin src) (origins (local c'))
                = delete (endpoint_origin src) (origins (local c));
  cm_session : kind = SessionArea -> local c' = local c /\ forall t, Forall (fun u => update_area u = SessionArea) (us t);
  cm_follows : forall t,
    let before := area_at (origins (local c)) (endpoint_origin src) in
    let after := area_at (origins (local c')) (endpoint_origin src) in
    follows (storage_map before) (version before) (us t) (storage_map after) (version after);
  cm_acknowledges : acknowledgement <$> us source = sequence <$> writes;
  cm_others : forall t, t <> source -> Forall (fun u => acknowledgement u = 0%N) (us t);
  cm_rejected : is_Some rejection ->
    origins (local c') = origins (local c) /\ forall t, Forall (fun u => update_change u = None) (us t)
}.

Lemma check_writes_Ok kind origin seq writes seq' :
  check_writes kind origin seq writes = Ok seq' ->
  Forall (fun w => area (mutation w) = kind /\ storage_origin (source_url w) = Ok origin) writes.
Proof.
  revert seq. induction writes as [|w writes IH]; intros seq; simpl; [constructor|].
  intros Hc. inv_res. destruct (_ || _) eqn:Hid; [done|]. inv_res.
  match goal with H : context [String.eqb ?o origin] |- _ =>
    destruct (String.eqb_spec o origin); [simpl in H; subst o|done] end.
  apply orb_false_iff in Hid as [_ Hk]. apply negb_false_iff, bool_decide_eq_true_1 in Hk.
  constructor; [done|]. by eapply IH.
Qed.

(** A commit's effect on the authority, whichever way it goes. *)
Lemma commit_cases pid kind url origin ms state writes c session w changes :
  origins_wf (origins (local c)) -> storage_origin url = Ok origin ->
  (kind = LocalArea -> preflight (area_at (origins (local c)) origin) writes = (state, ms, changes, None)) ->
  let '(w', out) := commit pid kind url origin ms state c session w in
  match out with
  | Crashed => True
  | Done (ls', session', r) =>
      origins_wf (origins ls') /\
      delete origin (origins ls') = delete origin (origins (local c)) /\
      (kind = SessionArea -> ls' = local c) /\
      match r with
      | Err _ => ls' = local c
      | Ok _ => kind = LocalArea -> area_at (origins ls') origin = state
      end
  end.
Proof.
  intros Hwf Ho Hpre. unfold commit. destruct kind; [|by simpl].
  pose proof (apply_batch_cases pid (local c) url ms w Hwf) as Hc. unfold mbind, io_bind, mret, io_ret.
  destruct (apply_batch pid (local c) url ms w) as [w' [[ls' [b|e]]|]]; [| |done].
  - destruct Hc as (origin' & r & Ho' & Hloop). rewrite Ho in Ho'. injection Ho' as <-.
    pose proof (transact_loop_cases _ _ _ _ _ _ _ _ Hwf Hloop) as [Hdel Hr]. destruct r as [ch recs].
    destruct Hr as (Hwf' & _). split_and!; [done..|]. intros _.
    eapply preflight_transact; [exact Hwf|by apply Hpre|exact Hloop].
  - subst ls'. by split_and!.
Qed.

Lemma prepare_Ok c session kind src first writes seq v state :
  origins_wf (origins (local c)) -> first ∈ writes ->
  prepare c session kind src first writes = Ok (seq, v, state) ->
  check_writes kind (endpoint_origin src) (get_sequence kind src) writes = Ok seq /\
  Forall (fun w => area (mutation w) = kind) writes /\
  storage_origin (source_url first) = Ok (endpoint_origin src) /\
  (kind = LocalArea ->
   state = area_at (origins (local c)) (endpoint_origin src) /\ v = version state).
Proof.
  unfold prepare. intros Hwf Hin Hp. inv_res.
  match goal with H : check_writes _ _ _ _ = Ok _ |- _ =>
    pose proof H as Hcheck; apply check_writes_Ok in H as Hall end.
  split; [done|]. rewrite Forall_and in Hall. destruct Hall as [Hk Ho].
  rewrite Forall_forall in Ho. specialize (Ho _ Hin). split_and!; [done..|].
  intros ->. unfold LocalStorage_snapshot in *. rewrite Ho in *. simpl in *. inv_res.
  unfold lock in *. destruct (poisoned (local c)); [done|]. inv_res.
  rewrite area_snapshot_at in *.
  rewrite from_snapshot_snapshot in * by (by apply area_at_wf). inv_res. done.
Qed.

(** The changes a settled batch broadcasts: those of the preflight, or none. *)
Lemma settle_cases pid c source src kind url writes seq v state session w :
  coordinator_wf c -> heap c !! source = Some src -> source ∈ endpoints c -> endpoints (retain c) = endpoints c ->
  Forall (fun w => area (mutation w) = kind) writes ->
  check_writes kind (endpoint_origin src) (get_sequence kind src) writes = Ok seq ->
  storage_origin url = Ok (endpoint_origin src) ->
  (kind = LocalArea -> state = area_at (origins (local c)) (endpoint_origin src) /\ v = version state) ->
  let '(w', out) := settle pid c source kind url (endpoint_origin src) writes seq v state session w in
  match out with
  | Crashed => True
  | Done (c', session', Ok (true, _)) =>
      exists rejection us, committed c source writes c' src kind seq rejection us
  | Done (c', session', _) => w' = w /\ c' = c /\ session' = session
  end.
Proof.
  intros Hwf Hsrc Hin Hret Hkind Hcheck Hurl Hstate. unfold settle.
  destruct (preflight state writes) as [[[state' ms] changes0] rejection0] eqn:Hpre.
  set (changes := if bool_decide (is_Some rejection0) then replicate (length writes) None else changes0).
  set (targets := filter (is_target kind source (endpoint_origin src) (heap c)) (endpoints c)).
  set (updates_for := fun changes t =>
    make_updates_loop kind (bool_decide (t = source)) v writes changes).
  destruct (reserve _ (heap c) targets) as [[]|e] eqn:Hres; [|done..].
  pose proof (reserve_room _ _ _ Hres) as Hroom.
  assert (Hsettled : forall ls session' r w',
    (match rejection0 with
     | Some _ => mret (local c, session, Ok false)
     | None => commit pid kind url (endpoint_origin src) ms state' c session
     end) w = (w', Done (ls, session', r)) ->
    let '(rejection, changes') := match r with
      | Err error => (Some (StorageError_to_string error), replicate (length changes) None)
      | Ok _ => (rejection0, changes)
      end in
    length changes' = length writes /\ origins_wf (origins ls) /\
    delete (endpoint_origin src) (origins ls) = delete (endpoint_origin src) (origins (local c)) /\
    (kind = SessionArea -> ls = local c) /\
    (is_Some rejection -> ls = local c /\ changes' = replicate (length writes) None) /\
    (forall t e, t ∈ targets -> heap c !! t = Some e ->
       (N.of_nat (length (queue e) + length (updates_for changes' t)) <= MAX_QUEUED_BROWSER_WRITES)%N /\
       (queue_bytes e + updates_bytes (updates_for changes' t) <= MAX_PENDING_STORAGE_BYTES)%N) /\
    (forall t, kind = LocalArea ->
       let before := area_at (origins (local c)) (endpoint_origin src) in
       let after := area_at (origins ls) (endpoint_origin src) in
       follows (storage_map before) (version before) (updates_for changes' t)
               (storage_map after) (version after))).
  { intros ls session' r w' Hc. destruct rejection0 as [msg|].
    - injection Hc as _ <- <- <-. unfold changes. simpl. rewrite length_replicate.
      split_and!; try done; [by apply Hwf|]. intros t ->. destruct (Hstate eq_refl) as [-> ->].
      by apply make_updates_unchanged.
    - pose proof (preflight_length _ _ _ _ _ Hpre) as Hlen0.
      pose proof (commit_cases pid kind url (endpoint_origin src) ms state' writes c session w changes0
        (cw_local c Hwf) Hurl) as Hcc. rewrite Hc in Hcc.
      destruct Hcc as (Hlwf & Hdel & Hses & Hr).
      { intros Hk. destruct (Hstate Hk) as [Hs _]. by rewrite <- Hs. }
      destruct r as [b|err].
      + split_and!; try done; try (by intros [? ?]). intros t Hk. destruct (Hstate Hk) as [Hs Hv].
        rewrite Hr, <- Hs by done. unfold updates_for. rewrite Hv, Hk. simpl.
        eapply preflight_follows, Hpre. rewrite Hs. apply area_at_wf, Hwf.
      + subst ls. unfold changes. simpl. rewrite length_replicate. split_and!; try done.
        * intros _. by rewrite Hlen0.
        * intros t e Ht He. specialize (Hroom t e Ht He). simpl in Hroom.
          destruct (make_updates_None_le kind (bool_decide (t = source)) v v writes changes0 _ eq_refl).
          unfold updates_for, changes in *. simpl in *. lia.
        * intros t ->. destruct (Hstate eq_refl) as [-> ->].
          by apply make_updates_unchanged. }
  unfold mbind at 1, io_bind at 1.
  destruct ((match rejection0 with
     | Some _ => mret (local c, session, Ok false)
     | None => commit pid kind url (endpoint_origin src) ms state' c session
     end) w) as [w1 [[[ls session'] r]|]] eqn:Hcommit; [|done].
  specialize (Hsettled _ _ _ _ eq_refl).
  destruct (match r with Ok _ => _ | Err _ => _ end) as [rejection changes'] eqn:Hch.
  destruct Hsettled as (Hlen & Hlwf & Hdel & Hses & Hrej & Hroom' & Hfol).
  exists rejection, (updates_for changes'). split; rewrite ?Hret; try done.
  - intros l. simpl. apply foldl_deliver_lookup. apply NoDup_filter, Hwf.
  - intros Hk. split; [by apply Hses|]. intros t. apply Forall_forall. intros u Hu.
    rewrite <- Hk. by apply make_updates_elem in Hu as [? _].
  - intros t. destruct kind; [by apply Hfol|]. simpl. rewrite Hses by done.
    apply make_updates_session.
  - unfold updates_for. rewrite bool_decide_eq_true_2 by done. by apply make_updates_acknowledge.
  - intros t Hne. apply Forall_forall. intros u Hu. unfold updates_for in Hu.
    rewrite bool_decide_eq_false_2 in Hu by done. by apply make_updates_elem in Hu as (_ & ? & _); auto.
  - intros Hr. destruct (Hrej Hr) as [-> Hnone]. split; [done|]. intros t. apply Forall_forall.
    intros u Hu. apply make_updates_elem in Hu as (_ & _ & Hu). rewrite Hnone in Hu.
    by apply elem_of_replicate_inv in Hu.
Qed.

Lemma retain_idemp c : retain (retain c) = retain c.
Proof. unfold retain. simpl. f_equal. rewrite list_filter_filter. apply list_filter_iff. naive_solver. Qed.

Lemma Coordinator_apply_cases pid c source writes session w :
  coordinator_wf c ->
  let '(w', out) := Coordinator_apply pid c source writes session w in
  match out with
  | Crashed => True
  | Done (c', session', Ok (true, _)) =>
      writes = [] /\ c' = c /\ session' = session \/
      exists src kind seq rejection us, committed c source writes c' src kind seq rejection us
  | Done (c', session', _) => w' = w /\ c' = retain c /\ session' = session
  end.
Proof.
  intros Hwf. unfold Coordinator_apply. destruct writes as [|first rest]; [by left|].
  assert (Hin : first ∈ first :: rest) by constructor. revert Hin.
  generalize (first :: rest). intros writes Hin. cbn zeta.
  destruct (heap (retain c) !! source) as [src|] eqn:Hsrc; [|done].
  case_bool_decide as Hreg; [done|].
  destruct (prepare (retain c) session _ src first writes) as [[[seq v] state]|e] eqn:Hprep; [|done].
  apply prepare_Ok in Hprep as (Hseq & Hkind & Hurl & Hstate); [|apply Hwf|done].
  pose proof (settle_cases pid (retain c) source src _ _ writes seq v state session w (retain_wf c Hwf)
    Hsrc Hreg ltac:(by rewrite retain_idemp) Hkind Hseq Hurl Hstate) as Hs.
  destruct (settle _ _ _ _ _ _ _ _ _ _ _ w) as [w' [[[c' session'] [[[] wakes]|e]]|]]; [|done..].
  destruct Hs as (rejection & us & Hc). right. exists src, (area (mutation first)), seq, rejection, us.
  destruct Hc. rewrite retain_idemp in *. by split.
Qed.
End apply_theory.

(** ** Every operation keeps the invariant *)
Section invariant.
Context {URL : UrlLib} {JSON : JsonLib}.

Lemma committed_wf c source writes c' src kind seq rejection us :
  coordinator_wf c -> committed c source writes c' src kind seq rejection us -> coordinator_wf c'.
Proof.
  intros Hwf Hc. pose proof (retain_wf c Hwf) as [_ Hn Hr _]. destruct Hwf as [_ _ _ Hq].
  destruct Hc as [_ _ _ Hends Hheap Hroom Hlwf _ _ _ _ _ _]. split; [done|by rewrite Hends| |].
  - intros l Hl. rewrite Hends. apply Hr. rewrite Hheap in Hl. case_decide; [|done].
    by rewrite fmap_is_Some in Hl.
  - intros l e' He'. rewrite Hheap in He'. case_decide as Ht; [|by apply (Hq l)].
    apply fmap_Some in He' as (e & He & ->). pose proof (Hq l e He) as [Hcount Hbytes Hbud].
    destruct (Hroom l e Ht He) as [Hr1 Hr2].
    destruct (delivered_queue kind source seq rejection us l e) as (Hqueue & Hqb & _).
    split; rewrite ?Hqueue, ?Hqb; [rewrite length_app; lia| |lia].
    unfold updates_bytes in *. rewrite sum_by_app. lia.
Qed.

Lemma Coordinator_apply_wf pid c source writes session w w' c' session' r :
  coordinator_wf c ->
  Coordinator_apply pid c source writes session w = (w', Done (c', session', r)) -> coordinator_wf c'.
Proof.
  intros Hwf Happ. pose proof (Coordinator_apply_cases pid c source writes session w Hwf) as Hc.
  rewrite Happ in Hc. destruct r as [[[] wakes]|e].
  - destruct Hc as [(_ & -> & _)|(src & kind & seq & rejection & us & Hc)]; [done|].
    by eapply committed_wf.
  - destruct Hc as (_ & -> & _). by apply retain_wf.
  - destruct Hc as (_ & -> & _). by apply retain_wf.
Qed.

Lemma take_if_cases accepts l c c' u :
  take_if accepts l c = (c', u) ->
  c' = c /\ u = None \/
  exists e v rest, heap c !! l = Some e /\ queue e = v :: rest /\ u = Some v /\ accepts v = true /\
    c' = set_heap (<[l := set_queue rest (queue_bytes e - StorageUpdate_byte_len v) e]> (heap c)) c.
Proof.
  unfold take_if. destruct (heap c !! l) as [e|]; [|intros [= <- <-]; by left].
  destruct (queue e) as [|v rest] eqn:Hq; [intros [= <- <-]; by left|].
  destruct (accepts v) eqn:Ha; intros [= <- <-]; [right|by left].
  exists e, v, rest. by rewrite Hq.
Qed.

Lemma set_heap_wf c l e :
  coordinator_wf c -> is_Some (heap c !! l) -> endpoint_wf e ->
  coordinator_wf (set_heap (<[l := e]> (heap c)) c).
Proof.
  intros [Hl Hn Hr Hq] Hs He. split; simpl; try done.
  - intros l' Hl'. apply Hr. destruct (decide (l = l')) as [->|Hne]; [done|].
    by rewrite lookup_insert_ne in Hl'.
  - by apply map_Forall_insert_2.
Qed.

Lemma take_if_wf accepts l c : coordinator_wf c -> coordinator_wf (take_if accepts l c).1.
Proof.
  intros Hwf. destruct (take_if accepts l c) as [c' u] eqn:Ht.
  apply take_if_cases in Ht as [[-> _]|(e & v & rest & He & Hq & _ & _ & ->)]; [done|]. simpl.
  apply set_heap_wf; [done|by eexists|]. pose proof (cw_queues c Hwf l e He) as [Hc Hb Hm].
  unfold updates_bytes in Hb. rewrite Hq in *. simpl in *. split; simpl; unfold updates_bytes; lia.
Qed.

Lemma drop_subscription_wf l c : coordinator_wf c -> coordinator_wf (drop_subscription l c).
Proof.
  intros [Hl Hn Hr Hq]. split; simpl; try done.
  - intros l' Hl'. apply Hr. destruct (decide (l = l')) as [->|Hne].
    + rewrite lookup_delete_eq in Hl'. by destruct Hl'.
    + by rewrite lookup_delete_ne in Hl'.
  - by apply map_Forall_delete.
Qed.

Lemma subscribe_cases url c c' r :
  subscribe url c = (c', r) ->
  match r with
  | Err _ => c' = c \/ c' = retain c
  | Ok (snapshot, l) =>
      exists origin, storage_origin url = Ok origin /\
        snapshot = area_snapshot (origins (local c) !! origin) /\
        heap c !! l = None /\ (l ∉ endpoints (retain c)) /\
        c' = mkCoordinator (local c) (endpoints (retain c) ++ [l])
               (<[l := empty_endpoint origin]> (heap c))
  end.
Proof.
  unfold subscribe, LocalStorage_snapshot. destruct (storage_origin url) as [origin|e] eqn:Ho;
    [|intros [= <- <-]; by left]. simpl.
  unfold lock. destruct (poisoned (local c)); simpl; intros [= <- <-]; [by right|].
  exists origin. split_and!; [done..| | |done].
  - apply not_elem_of_dom. intros Hin.
    by apply (is_fresh (dom (heap c) ∪ list_to_set (filter (fun l => is_Some (heap c !! l)) (endpoints c)))), elem_of_union_l.
  - intros Hin.
    by apply (is_fresh (dom (heap c) ∪ list_to_set (filter (fun l => is_Some (heap c !! l)) (endpoints c)))),
      elem_of_union_r, elem_of_list_to_set.
Qed.

Lemma subscribe_wf url c : coordinator_wf c -> coordinator_wf (subscribe url c).1.
Proof.
  intros Hwf. destruct (subscribe url c) as [c' r] eqn:Hs. apply subscribe_cases in Hs.
  destruct r as [[s l]|e]; [|by destruct Hs as [-> | ->]; [|apply retain_wf]].
  destruct Hs as (origin & _ & _ & Hl & Hnin & ->). apply retain_wf in Hwf as [Hlo Hn Hr Hq].
  split; simpl in *; [done| | |].
  - apply NoDup_app. split_and!; [done| |by apply NoDup_singleton].
    intros x Hx ->%list_elem_of_singleton. done.
  - intros l' Hl'. apply elem_of_app. destruct (decide (l = l')) as [->|Hne].
    + right. by apply list_elem_of_singleton.
    + left. apply Hr. by rewrite lookup_insert_ne in Hl'.
  - apply map_Forall_insert_2; [|done]. by split.
Qed.

(** Every recipient's queue stays bounded and exactly accounted: at most 4096
    updates and 32 MiB, with [queue_bytes] the true total and every live
    subscription registered exactly once, whatever documents subscribe, read,
    write or close. *)
Theorem coordinator_invariant pid c url accepts l source writes session w w' c' session' r :
  coordinator_wf c ->
  Coordinator_apply pid c source writes session w = (w', Done (c', session', r)) ->
  coordinator_wf c' /\ coordinator_wf (subscribe url c).1 /\ coordinator_wf (take_if accepts l c).1 /\
  coordinator_wf (drop_subscription l c).
Proof.
  intros Hwf Happ. split_and!; [by eapply Coordinator_apply_wf|by apply subscribe_wf|
    by apply take_if_wf|by apply drop_subscription_wf].
Qed.

(** Backpressure and refusal lose nothing: when [apply] answers [Ok(false)]
    or an error, nothing was written, no queue, sequence number, store or
    session changed, and no file was touched; only references to closed
    documents are forgotten. *)
Theorem coordinator_apply_refuses_cleanly pid c source writes session w w' c' session' r :
  coordinator_wf c ->
  Coordinator_apply pid c source writes session w = (w', Done (c', session', r)) ->
  (forall wakes, r <> Ok (true, wakes)) ->
  w' = w /\ session' = session /\ local c' = local c /\ heap c' = heap c /\
  endpoints c' = filter (fun l => is_Some (heap c !! l)) (endpoints c).
Proof.
  intros Hwf Happ Hr. pose proof (Coordinator_apply_cases pid c source writes session w Hwf) as Hc.
  rewrite Happ in Hc. destruct r as [[[] wakes]|e]; [by destruct (Hr wakes)|..];
    by destruct Hc as (-> & -> & ->).
Qed.

Lemma check_writes_sequences kind origin seq writes seq' :
  check_writes kind origin seq writes = Ok seq' ->
  seq' = (seq + N.of_nat (length writes))%N /\
  forall i w, writes !! i = Some w -> sequence w = (seq + 1 + N.of_nat i)%N.
Proof.
  revert seq. induction writes as [|w0 writes IH]; intros seq; simpl.
  { intros [= <-]. split; [lia|done]. }
  intros Hc. inv_res. destruct (_ || _) eqn:Hid; [done|]. inv_res.
  apply orb_false_iff in Hid as [Hs _]. apply negb_false_iff, N.eqb_eq in Hs.
  destruct (String.eqb _ _); [|done]. simpl in Hc.
  match goal with H : checked_add _ _ = Some _ |- _ => apply checked_add_Some in H as [-> _] end.
  destruct (IH _ Hc) as [-> Hi]. split; [lia|]. intros [|i] w; simpl; [intros [= <-]; lia|].
  intros Hw. rewrite (Hi i w Hw). lia.
Qed.

(** Who receives the updates of a batch: its source and, for local storage, every
    document of the source's origin. *)
Definition receives (kind : StorageAreaKind) (source : loc) (src : Endpoint) (l : loc) (e : Endpoint) : Prop :=
  l = source \/ kind = LocalArea /\ endpoint_origin e = endpoint_origin src.
#[global] Instance receives_dec kind source src l e : Decision (receives kind source src l e).
Proof. unfold receives. apply _. Defined.

(** An accepted batch is acknowledged in order and broadcast whole. Its
    writes carry the consecutive sequence numbers that follow the source's last
    one, and the source's queue gains one acknowledgement for each. Its source
    and, for local storage, every other document of the origin gain updates that
    lead, one accepted version at a time, from the store before the batch to the
    store after it, so a batch that changed the store cannot be kept from them;
    no other document's queue changes. *)
Theorem coordinator_apply_delivers pid c source writes session w w' c' session' wakes :
  coordinator_wf c -> writes <> [] ->
  Coordinator_apply pid c source writes session w = (w', Done (c', session', Ok (true, wakes))) ->
  exists src kind us,
    heap c !! source = Some src /\
    (forall i wr, writes !! i = Some wr ->
       area (mutation wr) = kind /\ sequence wr = (get_sequence kind src + 1 + N.of_nat i)%N) /\
    acknowledgement <$> us source = sequence <$> writes /\
    (forall l e, heap c !! l = Some e ->
       if decide (receives kind source src l e)
       then exists e', heap c' !! l = Some e' /\ queue e' = queue e ++ us l
       else heap c' !! l = Some e) /\
    (forall l, l <> source -> Forall (fun u => acknowledgement u = 0%N) (us l)) /\
    (forall l,
       let before := area_at (origins (local c)) (endpoint_origin src) in
       let after := area_at (origins (local c')) (endpoint_origin src) in
       follows (storage_map before) (version before) (us l) (storage_map after) (version after)).
Proof.
  intros Hwf Hne Happ. pose proof (Coordinator_apply_cases pid c source writes session w Hwf) as Hc.
  rewrite Happ in Hc. destruct Hc as [(-> & _)|(src & kind & seq & rejection & us & Hc)]; [done|].
  destruct Hc as [Hsrc Hkind Hseq Hends Hheap Hroom _ _ _ Hfol Hack Hothers _].
  exists src, kind, us. split_and!; try done.
  - intros i wr Hi. split; [|by apply (check_writes_sequences _ _ _ _ _ Hseq)].
    rewrite Forall_forall in Hkind. by eapply Hkind, list_elem_of_lookup_2.
  - intros l e He. rewrite Hheap, He.
    assert (Hiff : l ∈ filter (is_target kind source (endpoint_origin src) (heap c)) (endpoints (retain c)) <->
                   receives kind source src l e).
    { rewrite list_elem_of_filter. unfold is_target, receives. split.
      - intros [(e0 & He0 & Hr) _]. rewrite He in He0. by injection He0 as <-.
      - intros Hr. split; [by exists e|]. apply (retain_wf c Hwf). by eexists. }
    case_decide as Ht; case_decide as Hr; try tauto. simpl.
    exists (delivered kind source seq rejection us l e). split; [done|]. apply delivered_queue.
Qed.
End invariant.

(** ** The whole system: documents converge on the authority *)

(** A replica is what a document's projection has as its base: the map and the
    version after the updates it consumed ([projection_apply_reconciles]). *)
Abbreviation Replica := (gmap StorageString StorageString * N)%type (only parsing).

Definition consume (u : StorageUpdate) (r : Replica) : Replica :=
  match update_area u with
  | LocalArea => (replay_update u r.1, update_version u)
  | SessionArea => r
  end.

Definition snapshot_replica (s : StorageAreaSnapshot) : Replica :=
  (list_to_map ((fun e => (entry_key e, entry_value e)) <$> snapshot_entries s), snapshot_version s).

Record System := mkSystem { coordinator : Coordinator; replicas : gmap loc Replica }.

Section system.
Context {URL : UrlLib} {JSON : JsonLib}.

(** One step: a document opens, consumes an update, sends a batch under any
    schedule of the file system, installs a notifier, reads its error or
    closes. A crash ends the system. *)
Inductive step : System -> System -> Prop :=
  | step_subscribe c R url c' snapshot l :
      subscribe url c = (c', Ok (snapshot, l)) ->
      step (mkSystem c R) (mkSystem c' (<[l := snapshot_replica snapshot]> R))
  | step_consume c R accepts l c' u r :
      take_if accepts l c = (c', Some u) -> R !! l = Some r ->
      step (mkSystem c R) (mkSystem c' (<[l := consume u r]> R))
  | step_apply c R pid source writes session w w' c' session' res :
      Coordinator_apply pid c source writes session w = (w', Done (c', session', res)) ->
      step (mkSystem c R) (mkSystem c' R)
  | step_notifier c R l : step (mkSystem c R) (mkSystem (set_notifier l c) R)
  | step_error c R l : step (mkSystem c R) (mkSystem (take_error l c).1 R)
  | step_drop c R l : step (mkSystem c R) (mkSystem (drop_subscription l c) (delete l R)).

Inductive reachable : System -> Prop :=
  | reachable_start ls : origins_wf (origins ls) -> reachable (mkSystem (Coordinator_new ls) ∅)
  | reachable_step s s' : reachable s -> step s s' -> reachable s'.

(** The updates still queued for a document lead its replica to the authority. *)
Definition replica_follows (c : Coordinator) (e : Endpoint) (r : Replica) : Prop :=
  let a := area_at (origins (local c)) (endpoint_origin e) in
  follows r.1 r.2 (queue e) (storage_map a) (version a).

Record system_wf (s : System) : Prop := {
  sw_coordinator : coordinator_wf (coordinator s);
  sw_replicas : forall l e, heap (coordinator s) !! l = Some e ->
    exists r, replicas s !! l = Some r /\ replica_follows (coordinator s) e r
}.

Lemma area_at_delete (o o' : Origins) origin origin' :
  delete origin o' = delete origin o -> origin' <> origin -> area_at o' origin' = area_at o origin'.
Proof.
  intros Hdel Hne. unfold area_at. apply (f_equal (lookup origin')) in Hdel.
  rewrite !lookup_delete_ne in Hdel by done. by rewrite Hdel.
Qed.

Lemma follows_only_session M v us :
  Forall (fun u => update_area u = SessionArea) us -> follows M v us M v.
Proof. induction 1; [constructor|by apply follows_session]. Qed.

(** A committed batch keeps every document on course. *)
Lemma committed_follows c source writes c' src kind seq rejection us l e' :
  coordinator_wf c -> committed c source writes c' src kind seq rejection us -> heap c' !! l = Some e' ->
  exists e, heap c !! l = Some e /\ forall r, replica_follows c e r -> replica_follows c' e' r.
Proof.
  intros Hwf Hc He'. pose proof (cw_registered c Hwf) as Hreg.
  destruct Hc as [Hsrc _ _ _ Hheap _ _ Hdel Hses Hfol _ _ _]. rewrite Hheap in He'.
  case_decide as Ht.
  - apply fmap_Some in He' as (e & He & ->). exists e. split; [done|]. intros r Hr.
    apply list_elem_of_filter in Ht as [(e0 & He0 & Hor) _]. rewrite He in He0. injection He0 as <-.
    assert (Ho : endpoint_origin e = endpoint_origin src).
    { destruct Hor as [->|[_ Ho]]; [|done]. rewrite Hsrc in He. by injection He as <-. }
    unfold replica_follows in *.
    destruct (delivered_queue kind source seq rejection us l e) as (-> & _ & ->).
    eapply follows_app; [exact Hr|]. rewrite Ho. apply Hfol.
  - exists e'. split; [done|]. intros r Hr. unfold replica_follows in *.
    destruct (decide (endpoint_origin e' = endpoint_origin src)) as [Ho|Hne].
    + (* not a recipient although same-origin: a session batch *)
      assert (Hk : kind = SessionArea).
      { destruct kind; [|done]. destruct Ht. apply list_elem_of_filter. split.
        - exists e'. split; [done|]. by right.
        - apply list_elem_of_filter. split; [by eexists|]. apply Hreg. by eexists. }
      destruct (Hses Hk) as [-> _]. exact Hr.
    + by rewrite (area_at_delete _ _ _ _ Hdel Hne).
Qed.

Lemma snapshot_replica_area (a : StorageAreaState) :
  snapshot_replica (StorageAreaState_snapshot a) = (storage_map a, version a).
Proof.
  unfold snapshot_replica, StorageAreaState_snapshot. simpl. f_equal. unfold storage_map, bt_map.
  f_equal. rewrite <- list_fmap_compose. rewrite <- (list_fmap_id (entries a)) at 2.
  apply list_fmap_ext. by intros _ [k v] _.
Qed.

Lemma follows_consume u us r M' v' :
  follows r.1 r.2 (u :: us) M' v' -> follows (consume u r).1 (consume u r).2 us M' v'.
Proof.
  unfold consume. inversion 1 as [|? ? ? ? ? ? Hu Hf|? ? ? ? ? ? Hu Hv Hc Hf]; subst; by rewrite Hu.
Qed.

Lemma step_wf s s' : system_wf s -> step s s' -> system_wf s'.
Proof.
  intros [Hwf HR] Hstep. destruct Hstep as
    [c R url c' snapshot l Hsub|c R accepts l c' u r Htake Hl|c R pid source writes session w w' c' session' res Happ
    |c R l|c R l|c R l]; simpl in *.
  - split; simpl; [pose proof (subscribe_wf url c Hwf) as H; by rewrite Hsub in H|].
    apply subscribe_cases in Hsub as (origin & _ & -> & Hfresh & _ & ->). simpl.
    intros l' e. destruct (decide (l' = l)) as [->|Hne].
    + rewrite !lookup_insert_eq. intros [= <-]. rewrite area_snapshot_at, snapshot_replica_area.
      eexists. split; [done|]. constructor.
    + rewrite !lookup_insert_ne by done. by apply HR.
  - split; simpl; [pose proof (take_if_wf accepts l c Hwf) as H; by rewrite Htake in H|].
    apply take_if_cases in Htake as [[_ [=]]|(e & v & rest & He & Hq & [= ->] & _ & ->)]. simpl.
    intros l' e'. destruct (decide (l' = l)) as [->|Hne].
    + rewrite !lookup_insert_eq. intros [= <-]. eexists. split; [done|].
      destruct (HR l e He) as (r' & Hr' & Hf). rewrite Hl in Hr'. injection Hr' as <-.
      unfold replica_follows in *. rewrite Hq in Hf. by apply follows_consume.
    + rewrite !lookup_insert_ne by done. by apply HR.
  - split; simpl; [by eapply Coordinator_apply_wf|].
    pose proof (Coordinator_apply_cases pid c source writes session w Hwf) as Hc. rewrite Happ in Hc.
    destruct res as [[[] wakes]|e]; [|by destruct Hc as (_ & -> & _)..].
    destruct Hc as [(_ & -> & _)|(src & kind & seq & rejection & us & Hc)]; [done|].
    intros l e' He'. destruct (committed_follows _ _ _ _ _ _ _ _ _ _ _ Hwf Hc He') as (e & He & Hf).
    destruct (HR l e He) as (r & Hr & Hr'). eauto.
  - split; simpl.
    + destruct Hwf as [Hlo Hn Hr Hq]. split; simpl; try done.
      * intros l'. rewrite lookup_alter. case_decide; subst; rewrite ?fmap_is_Some; apply Hr.
      * intros l' e. rewrite lookup_alter. case_decide; subst; [|apply Hq].
        intros (e0 & He0 & ->)%fmap_Some. destruct (Hq l' e0 He0). by split.
    + intros l' e. rewrite lookup_alter. case_decide; subst; [|apply HR].
      intros (e0 & He0 & ->)%fmap_Some. destruct (HR l' e0 He0) as (r & Hr & Hf). by exists r.
  - unfold take_error. destruct (heap c !! l) as [e|] eqn:He; [|by split]. split; simpl.
    + apply set_heap_wf; [done|by eexists|]. destruct (cw_queues c Hwf l e He). by split.
    + intros l' e'. destruct (decide (l' = l)) as [->|Hne].
      * rewrite lookup_insert_eq. intros [= <-]. destruct (HR l e He) as (r & Hr & Hf). by exists r.
      * rewrite lookup_insert_ne by done. by apply HR.
  - split; simpl; [by apply drop_subscription_wf|]. intros l' e. destruct (decide (l' = l)) as [->|Hne].
    + by rewrite lookup_delete_eq.
    + rewrite !lookup_delete_ne by done. by apply HR.
Qed.

Lemma reachable_wf s : reachable s -> system_wf s.
Proof.
  induction 1 as [ls Hls|s s' _ IH Hs]; [|by eapply step_wf].
  split; simpl.
  - split; simpl; [done|constructor| |apply map_Forall_empty].
    intros l Hl. rewrite lookup_empty in Hl. by destruct Hl.
  - intros l e. by rewrite lookup_empty.
Qed.

(** C4. Documents converge: in every reachable state, for any interleaving of
    opens, closes, reads and batches, under any file-system faults short of a
    crash, the updates queued for a document lead its replica exactly to the
    authority's map and version; so a document that has drained its queue has
    the authority's map. *)
Theorem replicas_converge s l e :
  reachable s -> heap (coordinator s) !! l = Some e ->
  exists r, replicas s !! l = Some r /\ replica_follows (coordinator s) e r /\
    (queue e = [] ->
     let a := area_at (origins (local (coordinator s))) (endpoint_origin e) in
     r = (storage_map a, version a)).
Proof.
  intros Hs He. destruct (reachable_wf s Hs) as [_ HR]. destruct (HR l e He) as (r & Hr & Hf).
  exists r. split_and!; [done..|]. intros Hq. unfold replica_follows in Hf. rewrite Hq in Hf.
  destruct r as [M v]. inversion Hf as [M' v' HM Hv| |]. simpl in *. congruence.
Qed.
End system.

(** ** A concrete run: two documents of one origin, one of them writing *)
Definition demo_coordinator : Coordinator := Coordinator_new in_memory.
Definition demo_opened : Coordinator :=
  (@subscribe demo_urls "https://a.test/" (@subscribe demo_urls "https://a.test/" demo_coordinator).1).1.
Definition demo_writes : list StorageWrite := [mkWrite 1 "https://a.test/" (demo_set 1 "k" "v")].
Definition demo_run : World * outcome (Coordinator * SessionStorage * result StorageError (bool * list loc)) :=
  @Coordinator_apply demo_urls demo_json 7 demo_opened 1%positive demo_writes (mkSession ∅) (mkWorld ∅ []).
Definition demo_after : Coordinator :=
  match demo_run.2 with Done (c, _, _) => c | Crashed => demo_opened end.

Lemma demo_opened_wf : coordinator_wf demo_opened.
Proof.
  apply subscribe_wf, subscribe_wf. split; simpl; [apply demo_store_wf|constructor| |apply map_Forall_empty].
  intros l Hl. rewrite lookup_empty in Hl. by destruct Hl.
Qed.

(** The second document's queue holds the change, the first one's the
    acknowledgement. *)
Example demo_delivers :
  (acknowledgement <$> (from_option queue [] (heap demo_after !! 1%positive)),
   acknowledgement <$> (from_option queue [] (heap demo_after !! 2%positive))) = ([1], [0])%N.
Proof. by vm_compute. Qed.

Lemma coordinator_invariant_witness :
  coordinator_wf demo_after /\ coordinator_wf (@subscribe demo_urls "https://b.test/" demo_opened).1 /\
  coordinator_wf (take_if (fun _ => true) 1%positive demo_opened).1 /\
  coordinator_wf (drop_subscription 1%positive demo_opened).
Proof.
  apply (@coordinator_invariant demo_urls demo_json 7 demo_opened "https://b.test/" (fun _ => true)
    1%positive 1%positive demo_writes (mkSession ∅) (mkWorld ∅ []) (mkWorld ∅ []) demo_after
    (mkSession ∅) (Ok (true, []))); [apply demo_opened_wf|by vm_compute].
Defined.

(** A batch whose sequence numbers have a gap. *)
Lemma coordinator_apply_refuses_cleanly_witness :
  let c' := demo_opened in
  mkWorld ∅ [] = mkWorld ∅ [] /\ mkSession ∅ = mkSession ∅ /\ local c' = local demo_opened /\
  heap c' = heap demo_opened /\
  endpoints c' = filter (fun l => is_Some (heap demo_opened !! l)) (endpoints demo_opened).
Proof.
  apply (@coordinator_apply_refuses_cleanly demo_urls demo_json 7 demo_opened 1%positive
    [mkWrite 2 "https://a.test/" (demo_set 1 "k" "v")] (mkSession ∅) (mkWorld ∅ []) (mkWorld ∅ []) demo_opened
    (mkSession ∅) (Err (Invalid "storage source identity or sequence")));
    [apply demo_opened_wf|by vm_compute|done].
Defined.

(** The one subscriber of the origin gets the change and its acknowledgement. *)
Lemma coordinator_apply_delivers_witness :
  exists src kind us e',
    heap demo_opened !! 1%positive = Some src /\ heap demo_after !! 1%positive = Some e' /\
    queue e' = queue src ++ us 1%positive /\ acknowledgement <$> us 1%positive = [1%N] /\
    (forall i wr, demo_writes !! i = Some wr -> area (mutation wr) = kind).
Proof.
  destruct (@coordinator_apply_delivers demo_urls demo_json 7 demo_opened 1%positive demo_writes
    (mkSession ∅) (mkWorld ∅ []) (mkWorld ∅ []) demo_after (mkSession ∅) []) as
    (src & kind & us & H1 & H2 & H3 & H4 & _); [apply demo_opened_wf|done|by vm_compute|].
  specialize (H4 _ _ H1). rewrite decide_True in H4 by (by left). destruct H4 as (e' & H5 & H6).
  exists src, kind, us, e'. split_and!; [exact H1|exact H5|exact H6|exact H3|].
  intros i wr Hi. apply (H2 i wr Hi).
Defined.

Definition demo_system : System :=
  mkSystem (@subscribe demo_urls "https://a.test/" demo_coordinator).1
           {[ 1%positive := snapshot_replica StorageAreaSnapshot_empty ]}.

Lemma replicas_converge_witness :
  exists r, replicas demo_system !! 1%positive = Some r /\ r = (∅, 1%N).
Proof.
  destruct (@replicas_converge demo_urls demo_json demo_system 1%positive (empty_endpoint "https://a.test"))
    as (r & Hr & _ & Hq).
  - eapply reachable_step; [apply (reachable_start in_memory), demo_store_wf|].
    apply step_subscribe with (url := "https://a.test/"). by vm_compute.
  - by vm_compute.
  - exists r. split; [exact Hr|by apply Hq].
Defined.

(** The session branch publishes the whole area without the limit that
    [SessionStorage::apply] enforces: a session that already holds 256 origins
    gets another one. *)
Lemma session_commit_ignores_origin_limit (pid : N) (url origin : string) ms state c session w :
  N.of_nat (size (session_origins session)) = MAX_STORAGE_ORIGINS ->
  session_origins session !! origin = None ->
  exists session',
    @commit demo_urls demo_json pid SessionArea url origin ms state c session w
      = (w, Done (local c, session', Ok true)) /\
    N.of_nat (size (session_origins session')) = (MAX_STORAGE_ORIGINS + 1)%N /\
    forall m, apply_to_origin (session_origins session) origin m
              = (session_origins session, Err QuotaExceeded).
Proof.
  intros Hsize Hfresh. eexists. split; [done|]. split.
  - simpl. rewrite map_size_insert, Hfresh. lia.
  - intros m. unfold apply_to_origin. rewrite Hfresh, Hsize. done.
Qed.
