(* ===== verification/Broadcast.v ===== *)
(** * Broadcast: the browser's BroadcastChannel registry

    src/renderer_protocol/broadcast_channel.rs (the commands and their checks)
    and src/broadcast_channel.rs: which channels are open, the deliveries queued per
    tab, and the shared message batches they reference. [None] is a panic: an
    arithmetic underflow or an [expect] that fails. *)

From S2P Require Import Prelude Text Limits Words Protocol.

(** ** The protocol *)
Definition MAX_BROADCAST_NAME_BYTES : N := 4 * 1024.
Definition MAX_BROADCAST_MESSAGE_BYTES : N := 128 * 1024.

Inductive BroadcastOperation :=
  | Open (name : string)
  | Post (serialized : string)
  | Close.

Record BroadcastCommand := mkCommand {
  command_document : DocumentId;
  command_channel : N;
  command_operation : BroadcastOperation
}.

Definition is_ascii_hexdigit (a : ascii) : bool :=
  let n := N_of_ascii a in
  (((48 <=? n) && (n <=? 57)) || ((65 <=? n) && (n <=? 70)) || ((97 <=? n) && (n <=? 102)))%N.

Definition BroadcastCommand_validate (c : BroadcastCommand) : result ProtocolError () :=
  if (command_channel c =? 0)%N then Err (InvalidPayload "broadcast channel identifier")
  else
    match command_operation c with
    | Open name =>
        if (MAX_BROADCAST_NAME_BYTES <? byte_length name)%N
           || negb (byte_length name mod 4 =? 0)%N
           || negb (forallb is_ascii_hexdigit (String.list_ascii_of_string name))
        then Err (InvalidPayload "broadcast channel name")
        else Ok tt
    | Post serialized =>
        if (MAX_BROADCAST_MESSAGE_BYTES <? byte_length serialized)%N
        then Err (InvalidPayload "broadcast message size")
        else Ok tt
    | Close => Ok tt
    end.

Record BroadcastDelivery := mkDelivery {
  delivery_document : DocumentId;
  delivery_channel : N;
  delivery_origin : string;
  delivery_serialized : string
}.

Definition BroadcastDelivery_validate (d : BroadcastDelivery) : result ProtocolError () :=
  if (delivery_channel d =? 0)%N || String.eqb (delivery_origin d) EmptyString
     || (MAX_URL_BYTES <? byte_length (delivery_origin d))%N
     || (MAX_BROADCAST_MESSAGE_BYTES <? byte_length (delivery_serialized d))%N
  then Err (InvalidPayload "broadcast delivery")
  else Ok tt.

(** ** The registry *)
Definition MAX_CHANNELS_PER_DOCUMENT : N := 128.
Definition MAX_PENDING_PER_TAB : N := 256.
Definition MAX_PENDING_RECIPIENTS_PER_BROWSER : N := 65536.
Definition MAX_PENDING_BYTES_PER_BROWSER : N := 32 * 1024 * 1024.

Record Destination := mkDestination { tab : N; document : DocumentId; channel_id : N }.
#[global] Instance Destination_eq_dec : EqDecision Destination.
Proof. solve_decision. Defined.

Record Channel := mkChannel { destination : Destination; channel_origin : string; channel_name : string }.
#[global] Instance Channel_eq_dec : EqDecision Channel.
Proof. solve_decision. Defined.

Record QueuedDelivery := mkQueued { queued_document : DocumentId; queued_channel : N; batch_id : N }.
#[global] Instance QueuedDelivery_eq_dec : EqDecision QueuedDelivery.
Proof. solve_decision. Defined.

Record Batch := mkBatch { batch_origin : string; batch_serialized : string; recipients : N }.

(** [Pending] is its queue. *)
Record BroadcastRegistry := mkRegistry {
  channels : list Channel;
  pending : gmap N (list QueuedDelivery);
  batches : gmap N Batch;
  next_batch_id : N;
  pending_bytes : N;
  pending_recipients : N
}.

Definition BroadcastRegistry_default : BroadcastRegistry := mkRegistry [] ∅ ∅ 0 0 0.

Definition set_channels (cs : list Channel) (r : BroadcastRegistry) : BroadcastRegistry :=
  mkRegistry cs (pending r) (batches r) (next_batch_id r) (pending_bytes r) (pending_recipients r).
Definition set_pending (p : gmap N (list QueuedDelivery)) (r : BroadcastRegistry) : BroadcastRegistry :=
  mkRegistry (channels r) p (batches r) (next_batch_id r) (pending_bytes r) (pending_recipients r).

Definition batch_bytes (b : Batch) : N := byte_length (batch_origin b) + byte_length (batch_serialized b).

Definition checked_sub (a b : N) : option N := if (b <=? a)%N then Some (a - b)%N else None.

Definition release_batch_reference (id : N) (r : BroadcastRegistry) : option BroadcastRegistry :=
  total ← checked_sub (pending_recipients r) 1;
  batch ← batches r !! id;
  left ← checked_sub (recipients batch) 1;
  if (left =? 0)%N then
    bytes ← checked_sub (pending_bytes r) (batch_bytes batch);
    Some (mkRegistry (channels r) (pending r) (delete id (batches r)) (next_batch_id r) bytes total)
  else
    Some (mkRegistry (channels r) (pending r)
            (<[id := mkBatch (batch_origin batch) (batch_serialized batch) left]> (batches r))
            (next_batch_id r) (pending_bytes r) total).

Fixpoint release_all (ids : list N) (r : BroadcastRegistry) : option BroadcastRegistry :=
  match ids with
  | [] => Some r
  | id :: ids => r ← release_batch_reference id r; release_all ids r
  end.

Definition queue_of (t : N) (p : gmap N (list QueuedDelivery)) : list QueuedDelivery := default [] (p !! t).

(** The channels a message of [source] on [name] goes to. *)
Definition is_recipient (source : Destination) (origin name : string) (c : Channel) : Prop :=
  destination c <> source /\ channel_origin c = origin /\ channel_name c = name.
#[global] Instance is_recipient_dec source origin name c : Decision (is_recipient source origin name c).
Proof. unfold is_recipient. apply _. Defined.

Definition post_targets (r : BroadcastRegistry) (source : Destination) (origin name : string)
  : list Destination := destination <$> filter (is_recipient source origin name) (channels r).

(** [per_tab.entry(target.tab).or_default() += 1] over the targets. *)
Definition count_per_tab (targets : list Destination) : gmap N N :=
  foldl (fun per_tab t => <[tab t := (default 0 (per_tab !! tab t) + 1)%N]> per_tab) ∅ targets.

Definition tab_overflows (r : BroadcastRegistry) (per_tab : gmap N N) : bool :=
  existsb (fun tc => MAX_PENDING_PER_TAB <? N.of_nat (length (queue_of tc.1 (pending r))) + tc.2)%N
          (map_to_list per_tab).

Definition enqueue (id : N) (p : gmap N (list QueuedDelivery)) (t : Destination)
  : gmap N (list QueuedDelivery) :=
  <[tab t := queue_of (tab t) p ++ [mkQueued (document t) (channel_id t) id]]> p.

Definition find_channel (source : Destination) (cs : list Channel) : option (nat * Channel) :=
  list_find (fun c => destination c = source) cs.

Definition BroadcastRegistry_post (r : BroadcastRegistry) (source : Destination) (origin serialized : string)
  : BroadcastRegistry * result string bool :=
  match find_channel source (channels r) with
  | None => (r, Err "unknown BroadcastChannel identifier")
  | Some (_, source_channel) =>
      if negb (String.eqb (channel_origin source_channel) origin) then
        (r, Err "BroadcastChannel origin changed")
      else
        let targets := post_targets r source origin (channel_name source_channel) in
        let count := N.of_nat (length targets) in
        let bytes := saturating_add (byte_length serialized) (byte_length origin) in
        if bool_decide (targets = []) then (r, Ok true)
        else if (MAX_PENDING_RECIPIENTS_PER_BROWSER <? count)%N then
          (r, Err "BroadcastChannel fanout exceeds the browser recipient limit")
        else if tab_overflows r (count_per_tab targets) then (r, Ok false)
        else if ((MAX_PENDING_RECIPIENTS_PER_BROWSER <? saturating_add (pending_recipients r) count)
                 || (MAX_PENDING_BYTES_PER_BROWSER <? saturating_add (pending_bytes r) bytes))%N
        then (r, Ok false)
        else
          match checked_add (next_batch_id r) 1 with
          | None => (r, Err "BroadcastChannel batch identifier exhausted")
          | Some id =>
              (mkRegistry (channels r) (foldl (enqueue id) (pending r) targets)
                 (<[id := mkBatch origin serialized count]> (batches r)) id
                 (pending_bytes r + bytes) (pending_recipients r + count), Ok true)
          end
  end.

Definition is_document_channel (t : N) (d : DocumentId) (c : Channel) : Prop :=
  tab (destination c) = t /\ document (destination c) = d.
#[global] Instance is_document_channel_dec t d c : Decision (is_document_channel t d c).
Proof. unfold is_document_channel. apply _. Defined.

Definition BroadcastRegistry_open (r : BroadcastRegistry) (source : Destination) (origin name : string)
  : BroadcastRegistry * result string bool :=
  if bool_decide (is_Some (find_channel source (channels r))) then
    (r, Err "duplicate BroadcastChannel identifier")
  else if (MAX_CHANNELS_PER_DOCUMENT
           <=? N.of_nat (length (filter (is_document_channel (tab source) (document source)) (channels r))))%N
  then (r, Err "BroadcastChannel membership limit reached")
  else (set_channels (channels r ++ [mkChannel source origin name]) r, Ok true).

Definition is_for (d : DocumentId) (ch : N) (q : QueuedDelivery) : Prop :=
  queued_document q = d /\ queued_channel q = ch.
#[global] Instance is_for_dec d ch q : Decision (is_for d ch q).
Proof. unfold is_for. apply _. Defined.

Definition BroadcastRegistry_close (r : BroadcastRegistry) (source : Destination)
  : option BroadcastRegistry :=
  match find_channel source (channels r) with
  | None => Some r
  | Some (position, _) =>
      let r := set_channels (delete position (channels r)) r in
      match pending r !! tab source with
      | None => Some r
      | Some queue =>
          let removed := filter (is_for (document source) (channel_id source)) queue in
          let kept := filter (fun q => ~ is_for (document source) (channel_id source) q) queue in
          release_all (batch_id <$> removed) (set_pending (<[tab source := kept]> (pending r)) r)
      end
  end.

(** [apply]; [None] is a panic. *)
Definition BroadcastRegistry_apply (r : BroadcastRegistry) (t : N) (origin : string)
    (command : BroadcastCommand) : option (BroadcastRegistry * result string bool) :=
  match BroadcastCommand_validate command with
  | Err _ => Some (r, Err "invalid BroadcastChannel command")
  | Ok _ =>
      let source := mkDestination t (command_document command) (command_channel command) in
      match command_operation command with
      | Open name => Some (BroadcastRegistry_open r source origin name)
      | Post serialized => Some (BroadcastRegistry_post r source origin serialized)
      | Close => r ← BroadcastRegistry_close r source; Some (r, Ok true)
      end
  end.

Definition retire_tab (t : N) (r : BroadcastRegistry) : option BroadcastRegistry :=
  let r := set_channels (filter (fun c => tab (destination c) <> t) (channels r)) r in
  match pending r !! t with
  | None => Some r
  | Some queue => release_all (batch_id <$> queue) (set_pending (delete t (pending r)) r)
  end.

Definition has_pending (t : N) (r : BroadcastRegistry) : bool := bool_decide (queue_of t (pending r) <> []).

(** [take_if]: the delivery offered to [accepts], if there was one, and whether
    it was taken. *)
Definition take_if (accepts : BroadcastDelivery -> bool) (t : N) (r : BroadcastRegistry)
  : option (BroadcastRegistry * option BroadcastDelivery * bool) :=
  match queue_of t (pending r) with
  | [] => Some (r, None, false)
  | front :: rest =>
      batch ← batches r !! batch_id front;
      let delivery := mkDelivery (queued_document front) (queued_channel front)
                        (batch_origin batch) (batch_serialized batch) in
      if accepts delivery then
        r ← release_batch_reference (batch_id front) (set_pending (<[t := rest]> (pending r)) r);
        Some (r, Some delivery, true)
      else Some (r, Some delivery, false)
  end.

(** * Theory *)

(** ** Reference counting *)
Definition deliveries (p : gmap N (list QueuedDelivery)) : list QueuedDelivery := map_to_list p ≫= snd.

Lemma deliveries_insert p t q : deliveries (<[t := q]> p) ≡ₚ q ++ deliveries (delete t p).
Proof.
  unfold deliveries. rewrite <- insert_delete_eq.
  rewrite map_to_list_insert by apply lookup_delete_eq. done.
Qed.

Lemma deliveries_split p t : deliveries p ≡ₚ queue_of t p ++ deliveries (delete t p).
Proof.
  unfold queue_of. destruct (p !! t) as [q|] eqn:Hq; simpl.
  - rewrite <- (insert_id p t q Hq) at 1. apply deliveries_insert.
  - by rewrite delete_id.
Qed.

Definition count (id : N) (L : list N) : N := N.of_nat (length (filter (eq id) L)).

Lemma count_cons id x L : count id (x :: L) = ((if decide (id = x) then 1 else 0) + count id L)%N.
Proof. unfold count. rewrite filter_cons. repeat case_decide; try done; cbn [length]; lia. Qed.

Lemma count_app id L K : count id (L ++ K) = (count id L + count id K)%N.
Proof. unfold count. rewrite filter_app, length_app. lia. Qed.

Lemma count_Permutation id L K : L ≡ₚ K -> count id L = count id K.
Proof. intros Hp. unfold count. by rewrite Hp. Qed.

Lemma count_pos id L : id ∈ L -> (0 < count id L)%N.
Proof.
  intros Hin. unfold count. assert (id ∈ filter (eq id) L) as H by (by apply list_elem_of_filter).
  destruct (filter (eq id) L); [by apply not_elem_of_nil in H|simpl; lia].
Qed.

(** The registry counts exactly the outstanding references [L]. *)
Record counts (L : list N) (r : BroadcastRegistry) : Prop := {
  co_total : pending_recipients r = N.of_nat (length L);
  co_batches : forall id, count id L = from_option recipients 0%N (batches r !! id);
  co_live : map_Forall (fun id b => 0 < recipients b /\ id <= next_batch_id r)%N (batches r);
  co_bytes : pending_bytes r = sum_by (fun ib => batch_bytes ib.2) (map_to_list (batches r))
}.

Lemma counts_Permutation L K r : L ≡ₚ K -> counts L r -> counts K r.
Proof.
  intros Hp [Ht Hb Hl Hbytes]. split; [by rewrite <- Hp|intros id; by rewrite <- (count_Permutation id L K)|done..].
Qed.

Lemma batch_bytes_delete (m : gmap N Batch) id b :
  m !! id = Some b ->
  sum_by (fun ib => batch_bytes ib.2) (map_to_list m)
  = (batch_bytes b + sum_by (fun ib => batch_bytes ib.2) (map_to_list (delete id m)))%N.
Proof. intros Hb. by rewrite <- (sum_by_Permutation _ _ _ (map_to_list_delete m id b Hb)). Qed.

Lemma batch_bytes_insert (m : gmap N Batch) id b :
  m !! id = None ->
  sum_by (fun ib => batch_bytes ib.2) (map_to_list (<[id := b]> m))
  = (batch_bytes b + sum_by (fun ib => batch_bytes ib.2) (map_to_list m))%N.
Proof. intros Hb. by rewrite (sum_by_Permutation _ _ _ (map_to_list_insert m id b Hb)). Qed.

(** The batches of [r'] are batches of [r], with their contents. *)
Definition batches_from (r r' : BroadcastRegistry) : Prop :=
  forall id b', batches r' !! id = Some b' ->
    exists b, batches r !! id = Some b /\ batch_origin b = batch_origin b' /\
              batch_serialized b = batch_serialized b'.

(** [r'] differs from [r] in its accounting only. *)
Record released (r r' : BroadcastRegistry) : Prop := {
  re_channels : channels r' = channels r;
  re_pending : pending r' = pending r;
  re_next : next_batch_id r' = next_batch_id r;
  re_bytes : (pending_bytes r' <= pending_bytes r)%N;
  re_total : (pending_recipients r' <= pending_recipients r)%N;
  re_batches : batches_from r r'
}.

#[global] Instance released_refl : Reflexive released.
Proof. intros r. split; try done. intros id b Hb. by exists b. Qed.
#[global] Instance released_trans : Transitive released.
Proof.
  intros r1 r2 r3 [? ? ? ? ? H1] [? ? ? ? ? H2]. split; [congruence|congruence|congruence|lia|lia|].
  intros id b Hb. destruct (H2 id b Hb) as (b2 & Hb2 & Ho2 & Hs2).
  destruct (H1 id b2 Hb2) as (b1 & Hb1 & Ho1 & Hs1). exists b1. by rewrite Ho1, Hs1.
Qed.

Lemma checked_sub_Some a b : (b <= a)%N -> checked_sub a b = Some (a - b)%N.
Proof. intros H. unfold checked_sub. by rewrite (proj2 (N.leb_le _ _) H). Qed.

(** Releasing an outstanding reference never panics. *)
Lemma release_counts id L r :
  counts (id :: L) r ->
  exists r', release_batch_reference id r = Some r' /\ counts L r' /\ released r r'.
Proof.
  intros [Htotal Hb Hlive Hbytes]. cbn [length] in Htotal.
  pose proof (Hb id) as Hid. rewrite count_cons, decide_True in Hid by done.
  destruct (batches r !! id) as [b|] eqn:Hbatch; cbn [from_option] in Hid; [|lia].
  unfold release_batch_reference. rewrite checked_sub_Some by lia. simpl. rewrite Hbatch. simpl.
  rewrite (checked_sub_Some (recipients b) 1) by lia. simpl.
  pose proof (batch_bytes_delete _ _ _ Hbatch) as Hdel.
  assert (Hother : forall id', id' <> id -> count id' L = from_option recipients 0%N (batches r !! id')).
  { intros id' Hne. rewrite <- Hb, count_cons, decide_False by done. lia. }
  destruct (N.eqb_spec (recipients b - 1) 0) as [Hz|Hnz].
  - rewrite checked_sub_Some by lia. simpl. eexists. split; [done|]. split; split; simpl; try done; try lia.
    + intros id'. destruct (decide (id' = id)) as [->|Hne].
      * rewrite lookup_delete_eq. simpl. lia.
      * rewrite lookup_delete_ne by done. by apply Hother.
    + by apply map_Forall_delete.
    + intros id' b' Hb'. simpl in Hb'. apply lookup_delete_Some in Hb' as [_ Hb']. by exists b'.
  - eexists. split; [done|]. split; split; simpl; try done; try lia.
    + intros id'. destruct (decide (id' = id)) as [->|Hne].
      * rewrite lookup_insert_eq. simpl. lia.
      * rewrite lookup_insert_ne by done. by apply Hother.
    + apply map_Forall_insert_2; [|done]. simpl. destruct (Hlive id b Hbatch). lia.
    + rewrite <- insert_delete_eq, batch_bytes_insert by apply lookup_delete_eq.
      rewrite Hbytes, Hdel. unfold batch_bytes. simpl. lia.
    + intros id' b' Hb'. simpl in Hb'. destruct (decide (id' = id)) as [->|Hne].
      * rewrite lookup_insert_eq in Hb'. injection Hb' as <-. by exists b.
      * rewrite lookup_insert_ne in Hb' by done. by exists b'.
Qed.

Lemma release_all_counts ids L r :
  counts (ids ++ L) r ->
  exists r', release_all ids r = Some r' /\ counts L r' /\ released r r'.
Proof.
  revert r. induction ids as [|id ids IH]; intros r Hc; simpl in *; [by exists r|].
  destruct (release_counts _ _ _ Hc) as (r1 & -> & Hc1 & Hr1). simpl.
  destruct (IH r1 Hc1) as (r2 & -> & Hc2 & Hr2). exists r2. split_and!; [done..|by etrans].
Qed.

(** ** Queueing one batch *)
Lemma queue_of_insert t q p t' : queue_of t' (<[t := q]> p) = if decide (t' = t) then q else queue_of t' p.
Proof.
  unfold queue_of. case_decide; subst; [by rewrite lookup_insert_eq|by rewrite lookup_insert_ne].
Qed.

Definition queued_for (id : N) (d : Destination) : QueuedDelivery := mkQueued (document d) (channel_id d) id.

Lemma queue_of_enqueue id p targets t :
  queue_of t (foldl (enqueue id) p targets)
  = queue_of t p ++ (queued_for id <$> filter (fun d => tab d = t) targets).
Proof.
  revert p. induction targets as [|d targets IH]; intros p; simpl; [by rewrite app_nil_r|].
  rewrite IH. unfold enqueue at 1. rewrite queue_of_insert, filter_cons.
  destruct (decide (t = tab d)) as [->|Hne].
  - rewrite decide_True by done. simpl. by rewrite <- app_assoc.
  - by rewrite decide_False.
Qed.

Lemma deliveries_enqueue id p targets :
  deliveries (foldl (enqueue id) p targets) ≡ₚ deliveries p ++ (queued_for id <$> targets).
Proof.
  revert p. induction targets as [|d targets IH]; intros p; simpl; [by rewrite app_nil_r|].
  rewrite IH. unfold enqueue at 1. rewrite deliveries_insert, (deliveries_split p (tab d)).
  fold (queued_for id d). rewrite <- !app_assoc. apply Permutation_app_head. simpl.
  by rewrite Permutation_middle.
Qed.

Lemma count_per_tab_lookup targets t :
  default 0%N (count_per_tab targets !! t) = N.of_nat (length (filter (fun d => tab d = t) targets)).
Proof.
  unfold count_per_tab.
  assert (Hgen : forall m : gmap N N, default 0%N (foldl (fun per_tab d =>
      <[tab d := (default 0 (per_tab !! tab d) + 1)%N]> per_tab) m targets !! t)
    = (default 0 (m !! t) + N.of_nat (length (filter (fun d => tab d = t) targets)))%N).
  { induction targets as [|d targets IH]; intros m; simpl; [lia|]. rewrite IH, filter_cons.
    destruct (decide (tab d = t)) as [<-|Hne].
    - rewrite lookup_insert_eq. simpl. lia.
    - rewrite lookup_insert_ne by done. done. }
  rewrite Hgen, lookup_empty. simpl. lia.
Qed.

Lemma tab_overflows_false r targets t :
  tab_overflows r (count_per_tab targets) = false ->
  (N.of_nat (length (queue_of t (pending r)))
   + N.of_nat (length (filter (fun d => tab d = t) targets)) <= MAX_PENDING_PER_TAB)%N \/
  filter (fun d => tab d = t) targets = [].
Proof.
  intros Hover. rewrite <- count_per_tab_lookup.
  destruct (count_per_tab targets !! t) as [n|] eqn:Hn; simpl.
  - left. destruct (N.ltb_spec MAX_PENDING_PER_TAB (N.of_nat (length (queue_of t (pending r))) + n)) as [Hlt|];
      [|done].
    assert (tab_overflows r (count_per_tab targets) = true) as Ht; [|congruence].
    apply existsb_exists. exists (t, n). split; [|simpl; by apply N.ltb_lt].
    by apply list_elem_of_In, elem_of_map_to_list.
  - right. apply nil_length_inv. pose proof (count_per_tab_lookup targets t) as Hc.
    rewrite Hn in Hc. simpl in Hc. lia.
Qed.

(** ** The registry's invariant *)

(** A delivery queued for tab [t] belongs to an open channel of that tab whose
    origin is the message's. *)
Definition delivery_authorised (r : BroadcastRegistry) (t : N) (q : QueuedDelivery) : Prop :=
  exists c b, c ∈ channels r /\ destination c = mkDestination t (queued_document q) (queued_channel q) /\
    batches r !! batch_id q = Some b /\ channel_origin c = batch_origin b.

Record registry_wf (r : BroadcastRegistry) : Prop := {
  rw_counts : counts (batch_id <$> deliveries (pending r)) r;
  rw_recipients : (pending_recipients r <= MAX_PENDING_RECIPIENTS_PER_BROWSER)%N;
  rw_bytes : (pending_bytes r <= MAX_PENDING_BYTES_PER_BROWSER)%N;
  rw_tabs : forall t, (N.of_nat (length (queue_of t (pending r))) <= MAX_PENDING_PER_TAB)%N;
  rw_nodup : NoDup (destination <$> channels r);
  rw_documents : forall t d,
    (N.of_nat (length (filter (is_document_channel t d) (channels r))) <= MAX_CHANNELS_PER_DOCUMENT)%N;
  rw_members : forall t q, q ∈ queue_of t (pending r) -> delivery_authorised r t q
}.

Lemma registry_default_wf : registry_wf BroadcastRegistry_default.
Proof.
  split; simpl; try done.
  - constructor.
  - intros t q. unfold queue_of. rewrite lookup_empty. by intros ?%not_elem_of_nil.
Qed.

Lemma find_channel_Some source cs i c :
  find_channel source cs = Some (i, c) -> cs !! i = Some c /\ destination c = source.
Proof. intros H. apply list_find_Some in H as (? & ? & _). done. Qed.

Lemma find_channel_None source cs : find_channel source cs = None -> source ∉ (destination <$> cs).
Proof.
  intros H (c & -> & Hin)%list_elem_of_fmap. apply list_find_None in H.
  rewrite Forall_forall in H. by apply (H c Hin).
Qed.

Lemma open_wf r source origin name :
  registry_wf r -> registry_wf (BroadcastRegistry_open r source origin name).1.
Proof.
  intros [Hc Hr Hb Ht Hn Hd Hm]. unfold BroadcastRegistry_open. case_bool_decide as Hf; [by split|].
  destruct (N.leb_spec MAX_CHANNELS_PER_DOCUMENT
    (N.of_nat (length (filter (is_document_channel (tab source) (document source)) (channels r)))))
    as [|Hroom]; [by split|].
  apply eq_None_not_Some, find_channel_None in Hf.
  split; simpl; try done.
  - by destruct Hc.
  - rewrite fmap_app. apply NoDup_app. split_and!; [done| |by apply NoDup_singleton].
    intros x Hx ->%list_elem_of_singleton. done.
  - intros t d. rewrite filter_app, length_app, filter_cons, filter_nil.
    specialize (Hd t d). case_decide as Hsame; simpl; [|lia]. destruct Hsame as [<- <-]. simpl in *. lia.
  - intros t q Hq. destruct (Hm t q Hq) as (c & b & Hin & Hrest). exists c, b.
    split; [|done]. apply elem_of_app. by left.
Qed.

Lemma post_targets_elem r source origin name d :
  d ∈ post_targets r source origin name ->
  exists c, c ∈ channels r /\ destination c = d /\ d <> source /\ channel_origin c = origin /\
            channel_name c = name.
Proof.
  unfold post_targets. intros (c & -> & Hin)%list_elem_of_fmap.
  apply list_elem_of_filter in Hin as [(H1 & H2 & H3) Hin]. by exists c.
Qed.

(** A batch that is accepted, as one equation. *)
(** [targets] do not all fit: in a tab's queue, or among the browser's
    recipients, bytes and batch numbers. *)
Definition no_room r (targets : list Destination) (bytes : N) : Prop :=
  tab_overflows r (count_per_tab targets) = true \/
  (MAX_PENDING_RECIPIENTS_PER_BROWSER < pending_recipients r + N.of_nat (length targets))%N \/
  (MAX_PENDING_BYTES_PER_BROWSER < pending_bytes r + bytes)%N \/ (u64_max <= next_batch_id r)%N.

Lemma post_cases r source origin serialized r' res :
  BroadcastRegistry_post r source origin serialized = (r', res) ->
  match find_channel source (channels r) with
  | None => r' = r /\ res <> Ok true
  | Some (i, c) =>
      let targets := post_targets r source origin (channel_name c) in
      let size := N.of_nat (length targets) in
      let bytes := (byte_length serialized + byte_length origin)%N in
      let id := (next_batch_id r + 1)%N in
      (r' = r /\ res <> Ok true /\ (channel_origin c <> origin \/ no_room r targets bytes)) \/
      (r' = r /\ res = Ok true /\ channel_origin c = origin /\ targets = []) \/
      (channel_origin c = origin /\ res = Ok true /\
       targets <> [] /\ tab_overflows r (count_per_tab targets) = false /\
       (id <= u64_max)%N /\ (pending_recipients r + size <= MAX_PENDING_RECIPIENTS_PER_BROWSER)%N /\
       (pending_bytes r + bytes <= MAX_PENDING_BYTES_PER_BROWSER)%N /\
       r' = mkRegistry (channels r) (foldl (enqueue id) (pending r) targets)
              (<[id := mkBatch origin serialized size]> (batches r)) id
              (pending_bytes r + bytes) (pending_recipients r + size))
  end.
Proof.
  unfold BroadcastRegistry_post, no_room.
  destruct (find_channel source (channels r)) as [[i c]|] eqn:Hf; [|by intros; inv_res].
  destruct (String.eqb_spec (channel_origin c) origin) as [Ho|]; simpl; [|intros; inv_res; left; auto].
  generalize (post_targets r source origin (channel_name c)). intros targets.
  case_bool_decide; [intros; inv_res; by right; left|].
  assert (MAX_PENDING_RECIPIENTS_PER_BROWSER < u64_max /\ MAX_PENDING_BYTES_PER_BROWSER < u64_max)%N
    as [Hm1 Hm2] by done.
  destruct (N.ltb_spec MAX_PENDING_RECIPIENTS_PER_BROWSER (N.of_nat (length targets))).
  { intros; inv_res. left. split_and!; [done|done|right; right; left; lia]. }
  destruct (tab_overflows _ _) eqn:Hover; [intros; inv_res; left; auto|].
  destruct (_ || _) eqn:Hroom.
  { intros; inv_res. left. split_and!; [done|done|right]. right. unfold saturating_add in Hroom.
    apply orb_true_iff in Hroom as [Hr%N.ltb_lt|Hr%N.ltb_lt]; [left|right; left]; lia. }
  apply orb_false_iff in Hroom as [Hr1%N.ltb_ge Hr2%N.ltb_ge]. unfold saturating_add in *.
  assert (Hb : N.min (byte_length serialized + byte_length origin) u64_max
               = (byte_length serialized + byte_length origin)%N) by lia.
  unfold checked_add. destruct (N.leb_spec (next_batch_id r + 1) u64_max).
  - intros; inv_res. right; right. rewrite Hb in *. split_and!; try done; lia.
  - intros; inv_res. left. split_and!; [done|done|right]. do 3 right. lia.
Qed.

Lemma counts_fresh L r id : counts L r -> (next_batch_id r < id)%N -> batches r !! id = None /\ count id L = 0%N.
Proof.
  intros [_ Hb Hl _] Hid. assert (batches r !! id = None) as Hn.
  { apply eq_None_not_Some. intros [b Hb']. destruct (Hl id b Hb'). lia. }
  split; [done|]. by rewrite Hb, Hn.
Qed.

Lemma count_replicate id x n : count id (replicate n x) = if decide (id = x) then N.of_nat n else 0%N.
Proof.
  induction n as [|n IH]; [by case_decide|]. cbn [replicate]. rewrite count_cons, IH.
  case_decide; lia.
Qed.

Lemma post_wf r source origin serialized :
  registry_wf r -> registry_wf (BroadcastRegistry_post r source origin serialized).1.
Proof.
  intros Hwf. destruct (BroadcastRegistry_post r source origin serialized) as [r' res] eqn:Hp. simpl.
  apply post_cases in Hp. destruct (find_channel _ _) as [[i c]|] eqn:Hf; [|by destruct Hp as [-> _]].
  cbv zeta in Hp. destruct Hp as [(-> & _)|[(-> & _)|(Ho & _ & Hp)]]; [done..|].
  set (targets := post_targets r source origin (channel_name c)) in *.
  destruct Hp as (Hne & Hover & _ & Hr1 & Hr2 & ->).
  destruct Hwf as [Hc Hr Hb Ht Hn Hd Hm].
  destruct (counts_fresh _ _ (next_batch_id r + 1)%N Hc) as [Hfresh Hzero]; [lia|].
  assert (Hlen : (0 < N.of_nat (length targets))%N) by (destruct targets; [done|simpl; lia]).
  split; simpl; try done.
  - apply (counts_Permutation ((batch_id <$> deliveries (pending r)) ++
        replicate (length targets) (next_batch_id r + 1)%N)).
    { rewrite deliveries_enqueue, fmap_app. apply Permutation_app_head.
      rewrite <- list_fmap_compose. clear. induction targets as [|d targets IH]; simpl; [done|by f_equiv]. }
    destruct Hc as [Hc1 Hc2 Hc3 Hc4]. split; simpl.
    + rewrite length_app, length_replicate, Hc1. lia.
    + intros id'. rewrite count_app, count_replicate. destruct (decide (id' = (next_batch_id r + 1)%N)) as [->|Hne'].
      * rewrite lookup_insert_eq, Hzero. simpl. lia.
      * rewrite lookup_insert_ne, Hc2 by done. lia.
    + apply map_Forall_insert_2; [simpl; lia|]. intros id' b' Hb'. destruct (Hc3 id' b' Hb'). lia.
    + rewrite batch_bytes_insert, Hc4 by done. unfold batch_bytes. simpl. lia.
  - intros t. rewrite queue_of_enqueue, length_app, length_fmap. specialize (Ht t).
    destruct (tab_overflows_false r targets t Hover) as [Hle|Hnil]; [lia|rewrite Hnil; simpl; lia].
  - intros t q. rewrite queue_of_enqueue. intros [Hq|Hq]%elem_of_app.
    + destruct (Hm t q Hq) as (c' & b & Hin & Hdest & Hbatch & Horg). exists c', b.
      split_and!; try done. simpl. rewrite lookup_insert_ne; [done|]. intros Heq. by rewrite <- Heq, Hfresh in Hbatch.
    + apply list_elem_of_fmap in Hq as (d & -> & Hd'). apply list_elem_of_filter in Hd' as [<- Hd'].
      apply post_targets_elem in Hd' as (c' & Hin & <- & _ & Horg & _).
      exists c', (mkBatch origin serialized (N.of_nat (length targets))). simpl. split_and!; [done| | |done].
      * by destruct (destination c').
      * by rewrite lookup_insert_eq.
Qed.

(** Giving back the references of removed deliveries restores the invariant. *)
Lemma release_removed_wf ids r :
  counts (ids ++ (batch_id <$> deliveries (pending r))) r ->
  (pending_recipients r <= MAX_PENDING_RECIPIENTS_PER_BROWSER)%N ->
  (pending_bytes r <= MAX_PENDING_BYTES_PER_BROWSER)%N ->
  (forall t, N.of_nat (length (queue_of t (pending r))) <= MAX_PENDING_PER_TAB)%N ->
  NoDup (destination <$> channels r) ->
  (forall t d, N.of_nat (length (filter (is_document_channel t d) (channels r))) <= MAX_CHANNELS_PER_DOCUMENT)%N ->
  (forall t q, q ∈ queue_of t (pending r) -> delivery_authorised r t q) ->
  exists r', release_all ids r = Some r' /\ registry_wf r' /\ released r r'.
Proof.
  intros Hc Hr Hb Ht Hn Hd Hm. destruct (release_all_counts _ _ _ Hc) as (r' & Hrel & Hc' & Hrd).
  exists r'. split_and!; [done| |done]. destruct Hrd as [Hch Hp _ Hbytes Htot Hfrom].
  split; rewrite ?Hch, ?Hp; try done; try lia.
  intros t q Hq. destruct (Hm t q Hq) as (c & b & Hin & Hdest & Hbatch & Horg).
  assert (Hpos : (0 < count (batch_id q) (batch_id <$> deliveries (pending r)))%N).
  { apply count_pos, list_elem_of_fmap_2. rewrite (deliveries_split _ t). apply elem_of_app. by left. }
  rewrite (co_batches _ _ Hc') in Hpos.
  destruct (batches r' !! batch_id q) as [b'|] eqn:Hb'; cbn [from_option] in Hpos; [|lia].
  destruct (Hfrom _ _ Hb') as (b0 & Hb0 & Ho & _). rewrite Hbatch in Hb0. injection Hb0 as <-.
  exists c, b'. rewrite Hch, Hb', <- Ho. done.
Qed.

Lemma counts_set_pending L r p : counts L r -> counts L (set_pending p r).
Proof. by intros []. Qed.
Lemma counts_set_channels L r cs : counts L r -> counts L (set_channels cs r).
Proof. by intros []. Qed.

Lemma deliveries_removed p t q removed kept :
  p !! t = Some q -> q ≡ₚ removed ++ kept ->
  batch_id <$> deliveries p ≡ₚ (batch_id <$> removed) ++ (batch_id <$> deliveries (<[t := kept]> p)).
Proof.
  intros Hq Hperm. rewrite (deliveries_split p t), (deliveries_insert p t kept). unfold queue_of.
  rewrite Hq. simpl. by rewrite Hperm, !fmap_app, app_assoc.
Qed.

Lemma filter_split {A} (P : A -> Prop) `{forall x, Decision (P x)} (l : list A) :
  l ≡ₚ filter P l ++ filter (fun x => ~ P x) l.
Proof.
  induction l as [|x l IH]; [done|]. rewrite !filter_cons. repeat case_decide; try done.
  - simpl. by f_equiv.
  - by rewrite <- Permutation_middle, <- IH.
Qed.

(** Taking a closed channel out of the list. *)
Lemma delete_channel r i c source :
  registry_wf r -> channels r !! i = Some c -> destination c = source ->
  NoDup (destination <$> delete i (channels r)) /\
  (forall t d, N.of_nat (length (filter (is_document_channel t d) (delete i (channels r))))
               <= MAX_CHANNELS_PER_DOCUMENT)%N /\
  (forall c', c' ∈ channels r -> destination c' <> source -> c' ∈ delete i (channels r)).
Proof.
  intros [_ _ _ _ Hn Hd _] Hi Hdest. pose proof (delete_Permutation _ _ _ Hi) as Hperm. split_and!.
  - rewrite Hperm in Hn. by apply NoDup_cons in Hn as [_ Hn].
  - intros t d. specialize (Hd t d). rewrite Hperm, filter_cons in Hd.
    case_decide; cbn [length] in Hd; lia.
  - intros c' Hin Hne. rewrite Hperm in Hin. apply elem_of_cons in Hin as [->|]; done.
Qed.

Lemma close_wf r source :
  registry_wf r ->
  exists r', BroadcastRegistry_close r source = Some r' /\ registry_wf r' /\
    (source ∉ (destination <$> channels r')) /\
    forall q, q ∈ queue_of (tab source) (pending r') -> ~ is_for (document source) (channel_id source) q.
Proof.
  intros Hwf. unfold BroadcastRegistry_close. destruct (find_channel source (channels r)) as [[i c]|] eqn:Hf.
  2:{ exists r. apply find_channel_None in Hf. split_and!; [done..|].
      intros q Hq [Hd Hch]. apply (rw_members r Hwf) in Hq as (c & b & Hin & Hdest & _).
      apply Hf. rewrite Hd, Hch in Hdest. apply list_elem_of_fmap. exists c.
      split; [|done]. rewrite Hdest. by destruct source. }
  apply find_channel_Some in Hf as [Hi Hdest].
  destruct (delete_channel r i c source Hwf Hi Hdest) as (Hn' & Hd' & Hkeep).
  assert (Hgone : source ∉ (destination <$> delete i (channels r))).
  { pose proof (rw_nodup r Hwf) as Hn. rewrite (delete_Permutation _ _ _ Hi) in Hn.
    apply NoDup_cons in Hn as [Hnin _]. by rewrite <- Hdest. }
  pose proof Hwf as [Hc Hr Hb Ht _ _ Hm]. simpl.
  destruct (pending r !! tab source) as [q|] eqn:Hq.
  - set (P := is_for (document source) (channel_id source)).
    set (kept := filter (fun x => ~ P x) q).
    destruct (release_removed_wf (batch_id <$> filter P q)
      (set_pending (<[tab source := kept]> (pending r)) (set_channels (delete i (channels r)) r)))
      as (r' & -> & Hwf' & Hrel); try done.
    + simpl. apply (counts_Permutation (batch_id <$> deliveries (pending r)));
        [|by apply counts_set_pending, counts_set_channels].
      apply (deliveries_removed _ _ q); [done|apply filter_split].
    + intros t. simpl. rewrite queue_of_insert. case_decide; [|apply Ht].
      specialize (Ht (tab source)). unfold queue_of in Ht. rewrite Hq in Ht. simpl in Ht.
      pose proof (length_filter (fun x => ~ P x) q). unfold kept. lia.
    + intros t x. simpl. rewrite queue_of_insert. intros Hx.
      assert (Hx' : x ∈ queue_of t (pending r) /\ (t = tab source -> ~ P x)).
      { case_decide as Htab; [|done]. subst t. apply list_elem_of_filter in Hx as [HP Hx].
        unfold queue_of. by rewrite Hq. }
      destruct Hx' as [Hx' HP]. destruct (Hm t x Hx') as (c' & b & Hin & Hd'' & Hrest).
      exists c', b. split; [|done]. apply Hkeep; [done|]. intros Heq. rewrite Heq in Hd''.
      apply HP; [by rewrite Hd''|]. unfold P. rewrite Hd''. by split.
    + exists r'. destruct Hrel as [Hch Hpe _ _ _ _]. rewrite Hch, Hpe. simpl.
      split_and!; [done..|]. intros x. rewrite queue_of_insert, decide_True by done.
      by intros [? _]%list_elem_of_filter.
  - exists (set_channels (delete i (channels r)) r). split_and!; try done.
    + split; simpl; try done; [by apply counts_set_channels|]. intros t x Hx.
      destruct (Hm t x Hx) as (c' & b & Hin & Hd'' & Hrest). exists c', b. split; [|done].
      apply Hkeep; [done|]. intros Heq. rewrite Heq in Hd''. unfold queue_of in Hx.
      rewrite Hd'' in Hq. simpl in Hq. rewrite Hq in Hx. by apply not_elem_of_nil in Hx.
    + intros x. simpl. unfold queue_of. rewrite Hq. by intros ?%not_elem_of_nil.
Qed.

Lemma retire_tab_wf t r :
  registry_wf r ->
  exists r', retire_tab t r = Some r' /\ registry_wf r' /\
    queue_of t (pending r') = [] /\ forall c, c ∈ channels r' -> tab (destination c) <> t.
Proof.
  intros Hwf. pose proof Hwf as [Hc Hr Hb Ht Hn Hd Hm]. unfold retire_tab. simpl.
  set (cs := filter (fun c => tab (destination c) <> t) (channels r)).
  assert (Hn' : NoDup (destination <$> cs)).
  { eapply sublist_NoDup; [exact Hn|]. apply fmap_sublist, sublist_filter. }
  assert (Hd' : forall t' d, (N.of_nat (length (filter (is_document_channel t' d) cs)) <= MAX_CHANNELS_PER_DOCUMENT)%N).
  { intros t' d. specialize (Hd t' d).
    rewrite (filter_split (fun c => tab (destination c) <> t) (channels r)), filter_app, length_app in Hd.
    fold cs in Hd. lia. }
  assert (Hcs : forall c, c ∈ cs -> tab (destination c) <> t) by (by intros c [? _]%list_elem_of_filter).
  assert (Hm' : forall t' q b, t' <> t -> delivery_authorised r t' q ->
            delivery_authorised (set_pending b (set_channels cs r)) t' q).
  { intros t' q p Hne (c & b & Hin & Hdest & Hrest). exists c, b. split; [|done].
    apply list_elem_of_filter. by rewrite Hdest. }
  destruct (pending r !! t) as [q|] eqn:Hq.
  - destruct (release_removed_wf (batch_id <$> q) (set_pending (delete t (pending r)) (set_channels cs r)))
      as (r' & -> & Hwf' & Hrel); try done.
    + simpl. apply (counts_Permutation (batch_id <$> deliveries (pending r)));
        [|by apply counts_set_pending, counts_set_channels].
      rewrite (deliveries_split (pending r) t). unfold queue_of. rewrite Hq. by rewrite fmap_app.
    + intros t'. simpl. unfold queue_of. destruct (decide (t' = t)) as [->|Hne].
      * by rewrite lookup_delete_eq.
      * rewrite lookup_delete_ne by done. apply Ht.
    + intros t' x. simpl. unfold queue_of. destruct (decide (t' = t)) as [->|Hne].
      * rewrite lookup_delete_eq. by intros ?%not_elem_of_nil.
      * rewrite lookup_delete_ne by done. intros Hx. by apply Hm', Hm.
    + exists r'. destruct Hrel as [Hch Hpe _ _ _ _]. rewrite Hch, Hpe. simpl. split_and!; [done..| |done].
      unfold queue_of. by rewrite lookup_delete_eq.
  - exists (set_channels cs r). split_and!; try done; [|unfold queue_of; simpl; by rewrite Hq].
    split; simpl; try done; [by apply counts_set_channels|]. intros t' x Hx.
    apply (Hm' t' x (pending r)); [|by apply Hm]. intros ->. unfold queue_of in Hx. rewrite Hq in Hx.
    by apply not_elem_of_nil in Hx.
Qed.

Lemma registry_take_if_cases accepts t r :
  registry_wf r ->
  exists r' offered taken, take_if accepts t r = Some (r', offered, taken) /\ registry_wf r' /\
    match offered with
    | None => queue_of t (pending r) = [] /\ r' = r /\ taken = false
    | Some d =>
        exists front rest batch,
          queue_of t (pending r) = front :: rest /\ batches r !! batch_id front = Some batch /\
          d = mkDelivery (queued_document front) (queued_channel front) (batch_origin batch)
                (batch_serialized batch) /\
          delivery_authorised r t front /\ taken = accepts d /\
          (if taken then queue_of t (pending r') = rest else r' = r)
    end.
Proof.
  intros Hwf. pose proof Hwf as [Hc Hr Hb Ht Hn Hd Hm]. unfold take_if.
  destruct (queue_of t (pending r)) as [|front rest] eqn:Hq.
  { exists r, None, false. by split_and!. }
  assert (Hin : front ∈ queue_of t (pending r)) by (rewrite Hq; constructor).
  destruct (Hm t front Hin) as (c & batch & Hch & Hdest & Hbatch & Horg).
  rewrite Hbatch. simpl. set (d := mkDelivery _ _ _ _).
  destruct (accepts d) eqn:Ha.
  - destruct (release_removed_wf [batch_id front] (set_pending (<[t := rest]> (pending r)) r))
      as (r' & Hrel & Hwf' & Hrd); try done.
    + simpl. apply (counts_Permutation (batch_id <$> deliveries (pending r))); [|by apply counts_set_pending].
      rewrite (deliveries_split (pending r) t), Hq, (deliveries_insert (pending r) t rest). done.
    + intros t'. simpl. rewrite queue_of_insert. case_decide; [|apply Ht].
      specialize (Ht t). rewrite Hq in Ht. cbn [length] in Ht. lia.
    + intros t' x. simpl. rewrite queue_of_insert. intros Hx.
      assert (Hx' : x ∈ queue_of t' (pending r)).
      { case_decide as Heq; [|done]. rewrite Heq, Hq. by constructor. }
      destruct (Hm t' x Hx') as (c' & b' & H'). by exists c', b'.
    + simpl in Hrel. destruct (release_batch_reference _ _) as [r1|]; [|done]. simpl in *.
      injection Hrel as ->. exists r', (Some d), true. split_and!; [done..|].
      exists front, rest, batch. split_and!; try done; [by exists c, batch|].
      rewrite (re_pending _ _ Hrd). simpl. rewrite queue_of_insert. by rewrite decide_True.
  - exists r, (Some d), false. split_and!; [done..|]. exists front, rest, batch.
    split_and!; try done. by exists c, batch.
Qed.

Lemma apply_wf r t origin command :
  registry_wf r ->
  exists r' res, BroadcastRegistry_apply r t origin command = Some (r', res) /\ registry_wf r'.
Proof.
  intros Hwf. unfold BroadcastRegistry_apply. destruct (BroadcastCommand_validate command); [|by eauto].
  destruct (command_operation command) as [name|serialized|].
  - pose proof (open_wf r (mkDestination t (command_document command) (command_channel command)) origin name Hwf) as H.
    destruct (BroadcastRegistry_open _ _ _ _) as [r' res]. by exists r', res.
  - pose proof (post_wf r (mkDestination t (command_document command) (command_channel command)) origin serialized Hwf) as H.
    destruct (BroadcastRegistry_post _ _ _ _) as [r' res]. by exists r', res.
  - destruct (close_wf r (mkDestination t (command_document command) (command_channel command)) Hwf)
      as (r' & -> & Hwf' & _). by exists r', (Ok true).
Qed.

(** C29. The registry never panics and its accounting never drifts: under every
    command, tab retirement and delivery attempt, no counter underflows and
    every queued message finds its batch; each batch's reference count is the
    number of queued deliveries that share it, the byte and recipient totals
    are exact and within the browser's budgets, at most 256 deliveries wait per
    tab and 128 channels are open per document, and every queued delivery
    belongs to an open channel of the message's origin. *)
Theorem registry_invariant r t origin command accepts :
  registry_wf r ->
  (exists r' res, BroadcastRegistry_apply r t origin command = Some (r', res) /\ registry_wf r') /\
  (exists r', retire_tab t r = Some r' /\ registry_wf r') /\
  (exists r' offered taken, take_if accepts t r = Some (r', offered, taken) /\ registry_wf r').
Proof.
  intros Hwf. split_and!.
  - by apply apply_wf.
  - destruct (retire_tab_wf t r Hwf) as (r' & H1 & H2 & _). by exists r'.
  - destruct (registry_take_if_cases accepts t r Hwf) as (r' & o & k & H1 & H2 & _). by exists r', o, k.
Qed.

(** C30. A posted message reaches exactly its channel. When [Post] is accepted,
    the sender's channel is open with the sender's origin, and every tab's queue
    gains, in order of opening, one delivery per open channel of the same origin
    and name other than the sender, all sharing one new batch with the sender's
    origin and payload; the channels are what they were. It is refused, with
    nothing changed, only when the command is malformed, the sender's channel is
    not open with that origin, or the recipients' queues have no room. *)
Theorem post_reaches_exactly_the_channel r t origin document channel serialized r' res :
  registry_wf r ->
  let command := mkCommand document channel (Post serialized) in
  BroadcastRegistry_apply r t origin command = Some (r', res) ->
  let source := mkDestination t document channel in
  let hearers c := filter (fun c' => destination c' <> source /\ channel_origin c' = origin /\
                                        channel_name c' = channel_name c) (channels r) in
  (res = Ok true ->
     exists i c id, channels r !! i = Some c /\ destination c = source /\ channel_origin c = origin /\
       channels r' = channels r /\
       (hearers c <> [] -> batches r !! id = None /\ exists n, batches r' !! id = Some (mkBatch origin serialized n)) /\
       forall t', queue_of t' (pending r') = queue_of t' (pending r) ++
         (queued_for id <$> filter (fun d => tab d = t') (destination <$> hearers c))) /\
  (res <> Ok true ->
     r' = r /\
     (is_ok (BroadcastCommand_validate command) = false \/
      forall i c, find_channel source (channels r) = Some (i, c) ->
        channel_origin c <> origin \/
        no_room r (destination <$> hearers c) (byte_length serialized + byte_length origin))).
Proof.
  intros Hwf command Happ source hearers. subst command source hearers.
  unfold BroadcastRegistry_apply in Happ. simpl in Happ.
  destruct (BroadcastCommand_validate _); [|by injection Happ as <- <-; split; [done|auto]].
  injection Happ as Hp. apply post_cases in Hp. unfold post_targets in Hp.
  destruct (find_channel _ _) as [[i c]|] eqn:Hf.
  2:{ destruct Hp as [-> Hne]. split; [done|]. intros _. split; [done|]. by right. }
  cbv zeta in Hp. destruct Hp as [(-> & Hne & Hwhy)|[(-> & -> & Ho & Hnil)|(Ho & -> & Hn & _ & _ & _ & _ & ->)]].
  - split; [done|]. intros _. split; [done|]. right. by intros i' c' [= <- <-].
  - split; [|done]. intros _. apply find_channel_Some in Hf as [Hi Hdest].
    apply fmap_nil_inv in Hnil. exists i, c, 0%N. split_and!; try done.
    intros t'. unfold is_recipient in Hnil. rewrite Hnil. simpl. by rewrite app_nil_r.
  - split; [|done]. intros _. apply find_channel_Some in Hf as [Hi Hdest].
    destruct (counts_fresh _ _ (next_batch_id r + 1)%N (rw_counts r Hwf)) as [Hfresh _]; [lia|].
    exists i, c, (next_batch_id r + 1)%N. split_and!; try done.
    + intros _. split; [done|]. eexists. simpl. apply lookup_insert_eq.
    + intros t'. simpl. by rewrite queue_of_enqueue.
Qed.

(** Delivery is first-in first-out and authorised: what a tab is offered is
    the front of its queue with that message's own origin and payload, for a
    channel that is open in that tab with that origin; it leaves the queue
    exactly when the consumer takes it, so a full consumer loses nothing. *)
Theorem delivery_in_order accepts t r r' offered taken :
  registry_wf r -> take_if accepts t r = Some (r', offered, taken) ->
  match offered with
  | None => queue_of t (pending r) = [] /\ r' = r /\ taken = false
  | Some d =>
      taken = accepts d /\
      exists front rest batch c,
        queue_of t (pending r) = front :: rest /\ batches r !! batch_id front = Some batch /\
        d = mkDelivery (queued_document front) (queued_channel front) (batch_origin batch)
              (batch_serialized batch) /\
        c ∈ channels r /\ destination c = mkDestination t (delivery_document d) (delivery_channel d) /\
        channel_origin c = delivery_origin d /\
        (if taken then queue_of t (pending r') = rest else r' = r)
  end.
Proof.
  intros Hwf Ht. destruct (registry_take_if_cases accepts t r Hwf) as (r2 & o & k & Ht2 & _ & Hcase).
  rewrite Ht in Ht2. injection Ht2 as <- <- <-. destruct offered as [d|]; [|done].
  destruct Hcase as (front & rest & batch & Hq & Hb & -> & (c & b & Hin & Hdest & Hb2 & Ho) & Htk & Hres).
  split; [done|]. rewrite Hb in Hb2. injection Hb2 as <-.
  exists front, rest, batch, c. by split_and!.
Qed.

(** A closed channel hears nothing more: after [Close], and after a tab is
    retired, no open channel and no queued delivery is left for it. *)
Theorem closed_channels_hear_nothing r t origin document channel r' res :
  registry_wf r -> channel <> 0%N ->
  BroadcastRegistry_apply r t origin (mkCommand document channel Close) = Some (r', res) ->
  (mkDestination t document channel ∉ (destination <$> channels r')) /\
  (forall q, q ∈ queue_of t (pending r') -> ~ is_for document channel q) /\
  (forall r'', retire_tab t r = Some r'' -> queue_of t (pending r'') = [] /\
     forall c, c ∈ channels r'' -> tab (destination c) <> t).
Proof.
  intros Hwf Hch Happ. unfold BroadcastRegistry_apply, BroadcastCommand_validate in Happ. simpl in Happ.
  apply N.eqb_neq in Hch. rewrite Hch in Happ.
  destruct (close_wf r (mkDestination t document channel) Hwf) as (r1 & Hcl & _ & Hgone & Hq).
  rewrite Hcl in Happ. simpl in Happ. injection Happ as -> _. split_and!; [done|apply Hq|].
  intros r'' Hret. destruct (retire_tab_wf t r Hwf) as (r2 & Hret2 & _ & H1 & H2).
  rewrite Hret in Hret2. injection Hret2 as <-. done.
Qed.

(** ** A concrete run: two tabs of one origin, one of another *)
Definition run_commands (cs : list (N * string * BroadcastCommand)) (r : BroadcastRegistry)
  : option BroadcastRegistry :=
  foldl (fun r c => r ← r; fst <$> BroadcastRegistry_apply r c.1.1 c.1.2 c.2) (Some r) cs.

Definition document_10 : DocumentId := NonzeroId (@Word u64_max 10 eq_refl) eq_refl.
Definition document_20 : DocumentId := NonzeroId (@Word u64_max 20 eq_refl) eq_refl.
Definition document_30 : DocumentId := NonzeroId (@Word u64_max 30 eq_refl) eq_refl.

Definition demo_registry : BroadcastRegistry :=
  default BroadcastRegistry_default (run_commands
    [(1, "https://a.test", mkCommand document_10 1 (Open "0061"));
     (2, "https://a.test", mkCommand document_20 1 (Open "0061"));
     (3, "https://b.test", mkCommand document_30 1 (Open "0061"))]%N BroadcastRegistry_default).

Definition demo_posted : BroadcastRegistry :=
  default BroadcastRegistry_default (run_commands
    [(1, "https://a.test", mkCommand document_10 1 (Post "hello"))]%N demo_registry).

Example demo_posted_queues :
  (length (queue_of 1 (pending demo_posted)), length (queue_of 2 (pending demo_posted)),
   length (queue_of 3 (pending demo_posted))) = (0, 1, 0).
Proof. by vm_compute. Qed.

Lemma run_commands_wf cs r r' : registry_wf r -> run_commands cs r = Some r' -> registry_wf r'.
Proof.
  unfold run_commands. revert r. induction cs as [|[[t o] c] cs IH]; intros r Hwf; simpl; [by intros [= <-]|].
  destruct (apply_wf r t o c Hwf) as (r1 & res & -> & Hwf1). simpl. by apply IH.
Qed.

Lemma default_run_wf cs r :
  registry_wf r -> registry_wf (default BroadcastRegistry_default (run_commands cs r)).
Proof.
  intros Hwf. destruct (run_commands cs r) as [r'|] eqn:Hrun; simpl; [|apply registry_default_wf].
  by eapply run_commands_wf.
Qed.

Lemma demo_registry_wf : registry_wf demo_registry.
Proof. apply default_run_wf, registry_default_wf. Qed.
Lemma demo_posted_wf : registry_wf demo_posted.
Proof. apply default_run_wf, demo_registry_wf. Qed.

Lemma registry_invariant_witness :
  exists r', retire_tab 2%N demo_posted = Some r' /\ registry_wf r'.
Proof.
  apply (registry_invariant demo_posted 2%N "https://a.test" (mkCommand document_20 1%N Close) (fun _ => true)).
  apply demo_posted_wf.
Defined.

Lemma post_reaches_exactly_the_channel_witness :
  exists id, queue_of 2%N (pending demo_posted) = queue_of 2%N (pending demo_registry) ++ [mkQueued document_20 1%N id].
Proof.
  destruct (post_reaches_exactly_the_channel demo_registry 1%N "https://a.test" document_10 1%N "hello" demo_posted
    (Ok true)) as [H _].
  - apply demo_registry_wf.
  - by vm_compute.
  - destruct (H eq_refl) as (i & c & id & Hi & Hd & _ & _ & _ & Hq). exists id. rewrite (Hq 2%N).
    destruct i as [|[|[|i]]]; vm_compute in Hi; try discriminate; injection Hi as <-; try discriminate Hd.
    reflexivity.
Defined.

Lemma delivery_in_order_witness :
  exists front rest, queue_of 2%N (pending demo_posted) = front :: rest.
Proof.
  destruct (delivery_in_order (fun _ => false) 2%N demo_posted demo_posted
    (Some (mkDelivery document_20 1%N "https://a.test" "hello")) false) as (_ & f & r & b & c & Hq & _).
  - apply demo_posted_wf.
  - by vm_compute.
  - exists f, r. exact Hq.
Defined.

Lemma closed_channels_hear_nothing_witness :
  exists r', BroadcastRegistry_apply demo_posted 2%N "https://a.test" (mkCommand document_20 1%N Close)
             = Some (r', Ok true) /\ mkDestination 2%N document_20 1%N ∉ (destination <$> channels r').
Proof.
  eexists. split; [vm_compute; reflexivity|].
  eapply (closed_channels_hear_nothing demo_posted 2%N "https://a.test" document_20 1%N); [apply demo_posted_wf|done|].
  vm_compute. reflexivity.
Defined.
