(* ===== verification/BroadcastCodec.v ===== *)
(** * BroadcastCodec: BroadcastChannel messages on the pipe

    src/renderer_protocol/codec/payload/broadcast_channel.rs. *)

From Stdlib Require Import Strings.Byte.
From S2P Require Import Prelude Text Limits Words Protocol WebStorage Wire WireTheory Broadcast.

(** ** Commands *)
Definition put_broadcast_operation (op : BroadcastOperation) : Writer () :=
  match op with
  | Open name => _ ← put_u8 1; put_string name
  | Post serialized => _ ← put_u8 2; put_string serialized
  | Close => put_u8 3
  end.
Definition get_broadcast_operation : Reader BroadcastOperation :=
  tag ← get_u8;
  match val tag with
  | 1 => name ← get_string MAX_BROADCAST_NAME_BYTES; mret (Open (text name))
  | 2 => serialized ← get_string MAX_BROADCAST_MESSAGE_BYTES; mret (Post (text serialized))
  | 3 => mret Close
  | _ => lift (Err (InvalidPayload "broadcast operation"))
  end%N.

Definition put_broadcast_command (command : BroadcastCommand) : Writer () :=
  _ ← lift (BroadcastCommand_validate command);
  _ ← put_u64 (id_value (command_document command));
  _ ← put_u64 (command_channel command);
  put_broadcast_operation (command_operation command).
Definition get_broadcast_command : Reader BroadcastCommand :=
  document ← get_document;
  channel_id ← get_u64;
  operation ← get_broadcast_operation;
  _ ← get_finish;
  let command := mkCommand document (val channel_id) operation in
  _ ← lift (BroadcastCommand_validate command);
  mret command.

(** ** Deliveries *)
Definition put_broadcast_delivery (delivery : BroadcastDelivery) : Writer () :=
  _ ← lift (BroadcastDelivery_validate delivery);
  _ ← put_u64 (id_value (delivery_document delivery));
  _ ← put_u64 (delivery_channel delivery);
  _ ← put_string (delivery_origin delivery);
  put_string (delivery_serialized delivery).
Definition get_broadcast_delivery : Reader BroadcastDelivery :=
  document ← get_document;
  channel_id ← get_u64;
  origin ← get_string MAX_URL_BYTES;
  serialized ← get_string MAX_BROADCAST_MESSAGE_BYTES;
  _ ← get_finish;
  let delivery := mkDelivery document (val channel_id) (text origin) (text serialized) in
  _ ← lift (BroadcastDelivery_validate delivery);
  mret delivery.

(** The registry keeps channel identifiers and texts without their Rust types. *)
Definition operation_typed (op : BroadcastOperation) : Prop :=
  match op with Open s | Post s => well_formed s = true | Close => True end.
Definition command_typed (c : BroadcastCommand) : Prop :=
  (command_channel c <= u64_max)%N /\ operation_typed (command_operation c).
Definition delivery_typed (d : BroadcastDelivery) : Prop :=
  (delivery_channel d <= u64_max)%N /\ well_formed (delivery_origin d) = true /\
  well_formed (delivery_serialized d) = true.

Lemma broadcast_operation_carries (op : BroadcastOperation) :
  operation_typed op ->
  match op with
  | Open s => byte_length s <= MAX_BROADCAST_NAME_BYTES
  | Post s => byte_length s <= MAX_BROADCAST_MESSAGE_BYTES
  | Close => True
  end%N ->
  carries false (put_broadcast_operation op) get_broadcast_operation op.
Proof.
  unfold get_broadcast_operation. destruct op as [name|serialized|]; simpl; intros Ht Hb; carry.
Qed.

#[export] Hint Unfold BroadcastCommand_validate BroadcastDelivery_validate : wire_validate.

#[export] Instance broadcast_command_payload : Payload put_broadcast_command get_broadcast_command command_typed.
Proof.
  intros [d ch op] [Hch Hop]. simpl in *. unfold put_broadcast_command, get_broadcast_command. simpl. carry.
  eapply carries_last; [apply broadcast_operation_carries; [done|]|carry].
  destruct op; wire_break Hparts; [lia..|done].
Qed.

#[export] Instance broadcast_delivery_payload : Payload put_broadcast_delivery get_broadcast_delivery delivery_typed.
Proof. intros [d ch o s] (Hch & Ho & Hs). unfold put_broadcast_delivery, get_broadcast_delivery. simpl in *. carry. Qed.
