(* ===== verification/StatePayloads.v ===== *)
(** * StatePayloads: cookies, Web Storage, databases and sockets on the pipe

    The message types of src/renderer_protocol/{state, database, websocket}.rs and
    the codecs src/renderer_protocol/codec/payload/{state, storage_sync, database,
    websocket}.rs. The storage values are those of the stores they come from. *)

From Stdlib Require Import Strings.Byte.
From S2P Require Import Prelude Text Limits Words Protocol WebStorage LocalStore StorageSync Wire WireTheory PayloadFields FetchRequest DevicePayloads.

(** ** Message types (src/renderer_protocol/state.rs) *)
Record DocumentState := mkDocumentState {
  ds_cookie_version : u64; ds_cookie_header : ustring;
  ds_local_storage : StorageAreaSnapshot; ds_session_storage : StorageAreaSnapshot }.
Definition map_invalid {A} (r : result StorageError A) (field : string) : result ProtocolError A :=
  map_err (fun _ => InvalidPayload field) r.
Definition DocumentState_validate (s : DocumentState) : result ProtocolError () :=
  _ ← reject ((ds_cookie_version s =? 0)%N || longer (ds_cookie_header s) MAX_COOKIE_HEADER_BYTES) "cookie snapshot";
  _ ← map_invalid (StorageAreaSnapshot_validate (ds_local_storage s)) "local storage snapshot";
  map_invalid (StorageAreaSnapshot_validate (ds_session_storage s)) "session storage snapshot".

Record CookieStateSnapshot := mkCookieSnapshot { cs_document : DocumentId; cs_version : u64; cs_header : ustring }.
Definition CookieStateSnapshot_validate (s : CookieStateSnapshot) : result ProtocolError () :=
  reject ((cs_version s =? 0)%N || longer (cs_header s) MAX_COOKIE_HEADER_BYTES) "cookie snapshot".

Record StorageSnapshotStart := mkSnapshotStart {
  ss_document : DocumentId; ss_area : StorageAreaKind; ss_version : u64; ss_entry_count : u32 }.
Definition StorageSnapshotStart_validate (s : StorageSnapshotStart) : result ProtocolError () :=
  reject ((ss_version s =? 0)%N || (MAX_STORAGE_ENTRIES_PER_ORIGIN <? ss_entry_count s)%N) "storage snapshot start".
Record StorageSnapshotEntry := mkSnapshotEntry {
  sse_document : DocumentId; sse_area : StorageAreaKind; sse_entry : StorageEntry }.
Definition StorageSnapshotEntry_validate (e : StorageSnapshotEntry) : result ProtocolError () :=
  map_invalid (StorageEntry_validate (sse_entry e)) "storage snapshot entry".
Record StorageSnapshotEnd := mkSnapshotEnd { send_document : DocumentId; send_area : StorageAreaKind; send_version : u64 }.
Definition StorageSnapshotEnd_validate (e : StorageSnapshotEnd) : result ProtocolError () :=
  reject (send_version e =? 0)%N "storage snapshot end".

Inductive StateSnapshotKind := CookieKind | LocalStorageKind | SessionStorageKind.
Record StateSnapshotApplied := mkApplied { sa_document : DocumentId; sa_kind : StateSnapshotKind; sa_version : u64 }.
Definition StateSnapshotApplied_validate (a : StateSnapshotApplied) : result ProtocolError () :=
  reject (sa_version a =? 0)%N "state snapshot acknowledgement".

Record CookieMutation := mkCookieMutation { cm_document : DocumentId; cm_assignment : ustring }.
Definition CookieMutation_validate (m : CookieMutation) : result ProtocolError () :=
  reject (longer (cm_assignment m) MAX_COOKIE_ASSIGNMENT_BYTES) "cookie mutation".
Record PolicyMutation := mkPolicyMutation { pm_document : DocumentId; pm_client_id : u64; pm_serialized : ustring }.
Definition PolicyMutation_validate (m : PolicyMutation) : result ProtocolError () :=
  reject (is_empty (pm_serialized m) || longer (pm_serialized m) (16 * 1024)) "meta CSP policy".

Record StorageMutationRequest := mkStorageMutationRequest {
  smr_document : DocumentId; smr_sequence : u64; smr_source_url : ustring; smr_mutation : StorageMutation }.
Definition StorageMutationRequest_validate (r : StorageMutationRequest) : result ProtocolError () :=
  _ ← reject ((smr_sequence r =? 0)%N || longer (smr_source_url r) MAX_URL_BYTES) "storage write identity";
  map_invalid (StorageMutation_validate (smr_mutation r)) "storage mutation".

Record StorageSync := mkStorageSync { sync_document : DocumentId; sync_update : StorageUpdate }.
Definition StorageSync_validate (s : StorageSync) : result ProtocolError () :=
  map_invalid (StorageUpdate_validate (sync_update s)) "storage synchronization".
Definition StorageSync_receipt (s : StorageSync) : StateSnapshotApplied :=
  mkApplied (sync_document s)
    (match update_area (sync_update s) with LocalArea => LocalStorageKind | SessionArea => SessionStorageKind end)
    (to_word u64_max (update_version (sync_update s))).

(** ** Tags *)
Definition area_tag (a : StorageAreaKind) : N := match a with LocalArea => 1 | SessionArea => 2 end.
Definition decode_area (tag : N) : result ProtocolError StorageAreaKind :=
  match tag with 1 => Ok LocalArea | 2 => Ok SessionArea | _ => Err (InvalidPayload "storage area") end%N.
Definition snapshot_kind_tag (k : StateSnapshotKind) : N :=
  match k with CookieKind => 1 | LocalStorageKind => 2 | SessionStorageKind => 3 end.
Definition decode_snapshot_kind (tag : N) : result ProtocolError StateSnapshotKind :=
  match tag with
  | 1 => Ok CookieKind | 2 => Ok LocalStorageKind | 3 => Ok SessionStorageKind
  | _ => Err (InvalidPayload "state snapshot kind")
  end%N.
Lemma area_carries (a : StorageAreaKind) : carries false (put_u8 (area_tag a)) (get_tag decode_area) a.
Proof. destruct a; carry. Qed.
Lemma snapshot_kind_carries (k : StateSnapshotKind) :
  carries false (put_u8 (snapshot_kind_tag k)) (get_tag decode_snapshot_kind) k.
Proof. destruct k; carry. Qed.
#[export] Hint Resolve area_carries snapshot_kind_carries : wire.

(** ** Writers and readers of state.rs *)
Definition put_cookie_snapshot (s : CookieStateSnapshot) : Writer () :=
  _ ← lift (CookieStateSnapshot_validate s);
  _ ← put_u64 (id_value (cs_document s));
  _ ← put_u64 (val (cs_version s));
  put_string (text (cs_header s)).
Definition get_cookie_snapshot : Reader CookieStateSnapshot :=
  document ← get_document;
  version ← get_nonzero "cookie snapshot";
  header ← get_string MAX_COOKIE_HEADER_BYTES;
  let snapshot := mkCookieSnapshot document version header in
  _ ← lift (CookieStateSnapshot_validate snapshot);
  _ ← get_finish;
  mret snapshot.
Definition put_snapshot_start (s : StorageSnapshotStart) : Writer () :=
  _ ← lift (StorageSnapshotStart_validate s);
  _ ← put_u64 (id_value (ss_document s));
  _ ← put_u8 (area_tag (ss_area s));
  _ ← put_u64 (val (ss_version s));
  put_u32 (val (ss_entry_count s)).
Definition get_snapshot_start : Reader StorageSnapshotStart :=
  document ← get_document;
  area ← get_tag decode_area;
  version ← get_nonzero "storage snapshot";
  entry_count ← get_u32;
  let start := mkSnapshotStart document area version entry_count in
  _ ← lift (StorageSnapshotStart_validate start);
  _ ← get_finish;
  mret start.
Definition put_snapshot_entry (e : StorageSnapshotEntry) : Writer () :=
  _ ← lift (StorageSnapshotEntry_validate e);
  _ ← put_u64 (id_value (sse_document e));
  _ ← put_u8 (area_tag (sse_area e));
  _ ← put_storage_string (entry_key (sse_entry e));
  put_storage_string (entry_value (sse_entry e)).
Definition get_snapshot_entry : Reader StorageSnapshotEntry :=
  document ← get_document;
  area ← get_tag decode_area;
  key ← get_storage_string MAX_STORAGE_KEY_BYTES;
  value ← get_storage_string MAX_STORAGE_VALUE_BYTES;
  let item := mkSnapshotEntry document area (mkEntry key value) in
  _ ← lift (StorageSnapshotEntry_validate item);
  _ ← get_finish;
  mret item.
Definition put_snapshot_end (e : StorageSnapshotEnd) : Writer () :=
  _ ← lift (StorageSnapshotEnd_validate e);
  _ ← put_u64 (id_value (send_document e));
  _ ← put_u8 (area_tag (send_area e));
  put_u64 (val (send_version e)).
Definition get_snapshot_end : Reader StorageSnapshotEnd :=
  document ← get_document;
  area ← get_tag decode_area;
  version ← get_nonzero "storage snapshot";
  let stop := mkSnapshotEnd document area version in
  _ ← lift (StorageSnapshotEnd_validate stop);
  _ ← get_finish;
  mret stop.
Definition put_cookie_mutation (m : CookieMutation) : Writer () :=
  _ ← lift (CookieMutation_validate m);
  _ ← put_u64 (id_value (cm_document m));
  put_string (text (cm_assignment m)).
Definition get_cookie_mutation : Reader CookieMutation :=
  document ← get_document;
  assignment ← get_string MAX_COOKIE_ASSIGNMENT_BYTES;
  let mutation := mkCookieMutation document assignment in
  _ ← lift (CookieMutation_validate mutation);
  _ ← get_finish;
  mret mutation.
Definition put_policy_mutation (m : PolicyMutation) : Writer () :=
  _ ← lift (PolicyMutation_validate m);
  _ ← put_u64 (id_value (pm_document m));
  _ ← put_u64 (val (pm_client_id m));
  put_string (text (pm_serialized m)).
Definition get_policy_mutation : Reader PolicyMutation :=
  document ← get_document;
  client_id ← get_u64;
  serialized ← get_string (16 * 1024);
  let mutation := mkPolicyMutation document client_id serialized in
  _ ← lift (PolicyMutation_validate mutation);
  _ ← get_finish;
  mret mutation.
Definition put_storage_operation (op : StorageOperation) : Writer () :=
  match op with
  | Set_ key value => _ ← put_u8 1; _ ← put_storage_string key; put_storage_string value
  | Remove key => _ ← put_u8 2; put_storage_string key
  | Clear => put_u8 3
  end.
Definition get_storage_operation : Reader StorageOperation :=
  tag ← get_u8;
  match val tag with
  | 1 =>
      key ← get_storage_string MAX_STORAGE_KEY_BYTES;
      value ← get_storage_string MAX_STORAGE_VALUE_BYTES;
      mret (Set_ key value)
  | 2 => key ← get_storage_string MAX_STORAGE_KEY_BYTES; mret (Remove key)
  | 3 => mret Clear
  | _ => lift (Err (InvalidPayload "storage mutation operation"))
  end%N.
Definition put_storage_mutation (r : StorageMutationRequest) : Writer () :=
  _ ← lift (StorageMutationRequest_validate r);
  _ ← put_u64 (id_value (smr_document r));
  _ ← put_u8 (area_tag (area (smr_mutation r)));
  _ ← put_u64 (expected_version (smr_mutation r));
  _ ← put_u64 (val (smr_sequence r));
  _ ← put_string (text (smr_source_url r));
  put_storage_operation (operation (smr_mutation r)).
Definition get_storage_mutation : Reader StorageMutationRequest :=
  document ← get_document;
  area ← get_tag decode_area;
  expected_version ← get_nonzero "storage mutation";
  sequence ← get_nonzero "storage sequence";
  source_url ← get_string MAX_URL_BYTES;
  operation ← get_storage_operation;
  let request := mkStorageMutationRequest document sequence source_url
                   (mkMutation area (val expected_version) operation) in
  _ ← lift (StorageMutationRequest_validate request);
  _ ← get_finish;
  mret request.
Definition put_snapshot_applied (a : StateSnapshotApplied) : Writer () :=
  _ ← lift (StateSnapshotApplied_validate a);
  _ ← put_u64 (id_value (sa_document a));
  _ ← put_u8 (snapshot_kind_tag (sa_kind a));
  put_u64 (val (sa_version a)).
Definition get_snapshot_applied : Reader StateSnapshotApplied :=
  document ← get_document;
  kind ← get_tag decode_snapshot_kind;
  version ← get_nonzero "state snapshot acknowledgement";
  let applied := mkApplied document kind version in
  _ ← lift (StateSnapshotApplied_validate applied);
  _ ← get_finish;
  mret applied.

(** ** storage_sync.rs *)
Definition put_nullable (s : option StorageString) : Writer () := put_option put_storage_string s.
Definition get_nullable : Reader (option StorageString) :=
  get_option (get_storage_string MAX_STORAGE_BYTES_PER_ORIGIN).
Definition put_change (c : StorageChange) : Writer () :=
  _ ← put_nullable (change_key c); _ ← put_nullable (old_value c); put_nullable (new_value c).
Definition get_change (version : N) : Reader StorageChange :=
  key ← get_nullable; old ← get_nullable; new ← get_nullable; mret (mkChange version key old new).
Definition put_storage_sync (s : StorageSync) : Writer () :=
  let u := sync_update s in
  _ ← lift (StorageSync_validate s);
  _ ← put_u64 (id_value (sync_document s));
  _ ← put_u8 (area_tag (update_area u));
  _ ← put_u64 (update_version u);
  _ ← put_u64 (acknowledgement u);
  _ ← put_string (update_source_url u);
  put_option put_change (update_change u).
Definition get_storage_sync : Reader StorageSync :=
  document ← get_document;
  area ← get_tag decode_area;
  version ← get_u64;
  acknowledgement ← get_u64;
  source_url ← get_string MAX_URL_BYTES;
  change ← get_option (get_change (val version));
  _ ← get_finish;
  let sync := mkStorageSync document (mkUpdate area (val version) (val acknowledgement) change (text source_url)) in
  _ ← lift (StorageSync_validate sync);
  mret sync.

(** ** What the stores keep without its Rust type *)
Definition operation_fits (op : StorageOperation) : Prop :=
  match op with Set_ k v => units_ok k /\ units_ok v | Remove k => units_ok k | Clear => True end.
Definition mutation_fits (r : StorageMutationRequest) : Prop :=
  (expected_version (smr_mutation r) <= u64_max)%N /\ operation_fits (operation (smr_mutation r)).
Definition entry_fits (e : StorageSnapshotEntry) : Prop :=
  units_ok (entry_key (sse_entry e)) /\ units_ok (entry_value (sse_entry e)).
Definition optional_units_ok (o : option StorageString) : Prop := match o with Some s => units_ok s | None => True end.
Definition change_fits (c : StorageChange) : Prop :=
  optional_units_ok (change_key c) /\ optional_units_ok (old_value c) /\ optional_units_ok (new_value c).
Definition sync_fits (s : StorageSync) : Prop :=
  let u := sync_update s in
  (update_version u <= u64_max)%N /\ (acknowledgement u <= u64_max)%N /\
  well_formed (update_source_url u) = true /\ match update_change u with Some c => change_fits c | None => True end.

(** A string takes at least as much of the quota as it has code units: the two
    units of a pair count four. *)
Lemma quota_loop_units (us : list N) (b : N) (ph : bool) :
  (b + N.of_nat (length us) <= quota_bytes_loop b ph us)%N.
Proof.
  revert b ph. induction us as [|u us IH]; intros b ph; simpl; [lia|].
  destruct (u <=? 0x7f)%N; [specialize (IH (b + 1)%N false); lia|].
  destruct (u <=? 0x7ff)%N; [specialize (IH (b + 2)%N false); lia|].
  destruct (ph && is_low u).
  - specialize (IH (b + 1)%N (is_high u)). lia.
  - specialize (IH (b + 3)%N (is_high u)). lia.
Qed.
Lemma units_within_quota (s : StorageString) : (N.of_nat (length (units s)) <= byte_len s)%N.
Proof. pose proof (quota_loop_units (units s) 0 false). unfold byte_len, quota_bytes. lia. Qed.

Lemma validate_bytes_Ok (n : N) (u : ()) : validate_bytes n = Ok u -> (n <= MAX_STORAGE_BYTES_PER_ORIGIN)%N.
Proof. unfold validate_bytes. destruct (N.ltb_spec MAX_STORAGE_BYTES_PER_ORIGIN n); [done|lia]. Qed.
Lemma stored_pair_within (k v : StorageString) (u : ()) :
  validate_bytes (saturating_add (byte_len k) (byte_len v)) = Ok u ->
  (byte_len k <= MAX_STORAGE_KEY_BYTES /\ byte_len v <= MAX_STORAGE_VALUE_BYTES)%N.
Proof.
  intros H. apply validate_bytes_Ok, N.nlt_ge in H.
  change MAX_STORAGE_KEY_BYTES with MAX_STORAGE_BYTES_PER_ORIGIN.
  change MAX_STORAGE_VALUE_BYTES with MAX_STORAGE_BYTES_PER_ORIGIN.
  rewrite saturating_add_gt in H by reflexivity. lia.
Qed.
Lemma map_invalid_Ok {A} (r : result StorageError A) (f : string) (a : A) : map_invalid r f = Ok a <-> r = Ok a.
Proof. apply map_err_Ok. Qed.

Lemma carries_stored (s : StorageString) (maximum : N) :
  units_ok s -> (byte_len s <= maximum)%N ->
  carries false (put_storage_string s) (get_storage_string maximum) s.
Proof. intros Hs Hl. pose proof (units_within_quota s). apply carries_storage_string; [done|lia]. Qed.

#[export] Hint Unfold CookieStateSnapshot_validate StorageSnapshotStart_validate StorageSnapshotEnd_validate
  StateSnapshotApplied_validate CookieMutation_validate PolicyMutation_validate StorageMutationRequest_validate
  : wire_validate.

#[export] Instance cookie_snapshot_payload : Payload put_cookie_snapshot get_cookie_snapshot anything.
Proof. intros [d v h] _. unfold put_cookie_snapshot, get_cookie_snapshot. simpl. carry. Qed.
#[export] Instance snapshot_start_payload : Payload put_snapshot_start get_snapshot_start anything.
Proof. intros [d a v n] _. unfold put_snapshot_start, get_snapshot_start. simpl. carry. Qed.
#[export] Instance snapshot_end_payload : Payload put_snapshot_end get_snapshot_end anything.
Proof. intros [d a v] _. unfold put_snapshot_end, get_snapshot_end. simpl. carry. Qed.
#[export] Instance cookie_mutation_payload : Payload put_cookie_mutation get_cookie_mutation anything.
Proof. intros [d a] _. unfold put_cookie_mutation, get_cookie_mutation. simpl. carry. Qed.
#[export] Instance policy_mutation_payload : Payload put_policy_mutation get_policy_mutation anything.
Proof. intros [d c s] _. unfold put_policy_mutation, get_policy_mutation. simpl. carry. Qed.
#[export] Instance snapshot_applied_payload : Payload put_snapshot_applied get_snapshot_applied anything.
Proof. intros [d k v] _. unfold put_snapshot_applied, get_snapshot_applied. simpl. carry. Qed.

#[export] Instance snapshot_entry_payload : Payload put_snapshot_entry get_snapshot_entry entry_fits.
Proof.
  intros [d a [k v]] [Hk Hv]. unfold put_snapshot_entry, get_snapshot_entry.
  apply carries_check. intros [] Hvalid. pose proof Hvalid as Hin.
  unfold StorageSnapshotEntry_validate in Hin. apply map_invalid_Ok in Hin.
  unfold StorageEntry_validate in Hin. apply stored_pair_within in Hin as [Hbk Hbv].
  cbn [sse_document sse_area sse_entry entry_key entry_value] in *. carry.
  eapply carries_bind; [by apply carries_stored|]. eapply carries_last; [by apply carries_stored|]. carry.
Qed.

Lemma storage_operation_carries (op : StorageOperation) (v : N) (a : StorageAreaKind) :
  operation_fits op -> StorageMutation_validate (mkMutation a v op) = Ok tt ->
  carries false (put_storage_operation op) get_storage_operation op.
Proof.
  unfold StorageMutation_validate, get_storage_operation. cbn [expected_version operation].
  intros Hop Hv. destruct (v =? 0)%N; [done|].
  destruct op as [k x|k|]; cbn [put_storage_operation operation_fits] in *; carry.
  - apply stored_pair_within in Hv as [Hbk Hbx]. destruct Hop as [Hk Hx].
    eapply carries_bind; [by apply carries_stored|eapply carries_last; [by apply carries_stored|carry]].
  - apply validate_bytes_Ok in Hv. eapply carries_last; [by apply carries_stored|carry].
Qed.

#[export] Instance storage_mutation_payload : Payload put_storage_mutation get_storage_mutation mutation_fits.
Proof.
  intros [d s u [a v op]] [Hv Hop]. unfold put_storage_mutation, get_storage_mutation.
  cbn [smr_document smr_sequence smr_source_url smr_mutation area expected_version operation] in *.
  apply carries_check. intros [] Hvalid. pose proof Hvalid as Hparts.
  unfold StorageMutationRequest_validate, reject, longer in Hparts.
  cbn [smr_document smr_sequence smr_source_url smr_mutation] in Hparts. wire_break Hparts.
  apply map_invalid_Ok in Hparts. pose proof Hparts as Hnz. unfold StorageMutation_validate in Hnz.
  cbn [expected_version] in Hnz. destruct (N.eqb_spec v 0) as [|Hv0]; [done|]. clear Hnz. carry.
  eapply carries_last; [by eapply storage_operation_carries|]. carry.
Qed.

(** The strings of a change the writer accepts are within an origin's quota. *)
Lemma nullable_carries (o : option StorageString) :
  optional_units_ok o -> (option_byte_len o <= MAX_STORAGE_BYTES_PER_ORIGIN)%N ->
  carries false (put_nullable o) get_nullable o.
Proof. intros Hu Hl. apply carries_option. intros s ->. by apply carries_stored. Qed.

Lemma StorageChange_within (c : StorageChange) (u : ()) :
  StorageChange_validate c = Ok u ->
  Forall (fun o => option_byte_len o <= MAX_STORAGE_BYTES_PER_ORIGIN)%N [change_key c; old_value c; new_value c].
Proof.
  unfold StorageChange_validate. destruct (_ || _); [done|].
  cbn [try_for_each]. intros H. apply bind_Ok in H as (? & Ho & H). apply bind_Ok in H as (? & Hn & _).
  apply validate_bytes_Ok in Ho, Hn. repeat constructor; lia.
Qed.

Lemma change_carries (c : StorageChange) :
  change_fits c -> StorageChange_validate c = Ok tt ->
  carries false (put_change c) (get_change (change_version c)) c.
Proof.
  intros (Hk & Ho & Hn) Hv. apply StorageChange_within in Hv.
  destruct c as [v k o n]. cbn [change_key old_value new_value change_version] in *.
  apply Forall_cons in Hv as [Hk' Hv]. apply Forall_cons in Hv as [Ho' Hv]. apply Forall_cons in Hv as [Hn' _].
  unfold put_change, get_change. cbn [change_key old_value new_value].
  eapply carries_bind; [by apply nullable_carries|]. eapply carries_bind; [by apply nullable_carries|].
  eapply carries_last; [by apply nullable_carries|apply carries_done].
Qed.

(** The change a valid update carries has the update's version. *)
Lemma update_change_valid (u : StorageUpdate) (c : StorageChange) :
  StorageUpdate_validate u = Ok tt -> update_change u = Some c ->
  change_version c = update_version u /\ StorageChange_validate c = Ok tt.
Proof.
  unfold StorageUpdate_validate. intros H Hc. destruct (_ || _); [done|]. rewrite Hc in H.
  destruct (N.eqb_spec (change_version c) (update_version u)); [by split|done].
Qed.
Lemma update_url_within (u : StorageUpdate) :
  StorageUpdate_validate u = Ok tt -> (byte_length (update_source_url u) <= MAX_URL_BYTES)%N.
Proof.
  unfold StorageUpdate_validate. destruct (N.ltb_spec MAX_URL_BYTES (byte_length (update_source_url u))) as [|Hle].
  - by rewrite orb_true_r.
  - intros _. lia.
Qed.

#[export] Instance storage_sync_payload : Payload put_storage_sync get_storage_sync sync_fits.
Proof.
  intros [d u] (Hv & Ha & Hu & Hc). unfold put_storage_sync, get_storage_sync. cbn [sync_document sync_update] in *.
  apply carries_check. intros [] Hvalid. pose proof Hvalid as Hin.
  unfold StorageSync_validate in Hin. apply map_invalid_Ok in Hin. cbn [sync_update] in Hin.
  pose proof (update_url_within u Hin) as Hurl.
  destruct u as [a v k c s]. cbn [update_area update_version acknowledgement update_change update_source_url] in *.
  eapply carries_bind; [solve [wire_prim]|]. eapply carries_bind; [solve [wire_prim]|].
  do 2 (eapply carries_bind; [by apply carries_u64|wire_reduce]).
  eapply carries_bind; [by apply (carries_text false s Hu)|]. eapply carries_last.
  - apply carries_option. intros c' ->. destruct (update_change_valid _ c' Hin eq_refl) as [Hver Hcv].
    cbn [update_version] in Hver. rewrite <- Hver. by apply change_carries.
  - apply carries_finish. eapply carries_skip; [exact Hvalid|]. apply carries_done.
Qed.
