(* ===== verification/SocketPayloads.v ===== *)
(** * SocketPayloads: databases and WebSockets on the pipe

    The message types of src/renderer_protocol/{database, websocket}.rs, their
    checks, and the codecs of src/renderer_protocol/codec/payload/{database,
    websocket}.rs. *)

From Stdlib Require Import Strings.Byte.
From S2P Require Import Prelude Text StrOps Limits Words Protocol WebStorage Wire WireTheory PayloadFields FetchRequest DevicePayloads.

(** ** IndexedDB and CacheStorage requests: bounded text both ways *)
Record DatabaseCommand := mkDatabaseCommand {
  dc_document : DocumentId; dc_request_id : u64; dc_client : RequestClient; dc_payload : ustring }.
Record DatabaseEvent := mkDatabaseEvent { de_document : DocumentId; de_request_id : u64; de_payload : ustring }.
Definition DatabaseCommand_validate (c : DatabaseCommand) : result ProtocolError () :=
  reject ((dc_request_id c =? 0)%N || longer (dc_payload c) MAX_INDEXED_DB_IPC_BYTES) "origin-storage request".
Definition DatabaseEvent_validate (e : DatabaseEvent) : result ProtocolError () :=
  reject ((de_request_id e =? 0)%N || longer (de_payload e) MAX_INDEXED_DB_IPC_BYTES) "origin-storage result".

Definition put_database_command (c : DatabaseCommand) : Writer () :=
  _ ← lift (DatabaseCommand_validate c);
  _ ← put_u64 (id_value (dc_document c));
  _ ← put_u64 (val (dc_request_id c));
  _ ← put_client (dc_client c);
  put_string (text (dc_payload c)).
Definition get_database_command : Reader DatabaseCommand :=
  document ← get_document;
  request_id ← get_u64;
  client ← get_client;
  payload ← get_string MAX_INDEXED_DB_IPC_BYTES;
  let command := mkDatabaseCommand document request_id client payload in
  _ ← get_finish;
  _ ← lift (DatabaseCommand_validate command);
  mret command.
Definition put_database_event (e : DatabaseEvent) : Writer () :=
  _ ← lift (DatabaseEvent_validate e);
  _ ← put_u64 (id_value (de_document e));
  _ ← put_u64 (val (de_request_id e));
  put_string (text (de_payload e)).
Definition get_database_event : Reader DatabaseEvent :=
  document ← get_document;
  request_id ← get_u64;
  payload ← get_string MAX_INDEXED_DB_IPC_BYTES;
  let event := mkDatabaseEvent document request_id payload in
  _ ← get_finish;
  _ ← lift (DatabaseEvent_validate event);
  mret event.

#[export] Hint Unfold DatabaseCommand_validate DatabaseEvent_validate : wire_validate.
#[export] Instance database_command_payload : Payload put_database_command get_database_command anything.
Proof. intros [d i c p] _. unfold put_database_command, get_database_command. simpl. carry. Qed.
#[export] Instance database_event_payload : Payload put_database_event get_database_event anything.
Proof. intros [d i p] _. unfold put_database_event, get_database_event. simpl. carry. Qed.

(** ** WebSockets *)
Inductive WebSocketOperation :=
  | WsOpen (url : ustring) (protocols : list ustring)
  | WsSend (binary : bool) (data : list byte)
  | WsClose (code : u16) (reason : ustring)
  | WsCancel.
Record WebSocketCommand := mkSocketCommand {
  wsc_document : DocumentId; wsc_socket_id : u64; wsc_client : RequestClient; wsc_operation : WebSocketOperation }.
Inductive WebSocketEventKind :=
  | WsOpened (protocol : ustring)
  | WsMessage (binary : bool) (data : list byte)
  | WsSent (bytes : u32)
  | WsError
  | WsClosed (code : u16) (reason : ustring) (clean : bool).
Record WebSocketEvent := mkSocketEvent {
  wse_document : DocumentId; wse_socket_id : u64; wse_kind : WebSocketEventKind }.

(** Separators of RFC 2616: parentheses, angle brackets, quotes and the like. *)
Definition protocol_separators : list N := [40; 41; 60; 62; 64; 44; 59; 58; 92; 34; 47; 91; 93; 63; 61; 123; 125]%N.
Definition valid_protocol (protocol : ustring) : bool :=
  negb (is_empty protocol)
  && forallb (fun b => ((0x21 <=? b) && (b <=? 0x7e))%N && negb (existsb (N.eqb b) protocol_separators))
       (Text.bytes (text protocol)).

Definition data_len (data : list byte) : N := N.of_nat (length data).
Definition WebSocketCommand_validate (c : WebSocketCommand) : result ProtocolError () :=
  _ ← reject (wsc_socket_id c =? 0)%N "WebSocket identifier";
  match wsc_operation c with
  | WsOpen url protocols =>
      reject (is_empty url || longer url MAX_URL_BYTES || (32 <? N.of_nat (length protocols))%N
              || existsb (fun p => negb (valid_protocol p)) protocols)
        "WebSocket opening parameters"
  | WsSend _ data => reject (MAX_WEBSOCKET_MESSAGE_BYTES <? data_len data)%N "WebSocket send budget"
  | WsClose code reason =>
      reject (negb ((code =? 1000) || (3000 <=? code) && (code <=? 4999))%N || longer reason 123)
        "WebSocket close parameters"
  | WsCancel => Ok tt
  end.
Definition WebSocketEvent_validate (e : WebSocketEvent) : result ProtocolError () :=
  _ ← reject (wse_socket_id e =? 0)%N "WebSocket event identifier";
  match wse_kind e with
  | WsOpened protocol =>
      reject (negb (is_empty protocol) && negb (valid_protocol protocol)) "WebSocket negotiated protocol"
  | WsMessage _ data => reject (MAX_WEBSOCKET_MESSAGE_BYTES <? data_len data)%N "WebSocket receive budget"
  | WsClosed _ reason _ => reject (longer reason 123) "WebSocket close reason"
  | _ => Ok tt
  end.

Definition put_socket_operation (op : WebSocketOperation) : Writer () :=
  match op with
  | WsOpen url protocols =>
      _ ← put_u8 1; _ ← put_string (text url);
      _ ← put_u8 (N.of_nat (length protocols) mod 256);
      put_all (fun s : ustring => put_string (text s)) protocols
  | WsSend binary data => _ ← put_u8 2; _ ← put_bool binary; put_blob data
  | WsClose code reason => _ ← put_u8 3; _ ← put_u16 (val code); put_string (text reason)
  | WsCancel => put_u8 4
  end.
Definition get_socket_operation : Reader WebSocketOperation :=
  tag ← get_u8;
  match val tag with
  | 1 =>
      url ← get_string MAX_URL_BYTES;
      count ← get_u8;
      _ ← lift (reject (32 <? val count)%N "WebSocket protocol count");
      protocols ← get_times (get_string 128) (N.to_nat (val count));
      mret (WsOpen url protocols)
  | 2 => binary ← get_bool; data ← get_blob MAX_WEBSOCKET_MESSAGE_BYTES; mret (WsSend binary data)
  | 3 => code ← get_u16; reason ← get_string 123; mret (WsClose code reason)
  | 4 => mret WsCancel
  | _ => lift (Err (InvalidPayload "WebSocket operation"))
  end%N.
Definition put_socket_command (c : WebSocketCommand) : Writer () :=
  _ ← lift (WebSocketCommand_validate c);
  _ ← put_u64 (id_value (wsc_document c));
  _ ← put_u64 (val (wsc_socket_id c));
  _ ← put_client (wsc_client c);
  put_socket_operation (wsc_operation c).
Definition get_socket_command : Reader WebSocketCommand :=
  document ← get_document;
  socket_id ← get_u64;
  client ← get_client;
  operation ← get_socket_operation;
  _ ← get_finish;
  let command := mkSocketCommand document socket_id client operation in
  _ ← lift (WebSocketCommand_validate command);
  mret command.

Definition put_socket_kind (k : WebSocketEventKind) : Writer () :=
  match k with
  | WsOpened protocol => _ ← put_u8 1; put_string (text protocol)
  | WsMessage binary data => _ ← put_u8 2; _ ← put_bool binary; put_blob data
  | WsSent bytes => _ ← put_u8 5; put_u32 (val bytes)
  | WsError => put_u8 3
  | WsClosed code reason clean =>
      _ ← put_u8 4; _ ← put_u16 (val code); _ ← put_string (text reason); put_bool clean
  end.
Definition get_socket_kind : Reader WebSocketEventKind :=
  tag ← get_u8;
  match val tag with
  | 1 => protocol ← get_string 128; mret (WsOpened protocol)
  | 2 => binary ← get_bool; data ← get_blob MAX_WEBSOCKET_MESSAGE_BYTES; mret (WsMessage binary data)
  | 3 => mret WsError
  | 5 => bytes ← get_u32; mret (WsSent bytes)
  | 4 => code ← get_u16; reason ← get_string 123; clean ← get_bool; mret (WsClosed code reason clean)
  | _ => lift (Err (InvalidPayload "WebSocket event kind"))
  end%N.
Definition put_socket_event (e : WebSocketEvent) : Writer () :=
  _ ← lift (WebSocketEvent_validate e);
  _ ← put_u64 (id_value (wse_document e));
  _ ← put_u64 (val (wse_socket_id e));
  put_socket_kind (wse_kind e).
Definition get_socket_event : Reader WebSocketEvent :=
  document ← get_document;
  socket_id ← get_u64;
  kind ← get_socket_kind;
  _ ← get_finish;
  let event := mkSocketEvent document socket_id kind in
  _ ← lift (WebSocketEvent_validate event);
  mret event.

(** The writer does not bound the length of a subprotocol; the reader stops at
    128 bytes. *)
Definition socket_command_fits (c : WebSocketCommand) : Prop :=
  match wsc_operation c with
  | WsOpen _ protocols => Forall (fun p : ustring => byte_length p <= 128)%N protocols
  | _ => True
  end.
Definition socket_event_fits (e : WebSocketEvent) : Prop :=
  match wse_kind e with WsOpened protocol => (byte_length protocol <= 128)%N | _ => True end.

#[export] Hint Unfold WebSocketCommand_validate WebSocketEvent_validate data_len : wire_validate.
#[export] Instance socket_command_payload : Payload put_socket_command get_socket_command socket_command_fits.
Proof.
  intros [d i c op] Hfit. unfold put_socket_command, get_socket_command, get_socket_operation, socket_command_fits in *.
  cbn [wsc_document wsc_socket_id wsc_client wsc_operation] in *. carry.
  destruct op as [url ps|b x|code r|]; cbn [put_socket_operation] in *; wire_break Hparts;
    (eapply carries_last; [carry|carry]).
  rewrite N.mod_small by lia. carry. rewrite Nat2N.id.
  eapply carries_last; [by apply carries_strings|carry].
Qed.
#[export] Instance socket_event_payload : Payload put_socket_event get_socket_event socket_event_fits.
Proof.
  intros [d i k] Hfit. unfold put_socket_event, get_socket_event, get_socket_kind, socket_event_fits in *.
  cbn [wse_document wse_socket_id wse_kind] in *. carry.
  destruct k as [p|b x|n| |code r cl]; cbn [put_socket_kind] in *; wire_break Hparts;
    (eapply carries_last; [carry|carry]).
Qed.

(** The difference shows: a subprotocol of 129 bytes passes every check of the
    renderer and is refused by the browser's reader. *)
Definition unreadable (c : WebSocketCommand) : bool :=
  match written (put_socket_command c) with
  | Ok p => match read_from get_socket_command p with Err (InvalidPayload f) => String.eqb f "wire string budget" | _ => false end
  | Err _ => false
  end.
Definition plain (s : string) : ustring := default (Str EmptyString eq_refl) (to_ustring s).
Definition socket_one : DocumentId := NonzeroId (to_word _ 1) eq_refl.
Definition long_subprotocol : WebSocketCommand :=
  mkSocketCommand socket_one (to_word _ 1) (mkClient (to_word _ 1) false)
    (WsOpen (plain "wss://a/") [plain (of_bytes (repeat 97%N 129))]).
Lemma long_subprotocol_unreadable :
  exists c p, written (put_socket_command c) = Ok p /\
              read_from get_socket_command p = Err (InvalidPayload "wire string budget").
Proof.
  assert (unreadable long_subprotocol = true) as H by (vm_compute; reflexivity).
  exists long_subprotocol. unfold unreadable in H.
  destruct (written (put_socket_command long_subprotocol)) as [p|e]; [|discriminate H].
  exists p. split; [reflexivity|]. destruct (read_from get_socket_command p) as [c|[]]; try discriminate H.
  apply String.eqb_eq in H. by subst.
Qed.
