(* ===== verification/Transfers.v ===== *)
(** * Transfers: chunks put together again

    Bulk bytes cross the pipe as chunks: [TransferChunk] with its two assemblers
    (src/renderer_protocol/document.rs), the pixels of a video frame (video.rs)
    and the files of a picker (file_picker.rs). Each assembler is its state and
    its [push], and the theorems say which sequences of chunks it accepts and
    what it makes of them. *)

From Stdlib Require Import Strings.Byte.
From S2P Require Import Prelude Text Limits Words Protocol Wire WireTheory PayloadFields FramePayloads.

(** ** Chunks (document.rs) *)
Record TransferChunk := mkChunk { tc_transfer_id : u64; tc_offset : u32; tc_bytes : list byte }.
Definition len {A} (l : list A) : N := N.of_nat (length l).

Record TransferAssembler := mkAssembler { ta_transfer_id : u64; ta_expected : u64; ta_bytes : list byte }.
Definition TransferAssembler_new (transfer_id expected maximum : u64) : result ProtocolError TransferAssembler :=
  if ((transfer_id =? 0) || (maximum <? expected))%N then Err (InvalidPayload "transfer declaration")
  else Ok (mkAssembler transfer_id expected []).
Definition TransferAssembler_push (a : TransferAssembler) (c : TransferChunk)
    : TransferAssembler * result ProtocolError () :=
  if negb (val (tc_transfer_id c) =? ta_transfer_id a)%N || negb (val (tc_offset c) =? len (ta_bytes a))%N
  then (a, Err (InvalidPayload "transfer offset"))
  else
    match checked_add (len (ta_bytes a)) (len (tc_bytes c)) with
    | None => (a, Err (InvalidPayload "transfer length"))
    | Some next =>
        if (ta_expected a <? next)%N then (a, Err (InvalidPayload "transfer overflow"))
        else (mkAssembler (ta_transfer_id a) (ta_expected a) (ta_bytes a ++ tc_bytes c), Ok tt)
    end.
Definition TransferAssembler_finish (a : TransferAssembler) (transfer_id : u64) : result ProtocolError (list byte) :=
  if negb (val transfer_id =? ta_transfer_id a)%N || negb (len (ta_bytes a) =? ta_expected a)%N
  then Err (InvalidPayload "incomplete transfer") else Ok (ta_bytes a).

Record StreamingTransferAssembler := mkStreaming { sta_transfer_id : u64; sta_maximum : u64; sta_bytes : list byte }.
Definition StreamingTransferAssembler_new (transfer_id maximum : u64)
    : result ProtocolError StreamingTransferAssembler :=
  if (transfer_id =? 0)%N then Err (InvalidPayload "stream transfer declaration")
  else Ok (mkStreaming transfer_id maximum []).
Definition StreamingTransferAssembler_push (a : StreamingTransferAssembler) (c : TransferChunk)
    : StreamingTransferAssembler * result ProtocolError () :=
  if negb (val (tc_transfer_id c) =? sta_transfer_id a)%N || negb (val (tc_offset c) =? len (sta_bytes a))%N
  then (a, Err (InvalidPayload "stream transfer offset"))
  else
    match checked_add (len (sta_bytes a)) (len (tc_bytes c)) with
    | None => (a, Err (InvalidPayload "stream transfer length"))
    | Some next =>
        if (sta_maximum a <? next)%N then (a, Err (InvalidPayload "stream transfer overflow"))
        else (mkStreaming (sta_transfer_id a) (sta_maximum a) (sta_bytes a ++ tc_bytes c), Ok tt)
    end.
Definition StreamingTransferAssembler_finish (a : StreamingTransferAssembler) (transfer_id total_length : u64)
    : result ProtocolError (list byte) :=
  if negb (val transfer_id =? sta_transfer_id a)%N || negb (val total_length =? len (sta_bytes a))%N
     || (sta_maximum a <? total_length)%N
  then Err (InvalidPayload "incomplete stream transfer") else Ok (sta_bytes a).

(** Pushing until one is refused, as the callers' [?] does. *)
Fixpoint push_all {A C} (push : A -> C -> A * result ProtocolError ()) (a : A) (cs : list C)
    : A * result ProtocolError () :=
  match cs with
  | [] => (a, Ok tt)
  | c :: cs => match push a c with (a, Ok _) => push_all push a cs | (a, Err e) => (a, Err e) end
  end.

(** ** What a transfer should be: one identifier, the offsets without a gap *)
Fixpoint contiguous {C} (offset : C -> N) (data : C -> list byte) (from : N) (cs : list C) : Prop :=
  match cs with
  | [] => True
  | c :: cs => offset c = from /\ contiguous offset data (from + len (data c)) cs
  end.
Definition well_sent (id : u64) (from : N) (cs : list TransferChunk) : Prop :=
  Forall (fun c => val (tc_transfer_id c) = id) cs
  /\ contiguous (fun c => val (tc_offset c)) tc_bytes from cs.
Definition contents (cs : list TransferChunk) : list byte := cs ≫= tc_bytes.

Lemma len_app {A} (l k : list A) : len (l ++ k) = (len l + len k)%N.
Proof. unfold len. rewrite length_app. lia. Qed.
Lemma well_sent_cons (id : u64) (from : N) (c : TransferChunk) (cs : list TransferChunk) :
  well_sent id from (c :: cs) <->
  val (tc_transfer_id c) = id /\ val (tc_offset c) = from /\ well_sent id (from + len (tc_bytes c)) cs.
Proof. unfold well_sent. rewrite Forall_cons. simpl. tauto. Qed.

(** A push is accepted when the chunk continues the transfer within the limit. *)
Lemma push_accepts (a a' : TransferAssembler) (c : TransferChunk) (u : ()) :
  TransferAssembler_push a c = (a', Ok u) <->
  val (tc_transfer_id c) = ta_transfer_id a /\ val (tc_offset c) = len (ta_bytes a)
  /\ (len (ta_bytes a ++ tc_bytes c) <= ta_expected a)%N
  /\ a' = mkAssembler (ta_transfer_id a) (ta_expected a) (ta_bytes a ++ tc_bytes c).
Proof.
  unfold TransferAssembler_push, checked_add. rewrite len_app. destruct u. pose proof (val_le (ta_expected a)).
  destruct (N.eqb_spec (val (tc_transfer_id c)) (ta_transfer_id a)); simpl; [|naive_solver].
  destruct (N.eqb_spec (val (tc_offset c)) (len (ta_bytes a))); simpl; [|naive_solver].
  destruct (N.leb_spec (len (ta_bytes a) + len (tc_bytes c)) u64_max);
    [destruct (N.ltb_spec (ta_expected a) (len (ta_bytes a) + len (tc_bytes c)))|];
    (split; [intros [=]; subst|intros (? & ? & ? & ->)]); first [done|lia|by split_and!].
Qed.
Lemma stream_push_accepts (a a' : StreamingTransferAssembler) (c : TransferChunk) (u : ()) :
  StreamingTransferAssembler_push a c = (a', Ok u) <->
  val (tc_transfer_id c) = sta_transfer_id a /\ val (tc_offset c) = len (sta_bytes a)
  /\ (len (sta_bytes a ++ tc_bytes c) <= sta_maximum a)%N
  /\ a' = mkStreaming (sta_transfer_id a) (sta_maximum a) (sta_bytes a ++ tc_bytes c).
Proof.
  unfold StreamingTransferAssembler_push, checked_add. rewrite len_app. destruct u.
  pose proof (val_le (sta_maximum a)).
  destruct (N.eqb_spec (val (tc_transfer_id c)) (sta_transfer_id a)); simpl; [|naive_solver].
  destruct (N.eqb_spec (val (tc_offset c)) (len (sta_bytes a))); simpl; [|naive_solver].
  destruct (N.leb_spec (len (sta_bytes a) + len (tc_bytes c)) u64_max);
    [destruct (N.ltb_spec (sta_maximum a) (len (sta_bytes a) + len (tc_bytes c)))|];
    (split; [intros [=]; subst|intros (? & ? & ? & ->)]); first [done|lia|by split_and!].
Qed.

(** Both assemblers, as one: what [push] accepts, chunk by chunk. *)
Section runs.
Context {A : Type} (push : A -> TransferChunk -> A * result ProtocolError ()).
Context (ident limit : A -> u64) (bytes_of : A -> list byte) (holding : A -> list byte -> A).
Context (Hpush : forall a a' c u, push a c = (a', Ok u) <->
  val (tc_transfer_id c) = ident a /\ val (tc_offset c) = len (bytes_of a)
  /\ (len (bytes_of a ++ tc_bytes c) <= limit a)%N /\ a' = holding a (bytes_of a ++ tc_bytes c)).
Context (Hident : forall a l, ident (holding a l) = ident a) (Hlimit : forall a l, limit (holding a l) = limit a).
Context (Hbytes : forall a l, bytes_of (holding a l) = l) (Hsame : forall a, holding a (bytes_of a) = a).
Context (Htwice : forall a l k, holding (holding a l) k = holding a k).

Lemma push_all_accepts (a a' : A) (cs : list TransferChunk) (u : ()) :
  (len (bytes_of a) <= limit a)%N ->
  push_all push a cs = (a', Ok u) <->
  well_sent (ident a) (len (bytes_of a)) cs /\ (len (bytes_of a ++ contents cs) <= limit a)%N
  /\ a' = holding a (bytes_of a ++ contents cs).
Proof.
  revert a a'. induction cs as [|c cs IH]; intros a a' Hl.
  - unfold contents. cbn [push_all]. change ([] ≫= tc_bytes) with (@nil byte). rewrite app_nil_r, Hsame. destruct u.
    split; [intros [=->]; repeat split; [constructor|done]|by intros (_ & _ & ->)].
  - rewrite well_sent_cons. change (contents (c :: cs)) with (tc_bytes c ++ contents cs).
    rewrite (app_assoc (bytes_of a)). cbn [push_all]. destruct (push a c) as [b [v|e]] eqn:Hc.
    + apply Hpush in Hc as (Hi & Ho & Hn & ->). rewrite IH by (by rewrite Hbytes, Hlimit).
      rewrite Hident, Hlimit, Hbytes, Htwice, len_app. tauto.
    + split; [by intros [=]|]. intros ((Hi & Ho & _) & Hn & _).
      assert (push a c = (holding a (bytes_of a ++ tc_bytes c), Ok tt)) as Hd.
      { apply Hpush. split_and!; try done. rewrite len_app in Hn. lia. }
      congruence.
Qed.
End runs.

(** C34. A transfer is delivered exactly when every chunk carries its identifier,
    the chunks follow one another from offset 0 without gap or overlap, and their
    bytes are as many as were declared; what is delivered is those bytes in order. *)
Theorem transfer_delivers (transfer_id expected maximum : u64) (a : TransferAssembler)
    (cs : list TransferChunk) (id : u64) (l : list byte) :
  TransferAssembler_new transfer_id expected maximum = Ok a ->
  (exists a', push_all TransferAssembler_push a cs = (a', Ok tt) /\ TransferAssembler_finish a' id = Ok l) <->
  id = transfer_id /\ well_sent transfer_id 0 cs /\ len l = expected /\ l = contents cs.
Proof.
  unfold TransferAssembler_new. destruct (_ || _); [done|]. intros [= <-].
  assert (forall a', push_all TransferAssembler_push (mkAssembler transfer_id expected []) cs = (a', Ok tt) <->
    well_sent transfer_id 0 cs /\ (len (contents cs) <= expected)%N
    /\ a' = mkAssembler transfer_id expected (contents cs)) as Hrun.
  { intros a'. rewrite (push_all_accepts _ ta_transfer_id ta_expected ta_bytes
      (fun a l => mkAssembler (ta_transfer_id a) (ta_expected a) l)); try done.
    - apply push_accepts.
    - by intros [].
    - unfold len. simpl. lia. }
  unfold TransferAssembler_finish. split.
  - intros (a' & (Hw & Hn & ->)%Hrun & Hf). simpl in Hf.
    destruct (N.eqb_spec (val id) transfer_id) as [Hid|]; [|done].
    destruct (N.eqb_spec (len (contents cs)) expected) as [He|]; [|done]. injection Hf as <-.
    split_and!; [by apply word_eq|done..].
  - intros (-> & Hw & He & ->). eexists. split; [apply Hrun; split_and!; [done| |reflexivity]; lia|].
    simpl. by rewrite He, !N.eqb_refl.
Qed.

Lemma transfer_delivers_witness :
  let id := to_word u64_max 3 in let two := to_word u64_max 2 in
  let cs := [mkChunk id (to_word _ 0) [x01]; mkChunk id (to_word _ 1) [x02]] in
  exists a, TransferAssembler_new id two two = Ok a /\
  ((exists a', push_all TransferAssembler_push a cs = (a', Ok tt) /\ TransferAssembler_finish a' id = Ok [x01; x02]) <->
   id = id /\ well_sent id 0 cs /\ len [x01; x02] = two /\ [x01; x02] = contents cs).
Proof.
  intros id two cs. eexists. split; [vm_compute; reflexivity|].
  apply (transfer_delivers id two two). vm_compute. reflexivity.
Defined.

(** A streamed transfer is delivered exactly when its chunks follow one
    another, stay within the maximum, and amount to the length its end declares. *)
Theorem stream_delivers (transfer_id maximum : u64) (a : StreamingTransferAssembler)
    (cs : list TransferChunk) (id total : u64) (l : list byte) :
  StreamingTransferAssembler_new transfer_id maximum = Ok a ->
  (exists a', push_all StreamingTransferAssembler_push a cs = (a', Ok tt)
              /\ StreamingTransferAssembler_finish a' id total = Ok l) <->
  id = transfer_id /\ well_sent transfer_id 0 cs /\ (len l <= maximum)%N /\ len l = total /\ l = contents cs.
Proof.
  unfold StreamingTransferAssembler_new. destruct (_ =? 0)%N; [done|]. intros [= <-].
  assert (forall a', push_all StreamingTransferAssembler_push (mkStreaming transfer_id maximum []) cs = (a', Ok tt) <->
    well_sent transfer_id 0 cs /\ (len (contents cs) <= maximum)%N
    /\ a' = mkStreaming transfer_id maximum (contents cs)) as Hrun.
  { intros a'. rewrite (push_all_accepts _ sta_transfer_id sta_maximum sta_bytes
      (fun a l => mkStreaming (sta_transfer_id a) (sta_maximum a) l)); try done.
    - apply stream_push_accepts.
    - by intros [].
    - unfold len. simpl. lia. }
  unfold StreamingTransferAssembler_finish. split.
  - intros (a' & (Hw & Hn & ->)%Hrun & Hf). simpl in Hf.
    destruct (N.eqb_spec (val id) transfer_id) as [Hid|]; [|done].
    destruct (N.eqb_spec (val total) (len (contents cs))) as [He|]; [|done].
    destruct (maximum <? total)%N; [done|]. injection Hf as <-. split_and!; [by apply word_eq|done..].
  - intros (-> & Hw & Hn & He & ->). eexists. split; [apply Hrun; by split_and!|].
    simpl. rewrite He, !N.eqb_refl. simpl. by replace (maximum <? total)%N with false by lia.
Qed.

(** ** Video frames (video.rs) *)
Record VideoFrameUpdate := mkVideoUpdate { vu_identity : VideoFrameIdentity; vu_pixels : list byte }.
Record VideoFrameAssembler := mkVideoAssembler { va_pending : option (VideoFrameIdentity * list byte) }.
Definition VideoFrameAssembler_default : VideoFrameAssembler := mkVideoAssembler None.
Definition VideoFrameAssembler_push (a : VideoFrameAssembler) (c : VideoFrameChunk)
    : VideoFrameAssembler * result ProtocolError (option VideoFrameUpdate) :=
  match VideoFrameChunk_validate c with
  | Err e => (a, Err e)
  | Ok _ =>
      let started :=
        match va_pending a with
        | None => if (val (vc_offset c) =? 0)%N then Some (vc_identity c, []) else None
        | Some p => Some p
        end in
      match started with
      | None => (a, Err (InvalidPayload "video chunk without start"))
      | Some (frame, pixels) =>
          if negb (bool_decide (frame = vc_identity c)) || negb (len pixels =? val (vc_offset c))%N
          then (mkVideoAssembler started, Err (InvalidPayload "video chunk identity or offset"))
          else
            let pixels := pixels ++ vc_bytes c in
            match VideoFrameIdentity_byte_length frame with
            | Err e => (mkVideoAssembler (Some (frame, pixels)), Err e)
            | Ok total =>
                if negb (len pixels =? total)%N then (mkVideoAssembler (Some (frame, pixels)), Ok None)
                else (mkVideoAssembler None, Ok (Some (mkVideoUpdate frame pixels)))
            end
      end
  end.
(** The browser gives every chunk to the assembler and stops at the first error. *)
Fixpoint video_run (a : VideoFrameAssembler) (cs : list VideoFrameChunk)
    : VideoFrameAssembler * result ProtocolError (list VideoFrameUpdate) :=
  match cs with
  | [] => (a, Ok [])
  | c :: cs =>
      match VideoFrameAssembler_push a c with
      | (a, Err e) => (a, Err e)
      | (a, Ok o) =>
          match video_run a cs with
          | (a, Ok us) => (a, Ok (match o with Some u => u :: us | None => us end))
          | (a, Err e) => (a, Err e)
          end
      end
  end.

(** A frame and the chunks it is made of. *)
Definition of_frame (i : VideoFrameIdentity) (cs : list VideoFrameChunk) : Prop :=
  Forall (fun c => VideoFrameChunk_validate c = Ok tt /\ vc_identity c = i) cs.
Definition run_from (from : N) (cs : list VideoFrameChunk) : Prop :=
  contiguous (fun c => val (vc_offset c)) vc_bytes from cs.
Definition pixels_of (cs : list VideoFrameChunk) : list byte := cs ≫= vc_bytes.
Definition whole (u : VideoFrameUpdate) (cs : list VideoFrameChunk) : Prop :=
  of_frame (vu_identity u) cs /\ run_from 0 cs /\ vu_pixels u = pixels_of cs /\ cs <> []
  /\ VideoFrameIdentity_byte_length (vu_identity u) = Ok (len (vu_pixels u)).
(** What the assembler holds between two chunks. *)
Definition holds (a : VideoFrameAssembler) (cs : list VideoFrameChunk) : Prop :=
  match va_pending a with
  | None => cs = []
  | Some (i, px) => of_frame i cs /\ run_from 0 cs /\ px = pixels_of cs /\ cs <> []
  end.

Lemma contiguous_app {C} (offset : C -> N) (data : C -> list byte) (from : N) (cs ds : list C) :
  contiguous offset data from (cs ++ ds) <->
  contiguous offset data from cs /\ contiguous offset data (from + len (cs ≫= data)) ds.
Proof.
  revert from. induction cs as [|c cs IH]; intros from; cbn [contiguous app].
  - change ([] ≫= data) with (@nil byte). unfold len at 1. simpl. rewrite N.add_0_r. tauto.
  - change ((c :: cs) ≫= data) with (data c ++ (cs ≫= data)). rewrite IH, len_app, N.add_assoc. tauto.
Qed.
Lemma pixels_app (cs ds : list VideoFrameChunk) : pixels_of (cs ++ ds) = pixels_of cs ++ pixels_of ds.
Proof. apply bind_app. Qed.
Lemma pixels_snoc (cs : list VideoFrameChunk) (c : VideoFrameChunk) : pixels_of (cs ++ [c]) = pixels_of cs ++ vc_bytes c.
Proof. rewrite pixels_app. unfold pixels_of at 2. simpl. by rewrite app_nil_r. Qed.

(** One more chunk joins what is held. *)
Lemma holds_join (i : VideoFrameIdentity) (cs : list VideoFrameChunk) (c : VideoFrameChunk) :
  of_frame i cs -> run_from 0 cs -> VideoFrameChunk_validate c = Ok tt -> i = vc_identity c ->
  len (pixels_of cs) = val (vc_offset c) ->
  of_frame i (cs ++ [c]) /\ run_from 0 (cs ++ [c]) /\ pixels_of cs ++ vc_bytes c = pixels_of (cs ++ [c]) /\ cs ++ [c] <> [].
Proof.
  intros Hf Hr Hv Hi Hl. split_and!.
  - apply Forall_app. split; [done|]. by repeat constructor.
  - apply contiguous_app. split; [done|]. simpl. split; [|done]. unfold pixels_of in Hl. by rewrite Hl.
  - by rewrite pixels_snoc.
  - by destruct cs.
Qed.

Lemma video_push_step (a a' : VideoFrameAssembler) (c : VideoFrameChunk) (cs : list VideoFrameChunk)
    (o : option VideoFrameUpdate) :
  holds a cs -> VideoFrameAssembler_push a c = (a', Ok o) ->
  match o with
  | None => holds a' (cs ++ [c])
  | Some u => a' = VideoFrameAssembler_default /\ whole u (cs ++ [c])
  end.
Proof.
  unfold VideoFrameAssembler_push. intros Hh. destruct (VideoFrameChunk_validate c) as [[]|] eqn:Hv; [|done].
  destruct (match va_pending a with None => _ | Some p => Some p end) as [[i px]|] eqn:Hs; [|done].
  assert (of_frame i cs /\ run_from 0 cs /\ px = pixels_of cs) as (Hf & Hr & ->).
  { unfold holds in Hh. destruct (va_pending a) as [[j qx]|].
    - injection Hs as <- <-. naive_solver.
    - destruct (_ =? 0)%N; [|done]. injection Hs as <- <-. subst cs. by split_and!; [constructor| |]. }
  destruct (bool_decide_reflect (i = vc_identity c)) as [Hi|]; [|done]. simpl.
  destruct (N.eqb_spec (len (pixels_of cs)) (vc_offset c)) as [Hl|]; [|done]. simpl.
  pose proof (holds_join i cs c Hf Hr Hv Hi Hl) as (Hf' & Hr' & Hp & Hne).
  destruct (VideoFrameIdentity_byte_length i) as [total|] eqn:Ht; [|done].
  destruct (N.eqb_spec (len (pixels_of cs ++ vc_bytes c)) total) as [He|]; intros [= <- <-]; [|done].
  split; [done|]. unfold whole. simpl. by rewrite He.
Qed.

(** C35. Every frame the assembler gives out is made of consecutive chunks of one
    frame, from offset 0, without gap, overlap or a chunk of another frame, and has
    exactly the bytes its dimensions ask for. *)
Theorem video_frames_whole (cs : list VideoFrameChunk) (a : VideoFrameAssembler) (us : list VideoFrameUpdate) :
  video_run VideoFrameAssembler_default cs = (a, Ok us) ->
  exists parts rest, cs = concat parts ++ rest /\ Forall2 whole us parts /\ holds a rest.
Proof.
  change cs with ([] ++ cs) at 2. assert (holds VideoFrameAssembler_default []) as Hh by done.
  revert Hh. generalize (@nil VideoFrameChunk) as cur. generalize VideoFrameAssembler_default as b.
  revert a us. induction cs as [|c cs IH]; intros a us b cur Hh; cbn [video_run].
  - intros [= <- <-]. exists [], cur. rewrite app_nil_r. by split_and!; [|constructor|].
  - destruct (VideoFrameAssembler_push b c) as [b' [o|e]] eqn:Hp; [|done].
    destruct (video_run b' cs) as [b'' [vs|e]] eqn:Hr; [|done]. intros [= <- <-].
    pose proof (video_push_step b b' c cur o Hh Hp) as Hstep. destruct o as [u|].
    + destruct Hstep as [-> Hw]. destruct (IH _ _ VideoFrameAssembler_default [] eq_refl Hr) as (ps & rest & E & HF & Hr').
      exists ((cur ++ [c]) :: ps), rest. simpl in *. subst cs.
      split_and!; [by rewrite <- !app_assoc|by constructor|done].
    + destruct (IH _ _ b' (cur ++ [c]) Hstep Hr) as (ps & rest & E & HF & Hr').
      exists ps, rest. rewrite <- E, <- app_assoc. by split_and!.
Qed.

Lemma video_frames_whole_witness :
  let one32 := to_word 4294967295 1 in let one64 := to_word u64_max 1 in
  let i := mkVideoIdentity (NonzeroId one64 eq_refl) one64 one64 (to_word u128_max 1) one32 one32 in
  let cs := [mkVideoChunk i (to_word _ 0) [x01; x02; x03]; mkVideoChunk i (to_word _ 3) [x04]] in
  exists a us, video_run VideoFrameAssembler_default cs = (a, Ok us) /\ length us = 1%nat /\
  exists parts rest, cs = concat parts ++ rest /\ Forall2 whole us parts /\ holds a rest.
Proof.
  intros one32 one64 i cs. eexists _, _. split; [vm_compute; reflexivity|]. split; [reflexivity|].
  apply video_frames_whole. vm_compute. reflexivity.
Defined.

Lemma chunk_nonempty (c : VideoFrameChunk) : VideoFrameChunk_validate c = Ok tt -> len (vc_bytes c) <> 0%N.
Proof.
  unfold VideoFrameChunk_validate. intros (t & _ & H)%bind_Ok. unfold reject in H. apply ensure_Ok in H.
  intros E. unfold len in E. by rewrite E in H.
Qed.
Lemma rest_nonempty (i : VideoFrameIdentity) (c : VideoFrameChunk) (ds : list VideoFrameChunk) :
  of_frame i (c :: ds) -> len (pixels_of (c :: ds)) <> 0%N.
Proof.
  intros [[Hc _] _]%Forall_cons. apply chunk_nonempty in Hc.
  change (pixels_of (c :: ds)) with (vc_bytes c ++ pixels_of ds). rewrite len_app. lia.
Qed.

Lemma video_push_continues (a : VideoFrameAssembler) (i : VideoFrameIdentity) (px : list byte) (c : VideoFrameChunk) (total : N) :
  va_pending a = Some (i, px) \/ (va_pending a = None /\ px = []) ->
  VideoFrameChunk_validate c = Ok tt -> vc_identity c = i -> val (vc_offset c) = len px ->
  VideoFrameIdentity_byte_length i = Ok total ->
  VideoFrameAssembler_push a c =
    if negb (len (px ++ vc_bytes c) =? total)%N
    then (mkVideoAssembler (Some (i, px ++ vc_bytes c)), Ok None)
    else (VideoFrameAssembler_default, Ok (Some (mkVideoUpdate i (px ++ vc_bytes c)))).
Proof.
  intros Ha Hv Hi Ho Ht. unfold VideoFrameAssembler_push. rewrite Hv.
  assert (match va_pending a with None => if (val (vc_offset c) =? 0)%N then Some (vc_identity c, []) else None
          | Some p => Some p end = Some (i, px)) as ->.
  { destruct Ha as [->|[-> ->]]; [done|]. rewrite Ho. unfold len. simpl. by rewrite Hi. }
  rewrite bool_decide_true by done. rewrite Ho, N.eqb_refl. simpl. by rewrite Ht.
Qed.

Lemma video_run_frame (ds more : list VideoFrameChunk) (a : VideoFrameAssembler) (i : VideoFrameIdentity)
    (cs : list VideoFrameChunk) :
  va_pending a = Some (i, pixels_of cs) \/ (va_pending a = None /\ pixels_of cs = []) ->
  of_frame i ds -> run_from (len (pixels_of cs)) ds -> ds <> [] ->
  VideoFrameIdentity_byte_length i = Ok (len (pixels_of (cs ++ ds))) ->
  video_run a (ds ++ more) =
    match video_run VideoFrameAssembler_default more with
    | (b, Ok us) => (b, Ok (mkVideoUpdate i (pixels_of (cs ++ ds)) :: us))
    | r => r
    end.
Proof.
  revert a cs. induction ds as [|c ds IH]; intros a cs Ha Hf Hr Hne Ht; [done|].
  apply Forall_cons in Hf as [[Hv Hi] Hf]. destruct Hr as [Ho Hr]. cbn [video_run app].
  rewrite (video_push_continues a i (pixels_of cs) c _ Ha Hv Hi Ho Ht). rewrite <- pixels_snoc.
  destruct ds as [|d ds].
  - rewrite N.eqb_refl. simpl. destruct (video_run VideoFrameAssembler_default more) as [b [us|e]]; done.
  - replace (cs ++ c :: d :: ds) with ((cs ++ [c]) ++ d :: ds) in Ht |- * by (by rewrite <- app_assoc).
    assert (len (pixels_of (cs ++ [c])) <> len (pixels_of ((cs ++ [c]) ++ d :: ds))) as Hlt.
    { pose proof (rest_nonempty i d ds Hf) as Hd. rewrite (pixels_app (cs ++ [c])), len_app. lia. }
    apply N.eqb_neq in Hlt. rewrite Hlt. simpl negb. cbv iota.
    rewrite (IH (mkVideoAssembler (Some (i, pixels_of (cs ++ [c])))) (cs ++ [c])); try done.
    + destruct (video_run VideoFrameAssembler_default more) as [b [us|e]]; done.
    + by left.
    + rewrite pixels_snoc, len_app. exact Hr.
Qed.

(** Every sequence of whole frames, each cut into valid chunks in any way and
    sent in order, comes out as exactly those frames. *)
Theorem video_frames_delivered (us : list VideoFrameUpdate) (parts : list (list VideoFrameChunk)) :
  Forall2 whole us parts -> video_run VideoFrameAssembler_default (concat parts) = (VideoFrameAssembler_default, Ok us).
Proof.
  intros H. induction H as [|[i px] ds us parts (Hf & Hr & Hp & Hne & Ht) _ IH]; [done|]. simpl in *. subst px.
  rewrite (video_run_frame ds (concat parts) VideoFrameAssembler_default i []); try done.
  - by rewrite IH.
  - by right.
Qed.
