(* ===== verification/FileSelection.v ===== *)
(** * FileSelection: the files of a picker, put together from the pipe

    [FileSelectionAssembler] of src/renderer_protocol/file_picker.rs: one pending
    reply, its files filled chunk by chunk, and the theorem that says exactly
    which streams become a selection and which one. *)

From Stdlib Require Import Strings.Byte.
From S2P Require Import Prelude Text Limits Words Protocol Wire WireTheory PayloadFields FramePayloads Transfers.

Record SelectedFile := mkSelectedFile { sel_metadata : SelectedFileMetadata; sel_bytes : list byte }.
Inductive FilePickerSelection := Selected (files : list SelectedFile) | SelectionCanceled | SelectionFailed.
Record FileSelectionAssembler := mkSelection {
  fsa_document : DocumentId; fsa_request_id : u64; fsa_files : option (list SelectedFile);
  next_file : nat; finished : bool }.
Definition FileSelectionAssembler_new (document : DocumentId) (request_id : u64) : FileSelectionAssembler :=
  mkSelection document request_id None 0 false.

Definition is_full (f : SelectedFile) : bool := (len (sel_bytes f) =? sf_size (sel_metadata f))%N.
(** The loop of [skip_empty_files] from a position: how far it moves. *)
Fixpoint full_prefix (files : list SelectedFile) : nat :=
  match files with f :: files => if is_full f then S (full_prefix files) else 0 | [] => 0 end.
Definition skip_empty_files (a : FileSelectionAssembler) : FileSelectionAssembler :=
  match fsa_files a with
  | None => a
  | Some files =>
      mkSelection (fsa_document a) (fsa_request_id a) (Some files)
        (next_file a + full_prefix (drop (next_file a) files)) (finished a)
  end.
Definition with_files (a : FileSelectionAssembler) (files : option (list SelectedFile)) (done : bool)
    : FileSelectionAssembler :=
  mkSelection (fsa_document a) (fsa_request_id a) files (next_file a) done.

Definition push_inner (a : FileSelectionAssembler) (u : FilePickerUpdate)
    : FileSelectionAssembler * result ProtocolError (option FilePickerSelection) :=
  match FilePickerUpdate_validate u with
  | Err e => (a, Err e)
  | Ok _ =>
      if finished a || negb (bool_decide (picker_document u = fsa_document a))
         || negb (bool_decide (picker_request_id u = fsa_request_id a))
      then (a, Err (InvalidPayload "file picker reply identity"))
      else
        match u, fsa_files a with
        | PickStart _ _ files, None =>
            (skip_empty_files (with_files a (Some (map (fun m => mkSelectedFile m []) files)) (finished a)), Ok None)
        | PickChunk _ _ _ _ _, None => (a, Err (InvalidPayload "file chunk before start"))
        | PickChunk _ _ file_index offset data, Some files =>
            match (if (val file_index =? N.of_nat (next_file a))%N then files !! next_file a else None) with
            | None => (a, Err (InvalidPayload "file chunk order"))
            | Some file =>
                if negb (len (sel_bytes file) =? val offset)%N
                   || (sf_size (sel_metadata file) <? saturating_add (len (sel_bytes file)) (len data))%N
                then (a, Err (InvalidPayload "file chunk offset or size"))
                else
                  let files := <[next_file a := mkSelectedFile (sel_metadata file) (sel_bytes file ++ data)]> files in
                  (skip_empty_files (with_files a (Some files) (finished a)), Ok None)
            end
        | PickEnd _ _, None => (a, Err (InvalidPayload "file end before start"))
        | PickEnd _ _, Some files =>
            if negb (next_file a =? length files)%nat
            then (with_files a None (finished a), Err (InvalidPayload "truncated selected file"))
            else (with_files a None true, Ok (Some (Selected files)))
        | PickCanceled _ _, None => (with_files a None true, Ok (Some SelectionCanceled))
        | PickFailed _ _, _ => (with_files a None true, Ok (Some SelectionFailed))
        | _, _ => (a, Err (InvalidPayload "file picker reply order"))
        end
  end.
(** A malformed stream cannot be repaired: an error ends the reply. *)
Definition FileSelectionAssembler_push (a : FileSelectionAssembler) (u : FilePickerUpdate)
    : FileSelectionAssembler * result ProtocolError (option FilePickerSelection) :=
  match push_inner a u with
  | (a, Err e) => (with_files a None true, Err e)
  | r => r
  end.

(** The updates of a reply, until one is refused. *)
Fixpoint selection_run (a : FileSelectionAssembler) (us : list FilePickerUpdate)
    : FileSelectionAssembler * result ProtocolError (list FilePickerSelection) :=
  match us with
  | [] => (a, Ok [])
  | u :: us =>
      match FileSelectionAssembler_push a u with
      | (a, Err e) => (a, Err e)
      | (a, Ok o) =>
          match selection_run a us with
          | (a, Ok ss) => (a, Ok (match o with Some s => s :: ss | None => ss end))
          | (a, Err e) => (a, Err e)
          end
      end
  end.

(** ** What a reply should be *)
Record FileChunk := mkFileChunk { fc_index : u8; fc_offset : u32; fc_data : list byte }.
Definition chunk_update (d : DocumentId) (i : u64) (c : FileChunk) : FilePickerUpdate :=
  PickChunk d i (fc_index c) (fc_offset c) (fc_data c).
Definition data_of (cs : list FileChunk) : list byte := cs ≫= fc_data.
(** The chunks [cs] carry the bytes [px] of file [k] from an offset on. *)
Definition carries_part (k : nat) (from : N) (px : list byte) (cs : list FileChunk) : Prop :=
  Forall (fun c => val (fc_index c) = N.of_nat k) cs
  /\ contiguous (fun c => val (fc_offset c)) fc_data from cs /\ px = data_of cs.
(** Files number [k] and following, each sent whole, one after the other. *)
Fixpoint sent_files (k : nat) (files : list SelectedFile) (cs : list FileChunk) : Prop :=
  match files with
  | [] => cs = []
  | f :: files =>
      exists cs1 cs2, cs = cs1 ++ cs2 /\ carries_part k 0 (sel_bytes f) cs1 /\ is_full f = true
                      /\ sent_files (S k) files cs2
  end.
Definition chunk_ok (c : FileChunk) : bool :=
  ((val (fc_index c) <? MAX_FILE_PICKER_FILES) && negb (len (fc_data c) =? 0)
   && (len (fc_data c) <=? MAX_FILE_PICKER_CHUNK_BYTES))%N.
Definition reply (d : DocumentId) (i : u64) (files : list SelectedFile) (cs : list FileChunk) : list FilePickerUpdate :=
  PickStart d i (map sel_metadata files) :: map (chunk_update d i) cs ++ [PickEnd d i].

(** ** From a state of the assembler on *)
Definition filling (d : DocumentId) (i : u64) (pre post : list SelectedFile) : FileSelectionAssembler :=
  mkSelection d i (Some (pre ++ post)) (length pre) false.
(** [tail] is [post] filled up by the chunks [cs]. *)
Fixpoint completes (k : nat) (post tail : list SelectedFile) (cs : list FileChunk) : Prop :=
  match post, tail with
  | [], [] => cs = []
  | f :: post, g :: tail =>
      exists cs1 cs2 px, cs = cs1 ++ cs2 /\ g = mkSelectedFile (sel_metadata f) (sel_bytes f ++ px)
        /\ carries_part k (len (sel_bytes f)) px cs1 /\ is_full g = true /\ completes (S k) post tail cs2
  | _, _ => False
  end.

Lemma data_of_cons (c : FileChunk) (cs : list FileChunk) : data_of (c :: cs) = fc_data c ++ data_of cs.
Proof. done. Qed.
Lemma chunk_ok_data (c : FileChunk) : chunk_ok c = true -> fc_data c <> [].
Proof. unfold chunk_ok. intros H E. rewrite E in H. simpl in H. by rewrite andb_false_r in H. Qed.
Lemma is_full_eq (f : SelectedFile) : is_full f = true <-> len (sel_bytes f) = val (sf_size (sel_metadata f)).
Proof. apply N.eqb_eq. Qed.

(** A file that is full takes no chunk more. *)
Lemma completes_full (k : nat) (f : SelectedFile) (post tail : list SelectedFile) (cs : list FileChunk) :
  is_full f = true -> Forall (fun c => chunk_ok c = true) cs ->
  completes k (f :: post) tail cs <-> exists tail', tail = f :: tail' /\ completes (S k) post tail' cs.
Proof.
  rewrite is_full_eq. intros Hf Hcs. destruct tail as [|g tail]; cbn [completes]; [naive_solver|]. split.
  - intros (cs1 & cs2 & px & -> & -> & (_ & _ & Hpx) & Hg%is_full_eq & H).
    simpl in Hg. rewrite len_app in Hg. assert (px = []) as Hnil.
    { destruct px; [done|]. unfold len in *. simpl in Hg. lia. }
    assert (cs1 = []) as ->.
    { destruct cs1 as [|c cs1]; [done|]. apply Forall_cons in Hcs as [Hc%chunk_ok_data _].
      rewrite Hpx, data_of_cons in Hnil. by apply app_eq_nil in Hnil as [? _]. }
    subst px. exists tail. rewrite Hnil, app_nil_r. destruct f; by split.
  - intros (tail' & [= -> ->] & H). exists [], cs, []. rewrite app_nil_r. split_and!; try done.
    + by destruct f.
    + by apply is_full_eq.
Qed.

(** One that is not takes the next chunk, at its end and within its size. *)
Definition next_chunk_fits (k : nat) (f : SelectedFile) (c : FileChunk) : Prop :=
  val (fc_index c) = N.of_nat k /\ val (fc_offset c) = len (sel_bytes f)
  /\ (len (sel_bytes f ++ fc_data c) <= sf_size (sel_metadata f))%N.
Definition extended (f : SelectedFile) (c : FileChunk) : SelectedFile :=
  mkSelectedFile (sel_metadata f) (sel_bytes f ++ fc_data c).
Lemma completes_chunk (k : nat) (f : SelectedFile) (post tail : list SelectedFile) (c : FileChunk) (cs : list FileChunk) :
  is_full f = false ->
  completes k (f :: post) tail (c :: cs) <-> next_chunk_fits k f c /\ completes k (extended f c :: post) tail cs.
Proof.
  intros Hf. destruct tail as [|g tail]; cbn [completes]; [naive_solver|]. split.
  - intros (cs1 & cs2 & px & Hcs & -> & (Hk & Ho & Hpx) & Hg & H). destruct cs1 as [|c1 cs1].
    { simpl in Hpx. change (data_of []) with (@nil byte) in Hpx. subst px. rewrite app_nil_r in Hg.
      unfold is_full in *. simpl in Hg. congruence. }
    injection Hcs as <- ->. apply Forall_cons in Hk as [Hk Hks]. destruct Ho as [Ho Hos].
    rewrite data_of_cons in Hpx. subst px. pose proof Hg as Hsize. apply is_full_eq in Hsize. simpl in Hsize.
    rewrite app_assoc, len_app in Hsize. split; [split_and!; [done..|lia]|].
    exists cs1, cs2, (data_of cs1). unfold extended. cbn [sel_metadata sel_bytes]. rewrite len_app, <- app_assoc.
    by split_and!.
  - intros ((Hk & Ho & Hn) & cs1 & cs2 & px & -> & -> & (Hks & Hos & Hpx) & Hg & H).
    exists (c :: cs1), cs2, (fc_data c ++ px). unfold extended in *. cbn [sel_metadata sel_bytes] in *.
    rewrite len_app in Hos. rewrite app_assoc. split_and!; try done.
    unfold carries_part. split_and!; [by constructor|done|by rewrite data_of_cons, Hpx].
Qed.
Lemma completes_open_nil (k : nat) (f : SelectedFile) (post tail : list SelectedFile) :
  is_full f = false -> ~ completes k (f :: post) tail [].
Proof.
  intros Hf. destruct tail as [|g tail]; cbn [completes]; [tauto|].
  intros (cs1 & cs2 & px & Hcs & -> & (_ & _ & Hpx) & Hg & _). symmetry in Hcs. apply app_eq_nil in Hcs as [-> _].
  change (data_of []) with (@nil byte) in Hpx. subst px. rewrite app_nil_r in Hg. unfold is_full in *. simpl in Hg. congruence.
Qed.

(** Skipping the full files changes nothing of that. *)
Lemma completes_skip (cs : list FileChunk) (files post pre : list SelectedFile) :
  Forall (fun c => chunk_ok c = true) cs ->
  (exists tail, files = pre ++ tail /\ completes (length pre) post tail cs) <->
  (exists tail, files = (pre ++ take (full_prefix post) post) ++ tail
     /\ completes (length (pre ++ take (full_prefix post) post)) (drop (full_prefix post) post) tail cs).
Proof.
  intros Hcs. revert pre. induction post as [|f post IH]; intros pre; cbn [full_prefix].
  - by rewrite take_nil, drop_nil, app_nil_r.
  - destruct (is_full f) eqn:Hf; [|by rewrite take_0, drop_0, app_nil_r]. cbn [take drop].
    replace (pre ++ f :: take (full_prefix post) post) with ((pre ++ [f]) ++ take (full_prefix post) post)
      by (by rewrite <- app_assoc).
    rewrite <- IH. split.
    + intros (tail & -> & (t & -> & H)%completes_full); [|done..]. exists t. rewrite <- app_assoc, length_app. simpl.
      by rewrite Nat.add_1_r.
    + intros (t & -> & H). exists (f :: t). rewrite <- app_assoc. split; [done|].
      apply completes_full; [done..|]. exists t. rewrite length_app in H. simpl in H. by rewrite Nat.add_1_r in H.
Qed.
Lemma skip_filling (d : DocumentId) (i : u64) (pre post : list SelectedFile) :
  skip_empty_files (filling d i pre post)
  = filling d i (pre ++ take (full_prefix post) post) (drop (full_prefix post) post).
Proof.
  unfold skip_empty_files, filling. cbn [fsa_files next_file fsa_document fsa_request_id finished].
  rewrite drop_app_length, <- app_assoc, take_drop, length_app, length_take. do 3 f_equal.
  assert (full_prefix post <= length post)%nat; [|lia].
  induction post as [|f post IH]; simpl; [lia|]. destruct (is_full f); lia.
Qed.
Lemma full_prefix_stops (post : list SelectedFile) : full_prefix (drop (full_prefix post) post) = 0.
Proof. induction post as [|f post IH]; simpl; [done|]. destruct (is_full f) eqn:Hf; simpl; [done|]. by rewrite Hf. Qed.

(** ** One step of the assembler *)
Lemma finished_answers_nothing (a : FileSelectionAssembler) (us : list FilePickerUpdate) (ss : list FilePickerSelection) :
  finished a = true -> (exists a', selection_run a us = (a', Ok ss)) <-> us = [] /\ ss = [].
Proof.
  intros Hf. destruct us as [|u us]; cbn [selection_run]; [naive_solver|].
  unfold FileSelectionAssembler_push, push_inner. rewrite Hf. simpl.
  destruct (FilePickerUpdate_validate u); naive_solver.
Qed.

Section reply.
Context (d : DocumentId) (i : u64) (Hi : val i <> 0%N).

Lemma chunk_valid (c : FileChunk) : FilePickerUpdate_validate (chunk_update d i c) = Ok tt <-> chunk_ok c = true.
Proof.
  unfold FilePickerUpdate_validate, chunk_update, chunk_ok, reject, len. cbn [picker_request_id].
  replace (val i =? 0)%N with false by (symmetry; by apply N.eqb_neq). simpl negb. cbn [ensure].
  change (_ ≫= ?k) with (k tt). cbv beta. rewrite ensure_Ok. lia.
Qed.

(** The chunk push of a reply that is being filled. *)
Lemma filling_push_chunk (pre post : list SelectedFile) (c : FileChunk) (o : option FilePickerSelection)
    (a : FileSelectionAssembler) :
  FileSelectionAssembler_push (filling d i pre post) (chunk_update d i c) = (a, Ok o) <->
  o = None /\ chunk_ok c = true /\ exists f post', post = f :: post' /\ next_chunk_fits (length pre) f c
    /\ a = skip_empty_files (filling d i pre (extended f c :: post')).
Proof.
  unfold FileSelectionAssembler_push, push_inner.
  destruct (FilePickerUpdate_validate (chunk_update d i c)) as [[]|e] eqn:Hv.
  2: { split; [done|]. intros (_ & Hc%chunk_valid & _). congruence. }
  apply chunk_valid in Hv. unfold chunk_update. cbn [filling finished picker_document picker_request_id fsa_document
    fsa_request_id fsa_files next_file]. rewrite !bool_decide_true by done. simpl orb. cbv iota.
  unfold next_chunk_fits. destruct (N.eqb_spec (fc_index c) (N.of_nat (length pre))) as [Hk|Hk]; [|naive_solver].
  rewrite lookup_app_r, Nat.sub_diag by lia. destruct post as [|f post]; [naive_solver|]. simpl lookup. cbv iota.
  destruct (N.eqb_spec (len (sel_bytes f)) (fc_offset c)) as [Ho|Ho]; [|naive_solver]. simpl negb. cbn [orb].
  unfold saturating_add. pose proof (val_le (sf_size (sel_metadata f))) as Hmax.
  destruct (N.ltb_spec (sf_size (sel_metadata f)) (N.min (len (sel_bytes f) + len (fc_data c)) u64_max)) as [Hn|Hn].
  { split; [done|]. intros (_ & _ & g & post' & [= <- <-] & (_ & _ & Hg) & _). rewrite len_app in Hg. lia. }
  rewrite <- (Nat.add_0_r (length pre)), insert_app_r, Nat.add_0_r. cbn [insert list_insert].
  split.
  - intros [= <- <-]. split_and!; [done..|]. exists f, post. rewrite len_app.
    split_and!; try done. unfold u64_max in *. lia.
  - by intros (-> & _ & g & post' & [= <- <-] & _ & ->).
Qed.

(** What the updates from here on have to be. *)
Definition rest_of_reply (files pre post : list SelectedFile) (us : list FilePickerUpdate) : Prop :=
  exists cs, us = map (chunk_update d i) cs ++ [PickEnd d i] /\ Forall (fun c => chunk_ok c = true) cs
    /\ exists tail, files = pre ++ tail /\ completes (length pre) post tail cs.

Lemma rest_skips (files pre post : list SelectedFile) (us : list FilePickerUpdate) :
  rest_of_reply files pre post us <->
  rest_of_reply files (pre ++ take (full_prefix post) post) (drop (full_prefix post) post) us.
Proof.
  unfold rest_of_reply. split; intros (cs & -> & Hcs & H); exists cs; (split_and!; [done..|]);
    by apply (completes_skip cs files post pre Hcs).
Qed.

Lemma rest_head (files pre post : list SelectedFile) (u : FilePickerUpdate) (us : list FilePickerUpdate) :
  rest_of_reply files pre post (u :: us) ->
  (u = PickEnd d i /\ us = []) \/ exists c, u = chunk_update d i c.
Proof. intros ([|c cs] & E & _); injection E as -> ->; [by left|right; by exists c]. Qed.

(** An update that is no chunk ends the reply or breaks it. *)
Lemma filling_push_other (pre post : list SelectedFile) (u : FilePickerUpdate) (a : FileSelectionAssembler)
    (o : option FilePickerSelection) :
  (forall c, u <> chunk_update d i c) ->
  FileSelectionAssembler_push (filling d i pre post) u = (a, Ok o) ->
  finished a = true /\ ((u = PickEnd d i /\ post = [] /\ o = Some (Selected pre)) \/ o = Some SelectionFailed).
Proof.
  unfold FileSelectionAssembler_push, push_inner. intros Hc.
  destruct (FilePickerUpdate_validate u) as [[]|]; [|done].
  cbn [filling finished fsa_document fsa_request_id fsa_files next_file]. simpl orb.
  destruct (bool_decide_reflect (picker_document u = d)) as [Hd|]; [|done].
  destruct (bool_decide_reflect (picker_request_id u = i)) as [Hu|]; [|done]. simpl.
  destruct u as [d' i' fs|d' i' k o' l|d' i'|d' i'|d' i']; simpl in Hd, Hu; subst d' i'; try done.
  - by destruct (Hc (mkFileChunk k o' l)).
  - rewrite length_app. destruct (Nat.eqb_spec (length pre) (length pre + length post)) as [E|]; [|done].
    assert (post = []) as -> by (apply length_zero_iff_nil; lia). rewrite app_nil_r. intros [= <- <-].
    split; [done|]. by left.
  - intros [= <- <-]. split; [done|]. by right.
Qed.

Lemma filling_push_end (pre : list SelectedFile) :
  exists a, FileSelectionAssembler_push (filling d i pre []) (PickEnd d i) = (a, Ok (Some (Selected pre))) /\ finished a = true.
Proof.
  unfold FileSelectionAssembler_push, push_inner. unfold FilePickerUpdate_validate, reject. cbn [picker_request_id].
  replace (val i =? 0)%N with false by (symmetry; by apply N.eqb_neq).
  cbn [negb ensure filling finished picker_document fsa_document fsa_request_id fsa_files next_file].
  change (_ ≫= ?k) with (k tt). cbv beta. rewrite !bool_decide_true by done. simpl. rewrite app_nil_r, Nat.eqb_refl.
  by eexists.
Qed.

Lemma chunk_update_inj (c c' : FileChunk) : chunk_update d i c = chunk_update d i c' -> c = c'.
Proof. destruct c, c'. unfold chunk_update. simpl. by intros [= -> -> ->]. Qed.
Lemma is_chunk_update (u : FilePickerUpdate) : (exists c, u = chunk_update d i c) \/ (forall c, u <> chunk_update d i c).
Proof.
  destruct u as [d' i' fs|d' i' k o l|d' i'|d' i'|d' i']; [by right| |by right..].
  destruct (decide (d' = d /\ i' = i)) as [[-> ->]|Hn]; [left; by exists (mkFileChunk k o l)|right].
  intros c [= -> -> _ _ _]. by apply Hn.
Qed.

Lemma rest_chunk (files pre post : list SelectedFile) (c : FileChunk) (us : list FilePickerUpdate) :
  full_prefix post = 0 ->
  rest_of_reply files pre post (chunk_update d i c :: us) <->
  chunk_ok c = true /\ exists f post', post = f :: post' /\ next_chunk_fits (length pre) f c
    /\ rest_of_reply files pre (extended f c :: post') us.
Proof.
  intros Hpost. unfold rest_of_reply. split.
  - intros ([|c' cs] & E & Hcs & rest & Hfiles & H); [discriminate E|].
    pose proof (f_equal tail E) as Et. apply (f_equal (hd (PickEnd d i))) in E.
    cbn [map app hd tail] in E, Et. apply chunk_update_inj in E as <-. subst us.
    apply Forall_cons in Hcs as [Hc Hcs]. destruct post as [|f post]; [by destruct rest|].
    cbn [full_prefix] in Hpost. destruct (is_full f) eqn:Hf; [discriminate Hpost|].
    apply completes_chunk in H as [Hfit H]; [|done]. split; [done|]. exists f, post. split_and!; try done.
    exists cs. split_and!; try done. by exists rest.
  - intros (Hc & f & post' & -> & Hfit & cs & -> & Hcs & tail & -> & H). exists (c :: cs).
    cbn [full_prefix] in Hpost. destruct (is_full f) eqn:Hf; [discriminate Hpost|].
    split_and!; [done|by constructor|]. exists tail. split; [done|]. by apply completes_chunk.
Qed.

Lemma filling_run_end (files : list SelectedFile) (u : FilePickerUpdate) (us : list FilePickerUpdate)
    (pre post : list SelectedFile) :
  full_prefix post = 0 -> (forall c, u <> chunk_update d i c) ->
  (exists a, selection_run (filling d i pre post) (u :: us) = (a, Ok [Selected files])) <->
  rest_of_reply files pre post (u :: us).
Proof.
  intros Hpost Hu. cbn [selection_run]. split.
  - intros [a' H]. destruct (FileSelectionAssembler_push (filling d i pre post) u) as [a [o|e]] eqn:Hp; [|done].
    apply filling_push_other in Hp as [Hfin Hans]; [|done].
    destruct (selection_run a us) as [b [ss|e]] eqn:Hr; [|done].
    assert (us = [] /\ ss = []) as [-> ->] by (apply (finished_answers_nothing a us ss Hfin); by exists b).
    destruct Hans as [(-> & -> & ->)| ->]; [|done]. injection H as _ ->. exists [].
    split_and!; [done|constructor|]. exists []. by rewrite app_nil_r.
  - intros H. destruct (rest_head _ _ _ _ _ H) as [[-> ->]|[c ->]]; [|by destruct (Hu c)].
    destruct H as ([|c cs] & E & _ & tail & -> & H); [|discriminate E]. clear E.
    destruct post as [|f post].
    + destruct tail; [|done]. destruct (filling_push_end pre) as (a & -> & _). exists a. by rewrite app_nil_r.
    + cbn [full_prefix] in Hpost. destruct (is_full f) eqn:Hf; [discriminate Hpost|].
      by apply completes_open_nil in H.
Qed.

Lemma filling_run (files : list SelectedFile) (us : list FilePickerUpdate) (pre post : list SelectedFile) :
  full_prefix post = 0 ->
  (exists a, selection_run (filling d i pre post) us = (a, Ok [Selected files])) <-> rest_of_reply files pre post us.
Proof.
  revert pre post. induction us as [|u us IH]; intros pre post Hpost.
  { cbn [selection_run]. split; [naive_solver|]. intros ([|c cs] & E & _); discriminate E. }
  destruct (is_chunk_update u) as [[c ->]|Hu]; [|by apply filling_run_end].
  rewrite (rest_chunk files pre post c us Hpost). cbn [selection_run].
  assert (forall f post', skip_empty_files (filling d i pre (extended f c :: post')) =
    filling d i (pre ++ take (full_prefix (extended f c :: post')) (extended f c :: post'))
      (drop (full_prefix (extended f c :: post')) (extended f c :: post'))) as Hskip by (intros; apply skip_filling).
  split.
  - intros [a' H]. destruct (FileSelectionAssembler_push _ _) as [a [o|e]] eqn:Hp; [|done].
    apply filling_push_chunk in Hp as (-> & Hc & f & post' & -> & Hfit & ->).
    split; [done|]. exists f, post'. split_and!; try done. rewrite rest_skips, <- IH by apply full_prefix_stops.
    rewrite Hskip in H. destruct (selection_run _ us) as [b [ss|e]]; [|done]. injection H as <- ->. by exists b.
  - intros (Hc & f & post' & -> & Hfit & H). rewrite rest_skips, <- IH in H by apply full_prefix_stops.
    destruct H as [b H]. rewrite <- Hskip in H. exists b.
    assert (FileSelectionAssembler_push (filling d i pre (f :: post')) (chunk_update d i c)
      = (skip_empty_files (filling d i pre (extended f c :: post')), Ok None)) as ->.
    { apply filling_push_chunk. split_and!; try done. by exists f, post'. }
    by rewrite H.
Qed.

End reply.

Lemma completes_fresh (k : nat) (metas : list SelectedFileMetadata) (tail : list SelectedFile) (cs : list FileChunk) :
  completes k (map (fun m => mkSelectedFile m []) metas) tail cs <-> metas = map sel_metadata tail /\ sent_files k tail cs.
Proof.
  revert k tail cs. induction metas as [|m metas IH]; intros k [|g tail] cs; cbn [map completes sent_files];
    [naive_solver..|]. split.
  - intros (cs1 & cs2 & px & -> & -> & Hpart & Hg & [-> H]%IH). split; [done|]. by exists cs1, cs2.
  - intros ([= -> ->] & cs1 & cs2 & -> & Hpart & Hg & H). exists cs1, cs2, (sel_bytes g).
    split_and!; [done|by destruct g|done|done|]. by apply IH.
Qed.

(** The first update of a reply. *)
Lemma first_push_start (d : DocumentId) (i : u64) (metas : list SelectedFileMetadata) :
  FilePickerUpdate_validate (PickStart d i metas) = Ok tt ->
  val i <> 0%N /\ FileSelectionAssembler_push (FileSelectionAssembler_new d i) (PickStart d i metas)
    = (skip_empty_files (filling d i [] (map (fun m => mkSelectedFile m []) metas)), Ok None).
Proof.
  intros Hv. split.
  - intros E. unfold FilePickerUpdate_validate, reject in Hv. simpl in Hv. by rewrite E in Hv.
  - unfold FileSelectionAssembler_push, push_inner. rewrite Hv. simpl. by rewrite !bool_decide_true.
Qed.
Lemma first_push (d : DocumentId) (i : u64) (u : FilePickerUpdate) (a : FileSelectionAssembler)
    (o : option FilePickerSelection) :
  FileSelectionAssembler_push (FileSelectionAssembler_new d i) u = (a, Ok o) ->
  val i <> 0%N /\
  ((exists metas, u = PickStart d i metas /\ FilePickerUpdate_validate u = Ok tt /\ o = None
     /\ a = skip_empty_files (filling d i [] (map (fun m => mkSelectedFile m []) metas)))
   \/ (finished a = true /\ (o = Some SelectionCanceled \/ o = Some SelectionFailed))).
Proof.
  unfold FileSelectionAssembler_push, push_inner. destruct (FilePickerUpdate_validate u) as [[]|] eqn:Hv; [|done].
  cbn [FileSelectionAssembler_new finished fsa_document fsa_request_id fsa_files]. simpl orb.
  destruct (bool_decide_reflect (picker_document u = d)) as [Hd|]; [|done].
  destruct (bool_decide_reflect (picker_request_id u = i)) as [Hu|]; [|done]. simpl.
  assert (val i <> 0%N) as Hi.
  { intros E. rewrite <- Hu in E. unfold FilePickerUpdate_validate, reject in Hv. by rewrite E in Hv. }
  intros H. split; [done|].
  destruct u as [d' i' fs|d' i' k o' l|d' i'|d' i'|d' i']; simpl in Hd, Hu; subst d' i'; try discriminate H;
    injection H as <- <-; [left; by exists fs|right; by split; [|auto]..].
Qed.

(** C19. A reply gives a selection exactly when it is a valid start, then the files
    one after the other, each cut into chunks that follow one another from offset
    0 up to the size the start declared, then an end: what is selected is the
    declared files with exactly the bytes that were sent. A picker reply with a
    gap, an overlap, a chunk out of order, a file cut short, or anything after its
    end never does. *)
Theorem file_selection_exact (d : DocumentId) (i : u64) (us : list FilePickerUpdate) (files : list SelectedFile) :
  (exists a, selection_run (FileSelectionAssembler_new d i) us = (a, Ok [Selected files])) <->
  exists cs, us = reply d i files cs /\ Forall (fun c => chunk_ok c = true) cs /\ sent_files 0 files cs
    /\ FilePickerUpdate_validate (PickStart d i (map sel_metadata files)) = Ok tt.
Proof.
  split.
  - intros [a H]. destruct us as [|u us]; [discriminate H|]. cbn [selection_run] in H.
    destruct (FileSelectionAssembler_push _ u) as [b [o|e]] eqn:Hp; [|done].
    apply first_push in Hp as (Hi & [(metas & -> & Hv & -> & ->)|[Hfin Ho]]).
    + assert (exists a, selection_run (skip_empty_files (filling d i [] (map (fun m => mkSelectedFile m []) metas))) us
        = (a, Ok [Selected files])) as Hr.
      { destruct (selection_run _ us) as [b' [ss|e]]; [|done]. injection H as <- ->. by exists b'. }
      rewrite skip_filling, filling_run, <- rest_skips in Hr by (done || apply full_prefix_stops).
      destruct Hr as (cs & -> & Hcs & rest & -> & [-> Hs]%completes_fresh). by exists cs.
    + destruct (selection_run b us) as [b' [ss|e]] eqn:Hr; [|done].
      assert (us = [] /\ ss = []) as [-> ->] by (apply (finished_answers_nothing b us ss Hfin); by exists b').
      destruct Ho as [->| ->]; discriminate H.
  - intros (cs & -> & Hcs & Hs & Hv). unfold reply. cbn [selection_run].
    destruct (first_push_start d i (map sel_metadata files) Hv) as [Hi ->].
    assert (exists a, selection_run (skip_empty_files
      (filling d i [] (map (fun m => mkSelectedFile m []) (map sel_metadata files))))
      (map (chunk_update d i) cs ++ [PickEnd d i]) = (a, Ok [Selected files])) as [b ->]; [|by exists b].
    rewrite skip_filling, filling_run, <- rest_skips by (done || apply full_prefix_stops).
    exists cs. split_and!; [done..|]. exists files. split; [done|]. by apply completes_fresh.
Qed.
