(* ===== verification/DocumentPayloads.v ===== *)
(** * DocumentPayloads: documents, viewports and brokered fetches on the pipe

    The message types of src/renderer_protocol/{document, fetch}.rs with their
    checks, and the codecs of src/renderer_protocol/codec/payload/{document,
    document/fields, fetch}.rs. Transfers.v has the chunks and what becomes of
    them. *)

From Stdlib Require Import Strings.Byte.
From S2P Require Import Prelude Text StrOps Limits Words Protocol WebStorage Wire WireTheory PayloadFields Csp FetchRequest DevicePayloads Transfers.

(** ** Viewports (engine/rendering.rs, document.rs) *)
Definition rate_valid (numerator denominator : u32) : bool := negb ((numerator =? 0)%N || (denominator =? 0)%N).
Record RefreshRate := mkRate { rate_numerator : u32; rate_denominator : u32;
                               rate_ok : rate_valid rate_numerator rate_denominator = true }.
Definition RefreshRate_new (numerator denominator : u32) : option RefreshRate :=
  match Sumbool.sumbool_of_bool (rate_valid numerator denominator) with
  | left H => Some (mkRate numerator denominator H)
  | right _ => None
  end.
Lemma RefreshRate_new_same (r : RefreshRate) : RefreshRate_new (rate_numerator r) (rate_denominator r) = Some r.
Proof.
  destruct r as [n m H]. unfold RefreshRate_new. cbn [rate_numerator rate_denominator].
  destruct (Sumbool.sumbool_of_bool _) as [H'|H']; [|congruence]. do 2 f_equal. apply proof_irrel.
Qed.

Record PresentedViewport := mkViewport {
  vp_width : f32; vp_overflow_width : f32; vp_height : f32; vp_style_width : f32; vp_dpi : u32;
  vp_dark : bool; vp_refresh_rate : RefreshRate }.
Definition PresentedViewport_validate (v : PresentedViewport) : result ProtocolError PresentedViewport :=
  if existsb (fun x : f32 => negb (f32_is_finite x) || negb (f32_within f32_1 f32_32768 x))
       [vp_width v; vp_overflow_width v; vp_height v; vp_style_width v]
     || f32_gtb (vp_overflow_width v) (vp_width v) || negb ((48 <=? vp_dpi v) && (vp_dpi v <=? 768))%N
  then Err (InvalidPayload "viewport") else Ok v.

Definition put_f32 (x : f32) : Writer () := put_u32 (val x).
Definition get_f32 : Reader f32 := get_u32.
Definition put_viewport (v : PresentedViewport) : Writer () :=
  _ ← put_f32 (vp_width v); _ ← put_f32 (vp_overflow_width v); _ ← put_f32 (vp_height v);
  _ ← put_f32 (vp_style_width v);
  _ ← put_u32 (val (vp_dpi v));
  _ ← put_bool (vp_dark v);
  _ ← put_u32 (val (rate_numerator (vp_refresh_rate v)));
  put_u32 (val (rate_denominator (vp_refresh_rate v))).
Definition get_rate : Reader RefreshRate :=
  numerator ← get_u32; denominator ← get_u32;
  lift (ok_or (RefreshRate_new numerator denominator) (InvalidPayload "display refresh rate")).
Definition get_viewport : Reader PresentedViewport :=
  width ← get_f32; overflow_width ← get_f32; height ← get_f32; style_width ← get_f32;
  dpi ← get_u32;
  dark ← get_bool;
  rate ← get_rate;
  lift (PresentedViewport_validate (mkViewport width overflow_width height style_width dpi dark rate)).

Lemma carries_f32 (x : f32) : carries false (put_f32 x) get_f32 x.
Proof. apply carries_w32. Qed.
#[export] Hint Resolve carries_f32 : wire.
Lemma rate_carries (r : RefreshRate) :
  carries false (_ ← put_u32 (val (rate_numerator r)); put_u32 (val (rate_denominator r))) get_rate r.
Proof. unfold get_rate. carry. apply carries_decided. by rewrite RefreshRate_new_same. Qed.
(** The writer does not check the viewport: what is valid is carried. *)
Definition viewport_ok (v : PresentedViewport) : Prop := PresentedViewport_validate v = Ok v.
Lemma viewport_carries (v : PresentedViewport) : viewport_ok v -> carries false (put_viewport v) get_viewport v.
Proof.
  intros Hv. destruct v as [a b c e f g r]. unfold put_viewport, get_viewport.
  cbn [vp_width vp_overflow_width vp_height vp_style_width vp_dpi vp_dark vp_refresh_rate]. carry.
  eapply carries_last; [apply rate_carries|]. by apply carries_decided.
Qed.
Lemma viewport_validate_same (v v' : PresentedViewport) : PresentedViewport_validate v = Ok v' -> viewport_ok v.
Proof. unfold viewport_ok, PresentedViewport_validate. destruct (_ || _ || _); [done|]. done. Qed.

(** ** Documents *)
Inductive ScrollRestorationMode := AutoRestoration | ManualRestoration.
Definition scroll_restoration_tag (m : ScrollRestorationMode) : N :=
  match m with AutoRestoration => 0 | ManualRestoration => 1 end.
Definition decode_scroll_restoration (tag : N) : result ProtocolError ScrollRestorationMode :=
  match tag with
  | 0 => Ok AutoRestoration | 1 => Ok ManualRestoration
  | _ => Err (InvalidPayload "scroll restoration mode")
  end%N.
Lemma scroll_restoration_carries (m : ScrollRestorationMode) :
  carries false (put_u8 (scroll_restoration_tag m)) (get_tag decode_scroll_restoration) m.
Proof. destruct m; carry. Qed.
#[export] Hint Resolve scroll_restoration_carries : wire.

Record DocumentStart := mkDocumentStart {
  dst_document : DocumentId; dst_url : ustring; dst_status : u16; dst_content_type : ustring;
  csp_policies : list ustring; diagnostic_selectors : list ustring;
  body_length : u32; history_length : u32; history_index : u32; history_state : option ustring;
  scroll_restoration : ScrollRestorationMode; viewport : PresentedViewport; dst_dark : bool;
  notification_permission : NotificationPermission }.
Definition DocumentStart_validate (s : DocumentStart) : result ProtocolError () :=
  _ ← reject (is_empty (dst_url s) || longer (dst_url s) MAX_URL_BYTES) "document URL";
  _ ← reject (longer (dst_content_type s) (16 * 1024)) "document metadata";
  _ ← reject ((32 <? len (csp_policies s))%N || existsb (fun p => longer p (16 * 1024)) (csp_policies s))
        "document CSP";
  _ ← reject ((MAX_PAGE_DIAGNOSTIC_SELECTORS <? len (diagnostic_selectors s))%N
              || existsb (fun p => is_empty p || longer p MAX_PAGE_DIAGNOSTIC_SELECTOR_BYTES) (diagnostic_selectors s))
        "document diagnostic selectors";
  _ ← ensure (body_length s <=? MAX_RESPONSE_BODY_BYTES)%N (PayloadTooLarge (body_length s));
  _ ← reject ((history_length s =? 0)%N || (MAX_SESSION_HISTORY_ENTRIES <? history_length s)%N
              || (history_length s <=? history_index s)%N
              || match history_state s with Some state => longer state MAX_HISTORY_STATE_BYTES | None => false end)
        "document history context";
  _ ← PresentedViewport_validate (viewport s);
  Ok tt.

Definition notification_permission_tag (p : NotificationPermission) : N :=
  match p with NotifyDefault => 0 | NotifyGranted => 1 | NotifyDenied => 2 end.
Definition decode_notification_permission (tag : N) : result ProtocolError NotificationPermission :=
  match tag with
  | 0 => Ok NotifyDefault | 1 => Ok NotifyGranted | 2 => Ok NotifyDenied
  | _ => Err (InvalidPayload "notification permission")
  end%N.
Lemma notification_permission_carries (p : NotificationPermission) :
  carries false (put_u8 (notification_permission_tag p)) (get_tag decode_notification_permission) p.
Proof. destruct p; carry. Qed.
#[export] Hint Resolve notification_permission_carries : wire.

(** A counted list of strings; the reader refuses the count before it reads. *)
Definition put_strings (l : list ustring) : Writer () :=
  _ ← put_u32 (len l mod 2 ^ 32);
  put_all (fun s : ustring => put_string (text s)) l.
Definition get_strings (count_limit each : N) (field : string) : Reader (list ustring) :=
  count ← get_u32;
  _ ← lift (reject (count_limit <? val count)%N field);
  get_times (get_string each) (N.to_nat (val count)).
Lemma strings_carry (l : list ustring) (count_limit each : N) (field : string) :
  (len l <= count_limit)%N -> (count_limit <= 4294967295)%N -> Forall (fun s : ustring => byte_length s <= each)%N l ->
  carries false (put_strings l) (get_strings count_limit each field) l.
Proof.
  intros Hc Hm Hl. unfold put_strings, get_strings. rewrite N.mod_small by (simpl; lia).
  eapply carries_bind; [apply carries_u32; lia|]. wire_reduce.
  apply carries_guard; [lia|]. unfold len. rewrite Nat2N.id. by apply carries_strings.
Qed.

Definition put_document_start (s : DocumentStart) : Writer () :=
  _ ← lift (DocumentStart_validate s);
  _ ← put_u64 (id_value (dst_document s));
  _ ← put_string (text (dst_url s));
  _ ← put_u16 (val (dst_status s));
  _ ← put_string (text (dst_content_type s));
  _ ← put_strings (csp_policies s);
  _ ← put_strings (diagnostic_selectors s);
  _ ← put_u32 (val (body_length s));
  _ ← put_u32 (val (history_length s));
  _ ← put_u32 (val (history_index s));
  _ ← put_option (fun s : ustring => put_string (text s)) (history_state s);
  _ ← put_u8 (scroll_restoration_tag (scroll_restoration s));
  _ ← put_viewport (viewport s);
  _ ← put_bool (dst_dark s);
  put_u8 (notification_permission_tag (notification_permission s)).
Definition get_document_start : Reader DocumentStart :=
  document ← get_document;
  url ← get_string MAX_URL_BYTES;
  status ← get_u16;
  content_type ← get_string (16 * 1024);
  policies ← get_strings 32 (16 * 1024) "document CSP";
  selectors ← get_strings MAX_PAGE_DIAGNOSTIC_SELECTORS MAX_PAGE_DIAGNOSTIC_SELECTOR_BYTES "document diagnostic selectors";
  body_length ← get_u32;
  history_length ← get_u32;
  history_index ← get_u32;
  history_state ← get_option (get_string MAX_HISTORY_STATE_BYTES);
  scroll_restoration ← get_tag decode_scroll_restoration;
  viewport ← get_viewport;
  dark ← get_bool;
  permission ← get_tag decode_notification_permission;
  let start := mkDocumentStart document url status content_type policies selectors body_length history_length
                 history_index history_state scroll_restoration viewport dark permission in
  _ ← lift (DocumentStart_validate start);
  mret start.

(** ** Chunks *)
Definition put_chunk (c : TransferChunk) : Writer () :=
  _ ← lift (reject ((tc_transfer_id c =? 0)%N || (MAX_FRAME_PAYLOAD - 16 <? len (tc_bytes c))%N) "transfer chunk");
  _ ← put_u64 (val (tc_transfer_id c));
  _ ← put_u32 (val (tc_offset c));
  put_blob (tc_bytes c).
Definition get_chunk : Reader TransferChunk :=
  transfer_id ← get_nonzero "transfer";
  offset ← get_u32;
  bytes ← get_blob (MAX_FRAME_PAYLOAD - 16);
  mret (mkChunk transfer_id offset bytes).
#[export] Hint Unfold len : wire_validate.
Lemma chunk_carries (c : TransferChunk) : carries false (put_chunk c) get_chunk c.
Proof. destruct c as [i o l]. unfold put_chunk, get_chunk. cbn [tc_transfer_id tc_offset tc_bytes]. carry. Qed.
#[export] Hint Resolve chunk_carries : wire.

Lemma within_each (l : list ustring) (f : ustring -> bool) (n : N) :
  (forall s, f s = false -> (byte_length (text s) <= n)%N) -> existsb f l = false ->
  Forall (fun s : ustring => byte_length s <= n)%N l.
Proof. intros Hf H%existsb_false_Forall. eapply Forall_impl; [exact H|]. exact Hf. Qed.

(** What the checks of a document give its reader. *)
Lemma DocumentStart_valid (s : DocumentStart) :
  DocumentStart_validate s = Ok tt ->
  (byte_length (dst_url s) <= MAX_URL_BYTES)%N /\ (byte_length (dst_content_type s) <= 16 * 1024)%N
  /\ (len (csp_policies s) <= 32)%N /\ Forall (fun p : ustring => byte_length p <= 16 * 1024)%N (csp_policies s)
  /\ (len (diagnostic_selectors s) <= MAX_PAGE_DIAGNOSTIC_SELECTORS)%N
  /\ Forall (fun p : ustring => byte_length p <= MAX_PAGE_DIAGNOSTIC_SELECTOR_BYTES)%N (diagnostic_selectors s)
  /\ match history_state s with Some h => (byte_length h <= MAX_HISTORY_STATE_BYTES)%N | None => True end
  /\ viewport_ok (viewport s).
Proof.
  unfold DocumentStart_validate, reject, longer. intros H.
  apply bind_Ok in H as (? & H1%ensure_Ok & H). apply bind_Ok in H as (? & H2%ensure_Ok & H).
  apply bind_Ok in H as (? & H3%ensure_Ok & H). apply bind_Ok in H as (? & H4%ensure_Ok & H).
  apply bind_Ok in H as (? & H5%ensure_Ok & H). apply bind_Ok in H as (? & H6%ensure_Ok & H).
  apply bind_Ok in H as (v & H7 & _). rewrite negb_true_iff, !orb_false_iff in H1, H3, H4, H6.
  destruct H1, H3, H4, H6 as [_ H6]. split_and!; try lia.
  - eapply within_each; [|eassumption]. cbv beta. lia.
  - eapply within_each; [|eassumption]. cbv beta. lia.
  - destruct (history_state s); [lia|done].
  - by eapply viewport_validate_same.
Qed.

Lemma document_start_carries (s : DocumentStart) : carries false (put_document_start s) get_document_start s.
Proof.
  unfold put_document_start, get_document_start. apply carries_check. intros [] Hvalid.
  pose proof (DocumentStart_valid s Hvalid) as (Hu & Ht & Hp & Hps & Hd & Hds & Hh & Hv).
  destruct s as [d u st ct ps ds bl hl hi hs sr v dk np].
  cbn [dst_document dst_url dst_status dst_content_type csp_policies diagnostic_selectors body_length history_length
    history_index history_state scroll_restoration viewport dst_dark notification_permission] in *. carry.
  eapply carries_bind; [by apply strings_carry|]. eapply carries_bind; [by apply strings_carry|]. carry.
  eapply carries_bind; [apply carries_option; intros h ->; by apply carries_string|]. carry.
  eapply carries_bind; [by apply viewport_carries|]. carry.
Qed.
#[export] Hint Resolve document_start_carries : wire.
