(* ===== verification/FetchPayloads.v ===== *)
(** * FetchPayloads: brokered fetches on the pipe

    The heads of requests and responses (src/renderer_protocol/fetch.rs) with
    their checks, and their codec (codec/payload/fetch.rs). *)

From Stdlib Require Import Strings.Byte.
From S2P Require Import Prelude Text StrOps Limits Words Protocol WebStorage Wire WireTheory PayloadFields Csp FetchRequest DevicePayloads Transfers DocumentPayloads.

(** ** Enumerations and their tags ([tagged_enum!]) *)
Inductive FetchInitiator :=
  | ByNetworkHint | ByChildNavigation | ByChildResource | BySubresource | ByClassicScript | ByModuleScript
  | ByScriptApi | ByBeacon | ByClassicWorker | ByModuleWorker.
Inductive ResourceDestination :=
  | ForDocument | ForObject | ForStyle | ForImage | ForScript | ForWorker | ForFont | ForFetch | ForVideo | ForAudio.
Inductive FetchMode := FetchSameOrigin | FetchNoCors | FetchCors.
Inductive FetchCredentials := CredOmit | CredSameOrigin | CredInclude.
Inductive FetchCache := CacheDefault | CacheNoStore | CacheReload | CacheNoCache | CacheForceCache | CacheOnlyIfCached.
Inductive FetchRedirect := RedirectFollow | RedirectError | RedirectManual.
Inductive FetchReferrer := ReferClient | ReferNone | ReferUrl (url : ustring).
Inductive FetchReferrerPolicy :=
  | SendNoReferrer | SendNoReferrerWhenDowngrade | SendSameOrigin | SendOrigin | SendStrictOrigin
  | SendOriginWhenCrossOrigin | SendStrictOriginWhenCrossOrigin | SendUnsafeUrl.
Inductive FetchResponseType := TypeBasic | TypeCors | TypeOpaque | TypeOpaqueRedirect.
Inductive BrowserFetchErrorKind := FailInvalidRequest | FailNetwork | FailAborted | FailCors | FailRedirect | FailBodyTooLarge.

Definition initiator_tag (x : FetchInitiator) : N :=
  match x with
  | BySubresource => 1 | ByClassicScript => 2 | ByModuleScript => 3 | ByScriptApi => 4 | ByClassicWorker => 5
  | ByModuleWorker => 6 | ByChildNavigation => 7 | ByChildResource => 8 | ByNetworkHint => 9 | ByBeacon => 10
  end.
Definition decode_initiator (tag : N) : result ProtocolError FetchInitiator :=
  match tag with
  | 1 => Ok BySubresource | 2 => Ok ByClassicScript | 3 => Ok ByModuleScript | 4 => Ok ByScriptApi
  | 5 => Ok ByClassicWorker | 6 => Ok ByModuleWorker | 7 => Ok ByChildNavigation | 8 => Ok ByChildResource
  | 9 => Ok ByNetworkHint | 10 => Ok ByBeacon | _ => Err (InvalidPayload "Fetch initiator")
  end%N.
Definition destination_tag (x : ResourceDestination) : N :=
  match x with
  | ForStyle => 1 | ForImage => 2 | ForScript => 3 | ForFont => 4 | ForFetch => 5 | ForVideo => 6 | ForDocument => 7
  | ForWorker => 8 | ForAudio => 9 | ForObject => 10
  end.
Definition decode_destination (tag : N) : result ProtocolError ResourceDestination :=
  match tag with
  | 1 => Ok ForStyle | 2 => Ok ForImage | 3 => Ok ForScript | 4 => Ok ForFont | 5 => Ok ForFetch | 6 => Ok ForVideo
  | 7 => Ok ForDocument | 8 => Ok ForWorker | 9 => Ok ForAudio | 10 => Ok ForObject
  | _ => Err (InvalidPayload "Fetch destination")
  end%N.
Definition mode_tag (x : FetchMode) : N := match x with FetchSameOrigin => 1 | FetchNoCors => 2 | FetchCors => 3 end.
Definition decode_mode (tag : N) : result ProtocolError FetchMode :=
  match tag with
  | 1 => Ok FetchSameOrigin | 2 => Ok FetchNoCors | 3 => Ok FetchCors | _ => Err (InvalidPayload "Fetch mode")
  end%N.
Definition credentials_tag (x : FetchCredentials) : N :=
  match x with CredOmit => 1 | CredSameOrigin => 2 | CredInclude => 3 end.
Definition decode_credentials (tag : N) : result ProtocolError FetchCredentials :=
  match tag with
  | 1 => Ok CredOmit | 2 => Ok CredSameOrigin | 3 => Ok CredInclude | _ => Err (InvalidPayload "Fetch credentials")
  end%N.
Definition cache_tag (x : FetchCache) : N :=
  match x with
  | CacheDefault => 1 | CacheNoStore => 2 | CacheReload => 3 | CacheNoCache => 4 | CacheForceCache => 5
  | CacheOnlyIfCached => 6
  end.
Definition decode_cache (tag : N) : result ProtocolError FetchCache :=
  match tag with
  | 1 => Ok CacheDefault | 2 => Ok CacheNoStore | 3 => Ok CacheReload | 4 => Ok CacheNoCache | 5 => Ok CacheForceCache
  | 6 => Ok CacheOnlyIfCached | _ => Err (InvalidPayload "Fetch cache")
  end%N.
Definition redirect_tag (x : FetchRedirect) : N :=
  match x with RedirectFollow => 1 | RedirectError => 2 | RedirectManual => 3 end.
Definition decode_redirect (tag : N) : result ProtocolError FetchRedirect :=
  match tag with
  | 1 => Ok RedirectFollow | 2 => Ok RedirectError | 3 => Ok RedirectManual | _ => Err (InvalidPayload "Fetch redirect")
  end%N.
Definition referrer_policy_tag (x : FetchReferrerPolicy) : N :=
  match x with
  | SendNoReferrer => 1 | SendNoReferrerWhenDowngrade => 2 | SendSameOrigin => 3 | SendOrigin => 4
  | SendStrictOrigin => 5 | SendOriginWhenCrossOrigin => 6 | SendStrictOriginWhenCrossOrigin => 7 | SendUnsafeUrl => 8
  end.
Definition decode_referrer_policy (tag : N) : result ProtocolError FetchReferrerPolicy :=
  match tag with
  | 1 => Ok SendNoReferrer | 2 => Ok SendNoReferrerWhenDowngrade | 3 => Ok SendSameOrigin | 4 => Ok SendOrigin
  | 5 => Ok SendStrictOrigin | 6 => Ok SendOriginWhenCrossOrigin | 7 => Ok SendStrictOriginWhenCrossOrigin
  | 8 => Ok SendUnsafeUrl | _ => Err (InvalidPayload "Fetch referrer policy")
  end%N.
Definition response_type_tag (x : FetchResponseType) : N :=
  match x with TypeBasic => 1 | TypeCors => 2 | TypeOpaque => 3 | TypeOpaqueRedirect => 4 end.
Definition decode_response_type (tag : N) : result ProtocolError FetchResponseType :=
  match tag with
  | 1 => Ok TypeBasic | 2 => Ok TypeCors | 3 => Ok TypeOpaque | 4 => Ok TypeOpaqueRedirect
  | _ => Err (InvalidPayload "Fetch response type")
  end%N.
Definition error_kind_tag (x : BrowserFetchErrorKind) : N :=
  match x with
  | FailInvalidRequest => 1 | FailNetwork => 2 | FailAborted => 3 | FailCors => 4 | FailRedirect => 5
  | FailBodyTooLarge => 6
  end.
Definition decode_error_kind (tag : N) : result ProtocolError BrowserFetchErrorKind :=
  match tag with
  | 1 => Ok FailInvalidRequest | 2 => Ok FailNetwork | 3 => Ok FailAborted | 4 => Ok FailCors | 5 => Ok FailRedirect
  | 6 => Ok FailBodyTooLarge | _ => Err (InvalidPayload "Fetch error kind")
  end%N.

Ltac every_tag := intros x; destruct x; carry.
Lemma initiator_carries : forall x, carries false (put_u8 (initiator_tag x)) (get_tag decode_initiator) x.
Proof. every_tag. Qed.
Lemma destination_carries : forall x, carries false (put_u8 (destination_tag x)) (get_tag decode_destination) x.
Proof. every_tag. Qed.
Lemma mode_carries : forall x, carries false (put_u8 (mode_tag x)) (get_tag decode_mode) x.
Proof. every_tag. Qed.
Lemma credentials_carries : forall x, carries false (put_u8 (credentials_tag x)) (get_tag decode_credentials) x.
Proof. every_tag. Qed.
Lemma cache_carries : forall x, carries false (put_u8 (cache_tag x)) (get_tag decode_cache) x.
Proof. every_tag. Qed.
Lemma redirect_carries : forall x, carries false (put_u8 (redirect_tag x)) (get_tag decode_redirect) x.
Proof. every_tag. Qed.
Lemma referrer_policy_carries : forall x, carries false (put_u8 (referrer_policy_tag x)) (get_tag decode_referrer_policy) x.
Proof. every_tag. Qed.
Lemma response_type_carries : forall x, carries false (put_u8 (response_type_tag x)) (get_tag decode_response_type) x.
Proof. every_tag. Qed.
Lemma error_kind_carries : forall x, carries false (put_u8 (error_kind_tag x)) (get_tag decode_error_kind) x.
Proof. every_tag. Qed.
#[export] Hint Resolve initiator_carries destination_carries mode_carries credentials_carries cache_carries
  redirect_carries referrer_policy_carries response_type_carries error_kind_carries : wire.

(** ** Request heads *)
Record FetchRequestHead := mkRequestHead {
  frh_client : RequestClient; frh_resulting_client : RequestClient; frh_embedding_client : RequestClient;
  frh_request_id : u64; frh_document : DocumentId; frh_initiator : FetchInitiator;
  frh_destination : ResourceDestination; frh_script_source : option ScriptSource;
  frh_url : ustring; frh_method : ustring; frh_headers : list (ustring * ustring);
  frh_mode : FetchMode; frh_credentials : FetchCredentials; frh_cache : FetchCache; frh_redirect : FetchRedirect;
  frh_referrer : FetchReferrer; frh_referrer_policy : FetchReferrerPolicy; frh_body_length : u32;
  frh_keepalive : bool }.
Definition may_carry_script (i : FetchInitiator) : bool :=
  match i with
  | ByClassicScript | ByModuleScript | BySubresource | ByChildResource | ByClassicWorker | ByModuleWorker => true
  | _ => false
  end.
Definition nonce_wire_ok (n : string) : bool :=
  (byte_length n <=? 256)%N && forallb (fun b => is_ascii_alphanumeric b || one_of "+/-_=" b) (Text.bytes n).
Definition header_wire_ok (h : ustring * ustring) : bool :=
  (byte_length (h.1) <=? MAX_FETCH_HEADER_NAME_BYTES)%N && (byte_length (h.2) <=? MAX_FETCH_HEADER_VALUE_BYTES)%N.
Definition is_for_script (d : ResourceDestination) : bool := match d with ForScript => true | _ => false end.
Definition may_keepalive (i : FetchInitiator) : bool := match i with ByScriptApi | ByBeacon => true | _ => false end.
Definition FetchRequestHead_validate (h : FetchRequestHead) : result ProtocolError () :=
  _ ← reject ((frh_request_id h =? 0)%N || is_empty (frh_url h) || longer (frh_url h) MAX_URL_BYTES) "renderer Fetch identity";
  _ ← reject (is_empty (frh_method h) || longer (frh_method h) 64) "renderer Fetch method";
  _ ← reject (match frh_script_source h with
              | Some source =>
                  negb (is_for_script (frh_destination h)) || negb (may_carry_script (frh_initiator h))
                  || match nonce source with Some n => negb (nonce_wire_ok n) | None => false end
              | None => false
              end) "renderer script CSP metadata";
  _ ← reject ((MAX_RENDERER_FETCH_HEADERS <? len (frh_headers h))%N
              || existsb (fun p => negb (header_wire_ok p)) (frh_headers h)) "renderer Fetch headers";
  _ ← ensure (frh_body_length h <=? MAX_RESPONSE_BODY_BYTES)%N (PayloadTooLarge (frh_body_length h));
  _ ← reject (frh_keepalive h && (negb (may_keepalive (frh_initiator h)) || (MAX_KEEPALIVE_BODY_BYTES <? frh_body_length h)%N))
        "renderer keepalive request";
  reject (match frh_referrer h with ReferUrl url => longer url MAX_URL_BYTES | _ => false end) "renderer Fetch referrer".

Definition put_header (h : ustring * ustring) : Writer () :=
  _ ← lift (reject (negb (header_wire_ok h)) "header length");
  _ ← put_string (text (h.1)); put_string (text (h.2)).
Definition get_header : Reader (ustring * ustring) :=
  name ← get_string MAX_FETCH_HEADER_NAME_BYTES; value ← get_string MAX_FETCH_HEADER_VALUE_BYTES; mret (name, value).
Definition put_headers (l : list (ustring * ustring)) : Writer () :=
  _ ← lift (reject (MAX_RENDERER_FETCH_HEADERS <? len l)%N "header count");
  _ ← put_u32 (len l mod 2 ^ 32);
  put_all put_header l.
Definition get_headers : Reader (list (ustring * ustring)) :=
  count ← get_u32;
  _ ← lift (reject (MAX_RENDERER_FETCH_HEADERS <? val count)%N "header count");
  get_times get_header (N.to_nat (val count)).
Definition put_referrer (r : FetchReferrer) : Writer () :=
  match r with
  | ReferClient => put_u8 1
  | ReferNone => put_u8 2
  | ReferUrl url => _ ← put_u8 3; put_string (text url)
  end.
Definition get_referrer : Reader FetchReferrer :=
  tag ← get_u8;
  match val tag with
  | 1 => mret ReferClient
  | 2 => mret ReferNone
  | 3 => url ← get_string MAX_URL_BYTES; mret (ReferUrl url)
  | _ => lift (Err (InvalidPayload "Fetch referrer"))
  end%N.
(** [match reader.u8()? { 0 => false, 1 => true, _ => .. }] *)
Definition get_flag (field : string) : Reader bool :=
  get_tag (fun tag => match tag with 0 => Ok false | 1 => Ok true | _ => Err (InvalidPayload field) end%N).
Definition get_wire_client : Reader RequestClient :=
  id ← get_u64; opaque ← get_flag "Fetch client origin flag"; mret (mkClient id opaque).
(** No nonce and an empty one are written alike. *)
Definition put_script_source (o : option ScriptSource) : Writer () :=
  match o with
  | Some source =>
      _ ← put_u8 1;
      _ ← put_bool (parser_inserted source);
      put_string (default EmptyString (nonce source))
  | None => put_u8 0
  end.
Definition get_script_source : Reader (option ScriptSource) :=
  tag ← get_u8;
  match val tag with
  | 0 => mret None
  | 1 =>
      parser_inserted ← get_flag "script parser flag";
      nonce ← get_string 256;
      mret (Some (mkScriptSource (if is_empty nonce then None else Some (text nonce)) parser_inserted))
  | _ => lift (Err (InvalidPayload "script CSP metadata"))
  end%N.

Lemma header_carries (h : ustring * ustring) : carries false (put_header h) get_header h.
Proof.
  destruct h as [n v]. unfold put_header, get_header, reject. apply carries_check. intros [] H%ensure_Ok.
  unfold header_wire_ok in H. cbn [fst snd] in *. rewrite negb_involutive, andb_true_iff in H. destruct H.
  eapply carries_bind; [apply carries_string; lia|]. eapply carries_last; [apply carries_string; lia|]. apply carries_done.
Qed.
Lemma headers_carry (l : list (ustring * ustring)) : carries false (put_headers l) get_headers l.
Proof.
  unfold put_headers, get_headers. apply carries_check. intros [] H. pose proof H as Hl.
  unfold reject in Hl. apply ensure_Ok in Hl. unfold MAX_RENDERER_FETCH_HEADERS in Hl.
  rewrite N.mod_small by (simpl; lia). eapply carries_bind; [apply carries_u32; lia|]. wire_reduce.
  eapply carries_skip; [exact H|]. unfold len. rewrite Nat2N.id. apply carries_all, Forall_forall.
  intros h _. apply header_carries.
Qed.
Lemma referrer_carries (r : FetchReferrer) :
  match r with ReferUrl url => longer url MAX_URL_BYTES = false | _ => True end -> carries false (put_referrer r) get_referrer r.
Proof. intros H. unfold longer in H. destruct r as [| |u]; unfold put_referrer, get_referrer; carry. Qed.
Lemma flag_carries (b : bool) (field : string) : carries false (put_bool b) (get_flag field) b.
Proof. unfold put_bool, get_flag. destruct b; carry. Qed.
Lemma wire_client_carries (c : RequestClient) : carries false (put_client c) get_wire_client c.
Proof.
  destruct c as [i o]. unfold put_client, get_wire_client. cbn [client_id client_opaque]. carry.
  eapply carries_last; [apply flag_carries|apply carries_done].
Qed.
#[export] Hint Resolve headers_carry wire_client_carries : wire.

Lemma ascii_accepts (b : N) : (b < 128)%N -> accepts b [b] = true.
Proof.
  intros H. apply accepts_spec. split.
  - unfold is_scalar, is_surrogate. lia.
  - unfold char_utf8. by replace (b <? 0x80)%N with true by lia.
Qed.
Lemma ascii_well_formed (s : string) : Forall (fun b => b < 128)%N (Text.bytes s) -> well_formed s = true.
Proof.
  unfold well_formed, chars. induction 1 as [|b l Hb _ IH]; [done|]. cbn [utf8_decode].
  rewrite ascii_accepts by done. cbn [forallb]. rewrite IH, andb_true_r. unfold is_scalar, is_surrogate. lia.
Qed.
Lemma nonce_ascii (n : string) : nonce_wire_ok n = true -> well_formed n = true.
Proof.
  unfold nonce_wire_ok. rewrite andb_true_iff. intros [_ H]. apply ascii_well_formed, Forall_forall. intros b Hb.
  apply forallb_forall with (x := b) in H; [|by apply list_elem_of_In].
  unfold is_ascii_alphanumeric, is_ascii_digit, is_ascii_alphabetic, one_of in H. simpl in H. lia.
Qed.

(** The writer's empty nonce is the reader's none. *)
Definition script_source_fits (o : option ScriptSource) : Prop :=
  match o with Some source => nonce source <> Some EmptyString | None => True end.
Definition script_source_ok (o : option ScriptSource) : Prop :=
  match o with Some source => match nonce source with Some n => nonce_wire_ok n = true | None => True end | None => True end.
Lemma script_source_carries (o : option ScriptSource) :
  script_source_fits o -> script_source_ok o -> carries false (put_script_source o) get_script_source o.
Proof.
  unfold put_script_source, get_script_source. destruct o as [[n p]|]; cbn [script_source_fits script_source_ok
    nonce parser_inserted]; intros Hfit Hok; carry.
  eapply carries_bind; [apply flag_carries|]. destruct n as [n|]; cbn [default].
  - eapply carries_last; [apply (carries_text false n (nonce_ascii n Hok))|].
    + unfold nonce_wire_ok in Hok. lia.
    + cbn [text]. unfold is_empty. cbn [text]. destruct n; [done|]. apply carries_done.
  - eapply carries_last; [apply (carries_text false EmptyString eq_refl)|apply carries_done].
    unfold byte_length. simpl. lia.
Qed.

Definition put_request_head (h : FetchRequestHead) : Writer () :=
  _ ← lift (FetchRequestHead_validate h);
  _ ← put_u64 (val (frh_request_id h));
  _ ← put_u64 (id_value (frh_document h));
  _ ← put_client (frh_client h); _ ← put_client (frh_resulting_client h); _ ← put_client (frh_embedding_client h);
  _ ← put_u8 (initiator_tag (frh_initiator h));
  _ ← put_u8 (destination_tag (frh_destination h));
  _ ← put_script_source (frh_script_source h);
  _ ← put_string (text (frh_url h));
  _ ← put_string (text (frh_method h));
  _ ← put_headers (frh_headers h);
  _ ← put_u8 (mode_tag (frh_mode h));
  _ ← put_u8 (credentials_tag (frh_credentials h));
  _ ← put_u8 (cache_tag (frh_cache h));
  _ ← put_u8 (redirect_tag (frh_redirect h));
  _ ← put_referrer (frh_referrer h);
  _ ← put_u8 (referrer_policy_tag (frh_referrer_policy h));
  _ ← put_u32 (val (frh_body_length h));
  put_bool (frh_keepalive h).
Definition get_request_head : Reader FetchRequestHead :=
  request_id ← get_nonzero "Fetch request";
  document ← get_document;
  client ← get_wire_client; resulting_client ← get_wire_client; embedding_client ← get_wire_client;
  initiator ← get_tag decode_initiator;
  destination ← get_tag decode_destination;
  script_source ← get_script_source;
  url ← get_string MAX_URL_BYTES;
  method ← get_string 64;
  headers ← get_headers;
  mode ← get_tag decode_mode;
  credentials ← get_tag decode_credentials;
  cache ← get_tag decode_cache;
  redirect ← get_tag decode_redirect;
  referrer ← get_referrer;
  referrer_policy ← get_tag decode_referrer_policy;
  body_length ← get_u32;
  keepalive ← get_flag "Fetch keepalive flag";
  let head := mkRequestHead client resulting_client embedding_client request_id document initiator destination
                script_source url method headers mode credentials cache redirect referrer referrer_policy
                body_length keepalive in
  _ ← lift (FetchRequestHead_validate head);
  mret head.

Lemma FetchRequestHead_valid (h : FetchRequestHead) :
  FetchRequestHead_validate h = Ok tt ->
  (frh_request_id h =? 0)%N = false /\ (byte_length (frh_url h) <= MAX_URL_BYTES)%N /\ (byte_length (frh_method h) <= 64)%N
  /\ script_source_ok (frh_script_source h)
  /\ match frh_referrer h with ReferUrl url => longer url MAX_URL_BYTES = false | _ => True end.
Proof.
  unfold FetchRequestHead_validate, reject, longer. intros H.
  apply bind_Ok in H as (? & H1%ensure_Ok & H). apply bind_Ok in H as (? & H2%ensure_Ok & H).
  apply bind_Ok in H as (? & H3%ensure_Ok & H). apply bind_Ok in H as (? & _ & H).
  apply bind_Ok in H as (? & _ & H). apply bind_Ok in H as (? & _ & H). apply ensure_Ok in H.
  rewrite negb_true_iff in H3, H. split_and!; try lia.
  - unfold script_source_ok. destruct (frh_script_source h) as [[[n|] p]|]; try done. cbn [nonce] in *.
    apply orb_false_iff in H3 as [_ H3]. by apply negb_false_iff in H3.
  - by destruct (frh_referrer h).
Qed.

Lemma request_head_carries (h : FetchRequestHead) :
  script_source_fits (frh_script_source h) -> carries false (put_request_head h) get_request_head h.
Proof.
  intros Hfit. unfold put_request_head, get_request_head. apply carries_check. intros [] Hvalid.
  pose proof (FetchRequestHead_valid h Hvalid) as (Hi & Hu & Hm & Hs & Hr).
  destruct h as [c1 c2 c3 i d ini dst ss u m hs mo cr ca re rf rp bl ka].
  cbn [frh_client frh_resulting_client frh_embedding_client frh_request_id frh_document frh_initiator frh_destination
    frh_script_source frh_url frh_method frh_headers frh_mode frh_credentials frh_cache frh_redirect frh_referrer
    frh_referrer_policy frh_body_length frh_keepalive] in *. carry.
  eapply carries_bind; [by apply script_source_carries|]. carry.
  eapply carries_bind; [by apply referrer_carries|]. carry.
  eapply carries_last; [apply flag_carries|]. carry.
Qed.

(** ** Response heads *)
Record BrowserFetchError := mkFetchError { bfe_kind : BrowserFetchErrorKind; bfe_message : ustring }.
Inductive FetchResponseResult :=
  | Success (response_type : FetchResponseType) (urls : list ustring) (status : u16) (headers : list (ustring * ustring))
  | Failure (error : BrowserFetchError).
Record FetchResponseHead := mkResponseHead { rsh_request_id : u64; rsh_result : FetchResponseResult }.
Record FetchResponseEnd := mkResponseEnd { rse_request_id : u64; rse_total_length : u32 }.
Record FetchResponseAbort := mkResponseAbort { rsa_request_id : u64; rsa_error : BrowserFetchError }.

Definition put_fetch_error (e : BrowserFetchError) : Writer () :=
  _ ← put_u8 (error_kind_tag (bfe_kind e)); put_string (text (bfe_message e)).
Definition get_fetch_error : Reader BrowserFetchError :=
  kind ← get_tag decode_error_kind; message ← get_string (64 * 1024); mret (mkFetchError kind message).
Definition put_response_head (h : FetchResponseHead) : Writer () :=
  _ ← put_u64 (val (rsh_request_id h));
  match rsh_result h with
  | Success response_type urls status headers =>
      _ ← put_u8 1;
      _ ← put_u8 (response_type_tag response_type);
      _ ← put_strings urls;
      _ ← put_u16 (val status);
      put_headers headers
  | Failure error => _ ← put_u8 2; put_fetch_error error
  end.
Definition get_response_urls : Reader (list ustring) :=
  count ← get_u32;
  _ ← lift (reject ((val count =? 0) || (MAX_REDIRECTS + 1 <? val count))%N "Fetch response URLs");
  get_times (get_string MAX_URL_BYTES) (N.to_nat (val count)).
Definition get_response_head : Reader FetchResponseHead :=
  request_id ← get_nonzero "Fetch response";
  tag ← get_u8;
  result ← match val tag with
           | 1 =>
               response_type ← get_tag decode_response_type;
               urls ← get_response_urls;
               status ← get_u16;
               headers ← get_headers;
               mret (Success response_type urls status headers)
           | 2 => error ← get_fetch_error; mret (Failure error)
           | _ => lift (Err (InvalidPayload "Fetch response result"))
           end%N;
  mret (mkResponseHead request_id result).

(** The browser's writer checks none of this; its own fetches keep to it. *)
Definition fetch_error_fits (e : BrowserFetchError) : Prop := (byte_length (bfe_message e) <= 64 * 1024)%N.
Definition response_head_fits (h : FetchResponseHead) : Prop :=
  val (rsh_request_id h) <> 0%N /\
  match rsh_result h with
  | Success _ urls _ _ =>
      (1 <= len urls <= MAX_REDIRECTS + 1)%N /\ Forall (fun u : ustring => byte_length u <= MAX_URL_BYTES)%N urls
  | Failure error => fetch_error_fits error
  end.
Lemma fetch_error_carries (e : BrowserFetchError) : fetch_error_fits e -> carries false (put_fetch_error e) get_fetch_error e.
Proof. destruct e as [k m]. intros H. unfold fetch_error_fits, put_fetch_error, get_fetch_error in *. simpl in *. carry. Qed.
Lemma response_urls_carry (urls : list ustring) :
  (1 <= len urls <= MAX_REDIRECTS + 1)%N -> Forall (fun u : ustring => byte_length u <= MAX_URL_BYTES)%N urls ->
  carries false (put_strings urls) get_response_urls urls.
Proof.
  intros Hn Hu. unfold put_strings, get_response_urls. unfold MAX_REDIRECTS in *.
  rewrite N.mod_small by (simpl; lia). eapply carries_bind; [apply carries_u32; lia|]. wire_reduce.
  apply carries_guard; [lia|]. unfold len. rewrite Nat2N.id. by apply carries_strings.
Qed.
Lemma response_head_carries (h : FetchResponseHead) :
  response_head_fits h -> carries false (put_response_head h) get_response_head h.
Proof.
  destruct h as [i [t us st hs|e]]; unfold response_head_fits, put_response_head, get_response_head;
    cbn [rsh_request_id rsh_result]; [intros (Hi & Hn & Hu)|intros [Hi He]]; apply N.eqb_neq in Hi; carry;
    (eapply carries_last; [|apply carries_done]); carry.
  - eapply carries_bind; [by apply response_urls_carry|]. carry.
  - eapply carries_last; [by apply fetch_error_carries|apply carries_done].
Qed.
