(* ===== verification/RuntimePayloads.v ===== *)
(** * RuntimePayloads: what a renderer reports of its document

    The runtime report of src/renderer_protocol/presentation.rs with its parts
    (wheel verdicts, history actions, navigation options of
    src/navigation/request.rs, load timings) and its bounded codec
    (presentation/{runtime_codec, wheel, codec}.rs). *)

From Stdlib Require Import Strings.Byte.
From S2P Require Import Prelude Text StrOps Limits Words Protocol WebStorage Wire WireTheory PayloadFields FetchRequest DevicePayloads Transfers DocumentPayloads.

Definition MAX_RUNTIME_REPORT_ENTRIES : N := 512.
Definition MAX_RUNTIME_REPORT_TEXT_BYTES : N := 64 * 1024.
Definition MAX_WHEEL_ACKNOWLEDGEMENTS : N := 128.
Definition MAX_FORM_BODY_BYTES : N := 5 * 1024 * 1024.

(** ** Wheel verdicts (presentation/wheel.rs) *)
Inductive WheelDecision := WheelCancelled | WheelNestedScroll | WheelViewport | WheelNoMotion.
Record WheelAcknowledgement := mkWheelAck {
  wa_sequence : u64; wa_decision : WheelDecision; wa_viewport_delta_y : f32; wa_dispatch_micros : u64 }.
Definition wheel_decision_tag (d : WheelDecision) : N :=
  match d with WheelCancelled => 1 | WheelNestedScroll => 2 | WheelViewport => 3 | WheelNoMotion => 4 end.
Definition decode_wheel_decision (tag : N) : result ProtocolError WheelDecision :=
  match tag with
  | 1 => Ok WheelCancelled | 2 => Ok WheelNestedScroll | 3 => Ok WheelViewport | 4 => Ok WheelNoMotion
  | _ => Err (InvalidPayload "wheel decision")
  end%N.
Definition is_viewport (d : WheelDecision) : bool := match d with WheelViewport => true | _ => false end.
(** [value != 0.0]: neither zero. *)
Definition f32_nonzero (x : f32) : bool := negb (f32_value x =? 0)%Z || f32_is_nan x.
(** [values.windows(2).any(..)] *)
Fixpoint not_increasing (l : list N) : bool :=
  match l with a :: ((b :: _) as l') => (b <=? a)%N || not_increasing l' | _ => false end.
Definition wheel_validate (l : list WheelAcknowledgement) : result ProtocolError () :=
  reject ((MAX_WHEEL_ACKNOWLEDGEMENTS <? len l)%N
          || match l with v :: _ => (wa_sequence v =? 0)%N | [] => false end
          || not_increasing (map (fun v => val (wa_sequence v)) l)
          || existsb (fun v => negb (f32_is_finite (wa_viewport_delta_y v))
                               || negb (is_viewport (wa_decision v)) && f32_nonzero (wa_viewport_delta_y v)) l)
    "wheel acknowledgements".
Definition put_wheel_ack (v : WheelAcknowledgement) : Writer () :=
  _ ← put_u64 (val (wa_sequence v));
  _ ← put_u8 (wheel_decision_tag (wa_decision v));
  _ ← put_f32 (wa_viewport_delta_y v);
  put_u64 (val (wa_dispatch_micros v)).
Definition get_wheel_ack : Reader WheelAcknowledgement :=
  sequence ← get_u64; decision ← get_tag decode_wheel_decision; delta ← get_f32; micros ← get_u64;
  mret (mkWheelAck sequence decision delta micros).
Definition put_wheel (l : list WheelAcknowledgement) : Writer () :=
  _ ← lift (wheel_validate l);
  _ ← put_u32 (len l mod 2 ^ 32);
  put_all put_wheel_ack l.
Definition get_wheel : Reader (list WheelAcknowledgement) :=
  count ← get_u32;
  _ ← lift (reject (MAX_WHEEL_ACKNOWLEDGEMENTS <? val count)%N "wheel acknowledgements");
  values ← get_times get_wheel_ack (N.to_nat (val count));
  _ ← lift (wheel_validate values);
  mret values.

Lemma wheel_ack_carries (v : WheelAcknowledgement) : carries false (put_wheel_ack v) get_wheel_ack v.
Proof.
  destruct v as [s d y m]. unfold put_wheel_ack, get_wheel_ack.
  cbn [wa_sequence wa_decision wa_viewport_delta_y wa_dispatch_micros]. destruct d; carry.
Qed.
Lemma wheel_carries (l : list WheelAcknowledgement) : carries false (put_wheel l) get_wheel l.
Proof.
  unfold put_wheel, get_wheel. apply carries_check. intros [] H. pose proof H as Hl.
  unfold wheel_validate, reject in Hl. apply ensure_Ok in Hl. rewrite negb_true_iff, !orb_false_iff in Hl.
  destruct Hl as [[[Hl _] _] _]. unfold MAX_WHEEL_ACKNOWLEDGEMENTS in *.
  rewrite N.mod_small by (simpl; lia). eapply carries_bind; [apply carries_u32; lia|]. wire_reduce.
  apply carries_guard; [by rewrite Hl|]. unfold len. rewrite Nat2N.id.
  eapply carries_last; [apply carries_all, Forall_forall; intros v _; apply wheel_ack_carries|].
  eapply carries_skip; [exact H|apply carries_done].
Qed.
#[export] Hint Resolve wheel_carries : wire.

(** ** Navigation options (src/navigation/request.rs) *)
Record FormPost := mkFormPost { content_type : ustring; form_body : list byte }.
Record NavigationOptions := mkNavigationOptions {
  target : ustring; post : option FormPost; noreferrer : bool; replace_history : bool;
  user_initiated : bool; form_submission : bool }.
Definition no_text : ustring := Str EmptyString eq_refl.
Definition NavigationOptions_default : NavigationOptions := mkNavigationOptions no_text None false false false false.
Definition form_type_ok (t : string) : bool :=
  negb (contains_char "013"%char t || contains_char "010"%char t || contains_char zero t)
  && (String.eqb t "application/x-www-form-urlencoded" || String.eqb t "text/plain"
      || starts_with "multipart/form-data; boundary=" t).
Definition NavigationOptions_validate (o : NavigationOptions) : result string () :=
  _ ← ensure (negb (longer (target o) 1024 || contains_char zero (target o))) "invalid navigation target";
  match post o with
  | Some p =>
      _ ← ensure (len (form_body p) <=? MAX_FORM_BODY_BYTES)%N "form submission exceeds the 5 MiB body limit";
      ensure (negb (longer (content_type p) 256 || negb (form_type_ok (content_type p)))) "invalid form submission content type"
  | None => Ok tt
  end.
Definition options_check (o : NavigationOptions) : result ProtocolError () :=
  map_err InvalidPayload (NavigationOptions_validate o).
Definition put_post (p : FormPost) : Writer () := _ ← put_string (text (content_type p)); put_blob (form_body p).
Definition get_post : Reader FormPost :=
  content_type ← get_string 256; body ← get_blob MAX_FORM_BODY_BYTES; mret (mkFormPost content_type body).
Definition put_navigation_options (o : NavigationOptions) : Writer () :=
  _ ← lift (options_check o);
  _ ← put_string (text (target o));
  _ ← put_bool (noreferrer o);
  _ ← put_bool (replace_history o);
  _ ← put_bool (user_initiated o);
  _ ← put_bool (form_submission o);
  put_option put_post (post o).
Definition get_navigation_options : Reader NavigationOptions :=
  target ← get_string 1024;
  noreferrer ← get_bool; replace_history ← get_bool; user_initiated ← get_bool; form_submission ← get_bool;
  post ← get_option get_post;
  let options := mkNavigationOptions target post noreferrer replace_history user_initiated form_submission in
  _ ← lift (options_check options);
  mret options.

Lemma NavigationOptions_valid (o : NavigationOptions) :
  options_check o = Ok tt -> (byte_length (target o) <= 1024)%N /\
  match post o with
  | Some p => (len (form_body p) <= MAX_FORM_BODY_BYTES)%N /\ (byte_length (content_type p) <= 256)%N
  | None => True
  end.
Proof.
  unfold options_check. intros H%map_err_Ok. unfold NavigationOptions_validate, longer in H.
  apply bind_Ok in H as (? & H1%ensure_Ok & H). split; [lia|]. destruct (post o) as [p|]; [|done].
  apply bind_Ok in H as (? & H2%ensure_Ok & H3%ensure_Ok). lia.
Qed.
Lemma navigation_options_carry (o : NavigationOptions) :
  carries false (put_navigation_options o) get_navigation_options o.
Proof.
  unfold put_navigation_options, get_navigation_options. apply carries_check. intros [] Hvalid.
  pose proof (NavigationOptions_valid o Hvalid) as [Ht Hp].
  destruct o as [t p a b c d]. cbn [target post noreferrer replace_history user_initiated form_submission] in *. carry.
  eapply carries_last; [apply carries_option|carry]. intros [ct body] ->. destruct Hp as [Hb Hct].
  unfold put_post, get_post. cbn [content_type form_body] in *. unfold len in Hb. carry.
Qed.
#[export] Hint Resolve navigation_options_carry : wire.

(** ** History actions (presentation.rs); a delta is an [i32] by its pattern *)
Inductive HistoryAction :=
  | HistoryUpdate (url : ustring) (replace : bool) (state : option ustring) (scroll_y : f32)
  | HistoryTraverse (delta : u32)
  | SetScrollRestoration (mode : ScrollRestorationMode).
(** [!y.is_finite() || y < 0.0] *)
Definition offset_bad (y : f32) : bool := negb (f32_is_finite y) || f32_gtb f32_0 y.
Definition history_update_ok (url : ustring) (state : option ustring) (scroll_y : f32) : bool :=
  negb (is_empty url || longer url MAX_URL_BYTES || offset_bad scroll_y
        || match state with Some s => longer s MAX_HISTORY_STATE_BYTES | None => false end).
Definition put_text (s : ustring) : Writer () := put_string (text s).
Definition put_history_action (a : HistoryAction) : Writer () :=
  match a with
  | HistoryUpdate url replace state scroll_y =>
      _ ← lift (ensure (history_update_ok url state scroll_y) (InvalidPayload "history update"));
      _ ← put_u8 1;
      _ ← put_string (text url);
      _ ← put_bool replace;
      _ ← put_option put_text state;
      put_f32 scroll_y
  | HistoryTraverse delta => _ ← put_u8 2; put_u32 (val delta)
  | SetScrollRestoration mode => _ ← put_u8 3; put_u8 (scroll_restoration_tag mode)
  end.
Definition get_history_action : Reader HistoryAction :=
  tag ← get_u8;
  match val tag with
  | 1 =>
      url ← get_string MAX_URL_BYTES;
      replace ← get_bool;
      state ← get_option (get_string MAX_HISTORY_STATE_BYTES);
      scroll_y ← get_f32;
      _ ← lift (reject (offset_bad scroll_y) "history scroll position");
      mret (HistoryUpdate url replace state scroll_y)
  | 2 => delta ← get_u32; mret (HistoryTraverse delta)
  | 3 => mode ← get_tag decode_scroll_restoration; mret (SetScrollRestoration mode)
  | _ => lift (Err (InvalidPayload "history action tag"))
  end%N.
Definition put_history_actions (l : list HistoryAction) : Writer () :=
  _ ← lift (reject (MAX_RUNTIME_REPORT_ENTRIES <? len l)%N "history action count");
  _ ← put_u32 (len l mod 2 ^ 32);
  put_all put_history_action l.
Definition get_history_actions : Reader (list HistoryAction) :=
  count ← get_u32;
  _ ← lift (reject (MAX_RUNTIME_REPORT_ENTRIES <? val count)%N "history action count");
  get_times get_history_action (N.to_nat (val count)).

Lemma history_action_carries (a : HistoryAction) : carries false (put_history_action a) get_history_action a.
Proof.
  destruct a as [u r s y|d|m]; unfold put_history_action, get_history_action; [|carry..].
  apply carries_check. intros [] H%ensure_Ok. unfold history_update_ok, longer in H.
  rewrite negb_true_iff, !orb_false_iff in H. destruct H as [[[_ Hu] Hy] Hs]. carry.
  eapply carries_bind; [apply carries_option; intros t ->; apply carries_string; lia|]. carry.
Qed.
Lemma history_actions_carry (l : list HistoryAction) : carries false (put_history_actions l) get_history_actions l.
Proof.
  unfold put_history_actions, get_history_actions. apply carries_check. intros [] H. pose proof H as Hl.
  unfold reject in Hl. apply ensure_Ok in Hl. unfold MAX_RUNTIME_REPORT_ENTRIES in Hl.
  rewrite N.mod_small by (simpl; lia). eapply carries_bind; [apply carries_u32; lia|]. wire_reduce.
  eapply carries_skip; [exact H|]. unfold len. rewrite Nat2N.id. apply carries_all, Forall_forall.
  intros a _. apply history_action_carries.
Qed.
#[export] Hint Resolve history_actions_carry : wire.

(** ** Texts of a report *)
Definition text_fits (s : ustring) : bool := (byte_length s <=? MAX_RUNTIME_REPORT_TEXT_BYTES)%N.
Definition put_report_text (field : string) (s : ustring) : Writer () :=
  _ ← lift (ensure (text_fits s) (InvalidPayload field)); put_string (text s).
Definition get_report_text : Reader ustring := get_string MAX_RUNTIME_REPORT_TEXT_BYTES.
Definition put_report_strings (field : string) (l : list ustring) : Writer () :=
  _ ← lift (reject (MAX_RUNTIME_REPORT_ENTRIES <? len l)%N field);
  _ ← put_u32 (len l mod 2 ^ 32);
  put_all (put_report_text "runtime report text") l.
Definition get_report_strings : Reader (list ustring) :=
  count ← get_u32;
  _ ← lift (reject (MAX_RUNTIME_REPORT_ENTRIES <? val count)%N "runtime report count");
  get_times get_report_text (N.to_nat (val count)).
Lemma report_text_carries (field : string) (s : ustring) : carries false (put_report_text field s) get_report_text s.
Proof.
  unfold put_report_text, get_report_text. apply carries_check. intros [] H%ensure_Ok. unfold text_fits in H.
  apply carries_string. lia.
Qed.
Lemma report_strings_carry (field : string) (l : list ustring) :
  carries false (put_report_strings field l) get_report_strings l.
Proof.
  unfold put_report_strings, get_report_strings. apply carries_check. intros [] H.
  unfold reject in H. apply ensure_Ok in H. unfold MAX_RUNTIME_REPORT_ENTRIES in *.
  rewrite N.mod_small by (simpl; lia). eapply carries_bind; [apply carries_u32; lia|]. wire_reduce.
  apply carries_guard; [lia|]. unfold len. rewrite Nat2N.id. apply carries_all, Forall_forall.
  intros s _. apply report_text_carries.
Qed.
#[export] Hint Resolve report_text_carries report_strings_carry : wire.

(** ** Media (presentation.rs) *)
Record MediaRuntimeReport := mkMediaReport {
  mrr_active : bool; mrr_playing : bool; mrr_ended : bool; current_time_100ns : u64; duration_100ns : u64;
  backend : ustring; mime_type : ustring; video_codec : ustring; audio_codec : ustring;
  encoded_queue_bytes : u64; encoded_queue_limit_bytes : u64; decoded_frame_queue_depth : u16;
  decoded_frame_queue_limit : u16; frames_submitted : u64; dropped_frames : u64; mrr_width : u32; mrr_height : u32;
  mrr_failure : option ustring }.
Definition put_media_report (m : MediaRuntimeReport) : Writer () :=
  _ ← put_bool (mrr_active m); _ ← put_bool (mrr_playing m); _ ← put_bool (mrr_ended m);
  _ ← put_u64 (val (current_time_100ns m)); _ ← put_u64 (val (duration_100ns m));
  _ ← put_report_text "media runtime text" (backend m);
  _ ← put_report_text "media runtime text" (mime_type m);
  _ ← put_report_text "media runtime text" (video_codec m);
  _ ← put_report_text "media runtime text" (audio_codec m);
  _ ← put_u64 (val (encoded_queue_bytes m)); _ ← put_u64 (val (encoded_queue_limit_bytes m));
  _ ← put_u16 (val (decoded_frame_queue_depth m)); _ ← put_u16 (val (decoded_frame_queue_limit m));
  _ ← put_u64 (val (frames_submitted m)); _ ← put_u64 (val (dropped_frames m));
  _ ← put_u32 (val (mrr_width m)); _ ← put_u32 (val (mrr_height m));
  put_option (put_report_text "media runtime failure") (mrr_failure m).
Definition get_media_report : Reader MediaRuntimeReport :=
  active ← get_bool; playing ← get_bool; ended ← get_bool;
  time ← get_u64; duration ← get_u64;
  backend ← get_report_text; mime ← get_report_text; video ← get_report_text; audio ← get_report_text;
  queue ← get_u64; limit ← get_u64; depth ← get_u16; depth_limit ← get_u16;
  submitted ← get_u64; dropped ← get_u64; width ← get_u32; height ← get_u32;
  failure ← get_option get_report_text;
  mret (mkMediaReport active playing ended time duration backend mime video audio queue limit depth depth_limit
          submitted dropped width height failure).
Lemma media_report_carries (m : MediaRuntimeReport) : carries false (put_media_report m) get_media_report m.
Proof.
  destruct m. unfold put_media_report, get_media_report.
  cbn [mrr_active mrr_playing mrr_ended current_time_100ns duration_100ns backend mime_type video_codec audio_codec
    encoded_queue_bytes encoded_queue_limit_bytes decoded_frame_queue_depth decoded_frame_queue_limit
    frames_submitted dropped_frames mrr_width mrr_height mrr_failure]. carry.
  eapply carries_last; [apply carries_option; intros s _; apply report_text_carries|carry].
Qed.

(** ** The report (presentation.rs, runtime_codec.rs) *)
Record NativeTextRejection := mkTextRejection {
  nr_sequence : u64; nr_generation : u32; nr_target : DocumentNodeId; nr_value : ustring;
  nr_selection_start : u32; nr_selection_end : u32 }.
Definition selection_in (start stop : u32) (value : ustring) : bool :=
  (start <=? stop)%N && (stop <=? len (encode_utf16 (text value)))%N.
Definition rejection_ok (r : NativeTextRejection) : bool :=
  negb (nr_sequence r =? 0)%N && selection_in (nr_selection_start r) (nr_selection_end r) (nr_value r).
Definition put_rejection (r : NativeTextRejection) : Writer () :=
  _ ← lift (ensure (rejection_ok r && negb (longer (nr_value r) MAX_RENDERER_TEXT_INPUT_BYTES))
              (InvalidPayload "native text rejection"));
  _ ← put_u64 (val (nr_sequence r));
  _ ← put_u32 (val (nr_generation r));
  _ ← put_u128 (val (node_value (nr_target r)));
  _ ← put_string (text (nr_value r));
  _ ← put_u32 (val (nr_selection_start r));
  put_u32 (val (nr_selection_end r)).
Definition get_rejection : Reader NativeTextRejection :=
  sequence ← get_u64; generation ← get_u32; target ← get_node;
  value ← get_string MAX_RENDERER_TEXT_INPUT_BYTES;
  selection_start ← get_u32; selection_end ← get_u32;
  let rejection := mkTextRejection sequence generation target value selection_start selection_end in
  _ ← lift (ensure (rejection_ok rejection) (InvalidPayload "native text rejection"));
  mret rejection.
Lemma rejection_carries (r : NativeTextRejection) : carries false (put_rejection r) get_rejection r.
Proof.
  unfold put_rejection, get_rejection. apply carries_check. intros [] H%ensure_Ok. apply andb_true_iff in H as [H Hv].
  unfold longer in Hv. destruct r as [s g t v a b].
  cbn [nr_sequence nr_generation nr_target nr_value nr_selection_start nr_selection_end] in *. carry.
Qed.

Record RuntimeReport := mkReport {
  scripts_executed : u64; dom_mutations : u64;
  errors : list ustring; console : list ustring; diagnostics : list ustring;
  navigation_url : option ustring; navigation_options : NavigationOptions;
  viewport_scroll_y : option f32; viewport_wheel_delta_y : f32;
  wheel_acknowledgements : list WheelAcknowledgement;
  wheel_has_blocking_listeners : option bool; wheel_has_nested_scroll : option bool;
  history_actions : list HistoryAction; history_traversal_ack : option u64;
  native_text_rejection : option NativeTextRejection; cookie_updates : list ustring;
  runtime_active : bool; runtime_stopped : bool; render_requested : bool; media : option MediaRuntimeReport }.

(** The options are written only with an address; otherwise the reader has the
    default ones. *)
Definition put_navigation (url : option ustring) (options : NavigationOptions) : Writer () :=
  _ ← put_bool (bool_decide (is_Some url));
  match url with Some url => _ ← put_string (text url); put_navigation_options options | None => mret tt end.
Definition get_navigation : Reader (option ustring * NavigationOptions) :=
  url ← get_option (get_string MAX_URL_BYTES);
  match url with
  | Some _ => options ← get_navigation_options; mret (url, options)
  | None => mret (url, NavigationOptions_default)
  end.
Definition put_scroll (y : f32) : Writer () :=
  _ ← lift (reject (offset_bad y) "viewport scroll offset"); put_f32 y.
Definition scroll_ok (o : option f32) : bool := match o with Some y => negb (offset_bad y) | None => true end.
Definition put_traversal_ack (v : u64) : Writer () :=
  _ ← lift (reject (v =? 0)%N "history traversal acknowledgement"); put_u64 (val v).
Definition ack_ok (o : option u64) : bool := match o with Some v => negb (val v =? 0)%N | None => true end.

Definition encode_runtime (r : RuntimeReport) : Writer () :=
  _ ← put_u64 (val (scripts_executed r));
  _ ← put_u64 (val (dom_mutations r));
  _ ← put_report_strings "runtime errors count" (errors r);
  _ ← put_report_strings "runtime console count" (console r);
  _ ← put_report_strings "runtime diagnostics count" (diagnostics r);
  _ ← put_navigation (navigation_url r) (navigation_options r);
  _ ← put_option put_scroll (viewport_scroll_y r);
  _ ← lift (ensure (f32_is_finite (viewport_wheel_delta_y r)) (InvalidPayload "viewport wheel delta"));
  _ ← put_f32 (viewport_wheel_delta_y r);
  _ ← put_wheel (wheel_acknowledgements r);
  _ ← put_option put_bool (wheel_has_blocking_listeners r);
  _ ← put_option put_bool (wheel_has_nested_scroll r);
  _ ← put_history_actions (history_actions r);
  _ ← put_option put_traversal_ack (history_traversal_ack r);
  _ ← put_option put_rejection (native_text_rejection r);
  _ ← put_report_strings "runtime cookie updates count" (cookie_updates r);
  _ ← put_bool (runtime_active r); _ ← put_bool (runtime_stopped r); _ ← put_bool (render_requested r);
  put_option put_media_report (media r).
Definition decode_runtime : Reader RuntimeReport :=
  scripts ← get_u64;
  mutations ← get_u64;
  errors ← get_report_strings; console ← get_report_strings; diagnostics ← get_report_strings;
  navigation ← get_navigation;
  scroll_y ← get_option get_f32;
  _ ← lift (ensure (scroll_ok scroll_y) (InvalidPayload "viewport scroll offset"));
  delta ← get_f32;
  _ ← lift (ensure (f32_is_finite delta) (InvalidPayload "viewport wheel delta"));
  wheel ← get_wheel;
  blocking ← get_option get_bool; nested ← get_option get_bool;
  actions ← get_history_actions;
  ack ← get_option get_u64;
  _ ← lift (ensure (ack_ok ack) (InvalidPayload "history traversal acknowledgement"));
  rejection ← get_option get_rejection;
  cookies ← get_report_strings;
  active ← get_bool; stopped ← get_bool; render ← get_bool;
  media ← get_option get_media_report;
  mret (mkReport scripts mutations errors console diagnostics (fst navigation) (snd navigation) scroll_y delta wheel blocking
          nested actions ack rejection cookies active stopped render media).

(** What the writer leaves to its caller: an address the reader will take, and no
    options without an address. *)
Definition report_fits (r : RuntimeReport) : Prop :=
  match navigation_url r with
  | Some url => (byte_length url <= MAX_URL_BYTES)%N
  | None => navigation_options r = NavigationOptions_default
  end.
Lemma navigation_carries (url : option ustring) (o : NavigationOptions) :
  match url with Some url => (byte_length url <= MAX_URL_BYTES)%N | None => o = NavigationOptions_default end ->
  carries false (put_navigation url o) get_navigation (url, o).
Proof.
  intros H. unfold put_navigation, get_navigation, get_option.
  eapply carries_same; [done|intros s; symmetry; apply wire_bind_assoc|].
  destruct url as [u|]; (eapply carries_bind; [apply carries_bool|]; cbv beta iota).
  - eapply carries_same; [done|intros s; symmetry; apply wire_bind_assoc|].
    eapply carries_bind; [by apply carries_string|]. change (mret (Some u) ≫= ?k) with (k (Some u)). cbv beta iota. carry.
  - subst o. apply carries_done.
Qed.

Lemma optional_scroll_refused (o : option f32) :
  scroll_ok o = false -> exists e, forall s, put_option put_scroll o s = Err e.
Proof.
  destruct o as [y|]; [|done]. cbn [scroll_ok]. intros H%negb_false_iff. exists (InvalidPayload "viewport scroll offset").
  intros s. unfold put_option, put_scroll, reject. by rewrite H.
Qed.
Lemma optional_scroll_carries (o : option f32) : carries false (put_option put_scroll o) (get_option get_f32) o.
Proof. apply carries_optional. intros y. unfold put_scroll. apply carries_check. intros _ _. apply carries_f32. Qed.
Lemma optional_ack_refused (o : option u64) :
  ack_ok o = false -> exists e, forall s, put_option put_traversal_ack o s = Err e.
Proof.
  destruct o as [y|]; [|done]. cbn [ack_ok]. intros H%negb_false_iff. exists (InvalidPayload "history traversal acknowledgement").
  intros s. unfold put_option, put_traversal_ack, reject. by rewrite H.
Qed.
Lemma optional_ack_carries (o : option u64) : carries false (put_option put_traversal_ack o) (get_option get_u64) o.
Proof. apply carries_optional. intros y. unfold put_traversal_ack. apply carries_check. intros _ _. apply carries_w64. Qed.
Lemma optional_bool_carries (o : option bool) : carries false (put_option put_bool o) (get_option get_bool) o.
Proof. apply carries_optional, carries_bool. Qed.
Lemma optional_rejection_carries (o : option NativeTextRejection) :
  carries false (put_option put_rejection o) (get_option get_rejection) o.
Proof. apply carries_optional, rejection_carries. Qed.
Lemma optional_media_carries (o : option MediaRuntimeReport) :
  carries false (put_option put_media_report o) (get_option get_media_report) o.
Proof. apply carries_optional, media_report_carries. Qed.
#[export] Hint Resolve optional_scroll_carries optional_bool_carries optional_rejection_carries
  optional_media_carries : wire.

Lemma runtime_carries (r : RuntimeReport) : report_fits r -> carries false (encode_runtime r) decode_runtime r.
Proof.
  intros Hfit. unfold encode_runtime, decode_runtime, report_fits in *.
  destruct r as [x1 x2 x3 x4 x5 url opts sy wd wa bl ns ha ack rej cu ra rs rr md].
  cbn [scripts_executed dom_mutations errors console diagnostics navigation_url navigation_options viewport_scroll_y
    viewport_wheel_delta_y wheel_acknowledgements wheel_has_blocking_listeners wheel_has_nested_scroll history_actions
    history_traversal_ack native_text_rejection cookie_updates runtime_active runtime_stopped render_requested media] in *.
  carry. eapply carries_bind; [by apply navigation_carries|]. cbn [fst snd].
  destruct (scroll_ok sy) eqn:Hsy; [|by apply carries_refused, optional_scroll_refused]. carry.
  destruct (ack_ok ack) eqn:Hack; [|by apply carries_refused, optional_ack_refused].
  eapply carries_bind; [apply optional_ack_carries|]. carry.
Qed.

(** ** Load timings (engine/layout/engine/stats.rs, presentation.rs, presentation/codec.rs) *)
Record LayoutStats := mkLayoutStats {
  passes : u64; boxes_rebuilt : u64; blocks_laid_out : u64; subtrees_replayed : u64; items_emitted : u64;
  items_replayed : u64; box_tree_micros : u64; block_layout_micros : u64; inline_geometry_micros : u64;
  overflow_micros : u64; paint_order_micros : u64; hit_test_micros : u64; sticky_micros : u64 }.
Definition to_fields (s : LayoutStats) : list u64 :=
  [passes s; boxes_rebuilt s; blocks_laid_out s; subtrees_replayed s; items_emitted s; items_replayed s;
   box_tree_micros s; block_layout_micros s; inline_geometry_micros s; overflow_micros s; paint_order_micros s;
   hit_test_micros s; sticky_micros s].
(** The array has thirteen fields, so the other case does not arise. *)
Definition from_fields (l : list u64) : option LayoutStats :=
  match l with
  | [a; b; c; d; e; f; g; h; i; j; k; l; m] => Some (mkLayoutStats a b c d e f g h i j k l m)
  | _ => None
  end.
Record PageLoadReport := mkLoadReport {
  parse_micros : u64; html_parse_micros : u64; resource_processing_micros : u64; script_micros : u64;
  script_fetch_micros : u64; style_micros : u64; layout_micros : u64; text_measure_count : u64;
  text_shape_cache_hits : u64; text_shape_cache_misses : u64; text_shape_cache_flushes : u64;
  text_shape_cache_entries : u64; font_catalog_micros : u64; font_select_micros : u64;
  open_type_shape_micros : u64; glyph_raster_micros : u64; presentation_encode_micros : u64;
  presentation_decode_micros : u64; layout : LayoutStats }.
Definition put_w64 (v : u64) : Writer () := put_u64 (val v).
Definition encode_load (r : PageLoadReport) : Writer () :=
  _ ← put_w64 (parse_micros r); _ ← put_w64 (html_parse_micros r); _ ← put_w64 (resource_processing_micros r);
  _ ← put_w64 (script_micros r); _ ← put_w64 (script_fetch_micros r); _ ← put_w64 (style_micros r);
  _ ← put_w64 (layout_micros r); _ ← put_w64 (text_measure_count r); _ ← put_w64 (text_shape_cache_hits r);
  _ ← put_w64 (text_shape_cache_misses r); _ ← put_w64 (text_shape_cache_flushes r);
  _ ← put_w64 (text_shape_cache_entries r); _ ← put_w64 (font_catalog_micros r); _ ← put_w64 (font_select_micros r);
  _ ← put_w64 (open_type_shape_micros r); _ ← put_w64 (glyph_raster_micros r);
  _ ← put_w64 (presentation_encode_micros r); _ ← put_w64 (presentation_decode_micros r);
  put_all put_w64 (to_fields (layout r)).
Definition decode_load : Reader PageLoadReport :=
  a ← get_u64; b ← get_u64; c ← get_u64; d ← get_u64; e ← get_u64; f ← get_u64; g ← get_u64; h ← get_u64;
  i ← get_u64; j ← get_u64; k ← get_u64; l ← get_u64; m ← get_u64; n ← get_u64; o ← get_u64; p ← get_u64;
  q ← get_u64; r ← get_u64;
  fields ← get_times get_u64 13;
  stats ← lift (ok_or (from_fields fields) (InvalidPayload "layout statistics"));
  mret (mkLoadReport a b c d e f g h i j k l m n o p q r stats).

Lemma carries_put_w64 (v : u64) : carries false (put_w64 v) get_u64 v.
Proof. apply carries_w64. Qed.
#[export] Hint Resolve carries_put_w64 : wire.
Lemma load_carries (r : PageLoadReport) : carries false (encode_load r) decode_load r.
Proof.
  destruct r as [a b c d e f g h i j k l m n o p q r st]. unfold encode_load, decode_load.
  cbn [parse_micros html_parse_micros resource_processing_micros script_micros script_fetch_micros style_micros
    layout_micros text_measure_count text_shape_cache_hits text_shape_cache_misses text_shape_cache_flushes
    text_shape_cache_entries font_catalog_micros font_select_micros open_type_shape_micros glyph_raster_micros
    presentation_encode_micros presentation_decode_micros layout].
  do 18 (eapply carries_bind; [apply carries_put_w64|]).
  eapply carries_last; [apply (carries_all put_w64 get_u64 (to_fields st)), Forall_forall; intros v _; apply carries_w64|].
  destruct st. apply carries_done.
Qed.
#[export] Hint Resolve load_carries : wire.

Record RendererRuntimeUpdate := mkRuntimeUpdate {
  rru_document : DocumentId; clock_advanced : bool; runtime : RuntimeReport; load : PageLoadReport;
  next_timer_micros : option u64 }.
Definition put_runtime_update (u : RendererRuntimeUpdate) : Writer () :=
  _ ← put_u64 (id_value (rru_document u));
  _ ← put_bool (clock_advanced u);
  _ ← encode_runtime (runtime u);
  _ ← encode_load (load u);
  put_option (fun v : u64 => put_u64 (val v)) (next_timer_micros u).
Definition get_runtime_update : Reader RendererRuntimeUpdate :=
  document ← get_document;
  clock_advanced ← get_bool;
  runtime ← decode_runtime;
  load ← decode_load;
  next_timer_micros ← get_option get_u64;
  mret (mkRuntimeUpdate document clock_advanced runtime load next_timer_micros).
Lemma runtime_update_carries (u : RendererRuntimeUpdate) :
  report_fits (runtime u) -> carries false (put_runtime_update u) get_runtime_update u.
Proof.
  intros Hfit. destruct u as [d c r l t]. unfold put_runtime_update, get_runtime_update.
  cbn [rru_document clock_advanced runtime load next_timer_micros] in *. carry.
  eapply carries_bind; [by apply runtime_carries|]. carry.
Qed.
