(* ===== verification/InputPayloads.v ===== *)
(** * InputPayloads: user input on the pipe

    The input types of src/renderer_protocol/input.rs and input/{native_text,
    pointer_lock, selection}.rs with their checks, and their codec
    (codec/payload/input.rs, input/text.rs). *)

From Stdlib Require Import Strings.Byte.
From S2P Require Import Prelude Text Limits Words Protocol WebStorage Wire WireTheory PayloadFields FetchRequest DevicePayloads Transfers DocumentPayloads RuntimePayloads.

(** ** Types *)
Record InputModifiers := mkModifiers { alt : bool; control : bool; shift : bool; meta : bool }.
Inductive PointerPhase := PtMove | PtLockedMove | PtLeave | PtDown | PtUp | PtActivate.
Inductive PointerButton := NoButton | PrimaryButton | MiddleButton | SecondaryButton.
Record PointerInput := mkPointer {
  pt_phase : PointerPhase; pt_button : PointerButton; pt_buttons : u8; pt_x : f32; pt_y : f32;
  pt_modifiers : InputModifiers; pt_target : option DocumentNodeId }.
Inductive KeyPhase := KeyDown | KeyUp.
Record KeyboardInput := mkKeyboard {
  kb_phase : KeyPhase; kb_key : ustring; kb_code : ustring; kb_repeat : bool; kb_modifiers : InputModifiers;
  kb_target : option DocumentNodeId }.
Record TextInput := mkTextInput { ti_target : DocumentNodeId; ti_value : ustring; ti_start : u32; ti_end : u32 }.
Inductive TextEditIntent := InsertText | DeleteContentBackward | DeleteContentForward | UnspecifiedEdit.
Record NativeTextInput := mkNativeText {
  nt_text : TextInput; nt_generation : u32; nt_intent : TextEditIntent; nt_pre_selection : option (u32 * u32) }.
Inductive TextSelectionDirection := SelectNone | SelectForward | SelectBackward.
Record TextSelectionInput := mkSelectionInput {
  tsi_target : DocumentNodeId; tsi_start : u32; tsi_end : u32; tsi_direction : TextSelectionDirection }.
Record FocusInput := mkFocus { fo_focused : bool; fo_target : option DocumentNodeId }.
Record ScrollInput := mkScroll { sc_x : f32; sc_y : f32 }.
Record WheelInput := mkWheel {
  wh_x : f32; wh_y : f32; wh_delta_x : f32; wh_delta_y : f32; wh_viewport_y : f32; wh_modifiers : InputModifiers;
  wh_target : option DocumentNodeId }.
Inductive DocumentLifecycle := LifeActive | LifeHidden | LifeFrozen.
Record HistoryTraversalInput := mkTraversal {
  ht_url : ustring; ht_state : option ustring; ht_length : u32; ht_index : u32;
  ht_restoration : ScrollRestorationMode; ht_scroll_y : option f32 }.
Inductive InputBody :=
  | Wheel (i : WheelInput) | Pointer (i : PointerInput) | Keyboard (i : KeyboardInput) | TextEdit (i : TextInput)
  | NativeText (i : NativeTextInput) | Selection (i : TextSelectionInput) | Focus (i : FocusInput)
  | Scroll (i : ScrollInput) | Lifecycle (state : DocumentLifecycle) | History (i : HistoryTraversalInput).
(** Every input names its document and its sequence number. *)
Record DocumentInput := mkInput { in_document : DocumentId; in_sequence : u64; in_body : InputBody }.
Definition coalescible (i : DocumentInput) : bool :=
  match in_body i with
  | Pointer p => match pt_phase p with PtMove | PtLockedMove => true | _ => false end
  | _ => false
  end.

(** ** Checks *)
Definition MAX_INPUT_COORDINATE : N := f32_16777216.
Definition MAX_KEY_NAME_BYTES : N := 64.
Definition coordinate_bad (x : f32) : bool := negb (f32_is_finite x) || negb (f32_within f32_0 MAX_INPUT_COORDINATE x).
Definition motion_bad (x : f32) : bool := negb (f32_is_finite x) || f32_gtb (f32_abs x) MAX_INPUT_COORDINATE.
Definition validate_coordinates (x y : f32) : result ProtocolError () :=
  reject (existsb coordinate_bad [x; y]) "input coordinates".
Definition f32_zero : f32 := to_word _ 0.
Definition validate_selection (start stop : u32) : result ProtocolError () :=
  reject ((stop <? start) || (MAX_RENDERER_TEXT_INPUT_BYTES <? stop))%N "text selection offsets".
Definition TextInput_validate (i : TextInput) : result ProtocolError () :=
  reject (longer (ti_value i) MAX_RENDERER_TEXT_INPUT_BYTES || negb (selection_in (ti_start i) (ti_end i) (ti_value i)))
    "text input".
Definition NativeTextInput_validate (i : NativeTextInput) : result ProtocolError () :=
  _ ← TextInput_validate (nt_text i);
  reject (match nt_pre_selection i with
          | Some (start, stop) => ((stop <? start) || (MAX_RENDERER_TEXT_INPUT_BYTES <? stop))%N
          | None => false
          end) "native pre-edit selection".
Definition is_no_button (b : PointerButton) : bool := match b with NoButton => true | _ => false end.
Definition is_locked_move (p : PointerPhase) : bool := match p with PtLockedMove => true | _ => false end.
Definition InputBody_validate (b : InputBody) : result ProtocolError () :=
  match b with
  | Wheel i =>
      _ ← validate_coordinates (wh_x i) (wh_y i);
      _ ← validate_coordinates f32_zero (wh_viewport_y i);
      reject (existsb motion_bad [wh_delta_x i; wh_delta_y i]) "wheel delta"
  | Pointer i =>
      _ ← reject (negb (N.ldiff (pt_buttons i) 7 =? 0))%N "pointer buttons";
      if is_locked_move (pt_phase i)
      then reject (negb (bool_decide (is_Some (pt_target i))) || negb (is_no_button (pt_button i))
                   || existsb motion_bad [pt_x i; pt_y i]) "locked pointer movement"
      else validate_coordinates (pt_x i) (pt_y i)
  | Keyboard i =>
      reject (is_empty (kb_key i) || longer (kb_key i) MAX_KEY_NAME_BYTES || is_empty (kb_code i)
              || longer (kb_code i) MAX_KEY_NAME_BYTES) "keyboard input"
  | TextEdit i => TextInput_validate i
  | NativeText i => NativeTextInput_validate i
  | Selection i => validate_selection (tsi_start i) (tsi_end i)
  | Focus _ | Lifecycle _ => Ok tt
  | Scroll i => validate_coordinates (sc_x i) (sc_y i)
  | History i =>
      reject (is_empty (ht_url i) || longer (ht_url i) MAX_URL_BYTES
              || match ht_state i with Some s => longer s MAX_HISTORY_STATE_BYTES | None => false end
              || (ht_length i =? 0)%N || (MAX_SESSION_HISTORY_ENTRIES <? ht_length i)%N || (ht_length i <=? ht_index i)%N
              || match ht_scroll_y i with Some y => coordinate_bad y | None => false end) "history traversal input"
  end.
Definition DocumentInput_validate (i : DocumentInput) : result ProtocolError () :=
  _ ← reject (in_sequence i =? 0)%N "input sequence";
  InputBody_validate (in_body i).

(** ** Tags *)
Definition pointer_phase_tag (p : PointerPhase) : N :=
  match p with PtMove => 1 | PtLockedMove => 6 | PtLeave => 5 | PtDown => 2 | PtUp => 3 | PtActivate => 4 end.
Definition decode_pointer_phase (tag : N) : result ProtocolError PointerPhase :=
  match tag with
  | 1 => Ok PtMove | 6 => Ok PtLockedMove | 5 => Ok PtLeave | 2 => Ok PtDown | 3 => Ok PtUp | 4 => Ok PtActivate
  | _ => Err (InvalidPayload "pointer phase")
  end%N.
Definition pointer_button_tag (b : PointerButton) : N :=
  match b with NoButton => 0 | PrimaryButton => 1 | MiddleButton => 2 | SecondaryButton => 3 end.
Definition decode_pointer_button (tag : N) : result ProtocolError PointerButton :=
  match tag with
  | 0 => Ok NoButton | 1 => Ok PrimaryButton | 2 => Ok MiddleButton | 3 => Ok SecondaryButton
  | _ => Err (InvalidPayload "pointer button")
  end%N.
Definition key_phase_tag (p : KeyPhase) : N := match p with KeyDown => 1 | KeyUp => 2 end.
Definition decode_key_phase (tag : N) : result ProtocolError KeyPhase :=
  match tag with 1 => Ok KeyDown | 2 => Ok KeyUp | _ => Err (InvalidPayload "keyboard phase") end%N.
Definition lifecycle_tag (s : DocumentLifecycle) : N := match s with LifeActive => 1 | LifeHidden => 2 | LifeFrozen => 3 end.
Definition decode_lifecycle (tag : N) : result ProtocolError DocumentLifecycle :=
  match tag with
  | 1 => Ok LifeActive | 2 => Ok LifeHidden | 3 => Ok LifeFrozen | _ => Err (InvalidPayload "document lifecycle")
  end%N.
Definition intent_tag (i : TextEditIntent) : N :=
  match i with UnspecifiedEdit => 0 | InsertText => 1 | DeleteContentBackward => 2 | DeleteContentForward => 3 end.
Definition decode_intent (tag : N) : result ProtocolError TextEditIntent :=
  match tag with
  | 0 => Ok UnspecifiedEdit | 1 => Ok InsertText | 2 => Ok DeleteContentBackward | 3 => Ok DeleteContentForward
  | _ => Err (InvalidPayload "text edit intent")
  end%N.
Definition selection_direction_tag (d : TextSelectionDirection) : N :=
  match d with SelectNone => 1 | SelectForward => 2 | SelectBackward => 3 end.
Definition decode_selection_direction (tag : N) : result ProtocolError TextSelectionDirection :=
  match tag with
  | 1 => Ok SelectNone | 2 => Ok SelectForward | 3 => Ok SelectBackward
  | _ => Err (InvalidPayload "text selection direction")
  end%N.
Ltac each_tag := intros x; destruct x; carry.
Lemma pointer_phase_carries : forall x, carries false (put_u8 (pointer_phase_tag x)) (get_tag decode_pointer_phase) x.
Proof. each_tag. Qed.
Lemma pointer_button_carries : forall x, carries false (put_u8 (pointer_button_tag x)) (get_tag decode_pointer_button) x.
Proof. each_tag. Qed.
Lemma key_phase_carries : forall x, carries false (put_u8 (key_phase_tag x)) (get_tag decode_key_phase) x.
Proof. each_tag. Qed.
Lemma lifecycle_carries : forall x, carries false (put_u8 (lifecycle_tag x)) (get_tag decode_lifecycle) x.
Proof. each_tag. Qed.
Lemma intent_carries : forall x, carries false (put_u8 (intent_tag x)) (get_tag decode_intent) x.
Proof. each_tag. Qed.
Lemma selection_direction_carries :
  forall x, carries false (put_u8 (selection_direction_tag x)) (get_tag decode_selection_direction) x.
Proof. each_tag. Qed.
#[export] Hint Resolve pointer_phase_carries pointer_button_carries key_phase_carries lifecycle_carries intent_carries
  selection_direction_carries : wire.

(** ** Fields *)
Definition put_modifiers (m : InputModifiers) : Writer () :=
  _ ← put_bool (alt m); _ ← put_bool (control m); _ ← put_bool (shift m); put_bool (meta m).
Definition get_modifiers : Reader InputModifiers :=
  alt ← get_bool; control ← get_bool; shift ← get_bool; meta ← get_bool; mret (mkModifiers alt control shift meta).
Definition put_node (n : DocumentNodeId) : Writer () := put_u128 (val (node_value n)).
Definition put_target (t : option DocumentNodeId) : Writer () := put_option put_node t.
Definition get_target : Reader (option DocumentNodeId) := get_option get_node.
Definition put_pair (p : u32 * u32) : Writer () := _ ← put_u32 (val (p.1)); put_u32 (val (p.2)).
Definition get_pair : Reader (u32 * u32) := start ← get_u32; stop ← get_u32; mret (start, stop).
Definition put_text_input (i : TextInput) : Writer () :=
  _ ← put_node (ti_target i);
  _ ← put_string (text (ti_value i));
  _ ← put_u32 (val (ti_start i));
  put_u32 (val (ti_end i)).
Definition get_text_input : Reader TextInput :=
  target ← get_node; value ← get_string MAX_RENDERER_TEXT_INPUT_BYTES; start ← get_u32; stop ← get_u32;
  mret (mkTextInput target value start stop).

Lemma modifiers_carry (m : InputModifiers) : carries false (put_modifiers m) get_modifiers m.
Proof. destruct m. unfold put_modifiers, get_modifiers. cbn [alt control shift meta]. carry. Qed.
Lemma target_carries (t : option DocumentNodeId) : carries false (put_target t) get_target t.
Proof. apply carries_optional. intros n. apply carries_node. Qed.
Lemma put_node_carries (n : DocumentNodeId) : carries false (put_node n) get_node n.
Proof. apply carries_node. Qed.
Lemma optional_pair_carries (p : option (u32 * u32)) : carries false (put_option put_pair p) (get_option get_pair) p.
Proof. apply carries_optional. intros [a b]. unfold put_pair, get_pair. cbn [fst snd]. carry. Qed.
Lemma optional_f32_carries (o : option f32) : carries false (put_option put_f32 o) (get_option get_f32) o.
Proof. apply carries_optional, carries_f32. Qed.
#[export] Hint Resolve modifiers_carry target_carries put_node_carries optional_pair_carries optional_f32_carries : wire.
Lemma text_input_carries (i : TextInput) :
  TextInput_validate i = Ok tt -> carries false (put_text_input i) get_text_input i.
Proof.
  unfold TextInput_validate, reject, longer. intros H%ensure_Ok. destruct i as [t v a b].
  unfold put_text_input, get_text_input. cbn [ti_target ti_value ti_start ti_end] in *. carry.
Qed.

(** ** Inputs *)
Definition put_input_body (b : InputBody) : Writer () :=
  match b with
  | Wheel i =>
      _ ← put_f32 (wh_x i); _ ← put_f32 (wh_y i); _ ← put_f32 (wh_delta_x i); _ ← put_f32 (wh_delta_y i);
      _ ← put_f32 (wh_viewport_y i);
      _ ← put_modifiers (wh_modifiers i); put_target (wh_target i)
  | Pointer i =>
      _ ← put_u8 (pointer_phase_tag (pt_phase i)); _ ← put_u8 (pointer_button_tag (pt_button i));
      _ ← put_u8 (val (pt_buttons i));
      _ ← put_f32 (pt_x i); _ ← put_f32 (pt_y i);
      _ ← put_modifiers (pt_modifiers i); put_target (pt_target i)
  | Keyboard i =>
      _ ← put_u8 (key_phase_tag (kb_phase i));
      _ ← put_string (text (kb_key i)); _ ← put_string (text (kb_code i));
      _ ← put_bool (kb_repeat i);
      _ ← put_modifiers (kb_modifiers i); put_target (kb_target i)
  | TextEdit i => put_text_input i
  | NativeText i =>
      _ ← put_text_input (nt_text i);
      _ ← put_u32 (val (nt_generation i));
      _ ← put_u8 (intent_tag (nt_intent i));
      put_option put_pair (nt_pre_selection i)
  | Selection i =>
      _ ← put_node (tsi_target i);
      _ ← put_u32 (val (tsi_start i)); _ ← put_u32 (val (tsi_end i));
      put_u8 (selection_direction_tag (tsi_direction i))
  | Focus i => _ ← put_bool (fo_focused i); put_target (fo_target i)
  | Scroll i => _ ← put_f32 (sc_x i); put_f32 (sc_y i)
  | Lifecycle state => put_u8 (lifecycle_tag state)
  | History i =>
      _ ← put_string (text (ht_url i));
      _ ← put_option put_text (ht_state i);
      _ ← put_u32 (val (ht_length i)); _ ← put_u32 (val (ht_index i));
      _ ← put_u8 (scroll_restoration_tag (ht_restoration i));
      put_option put_f32 (ht_scroll_y i)
  end.
Definition input_kind (b : InputBody) : N :=
  match b with
  | Wheel _ => 0x0151 | Pointer _ => 0x0141 | Keyboard _ => 0x0143 | TextEdit _ => 0x0145 | NativeText _ => 0x0157
  | Selection _ => 0x0159 | Focus _ => 0x0147 | Scroll _ => 0x0149 | Lifecycle _ => 0x014b | History _ => 0x0155
  end.
Definition put_input (i : DocumentInput) : Writer () :=
  _ ← lift (DocumentInput_validate i);
  _ ← put_u64 (id_value (in_document i));
  _ ← put_u64 (val (in_sequence i));
  put_input_body (in_body i).

Definition get_input_body (kind : N) : Reader InputBody :=
  match kind with
  | 0x0151 =>
      x ← get_f32; y ← get_f32; dx ← get_f32; dy ← get_f32; vy ← get_f32; modifiers ← get_modifiers; target ← get_target;
      mret (Wheel (mkWheel x y dx dy vy modifiers target))
  | 0x0141 =>
      phase ← get_tag decode_pointer_phase; button ← get_tag decode_pointer_button; buttons ← get_u8;
      x ← get_f32; y ← get_f32; modifiers ← get_modifiers; target ← get_target;
      mret (Pointer (mkPointer phase button buttons x y modifiers target))
  | 0x0143 =>
      phase ← get_tag decode_key_phase; key ← get_string 64; code ← get_string 64; repeat_ ← get_bool;
      modifiers ← get_modifiers; target ← get_target;
      mret (Keyboard (mkKeyboard phase key code repeat_ modifiers target))
  | 0x0145 => input ← get_text_input; mret (TextEdit input)
  | 0x0157 =>
      input ← get_text_input; generation ← get_u32; intent ← get_tag decode_intent; pre ← get_option get_pair;
      mret (NativeText (mkNativeText input generation intent pre))
  | 0x0159 =>
      target ← get_node; start ← get_u32; stop ← get_u32; direction ← get_tag decode_selection_direction;
      mret (Selection (mkSelectionInput target start stop direction))
  | 0x0147 => focused ← get_bool; target ← get_target; mret (Focus (mkFocus focused target))
  | 0x0149 => x ← get_f32; y ← get_f32; mret (Scroll (mkScroll x y))
  | 0x014b => state ← get_tag decode_lifecycle; mret (Lifecycle state)
  | 0x0155 =>
      url ← get_string MAX_URL_BYTES; state ← get_option (get_string MAX_HISTORY_STATE_BYTES);
      length ← get_u32; index ← get_u32; restoration ← get_tag decode_scroll_restoration;
      scroll_y ← get_option get_f32;
      mret (History (mkTraversal url state length index restoration scroll_y))
  | _ => lift (Err (UnexpectedMessage kind))
  end%N.
(** The reader, once the document has been read. *)
Definition get_input (kind : N) (document : DocumentId) : Reader DocumentInput :=
  sequence ← get_u64;
  body ← get_input_body kind;
  let input := mkInput document sequence body in
  _ ← lift (DocumentInput_validate input);
  mret input.

Lemma input_body_carries (b : InputBody) :
  InputBody_validate b = Ok tt -> carries false (put_input_body b) (get_input_body (input_kind b)) b.
Proof.
  intros H. destruct b as [i|i|i|i|i|i|i|i|s|i]; cbn [put_input_body get_input_body input_kind InputBody_validate] in *.
  - destruct i. cbn [wh_x wh_y wh_delta_x wh_delta_y wh_viewport_y wh_modifiers wh_target]. carry.
  - destruct i. cbn [pt_phase pt_button pt_buttons pt_x pt_y pt_modifiers pt_target]. carry.
  - unfold reject, longer, MAX_KEY_NAME_BYTES in H. apply ensure_Ok in H.
    destruct i. cbn [kb_phase kb_key kb_code kb_repeat kb_modifiers kb_target] in *. carry.
  - eapply carries_last; [by apply text_input_carries|apply carries_done].
  - unfold NativeTextInput_validate in H. apply bind_Ok in H as ([] & Ht & _).
    destruct i. cbn [nt_text nt_generation nt_intent nt_pre_selection] in *.
    eapply carries_bind; [by apply text_input_carries|]. carry.
  - destruct i. cbn [tsi_target tsi_start tsi_end tsi_direction]. carry.
  - destruct i. cbn [fo_focused fo_target]. carry.
  - destruct i. cbn [sc_x sc_y]. carry.
  - carry.
  - unfold reject, longer in H. apply ensure_Ok in H. rewrite negb_true_iff, !orb_false_iff in H.
    destruct H as [[[[[[_ Hu] Hs] _] _] _] _].
    destruct i. cbn [ht_url ht_state ht_length ht_index ht_restoration ht_scroll_y] in *. carry.
    eapply carries_bind; [apply carries_option; intros t ->; apply carries_string; lia|]. carry.
Qed.
Lemma input_carries (i : DocumentInput) :
  carries false (put_input i) (document ← get_document; get_input (input_kind (in_body i)) document) i.
Proof.
  unfold put_input, get_input. apply carries_check. intros [] Hvalid. pose proof Hvalid as Hb.
  unfold DocumentInput_validate in Hb. apply bind_Ok in Hb as ([] & _ & Hb).
  destruct i as [d s b]. cbn [in_document in_sequence in_body] in *. carry.
  eapply carries_last; [by apply input_body_carries|]. carry.
Qed.

(** ** Answers and acknowledgements *)
Inductive PointerCursor := CursorDefault | CursorPointer.
Record PointerCursorResult := mkCursorResult { pcr_document : DocumentId; pcr_sequence : u64; pcr_cursor : PointerCursor }.
Record PresentationAcknowledgement := mkPresentationAck {
  pa_document : DocumentId; pa_revision : u64; pa_presented : bool; pa_controls_applied : bool }.
Inductive FullscreenAction := FullscreenEnter | FullscreenExit.
Record FullscreenRequest := mkFullscreenRequest { fsr_document : DocumentId; fsr_request_id : u64; fsr_action : FullscreenAction }.
Inductive Disposition := Entered | Exited | DeniedDisposition.
Record FullscreenResponse := mkFullscreenResponse { fsp_document : DocumentId; fsp_request_id : u64; fsp_disposition : Disposition }.
Record PointerLockRequest := mkLockRequest { plr_document : DocumentId; plr_request_id : u64; plr_target : option DocumentNodeId }.
Record PointerLockResponse := mkLockResponse { plp_document : DocumentId; plp_request_id : u64; plp_disposition : Disposition }.
Record TextSelectionUpdate := mkSelectionUpdate {
  tsu_document : DocumentId; tsu_target : DocumentNodeId; tsu_value : ustring; tsu_start : u32; tsu_end : u32;
  tsu_direction : TextSelectionDirection; tsu_observed_input_sequence : u64 }.

Definition PointerCursorResult_validate (r : PointerCursorResult) : result ProtocolError PointerCursorResult :=
  if (pcr_sequence r =? 0)%N then Err (InvalidPayload "pointer cursor sequence") else Ok r.
Definition PresentationAcknowledgement_validate (a : PresentationAcknowledgement) :
    result ProtocolError PresentationAcknowledgement :=
  if (pa_revision a =? 0)%N || (pa_controls_applied a && negb (pa_presented a))
  then Err (InvalidPayload "presentation acknowledgement") else Ok a.
Definition FullscreenRequest_validate (r : FullscreenRequest) : result ProtocolError FullscreenRequest :=
  if (fsr_request_id r =? 0)%N then Err (InvalidPayload "fullscreen request identifier") else Ok r.
Definition is_exited (d : Disposition) : bool := match d with Exited => true | _ => false end.
Definition FullscreenResponse_validate (r : FullscreenResponse) : result ProtocolError FullscreenResponse :=
  if (fsp_request_id r =? 0)%N && negb (is_exited (fsp_disposition r))
  then Err (InvalidPayload "fullscreen response identifier") else Ok r.
Definition PointerLockRequest_validate (r : PointerLockRequest) : result ProtocolError PointerLockRequest :=
  if (plr_request_id r =? 0)%N then Err (InvalidPayload "pointer lock request identifier") else Ok r.
Definition PointerLockResponse_validate (r : PointerLockResponse) : result ProtocolError PointerLockResponse :=
  if (plp_request_id r =? 0)%N && negb (is_exited (plp_disposition r))
  then Err (InvalidPayload "pointer lock response identifier") else Ok r.
Definition TextSelectionUpdate_validate (u : TextSelectionUpdate) : result ProtocolError () :=
  _ ← validate_selection (tsu_start u) (tsu_end u);
  reject (longer (tsu_value u) MAX_RENDERER_TEXT_INPUT_BYTES || (len (encode_utf16 (text (tsu_value u))) <? tsu_end u)%N)
    "text selection value".

(** [1], [2], [3] for both kinds of response. *)
Definition disposition_tag (d : Disposition) : N := match d with Entered => 1 | Exited => 2 | DeniedDisposition => 3 end.
Definition decode_disposition (field : string) (tag : N) : result ProtocolError Disposition :=
  match tag with 1 => Ok Entered | 2 => Ok Exited | 3 => Ok DeniedDisposition | _ => Err (InvalidPayload field) end%N.
Definition fullscreen_action_tag (a : FullscreenAction) : N := match a with FullscreenEnter => 1 | FullscreenExit => 2 end.
Definition decode_fullscreen_action (tag : N) : result ProtocolError FullscreenAction :=
  match tag with 1 => Ok FullscreenEnter | 2 => Ok FullscreenExit | _ => Err (InvalidPayload "fullscreen action") end%N.
Lemma disposition_carries (field : string) (d : Disposition) :
  carries false (put_u8 (disposition_tag d)) (get_tag (decode_disposition field)) d.
Proof. destruct d; carry. Qed.
Lemma fullscreen_action_carries (a : FullscreenAction) :
  carries false (put_u8 (fullscreen_action_tag a)) (get_tag decode_fullscreen_action) a.
Proof. destruct a; carry. Qed.
#[export] Hint Resolve disposition_carries fullscreen_action_carries : wire.

Definition put_presentation_ack (a : PresentationAcknowledgement) : Writer () :=
  a ← lift (PresentationAcknowledgement_validate a);
  _ ← put_u64 (id_value (pa_document a)); _ ← put_u64 (val (pa_revision a));
  _ ← put_bool (pa_presented a); put_bool (pa_controls_applied a).
Definition get_presentation_ack (document : DocumentId) : Reader PresentationAcknowledgement :=
  revision ← get_u64; presented ← get_bool; controls ← get_bool;
  lift (PresentationAcknowledgement_validate (mkPresentationAck document revision presented controls)).
Definition put_fullscreen_response (r : FullscreenResponse) : Writer () :=
  r ← lift (FullscreenResponse_validate r);
  _ ← put_u64 (id_value (fsp_document r)); _ ← put_u64 (val (fsp_request_id r)); put_u8 (disposition_tag (fsp_disposition r)).
Definition get_fullscreen_response (document : DocumentId) : Reader FullscreenResponse :=
  request_id ← get_u64; disposition ← get_tag (decode_disposition "fullscreen disposition");
  lift (FullscreenResponse_validate (mkFullscreenResponse document request_id disposition)).
Definition put_lock_response (r : PointerLockResponse) : Writer () :=
  r ← lift (PointerLockResponse_validate r);
  _ ← put_u64 (id_value (plp_document r)); _ ← put_u64 (val (plp_request_id r)); put_u8 (disposition_tag (plp_disposition r)).
Definition get_lock_response (document : DocumentId) : Reader PointerLockResponse :=
  request_id ← get_u64; disposition ← get_tag (decode_disposition "pointer lock disposition");
  lift (PointerLockResponse_validate (mkLockResponse document request_id disposition)).
Definition put_fullscreen_request (r : FullscreenRequest) : Writer () :=
  r ← lift (FullscreenRequest_validate r);
  _ ← put_u64 (id_value (fsr_document r)); _ ← put_u64 (val (fsr_request_id r)); put_u8 (fullscreen_action_tag (fsr_action r)).
Definition get_fullscreen_request (document : DocumentId) : Reader FullscreenRequest :=
  request_id ← get_u64; action ← get_tag decode_fullscreen_action;
  lift (FullscreenRequest_validate (mkFullscreenRequest document request_id action)).
Definition put_lock_request (r : PointerLockRequest) : Writer () :=
  r ← lift (PointerLockRequest_validate r);
  _ ← put_u64 (id_value (plr_document r)); _ ← put_u64 (val (plr_request_id r)); put_target (plr_target r).
Definition get_lock_request (document : DocumentId) : Reader PointerLockRequest :=
  request_id ← get_u64; target ← get_target;
  lift (PointerLockRequest_validate (mkLockRequest document request_id target)).
Definition put_selection_update (u : TextSelectionUpdate) : Writer () :=
  _ ← lift (TextSelectionUpdate_validate u);
  _ ← put_u64 (id_value (tsu_document u)); _ ← put_node (tsu_target u);
  _ ← put_u32 (val (tsu_start u)); _ ← put_u32 (val (tsu_end u));
  _ ← put_u8 (selection_direction_tag (tsu_direction u));
  _ ← put_u64 (val (tsu_observed_input_sequence u));
  put_string (text (tsu_value u)).
Definition get_selection_update (document : DocumentId) : Reader TextSelectionUpdate :=
  target ← get_node; start ← get_u32; stop ← get_u32; direction ← get_tag decode_selection_direction;
  sequence ← get_u64; value ← get_string MAX_RENDERER_TEXT_INPUT_BYTES;
  let update := mkSelectionUpdate document target value start stop direction sequence in
  _ ← lift (TextSelectionUpdate_validate update);
  mret update.
Definition cursor_tag (c : PointerCursor) : N := match c with CursorDefault => 1 | CursorPointer => 2 end.
Definition decode_cursor (tag : N) : result ProtocolError PointerCursor :=
  match tag with 1 => Ok CursorDefault | 2 => Ok CursorPointer | _ => Err (InvalidPayload "pointer cursor") end%N.
Definition put_cursor_result (r : PointerCursorResult) : Writer () :=
  r ← lift (PointerCursorResult_validate r);
  _ ← put_u64 (id_value (pcr_document r)); _ ← put_u64 (val (pcr_sequence r)); put_u8 (cursor_tag (pcr_cursor r)).
Definition get_cursor_result : Reader PointerCursorResult :=
  document ← get_document; sequence ← get_u64;
  cursor ← get_tag decode_cursor;
  lift (PointerCursorResult_validate (mkCursorResult document sequence cursor)).

#[export] Hint Unfold PointerCursorResult_validate PresentationAcknowledgement_validate FullscreenRequest_validate
  FullscreenResponse_validate PointerLockRequest_validate PointerLockResponse_validate : wire_validate.
Section answers.
Local Abbreviation with_document get := (document ← get_document; get document).
Lemma presentation_ack_carries (a : PresentationAcknowledgement) :
  carries false (put_presentation_ack a) (with_document get_presentation_ack) a.
Proof. destruct a. unfold put_presentation_ack, get_presentation_ack. carry. Qed.
Lemma fullscreen_response_carries (r : FullscreenResponse) :
  carries false (put_fullscreen_response r) (with_document get_fullscreen_response) r.
Proof. destruct r. unfold put_fullscreen_response, get_fullscreen_response. carry. Qed.
Lemma lock_response_carries (r : PointerLockResponse) :
  carries false (put_lock_response r) (with_document get_lock_response) r.
Proof. destruct r. unfold put_lock_response, get_lock_response. carry. Qed.
Lemma fullscreen_request_carries (r : FullscreenRequest) :
  carries false (put_fullscreen_request r) (with_document get_fullscreen_request) r.
Proof. destruct r. unfold put_fullscreen_request, get_fullscreen_request. carry. Qed.
Lemma lock_request_carries (r : PointerLockRequest) :
  carries false (put_lock_request r) (with_document get_lock_request) r.
Proof. destruct r. unfold put_lock_request, get_lock_request. carry. Qed.
Lemma selection_update_carries (u : TextSelectionUpdate) :
  carries false (put_selection_update u) (with_document get_selection_update) u.
Proof.
  unfold put_selection_update, get_selection_update. apply carries_check. intros [] Hvalid. pose proof Hvalid as Hl.
  unfold TextSelectionUpdate_validate, reject, longer in Hl. apply bind_Ok in Hl as (? & _ & Hl%ensure_Ok).
  destruct u as [d t v a b dir s].
  cbn [tsu_document tsu_target tsu_value tsu_start tsu_end tsu_direction tsu_observed_input_sequence] in *. carry.
Qed.
End answers.
Lemma cursor_result_carries (r : PointerCursorResult) : carries false (put_cursor_result r) get_cursor_result r.
Proof. destruct r as [d s []]; unfold put_cursor_result, get_cursor_result; carry. Qed.
