(* ===== verification/Handshake.v ===== *)
(** * Handshake: the fixed layouts of the pipe

    src/renderer_protocol/message.rs: nonces and their hexadecimal form, the
    limits of a renderer, its containment report and diagnostics; and the
    messages src/renderer_protocol/codec/payload.rs, payload/policy.rs and
    payload/test_command.rs lay out byte by byte. *)

From Stdlib Require Import Strings.Byte.
From S2P Require Import Prelude Text Limits Words Protocol Wire WireTheory PayloadFields Transfers.

(** ** Nonces (message.rs) *)
Definition NONCE_LENGTH : nat := 32.
Record Nonce := mkNonce { nonce_bytes : list byte; nonce_length_ok : (length nonce_bytes =? NONCE_LENGTH)%nat = true }.
Lemma nonce_eq (n m : Nonce) : nonce_bytes n = nonce_bytes m -> n = m.
Proof. destruct n, m; simpl. intros ->. f_equal. apply proof_irrel. Qed.
Lemma length_nonce (n : Nonce) : length (nonce_bytes n) = NONCE_LENGTH.
Proof. destruct n as [l H]. by apply Nat.eqb_eq. Qed.
Definition hex_char (v : N) : byte := byte_of (if (v <? 10)%N then 48 + v else 87 + v).
Definition to_hex_bytes (l : list byte) : list byte :=
  l ≫= fun b => [hex_char (Byte.to_N b / 16); hex_char (Byte.to_N b mod 16)].
Definition Nonce_to_hex (n : Nonce) : list byte := to_hex_bytes (nonce_bytes n).
Definition hex_digit (b : byte) : result ProtocolError N :=
  let v := Byte.to_N b in
  if ((48 <=? v) && (v <=? 57))%N then Ok (v - 48)%N
  else if ((97 <=? v) && (v <=? 102))%N then Ok (v - 97 + 10)%N
  else if ((65 <=? v) && (v <=? 70))%N then Ok (v - 65 + 10)%N
  else Err (InvalidPayload "nonce encoding").
(** [(high << 4) | low] for each pair of digits. *)
Fixpoint hex_pairs (l : list byte) : result ProtocolError (list byte) :=
  match l with
  | a :: b :: l =>
      high ← hex_digit a;
      low ← hex_digit b;
      rest ← hex_pairs l;
      Ok (byte_of (N.lor (N.shiftl high 4) low) :: rest)
  | _ => Ok []
  end.
Definition nonce_of (l : list byte) : result ProtocolError Nonce :=
  match Sumbool.sumbool_of_bool (length l =? NONCE_LENGTH)%nat with
  | left H => Ok (mkNonce l H)
  | right _ => Err (InvalidPayload "nonce")
  end.
Definition Nonce_from_hex (text : list byte) : result ProtocolError Nonce :=
  if negb (length text =? NONCE_LENGTH * 2)%nat then Err (InvalidPayload "nonce length")
  else bytes ← hex_pairs text; nonce_of bytes.

Lemma nonce_of_bytes (n : Nonce) : nonce_of (nonce_bytes n) = Ok n.
Proof.
  unfold nonce_of. destruct (Sumbool.sumbool_of_bool _) as [H|H].
  - f_equal. by apply nonce_eq.
  - destruct n as [l Hl]. simpl in H. congruence.
Qed.
(** Every byte is read back from its two digits: checked on all 256. *)
Lemma hex_byte (b : byte) :
  hex_digit (hex_char (Byte.to_N b / 16)) = Ok (Byte.to_N b / 16)%N
  /\ hex_digit (hex_char (Byte.to_N b mod 16)) = Ok (Byte.to_N b mod 16)%N
  /\ byte_of (N.lor (N.shiftl (Byte.to_N b / 16) 4) (Byte.to_N b mod 16)) = b.
Proof. destruct b; by vm_compute. Qed.
Lemma hex_pairs_back (l : list byte) : hex_pairs (to_hex_bytes l) = Ok l.
Proof.
  induction l as [|b l IH]; [done|]. destruct (hex_byte b) as (Hh & Hl & Hb).
  change (to_hex_bytes (b :: l)) with
    (hex_char (Byte.to_N b / 16) :: hex_char (Byte.to_N b mod 16) :: to_hex_bytes l).
  cbn [hex_pairs]. rewrite Hh, Hl, IH. cbn. by rewrite Hb.
Qed.
Lemma length_hex (l : list byte) : length (to_hex_bytes l) = (length l * 2)%nat.
Proof.
  induction l as [|b l IH]; [done|]. change (S (S (length (to_hex_bytes l))) = (S (length l) * 2)%nat). lia.
Qed.
(** The nonce on the renderer's command line is the nonce it was given. *)
Lemma nonce_hex_round_trip (n : Nonce) : Nonce_from_hex (Nonce_to_hex n) = Ok n.
Proof.
  unfold Nonce_from_hex, Nonce_to_hex. rewrite length_hex, length_nonce, Nat.eqb_refl. cbn [negb].
  rewrite hex_pairs_back. apply nonce_of_bytes.
Qed.

(** ** Fixed layouts (codec/payload.rs) *)
Record RendererLimits := mkLimits { max_control_payload : u32; max_frame_payload : u32; heartbeat_millis : u32 }.
Definition RendererLimits_default : RendererLimits :=
  mkLimits (to_word _ MAX_CONTROL_PAYLOAD) (to_word _ MAX_FRAME_PAYLOAD) (to_word _ 1000).
Definition limits_ok (l : RendererLimits) : bool :=
  negb ((max_control_payload l =? 0) || (MAX_CONTROL_PAYLOAD <? max_control_payload l)
        || (max_frame_payload l <? max_control_payload l) || (MAX_FRAME_PAYLOAD <? max_frame_payload l)
        || (heartbeat_millis l =? 0))%N.
Record ContainmentReport := mkContainment { app_container : bool; no_console_window : bool; minimal_environment : bool }.
(** The errors of a restriction report are [i32]s by their pattern. *)
Record RestrictionReport := mkRestriction {
  child_launch_denied : bool; loopback_denied : bool; internet_denied : bool;
  child_error : u32; loopback_error : u32; internet_error : u32 }.
Record RendererDiagnostic := mkDiagnostic { code : u16; diagnostic_text : ustring }.
Definition RendererDiagnostic_new (code : u16) (text : ustring) : result ProtocolError RendererDiagnostic :=
  if longer text MAX_RENDERER_DIAGNOSTIC_BYTES then Err (InvalidPayload "diagnostic length")
  else Ok (mkDiagnostic code text).
Inductive TestCommand :=
  | InternalError | DocumentError | Crash | AccessViolation | OutOfMemory | StackOverflow | Hang
  | DelayCommandRead (millis : u16) | Padding (bytes : u16) | NativeDiagnostics | WriteMalformedFrame
  | ProbeRestrictions (loopback_port : u16).

Definition field (from to : nat) (payload : list byte) : list byte := take (to - from) (drop from payload).
Definition word_at (hi : N) (from to : nat) (payload : list byte) : word hi := to_word hi (le_value (field from to payload)).
Definition require_length (payload : list byte) (expected : nat) : result ProtocolError () :=
  ensure (length payload =? expected)%nat (InvalidPayload "message length").
Definition bool_byte (b : bool) : byte := byte_of (if b then 1 else 0).
Definition boolean (b : byte) : result ProtocolError bool :=
  match Byte.to_N b with 0 => Ok false | 1 => Ok true | _ => Err (InvalidPayload "boolean") end%N.
(** [payload[i]], inside by the length check before it. *)
Definition byte_at (i : nat) (payload : list byte) : byte := default x00 (payload !! i).

Definition encode_text (t : ustring) : result ProtocolError (list byte) :=
  if longer t MAX_CONTROL_PAYLOAD then Err (PayloadTooLarge (byte_length (text t) mod 2 ^ 32))
  else Ok (String.list_byte_of_string (text t)).
Definition decode_text (l : list byte) : result ProtocolError ustring :=
  ok_or (to_ustring (String.string_of_list_byte l)) InvalidUtf8.

Definition encode_hello (n : Nonce) (context : BrowsingContextId) (l : RendererLimits) : list byte :=
  nonce_bytes n ++ le_bytes 8 (val (id_value context)) ++ le_bytes 4 (val (max_control_payload l))
  ++ le_bytes 4 (val (max_frame_payload l)) ++ le_bytes 4 (val (heartbeat_millis l)).
Definition decode_hello (payload : list byte) : result ProtocolError (Nonce * BrowsingContextId * RendererLimits) :=
  _ ← require_length payload (NONCE_LENGTH + 20);
  nonce ← nonce_of (field 0 32 payload);
  context ← BrowsingContextId_new (word_at u64_max 32 40 payload);
  let limits := mkLimits (word_at 4294967295 40 44 payload) (word_at 4294967295 44 48 payload)
                  (word_at 4294967295 48 52 payload) in
  _ ← ensure (limits_ok limits) (InvalidPayload "renderer limits");
  Ok (nonce, context, limits).
Definition encode_ready (n : Nonce) (context : BrowsingContextId) (c : ContainmentReport) : list byte :=
  nonce_bytes n ++ le_bytes 8 (val (id_value context))
  ++ [bool_byte (app_container c); bool_byte (no_console_window c); bool_byte (minimal_environment c)].
Definition decode_ready (payload : list byte) : result ProtocolError (Nonce * BrowsingContextId * ContainmentReport) :=
  _ ← require_length payload (NONCE_LENGTH + 11);
  nonce ← nonce_of (field 0 32 payload);
  context ← BrowsingContextId_new (word_at u64_max 32 40 payload);
  a ← boolean (byte_at 40 payload); b ← boolean (byte_at 41 payload); c ← boolean (byte_at 42 payload);
  Ok (nonce, context, mkContainment a b c).
Definition encode_token (t : u64) : list byte := le_bytes 8 (val t).
Definition decode_token (payload : list byte) : result ProtocolError u64 :=
  _ ← require_length payload 8; Ok (word_at u64_max 0 8 payload).
Definition encode_diagnostic (d : RendererDiagnostic) : result ProtocolError (list byte) :=
  t ← encode_text (diagnostic_text d); Ok (le_bytes 2 (val (code d)) ++ t).
Definition decode_diagnostic (payload : list byte) : result ProtocolError RendererDiagnostic :=
  _ ← ensure (2 <=? length payload)%nat (InvalidPayload "diagnostic");
  t ← decode_text (drop 2 payload);
  RendererDiagnostic_new (word_at 65535 0 2 payload) t.
Definition encode_restrictions (r : RestrictionReport) : list byte :=
  [bool_byte (child_launch_denied r); bool_byte (loopback_denied r); bool_byte (internet_denied r); x00]
  ++ le_bytes 4 (val (child_error r)) ++ le_bytes 4 (val (loopback_error r)) ++ le_bytes 4 (val (internet_error r)).
Definition decode_restrictions (payload : list byte) : result ProtocolError RestrictionReport :=
  _ ← require_length payload 16;
  _ ← ensure (Byte.to_N (byte_at 3 payload) =? 0)%N (InvalidPayload "restriction reserved byte");
  a ← boolean (byte_at 0 payload); b ← boolean (byte_at 1 payload); c ← boolean (byte_at 2 payload);
  Ok (mkRestriction a b c (word_at 4294967295 4 8 payload) (word_at 4294967295 8 12 payload)
        (word_at 4294967295 12 16 payload)).
Definition encode_test (c : TestCommand) : list byte :=
  match c with
  | InternalError => [byte_of 10] | NativeDiagnostics => [byte_of 12] | DocumentError => [byte_of 11]
  | Crash => [byte_of 1] | Hang => [byte_of 2] | WriteMalformedFrame => [byte_of 3]
  | ProbeRestrictions port => byte_of 4 :: le_bytes 2 (val port)
  | AccessViolation => [byte_of 5] | OutOfMemory => [byte_of 6] | StackOverflow => [byte_of 7]
  | DelayCommandRead millis => byte_of 8 :: le_bytes 2 (val millis)
  | Padding n => byte_of 9 :: le_bytes 2 (val n) ++ repeat x00 (N.to_nat (val n))
  end.
Definition decode_test (payload : list byte) : result ProtocolError TestCommand :=
  match payload with
  | [tag] =>
      match Byte.to_N tag with
      | 10 => Ok InternalError | 11 => Ok DocumentError | 12 => Ok NativeDiagnostics | 1 => Ok Crash | 2 => Ok Hang
      | 3 => Ok WriteMalformedFrame | 5 => Ok AccessViolation | 6 => Ok OutOfMemory | 7 => Ok StackOverflow
      | 9 | _ => Err (InvalidPayload "test command")
      end
  | tag :: low :: high :: padding =>
      let n := to_word 65535 (le_value [low; high]) in
      match Byte.to_N tag, padding with
      | 4, [] => Ok (ProbeRestrictions n)
      | 8, [] => Ok (DelayCommandRead n)
      | 9, _ =>
          if (length padding =? N.to_nat (val n))%nat && forallb (fun b => Byte.to_N b =? 0)%N padding
          then Ok (Padding n) else Err (InvalidPayload "test command")
      | _, _ => Err (InvalidPayload "test command")
      end
  | _ => Err (InvalidPayload "test command")
  end%N.

(** policy.rs *)
Definition flag (b : byte) (name : string) : result ProtocolError bool :=
  match Byte.to_N b with 0 => Ok false | 1 => Ok true | _ => Err (InvalidPayload name) end%N.
Definition encode_gpu_canvas (document : DocumentId) (enabled : bool) : list byte :=
  le_bytes 8 (val (id_value document)) ++ [bool_byte enabled].
Definition decode_gpu_canvas (payload : list byte) : result ProtocolError (DocumentId * bool) :=
  _ ← ensure (length payload =? 9)%nat (InvalidPayload "GPU Canvas policy length");
  enabled ← flag (byte_at 8 payload) "GPU Canvas policy flag";
  document ← DocumentId_new (word_at u64_max 0 8 payload);
  Ok (document, enabled).
Definition decode_accessibility (payload : list byte) : result ProtocolError bool :=
  match payload with
  | [value] => flag value "accessibility policy flag"
  | _ => Err (InvalidPayload "accessibility policy length")
  end.

(** ** They read back *)
Lemma field_app (from to : nat) (pre l post : list byte) :
  from = length pre -> to = (length pre + length l)%nat -> field from to (pre ++ l ++ post) = l.
Proof.
  intros -> ->. unfold field. rewrite drop_app_length. replace (length pre + length l - length pre)%nat with (length l) by lia.
  apply take_app_length.
Qed.
Lemma le_word {hi} (w : word hi) (k : nat) (l : list byte) :
  l = le_bytes k (val w) -> (hi < 256 ^ N.of_nat k)%N -> to_word hi (le_value l) = w.
Proof. intros -> Hk. pose proof (val_le w). rewrite le_value_bytes by lia. apply to_word_val. Qed.
Lemma word_at_app {hi} (w : word hi) (k from to : nat) (pre post : list byte) :
  from = length pre -> to = (length pre + k)%nat -> (hi < 256 ^ N.of_nat k)%N ->
  word_at hi from to (pre ++ le_bytes k (val w) ++ post) = w.
Proof.
  intros Hf Ht Hk. unfold word_at. rewrite (field_app from to pre (le_bytes k (val w))); [|done|by rewrite length_le_bytes].
  by apply le_word with k.
Qed.
Lemma field_head (to : nat) (l post : list byte) : to = length l -> field 0 to (l ++ post) = l.
Proof. intros ->. by apply (field_app 0 _ []). Qed.
Lemma word_at_head {hi} (w : word hi) (k : nat) (post : list byte) :
  (hi < 256 ^ N.of_nat k)%N -> word_at hi 0 k (le_bytes k (val w) ++ post) = w.
Proof. intros H. by apply (word_at_app w k 0 k []). Qed.
Lemma boolean_back (b : bool) : boolean (bool_byte b) = Ok b.
Proof. by destruct b. Qed.
Lemma flag_back (b : bool) (name : string) : flag (bool_byte b) name = Ok b.
Proof. by destruct b. Qed.
Lemma byte_at_app (i : nat) (pre post : list byte) (b : byte) : i = length pre -> byte_at i (pre ++ b :: post) = b.
Proof. intros ->. unfold byte_at. by rewrite list_lookup_middle. Qed.
(** Where the fields of a layout lie. *)
Ltac layout := rewrite ?length_app, ?length_nonce, ?length_le_bytes; unfold NONCE_LENGTH, u64_max; simpl; lia.

Lemma hello_back (n : Nonce) (c : BrowsingContextId) (l : RendererLimits) :
  limits_ok l = true -> decode_hello (encode_hello n c l) = Ok (n, c, l).
Proof.
  intros Hl. destruct l as [a b h]. unfold decode_hello, encode_hello. cbn [max_control_payload max_frame_payload heartbeat_millis].
  set (N0 := nonce_bytes n). set (C := le_bytes 8 _).
  unfold require_length. replace (length _ =? NONCE_LENGTH + 20)%nat with true by (symmetry; apply Nat.eqb_eq; subst N0 C; layout).
  cbn [ensure]. change (Ok tt ≫= ?k) with (k tt). cbv beta.
  rewrite (field_head 32 N0) by (subst N0; layout). subst N0. rewrite nonce_of_bytes.
  change (Ok ?x ≫= ?k) with (k x). cbv beta. subst C.
  rewrite (word_at_app (id_value c) 8 32 40 (nonce_bytes n)) by layout.
  unfold BrowsingContextId_new. rewrite nonzero_id_new_get. change (Ok ?x ≫= ?k) with (k x). cbv beta zeta.
  rewrite (app_assoc (nonce_bytes n)). rewrite (word_at_app a 4 40 44) by layout.
  rewrite (app_assoc (nonce_bytes n ++ _)). rewrite (word_at_app b 4 44 48) by layout.
  rewrite (app_assoc ((nonce_bytes n ++ _) ++ _)), <- (app_nil_r (le_bytes 4 (val h))).
  rewrite (word_at_app h 4 48 52) by layout. by rewrite Hl.
Qed.
Lemma ready_back (n : Nonce) (c : BrowsingContextId) (r : ContainmentReport) :
  decode_ready (encode_ready n c r) = Ok (n, c, r).
Proof.
  destruct r as [x y z]. unfold decode_ready, encode_ready. cbn [app_container no_console_window minimal_environment].
  unfold require_length. replace (length _ =? NONCE_LENGTH + 11)%nat with true by (symmetry; apply Nat.eqb_eq; layout).
  cbn [ensure]. change (Ok tt ≫= ?k) with (k tt). cbv beta.
  rewrite (field_head 32 (nonce_bytes n)) by layout. rewrite nonce_of_bytes.
  change (Ok ?v ≫= ?k) with (k v). cbv beta. rewrite (word_at_app (id_value c) 8 32 40 (nonce_bytes n)) by layout.
  unfold BrowsingContextId_new. rewrite nonzero_id_new_get. change (Ok ?v ≫= ?k) with (k v). cbv beta.
  rewrite (app_assoc (nonce_bytes n)), (byte_at_app 40) by layout. rewrite boolean_back.
  rewrite (cons_middle (bool_byte x)), (app_assoc _ [bool_byte x]), (byte_at_app 41) by layout. rewrite boolean_back.
  rewrite (cons_middle (bool_byte y)), (app_assoc _ [bool_byte y]), (byte_at_app 42) by layout. by rewrite boolean_back.
Qed.
Lemma token_back (t : u64) : decode_token (encode_token t) = Ok t.
Proof.
  unfold decode_token, encode_token, require_length. rewrite length_le_bytes. cbn [Nat.eqb ensure].
  change (Ok tt ≫= ?k) with (k tt). cbv beta. rewrite <- (app_nil_r (le_bytes 8 (val t))).
  by rewrite (word_at_head t 8).
Qed.
Lemma text_back (t : ustring) (p : list byte) : encode_text t = Ok p -> decode_text p = Ok t.
Proof.
  unfold encode_text, decode_text. destruct (longer t MAX_CONTROL_PAYLOAD); [done|]. intros [= <-].
  by rewrite string_of_bytes, to_ustring_text.
Qed.
Lemma diagnostic_back (d : RendererDiagnostic) (p : list byte) :
  (byte_length (diagnostic_text d) <= MAX_RENDERER_DIAGNOSTIC_BYTES)%N ->
  encode_diagnostic d = Ok p -> decode_diagnostic p = Ok d.
Proof.
  destruct d as [c t]. unfold encode_diagnostic, decode_diagnostic. cbn [code diagnostic_text]. intros Ht H.
  apply bind_Ok in H as (l & Hl & Hp). assert (p = le_bytes 2 (val c) ++ l) as -> by congruence. apply text_back in Hl.
  replace (2 <=? length _)%nat with true by (symmetry; apply Nat.leb_le; layout). cbn [ensure].
  change (Ok tt ≫= ?k) with (k tt). cbv beta. change (drop 2 (le_bytes 2 (val c) ++ l)) with l. rewrite Hl.
  change (Ok ?v ≫= ?k) with (k v). cbv beta. rewrite (word_at_head c 2) by done.
  unfold RendererDiagnostic_new, longer. by replace (_ <? _)%N with false by lia.
Qed.
Lemma restrictions_back (r : RestrictionReport) : decode_restrictions (encode_restrictions r) = Ok r.
Proof.
  destruct r as [a b c x y z]. unfold decode_restrictions, encode_restrictions.
  cbn [child_launch_denied loopback_denied internet_denied child_error loopback_error internet_error].
  set (flags := [bool_byte a; bool_byte b; bool_byte c; x00]). unfold require_length.
  replace (length _ =? 16)%nat with true by (symmetry; apply Nat.eqb_eq; subst flags; layout).
  cbn [ensure]. change (Ok tt ≫= ?k) with (k tt). cbv beta.
  change (byte_at 3 _) with x00. change (byte_at 0 _) with (bool_byte a). change (byte_at 1 _) with (bool_byte b).
  change (byte_at 2 _) with (bool_byte c). rewrite !boolean_back. change (Byte.to_N x00 =? 0)%N with true. cbn [ensure].
  change (Ok ?v ≫= ?k) with (k v). cbv beta.
  rewrite (word_at_app x 4 4 8 flags) by (subst flags; layout). rewrite (app_assoc flags).
  rewrite (word_at_app y 4 8 12) by (subst flags; layout). rewrite (app_assoc (flags ++ _)), <- (app_nil_r (le_bytes 4 (val z))).
  by rewrite (word_at_app z 4 12 16) by (subst flags; layout).
Qed.
Lemma test_back (c : TestCommand) : decode_test (encode_test c) = Ok c.
Proof.
  assert (forall n : u16, to_word 65535 (le_value [byte_of (n mod 256); byte_of (n / 256 mod 256)]) = n) as Hn.
  { intros n. by apply le_word with 2%nat. }
  destruct c as [| | | | | | |n|n| | |n]; try done; cbn [encode_test le_bytes app decode_test].
  - rewrite Hn. done.
  - rewrite Hn, repeat_length, Nat.eqb_refl.
    replace (forallb _ _) with true; [done|]. symmetry. apply forallb_forall. intros b Hb. by apply repeat_spec in Hb as ->.
  - rewrite Hn. done.
Qed.
Lemma gpu_canvas_back (d : DocumentId) (e : bool) : decode_gpu_canvas (encode_gpu_canvas d e) = Ok (d, e).
Proof.
  unfold decode_gpu_canvas, encode_gpu_canvas.
  replace (length _ =? 9)%nat with true by (symmetry; apply Nat.eqb_eq; layout). cbn [ensure].
  change (Ok tt ≫= ?k) with (k tt). cbv beta. rewrite (byte_at_app 8) by layout. rewrite flag_back.
  change (Ok ?v ≫= ?k) with (k v). cbv beta. rewrite (word_at_head (id_value d) 8) by done.
  unfold DocumentId_new. by rewrite nonzero_id_new_get.
Qed.
