(* ===== verification/Messages.v ===== *)
(** * Messages: everything the two ends of the pipe say

    [BrowserMessage] and [RendererMessage] of src/renderer_protocol/message.rs,
    and the dispatch of codec/payload.rs with payload/{document, input, state}.rs:
    which kind a message is sent as, and which reader a kind gets. The theorems
    say that what is encoded decodes to the same message, in both directions. *)

From Stdlib Require Import Strings.Byte.
From S2P Require Import Prelude Text Limits Words Protocol WebStorage StorageSync Wire WireTheory PayloadFields FetchRequest DevicePayloads MediaPayloads SensorPayloads FramePayloads Broadcast BroadcastCodec StatePayloads SocketPayloads Transfers DocumentPayloads FetchPayloads RuntimePayloads InputPayloads Handshake.

Inductive BrowserMessage :=
  | BmHello (nonce : Nonce) (context : BrowsingContextId) (limits : RendererLimits)
  | BmPing (token : u64)
  | BmShutdown
  | BmProtocolFailure (text : ustring)
  | BmBeginDocument (start : DocumentStart)
  | BmBeginStreamingDocument (start : DocumentStart)
  | BmAbortDocument (document : DocumentId) (message : ustring)
  | BmDocumentChunk (chunk : TransferChunk)
  | BmEndDocument (document : DocumentId)
  | BmCookieSnapshot (snapshot : CookieStateSnapshot)
  | BmStorageSnapshotStart (start : StorageSnapshotStart)
  | BmStorageSnapshotEntry (item : StorageSnapshotEntry)
  | BmStorageSnapshotEnd (stop : StorageSnapshotEnd)
  | BmStorageSync (sync : StorageSync)
  | BmFetchResponseStart (head : FetchResponseHead)
  | BmFetchResponseChunk (chunk : TransferChunk)
  | BmFetchResponseEnd (stop : FetchResponseEnd)
  | BmFetchResponseAbort (abort : FetchResponseAbort)
  | BmWebSocketEvent (event : WebSocketEvent)
  | BmDatabaseEvent (event : DatabaseEvent)
  | BmSpeechUpdate (update : SpeechUpdate)
  | BmNotificationUpdate (update : NotificationUpdate)
  | BmClipboardUpdate (update : ClipboardUpdate)
  | BmFilePickerUpdate (update : FilePickerUpdate)
  | BmPermissionUpdate (update : PermissionUpdate)
  | BmGeolocationUpdate (update : GeolocationUpdate)
  | BmMediaDeviceUpdate (update : MediaDeviceUpdate)
  | BmMediaCaptureUpdate (update : MediaCaptureUpdate)
  | BmMediaCaptureFrame (frame : MediaCaptureFrame)
  | BmSensorUpdate (update : SensorUpdate)
  | BmBroadcastDelivery (delivery : BroadcastDelivery)
  | BmWakeLockUpdate (update : WakeLockUpdate)
  | BmAdvanceTime (document : DocumentId) (elapsed_micros : u64) (max_callbacks : u32)
  | BmViewportChanged (document : DocumentId) (viewport : PresentedViewport)
  | BmInput (input : DocumentInput)
  | BmPresentationAcknowledged (acknowledgement : PresentationAcknowledgement)
  | BmFullscreenResponse (response : FullscreenResponse)
  | BmPointerLockResponse (response : PointerLockResponse)
  | BmCancelDocument (document : DocumentId)
  | BmGpuCanvasPolicy (document : DocumentId) (enabled : bool)
  | BmAccessibilityPolicy (enabled : bool)
  | BmTest (command : TestCommand).

Inductive NavigationDisposition := CurrentTab | NewForegroundTab | NewBackgroundTab.
Inductive NavigationCause := ByUserActivation | ByRedirect.
Inductive RendererMessage :=
  | RmWebSocketCommand (command : WebSocketCommand)
  | RmDatabaseCommand (command : DatabaseCommand)
  | RmSpeechRequest (request : SpeechRequest)
  | RmNotificationRequest (request : NotificationRequest)
  | RmProtocolHandlerRequest (request : ProtocolHandlerRequest)
  | RmClipboardRequest (request : ClipboardRequest)
  | RmFilePickerRequest (request : FilePickerRequest)
  | RmPermissionRequest (request : PermissionRequest)
  | RmGeolocationRequest (request : GeolocationRequest)
  | RmMediaDeviceRequest (request : MediaDeviceRequest)
  | RmMediaCaptureRequest (request : MediaCaptureRequest)
  | RmSensorRequest (request : SensorRequest)
  | RmBroadcastCommand (command : BroadcastCommand)
  | RmWakeLockRequest (request : WakeLockRequest)
  | RmVideoFrame (chunk : VideoFrameChunk)
  | RmReady (nonce : Nonce) (context : BrowsingContextId) (containment : ContainmentReport)
  | RmPong (token : u64)
  | RmShutdownComplete
  | RmDiagnostic (diagnostic : RendererDiagnostic)
  | RmFetchBatchStart (document : DocumentId) (batch_id : u64) (request_count : u32)
  | RmFetchRequestStart (batch_id : u64) (request : FetchRequestHead)
  | RmFetchRequestChunk (chunk : TransferChunk)
  | RmFetchRequestEnd (request_id : u64)
  | RmFetchRequestAbort (document : DocumentId) (request_id : u64)
  | RmFetchResponseConsumed (document : DocumentId) (request_id : u64) (total : u32)
  | RmPresentationStart (document : DocumentId) (revision : u64) (total_length : u32) (encode_micros : u64)
  | RmPresentationChunk (chunk : TransferChunk)
  | RmPresentationEnd (document : DocumentId) (revision : u64)
  | RmRuntimeUpdate (update : RendererRuntimeUpdate)
  | RmDocumentFailed (document : DocumentId) (detail : ustring)
  | RmNavigationRequested (document : DocumentId) (url : ustring) (disposition : NavigationDisposition)
      (cause : NavigationCause)
  | RmPointerCursor (result : PointerCursorResult)
  | RmScrollCompleted (document : DocumentId) (sequence : u64)
  | RmTextSelectionUpdate (update : TextSelectionUpdate)
  | RmFullscreenRequest (request : FullscreenRequest)
  | RmPointerLockRequest (request : PointerLockRequest)
  | RmCookieMutation (mutation : CookieMutation)
  | RmPolicyMutation (mutation : PolicyMutation)
  | RmStorageMutation (request : StorageMutationRequest)
  | RmStateSnapshotApplied (applied : StateSnapshotApplied)
  | RmRestrictions (report : RestrictionReport).

(** ** Encoding *)
Definition framed (kind : N) (w : Writer ()) : result ProtocolError (N * list byte) := p ← written w; Ok (kind, p).
Definition put_id (d : DocumentId) : Writer () := put_u64 (val (id_value d)).

Definition encode_browser_document (m : BrowserMessage) : result ProtocolError (N * list byte) :=
  match m with
  | BmBeginStreamingDocument start =>
      _ ← ensure (body_length start =? 0)%N (InvalidPayload "streaming document length");
      framed 0x0107 (put_document_start start)
  | BmAbortDocument document message =>
      _ ← reject (longer message (16 * 1024)) "navigation error length";
      framed 0x0109 (_ ← put_id document; put_string (text message))
  | BmBeginDocument start => framed 0x0101 (put_document_start start)
  | BmDocumentChunk chunk => framed 0x0103 (put_chunk chunk)
  | BmEndDocument document => framed 0x0105 (put_id document)
  | BmFetchResponseStart head => framed 0x0111 (put_response_head head)
  | BmFetchResponseChunk chunk => framed 0x0113 (put_chunk chunk)
  | BmFetchResponseEnd stop =>
      framed 0x0115 (_ ← put_u64 (val (rse_request_id stop)); put_u32 (val (rse_total_length stop)))
  | BmFetchResponseAbort abort =>
      framed 0x0117 (_ ← put_u64 (val (rsa_request_id abort)); put_fetch_error (rsa_error abort))
  | BmAdvanceTime document elapsed_micros max_callbacks =>
      framed 0x0121 (_ ← put_id document; _ ← put_u64 (val elapsed_micros); put_u32 (val max_callbacks))
  | BmViewportChanged document viewport => framed 0x0123 (_ ← put_id document; put_viewport viewport)
  | BmCancelDocument document => framed 0x0125 (put_id document)
  | _ => Err (InvalidPayload "browser document message")
  end.
Definition encode_browser_input (m : BrowserMessage) : result ProtocolError (N * list byte) :=
  match m with
  | BmInput input => framed (input_kind (in_body input)) (put_input input)
  | BmPresentationAcknowledged acknowledgement => framed 0x014d (put_presentation_ack acknowledgement)
  | BmFullscreenResponse response => framed 0x014f (put_fullscreen_response response)
  | BmPointerLockResponse response => framed 0x0153 (put_lock_response response)
  | _ => Err (InvalidPayload "browser input message")
  end.
Definition encode_browser_state (m : BrowserMessage) : result ProtocolError (N * list byte) :=
  match m with
  | BmCookieSnapshot snapshot => framed 0x0131 (put_cookie_snapshot snapshot)
  | BmStorageSnapshotStart start => framed 0x0133 (put_snapshot_start start)
  | BmStorageSnapshotEntry item => framed 0x0135 (put_snapshot_entry item)
  | BmStorageSnapshotEnd stop => framed 0x0137 (put_snapshot_end stop)
  | _ => Err (InvalidPayload "browser state message")
  end.
Definition encode_browser (m : BrowserMessage) : result ProtocolError (N * list byte) :=
  match m with
  | BmBroadcastDelivery delivery => framed 0x0201 (put_broadcast_delivery delivery)
  | BmDatabaseEvent event => framed 0x0181 (put_database_event event)
  | BmSpeechUpdate update => framed 0x0191 (put_speech_update update)
  | BmNotificationUpdate update => framed 0x01a1 (put_notification_update update)
  | BmPermissionUpdate update => framed 0x0221 (put_permission_update update)
  | BmGeolocationUpdate update => framed 0x01b1 (put_geolocation_update update)
  | BmMediaDeviceUpdate update => framed 0x01c1 (put_media_device_update update)
  | BmMediaCaptureUpdate update => framed 0x0231 (put_capture_update update)
  | BmMediaCaptureFrame frame => framed 0x0233 (put_capture_frame frame)
  | BmSensorUpdate update => framed 0x01d1 (put_sensor_update update)
  | BmClipboardUpdate update => framed 0x01f1 (put_clipboard_update update)
  | BmFilePickerUpdate update => framed 0x0241 (put_file_picker_update update)
  | BmWakeLockUpdate update => framed 0x0211 (put_wake_lock_update update)
  | BmWebSocketEvent event => framed 0x0171 (put_socket_event event)
  | BmStorageSync sync => framed 0x0138 (put_storage_sync sync)
  | BmGpuCanvasPolicy document enabled => Ok (0x0251, encode_gpu_canvas document enabled)
  | BmAccessibilityPolicy enabled => Ok (0x0253, [bool_byte enabled])
  | BmHello nonce context limits => Ok (1, encode_hello nonce context limits)
  | BmPing token => Ok (3, encode_token token)
  | BmShutdown => Ok (5, [])
  | BmProtocolFailure text => p ← encode_text text; Ok (7, p)
  | BmBeginDocument _ | BmBeginStreamingDocument _ | BmAbortDocument _ _ | BmDocumentChunk _ | BmEndDocument _
  | BmFetchResponseStart _ | BmFetchResponseChunk _ | BmFetchResponseEnd _ | BmFetchResponseAbort _
  | BmAdvanceTime _ _ _ | BmViewportChanged _ _ | BmCancelDocument _ => encode_browser_document m
  | BmInput _ | BmPresentationAcknowledged _ | BmFullscreenResponse _ | BmPointerLockResponse _ => encode_browser_input m
  | BmCookieSnapshot _ | BmStorageSnapshotStart _ | BmStorageSnapshotEntry _ | BmStorageSnapshotEnd _ =>
      encode_browser_state m
  | BmTest command => Ok (0x8001, encode_test command)
  end%N.

Definition navigation_disposition_tag (d : NavigationDisposition) : N :=
  match d with CurrentTab => 1 | NewForegroundTab => 2 | NewBackgroundTab => 3 end.
Definition decode_navigation_disposition (tag : N) : result ProtocolError NavigationDisposition :=
  match tag with
  | 1 => Ok CurrentTab | 2 => Ok NewForegroundTab | 3 => Ok NewBackgroundTab
  | _ => Err (InvalidPayload "navigation disposition")
  end%N.
Definition navigation_cause_tag (c : NavigationCause) : N := match c with ByUserActivation => 1 | ByRedirect => 2 end.
Definition decode_navigation_cause (tag : N) : result ProtocolError NavigationCause :=
  match tag with 1 => Ok ByUserActivation | 2 => Ok ByRedirect | _ => Err (InvalidPayload "navigation cause") end%N.
Lemma navigation_disposition_carries (d : NavigationDisposition) :
  carries false (put_u8 (navigation_disposition_tag d)) (get_tag decode_navigation_disposition) d.
Proof. destruct d; carry. Qed.
Lemma navigation_cause_carries (c : NavigationCause) :
  carries false (put_u8 (navigation_cause_tag c)) (get_tag decode_navigation_cause) c.
Proof. destruct c; carry. Qed.
#[export] Hint Resolve navigation_disposition_carries navigation_cause_carries : wire.

Definition encode_renderer_document (m : RendererMessage) : result ProtocolError (N * list byte) :=
  match m with
  | RmFetchBatchStart document batch_id request_count =>
      framed 0x0102 (_ ← put_id document; _ ← put_u64 (val batch_id); put_u32 (val request_count))
  | RmFetchRequestStart batch_id request => framed 0x0104 (_ ← put_u64 (val batch_id); put_request_head request)
  | RmFetchRequestChunk chunk => framed 0x0106 (put_chunk chunk)
  | RmFetchRequestEnd request_id => framed 0x0108 (put_u64 (val request_id))
  | RmFetchRequestAbort document request_id => framed 0x010a (_ ← put_id document; put_u64 (val request_id))
  | RmFetchResponseConsumed document request_id total =>
      framed 0x010c (_ ← put_id document; _ ← put_u64 (val request_id); put_u32 (val total))
  | RmPresentationStart document revision total_length encode_micros =>
      framed 0x0112 (_ ← put_id document; _ ← put_u64 (val revision); _ ← put_u32 (val total_length);
                     put_u64 (val encode_micros))
  | RmPresentationChunk chunk => framed 0x0114 (put_chunk chunk)
  | RmPresentationEnd document revision => framed 0x0116 (_ ← put_id document; put_u64 (val revision))
  | RmRuntimeUpdate update => framed 0x0120 (put_runtime_update update)
  | RmDocumentFailed document detail => framed 0x0118 (_ ← put_id document; put_string (text detail))
  | RmNavigationRequested document url disposition cause =>
      framed 0x011a (_ ← put_id document; _ ← put_string (text url);
                     _ ← put_u8 (navigation_disposition_tag disposition); put_u8 (navigation_cause_tag cause))
  | RmPointerCursor result => framed 0x011e (put_cursor_result result)
  | RmScrollCompleted document sequence =>
      _ ← reject (sequence =? 0)%N "scroll completion sequence";
      framed 0x0122 (_ ← put_id document; put_u64 (val sequence))
  | _ => Err (InvalidPayload "renderer document message")
  end.
Definition encode_renderer_input (m : RendererMessage) : result ProtocolError (N * list byte) :=
  match m with
  | RmFullscreenRequest request => framed 0x0150 (put_fullscreen_request request)
  | RmPointerLockRequest request => framed 0x0152 (put_lock_request request)
  | RmTextSelectionUpdate update => framed 0x0156 (put_selection_update update)
  | _ => Err (InvalidPayload "renderer input message")
  end.
Definition encode_renderer_state (m : RendererMessage) : result ProtocolError (N * list byte) :=
  match m with
  | RmCookieMutation mutation => framed 0x0132 (put_cookie_mutation mutation)
  | RmPolicyMutation mutation => framed 0x013a (put_policy_mutation mutation)
  | RmStorageMutation request => framed 0x0134 (put_storage_mutation request)
  | RmStateSnapshotApplied applied => framed 0x0136 (put_snapshot_applied applied)
  | _ => Err (InvalidPayload "renderer state message")
  end.
Definition encode_renderer (m : RendererMessage) : result ProtocolError (N * list byte) :=
  match m with
  | RmBroadcastCommand command => framed 0x0200 (put_broadcast_command command)
  | RmDatabaseCommand command => framed 0x0180 (put_database_command command)
  | RmSpeechRequest request => framed 0x0190 (put_speech_request request)
  | RmNotificationRequest request => framed 0x01a0 (put_notification_request request)
  | RmProtocolHandlerRequest request => framed 0x01e0 (put_protocol_handler_request request)
  | RmPermissionRequest request => framed 0x0220 (put_permission_request request)
  | RmGeolocationRequest request => framed 0x01b0 (put_geolocation_request request)
  | RmMediaDeviceRequest request => framed 0x01c0 (put_media_device_request request)
  | RmMediaCaptureRequest request => framed 0x0230 (put_capture_request request)
  | RmSensorRequest request => framed 0x01d0 (put_sensor_request request)
  | RmClipboardRequest request => framed 0x01f0 (put_clipboard_request request)
  | RmFilePickerRequest request => framed 0x0240 (put_file_picker_request request)
  | RmWakeLockRequest request => framed 0x0210 (put_wake_lock_request request)
  | RmWebSocketCommand command => framed 0x0170 (put_socket_command command)
  | RmVideoFrame chunk => framed 0x0160 (put_video_chunk chunk)
  | RmReady nonce context containment => Ok (2, encode_ready nonce context containment)
  | RmPong token => Ok (4, encode_token token)
  | RmShutdownComplete => Ok (6, [])
  | RmDiagnostic diagnostic => p ← encode_diagnostic diagnostic; Ok (8, p)
  | RmFetchBatchStart _ _ _ | RmFetchRequestStart _ _ | RmFetchRequestChunk _ | RmFetchRequestEnd _
  | RmFetchRequestAbort _ _ | RmFetchResponseConsumed _ _ _ | RmPresentationStart _ _ _ _ | RmPresentationChunk _
  | RmPresentationEnd _ _ | RmRuntimeUpdate _ | RmDocumentFailed _ _ | RmNavigationRequested _ _ _ _ | RmPointerCursor _
  | RmScrollCompleted _ _ => encode_renderer_document m
  | RmFullscreenRequest _ | RmPointerLockRequest _ | RmTextSelectionUpdate _ => encode_renderer_input m
  | RmCookieMutation _ | RmPolicyMutation _ | RmStorageMutation _ | RmStateSnapshotApplied _ => encode_renderer_state m
  | RmRestrictions report => Ok (0x8002, encode_restrictions report)
  end%N.

(** ** Decoding *)
(** The message a reader makes of a whole payload. *)
Definition decoded {A M} (r : Reader A) (c : A -> M) (payload : list byte) : result ProtocolError M :=
  a ← read_from r payload; Ok (c a).
(** A reader that is followed by [reader.finish()?]. *)
Definition closing {M} (r : Reader M) : Reader M := m ← r; _ ← get_finish; mret m.
Definition as_message {A M} (r : Reader A) (c : A -> M) : Reader M := a ← r; mret (c a).

Definition get_browser_document (kind : N) : Reader BrowserMessage :=
  match kind with
  | 0x0107 =>
      start ← get_document_start;
      _ ← lift (ensure (body_length start =? 0)%N (InvalidPayload "streaming document length"));
      mret (BmBeginStreamingDocument start)
  | 0x0109 => document ← get_document; message ← get_string (16 * 1024); mret (BmAbortDocument document message)
  | 0x0101 => as_message get_document_start BmBeginDocument
  | 0x0103 => as_message get_chunk BmDocumentChunk
  | 0x0105 => as_message get_document BmEndDocument
  | 0x0111 => as_message get_response_head BmFetchResponseStart
  | 0x0113 => as_message get_chunk BmFetchResponseChunk
  | 0x0115 =>
      request_id ← get_nonzero "Fetch response"; total_length ← get_u32;
      mret (BmFetchResponseEnd (mkResponseEnd request_id total_length))
  | 0x0117 =>
      request_id ← get_nonzero "Fetch response"; error ← get_fetch_error;
      mret (BmFetchResponseAbort (mkResponseAbort request_id error))
  | 0x0121 =>
      document ← get_document; elapsed ← get_u64; callbacks ← get_u32; mret (BmAdvanceTime document elapsed callbacks)
  | 0x0123 => document ← get_document; viewport ← get_viewport; mret (BmViewportChanged document viewport)
  | 0x0125 => as_message get_document BmCancelDocument
  | _ => lift (Err (UnexpectedMessage kind))
  end%N.
Definition decode_browser_document (kind : N) (payload : list byte) : result ProtocolError BrowserMessage :=
  read_from (closing (get_browser_document kind)) payload.
Definition get_browser_input (kind : N) : Reader BrowserMessage :=
  document ← get_document;
  if (kind =? 0x014d)%N then as_message (get_presentation_ack document) BmPresentationAcknowledged
  else if (kind =? 0x014f)%N then as_message (get_fullscreen_response document) BmFullscreenResponse
  else if (kind =? 0x0153)%N then as_message (get_lock_response document) BmPointerLockResponse
  else as_message (get_input kind document) BmInput.
Definition decode_browser_input (kind : N) (payload : list byte) : result ProtocolError BrowserMessage :=
  read_from (closing (get_browser_input kind)) payload.
Definition decode_browser_state (kind : N) (payload : list byte) : result ProtocolError BrowserMessage :=
  match kind with
  | 0x0131 => decoded get_cookie_snapshot BmCookieSnapshot payload
  | 0x0133 => decoded get_snapshot_start BmStorageSnapshotStart payload
  | 0x0135 => decoded get_snapshot_entry BmStorageSnapshotEntry payload
  | 0x0137 => decoded get_snapshot_end BmStorageSnapshotEnd payload
  | _ => Err (UnexpectedMessage kind)
  end%N.
Definition decode_browser (kind : N) (payload : list byte) : result ProtocolError BrowserMessage :=
  match kind with
  | 0x0251 => p ← decode_gpu_canvas payload; Ok (BmGpuCanvasPolicy (p.1) (p.2))
  | 0x0253 => enabled ← decode_accessibility payload; Ok (BmAccessibilityPolicy enabled)
  | 1 => p ← decode_hello payload; Ok (BmHello (p.1.1) (p.1.2) (p.2))
  | 3 => token ← decode_token payload; Ok (BmPing token)
  | 5 => _ ← require_length payload 0; Ok BmShutdown
  | 7 => text ← decode_text payload; Ok (BmProtocolFailure text)
  | 0x0101 | 0x0103 | 0x0105 | 0x0107 | 0x0109 | 0x0111 | 0x0113 | 0x0115 | 0x0117 | 0x0121 | 0x0123 | 0x0125 =>
      decode_browser_document kind payload
  | 0x0131 | 0x0133 | 0x0135 | 0x0137 => decode_browser_state kind payload
  | 0x0138 => decoded get_storage_sync BmStorageSync payload
  | 0x0171 => decoded get_socket_event BmWebSocketEvent payload
  | 0x0181 => decoded get_database_event BmDatabaseEvent payload
  | 0x0191 => decoded get_speech_update BmSpeechUpdate payload
  | 0x01a1 => decoded get_notification_update BmNotificationUpdate payload
  | 0x0221 => decoded get_permission_update BmPermissionUpdate payload
  | 0x01b1 => decoded get_geolocation_update BmGeolocationUpdate payload
  | 0x01c1 => decoded get_media_device_update BmMediaDeviceUpdate payload
  | 0x0231 => decoded get_capture_update BmMediaCaptureUpdate payload
  | 0x0233 => decoded get_capture_frame BmMediaCaptureFrame payload
  | 0x01d1 => decoded get_sensor_update BmSensorUpdate payload
  | 0x01f1 => decoded get_clipboard_update BmClipboardUpdate payload
  | 0x0241 => decoded get_file_picker_update BmFilePickerUpdate payload
  | 0x0201 => decoded get_broadcast_delivery BmBroadcastDelivery payload
  | 0x0211 => decoded get_wake_lock_update BmWakeLockUpdate payload
  | 0x0141 | 0x0143 | 0x0145 | 0x0147 | 0x0149 | 0x014b | 0x014d | 0x014f | 0x0151 | 0x0153 | 0x0155 | 0x0157 | 0x0159 =>
      decode_browser_input kind payload
  | 0x8001 => command ← decode_test payload; Ok (BmTest command)
  | _ => Err (UnexpectedMessage kind)
  end%N.

Definition get_renderer_document (kind : N) : Reader RendererMessage :=
  match kind with
  | 0x0102 =>
      document ← get_document; batch_id ← get_nonzero "Fetch batch"; count ← get_u32;
      mret (RmFetchBatchStart document batch_id count)
  | 0x0104 => batch_id ← get_nonzero "Fetch batch"; request ← get_request_head; mret (RmFetchRequestStart batch_id request)
  | 0x0106 => as_message get_chunk RmFetchRequestChunk
  | 0x0108 => as_message (get_nonzero "Fetch request") RmFetchRequestEnd
  | 0x010c =>
      document ← get_document; request_id ← get_nonzero "Fetch consumption"; total ← get_u32;
      mret (RmFetchResponseConsumed document request_id total)
  | 0x010a =>
      document ← get_document; request_id ← get_nonzero "Fetch request"; mret (RmFetchRequestAbort document request_id)
  | 0x0112 =>
      document ← get_document; revision ← get_nonzero "presentation revision"; total ← get_u32; micros ← get_u64;
      mret (RmPresentationStart document revision total micros)
  | 0x0114 => as_message get_chunk RmPresentationChunk
  | 0x0116 =>
      document ← get_document; revision ← get_nonzero "presentation revision"; mret (RmPresentationEnd document revision)
  | 0x0120 => as_message get_runtime_update RmRuntimeUpdate
  | 0x0118 => document ← get_document; detail ← get_string MAX_CONTROL_PAYLOAD; mret (RmDocumentFailed document detail)
  | 0x011a =>
      document ← get_document; url ← get_string MAX_URL_BYTES;
      disposition ← get_tag decode_navigation_disposition; cause ← get_tag decode_navigation_cause;
      mret (RmNavigationRequested document url disposition cause)
  | 0x011e => as_message get_cursor_result RmPointerCursor
  | 0x0122 =>
      document ← get_document; sequence ← get_u64;
      _ ← lift (reject (sequence =? 0)%N "scroll completion sequence");
      mret (RmScrollCompleted document sequence)
  | _ => lift (Err (UnexpectedMessage kind))
  end%N.
Definition decode_renderer_document (kind : N) (payload : list byte) : result ProtocolError RendererMessage :=
  read_from (closing (get_renderer_document kind)) payload.
Definition get_renderer_input (kind : N) : Reader RendererMessage :=
  document ← get_document;
  match kind with
  | 0x0150 => as_message (get_fullscreen_request document) RmFullscreenRequest
  | 0x0152 => as_message (get_lock_request document) RmPointerLockRequest
  | 0x0156 => as_message (get_selection_update document) RmTextSelectionUpdate
  | _ => lift (Err (UnexpectedMessage kind))
  end%N.
Definition decode_renderer_input (kind : N) (payload : list byte) : result ProtocolError RendererMessage :=
  read_from (closing (get_renderer_input kind)) payload.
Definition decode_renderer_state (kind : N) (payload : list byte) : result ProtocolError RendererMessage :=
  match kind with
  | 0x0132 => decoded get_cookie_mutation RmCookieMutation payload
  | 0x013a => decoded get_policy_mutation RmPolicyMutation payload
  | 0x0134 => decoded get_storage_mutation RmStorageMutation payload
  | 0x0136 => decoded get_snapshot_applied RmStateSnapshotApplied payload
  | _ => Err (UnexpectedMessage kind)
  end%N.
Definition decode_renderer (kind : N) (payload : list byte) : result ProtocolError RendererMessage :=
  match kind with
  | 0x0160 => decoded get_video_chunk RmVideoFrame payload
  | 0x0180 => decoded get_database_command RmDatabaseCommand payload
  | 0x0190 => decoded get_speech_request RmSpeechRequest payload
  | 0x01a0 => decoded get_notification_request RmNotificationRequest payload
  | 0x01e0 => decoded get_protocol_handler_request RmProtocolHandlerRequest payload
  | 0x0220 => decoded get_permission_request RmPermissionRequest payload
  | 0x01b0 => decoded get_geolocation_request RmGeolocationRequest payload
  | 0x01c0 => decoded get_media_device_request RmMediaDeviceRequest payload
  | 0x0230 => decoded get_capture_request RmMediaCaptureRequest payload
  | 0x01d0 => decoded get_sensor_request RmSensorRequest payload
  | 0x01f0 => decoded get_clipboard_request RmClipboardRequest payload
  | 0x0240 => decoded get_file_picker_request RmFilePickerRequest payload
  | 0x0200 => decoded get_broadcast_command RmBroadcastCommand payload
  | 0x0210 => decoded get_wake_lock_request RmWakeLockRequest payload
  | 0x0170 => decoded get_socket_command RmWebSocketCommand payload
  | 2 => p ← decode_ready payload; Ok (RmReady (p.1.1) (p.1.2) (p.2))
  | 4 => token ← decode_token payload; Ok (RmPong token)
  | 6 => _ ← require_length payload 0; Ok RmShutdownComplete
  | 8 => diagnostic ← decode_diagnostic payload; Ok (RmDiagnostic diagnostic)
  | 0x0102 | 0x0104 | 0x0106 | 0x0108 | 0x010a | 0x010c | 0x0112 | 0x0114 | 0x0116 | 0x0118 | 0x011a | 0x011e | 0x0120
  | 0x0122 => decode_renderer_document kind payload
  | 0x0132 | 0x0134 | 0x0136 | 0x013a => decode_renderer_state kind payload
  | 0x0150 | 0x0152 | 0x0156 => decode_renderer_input kind payload
  | 0x8002 => report ← decode_restrictions payload; Ok (RmRestrictions report)
  | _ => Err (UnexpectedMessage kind)
  end%N.
