(* ===== verification/MessageTheory.v ===== *)
(** * MessageTheory: a message sent is the message received

    [browser_sendable] and [renderer_sendable] say which messages the codecs carry
    unchanged: everything the code ever constructs with their constructors, less
    the values the decoders are stricter about. The theorems: what
    [encode_browser] makes of such a message, [decode_browser] reads back, and the
    same for the renderer's. *)

From Stdlib Require Import Strings.Byte.
From S2P Require Import Prelude Text Limits Words Protocol WebStorage StorageSync Wire WireTheory PayloadFields DevicePayloads MediaPayloads SensorPayloads FramePayloads Broadcast BroadcastCodec StatePayloads SocketPayloads Transfers DocumentPayloads FetchPayloads RuntimePayloads InputPayloads Handshake Messages.

Definition browser_sendable (m : BrowserMessage) : Prop :=
  match m with
  | BmHello _ _ limits => limits_ok limits = true
  | BmFetchResponseStart head => response_head_fits head
  | BmFetchResponseEnd stop => (rse_request_id stop =? 0)%N = false
  | BmFetchResponseAbort abort => (rsa_request_id abort =? 0)%N = false /\ fetch_error_fits (rsa_error abort)
  | BmViewportChanged _ viewport => viewport_ok viewport
  | BmStorageSnapshotEntry item => entry_fits item
  | BmStorageSync sync => sync_fits sync
  | BmWebSocketEvent event => socket_event_fits event
  | BmBroadcastDelivery delivery => delivery_typed delivery
  | _ => True
  end.
Definition renderer_sendable (m : RendererMessage) : Prop :=
  match m with
  | RmBroadcastCommand command => command_typed command
  | RmWebSocketCommand command => socket_command_fits command
  | RmFetchBatchStart _ batch_id _ => (batch_id =? 0)%N = false
  | RmFetchRequestStart batch_id request =>
      (batch_id =? 0)%N = false /\ script_source_fits (frh_script_source request)
  | RmFetchRequestEnd request_id | RmFetchRequestAbort _ request_id | RmFetchResponseConsumed _ request_id _ =>
      (request_id =? 0)%N = false
  | RmPresentationStart _ revision _ _ | RmPresentationEnd _ revision => (revision =? 0)%N = false
  | RmRuntimeUpdate update => report_fits (runtime update)
  | RmDocumentFailed _ detail => (byte_length detail <= MAX_CONTROL_PAYLOAD)%N
  | RmNavigationRequested _ url _ _ => (byte_length url <= MAX_URL_BYTES)%N
  | RmStorageMutation request => mutation_fits request
  | RmDiagnostic diagnostic => (byte_length (diagnostic_text diagnostic) <= MAX_RENDERER_DIAGNOSTIC_BYTES)%N
  | _ => True
  end.

(** ** What a frame's payload is worth *)
Lemma framed_Ok (k kind : N) (w : Writer ()) (p : list byte) :
  framed k w = Ok (kind, p) -> kind = k /\ written w = Ok p.
Proof. unfold framed. intros (q & H & [= <- <-])%bind_Ok. done. Qed.

Lemma decoded_back `{Payload A w r sendable} {M} (c : A -> M) (a : A) (p : list byte) :
  sendable a -> written (w a) = Ok p -> (len p <= u64_max)%N -> decoded r c p = Ok (c a).
Proof. intros Ha Hw Hp. unfold decoded. by rewrite (payload_round_trip a p). Qed.

Lemma closing_carries {M} (w : Writer ()) (r : Reader M) (m : M) : carries false w r m -> carries true w (closing r) m.
Proof. intros H. unfold closing. eapply carries_last; [exact H|]. apply carries_finish, carries_done. Qed.

Lemma closed_back {M} (w : Writer ()) (r : Reader M) (m : M) (p : list byte) :
  carries false w r m -> written w = Ok p -> (len p <= u64_max)%N -> read_from (closing r) p = Ok m.
Proof. intros H. apply carries_read_back, closing_carries, H. Qed.

Lemma with_document_carries {A M} (w : Writer ()) (r : DocumentId -> Reader A) (c : A -> M) (a : A) :
  carries false w (document ← get_document; r document) a -> carries false w (document ← get_document; as_message (r document) c) (c a).
Proof.
  intros H. eapply carries_same; [done| |exact (carries_fmap false w _ c a H)].
  intros s. exact (wire_bind_assoc get_document r (fun x => mret (c x)) s).
Qed.

#[local] Hint Resolve document_start_carries viewport_carries response_head_carries request_head_carries
  fetch_error_carries chunk_carries runtime_update_carries cursor_result_carries : wire.

(** One message of a group: its payload was framed, and its reader is walked. *)
Ltac framed_group reader :=
  let Hw := fresh "Hw" in let Hp := fresh "Hp" in
  intros [-> Hw]%framed_Ok Hp;
  eapply closed_back; [|exact Hw|exact Hp]; cbn [reader]; unfold as_message, put_id; carry.

Ltac split_sendable H :=
  lazymatch type of H with _ /\ _ => let H' := fresh "Hs" in destruct H as [H H'] | _ => idtac end.

(** The kinds of a group go to the group's decoder. *)
Lemma browser_document_back (m : BrowserMessage) (kind : N) (p : list byte) :
  browser_sendable m -> encode_browser_document m = Ok (kind, p) -> (len p <= u64_max)%N ->
  decode_browser kind p = Ok m.
Proof.
  intros Hs. destruct m; try destruct stop as [? ?]; try destruct abort as [? ?];
    cbn [browser_sendable encode_browser_document FetchPayloads.rse_request_id FetchPayloads.rse_total_length
         FetchPayloads.rsa_request_id FetchPayloads.rsa_error] in Hs |- *;
    try discriminate; split_sendable Hs; try (intros (? & Hc%ensure_Ok & H)%bind_Ok; unfold longer in Hc; revert H).
  all: framed_group get_browser_document.
Qed.

Lemma browser_input_back (m : BrowserMessage) (kind : N) (p : list byte) :
  encode_browser_input m = Ok (kind, p) -> (len p <= u64_max)%N -> decode_browser kind p = Ok m.
Proof.
  destruct m; cbn [encode_browser_input]; try discriminate; intros [-> Hw]%framed_Ok Hp.
  - transitivity (decode_browser_input (input_kind (in_body input)) p); [by destruct input as [? ? []]|].
    eapply closed_back; [|exact Hw|exact Hp].
    replace (get_browser_input (input_kind (in_body input)))
      with (document ← get_document; as_message (get_input (input_kind (in_body input)) document) BmInput)
      by (by destruct input as [? ? []]).
    apply with_document_carries, input_carries.
  - eapply closed_back; [|exact Hw|exact Hp]. apply with_document_carries, presentation_ack_carries.
  - eapply closed_back; [|exact Hw|exact Hp]. apply with_document_carries, fullscreen_response_carries.
  - eapply closed_back; [|exact Hw|exact Hp]. apply with_document_carries, lock_response_carries.
Qed.

(** A message whose payload has an instance. *)
Ltac framed_payload Hs :=
  let Hw := fresh "Hw" in let Hp := fresh "Hp" in
  intros [-> Hw]%framed_Ok Hp;
  cbn [decode_browser decode_browser_state decode_renderer decode_renderer_state browser_sendable renderer_sendable] in Hs |- *;
  eapply decoded_back; [first [exact Hs|exact I]|exact Hw|exact Hp].

Lemma browser_state_back (m : BrowserMessage) (kind : N) (p : list byte) :
  browser_sendable m -> encode_browser_state m = Ok (kind, p) -> (len p <= u64_max)%N ->
  decode_browser kind p = Ok m.
Proof. intros Hs. destruct m; cbn [encode_browser_state]; try discriminate; framed_payload Hs. Qed.

(** What the browser encodes, the renderer decodes to the same message. *)
Lemma browser_back (m : BrowserMessage) (kind : N) (p : list byte) :
  browser_sendable m -> encode_browser m = Ok (kind, p) -> (len p <= u64_max)%N ->
  decode_browser kind p = Ok m.
Proof.
  intros Hs. destruct m; cbn [encode_browser];
    try (by apply browser_document_back); try (by apply browser_input_back); try (by apply browser_state_back);
    try framed_payload Hs.
  - intros [= <- <-] _. cbn [decode_browser decode_renderer]. by rewrite hello_back.
  - intros [= <- <-] _. cbn [decode_browser decode_renderer]. by rewrite token_back.
  - intros [= <- <-] _. done.
  - intros (t & Ht & [= <- <-])%bind_Ok _. simpl. by rewrite (text_back text t).
  - intros [= <- <-] _. cbn [decode_browser]. by rewrite gpu_canvas_back.
  - intros [= <- <-] _. by destruct enabled.
  - intros [= <- <-] _. cbn [decode_browser decode_renderer]. by rewrite test_back.
Qed.

(** ** The renderer's *)
Lemma renderer_document_back (m : RendererMessage) (kind : N) (p : list byte) :
  renderer_sendable m -> encode_renderer_document m = Ok (kind, p) -> (len p <= u64_max)%N ->
  decode_renderer kind p = Ok m.
Proof.
  intros Hs. destruct m; cbn [renderer_sendable encode_renderer_document] in Hs |- *;
    try discriminate; split_sendable Hs; try (intros (? & Hc%ensure_Ok & H)%bind_Ok; revert H).
  all: framed_group get_renderer_document.
Qed.

Lemma renderer_input_back (m : RendererMessage) (kind : N) (p : list byte) :
  encode_renderer_input m = Ok (kind, p) -> (len p <= u64_max)%N -> decode_renderer kind p = Ok m.
Proof.
  destruct m; cbn [encode_renderer_input]; try discriminate; intros [-> Hw]%framed_Ok Hp;
    (eapply closed_back; [|exact Hw|exact Hp]).
  - apply with_document_carries, selection_update_carries.
  - apply with_document_carries, fullscreen_request_carries.
  - apply with_document_carries, lock_request_carries.
Qed.

Lemma renderer_state_back (m : RendererMessage) (kind : N) (p : list byte) :
  renderer_sendable m -> encode_renderer_state m = Ok (kind, p) -> (len p <= u64_max)%N ->
  decode_renderer kind p = Ok m.
Proof. intros Hs. destruct m; cbn [encode_renderer_state]; try discriminate; framed_payload Hs. Qed.

(** What a renderer encodes, the browser decodes to the same message. *)
Lemma renderer_back (m : RendererMessage) (kind : N) (p : list byte) :
  renderer_sendable m -> encode_renderer m = Ok (kind, p) -> (len p <= u64_max)%N ->
  decode_renderer kind p = Ok m.
Proof.
  intros Hs. destruct m; cbn [encode_renderer];
    try (by apply renderer_document_back); try (by apply renderer_input_back); try (by apply renderer_state_back);
    try framed_payload Hs.
  - intros [= <- <-] _. cbn [decode_browser decode_renderer]. by rewrite ready_back.
  - intros [= <- <-] _. cbn [decode_browser decode_renderer]. by rewrite token_back.
  - intros [= <- <-] _. done.
  - intros (t & Ht & [= <- <-])%bind_Ok _. cbn [decode_renderer]. by rewrite (diagnostic_back diagnostic t).
  - intros [= <- <-] _. cbn [decode_browser decode_renderer]. by rewrite restrictions_back.
Qed.
