(* ===== verification/Frames.v ===== *)
(** * Frames: the framed, sequenced stream under the messages

    src/renderer_protocol/codec.rs: the header of a frame, which kinds each
    direction takes and how long they may be, [FrameWriter] over the end of a
    pipe that may break at any byte, and [FrameReader] over what arrived. The
    pipes are files of the operating system, whose [flush] does nothing. *)

From Stdlib Require Import Strings.Byte.
From S2P Require Import Prelude Text Limits Words Protocol Wire Transfers DevicePayloads FramePayloads Messages.

#[global] Instance byte_eq_dec : EqDecision byte := Byte.byte_eq_dec.

(** ** The two ends of a pipe *)
(** What was written, and how many bytes more it takes before it breaks. *)
Record Sink := mkSink { accepted : list byte; room : option N }.
(** [Write::write_all]: on a pipe that breaks, a part of the bytes has left. *)
Definition write_all (l : list byte) (s : Sink) : Sink * result ProtocolError () :=
  match room s with
  | None => (mkSink (accepted s ++ l) None, Ok tt)
  | Some n =>
      if (len l <=? n)%N then (mkSink (accepted s ++ l) (Some (n - len l)%N), Ok tt)
      else (mkSink (accepted s ++ take (N.to_nat n) l) (Some 0%N), Err (IpcIo "write"))
  end.
(** [Read::read_exact] of what is left until the other end is closed. *)
Definition read_exact (n : N) (source : list byte) : list byte * result ProtocolError (list byte) :=
  if (n <=? len source)%N then (drop (N.to_nat n) source, Ok (take (N.to_nat n) source))
  else ([], Err (IpcIo "unexpected end of file")).

(** ** Kinds and their limits *)
Inductive Direction := Browser | Renderer.
Definition browser_kinds : list N :=
  [1; 3; 5; 7; 0x0101; 0x0103; 0x0105; 0x0107; 0x0109; 0x0111; 0x0113; 0x0115; 0x0117; 0x0121; 0x0123; 0x0125; 0x0131;
   0x0133; 0x0135; 0x0137; 0x0138; 0x0141; 0x0143; 0x0145; 0x0147; 0x0149; 0x014b; 0x014d; 0x014f; 0x0151; 0x0153;
   0x0155; 0x0157; 0x0159; 0x0171; 0x0181; 0x0191; 0x01a1; 0x01b1; 0x01c1; 0x0231; 0x0233; 0x0241; 0x0251; 0x0253;
   0x01d1; 0x01f1; 0x0201; 0x0211; 0x0221; 0x8001]%N.
Definition renderer_kinds : list N :=
  [2; 4; 6; 8; 0x0102; 0x0104; 0x0106; 0x0108; 0x010a; 0x010c; 0x0112; 0x0114; 0x0116; 0x0118; 0x011a; 0x011e; 0x0120;
   0x0122; 0x0132; 0x0134; 0x0136; 0x013a; 0x0150; 0x0152; 0x0156; 0x0160; 0x0170; 0x0180; 0x0190; 0x01a0; 0x01b0;
   0x01c0; 0x0230; 0x0240; 0x01d0; 0x01e0; 0x01f0; 0x0200; 0x0210; 0x0220; 0x8002]%N.
Definition allows (d : Direction) (kind : N) : bool :=
  existsb (N.eqb kind) (match d with Browser => browser_kinds | Renderer => renderer_kinds end).

Definition payload_limit (kind : N) : N :=
  match kind with
  | 0x0134 => MAX_STORAGE_WRITE_FRAME_BYTES
  | 0x0135 => MAX_STORAGE_FRAME_BYTES
  | 0x0138 => MAX_STORAGE_SYNC_FRAME_BYTES
  | 0x0180 | 0x0181 => MAX_INDEXED_DB_IPC_BYTES + 64
  | 0x01f0 | 0x01f1 => MAX_CLIPBOARD_TEXT_BYTES + 128
  | 0x0233 => MAX_CAPTURE_FRAME_BYTES + 64
  | 0x0103 | 0x0106 | 0x0113 | 0x0114 | 0x0160 => MAX_FRAME_PAYLOAD
  | _ => MAX_CONTROL_PAYLOAD
  end%N.

(** ** FrameWriter *)
Definition MAGIC : list byte := String.list_byte_of_string "BRZ1".
Definition FLAG_NONE : N := 0.
(** The header's slices, in their order. *)
Definition frame_header (kind length session sequence : N) : list byte :=
  MAGIC ++ le_bytes 2 PROTOCOL_MAJOR ++ le_bytes 2 PROTOCOL_MINOR ++ le_bytes 2 kind ++ le_bytes 2 FLAG_NONE
  ++ le_bytes 4 length ++ le_bytes 8 session ++ le_bytes 8 sequence.

Record FrameWriter := mkFrameWriter { fw_inner : Sink; fw_session : RendererSessionId; fw_next_sequence : u64 }.
Definition FrameWriter_new (inner : Sink) (session : RendererSessionId) : FrameWriter :=
  mkFrameWriter inner session (to_word u64_max 1).
Definition write_frame (kind : N) (payload : list byte) (w : FrameWriter) : FrameWriter * result ProtocolError () :=
  if (payload_limit kind <? len payload)%N then (w, Err (PayloadTooLarge (len payload mod 2 ^ 32)))
  else
    match checked_add (fw_next_sequence w) 1 with
    | None => (w, Err SequenceExhausted)
    | Some next =>
        let on inner := mkFrameWriter inner (fw_session w) (to_word u64_max next) in
        let header := frame_header kind (len payload) (val (id_value (fw_session w))) (val (fw_next_sequence w)) in
        match write_all header (fw_inner w) with
        | (inner, Err e) => (on inner, Err e)
        | (inner, Ok _) =>
            let (inner, r) := write_all payload inner in (on inner, r)
        end
    end.
Definition send {M} (encode : M -> result ProtocolError (N * list byte)) (m : M) (w : FrameWriter)
    : FrameWriter * result ProtocolError () :=
  match encode m with Err e => (w, Err e) | Ok (kind, payload) => write_frame kind payload w end.
Definition send_browser : BrowserMessage -> FrameWriter -> FrameWriter * result ProtocolError () := send encode_browser.
Definition send_renderer : RendererMessage -> FrameWriter -> FrameWriter * result ProtocolError () :=
  send encode_renderer.

(** ** FrameReader *)
Record FrameReader := mkFrameReader
  { fr_inner : list byte; fr_session : RendererSessionId; fr_next_sequence : u64; fr_max_payload : N }.
Definition largest_frame : N := N.max MAX_FRAME_PAYLOAD MAX_STORAGE_SYNC_FRAME_BYTES.
Definition FrameReader_new (inner : list byte) (session : RendererSessionId) : FrameReader :=
  mkFrameReader inner session (to_word u64_max 1) largest_frame.
Definition with_max_payload (r : FrameReader) (maximum : N) : FrameReader :=
  mkFrameReader (fr_inner r) (fr_session r) (fr_next_sequence r) (N.min maximum largest_frame).

(** [get_u16(&header[8..10])] and the like. *)
Definition field (header : list byte) (from to : nat) : N := le_value (take (to - from) (drop from header)).
Definition check_header (d : Direction) (r : FrameReader) (header : list byte) : result ProtocolError (N * N) :=
  _ ← ensure (bool_decide (take 4 header = MAGIC)) InvalidMagic;
  let major := field header 4 6 in
  let minor := field header 6 8 in
  _ ← ensure ((major =? PROTOCOL_MAJOR) && (minor <=? PROTOCOL_MINOR))%N (IncompatibleVersion major minor);
  let kind := field header 8 10 in
  _ ← ensure (allows d kind) (UnexpectedMessage kind);
  let flags := field header 10 12 in
  _ ← ensure (flags =? FLAG_NONE)%N (ReservedFlags flags);
  let payload_length := field header 12 16 in
  _ ← ensure (payload_length <=? N.min (fr_max_payload r) (payload_limit kind))%N (PayloadTooLarge payload_length);
  let session := field header 16 24 in
  _ ← ensure (session =? val (id_value (fr_session r)))%N (WrongSession (val (id_value (fr_session r))) session);
  let sequence := field header 24 32 in
  _ ← ensure (sequence =? val (fr_next_sequence r))%N (WrongSequence (val (fr_next_sequence r)) sequence);
  Ok (kind, payload_length).

Definition read_frame (d : Direction) (r : FrameReader) : FrameReader * result ProtocolError (N * list byte) :=
  let at_ inner next := mkFrameReader inner (fr_session r) next (fr_max_payload r) in
  match read_exact (N.of_nat HEADER_LENGTH) (fr_inner r) with
  | (inner, Err e) => (at_ inner (fr_next_sequence r), Err e)
  | (inner, Ok header) =>
      match check_header d r header with
      | Err e => (at_ inner (fr_next_sequence r), Err e)
      | Ok (kind, payload_length) =>
          match checked_add (fr_next_sequence r) 1 with
          | None => (at_ inner (fr_next_sequence r), Err SequenceExhausted)
          | Some next =>
              let (inner, payload) := read_exact payload_length inner in
              (at_ inner (to_word u64_max next), payload ← payload; Ok (kind, payload))
          end
      end
  end.
Definition receive {M} (d : Direction) (decode : N -> list byte -> result ProtocolError M) (r : FrameReader)
    : FrameReader * result ProtocolError M :=
  let (r, frame) := read_frame d r in (r, '(kind, payload) ← frame; decode kind payload).
Definition read_browser : FrameReader -> FrameReader * result ProtocolError BrowserMessage := receive Browser decode_browser.
Definition read_renderer : FrameReader -> FrameReader * result ProtocolError RendererMessage :=
  receive Renderer decode_renderer.

(** ** Talking for a while *)
(** Sending until one fails, and how many were sent. *)
Fixpoint send_all {M} (one : M -> FrameWriter -> FrameWriter * result ProtocolError ()) (ms : list M) (w : FrameWriter)
    : FrameWriter * nat :=
  match ms with
  | [] => (w, O)
  | m :: ms =>
      match one m w with
      | (w, Ok _) => let (w, n) := send_all one ms w in (w, S n)
      | (w, Err _) => (w, O)
      end
  end.
(** Reading until one fails, within a number of frames. *)
Fixpoint receive_all {M} (one : FrameReader -> FrameReader * result ProtocolError M) (fuel : nat) (r : FrameReader)
    : list M * option ProtocolError :=
  match fuel with
  | O => ([], None)
  | S fuel =>
      match one r with
      | (r, Ok m) => let (ms, e) := receive_all one fuel r in (m :: ms, e)
      | (_, Err e) => ([], Some e)
      end
  end.
