(* ===== verification/PipeTheory.v ===== *)
(** * PipeTheory: what one end sends, the other receives

    A frame is read exactly when it is the one the writer would have written next;
    and of a sequence of messages sent over a pipe that breaks anywhere, the
    reader receives those whose send succeeded, in order and unchanged, and then
    an I/O error. Both directions are instances of one interface, [Codec]. *)

From Stdlib Require Import Strings.Byte.
From S2P Require Import Prelude Text Limits Words Protocol Wire WireTheory Transfers Handshake Messages MessageTheory Frames.

(** ** Kinds and limits *)
Lemma payload_limit_le (kind : N) : (payload_limit kind <= largest_frame)%N.
Proof.
  unfold payload_limit. repeat case_match; by vm_compute.
Qed.
Lemma largest_frame_fits : (largest_frame < 2 ^ 32)%N.
Proof. by vm_compute. Qed.

Lemma allows_two_bytes (d : Direction) (kind : N) : allows d kind = true -> (kind < 65536)%N.
Proof.
  unfold allows. rewrite existsb_exists. intros (k & Hk & ->%N.eqb_eq).
  assert (Forall (fun k => k < 65536)%N (match d with Browser => browser_kinds | Renderer => renderer_kinds end)) as H.
  { destruct d; repeat constructor. }
  rewrite Forall_forall in H. apply H. by apply list_elem_of_In.
Qed.

Lemma directions_disjoint (kind : N) : allows Browser kind = true -> allows Renderer kind = false.
Proof.
  unfold allows. rewrite existsb_exists. intros (k & Hk & ->%N.eqb_eq).
  assert (forallb (fun k => negb (existsb (N.eqb k) renderer_kinds)) browser_kinds = true) as H by (by vm_compute).
  rewrite forallb_forall in H. specialize (H k Hk). by apply negb_true_iff in H.
Qed.

(** ** A frame *)
Definition frame_bytes (session : RendererSessionId) (sequence kind : N) (payload : list byte) : list byte :=
  frame_header kind (len payload) (val (id_value session)) sequence ++ payload.

Lemma length_header (kind length_ session sequence : N) : length (frame_header kind length_ session sequence) = HEADER_LENGTH.
Proof. unfold frame_header. rewrite !length_app, !length_le_bytes. done. Qed.

Lemma le_bytes_value (l : list byte) : le_bytes (length l) (le_value l) = l.
Proof.
  induction l as [|b l IH]; [done|]. simpl. pose proof (Byte.to_N_bounded b).
  replace ((Byte.to_N b + 256 * le_value l) mod 256)%N with (Byte.to_N b)
    by (rewrite N.mul_comm, N.Div0.mod_add; symmetry; apply N.mod_small; lia).
  replace ((Byte.to_N b + 256 * le_value l) / 256)%N with (le_value l)
    by (rewrite N.mul_comm, N.div_add by lia; rewrite N.div_small by lia; lia).
  by rewrite to_N_byte_of, IH.
Qed.

(** The fields of a header lie where they are looked for, and make it up. *)
Lemma field_middle (pre l post : list byte) (i j : nat) :
  i = length pre -> (j - i)%nat = length l -> field (pre ++ l ++ post) i j = le_value l.
Proof. intros -> Hj. unfold field. rewrite Hj, drop_app_length, take_app_length. done. Qed.

Section header.
Context (kind length session sequence : N).
Let h := frame_header kind length session sequence.
Let start := MAGIC ++ le_bytes 2 PROTOCOL_MAJOR ++ le_bytes 2 PROTOCOL_MINOR.
Let numbers := le_bytes 8 session ++ le_bytes 8 sequence.

Lemma header_magic : take 4 h = MAGIC.
Proof. done. Qed.
Lemma header_version : field h 4 6 = PROTOCOL_MAJOR /\ field h 6 8 = PROTOCOL_MINOR.
Proof. done. Qed.
Lemma header_kind : (kind < 65536)%N -> field h 8 10 = kind.
Proof.
  intros H. rewrite <- (le_value_bytes 2 kind) by exact H.
  apply (field_middle start (le_bytes 2 kind) (le_bytes 2 FLAG_NONE ++ le_bytes 4 length ++ numbers)); done.
Qed.
Lemma header_flags : field h 10 12 = FLAG_NONE.
Proof. apply (field_middle (start ++ le_bytes 2 kind) (le_bytes 2 FLAG_NONE) (le_bytes 4 length ++ numbers)); done. Qed.
Lemma header_length : (length < 2 ^ 32)%N -> field h 12 16 = length.
Proof.
  intros H. rewrite <- (le_value_bytes 4 length) by exact H.
  apply (field_middle (start ++ le_bytes 2 kind ++ le_bytes 2 FLAG_NONE) (le_bytes 4 length) numbers); done.
Qed.
Lemma header_session : (session <= u64_max)%N -> field h 16 24 = session.
Proof.
  intros H. rewrite <- (le_value_bytes 8 session) by (unfold u64_max in H; simpl; lia).
  apply (field_middle (start ++ le_bytes 2 kind ++ le_bytes 2 FLAG_NONE ++ le_bytes 4 length) (le_bytes 8 session)
           (le_bytes 8 sequence)); done.
Qed.
Lemma header_sequence : (sequence <= u64_max)%N -> field h 24 32 = sequence.
Proof.
  intros H. rewrite <- (le_value_bytes 8 sequence) by (unfold u64_max in H; simpl; lia).
  rewrite <- (app_nil_r (le_bytes 8 sequence)).
  apply (field_middle (start ++ le_bytes 2 kind ++ le_bytes 2 FLAG_NONE ++ le_bytes 4 length ++ le_bytes 8 session)
           (le_bytes 8 sequence) []); done.
Qed.
End header.

Lemma field_bytes (l : list byte) (i j k : nat) :
  (i + k)%nat = j -> (j <= length l)%nat -> le_bytes k (field l i j) = take k (drop i l).
Proof.
  intros Hij Hj. unfold field. replace (j - i)%nat with k by lia.
  rewrite <- (le_bytes_value (take k (drop i l))) at 2. f_equal. rewrite length_take, length_drop. lia.
Qed.

Lemma header_split (l : list byte) :
  length l = HEADER_LENGTH ->
  l = take 4 l ++ le_bytes 2 (field l 4 6) ++ le_bytes 2 (field l 6 8) ++ le_bytes 2 (field l 8 10)
      ++ le_bytes 2 (field l 10 12) ++ le_bytes 4 (field l 12 16) ++ le_bytes 8 (field l 16 24)
      ++ le_bytes 8 (field l 24 32).
Proof.
  intros Hl. rewrite !field_bytes by (rewrite ?Hl; done || (unfold HEADER_LENGTH; lia)).
  do 32 (destruct l as [|? l]; [discriminate Hl|]). destruct l; [done|discriminate Hl].
Qed.

(** A header passes exactly when it is the header of an allowed frame of this
    session and this turn. *)
Definition expected (d : Direction) (r : FrameReader) (kind length : N) : Prop :=
  allows d kind = true /\ (length <= N.min (fr_max_payload r) (payload_limit kind))%N.

Lemma check_header_exact (d : Direction) (r : FrameReader) (header : list byte) (kind length_ : N) :
  length header = HEADER_LENGTH ->
  check_header d r header = Ok (kind, length_) <->
  expected d r kind length_
  /\ header = frame_header kind length_ (val (id_value (fr_session r))) (val (fr_next_sequence r)).
Proof.
  intros Hlen. split.
  - unfold check_header. intros ([] & Hm%ensure_Ok & H)%bind_Ok.
    apply bind_Ok in H as ([] & Hv%ensure_Ok & H). apply bind_Ok in H as ([] & Hk%ensure_Ok & H).
    apply bind_Ok in H as ([] & Hf%ensure_Ok & H). apply bind_Ok in H as ([] & Hl%ensure_Ok & H).
    apply bind_Ok in H as ([] & Hs%ensure_Ok & H). apply bind_Ok in H as ([] & Hq%ensure_Ok & [= <- <-]).
    apply bool_decide_eq_true in Hm. apply andb_true_iff in Hv as [Hv1 Hv2].
    apply N.eqb_eq in Hv1, Hf, Hs, Hq. apply N.leb_le in Hl, Hv2.
    split; [by split|]. rewrite (header_split header Hlen) at 1. unfold frame_header.
    rewrite Hm, Hv1, Hf, Hs, Hq. replace (field header 6 8) with PROTOCOL_MINOR; [done|].
    unfold PROTOCOL_MINOR in *. lia.
  - intros [[Hk Hl] ->]. unfold check_header. rewrite header_magic. cbv zeta.
    pose proof (allows_two_bytes d kind Hk) as Hk'. pose proof (payload_limit_le kind) as Hp.
    pose proof largest_frame_fits as Hf.
    destruct (header_version kind length_ (val (id_value (fr_session r))) (val (fr_next_sequence r))) as [-> ->].
    rewrite header_kind, header_flags, header_length, header_session, header_sequence by (apply val_le || lia).
    rewrite Hk, !N.eqb_refl. rewrite bool_decide_true by done.
    replace (length_ <=? N.min (fr_max_payload r) (payload_limit kind))%N with true by (symmetry; by apply N.leb_le).
    done.
Qed.

(** ** Reading *)
Lemma read_exact_Ok (n : N) (l rest : list byte) (source : list byte) :
  read_exact n source = (rest, Ok l) <-> source = l ++ rest /\ n = len l.
Proof.
  unfold read_exact. split.
  - destruct (N.leb_spec n (len source)) as [H|H]; intros [= <- <-]. split; [by rewrite take_drop|].
    unfold len in *. rewrite length_take. lia.
  - intros [-> ->]. replace (len l <=? len (l ++ rest))%N with true
      by (symmetry; apply N.leb_le; unfold len; rewrite length_app; lia).
    unfold len. by rewrite Nat2N.id, drop_app_length, take_app_length.
Qed.
Lemma read_exact_Err (n : N) (source : list byte) :
  (len source < n)%N -> read_exact n source = ([], Err (IpcIo "unexpected end of file")).
Proof. intros H. unfold read_exact. by replace (n <=? len source)%N with false by (symmetry; by apply N.leb_gt). Qed.

Definition advanced (r : FrameReader) (inner : list byte) : FrameReader :=
  mkFrameReader inner (fr_session r) (to_word u64_max (val (fr_next_sequence r) + 1)) (fr_max_payload r).
Definition next_frame (r : FrameReader) (kind : N) (payload : list byte) : list byte :=
  frame_bytes (fr_session r) (val (fr_next_sequence r)) kind payload.

Lemma read_frame_sound (d : Direction) (r r' : FrameReader) (kind : N) (payload : list byte) :
  read_frame d r = (r', Ok (kind, payload)) ->
  expected d r kind (len payload) /\ (val (fr_next_sequence r) < u64_max)%N
  /\ fr_inner r = next_frame r kind payload ++ fr_inner r' /\ r' = advanced r (fr_inner r').
Proof.
  unfold read_frame. destruct (read_exact _ (fr_inner r)) as [inner [header|e]] eqn:Hh; [|done].
  apply read_exact_Ok in Hh as [Hin Hlen].
  destruct (check_header d r header) as [[k n]|e] eqn:Hc; [|done].
  apply check_header_exact in Hc as [Hx ->]; [|unfold len in Hlen; lia].
  destruct (checked_add _ 1) as [next|] eqn:Hn; [|done]. apply checked_add_Some in Hn as [-> Hn].
  destruct (read_exact n inner) as [inner' [p|e]] eqn:Hp; [|done].
  apply read_exact_Ok in Hp as [-> ->]. intros [= <- <- <-]. cbn [fr_inner].
  split; [done|]. split; [lia|]. split; [|done]. unfold next_frame, frame_bytes. by rewrite Hin, <- app_assoc.
Qed.

Lemma read_frame_complete (d : Direction) (r : FrameReader) (kind : N) (payload rest : list byte) :
  expected d r kind (len payload) -> (val (fr_next_sequence r) < u64_max)%N ->
  fr_inner r = next_frame r kind payload ++ rest -> read_frame d r = (advanced r rest, Ok (kind, payload)).
Proof.
  intros Hx Hn Hin. unfold read_frame, next_frame, frame_bytes in *. rewrite <- app_assoc in Hin.
  rewrite (proj2 (read_exact_Ok _ _ _ _) (conj Hin (f_equal N.of_nat (eq_sym (length_header _ _ _ _))))).
  rewrite (proj2 (check_header_exact d r _ kind (len payload) (length_header _ _ _ _))) by done.
  rewrite (proj2 (checked_add_Some _ 1 _)) by (split; [reflexivity|lia]).
  by rewrite (proj2 (read_exact_Ok (len payload) payload rest _)).
Qed.

(** C13. [read_frame] accepts exactly the frame the writer of its session writes
    at this turn, of a kind its direction allows and no longer than that kind may
    be: a frame replayed, reordered, of another session or of the other direction
    is refused. *)
Theorem read_frame_exact (d : Direction) (r r' : FrameReader) (kind : N) (payload : list byte) :
  read_frame d r = (r', Ok (kind, payload)) <->
  allows d kind = true /\ (len payload <= N.min (fr_max_payload r) (payload_limit kind))%N
  /\ (val (fr_next_sequence r) < u64_max)%N
  /\ fr_inner r = frame_bytes (fr_session r) (val (fr_next_sequence r)) kind payload ++ fr_inner r'
  /\ r' = mkFrameReader (fr_inner r') (fr_session r) (to_word u64_max (val (fr_next_sequence r) + 1)) (fr_max_payload r).
Proof.
  split.
  - intros H. apply read_frame_sound in H as ([? ?] & ? & ? & ?). done.
  - intros (Ha & Hl & Hn & Hin & Hr). rewrite Hr. by apply read_frame_complete.
Qed.

(** What a broken pipe leaves of a frame is not a frame. *)
Lemma read_frame_cut (d : Direction) (r : FrameReader) (kind : N) (payload : list byte) (n : nat) :
  n = O \/ expected d r kind (len payload) /\ (val (fr_next_sequence r) < u64_max)%N ->
  (n < length (next_frame r kind payload))%nat -> fr_inner r = take n (next_frame r kind payload) ->
  exists r', read_frame d r = (r', Err (IpcIo "unexpected end of file")).
Proof.
  intros Hx Hn Hin. unfold next_frame, frame_bytes in *. rewrite length_app, length_header in Hn.
  destruct (Nat.lt_ge_cases n HEADER_LENGTH) as [Hs|Hs].
  - unfold read_frame. rewrite read_exact_Err; [by eexists|]. unfold len.
    rewrite Hin, length_take, length_app, length_header. lia.
  - destruct Hx as [->|[Hx Hq]]; [unfold HEADER_LENGTH in Hs; lia|].
    rewrite take_app_ge in Hin by (by rewrite length_header). rewrite length_header in Hin.
    unfold read_frame.
    rewrite (proj2 (read_exact_Ok _ _ _ _) (conj Hin (f_equal N.of_nat (eq_sym (length_header _ _ _ _))))).
    rewrite (proj2 (check_header_exact d r _ kind (len payload) (length_header _ _ _ _))) by done.
    rewrite (proj2 (checked_add_Some _ 1 _)) by (split; [reflexivity|lia]).
    rewrite read_exact_Err; [by eexists|]. unfold len. rewrite length_take. lia.
Qed.

(** ** Writing *)
Definition turn_frame (w : FrameWriter) (kind : N) (payload : list byte) : list byte :=
  frame_bytes (fw_session w) (val (fw_next_sequence w)) kind payload.

Lemma write_all_Ok (l : list byte) (s s' : Sink) :
  write_all l s = (s', Ok tt) -> accepted s' = accepted s ++ l.
Proof. unfold write_all. destruct (room s) as [n|]; [case_match|]; intros [= <-]; done. Qed.
Lemma write_all_Err (l : list byte) (s s' : Sink) (e : ProtocolError) :
  write_all l s = (s', Err e) ->
  exists n, (n < length l)%nat /\ accepted s' = accepted s ++ take n l.
Proof.
  unfold write_all. destruct (room s) as [n|]; [|done]. destruct (N.leb_spec (len l) n) as [H|H]; intros [= <- <-].
  exists (N.to_nat n). split; [unfold len in H; lia|done].
Qed.

Lemma write_frame_Ok (kind : N) (payload : list byte) (w w' : FrameWriter) :
  write_frame kind payload w = (w', Ok tt) ->
  (len payload <= payload_limit kind)%N /\ (val (fw_next_sequence w) < u64_max)%N
  /\ accepted (fw_inner w') = accepted (fw_inner w) ++ turn_frame w kind payload
  /\ fw_session w' = fw_session w /\ fw_next_sequence w' = to_word u64_max (val (fw_next_sequence w) + 1).
Proof.
  unfold write_frame. destruct (N.ltb_spec (payload_limit kind) (len payload)) as [?|Hl]; [done|].
  destruct (checked_add _ 1) as [next|] eqn:Hn; [|done]. apply checked_add_Some in Hn as [-> Hn].
  destruct (write_all _ (fw_inner w)) as [s1 [[]|e]] eqn:H1; [|done].
  destruct (write_all payload s1) as [s2 r] eqn:H2. intros [= <- ->]. cbn [fw_inner fw_session fw_next_sequence].
  split; [done|]. split; [lia|]. split; [|done].
  apply write_all_Ok in H1, H2. rewrite H2, H1, <- app_assoc. done.
Qed.

Lemma write_frame_Err (kind : N) (payload : list byte) (w w' : FrameWriter) (e : ProtocolError) :
  write_frame kind payload w = (w', Err e) ->
  exists n, (n < length (turn_frame w kind payload))%nat
  /\ accepted (fw_inner w') = accepted (fw_inner w) ++ take n (turn_frame w kind payload)
  /\ (n = O \/ (len payload <= payload_limit kind)%N /\ (val (fw_next_sequence w) < u64_max)%N).
Proof.
  unfold write_frame, turn_frame, frame_bytes. rewrite length_app, length_header.
  set (h := frame_header _ _ _ _).
  assert (length h = HEADER_LENGTH) as Hh by apply length_header.
  destruct (N.ltb_spec (payload_limit kind) (len payload)) as [?|Hl].
  { intros [= <- <-]. exists O. cbn. rewrite app_nil_r. split; [lia|]. split; [done|by left]. }
  destruct (checked_add _ 1) as [next|] eqn:Hn.
  2:{ intros [= <- <-]. exists O. cbn. rewrite app_nil_r. split; [lia|]. split; [done|by left]. }
  apply checked_add_Some in Hn as [-> Hn].
  destruct (write_all h (fw_inner w)) as [s1 [[]|e1]] eqn:H1.
  - destruct (write_all payload s1) as [s2 r] eqn:H2. intros [= <- ->]. cbn [fw_inner].
    apply write_all_Ok in H1. apply write_all_Err in H2 as (n & Hn' & H2).
    exists (HEADER_LENGTH + n)%nat. split; [lia|]. split; [|right; split; lia].
    rewrite H2, H1, <- app_assoc. by f_equal.
  - intros [= <- <-]. cbn [fw_inner]. apply write_all_Err in H1 as (n & Hn' & H1).
    exists n. split; [lia|]. split; [|right; split; lia].
    rewrite H1, take_app_le by lia. done.
Qed.

(** ** The interface of a direction, and its two instances *)
Class Codec {M} (d : Direction) (encode : M -> result ProtocolError (N * list byte))
    (decode : N -> list byte -> result ProtocolError M) (sendable : M -> Prop) : Prop :=
  { codec_allowed : forall m kind p, encode m = Ok (kind, p) -> allows d kind = true;
    codec_back : forall m kind p, sendable m -> encode m = Ok (kind, p) -> (len p <= u64_max)%N ->
      decode kind p = Ok m }.

Ltac kind_allowed :=
  repeat match goal with
  | |- framed _ _ = Ok _ -> _ => intros [-> _]%framed_Ok
  | |- (_ ≫= _) = Ok _ -> _ => let x := fresh in let y := fresh in intros y; apply bind_Ok in y as (x & _ & y); revert y
  | |- Ok _ = Ok _ -> _ => intros [= <- _]
  | |- Err _ = Ok _ -> _ => discriminate
  end; reflexivity.
#[export] Instance browser_codec : Codec Browser encode_browser decode_browser browser_sendable.
Proof.
  split; [|exact browser_back]. intros m kind p.
  destruct m; cbn [encode_browser encode_browser_document encode_browser_input encode_browser_state];
    try destruct input as [? ? []]; kind_allowed.
Qed.
#[export] Instance renderer_codec : Codec Renderer encode_renderer decode_renderer renderer_sendable.
Proof.
  split; [|exact renderer_back]. intros m kind p.
  destruct m; cbn [encode_renderer encode_renderer_document encode_renderer_input encode_renderer_state]; kind_allowed.
Qed.

(** ** Talking over a pipe *)
Section pipe.
Context {M : Type} (d : Direction) (encode : M -> result ProtocolError (N * list byte))
  (decode : N -> list byte -> result ProtocolError M) (sendable : M -> Prop) {codec : Codec d encode decode sendable}.

(** The writer and the reader are at the same turn of the same session. *)
Definition in_step (w : FrameWriter) (r : FrameReader) : Prop :=
  fw_session w = fr_session r /\ fw_next_sequence w = fr_next_sequence r /\ fr_max_payload r = largest_frame.

Lemma in_step_frame (w : FrameWriter) (r : FrameReader) (kind : N) (p : list byte) :
  in_step w r -> turn_frame w kind p = next_frame r kind p.
Proof. intros (Hs & Hq & _). unfold turn_frame, next_frame. by rewrite Hs, Hq. Qed.
Lemma in_step_expected (w : FrameWriter) (r : FrameReader) (m : M) (kind : N) (p : list byte) :
  in_step w r -> encode m = Ok (kind, p) -> (len p <= payload_limit kind)%N -> expected d r kind (len p).
Proof.
  intros (_ & _ & Hm) He Hl. split; [by eapply codec_allowed|]. rewrite Hm.
  pose proof (payload_limit_le kind). lia.
Qed.

(** Reading what a successful send appended. *)
Lemma receive_sent (m : M) (w w' : FrameWriter) :
  sendable m -> send encode m w = (w', Ok tt) ->
  exists q, accepted (fw_inner w') = accepted (fw_inner w) ++ q
  /\ forall r rest, in_step w r -> fr_inner r = q ++ rest ->
     exists r', receive d decode r = (r', Ok m) /\ fr_inner r' = rest /\ in_step w' r'.
Proof.
  intros Hm. unfold send. destruct (encode m) as [[kind p]|e] eqn:He; [|done]. intros Hw.
  apply write_frame_Ok in Hw as (Hl & Hq & Hacc & Hs & Hn). exists (turn_frame w kind p). split; [done|].
  intros r rest Hstep Hr. rewrite (in_step_frame w r) in Hr by done.
  exists (advanced r rest). unfold receive.
  assert ((val (fr_next_sequence r) < u64_max)%N) as Hq' by (destruct Hstep as (_ & <- & _); done).
  rewrite (read_frame_complete d r kind p rest) by (done || by eapply in_step_expected).
  assert (len p <= u64_max)%N as Hp.
  { pose proof (payload_limit_le kind). pose proof largest_frame_fits. unfold u64_max. lia. }
  pose proof (codec_back m kind p Hm He Hp) as Hd.
  split; [change (Ok (kind, p) ≫= ?k) with (k (kind, p)); cbv beta iota; by rewrite Hd|].
  split; [done|]. destruct Hstep as (Hs' & Hq'' & Hm'). unfold in_step, advanced.
  cbn [fr_session fr_next_sequence fr_max_payload]. by rewrite Hs, Hn, Hq''.
Qed.

(** Reading what a failed one left, or nothing. *)
Lemma receive_nothing (r : FrameReader) :
  fr_inner r = [] -> exists r', receive d decode r = (r', Err (IpcIo "unexpected end of file")).
Proof.
  intros Hr. destruct (read_frame_cut d r 1 [] 0) as [r' Hr']; [by left| |done|].
  - unfold next_frame, frame_bytes. rewrite length_app, length_header. unfold HEADER_LENGTH. lia.
  - exists r'. unfold receive. by rewrite Hr'.
Qed.
Lemma receive_cut (m : M) (w w' : FrameWriter) (e : ProtocolError) :
  send encode m w = (w', Err e) ->
  exists q, accepted (fw_inner w') = accepted (fw_inner w) ++ q
  /\ forall r, in_step w r -> fr_inner r = q ->
     exists r', receive d decode r = (r', Err (IpcIo "unexpected end of file")).
Proof.
  unfold send. destruct (encode m) as [[kind p]|e'] eqn:He.
  - intros Hw. apply write_frame_Err in Hw as (n & Hn & Hacc & Hcase). eexists. split; [exact Hacc|].
    intros r Hstep. rewrite (in_step_frame w r) in Hn |- * by done. intros Hr.
    destruct (read_frame_cut d r kind p n) as [r' Hr']; [|done|done|exists r'; unfold receive; by rewrite Hr'].
    destruct Hcase as [?|[Hl Hq]]; [by left|right]. split; [by eapply in_step_expected|].
    by destruct Hstep as (_ & <- & _).
  - intros [= <- <-]. exists []. rewrite app_nil_r. split; [done|]. intros r _. apply receive_nothing.
Qed.

Lemma pipe_prefix (ms : list M) (w w' : FrameWriter) (k : nat) :
  Forall sendable ms -> send_all (send encode) ms w = (w', k) ->
  exists q, accepted (fw_inner w') = accepted (fw_inner w) ++ q
  /\ forall r, in_step w r -> fr_inner r = q ->
     receive_all (receive d decode) (S k) r = (take k ms, Some (IpcIo "unexpected end of file")).
Proof.
  intros Hms. revert w k. induction Hms as [|m ms Hm _ IH]; intros w k; cbn [send_all].
  - intros [= <- <-]. exists []. rewrite app_nil_r. split; [done|]. intros r _ Hr.
    destruct (receive_nothing r Hr) as [r' Hr']. cbn [receive_all]. by rewrite Hr'.
  - destruct (send encode m w) as [w1 [[]|e]] eqn:Hw.
    + destruct (send_all (send encode) ms w1) as [w2 n] eqn:Hall. intros [= <- <-].
      destruct (receive_sent m w w1 Hm Hw) as (q1 & Hq1 & Hrecv).
      destruct (IH w1 n Hall) as (q2 & Hq2 & Hrest). exists (q1 ++ q2).
      split; [by rewrite Hq2, Hq1, <- app_assoc|]. intros r Hstep Hr.
      destruct (Hrecv r q2 Hstep Hr) as (r' & Hr' & Hin & Hstep').
      cbn [receive_all take]. rewrite Hr'. specialize (Hrest r' Hstep' Hin). cbn [receive_all] in Hrest. by rewrite Hrest.
    + intros [= <- <-]. destruct (receive_cut m w w1 e Hw) as (q & Hq & Hrecv). exists q. split; [done|].
      intros r Hstep Hr. destruct (Hrecv r Hstep Hr) as [r' Hr']. cbn [receive_all]. by rewrite Hr'.
Qed.

(** On a pipe that does not break, what encodes within its kind's limit is sent. *)
Definition frames (m : M) : Prop :=
  exists kind p, encode m = Ok (kind, p) /\ (len p <= payload_limit kind)%N.
Lemma pipe_sends (ms : list M) (w : FrameWriter) :
  room (fw_inner w) = None -> Forall frames ms -> (val (fw_next_sequence w) + len ms <= u64_max)%N ->
  (send_all (send encode) ms w).2 = length ms.
Proof.
  intros Hroom Hms. revert w Hroom. induction Hms as [|m ms (kind & p & He & Hl) _ IH]; intros w Hroom Hn; [done|].
  unfold len in Hn. cbn [length] in Hn. cbn [send_all]. unfold send at 1. rewrite He. unfold write_frame.
  replace (payload_limit kind <? len p)%N with false by (symmetry; by apply N.ltb_ge).
  rewrite (proj2 (checked_add_Some _ 1 (val (fw_next_sequence w) + 1))) by (split; [done|lia]).
  unfold write_all. rewrite Hroom. cbn [room accepted].
  specialize (IH (mkFrameWriter (mkSink ((accepted (fw_inner w) ++ frame_header kind (len p) (val (id_value (fw_session w)))
    (val (fw_next_sequence w))) ++ p) None) (fw_session w) (to_word u64_max (val (fw_next_sequence w) + 1))) eq_refl).
  cbn [fw_next_sequence] in IH. rewrite val_to_word in IH by lia. unfold len in IH.
  destruct (send_all (send encode) ms _) as [w2 n]. cbn [snd] in *. rewrite IH by lia. done.
Qed.

Lemma fresh_in_step (session : RendererSessionId) (s : Sink) (l : list byte) :
  in_step (FrameWriter_new s session) (FrameReader_new l session).
Proof. done. Qed.

Lemma pipe_from_fresh (session : RendererSessionId) (budget : option N) (ms : list M) (w : FrameWriter) (k : nat) :
  Forall sendable ms -> send_all (send encode) ms (FrameWriter_new (mkSink [] budget) session) = (w, k) ->
  receive_all (receive d decode) (S k) (FrameReader_new (accepted (fw_inner w)) session)
  = (take k ms, Some (IpcIo "unexpected end of file")).
Proof.
  intros Hms Hall. destruct (pipe_prefix ms _ w k Hms Hall) as (q & Hq & Hr). cbn in Hq. subst q.
  by apply Hr.
Qed.
End pipe.

(** C12. Over a pipe that may break at any byte, the renderer receives exactly the
    messages whose send succeeded, in their order and unchanged, and then the end
    of the pipe. *)
Theorem browser_pipe_delivers (session : RendererSessionId) (budget : option N) (ms : list BrowserMessage)
    (w : FrameWriter) (k : nat) :
  Forall browser_sendable ms ->
  send_all send_browser ms (FrameWriter_new (mkSink [] budget) session) = (w, k) ->
  receive_all read_browser (S k) (FrameReader_new (accepted (fw_inner w)) session)
  = (take k ms, Some (IpcIo "unexpected end of file")).
Proof. apply pipe_from_fresh with (d := Browser) (sendable := browser_sendable). exact browser_codec. Qed.

Lemma browser_pipe_delivers_witness :
  let session := NonzeroId (to_word u64_max 7) eq_refl in
  let ms := [BmPing (to_word u64_max 5); BmShutdown] in
  let sent := send_all send_browser ms (FrameWriter_new (mkSink [] (Some 50%N)) session) in
  sent.2 = 1%nat /\ len (accepted (fw_inner sent.1)) = 50%N /\
  receive_all read_browser (S sent.2) (FrameReader_new (accepted (fw_inner sent.1)) session)
  = (take sent.2 ms, Some (IpcIo "unexpected end of file")).
Proof.
  intros session ms sent. split; [vm_compute; reflexivity|]. split; [vm_compute; reflexivity|].
  apply (browser_pipe_delivers session (Some 50%N)); [repeat constructor|apply surjective_pairing].
Defined.

(** And the browser what a renderer sends, as long as every message is
    [renderer_sendable]: everything, when the pipe holds and each message encodes
    within the limit of its kind. The condition is not empty: the renderer also
    sends subprotocols the browser refuses ([long_subprotocol_unreadable]). *)
Theorem renderer_pipe_delivers (session : RendererSessionId) (budget : option N) (ms : list RendererMessage)
    (w : FrameWriter) (k : nat) :
  Forall renderer_sendable ms ->
  send_all send_renderer ms (FrameWriter_new (mkSink [] budget) session) = (w, k) ->
  receive_all read_renderer (S k) (FrameReader_new (accepted (fw_inner w)) session)
    = (take k ms, Some (IpcIo "unexpected end of file"))
  /\ (budget = None -> Forall (frames encode_renderer) ms -> (len ms < u64_max)%N -> k = length ms).
Proof.
  intros Hms Hall. split.
  - by apply (pipe_from_fresh Renderer encode_renderer decode_renderer renderer_sendable session budget ms w k).
  - intros -> Hf Hn. pose proof (pipe_sends encode_renderer ms (FrameWriter_new (mkSink [] None) session) eq_refl Hf) as H.
    unfold send_renderer in Hall. rewrite Hall in H. cbn [snd fw_next_sequence FrameWriter_new] in H. apply H.
    change (val (to_word u64_max 1)) with 1%N. lia.
Qed.

Lemma renderer_pipe_delivers_witness :
  let session := NonzeroId (to_word u64_max 7) eq_refl in
  let ms := [RmPong (to_word u64_max 5); RmShutdownComplete] in
  let sent := send_all send_renderer ms (FrameWriter_new (mkSink [] None) session) in
  sent.2 = 2%nat /\
  receive_all read_renderer (S sent.2) (FrameReader_new (accepted (fw_inner sent.1)) session)
    = (take sent.2 ms, Some (IpcIo "unexpected end of file"))
  /\ (@None N = None -> Forall (frames encode_renderer) ms -> (len ms < u64_max)%N -> sent.2 = length ms).
Proof.
  intros session ms sent. split; [vm_compute; reflexivity|].
  apply (renderer_pipe_delivers session None); [repeat constructor|apply surjective_pairing].
Defined.
