(* ===== verification/FrameSizes.v ===== *)
(** * FrameSizes: which messages their frames can carry

    The length of what a writer appends, from above and from below. Every storage
    message an encoder accepts fits the frame of its kind (the constants of
    crates/platform/src/limits.rs), while a runtime update that carries a form's
    body larger than a control frame never leaves, although a form may be twenty
    times that size. *)

From Stdlib Require Import Strings.Byte.
From S2P Require Import Prelude Text Limits Words Protocol WebStorage LocalStore StorageSync Wire WireTheory PayloadFields Transfers StatePayloads DocumentPayloads RuntimePayloads Messages MessageTheory Frames.

(** ** Lengths *)
Definition writes_at_most (w : Writer ()) (hi : N) : Prop :=
  forall s s', w s = Ok (tt, s') -> counted s = None -> counted s' = None /\ (len (w_bytes s') <= len (w_bytes s) + hi)%N.
Definition writes_at_least (w : Writer ()) (lo : N) : Prop :=
  forall s s', w s = Ok (tt, s') -> counted s = None -> counted s' = None /\ (len (w_bytes s) + lo <= len (w_bytes s'))%N.

Lemma put_bytes_len (l : list byte) (s : WireWriter) :
  counted s = None -> counted (put_bytes l s) = None /\ len (w_bytes (put_bytes l s)) = (len (w_bytes s) + len l)%N.
Proof. intros H. unfold put_bytes. rewrite H. split; [done|]. unfold len. cbn [w_bytes]. rewrite length_app. lia. Qed.

Lemma framed_at_most (k kind hi : N) (w : Writer ()) (p : list byte) :
  writes_at_most w hi -> framed k w = Ok (kind, p) -> kind = k /\ (len p <= hi)%N.
Proof.
  intros Hw [-> H]%framed_Ok. split; [done|]. unfold written in H.
  destruct (w writer_new) as [[[] s]|e] eqn:E; [|done]. injection H as <-.
  destruct (Hw _ _ E eq_refl) as [_ H]. change (len (w_bytes writer_new)) with 0%N in H. lia.
Qed.
Lemma framed_at_least (k kind lo : N) (w : Writer ()) (p : list byte) :
  writes_at_least w lo -> framed k w = Ok (kind, p) -> kind = k /\ (lo <= len p)%N.
Proof.
  intros Hw [-> H]%framed_Ok. split; [done|]. unfold written in H.
  destruct (w writer_new) as [[[] s]|e] eqn:E; [|done]. injection H as <-.
  destruct (Hw _ _ E eq_refl) as [_ H]. change (len (w_bytes writer_new)) with 0%N in H. lia.
Qed.

(** ** From above *)
Lemma at_most_put (l : list byte) : writes_at_most (put l) (len l).
Proof. intros s s' [= <-] Hs. destruct (put_bytes_len l s Hs) as [? ->]. split; [done|lia]. Qed.
Lemma at_most_le (w : Writer ()) (a n : N) : writes_at_most w a -> (a <= n)%N -> writes_at_most w n.
Proof. intros H Hn s s' E Hs. destruct (H s s' E Hs). split; [done|lia]. Qed.
Lemma at_most_seq (w1 w2 : Writer ()) (a b : N) :
  writes_at_most w1 a -> writes_at_most w2 b -> writes_at_most (_ ← w1; w2) (a + b).
Proof.
  intros H1 H2 s s'. unfold mbind, wire_bind. destruct (w1 s) as [[[] t]|e] eqn:E; [|done]. intros H Hs.
  destruct (H1 _ _ E Hs) as [Ht ?]. destruct (H2 _ _ H Ht) as [? ?]. split; [done|lia].
Qed.
Lemma at_most_lift {X} (c : result ProtocolError X) (w : X -> Writer ()) (n : N) :
  (forall x, c = Ok x -> writes_at_most (w x) n) -> writes_at_most (x ← lift c; w x) n.
Proof. intros H s s'. destruct c as [x|e]; [|done]. exact (H x eq_refl s s'). Qed.
Lemma at_most_word (k : nat) (v n : N) : (N.of_nat k <= n)%N -> writes_at_most (put (le_bytes k v)) n.
Proof.
  intros Hn s s' H Hs. destruct (at_most_put _ _ _ H Hs) as [? Hl]. unfold len at 3 in Hl.
  rewrite length_le_bytes in Hl. split; [done|lia].
Qed.
Lemma at_most_u8 (v : N) : writes_at_most (put_u8 v) 1.
Proof. apply (at_most_put [byte_of v]). Qed.
Lemma at_most_u64 (v : N) : writes_at_most (put_u64 v) 8.
Proof. by apply at_most_word. Qed.
Lemma at_most_prefix (field : string) (v : N) : writes_at_most (length_prefix field v) 4.
Proof. apply at_most_lift. intros _ _. by apply at_most_word. Qed.
Lemma at_most_string (s : string) : writes_at_most (put_string s) (4 + byte_length s).
Proof.
  eapply at_most_le; [eapply at_most_seq; [apply at_most_prefix|apply at_most_put]|]. unfold len.
  rewrite length_bytes_of. unfold byte_length. lia.
Qed.
Lemma at_most_stored (s : StorageString) : writes_at_most (put_storage_string s) (4 + 2 * byte_len s).
Proof.
  eapply at_most_le; [eapply at_most_seq; [apply at_most_prefix|apply at_most_put]|]. unfold len.
  rewrite length_unit_bytes. pose proof (units_within_quota s). lia.
Qed.
Lemma at_most_option {A} (f : A -> Writer ()) (o : option A) (n : N) :
  (forall a, o = Some a -> writes_at_most (f a) n) -> writes_at_most (put_option f o) (1 + n).
Proof.
  intros H. unfold put_option. eapply at_most_seq; [apply at_most_u8|].
  destruct o as [a|]; [by apply H|]. intros s s' [= <-] Hs. split; [done|lia].
Qed.
Lemma at_most_nullable (o : option StorageString) : writes_at_most (put_nullable o) (5 + 2 * option_byte_len o).
Proof.
  unfold put_nullable. replace (5 + 2 * option_byte_len o)%N with (1 + (4 + 2 * option_byte_len o))%N by lia.
  apply at_most_option. intros s ->. apply at_most_stored.
Qed.

Create HintDb frame_size.
#[export] Hint Resolve at_most_u8 at_most_u64 at_most_string at_most_stored at_most_nullable : frame_size.
(** The sizes of a sequence of writes, added up. *)
Ltac size_known := solve [eauto 1 with frame_size nocore].
Ltac size_step := first [size_known|eapply at_most_seq; [size_known|size_step]].
Ltac size_up := eapply at_most_le; [size_step|].

(** ** Storage fits *)
Lemma pair_within (k v : StorageString) (u : ()) :
  validate_bytes (saturating_add (byte_len k) (byte_len v)) = Ok u ->
  (byte_len k + byte_len v <= MAX_STORAGE_BYTES_PER_ORIGIN)%N.
Proof.
  intros H. apply validate_bytes_Ok, N.nlt_ge in H. rewrite saturating_add_gt in H by reflexivity. lia.
Qed.

Lemma snapshot_entry_size (e : StorageSnapshotEntry) : writes_at_most (put_snapshot_entry e) MAX_STORAGE_FRAME_BYTES.
Proof.
  unfold put_snapshot_entry. apply at_most_lift. intros [] Hv%map_invalid_Ok. apply pair_within in Hv.
  size_up. unfold MAX_STORAGE_FRAME_BYTES. lia.
Qed.

Lemma storage_operation_size (op : StorageOperation) (a : StorageAreaKind) (v : N) :
  StorageMutation_validate (mkMutation a v op) = Ok tt ->
  writes_at_most (put_storage_operation op) (9 + 2 * MAX_STORAGE_BYTES_PER_ORIGIN).
Proof.
  unfold StorageMutation_validate. cbn [expected_version operation]. destruct (v =? 0)%N; [done|].
  destruct op as [k x|k|]; cbn [put_storage_operation];
    [intros Hv%pair_within|intros Hv%validate_bytes_Ok|intros _]; size_up; lia.
Qed.
Lemma storage_mutation_size (r : StorageMutationRequest) :
  writes_at_most (put_storage_mutation r) MAX_STORAGE_WRITE_FRAME_BYTES.
Proof.
  destruct r as [d q u [a v op]]. unfold put_storage_mutation.
  cbn [smr_document smr_sequence smr_source_url smr_mutation area expected_version operation].
  apply at_most_lift. intros [] H. unfold StorageMutationRequest_validate, reject, longer in H.
  cbn [smr_sequence smr_source_url smr_mutation] in H.
  apply bind_Ok in H as ([] & Hu%ensure_Ok & Hv%map_invalid_Ok). apply storage_operation_size in Hv.
  size_up. unfold MAX_STORAGE_WRITE_FRAME_BYTES, MAX_STORAGE_FRAME_BYTES. lia.
Qed.

Lemma StorageChange_pairs (c : StorageChange) (u : ()) :
  StorageChange_validate c = Ok u ->
  (option_byte_len (change_key c) + option_byte_len (old_value c) <= MAX_STORAGE_BYTES_PER_ORIGIN
   /\ option_byte_len (change_key c) + option_byte_len (new_value c) <= MAX_STORAGE_BYTES_PER_ORIGIN)%N.
Proof.
  unfold StorageChange_validate. destruct (_ || _); [done|].
  cbn [try_for_each]. intros H. apply bind_Ok in H as (? & Ho & H). apply bind_Ok in H as (? & Hn & _).
  by apply validate_bytes_Ok in Ho, Hn.
Qed.
Lemma change_size (c : StorageChange) (u : ()) :
  StorageChange_validate c = Ok u -> writes_at_most (put_change c) (15 + 4 * MAX_STORAGE_BYTES_PER_ORIGIN).
Proof. intros [Ho Hn]%StorageChange_pairs. unfold put_change. size_up. lia. Qed.
Lemma storage_sync_size (s : StorageSync) : writes_at_most (put_storage_sync s) MAX_STORAGE_SYNC_FRAME_BYTES.
Proof.
  unfold put_storage_sync. cbv zeta. apply at_most_lift. intros [] Hv%map_invalid_Ok.
  pose proof (update_url_within _ Hv) as Hu.
  assert (writes_at_most (put_option put_change (update_change (sync_update s))) (16 + 4 * MAX_STORAGE_BYTES_PER_ORIGIN)).
  { replace (16 + 4 * MAX_STORAGE_BYTES_PER_ORIGIN)%N with (1 + (15 + 4 * MAX_STORAGE_BYTES_PER_ORIGIN))%N by lia.
    apply at_most_option. intros c Hc. eapply change_size. exact (proj2 (update_change_valid _ _ Hv Hc)). }
  size_up. unfold MAX_STORAGE_SYNC_FRAME_BYTES. lia.
Qed.

(** C33. Every storage message its encoder accepts, at the quota's edge and with the
    longest address, is within the frame its kind may have: the frame's limit never
    refuses one. *)
Theorem storage_frames_fit (kind : N) (p : list byte) :
  (exists e, encode_browser (BmStorageSnapshotEntry e) = Ok (kind, p))
  \/ (exists s, encode_browser (BmStorageSync s) = Ok (kind, p))
  \/ (exists r, encode_renderer (RmStorageMutation r) = Ok (kind, p)) ->
  (len p <= payload_limit kind)%N.
Proof.
  intros [[e H]|[[s H]|[r H]]].
  - apply (framed_at_most _ _ _ _ _ (snapshot_entry_size e)) in H as [-> H]. exact H.
  - apply (framed_at_most _ _ _ _ _ (storage_sync_size s)) in H as [-> H]. exact H.
  - apply (framed_at_most _ _ _ _ _ (storage_mutation_size r)) in H as [-> H]. exact H.
Qed.

Lemma storage_frames_fit_witness :
  let d := NonzeroId (to_word u64_max 1) eq_refl in
  let e := mkSnapshotEntry d LocalArea (mkEntry (from_units [104%N]) (from_units [105%N])) in
  exists p, encode_browser (BmStorageSnapshotEntry e) = Ok (0x0135%N, p) /\ (len p <= payload_limit 0x0135)%N.
Proof.
  intros d e. eexists. split; [vm_compute; reflexivity|].
  apply storage_frames_fit. left. exists e. vm_compute. reflexivity.
Defined.

(** ** From below *)
Lemma carries_at_least {A} (stop : bool) (w : Writer ()) (r : Reader A) (a : A) :
  carries stop w r a -> writes_at_least w 0.
Proof.
  intros [[e He]|(l & Hl & _)] s s' H Hs; [by rewrite He in H|].
  rewrite Hl in H. injection H as <-. destruct (put_bytes_len l s Hs) as [? ->]. split; [done|lia].
Qed.
Lemma at_least_seq (w1 w2 : Writer ()) (a b : N) :
  writes_at_least w1 a -> writes_at_least w2 b -> writes_at_least (_ ← w1; w2) (a + b).
Proof.
  intros H1 H2 s s'. unfold mbind, wire_bind. destruct (w1 s) as [[[] t]|e] eqn:E; [|done]. intros H Hs.
  destruct (H1 _ _ E Hs) as [Ht ?]. destruct (H2 _ _ H Ht) as [? ?]. split; [done|lia].
Qed.
(** What is written before, and what after, the part that counts. *)
Lemma at_least_after (w1 w2 : Writer ()) (n : N) :
  writes_at_least w1 0 -> writes_at_least w2 n -> writes_at_least (_ ← w1; w2) n.
Proof. intros H1 H2. exact (at_least_seq w1 w2 0 n H1 H2). Qed.
Lemma at_least_before (w1 w2 : Writer ()) (n : N) :
  writes_at_least w1 n -> writes_at_least w2 0 -> writes_at_least (_ ← w1; w2) n.
Proof. intros H1 H2. rewrite <- (N.add_0_r n). by apply at_least_seq. Qed.
Lemma at_least_lift {X} (c : result ProtocolError X) (w : X -> Writer ()) (n : N) :
  (forall x, c = Ok x -> writes_at_least (w x) n) -> writes_at_least (x ← lift c; w x) n.
Proof. intros H s s'. destruct c as [x|e]; [|done]. exact (H x eq_refl s s'). Qed.
Lemma at_least_put (l : list byte) : writes_at_least (put l) (len l).
Proof. intros s s' [= <-] Hs. destruct (put_bytes_len l s Hs) as [? ->]. split; [done|lia]. Qed.
Lemma at_least_prefix (field : string) (n : N) : writes_at_least (length_prefix field n) 0.
Proof.
  apply at_least_lift. intros _ _ s s' H Hs. destruct (at_least_put (le_bytes 4 n) s s' H Hs). split; [done|lia].
Qed.
Lemma at_least_nothing : writes_at_least (mret tt) 0.
Proof. intros s s' [= <-] Hs. split; [done|lia]. Qed.
Lemma at_least_option {A} (f : A -> Writer ()) (o : option A) (n : N) :
  match o with Some a => writes_at_least (f a) n | None => n = 0%N end -> writes_at_least (put_option f o) n.
Proof.
  intros H. unfold put_option. apply at_least_after; [eapply carries_at_least, carries_bool|].
  destruct o as [a|]; [done|]. subst n. exact at_least_nothing.
Qed.

Ltac written_before :=
  repeat (lazymatch goal with |- writes_at_least (_ ≫= _) _ => idtac end; apply at_least_after; [first [eapply (carries_at_least false); solve [auto 2 with wire nocore]|apply at_least_prefix]|]).

Lemma at_least_string (s : ustring) : writes_at_least (put_string (text s)) 0.
Proof. eapply carries_at_least, (carries_string false s (byte_length s)). lia. Qed.
Lemma at_least_blob (l : list byte) : writes_at_least (put_blob l) (len l).
Proof. unfold put_blob. apply at_least_after; [apply at_least_prefix|apply at_least_put]. Qed.
Lemma at_least_post (p : FormPost) : writes_at_least (put_post p) (len (form_body p)).
Proof. unfold put_post. apply at_least_after; [apply at_least_string|apply at_least_blob]. Qed.
Lemma at_least_options (o : NavigationOptions) (p : FormPost) :
  post o = Some p -> writes_at_least (put_navigation_options o) (len (form_body p)).
Proof.
  intros Hp. unfold put_navigation_options. apply at_least_lift. intros _ _.
  apply at_least_after; [apply at_least_string|]. written_before.
  apply at_least_option. rewrite Hp. apply at_least_post.
Qed.
Lemma at_least_runtime (r : RuntimeReport) (n : N) :
  writes_at_least (put_navigation (navigation_url r) (navigation_options r)) n -> writes_at_least (encode_runtime r) n.
Proof.
  intros H. unfold encode_runtime. written_before. apply at_least_before; [exact H|]. written_before.
  apply at_least_lift. intros _ _. written_before.
  apply at_least_after; [eapply carries_at_least, optional_ack_carries|]. written_before.
  eapply carries_at_least, optional_media_carries.
Qed.
Lemma at_least_update (u : RendererRuntimeUpdate) (url : ustring) (p : FormPost) :
  navigation_url (runtime u) = Some url -> post (navigation_options (runtime u)) = Some p ->
  writes_at_least (put_runtime_update u) (len (form_body p)).
Proof.
  intros Hurl Hp. unfold put_runtime_update. written_before. apply at_least_before.
  - apply at_least_runtime. rewrite Hurl. unfold put_navigation. written_before.
    apply at_least_after; [apply at_least_string|by apply at_least_options].
  - written_before. eapply carries_at_least, carries_optional_u64.
Qed.

(** A form whose body is over the limit of a control frame is never sent by
    its renderer, although [MAX_FORM_BODY_BYTES] lets a form have twenty times as
    much: the send fails whatever the rest of the update is. *)
Theorem large_form_post_unsendable (u : RendererRuntimeUpdate) (url : ustring) (p : FormPost) (w : FrameWriter) :
  navigation_url (runtime u) = Some url -> post (navigation_options (runtime u)) = Some p ->
  (MAX_CONTROL_PAYLOAD < len (form_body p))%N ->
  exists e, send_renderer (RmRuntimeUpdate u) w = (w, Err e).
Proof.
  intros Hurl Hp Hl. unfold send_renderer, send. cbn [encode_renderer encode_renderer_document].
  destruct (framed _ _) as [[kind payload]|e] eqn:E; [|by eexists].
  apply (framed_at_least _ _ _ _ _ (at_least_update u url p Hurl Hp)) in E as [-> Hlen].
  unfold write_frame. change (payload_limit 0x0120) with MAX_CONTROL_PAYLOAD.
  replace (MAX_CONTROL_PAYLOAD <? len payload)%N with true by (symmetry; apply N.ltb_lt; lia). by eexists.
Qed.
