(* ===== verification/IndexedDb.v ===== *)
(** * IndexedDb: databases of many origins, their transactions and sessions

    src/indexed_db/model.rs, model/usage.rs and persistence.rs. Every write goes
    through [update]: it runs on a copy of the whole state, the copy is validated
    and saved, and only then becomes the state. A session is a transaction the
    page drives step by step on its own copy of a database; the commit is
    optimistic, refused when the database changed since the session began. *)

From Stdlib Require Import Strings.Byte.
From S2P Require Import Prelude Text OrderedMap Limits Origins Fs Snapshots WebStorage LocalStore.
From S2P Require Import Float64 Keys StructuredClone ObjectStores RecordOrder StoreTheory.

(** ** State (src/indexed_db/model.rs) *)
Abbreviation Group := (list (string * Database)) (only parsing).
Abbreviation DbState := (list (string * list (string * Database))) (only parsing).

Record IndexedDb := mkIndexedDb {
  db_state : DbState;
  db_poisoned : bool;
  db_path : option Path
}.
Definition set_db_state (idb : IndexedDb) (st : DbState) : IndexedDb :=
  mkIndexedDb st (db_poisoned idb) (db_path idb).

Record DbSession := mkDbSession {
  session_origin : string;
  session_name : string;
  session_version : N;
  session_generation : N;
  session_mode : TransactionMode;
  session_database : Database
}.
Definition set_session_database (s : DbSession) (db : Database) : DbSession :=
  mkDbSession (session_origin s) (session_name s) (session_version s) (session_generation s)
    (session_mode s) db.

(** [serde_json::to_vec] and [from_slice] on what this component serialises. *)
Class IdbJson := {
  results_to_vec : list DbResult -> result string (list byte);
  group_to_vec : Group -> result string (list byte);
  disk_to_vec : N * DbState -> result string (list byte);
  disk_from_slice : list byte -> result string (N * DbState)
}.

(** serde_json writes a number that is not finite as [null] and reads no more
    than 128 levels of nesting; a key that [Key::validate] accepts is finite and
    nests at most 32 deep. *)
Definition readable_keys (st : DbState) : bool :=
  forallb (fun og => forallb (fun kv => forallb (fun named =>
    forallb (fun r => is_ok (Key_validate 0 (record_key r))) (records named.2))
    (stores kv.2)) og.2) st.

(** Derived [Serialize] and [Deserialize] agree on the files the program writes
    (the float_roundtrip feature of serde_json is enabled in Cargo.toml). *)
Class IdbJsonLaws `{IdbJson} : Prop :=
  idb_json_round_trip (d : N * DbState) (bytes : list byte) :
    readable_keys d.2 = true -> disk_to_vec d = Ok bytes -> disk_from_slice bytes = Ok d.

Section indexed_db.
Context {URL : UrlLib} {NUM : JsonNumbers} {TEXT : JsonText} {JSON : IdbJson}.

Definition idb_origin (url : string) : result DbError string :=
  map_err (fun _ => InvalidState "IndexedDB requires a non-opaque origin") (storage_origin url).

Definition validate_results (results : list DbResult) : result DbError () :=
  bytes ← map_err (fun _ => Data "invalid IndexedDB result") (results_to_vec results);
  if (MAX_INDEXED_DB_IPC_BYTES - 128 <? N.of_nat (length bytes))%N then Err Quota else Ok tt.

(** *** Validation of a whole state *)
Fixpoint unsorted_pair (rs : list IdbRecord) : bool :=
  match rs with
  | r :: (r' :: _) as rest => negb (is_lt (cmp (record_key r) (record_key r'))) || unsorted_pair rest
  | _ => false
  end.

Definition validate_store (store_name' : string) (store : ObjectStore) : result DbError () :=
  _ ← StoreDefinition_validate (definition store);
  _ ← ensure (String.eqb store_name' (store_name (definition store)) && negb (next_key store =? 0)%N)
        (Data "invalid persisted object store");
  _ ← try_for_each (fun r => Key_validate 0 (record_key r)) (records store);
  _ ← ensure (negb (unsorted_pair (records store))) (Data "unsorted or duplicate persisted keys");
  ObjectStore_validate_indexes store.

Definition validate_database (name : string) (db : Database) : result DbError () :=
  _ ← validate_name name;
  _ ← ensure (negb (db_version db =? 0)%N) (Data "invalid persisted database version");
  try_for_each (fun kv => validate_store kv.1 kv.2) (stores db).

Definition State_validate (st : DbState) : result DbError () :=
  try_for_each (fun og =>
    origin ← idb_origin (og.1 +:+ "/");
    _ ← ensure (String.eqb origin og.1) (Data "invalid persisted origin");
    try_for_each (fun kv => validate_database kv.1 kv.2) og.2) st.

(** ** Persistence (src/indexed_db/persistence.rs) *)
Definition IDB_FORMAT_VERSION : N := 1.
Definition MAX_FILE_BYTES : N := 64 * 1024 * 1024.

Definition idb_validate (st : DbState) (per_origin total : N) : result DbError () :=
  _ ← State_validate st;
  _ ← try_for_each (fun og =>
        bytes ← map_err Persistence (group_to_vec og.2);
        if (per_origin <? N.of_nat (length bytes))%N then Err Quota else Ok tt) st;
  bytes ← map_err Persistence (disk_to_vec (IDB_FORMAT_VERSION, st));
  if (total <? N.of_nat (length bytes))%N then Err Quota else Ok tt.

Definition idb_decode (bytes : list byte) : result DbError DbState :=
  disk ← map_err Persistence (disk_from_slice bytes);
  _ ← ensure (disk.1 =? IDB_FORMAT_VERSION)%N (Data "unsupported IndexedDB storage format");
  _ ← idb_validate disk.2 (16 * 1024 * 1024) MAX_FILE_BYTES;
  Ok disk.2.

Definition idb_read : Path -> io (result DbError (option DbState)) :=
  Snapshots.read Persistence Quota MAX_FILE_BYTES idb_decode.

Definition idb_load : Path -> io (result DbError DbState) :=
  Snapshots.load Persistence Quota MAX_FILE_BYTES idb_decode [] "idb-bak".

Definition idb_write (pid : N) (p : Path) (st : DbState) : io (result DbError ()) :=
  Snapshots.write Persistence Quota MAX_FILE_BYTES "invalid database path" "idb-bak" pid p
    (disk_to_vec (IDB_FORMAT_VERSION, st)).

(** ** Operations (src/indexed_db/model.rs) *)
Definition idb_in_memory : IndexedDb := mkIndexedDb [] false None.

Definition idb_open (p : Path) : io (result DbError IndexedDb) :=
  st ←? idb_load p; mret (Ok (mkIndexedDb st false (Some p))).

Definition idb_lock (idb : IndexedDb) : result DbError DbState :=
  if db_poisoned idb then Err (Persistence "database lock poisoned") else Ok (db_state idb).

Definition find_database (st : DbState) (origin name : string) : option Database :=
  bt_get origin st ≫= bt_get name.

(** Replaces a database that is there ([get_mut] twice). *)
Definition put_database (st : DbState) (origin name : string) (db : Database) : DbState :=
  bt_insert origin (bt_insert name db (default [] (bt_get origin st))) st.

Definition inspect (idb : IndexedDb) (url name : string) : result DbError (option DatabaseInfo) :=
  _ ← validate_name name;
  origin ← idb_origin url;
  st ← idb_lock idb;
  Ok (Database_info <$> find_database st origin name).

Definition list_databases (idb : IndexedDb) (url : string) : result DbError (list DatabaseListing) :=
  origin ← idb_origin url;
  st ← idb_lock idb;
  Ok ((fun kv => mkListing kv.1 (db_version kv.2)) <$> default [] (bt_get origin st)).

Definition update {T} (pid : N) (idb : IndexedDb) (action : DbState -> result DbError (DbState * T))
  : io (IndexedDb * result DbError T) :=
  match (st ← idb_lock idb;
         '(candidate, result) ← action st;
         _ ← idb_validate candidate MAX_ORIGIN_BYTES MAX_DATABASE_BYTES;
         Ok (candidate, result)) with
  | Err e => mret (idb, Err e)
  | Ok (candidate, result) =>
      written ← match db_path idb with
                | Some path => idb_write pid path candidate
                | None => mret (Ok tt)
                end;
      match written with
      | Err e => mret (idb, Err e)
      | Ok _ => mret (set_db_state idb candidate, Ok result)
      end
  end.

(** *** The version change transaction *)
Fixpoint remove_stores (ss : list (string * ObjectStore)) (remove : list string)
  : result DbError (list (string * ObjectStore)) :=
  match remove with
  | [] => Ok ss
  | name :: remove =>
      if bt_contains name ss then remove_stores (bt_remove name ss) remove
      else Err (InvalidState "object store does not exist")
  end.

Fixpoint create_stores (ss : list (string * ObjectStore)) (create : list StoreDefinition)
  : result DbError (list (string * ObjectStore)) :=
  match create with
  | [] => Ok ss
  | d :: create =>
      _ ← StoreDefinition_validate d;
      if bt_contains (store_name d) ss then Err (Constraint "object store already exists")
      else create_stores (bt_insert (store_name d) (mkStore d 1 []) ss) create
  end.

Fixpoint redefine_stores (ss : list (string * ObjectStore)) (definitions : list StoreDefinition)
  : result DbError (list (string * ObjectStore)) :=
  match definitions with
  | [] => Ok ss
  | d :: definitions =>
      _ ← StoreDefinition_validate d;
      store ← ok_or (bt_get (store_name d) ss) (Data "object-store schema names do not match");
      if negb (bool_decide (store_key_path (definition store) = store_key_path d))
         || negb (Bool.eqb (auto_increment (definition store)) (auto_increment d))
      then Err (Data "object-store key configuration changed")
      else
        let old := definition store in
        let definition := mkDefinition (store_name old) (store_key_path old) (auto_increment old)
                            (indexes d) in
        redefine_stores (bt_insert (store_name d) (mkStore definition (next_key store) (records store)) ss)
          definitions
  end.

Definition upgrade_action (origin name : string) (previous_version version : N)
    (create : list StoreDefinition) (remove : list string) (writes : list DbOperation)
    (definitions : list StoreDefinition) (st : DbState)
  : result DbError (DbState * list DbResult) :=
  let group := default [] (bt_get origin st) in
  let db := default (mkDatabase 0 0 []) (bt_get name group) in
  if negb (db_version db =? previous_version)%N then Err Version
  else
    ss ← remove_stores (stores db) remove;
    ss ← create_stores ss create;
    ss ← (if bool_decide (definitions = []) then Ok ss
          else if negb (length definitions =? length ss)%nat
               then Err (Data "incomplete object-store schema")
               else redefine_stores ss definitions);
    let '(db, r) := Database_apply ReadWrite (set_stores db ss) writes in
    results ← r;
    _ ← validate_results results;
    _ ← Database_validate_indexes db;
    let db := mkDatabase version (wrapping_add (generation db) 1) (stores db) in
    Ok (bt_insert origin (bt_insert name db group) st, results).

Definition upgrade_with_schema (pid : N) (idb : IndexedDb) (url name : string)
    (previous_version version : N) (create : list StoreDefinition) (remove : list string)
    (writes : list DbOperation) (definitions : list StoreDefinition)
  : io (IndexedDb * result DbError (list DbResult)) :=
  match (_ ← validate_name name;
         _ ← ensure (negb ((version =? 0) || (version <=? previous_version)
                           || (MAX_OPERATIONS <? N.of_nat (length writes)))%N) Version;
         idb_origin url) with
  | Err e => mret (idb, Err e)
  | Ok origin =>
      update pid idb
        (upgrade_action origin name previous_version version create remove writes definitions)
  end.

Definition upgrade (pid : N) (idb : IndexedDb) (url name : string) (previous_version version : N)
    (create : list StoreDefinition) (remove : list string) (writes : list DbOperation)
  : io (IndexedDb * result DbError (list DbResult)) :=
  upgrade_with_schema pid idb url name previous_version version create remove writes [].

(** *** One-shot transactions *)
Definition transaction_action (origin name : string) (expected_version : N) (mode : TransactionMode)
    (operations : list DbOperation) (st : DbState) : result DbError (DbState * list DbResult) :=
  db ← ok_or (find_database st origin name) (InvalidState "database does not exist");
  if negb (db_version db =? expected_version)%N then Err Version
  else
    let '(db, r) := Database_apply mode db operations in
    results ← r;
    _ ← validate_results results;
    let db := mkDatabase (db_version db) (wrapping_add (generation db) 1) (stores db) in
    Ok (put_database st origin name db, results).

Definition transaction (pid : N) (idb : IndexedDb) (url name : string) (expected_version : N)
    (mode : TransactionMode) (operations : list DbOperation)
  : io (IndexedDb * result DbError (list DbResult)) :=
  if (MAX_OPERATIONS <? N.of_nat (length operations))%N then mret (idb, Err Quota)
  else
    match idb_origin url with
    | Err e => mret (idb, Err e)
    | Ok origin =>
        match mode with
        | ReadOnly =>
            mret (idb,
              st ← idb_lock idb;
              db ← ok_or (find_database st origin name) (InvalidState "database does not exist");
              _ ← ensure (db_version db =? expected_version)%N Version;
              results ← (Database_apply mode db operations).2;
              _ ← validate_results results;
              Ok results)
        | ReadWrite => update pid idb (transaction_action origin name expected_version mode operations)
        end
    end.

(** *** Sessions *)
Definition begin_session (idb : IndexedDb) (url name : string) (expected_version : N)
    (mode : TransactionMode) : result DbError DbSession :=
  origin ← idb_origin url;
  st ← idb_lock idb;
  db ← ok_or (find_database st origin name) (InvalidState "database does not exist");
  _ ← ensure (db_version db =? expected_version)%N Version;
  Ok (mkDbSession origin name (db_version db) (generation db) mode db).

Definition session_step (s : DbSession) (operations : list DbOperation)
  : DbSession * result DbError (list DbResult) :=
  if (MAX_OPERATIONS <? N.of_nat (length operations))%N then (s, Err Quota)
  else
    let '(candidate, r) := Database_apply (session_mode s) (session_database s) operations in
    match (results ← r; _ ← validate_results results; Ok results) with
    | Err e => (s, Err e)
    | Ok results => (set_session_database s candidate, Ok results)
    end.

Definition commit_action (s : DbSession) (st : DbState) : result DbError (DbState * ()) :=
  db ← ok_or (find_database st (session_origin s) (session_name s))
         (InvalidState "database does not exist");
  if negb (db_version db =? session_version s)%N || negb (generation db =? session_generation s)%N
  then Err Version
  else
    let r := session_database s in
    let replacement := mkDatabase (db_version r) (wrapping_add (generation r) 1) (stores r) in
    Ok (put_database st (session_origin s) (session_name s) replacement, tt).

Definition commit_session (pid : N) (idb : IndexedDb) (s : DbSession) : io (IndexedDb * result DbError ()) :=
  match session_mode s with
  | ReadOnly => mret (idb, Ok tt)
  | ReadWrite => update pid idb (commit_action s)
  end.

Definition delete_action (origin name : string) (st : DbState) : result DbError (DbState * N) :=
  match bt_get origin st with
  | Some group =>
      Ok (bt_insert origin (bt_remove name group) st,
          from_option db_version 0%N (bt_get name group))
  | None => Ok (st, 0%N)
  end.

Definition delete_database (pid : N) (idb : IndexedDb) (url name : string) : io (IndexedDb * result DbError N) :=
  match (_ ← validate_name name; idb_origin url) with
  | Err e => mret (idb, Err e)
  | Ok origin => update pid idb (delete_action origin name)
  end.

(** src/indexed_db/model/usage.rs *)
Definition usage (idb : IndexedDb) (url : string) : result DbError N :=
  origin ← idb_origin url;
  st ← idb_lock idb;
  match bt_get origin st with
  | Some ((_ :: _) as group) =>
      bytes ← map_err Persistence (group_to_vec group); Ok (N.of_nat (length bytes))
  | _ => Ok 0%N
  end.
End indexed_db.
