(* ===== verification/IdbTheory.v ===== *)
(** * IdbTheory: what the database registry guarantees

    The theorems about [IndexedDb]: accepted writes only produce states that
    validation accepts, memory and disk never disagree, read-only transactions
    change nothing, and a session commits only onto the database it read. *)

From Stdlib Require Import Strings.Byte Sorted.
From S2P Require Import Prelude Text OrderedMap Limits Origins Fs Snapshots WebStorage LocalStore.
From S2P Require Import Float64 Keys StructuredClone ObjectStores RecordOrder StoreTheory IndexedDb.

Section ordered.
Context {V : Type}.
Implicit Types (m : list (string * V)) (P : string * V -> Prop).

Lemma Forall_bt_get P m (k : string) (v : V) : Forall P m -> bt_get k m = Some v -> P (k, v).
Proof.
  induction 1 as [|[k' v'] m Hk _ IH]; simpl; [done|]. destruct (cmp k k') eqn:Hc; [|done|done].
  intros [= ->]. apply cmp_eq in Hc as ->. done.
Qed.

Lemma Forall_bt_put P m (k : string) (v : V) : P (k, v) -> Forall P m -> Forall P (bt_insert k v m).
Proof. intros Hp. apply Forall_bt_insert. intros k' Hc. by apply cmp_eq in Hc as <-. Qed.
End ordered.

Section indexed_db.
Context {URL : UrlLib} {NUM : JsonNumbers} {TEXT : JsonText} {JSON : IdbJson}.

(** ** Transactions on one database *)
Definition database_valid (db : Database) : Prop :=
  sorted (stores db) /\
  Forall (fun kv => store_valid kv.2 /\ store_name (definition kv.2) = kv.1) (stores db).

(** The same without the unique indexes (see [store_shape]). *)
Definition database_shape (db : Database) : Prop :=
  sorted (stores db) /\
  Forall (fun kv => store_shape kv.2 /\ store_name (definition kv.2) = kv.1) (stores db).

Lemma database_valid_shape (db : Database) :
  database_valid db <-> database_shape db /\ Database_validate_indexes db = Ok tt.
Proof.
  unfold database_valid, database_shape, Database_validate_indexes. rewrite try_for_each_Ok.
  rewrite !Forall_forall. split.
  - intros [Hs Hv]. split_and!; [done| |]; intros kv Hkv; destruct (Hv kv Hkv) as [[? Hi]%store_valid_shape ?];
      [done|exact Hi].
  - intros [[Hs Hv] Hi]. split; [done|]. intros kv Hkv. destruct (Hv kv Hkv). split; [|done].
    apply store_valid_shape. split; [done|]. by apply Hi.
Qed.

Lemma Database_apply_ind (mode : TransactionMode) (R : Database -> Database -> Prop) :
  (forall db, R db db) -> (forall a b c, R a b -> R b c -> R a c) ->
  (forall db op, R db (apply_operation mode db op).1) ->
  forall ops db, R db (Database_apply mode db ops).1.
Proof.
  intros Hrefl Htrans Hop ops. induction ops as [|op ops IH]; intros db; simpl; [done|].
  specialize (Hop db op). destruct (apply_operation mode db op) as [db1 [r|e]]; [|done].
  specialize (IH db1). destruct (Database_apply mode db1 ops) as [db2 [rs|e]]; simpl in *; eauto.
Qed.

Lemma apply_operation_stores (mode : TransactionMode) (db : Database) (op : DbOperation) :
  exists ss, (apply_operation mode db op).1 = set_stores db ss.
Proof.
  unfold apply_operation. destruct (operation_target op) as [name writable].
  destruct (_ && _); [by exists (stores db); destruct db|].
  destruct (bt_get name (stores db)) as [s|]; [|by exists (stores db); destruct db].
  destruct (ObjectStore_apply s op) as [s' r]. by eexists.
Qed.

(** A transaction touches the stores only. *)
Lemma Database_apply_counters (mode : TransactionMode) (db : Database) (ops : list DbOperation) :
  db_version (Database_apply mode db ops).1 = db_version db /\
  generation (Database_apply mode db ops).1 = generation db.
Proof.
  apply (Database_apply_ind mode (fun a b => db_version b = db_version a /\ generation b = generation a)).
  - done.
  - intros a b c [-> ->] [-> ->]. done.
  - intros db' op. by destruct (apply_operation_stores mode db' op) as [ss ->].
Qed.

Lemma Database_apply_read_only (db : Database) (ops : list DbOperation) :
  (Database_apply ReadOnly db ops).1 = db.
Proof.
  symmetry. apply (Database_apply_ind ReadOnly eq); [done|by intros a b c -> ->|].
  intros db' op. unfold apply_operation. pose proof (fun s => apply_read s op) as Hread.
  unfold is_read in Hread. destruct (operation_target op) as [name [|]]; [done|]. simpl in *.
  destruct (bt_get name (stores db')) as [s|] eqn:Hs; [|done]. rewrite Hread by done. simpl.
  rewrite bt_insert_id by done. by destruct db'.
Qed.

(** What an accepted operation does to the list of stores. *)
Lemma apply_operation_Ok (mode : TransactionMode) (db : Database) (op : DbOperation) db' (r : DbResult) :
  apply_operation mode db op = (db', Ok r) ->
  exists name s s', bt_get name (stores db) = Some s /\ ObjectStore_apply s op = (s', Ok r) /\
    db' = set_stores db (bt_insert name s' (stores db)).
Proof.
  unfold apply_operation. destruct (operation_target op) as [name writable].
  destruct (_ && _); [done|]. destruct (bt_get name (stores db)) as [s|] eqn:Hget; [|done].
  destruct (ObjectStore_apply s op) as [s' r'] eqn:Ha. intros [= <- ->]. by exists name, s, s'.
Qed.

(** A property of databases that every accepted operation keeps. *)
Lemma Database_apply_keeps (P : Database -> Prop) (mode : TransactionMode) :
  (forall db op db' r, P db -> apply_operation mode db op = (db', Ok r) -> P db') ->
  forall ops db db' rs, P db -> Database_apply mode db ops = (db', Ok rs) -> P db'.
Proof.
  intros Hop ops. induction ops as [|op ops IH]; intros db db' rs Hp; simpl; [by intros [= <- <-]|].
  destruct (apply_operation mode db op) as [db1 [r|e]] eqn:Ha; [|done].
  destruct (Database_apply mode db1 ops) as [db2 [rs'|e]] eqn:Hrest; [|done].
  intros [= <- <-]. eapply IH; [|exact Hrest]. by eapply Hop.
Qed.

Lemma Database_apply_keeps_shape (mode : TransactionMode) (ops : list DbOperation) (db db' : Database) rs :
  database_shape db -> Database_apply mode db ops = (db', Ok rs) ->
  database_shape db' /\ Database_info db' = Database_info db.
Proof.
  intros Hs Ha.
  apply (Database_apply_keeps
    (fun d => database_shape d /\ Database_info d = Database_info db) mode) in Ha; [done| |done].
  clear. intros d op d' r [[Hs Hv] Hinfo] Hop. rewrite <- Hinfo. clear Hinfo.
  apply apply_operation_Ok in Hop as (name & s & s' & Hget & Ha & ->).
  destruct (Forall_bt_get _ _ _ _ Hv Hget) as [Hshape Hname]. simpl in *.
  destruct (store_apply_keeps_shape _ _ _ _ Hshape Ha) as [Hshape' Hdef]. split.
  - split; simpl; [by apply bt_insert_sorted|]. apply Forall_bt_put; [|done]. simpl. by rewrite Hdef.
  - unfold Database_info. f_equal. simpl. revert Hget. clear -Hdef. generalize (stores d).
    induction l as [|[k x] l IH]; simpl; [done|]. destruct (cmp name k); [|done|].
    + intros [= ->]. rewrite !fmap_cons. by rewrite <- Hdef.
    + intros Hg. rewrite !fmap_cons. f_equal. by apply IH.
Qed.

Lemma Database_apply_keeps_valid (mode : TransactionMode) (ops : list DbOperation) (db db' : Database) rs :
  database_valid db -> Database_apply mode db ops = (db', Ok rs) -> database_valid db'.
Proof.
  intros Hv Ha. eapply Database_apply_keeps; [|exact Hv|exact Ha]. clear.
  intros db op db' r [Hs Hv] (name & s & s' & Hget & Ha & ->)%apply_operation_Ok.
  destruct (Forall_bt_get _ _ _ _ Hv Hget) as [Hsv Hname]. simpl in *.
  split; simpl; [by apply bt_insert_sorted|]. apply Forall_bt_put; [simpl|done].
  split; [by eapply store_apply_keeps_valid|].
  apply store_valid_shape in Hsv as [Hshape _].
  by destruct (store_apply_keeps_shape _ _ _ _ Hshape Ha) as [_ ->].
Qed.

(** Transactions on one database: a read-only one, whatever it is asked to
    do, leaves the database as it was; an accepted one keeps every store valid
    and the schema, the version and the generation unchanged. *)
Theorem database_apply_sound (mode : TransactionMode) (db db' : Database) (ops : list DbOperation)
    (r : result DbError (list DbResult)) :
  Database_apply mode db ops = (db', r) ->
  db_version db' = db_version db /\ generation db' = generation db /\
  (mode = ReadOnly -> db' = db) /\
  (database_valid db -> is_ok r = true ->
   database_valid db' /\ Database_info db' = Database_info db).
Proof.
  intros Ha. destruct (Database_apply_counters mode db ops) as [Hver Hgen]. rewrite Ha in Hver, Hgen.
  split_and!; [done|done| |].
  - intros ->. pose proof (Database_apply_read_only db ops) as Hro. by rewrite Ha in Hro.
  - destruct r as [rs|e]; [|done]. intros Hv _.
    split; [by eapply Database_apply_keeps_valid|].
    apply database_valid_shape in Hv as [Hs _]. by eapply Database_apply_keeps_shape.
Qed.

(** ** States that validation accepts *)
Definition entry_valid (kv : string * Database) : Prop :=
  validate_name kv.1 = Ok tt /\ db_version kv.2 <> 0%N /\ database_valid kv.2.

Definition group_valid (og : string * Group) : Prop :=
  idb_origin (og.1 +:+ "/") = Ok og.1 /\ sorted og.2 /\ Forall entry_valid og.2.

Definition state_valid (st : DbState) : Prop := sorted st /\ Forall group_valid st.

Lemma unsorted_pair_sorted (rs : list IdbRecord) :
  unsorted_pair rs = false <-> sorted (entries rs).
Proof.
  induction rs as [|r rs IH]; [split; [intros _; constructor|done]|].
  destruct rs as [|r' rs].
  { split; [intros _; repeat constructor|done]. }
  change (unsorted_pair (r :: r' :: rs))
    with (negb (is_lt (cmp (record_key r) (record_key r'))) || unsorted_pair (r' :: rs)).
  rewrite orb_false_iff, negb_false_iff, IH. unfold entries. rewrite !fmap_cons. split.
  - intros [Hlt Hs]. constructor; [done|].
    assert (Hrr : cmp (record_key r) (record_key r') = Lt) by (by destruct (cmp _ _)).
    constructor; [done|]. apply StronglySorted_inv in Hs as [_ Hs].
    eapply Forall_impl; [exact Hs|]. intros x Hx. unfold key_lt in *. simpl in *.
    by eapply cmp_lt_trans.
  - intros [Hs Hr]%StronglySorted_inv. apply Forall_inv in Hr. unfold key_lt in Hr. simpl in Hr.
    split; [by rewrite Hr|done].
Qed.

Lemma validate_store_valid (name : string) (s : ObjectStore) :
  (next_key s <= u64_max)%N ->
  validate_store name s = Ok tt <-> store_valid s /\ store_name (definition s) = name.
Proof.
  intros Hn. unfold validate_store. split.
  - intros Hv. apply bind_Ok in Hv as ([] & Hd & Hv). apply bind_Ok in Hv as ([] & Hname & Hv).
    apply bind_Ok in Hv as ([] & Hk & Hv). apply bind_Ok in Hv as ([] & Ho & Hi).
    apply ensure_Ok, andb_true_iff in Hname as [Hname%String.eqb_eq Hnk].
    apply ensure_Ok, negb_true_iff, unsorted_pair_sorted in Ho. apply try_for_each_Ok in Hk.
    split; [|done]. split; [done|lia|done|done|done].
  - intros [[Hd Hnk Hk Ho Hi] Hname]. rewrite Hd. simpl. rewrite Hname, String.eqb_refl.
    destruct (N.eqb_spec (next_key s) 0); [lia|]. simpl.
    rewrite (proj2 (try_for_each_Ok _ _ tt) Hk). simpl.
    rewrite (proj2 (unsorted_pair_sorted _) Ho). simpl. done.
Qed.

(** [u64]s and [BTreeMap]s, whatever the file said. *)
Definition state_typed (st : DbState) : Prop :=
  sorted st /\ Forall (fun og => sorted og.2 /\
    Forall (fun kv => sorted (stores kv.2) /\
      Forall (fun ks => (next_key ks.2 <= u64_max)%N) (stores kv.2)) og.2) st.

Lemma validate_database_valid (name : string) (db : Database) :
  sorted (stores db) -> Forall (fun ks => (next_key ks.2 <= u64_max)%N) (stores db) ->
  validate_database name db = Ok tt <-> entry_valid (name, db).
Proof.
  intros Hs Hn. unfold validate_database, entry_valid, database_valid. simpl. split.
  - intros Hv. apply bind_Ok in Hv as ([] & Hname & Hv). apply bind_Ok in Hv as ([] & Hver & Hv).
    apply ensure_Ok in Hver. apply try_for_each_Ok in Hv. split_and!; [done|lia|done|].
    rewrite Forall_forall in Hv, Hn |- *. intros ks Hin. apply validate_store_valid; auto.
  - intros (Hname & Hver & _ & Hv). rewrite Hname. simpl.
    destruct (N.eqb_spec (db_version db) 0); [done|]. simpl. apply try_for_each_Ok.
    rewrite Forall_forall in Hv, Hn |- *. intros ks Hin. apply validate_store_valid; auto.
Qed.

Lemma State_validate_valid (st : DbState) :
  state_typed st -> State_validate st = Ok tt <-> state_valid st.
Proof.
  intros [Hs Ht]. unfold State_validate, state_valid. rewrite try_for_each_Ok.
  rewrite Forall_forall in Ht. rewrite !Forall_forall.
  assert (Hg : forall og, og ∈ st ->
    (origin ← idb_origin (og.1 +:+ "/");
     _ ← ensure (String.eqb origin og.1) (Data "invalid persisted origin");
     try_for_each (fun kv => validate_database kv.1 kv.2) og.2) = Ok tt <-> group_valid og).
  { intros og Hin. destruct (Ht og Hin) as [Hgs Hg]. unfold group_valid.
    destruct (idb_origin (og.1 +:+ "/")) as [origin|e]; simpl; [|naive_solver].
    destruct (String.eqb_spec origin og.1) as [->|Hne]; simpl.
    - rewrite try_for_each_Ok. rewrite Forall_forall in Hg. rewrite !Forall_forall. split.
      + intros Hv. split_and!; [done..|]. intros kv Hkv. destruct (Hg kv Hkv) as [H1 H2].
        specialize (Hv kv Hkv). destruct kv. by apply validate_database_valid.
      + intros (_ & _ & Hv) kv Hkv. destruct (Hg kv Hkv) as [H1 H2].
        specialize (Hv kv Hkv). destruct kv. by apply validate_database_valid.
    - split; [done|]. intros ([= Hno] & _). done. }
  split.
  - intros Hv. split; [done|]. intros og Hin. by apply Hg, Hv.
  - intros [_ Hv] og Hin. by apply Hg, Hv.
Qed.

Lemma state_valid_typed (st : DbState) : state_valid st -> state_typed st.
Proof.
  intros [Hs Hg]. split; [done|]. eapply Forall_impl; [exact Hg|].
  intros og (_ & Hgs & He). split; [done|]. eapply Forall_impl; [exact He|].
  intros kv (_ & _ & Hss & Hst). split; [done|]. eapply Forall_impl; [exact Hst|].
  intros ks [Hv _]. apply (valid_next_key _ Hv).
Qed.

(** ** Schema changes *)
Definition shaped (ss : list (string * ObjectStore)) : Prop :=
  sorted ss /\ Forall (fun kv => store_shape kv.2 /\ store_name (definition kv.2) = kv.1) ss.

Lemma remove_stores_shaped (remove : list string) (ss ss' : list (string * ObjectStore)) :
  shaped ss -> remove_stores ss remove = Ok ss' -> shaped ss'.
Proof.
  revert ss. induction remove as [|name remove IH]; intros ss Hs; simpl; [by intros [= <-]|].
  destruct (bt_contains name ss); [|done]. apply IH. destruct Hs. split; [by apply bt_remove_sorted|].
  by apply Forall_bt_remove.
Qed.

Lemma validate_index_list_loop (d1 : string) (names : list (string * ())) (defs : list IndexDefinition) :
  validate_index_list d1 names defs = Ok tt -> validate_indexes_loop names defs [] = Ok tt.
Proof.
  revert names. induction defs as [|i defs IH]; intros names; simpl; [done|].
  destruct (IndexDefinition_validate i); [|done]. simpl. destruct (bt_contains _ names); [done|].
  intros Hv. destruct (unique i); simpl; by apply IH.
Qed.

Lemma StoreDefinition_validate_indexes (d : StoreDefinition) :
  StoreDefinition_validate d = Ok tt -> validate_index_list "index already exists" [] (indexes d) = Ok tt.
Proof.
  unfold StoreDefinition_validate. intros Hv. apply bind_Ok in Hv as ([] & _ & Hv).
  by apply bind_Ok in Hv as ([] & _ & Hv).
Qed.

Lemma create_stores_shaped (create : list StoreDefinition) (ss ss' : list (string * ObjectStore)) :
  shaped ss -> create_stores ss create = Ok ss' -> shaped ss'.
Proof.
  revert ss. induction create as [|d create IH]; intros ss Hs; simpl; [by intros [= <-]|].
  intros ([] & Hd & Hc)%bind_Ok. destruct (bt_contains _ ss); [done|]. apply IH in Hc; [done|].
  destruct Hs as [Hs Hv]. split; [by apply bt_insert_sorted|]. apply Forall_bt_put; [|done].
  split; [|done]. split; simpl; [done|unfold u64_max; lia|constructor|constructor].
Qed.

Lemma redefine_stores_shaped (definitions : list StoreDefinition) (ss ss' : list (string * ObjectStore)) :
  shaped ss -> redefine_stores ss definitions = Ok ss' -> shaped ss'.
Proof.
  revert ss. induction definitions as [|d definitions IH]; intros ss Hs; simpl; [by intros [= <-]|].
  intros Hr. apply bind_Ok in Hr as ([] & Hd & Hr). apply bind_Ok in Hr as (store & Hget & Hr).
  apply ok_or_Ok in Hget. destruct (_ || _) eqn:Hcfg; [done|]. apply IH in Hr; [done|].
  apply orb_false_iff in Hcfg as [Hp%negb_false_iff%bool_decide_eq_true Ha%negb_false_iff%eqb_prop].
  destruct Hs as [Hs Hv]. destruct (Forall_bt_get _ _ _ _ Hv Hget) as [Hshape Hname]. simpl in *.
  split; [by apply bt_insert_sorted|]. apply Forall_bt_put; [|done]. simpl. split; [|done].
  destruct Hshape as [_ Hn Hk Ho]. split; simpl; [|done..].
  unfold StoreDefinition_validate in *. simpl. by rewrite Hname, Hp.
Qed.

(** ** The four writes *)
Lemma find_database_valid (st : DbState) (origin name : string) (db : Database) :
  state_valid st -> find_database st origin name = Some db ->
  group_valid (origin, default [] (bt_get origin st)) /\ entry_valid (name, db).
Proof.
  intros [Hs Hg]. unfold find_database. destruct (bt_get origin st) as [group|] eqn:Ho; [|done]. simpl.
  intros Hn. pose proof (Forall_bt_get _ _ _ _ Hg Ho) as Hgroup. split; [done|].
  destruct Hgroup as (_ & _ & He). by apply (Forall_bt_get _ _ _ _ He).
Qed.

Lemma put_database_valid (st : DbState) (origin name : string) (db : Database) :
  state_valid st -> group_valid (origin, default [] (bt_get origin st)) -> entry_valid (name, db) ->
  state_valid (put_database st origin name db).
Proof.
  intros [Hs Hg] (Ho & Hgs & He) Hdb. unfold put_database. split; [by apply bt_insert_sorted|].
  apply Forall_bt_put; [|done]. split_and!; simpl; [done|by apply bt_insert_sorted|by apply Forall_bt_put].
Qed.

Lemma transaction_action_valid (origin name : string) (version : N) (mode : TransactionMode)
    (ops : list DbOperation) (st st' : DbState) rs :
  state_valid st -> transaction_action origin name version mode ops st = Ok (st', rs) -> state_valid st'.
Proof.
  intros Hs. unfold transaction_action. intros (db & Hdb%ok_or_Ok & Ha)%bind_Ok.
  destruct (negb _); [done|]. destruct (Database_apply mode db ops) as [db' r] eqn:Happ.
  apply bind_Ok in Ha as (results & -> & Ha). apply bind_Ok in Ha as (u & _ & [= <- _]).
  destruct (find_database_valid _ _ _ _ Hs Hdb) as [Hg (Hn & Hver & Hv)].
  apply put_database_valid; [done..|]. split_and!; simpl; [done| |].
  - destruct (Database_apply_counters mode db ops) as [Hv' _]. rewrite Happ in Hv'. simpl in *. congruence.
  - exact (Database_apply_keeps_valid mode ops db db' results Hv Happ).
Qed.

Definition session_ok (s : DbSession) : Prop :=
  database_valid (session_database s) /\ db_version (session_database s) = session_version s /\
  generation (session_database s) = session_generation s.

Lemma commit_action_valid (s : DbSession) (st st' : DbState) (u : ()) :
  state_valid st -> session_ok s -> commit_action s st = Ok (st', u) -> state_valid st'.
Proof.
  intros Hs (Hv & Hver & Hgen). unfold commit_action. intros (db & Hdb%ok_or_Ok & Hc)%bind_Ok.
  destruct (_ || _) eqn:Hsame; [done|]. injection Hc as <- _.
  apply orb_false_iff in Hsame as [Hv1 _]. apply negb_false_iff, N.eqb_eq in Hv1.
  destruct (find_database_valid _ _ _ _ Hs Hdb) as [Hg (Hn & Hver0 & _)].
  apply put_database_valid; [done..|]. split_and!; simpl; [done|simpl in *; congruence|done].
Qed.

Lemma delete_action_valid (origin name : string) (st st' : DbState) (old : N) :
  state_valid st -> delete_action origin name st = Ok (st', old) -> state_valid st'.
Proof.
  intros [Hs Hg]. unfold delete_action. destruct (bt_get origin st) as [group|] eqn:Ho; intros [= <- _];
    [|done]. pose proof (Forall_bt_get _ _ _ _ Hg Ho) as (Hc & Hgs & He). simpl in *.
  split; [by apply bt_insert_sorted|]. apply Forall_bt_put; [|done].
  split_and!; simpl; [done|by apply bt_remove_sorted|by apply Forall_bt_remove].
Qed.

Lemma upgrade_action_valid (origin name : string) (previous version : N) create remove writes definitions
    (st st' : DbState) rs :
  state_valid st -> idb_origin (origin +:+ "/") = Ok origin -> validate_name name = Ok tt ->
  version <> 0%N ->
  upgrade_action origin name previous version create remove writes definitions st = Ok (st', rs) ->
  state_valid st'.
Proof.
  intros Hs Ho Hn Hver. unfold upgrade_action.
  set (group := default [] (bt_get origin st)).
  assert (Hgroup : group_valid (origin, group)).
  { unfold group. destruct Hs as [_ Hg]. destruct (bt_get origin st) as [g|] eqn:Hget; simpl.
    - by apply (Forall_bt_get _ _ _ _ Hg).
    - split_and!; [done|constructor|constructor]. }
  set (db := default (mkDatabase 0 0 []) (bt_get name group)).
  assert (Hdb : shaped (stores db)).
  { unfold db. destruct (bt_get name group) as [d|] eqn:Hget; simpl; [|split; constructor].
    destruct Hgroup as (_ & _ & He). destruct (Forall_bt_get _ _ _ _ He Hget) as (_ & _ & Hv).
    apply database_valid_shape in Hv as [Hv _]. exact Hv. }
  destruct (negb _); [done|]. intros (ss1 & Hr & Hu)%bind_Ok.
  apply remove_stores_shaped in Hr; [|done].
  apply bind_Ok in Hu as (ss2 & Hc & Hu). apply create_stores_shaped in Hc; [|done].
  apply bind_Ok in Hu as (ss3 & Hd & Hu).
  assert (Hs3 : shaped ss3).
  { case_bool_decide; [by injection Hd as <-|]. destruct (negb _); [done|].
    by apply redefine_stores_shaped in Hd. }
  destruct (Database_apply ReadWrite (set_stores db ss3) writes) as [db' r] eqn:Happ.
  apply bind_Ok in Hu as (results & -> & Hu). apply bind_Ok in Hu as (u1 & _ & Hu).
  apply bind_Ok in Hu as ([] & Hi & [= <- _]).
  apply (put_database_valid st origin name); [done..|]. split_and!; simpl; [done..|].
  apply (database_valid_shape (mkDatabase version _ (stores db'))).
  split; [|done]. by apply (Database_apply_keeps_shape ReadWrite writes _ _ results) in Happ as [Hshape _].
Qed.

(** ** Histories of writes *)
Inductive write_label := Wrote | Deleted (origin name : string).

(** One accepted write of any document: what [update] may install. *)
Inductive db_write : write_label -> DbState -> DbState -> Prop :=
  | write_upgrade url origin name previous version create remove writes definitions st st' rs :
      idb_origin url = Ok origin -> validate_name name = Ok tt -> version <> 0%N ->
      upgrade_action origin name previous version create remove writes definitions st = Ok (st', rs) ->
      db_write Wrote st st'
  | write_transaction url origin name version ops st st' rs :
      idb_origin url = Ok origin ->
      transaction_action origin name version ReadWrite ops st = Ok (st', rs) ->
      db_write Wrote st st'
  | write_commit s st st' u :
      session_ok s -> commit_action s st = Ok (st', u) -> db_write Wrote st st'
  | write_delete origin name st st' old :
      delete_action origin name st = Ok (st', old) -> db_write (Deleted origin name) st st'.

Definition db_reachable : relation DbState := rtc (fun st st' => exists l, db_write l st st').

Lemma idb_origin_reparses (url origin : string) :
  reparses_origins -> idb_origin url = Ok origin -> idb_origin (origin +:+ "/") = Ok origin.
Proof.
  intros Hr. unfold idb_origin. intros Ho%map_err_Ok. apply map_err_Ok. by eapply reparses_canonical.
Qed.

Lemma db_write_valid (l : write_label) (st st' : DbState) :
  reparses_origins -> state_valid st -> db_write l st st' -> state_valid st'.
Proof.
  intros Hr Hs Hw. destruct Hw.
  - by eapply upgrade_action_valid; [|eapply idb_origin_reparses|..].
  - by eapply transaction_action_valid.
  - by eapply commit_action_valid.
  - by eapply delete_action_valid.
Qed.

(** C38. No accepted write produces a state that validation refuses: along any
    history of upgrades, transactions, session commits and deletions, on any
    origins, from a state the loader accepts, the state passes the loader's
    validation, so only its size can make [update] or a reload fail. *)
Theorem reachable_states_validate (st st' : DbState) :
  reparses_origins -> state_typed st -> State_validate st = Ok tt -> db_reachable st st' ->
  State_validate st' = Ok tt.
Proof.
  intros Hr Ht Hv Hw. apply State_validate_valid in Hv; [|done].
  assert (state_valid st') as Hv'.
  { induction Hw as [|st st1 st' [l Hl] _ IH]; [done|]. apply IH.
    - by apply state_valid_typed, (db_write_valid l st).
    - by eapply db_write_valid. }
  apply State_validate_valid; [by apply state_valid_typed|done].
Qed.

(** ** Sessions *)
Inductive session_steps : DbSession -> DbSession -> Prop :=
  | session_done s : session_steps s s
  | session_more s ops s1 s' rs :
      session_step s ops = (s1, Ok rs) -> session_steps s1 s' -> session_steps s s'.

Lemma begin_session_ok (idb : IndexedDb) (url name : string) (version : N) (mode : TransactionMode) s :
  begin_session idb url name version mode = Ok s ->
  find_database (db_state idb) (session_origin s) (session_name s) = Some (session_database s) /\
  session_version s = db_version (session_database s) /\
  session_generation s = generation (session_database s).
Proof.
  unfold begin_session. intros Hb. apply bind_Ok in Hb as (origin & _ & Hb).
  apply bind_Ok in Hb as (st & Hst & Hb). apply bind_Ok in Hb as (db & Hdb%ok_or_Ok & Hb).
  apply bind_Ok in Hb as (u & _ & [= <-]). unfold idb_lock in Hst.
  destruct (db_poisoned idb); [done|]. injection Hst as <-. done.
Qed.

Lemma session_steps_keep s s' :
  session_steps s s' ->
  session_origin s' = session_origin s /\ session_name s' = session_name s /\
  session_version s' = session_version s /\ session_generation s' = session_generation s /\
  (session_ok s -> session_ok s').
Proof.
  induction 1 as [|s ops s1 s' rs Hstep _ IH]; [done|].
  destruct IH as (-> & -> & -> & -> & Hok). unfold session_step in Hstep.
  destruct (_ <? _)%N; [done|].
  destruct (Database_apply (session_mode s) (session_database s) ops) as [db r] eqn:Ha.
  destruct (_ ≫= _) as [results|e] eqn:Hr; [|done]. injection Hstep as <- _.
  split_and!; try done. intros (Hv & Hver & Hgen). apply Hok.
  apply bind_Ok in Hr as (results' & -> & _).
  destruct (Database_apply_counters (session_mode s) (session_database s) ops) as [Hc1 Hc2].
  rewrite Ha in Hc1, Hc2. simpl in *. split_and!; simpl; [|congruence..].
  by eapply Database_apply_keeps_valid.
Qed.

(** A write either leaves a database alone or advances its generation. *)
Lemma find_put_database (st : DbState) (origin name o n : string) (db : Database) :
  sorted st -> sorted (default [] (bt_get origin st)) ->
  find_database (put_database st origin name db) o n
  = if bool_decide (o = origin /\ n = name) then Some db else find_database st o n.
Proof.
  intros Hs Hg. unfold find_database, put_database. destruct (decide (o = origin)) as [->|Ho].
  - rewrite bt_get_insert_eq by done. simpl. destruct (decide (n = name)) as [->|Hn].
    + rewrite bt_get_insert_eq by done. by rewrite bool_decide_eq_true_2.
    + rewrite bt_get_insert_ne by done. rewrite bool_decide_eq_false_2 by tauto.
      by destruct (bt_get origin st).
  - rewrite bt_get_insert_ne by done. by rewrite bool_decide_eq_false_2 by tauto.
Qed.

Lemma state_valid_group_sorted (st : DbState) (origin : string) :
  state_valid st -> sorted (default [] (bt_get origin st)).
Proof.
  intros [_ Hg]. destruct (bt_get origin st) as [g|] eqn:Hget; simpl; [|constructor].
  by destruct (Forall_bt_get _ _ _ _ Hg Hget) as (_ & ? & _).
Qed.

Lemma db_write_generation (l : write_label) (st st' : DbState) (origin name : string) (db : Database) :
  state_valid st -> db_write l st st' -> l <> Deleted origin name ->
  find_database st origin name = Some db ->
  find_database st' origin name = Some db \/
  exists db', find_database st' origin name = Some db' /\
              generation db' = wrapping_add (generation db) 1.
Proof.
  intros Hs Hw Hl Hdb. pose proof (proj1 Hs) as Hsorted.
  pose proof (fun o => state_valid_group_sorted st o Hs) as Hgs. destruct Hw as
    [url o n previous version create remove writes definitions st st' rs Ho Hn Hver Hu
    |url o n version ops st st' rs Ho Ht|s st st' u Hok Hc|o n st st' old Hd].
  - unfold upgrade_action in Hu. destruct (negb _); [done|].
    apply bind_Ok in Hu as (ss1 & _ & Hu). apply bind_Ok in Hu as (ss2 & _ & Hu).
    apply bind_Ok in Hu as (ss3 & _ & Hu).
    destruct (Database_apply ReadWrite _ writes) as [db' r] eqn:Ha.
    apply bind_Ok in Hu as (results & _ & Hu). apply bind_Ok in Hu as (u1 & _ & Hu).
    apply bind_Ok in Hu as (u2 & _ & [= <- _]).
    change (bt_insert o _ st) with (put_database st o n
      (mkDatabase version (wrapping_add (generation db') 1) (stores db'))).
    rewrite find_put_database by done. case_bool_decide as Hsame; [right|by left].
    destruct Hsame as [<- <-]. eexists. split; [done|]. simpl. f_equal.
    pose proof (Database_apply_counters ReadWrite (set_stores
      (default (mkDatabase 0 0 []) (bt_get name (default [] (bt_get origin st)))) ss3) writes) as [_ Hgen].
    rewrite Ha in Hgen. simpl in Hgen. rewrite Hgen. unfold find_database in Hdb.
    destruct (bt_get origin st) as [g|]; [|done]. simpl in *. by rewrite Hdb.
  - unfold transaction_action in Ht. apply bind_Ok in Ht as (d & Hd%ok_or_Ok & Ht).
    destruct (negb _); [done|]. destruct (Database_apply ReadWrite d ops) as [d' r] eqn:Ha.
    apply bind_Ok in Ht as (results & _ & Ht). apply bind_Ok in Ht as (u & _ & [= <- _]).
    rewrite find_put_database by done. case_bool_decide as Hsame; [right|by left].
    destruct Hsame as [<- <-]. eexists. split; [done|]. simpl. f_equal.
    pose proof (Database_apply_counters ReadWrite d ops) as [_ Hgen]. rewrite Ha in Hgen. simpl in *.
    congruence.
  - unfold commit_action in Hc. apply bind_Ok in Hc as (d & Hd%ok_or_Ok & Hc).
    destruct (_ || _) eqn:Hsame; [done|]. injection Hc as <- _.
    apply orb_false_iff in Hsame as [_ Hg]. apply negb_false_iff, N.eqb_eq in Hg.
    rewrite find_put_database by done. case_bool_decide as Hsame; [right|by left].
    destruct Hsame as [-> ->]. eexists. split; [done|]. simpl. f_equal.
    destruct Hok as (_ & _ & Hgen). congruence.
  - left. unfold delete_action in Hd. destruct (bt_get o st) as [g|] eqn:Hg; injection Hd as <- _; [|done].
    unfold find_database in *. specialize (Hgs o). rewrite Hg in Hgs. simpl in Hgs.
    destruct (decide (origin = o)) as [->|Hne]; [|by rewrite bt_get_insert_ne by done].
    rewrite bt_get_insert_eq by done. rewrite Hg in Hdb. simpl in *.
    rewrite bt_get_remove_ne; [done..|]. intros ->. by apply Hl.
Qed.

(** [n] writes, none of which deletes the database. *)
Inductive writes_keeping (origin name : string) : nat -> DbState -> DbState -> Prop :=
  | keeping_none st : writes_keeping origin name 0 st st
  | keeping_more n l st st1 st' :
      db_write l st st1 -> l <> Deleted origin name -> writes_keeping origin name n st1 st' ->
      writes_keeping origin name (S n) st st'.

Lemma wrapping_add_mod (g k : N) :
  ((wrapping_add g 1 + k) mod 2 ^ 64 = (g + (k + 1)) mod 2 ^ 64)%N.
Proof.
  unfold wrapping_add. change (u64_max + 1)%N with (2 ^ 64)%N.
  rewrite N.Div0.add_mod_idemp_l. f_equal. lia.
Qed.

(** Fewer than 2^64 steps cannot bring a counter back where it was. *)
Lemma wrapping_window (g k : N) :
  (k < 2 ^ 64)%N -> (g mod 2 ^ 64 = (g + k) mod 2 ^ 64)%N -> k = 0%N.
Proof.
  intros Hk Hm. pose proof (N.div_mod g (2 ^ 64) ltac:(lia)).
  pose proof (N.div_mod (g + k) (2 ^ 64) ltac:(lia)).
  pose proof (N.mod_lt g (2 ^ 64) ltac:(lia)).
  assert ((g + k) / 2 ^ 64 = g / 2 ^ 64)%N as Hq by lia. lia.
Qed.

Lemma writes_keeping_generation (origin name : string) (n : nat) (st st' : DbState) (db : Database) :
  reparses_origins -> state_valid st -> writes_keeping origin name n st st' ->
  find_database st origin name = Some db ->
  exists db' k, find_database st' origin name = Some db' /\ (k <= N.of_nat n)%N /\
    (generation db' mod 2 ^ 64 = (generation db + k) mod 2 ^ 64)%N /\ (k = 0%N -> db' = db).
Proof.
  intros Hr Hs Hw. revert db Hs. induction Hw as [st|n l st st1 st' Hl Hne _ IH]; intros db Hs Hdb.
  { exists db, 0%N. rewrite N.add_0_r. split_and!; [done|lia|done|done]. }
  destruct (db_write_generation l st st1 origin name db Hs Hl Hne Hdb) as [Hsame|(db1 & Hdb1 & Hg)].
  - destruct (IH db) as (db' & k & Hdb' & Hk & Hgen & Hz); [by eapply db_write_valid|done|].
    exists db', k. split_and!; [done|lia|done|done].
  - destruct (IH db1) as (db' & k & Hdb' & Hk & Hgen & Hz); [by eapply db_write_valid|done|].
    exists db', (k + 1)%N. split_and!; [done|lia| |lia]. by rewrite Hgen, Hg, wrapping_add_mod.
Qed.

(** C8. No lost updates: a session that commits found the database exactly as
    it was when the session began, whatever other documents wrote or tried to
    write in between (short of 2^64 writes, or of deleting the database); it
    then installs the result of its own steps and touches no other database. *)
Theorem session_commit_serializable (idb : IndexedDb) (url name : string) (version : N)
    (mode : TransactionMode) (s0 s : DbSession) (n : nat) (st' st'' : DbState) (u : ()) :
  reparses_origins -> state_valid (db_state idb) ->
  begin_session idb url name version mode = Ok s0 -> session_steps s0 s ->
  (N.of_nat n < 2 ^ 64)%N ->
  writes_keeping (session_origin s0) name n (db_state idb) st' ->
  commit_action s st' = Ok (st'', u) ->
  find_database st' (session_origin s0) name = Some (session_database s0) /\
  find_database st'' (session_origin s0) name
    = Some (mkDatabase (db_version (session_database s)) (wrapping_add (generation (session_database s)) 1)
              (stores (session_database s))) /\
  (forall o m, (o, m) <> (session_origin s0, name) -> find_database st'' o m = find_database st' o m).
Proof.
  intros Hr Hs Hbegin Hsteps Hn Hw Hc.
  assert (session_name s0 = name) as Hname.
  { unfold begin_session in Hbegin. apply bind_Ok in Hbegin as (? & _ & Hb).
    apply bind_Ok in Hb as (? & _ & Hb). apply bind_Ok in Hb as (? & _ & Hb).
    by apply bind_Ok in Hb as (? & _ & [= <-]). }
  apply begin_session_ok in Hbegin as (Hdb & Hver & Hgen). rewrite Hname in Hdb.
  apply session_steps_keep in Hsteps as (Ho' & Hn' & Hver' & Hgen' & _).
  destruct (writes_keeping_generation _ _ _ _ _ _ Hr Hs Hw Hdb) as (db' & k & Hdb' & Hk & Hmod & Hz).
  assert (state_valid st') as Hs'.
  { clear -Hr Hs Hw. induction Hw as [|n l st st1 st' Hl _ _ IH]; [done|]. by eapply IH, db_write_valid. }
  unfold commit_action in Hc. rewrite Ho', Hn', Hname, Hdb' in Hc. simpl in Hc.
  destruct (_ || _) eqn:Hsame; [done|]. injection Hc as <- _.
  apply orb_false_iff in Hsame as [_ Hg]. apply negb_false_iff, N.eqb_eq in Hg.
  rewrite Hgen', Hgen in Hg. split_and!.
  - rewrite Hdb'. f_equal. apply Hz. rewrite Hg in Hmod.
    by apply wrapping_window in Hmod; lia.
  - rewrite find_put_database; [|apply Hs'|by apply state_valid_group_sorted].
    by rewrite bool_decide_eq_true_2.
  - intros o m Hne. rewrite find_put_database; [|apply Hs'|by apply state_valid_group_sorted].
    rewrite bool_decide_eq_false_2; [done|]. intros [-> ->]. by apply Hne.
Qed.

(** ** Memory and disk *)
Definition idb_holds : Path -> gmap Path File -> DbState -> Prop :=
  Snapshots.holds Quota MAX_FILE_BYTES idb_decode [] "idb-bak".

Lemma update_cases {T} (pid : N) (idb : IndexedDb) (action : DbState -> result DbError (DbState * T)) (w : World) :
  (exists e, update pid idb action w = (w, Done (idb, Err e))) \/
  exists candidate result, action (db_state idb) = Ok (candidate, result) /\
    idb_validate candidate MAX_ORIGIN_BYTES MAX_DATABASE_BYTES = Ok tt /\
    update pid idb action w =
      match (match db_path idb with Some p => idb_write pid p candidate | None => mret (Ok tt) end) w with
      | (w', Done (Ok _)) => (w', Done (set_db_state idb candidate, Ok result))
      | (w', Done (Err e)) => (w', Done (idb, Err e))
      | (w', Crashed) => (w', Crashed)
      end.
Proof.
  unfold update, idb_lock. destruct (db_poisoned idb); [left; by eexists|]. simpl.
  destruct (action (db_state idb)) as [[candidate result]|e]; [|left; by eexists]. simpl.
  destruct (idb_validate candidate _ _) as [[]|e] eqn:Hv; [|left; by eexists]. simpl. right.
  exists candidate, result. split_and!; [done..|]. unfold mbind, io_bind.
  destruct (db_path idb) as [p|]; [|done].
  by destruct (idb_write pid p candidate w) as [w' [[u|e]|]].
Qed.

(** A state that validates is one serde_json reads back. *)
Lemma State_validate_readable (st : DbState) : State_validate st = Ok tt -> readable_keys st = true.
Proof.
  unfold State_validate, readable_keys. rewrite try_for_each_Ok, Forall_forall. intros Hv.
  apply forallb_forall. intros og Hog%list_elem_of_In. apply Hv in Hog.
  apply bind_Ok in Hog as (origin & _ & Hog). apply bind_Ok in Hog as (_ & _ & Hog).
  apply try_for_each_Ok in Hog. rewrite Forall_forall in Hog.
  apply forallb_forall. intros kv Hkv%list_elem_of_In. apply Hog in Hkv.
  apply bind_Ok in Hkv as (_ & _ & Hkv). apply bind_Ok in Hkv as (_ & _ & Hkv).
  apply try_for_each_Ok in Hkv. rewrite Forall_forall in Hkv.
  apply forallb_forall. intros named Hn%list_elem_of_In. apply Hkv in Hn.
  apply bind_Ok in Hn as (_ & _ & Hn). apply bind_Ok in Hn as (_ & _ & Hn).
  apply bind_Ok in Hn as ([] & Hn & _). apply try_for_each_Ok in Hn. rewrite Forall_forall in Hn.
  apply forallb_forall. intros r Hr%list_elem_of_In. by apply is_ok_spec, Hn.
Qed.

Lemma idb_decode_saved {LAWS : IdbJsonLaws} (st : DbState) bytes :
  idb_validate st MAX_ORIGIN_BYTES MAX_DATABASE_BYTES = Ok tt ->
  disk_to_vec (IDB_FORMAT_VERSION, st) = Ok bytes -> idb_decode bytes = Ok st.
Proof.
  intros Hv Hb. pose proof Hv as Hs. apply bind_Ok in Hs as ([] & Hs & _).
  unfold idb_decode. rewrite (idb_json_round_trip (IDB_FORMAT_VERSION, st) _ (State_validate_readable _ Hs) Hb).
  simpl. change (16 * 1024 * 1024)%N with MAX_ORIGIN_BYTES.
  change MAX_FILE_BYTES with MAX_DATABASE_BYTES. by rewrite Hv.
Qed.

(** C6. IndexedDB is durable. On any schedule of failures and at any crash point
    of a write, loading the profile afterwards gives exactly the databases in
    memory when the write answered; when the machine stopped first, those before
    it or those the action made of them. A write that fails, at any stage, leaves
    memory as it was. The one exception is the environment's: when
    [Path::exists] could not query the state file and the save then did not
    succeed, the older backup may have taken its place. *)
Theorem idb_update_durable {LAWS : IdbJsonLaws} {T} (pid : N) (p : Path) (idb : IndexedDb)
    (action : DbState -> result DbError (DbState * T)) (w : World) :
  db_path idb = Some p -> saver_names pid "idb-bak" p -> idb_holds p (disk w) (db_state idb) ->
  let '(w', out) := update pid idb action w in
  (forall idb' e, out = Done (idb', Err e) -> idb' = idb) /\
  ((reverts (Snapshots.backup "idb-bak" p) p w w' /\ (forall idb' r, out = Done (idb', r) -> is_ok r = false)) \/
   exists st,
     match out with
     | Done (idb', _) => st = db_state idb'
     | Crashed => st = db_state idb \/ exists result, action (db_state idb) = Ok (st, result)
     end /\
     forall d, d = disk w' \/ after_crash (disk w') d ->
       idb_load p (mkWorld d []) = (mkWorld d [], Done (Ok st))).
Proof.
  intros Hp Hn Hd.
  destruct (update_cases pid idb action w) as [[e ->]|(candidate & result & Haction & Hv & ->)].
  { split; [by intros idb' e' [= <- _]|]. right. exists (db_state idb). split; [done|]. intros d Hd'.
    apply Snapshots.load_runs. by eapply Snapshots.holds_stays. }
  rewrite Hp. unfold idb_write.
  pose proof (Snapshots.snapshot_saves Persistence Quota MAX_FILE_BYTES idb_decode []
    "invalid database path" "idb-bak" pid p (disk_to_vec (IDB_FORMAT_VERSION, candidate))
    (db_state idb) candidate w Hn Hd) as Hsave.
  unfold Snapshots.left_by_save in Hsave.
  destruct (Snapshots.write _ _ _ _ _ _ _ _ w) as [w' out].
  destruct Hsave as [[Hr Hno]|(st & Hst & Hload)]; [by intros bytes Hb _; apply idb_decode_saved| |].
  - destruct out as [[u|e]|]; [by destruct (Hno u)| |].
    + split; [by intros idb' e' [= <- _]|]. left. split; [done|]. by intros idb' r [= _ <-].
    + split; [done|]. by left.
  - assert (Hl : forall d, d = disk w' \/ after_crash (disk w') d ->
      idb_load p (mkWorld d []) = (mkWorld d [], Done (Ok st)))
      by (intros d Hd'; by apply Snapshots.load_runs, Hload).
    destruct out as [[u|e]|]; (split; [by intros idb' e' [= <- _]|]); right; exists st;
      (split; [|exact Hl]); [done..|].
    destruct Hst as [->|[-> _]]; eauto.
Qed.
End indexed_db.

(** ** Concrete instances *)

(** A JSON library that serialises the two states the witnesses save. *)
#[global] Instance demo_idb_json : IdbJson := {|
  results_to_vec _ := Ok [];
  group_to_vec _ := Ok [];
  disk_to_vec d :=
    match d with
    | (1%N, []) => Ok [x00]
    | (1%N, [(o, [(n, mkDatabase 1 1 [])])]) =>
        if String.eqb o "https://a.test" && String.eqb n "d" then Ok [x01] else Err "unsupported"
    | _ => Err "unsupported"
    end;
  disk_from_slice bytes :=
    match bytes with
    | [x00] => Ok (1%N, [])
    | [x01] => Ok (1%N, [("https://a.test", [("d", mkDatabase 1 1 [])])])
    | _ => Err "unsupported"
    end
|}.

#[global] Instance demo_idb_json_laws : IdbJsonLaws.
Proof.
  intros [v st] bytes _. simpl. destruct v as [|[|v|]]; try done.
  destruct st as [|[o g] st]; [by intros [= <-]|]. destruct g as [|[n [ver gen ss]] g]; [done|].
  destruct ver as [|[|ver|]]; try done. destruct gen as [|[|gen|]]; try done.
  destruct ss; [|done]. destruct g; [|done]. destruct st; [|done].
  destruct (String.eqb_spec o "https://a.test") as [->|]; [|done].
  destruct (String.eqb_spec n "d") as [->|]; [|done]. by intros [= <-].
Qed.

Definition demo_db : DbState := [("https://a.test", [("d", mkDatabase 1 1 [])])].
Definition demo_idb : IndexedDb := mkIndexedDb [] false (Some state_path).

Definition demo_upgrade : DbState -> result DbError (DbState * list DbResult) :=
  @upgrade_action demo_numbers demo_text demo_idb_json "https://a.test" "d" 0 1 [] [] [] [].

Lemma database_apply_sound_witness :
  let db := mkDatabase 1 1 [("s", demo_store)] in
  (@Database_apply demo_numbers demo_text ReadOnly db [Clear "s"]).1 = db.
Proof.
  intros db.
  apply (@database_apply_sound demo_numbers demo_text ReadOnly db
    (@Database_apply demo_numbers demo_text ReadOnly db [Clear "s"]).1 [Clear "s"]
    (@Database_apply demo_numbers demo_text ReadOnly db [Clear "s"]).2); reflexivity.
Defined.

Lemma demo_db_valid : @state_valid demo_urls demo_numbers demo_text demo_db.
Proof.
  split; [repeat constructor|]. constructor; [|constructor].
  split; [vm_compute; reflexivity|]. split; [repeat constructor|]. constructor; [|constructor].
  split_and!; [vm_compute; reflexivity|done|]. split; constructor.
Defined.

(** Two writes from the empty profile. *)
Lemma reachable_states_validate_witness :
  @State_validate demo_urls demo_numbers demo_text demo_db = Ok tt.
Proof.
  apply (@reachable_states_validate demo_urls demo_numbers demo_text demo_idb_json [] demo_db).
  - apply demo_reparses_origins.
  - split; constructor.
  - reflexivity.
  - eapply rtc_l; [|apply rtc_refl]. exists Wrote.
    apply (@write_upgrade demo_urls demo_numbers demo_text demo_idb_json "https://a.test/"
      "https://a.test" "d" 0 1 [] [] [] [] [] demo_db []); [vm_compute; reflexivity|vm_compute; reflexivity|done|].
    vm_compute. reflexivity.
Defined.

(** The machine stops in the last rename of the save, after it took effect. *)
Lemma idb_update_durable_witness :
  let w := mkWorld ∅ (replicate 5 Proceed ++ [CrashAfter]) in
  let '(w', out) := @update demo_urls demo_numbers demo_text demo_idb_json _ 7 demo_idb demo_upgrade w in
  (forall idb' e, out = Done (idb', Err e) -> idb' = demo_idb) /\
  ((reverts (Snapshots.backup "idb-bak" state_path) state_path w w' /\
    (forall idb' r, out = Done (idb', r) -> is_ok r = false)) \/
   exists st,
     match out with
     | Done (idb', _) => st = db_state idb'
     | Crashed => st = db_state demo_idb \/ exists result, demo_upgrade (db_state demo_idb) = Ok (st, result)
     end /\
     forall d, d = disk w' \/ after_crash (disk w') d ->
       @idb_load demo_urls demo_numbers demo_text demo_idb_json state_path (mkWorld d [])
       = (mkWorld d [], Done (Ok st))).
Proof.
  apply (@idb_update_durable demo_urls demo_numbers demo_text demo_idb_json demo_idb_json_laws _ 7 state_path
    demo_idb demo_upgrade).
  - reflexivity.
  - apply state_path_names.
  - reflexivity.
Defined.

(** A session on "d" during which another document creates "e". *)
Definition demo_two : DbState :=
  [("https://a.test", [("d", mkDatabase 1 1 []); ("e", mkDatabase 1 1 [])])].
Definition demo_session : DbSession :=
  mkDbSession "https://a.test" "d" 1 1 ReadWrite (mkDatabase 1 1 []).

Lemma session_commit_serializable_witness :
  find_database demo_two "https://a.test" "d" = Some (mkDatabase 1 1 []) /\
  find_database [("https://a.test", [("d", mkDatabase 1 2 []); ("e", mkDatabase 1 1 [])])]
    "https://a.test" "d" = Some (mkDatabase 1 2 []).
Proof.
  destruct (@session_commit_serializable demo_urls demo_numbers demo_text demo_idb_json
    (mkIndexedDb demo_db false None) "https://a.test/" "d" 1 ReadWrite demo_session demo_session 1
    demo_two [("https://a.test", [("d", mkDatabase 1 2 []); ("e", mkDatabase 1 1 [])])] tt)
    as (H1 & H2 & _).
  - apply demo_reparses_origins.
  - apply demo_db_valid.
  - vm_compute. reflexivity.
  - apply session_done.
  - reflexivity.
  - apply (keeping_more _ _ 0 Wrote demo_db demo_two demo_two); [|done|apply keeping_none].
    apply (@write_upgrade demo_urls demo_numbers demo_text demo_idb_json "https://a.test/"
      "https://a.test" "e" 0 1 [] [] [] [] demo_db demo_two []);
      [vm_compute; reflexivity|vm_compute; reflexivity|done|]. vm_compute. reflexivity.
  - vm_compute. reflexivity.
  - split; [exact H1|exact H2].
Defined.

(** Deleting a database and creating it again restarts its counters, so a
    session begun on the old one may commit onto the new one and bring the
    deleted records back. *)
Definition old_db : Database := mkDatabase 1 1 [("s", demo_store)].

Lemma recreated_database_accepts_stale_session :
  let session := mkDbSession "https://a.test" "d" 1 1 ReadWrite old_db in
  (st ← @delete_action "https://a.test" "d" [("https://a.test", [("d", old_db)])];
   st ← demo_upgrade st.1;
   st ← commit_action session st.1;
   Ok (stores <$> find_database st.1 "https://a.test" "d"))
  = Ok (Some (stores old_db)).
Proof. vm_compute. reflexivity. Qed.
