(* ===== verification/CacheStore.v ===== *)
(** * CacheStore: the Cache API store (src/cache_storage/)

    model.rs, model/matching.rs, model/usage.rs and persistence.rs: named caches
    of request/response pairs per origin, the nine commands, the matching
    rules, and the file. A [serde_json::Value] the source builds with [json!] is
    kept as the value that was serialised ([Reply]). The store is loaded by the
    first command that needs it; loading without a path panics, which poisons
    the lock. *)

From Stdlib Require Import Strings.Byte.
From S2P Require Import Prelude Text OrderedMap Origins Net Fs Snapshots.

Definition MAX_ORIGIN_BYTES : N := 16 * 1024 * 1024.
Definition MAX_TOTAL_BYTES : N := 64 * 1024 * 1024.
Definition MAX_BODY_BYTES : N := 2 * 1024 * 1024.
Definition MAX_NAME_BYTES : N := 1024.
Definition CACHE_FORMAT_VERSION : N := 1.

Inductive CacheError :=
  | InvalidRequest
  | InvalidResponse
  | VaryStar
  | Quota
  | Duplicate
  | Persistence (error : string).

#[global] Instance CacheError_eq_dec : EqDecision CacheError.
Proof. solve_decision. Defined.

Definition CacheError_fmt (e : CacheError) : string :=
  match e with
  | InvalidRequest => "invalid Cache API request"
  | InvalidResponse => "invalid Cache API response"
  | VaryStar => "a Cache API response has Vary: *"
  | Quota => "the Cache API quota was exceeded"
  | Duplicate => "duplicate requests in one Cache.addAll operation"
  | Persistence error => "Cache API storage is unavailable: " +:+ error
  end.

Definition CacheError_name (e : CacheError) : string :=
  match e with
  | InvalidRequest | InvalidResponse => "TypeError"
  | VaryStar => "TypeError"
  | Quota => "QuotaExceededError"
  | Duplicate => "InvalidStateError"
  | Persistence _ => "UnknownError"
  end.

Abbreviation Headers := (list (string * string)) (only parsing).

Record CacheRequest := mkRequest {
  request_url : string;
  method : string;
  request_headers : Headers
}.

Record CacheResponse := mkResponse {
  status : N;
  status_text : string;
  response_type : string;
  response_url : string;
  redirected : bool;
  response_headers : Headers;
  body_base64 : option string
}.

Record CacheEntry := mkEntry { request : CacheRequest; response : CacheResponse }.

Record CacheQueryOptions := mkOptions {
  ignore_search : bool;
  ignore_method : bool;
  ignore_vary : bool
}.
Definition default_options : CacheQueryOptions := mkOptions false false false.

Inductive CacheCommand :=
  | Open (name : string)
  | Has (name : string)
  | Names
  | DeleteCache (name : string)
  | Match (name : option string) (request : CacheRequest) (options : CacheQueryOptions)
  | MatchAll (name : string) (request : option CacheRequest) (options : CacheQueryOptions)
  | Keys (name : string) (request : option CacheRequest) (options : CacheQueryOptions)
  | Put (name : string) (entries : list CacheEntry)
  | DeleteEntry (name : string) (request : CacheRequest) (options : CacheQueryOptions).

Record NamedCache := mkCache { cache_name : string; entries : list CacheEntry }.

(** [State::origins]. *)
Abbreviation CacheState := (list (string * list NamedCache)) (only parsing).

Record CacheStorage := mkCacheStorage {
  cs_path : option Path;
  cs_state : option CacheState;
  cs_poisoned : bool
}.
Definition set_cs_state (cs : CacheStorage) (st : CacheState) : CacheStorage :=
  mkCacheStorage (cs_path cs) (Some st) (cs_poisoned cs).

(** What [json!] is given. *)
Inductive Reply :=
  | RNull
  | RBool (b : bool)
  | RNames (names : list string)
  | RResponse (found : option CacheResponse)
  | RResponses (found : list CacheResponse)
  | RRequests (found : list CacheRequest).

(** [serde_json::to_vec] and [from_slice] on what this component serialises. *)
Class CacheJson := {
  caches_to_vec : list NamedCache -> result string (list byte);
  cache_disk_to_vec : N * CacheState -> result string (list byte);
  cache_disk_from_slice : list byte -> result string (N * CacheState)
}.

Class CacheJsonLaws `{CacheJson} : Prop :=
  cache_json_round_trip (d : N * CacheState) (bytes : list byte) :
    cache_disk_to_vec d = Ok bytes -> cache_disk_from_slice bytes = Ok d.

(** [base64::engine::general_purpose::STANDARD.decode]; [None] is an error. *)
Class Base64Engine := engine_decode : string -> option (list byte).

Section cache_storage.
Context {URL : UrlLib} {JSON : CacheJson} {ENGINE : Base64Engine}.

(** ** Matching (model/matching.rs) *)
Definition vary_fields (headers : Headers) : list string :=
  filter (fun field => negb (String.eqb field EmptyString))
    ((fun field => to_ascii_lowercase (trim field)) <$>
       (filter (fun h => eq_ignore_ascii_case h.1 "vary") headers ≫= fun h => split_on "," h.2)).

Definition combined_header (headers : Headers) (name : string) : string :=
  join ", " (snd <$> filter (fun h => eq_ignore_ascii_case h.1 name) headers).

(** Two [Url]s are equal when their serialisations are. *)
Definition url_eqb (u v : Url) : bool := String.eqb (url_to_string u) (url_to_string v).

Definition matches_entry (query : CacheRequest) (entry : CacheEntry) (options : CacheQueryOptions) : bool :=
  if negb (ignore_method options) && negb (String.eqb (method query) "GET") then false
  else
    match Url_parse (request_url query), Url_parse (request_url (request entry)) with
    | Ok query_url, Ok cached_url =>
        let query_url := url_set_fragment_none query_url in
        let cached_url := url_set_fragment_none cached_url in
        let query_url := if ignore_search options then url_set_query_none query_url else query_url in
        let cached_url := if ignore_search options then url_set_query_none cached_url else cached_url in
        if negb (url_eqb query_url cached_url) then false
        else if ignore_vary options then true
        else forallb (fun field =>
               negb (String.eqb field "*")
               && String.eqb (combined_header (request_headers (request entry)) field)
                    (combined_header (request_headers query) field))
               (vary_fields (response_headers (response entry)))
    | _, _ => false
    end.

(** ** Validation (model.rs) *)
Definition validate_name (name : string) : result CacheError () :=
  if (MAX_NAME_BYTES <? byte_length name)%N then Err Quota else Ok tt.

Definition validate_body (body : option string) : result CacheError () :=
  match body with
  | None => Ok tt
  | Some body =>
      if (MAX_BODY_BYTES * 4 / 3 + 4 <? byte_length body)%N then Err Quota
      else
        bytes ← ok_or (engine_decode body) InvalidResponse;
        if (MAX_BODY_BYTES <? N.of_nat (length bytes))%N then Err Quota else Ok tt
  end.

Definition validate_entry (entry : CacheEntry) : result CacheError () :=
  url ← map_err (fun _ => InvalidRequest) (Url_parse (request_url (request entry)));
  let r := response entry in
  _ ← ensure ((String.eqb (url_scheme url) "http" || String.eqb (url_scheme url) "https")
              && String.eqb (method (request entry)) "GET") InvalidRequest;
  _ ← ensure (negb (String.eqb (response_type r) "error")
              && (String.eqb (response_type r) "default" || String.eqb (response_type r) "basic"
                  || String.eqb (response_type r) "cors")
              && ((200 <=? status r) && (status r <=? 599))%N
              && negb (status r =? 206)%N) InvalidResponse;
  _ ← ensure (negb (existsb (String.eqb "*") (vary_fields (response_headers r)))) VaryStar;
  validate_body (body_base64 r).

(** The origin a caller names: an http or https origin, in its serialised form,
    that is potentially trustworthy. *)
Definition validate_origin (origin : string) : result CacheError () :=
  parsed ← map_err (fun _ => InvalidRequest) (Url_parse origin);
  _ ← ensure ((String.eqb (url_scheme parsed) "http" || String.eqb (url_scheme parsed) "https")
              && String.eqb (url_ascii_origin parsed) origin) InvalidRequest;
  '(o, _) ← map_err (fun _ => InvalidRequest) (Origin_parse 1 origin);
  ensure (is_potentially_trustworthy o) InvalidRequest.

(** ** The commands, as functions of the caches of one origin *)
Definition is_none_or {A} (p : A -> bool) (o : option A) : bool := from_option p true o.

Fixpoint find_first {A} (p : A -> bool) (l : list A) : option A :=
  match l with
  | [] => None
  | x :: l => if p x then Some x else find_first p l
  end.

Definition named (name : string) (cache : NamedCache) : bool := String.eqb (cache_name cache) name.

Definition match_command (name : option string) (request : CacheRequest) (options : CacheQueryOptions)
    (caches : list NamedCache) : option CacheResponse :=
  response <$> find_first (fun entry => matches_entry request entry options)
    (filter (fun cache => is_none_or (fun name => named name cache) name) caches ≫= entries).

(** The entries [MatchAll] and [Keys] answer from. *)
Definition select_entries (name : string) (request : option CacheRequest) (options : CacheQueryOptions)
    (caches : list NamedCache) : list CacheEntry :=
  filter (fun entry => is_none_or (fun request => matches_entry request entry options) request)
    (from_option entries [] (find_first (named name) caches)).

Definition open_command (name : string) (caches : list NamedCache)
  : result CacheError (list NamedCache * (Reply * bool)) :=
  _ ← validate_name name;
  if existsb (named name) caches then Ok (caches, (RNull, false))
  else Ok (caches ++ [mkCache name []], (RNull, true)).

Definition delete_cache_command (name : string) (caches : list NamedCache)
  : result CacheError (list NamedCache * (Reply * bool)) :=
  let kept := filter (fun cache => negb (named name cache)) caches in
  let changed := negb (length caches =? length kept)%nat in
  Ok (kept, (RBool changed, changed)).

(** [find] through [iter_mut], then the change of the cache it found. *)
Fixpoint update_cache (name : string) (f : list CacheEntry -> list CacheEntry) (caches : list NamedCache)
  : option (list NamedCache) :=
  match caches with
  | [] => None
  | cache :: caches =>
      if named name cache then Some (mkCache (cache_name cache) (f (entries cache)) :: caches)
      else cons cache <$> update_cache name f caches
  end.

Definition put_entry (stored : list CacheEntry) (entry : CacheEntry) : list CacheEntry :=
  filter (fun e => negb (matches_entry (request entry) e default_options)) stored ++ [entry].

(** Whether an entry of the batch is matched by a later one, or was already
    [seen]. *)
Fixpoint has_duplicate (seen batch : list CacheEntry) : bool :=
  match batch with
  | [] => false
  | entry :: batch =>
      existsb (fun previous => matches_entry (request entry) previous default_options) seen
      || has_duplicate (seen ++ [entry]) batch
  end.

Definition put_command (name : string) (batch : list CacheEntry) (caches : list NamedCache)
  : result CacheError (list NamedCache * (Reply * bool)) :=
  _ ← validate_name name;
  if bool_decide (length batch = 0) then Ok (caches, (RNull, false))
  else
    _ ← try_for_each validate_entry batch;
    _ ← ensure (negb (has_duplicate [] batch)) Duplicate;
    caches ← ok_or (update_cache name (fun stored => foldl put_entry stored batch) caches) InvalidRequest;
    Ok (caches, (RNull, true)).

Definition delete_entry_command (name : string) (request : CacheRequest) (options : CacheQueryOptions)
    (caches : list NamedCache) : result CacheError (list NamedCache * (Reply * bool)) :=
  match find_first (named name) caches with
  | None => Ok (caches, (RBool false, false))
  | Some cache =>
      let keep := filter (fun entry => negb (matches_entry request entry options)) in
      let changed := negb (length (entries cache) =? length (keep (entries cache)))%nat in
      Ok (default caches (update_cache name keep caches), (RBool changed, changed))
  end.

(** The closure each command passes to [read] or to [mutate]. *)
Inductive action :=
  | Reads (f : list NamedCache -> Reply)
  | Writes (f : list NamedCache -> result CacheError (list NamedCache * (Reply * bool))).

Definition command_action (command : CacheCommand) : action :=
  match command with
  | Open name => Writes (open_command name)
  | Has name => Reads (fun caches => RBool (existsb (named name) caches))
  | Names => Reads (fun caches => RNames (cache_name <$> caches))
  | DeleteCache name => Writes (delete_cache_command name)
  | Match name req options => Reads (fun caches => RResponse (match_command name req options caches))
  | MatchAll name req options =>
      Reads (fun caches => RResponses (response <$> select_entries name req options caches))
  | Keys name req options =>
      Reads (fun caches => RRequests (request <$> select_entries name req options caches))
  | Put name batch => Writes (put_command name batch)
  | DeleteEntry name req options => Writes (delete_entry_command name req options)
  end.

(** ** Persistence (persistence.rs) *)
Definition cache_validate (st : CacheState) (per_origin total : N) : result CacheError () :=
  _ ← try_for_each (fun oc =>
        bytes ← map_err Persistence (caches_to_vec oc.2);
        if (per_origin <? N.of_nat (length bytes))%N then Err Quota else Ok tt) st;
  bytes ← map_err Persistence (cache_disk_to_vec (CACHE_FORMAT_VERSION, st));
  if (total <? N.of_nat (length bytes))%N then Err Quota else Ok tt.

Definition cache_decode (bytes : list byte) : result CacheError CacheState :=
  disk ← map_err Persistence (cache_disk_from_slice bytes);
  _ ← ensure (disk.1 =? CACHE_FORMAT_VERSION)%N (Persistence "unsupported CacheStorage format");
  _ ← cache_validate disk.2 MAX_ORIGIN_BYTES MAX_TOTAL_BYTES;
  Ok disk.2.

Definition cache_load : Path -> io (result CacheError CacheState) :=
  Snapshots.load Persistence Quota MAX_TOTAL_BYTES cache_decode [] "cache-bak".

Definition cache_write (pid : N) (p : Path) (st : CacheState) : io (result CacheError ()) :=
  Snapshots.write Persistence Quota MAX_TOTAL_BYTES "invalid CacheStorage path" "cache-bak" pid p
    (cache_disk_to_vec (CACHE_FORMAT_VERSION, st)).

(** ** The store (model.rs) *)

(** What a call comes to: its result, or a panic. *)
Inductive answer (A : Type) := Returned (r : result CacheError A) | Panicked.
#[global] Arguments Returned {A} r.
#[global] Arguments Panicked {A}.

Definition cache_in_memory : CacheStorage := mkCacheStorage None (Some []) false.
Definition cache_open (p : Path) : result CacheError CacheStorage :=
  Ok (mkCacheStorage (Some p) None false).

(** [lock] and [ensure_loaded]. *)
Definition ensure_loaded (cs : CacheStorage) : io (CacheStorage * answer CacheState) :=
  if cs_poisoned cs then mret (cs, Returned (Err (Persistence "storage lock poisoned")))
  else
    match cs_state cs, cs_path cs with
    | Some st, _ => mret (cs, Returned (Ok st))
    | None, Some path =>
        loaded ← cache_load path;
        match loaded with
        | Ok st => mret (set_cs_state cs st, Returned (Ok st))
        | Err e => mret (cs, Returned (Err e))
        end
    | None, None => mret (mkCacheStorage None None true, Panicked)
    end.

Definition origin_caches (st : CacheState) (origin : string) : list NamedCache :=
  default [] (bt_get origin st).

Definition read (cs : CacheStorage) (origin : string) (f : list NamedCache -> Reply)
  : io (CacheStorage * answer Reply) :=
  '(cs, loaded) ← ensure_loaded cs;
  mret (cs, match loaded with
            | Panicked => Panicked
            | Returned r => Returned (st ← r; Ok (f (origin_caches st origin)))
            end).

Definition mutate (pid : N) (cs : CacheStorage) (origin : string)
    (f : list NamedCache -> result CacheError (list NamedCache * (Reply * bool)))
  : io (CacheStorage * answer Reply) :=
  '(cs, loaded) ← ensure_loaded cs;
  match loaded with
  | Panicked => mret (cs, Panicked)
  | Returned (Err e) => mret (cs, Returned (Err e))
  | Returned (Ok st) =>
      match f (origin_caches st origin) with
      | Err e => mret (cs, Returned (Err e))
      | Ok (_, (result, false)) => mret (cs, Returned (Ok result))
      | Ok (caches, (result, true)) =>
          let candidate := bt_insert origin caches st in
          match cache_validate candidate MAX_ORIGIN_BYTES MAX_TOTAL_BYTES with
          | Err e => mret (cs, Returned (Err e))
          | Ok _ =>
              written ← match cs_path cs with
                        | Some path => cache_write pid path candidate
                        | None => mret (Ok tt)
                        end;
              match written with
              | Err e => mret (cs, Returned (Err e))
              | Ok _ => mret (set_cs_state cs candidate, Returned (Ok result))
              end
          end
      end
  end.

Definition execute (pid : N) (cs : CacheStorage) (origin : string) (command : CacheCommand)
  : io (CacheStorage * answer Reply) :=
  match validate_origin origin with
  | Err e => mret (cs, Returned (Err e))
  | Ok _ =>
      match command_action command with
      | Reads f => read cs origin f
      | Writes f => mutate pid cs origin f
      end
  end.

(** model/usage.rs *)
Definition cache_usage (cs : CacheStorage) (origin : string) : io (CacheStorage * answer N) :=
  match validate_origin origin with
  | Err e => mret (cs, Returned (Err e))
  | Ok _ =>
      '(cs, loaded) ← ensure_loaded cs;
      mret (cs, match loaded with
                | Panicked => Panicked
                | Returned r => Returned (
                    st ← r;
                    match bt_get origin st with
                    | Some ((_ :: _) as caches) =>
                        bytes ← map_err Persistence (caches_to_vec caches);
                        Ok (N.of_nat (length bytes))
                    | _ => Ok 0%N
                    end)
                end)
  end.
End cache_storage.
