(* ===== verification/CacheTheory.v ===== *)
(** * CacheTheory: what the Cache API store promises

    A cache never holds two entries one of which hides the other: an entry is
    found by its own request. What a [Put] stores is what [Match] then answers,
    other caches and origins keep theirs, and memory and file never disagree. *)

From Stdlib Require Import Strings.Byte Sorting.Sorted.
From S2P Require Import Prelude Text OrderedMap Origins Net Fs Snapshots CacheStore.

(** ** Lists and caches *)
Lemma find_first_elem {A} (p : A -> bool) (l : list A) (x : A) :
  find_first p l = Some x -> x ∈ l /\ p x = true.
Proof.
  induction l as [|y l IH]; simpl; [done|]. destruct (p y) eqn:Hy.
  - intros [= <-]. by split; [left|].
  - intros [Hin Hx]%IH. by split; [right|].
Qed.

Lemma filter_bool_all {A} (p : A -> bool) (l : list A) :
  Forall (fun x => p x = true) l -> filter (fun x => p x) l = l.
Proof.
  induction 1 as [|x l Hx _ IH]; [done|]. rewrite filter_cons, IH, decide_True; [done|].
  by rewrite Hx.
Qed.

Lemma existsb_none {A} (p : A -> bool) (l : list A) :
  existsb p l = false <-> Forall (fun x => p x = false) l.
Proof.
  induction l as [|x l IH]; simpl; [by split; [constructor|]|].
  by rewrite orb_false_iff, IH, Forall_cons.
Qed.

Lemma find_first_app {A} (p : A -> bool) (l k : list A) :
  find_first p (l ++ k) = match find_first p l with Some x => Some x | None => find_first p k end.
Proof. induction l as [|x l IH]; simpl; [done|]. by destruct (p x). Qed.

Lemma find_first_none {A} (p : A -> bool) (l : list A) :
  find_first p l = None <-> Forall (fun x => p x = false) l.
Proof.
  induction l as [|x l IH]; simpl; [by split; [constructor|]|].
  rewrite Forall_cons, <- IH. destruct (p x); naive_solver.
Qed.

Lemma named_spec (name : string) (cache : NamedCache) : named name cache = true <-> cache_name cache = name.
Proof. apply String.eqb_eq. Qed.

Lemma update_cache_names (name : string) f (caches caches' : list NamedCache) :
  update_cache name f caches = Some caches' -> cache_name <$> caches' = cache_name <$> caches.
Proof.
  revert caches'. induction caches as [|c caches IH]; intros caches'; simpl; [done|].
  destruct (named name c); [by intros [= <-]|].
  destruct (update_cache name f caches) as [k|]; [|done]. intros [= <-]. rewrite !fmap_cons. f_equal. by apply IH.
Qed.

Lemma find_update_cache (name other : string) f (caches caches' : list NamedCache) :
  update_cache name f caches = Some caches' ->
  find_first (named other) caches' =
  (if String.eqb other name
   then (fun c => mkCache (cache_name c) (f (entries c))) <$> find_first (named name) caches
   else find_first (named other) caches) /\ is_Some (find_first (named name) caches).
Proof.
  revert caches'. induction caches as [|c caches IH]; intros caches'; simpl; [done|].
  destruct (named name c) eqn:Hc.
  - intros [= <-]. split; [|done]. simpl. apply named_spec in Hc. unfold named at 1. simpl. rewrite Hc.
    rewrite (String.eqb_sym name other). destruct (String.eqb_spec other name) as [->|Hne]; [done|].
    assert (named other c = false) as ->; [|done]. apply String.eqb_neq. congruence.
  - destruct (update_cache name f caches) as [k|]; [|done]. intros [= <-].
    destruct (IH k eq_refl) as [Hf Hs]. split; [|done]. simpl. rewrite Hf.
    destruct (String.eqb_spec other name) as [->|Hne]; [by rewrite Hc|done].
Qed.

Section cache_theory.
Context {URL : UrlLib} {JSON : CacheJson} {ENGINE : Base64Engine}.

(** [e2] does not find [e1]. *)
Definition passes (e1 e2 : CacheEntry) : Prop := matches_entry (request e2) e1 default_options = false.
Definition unshadowed : list CacheEntry -> Prop := StronglySorted passes.

Definition entry_ok (e : CacheEntry) : Prop := validate_entry e = Ok tt.
Definition cache_ok (c : NamedCache) : Prop := Forall entry_ok (entries c) /\ unshadowed (entries c).
Definition caches_ok (caches : list NamedCache) : Prop :=
  NoDup (cache_name <$> caches) /\ Forall cache_ok caches.
Definition cache_state_ok (st : list (string * list NamedCache)) : Prop :=
  sorted st /\ Forall (fun oc => caches_ok oc.2) st.

(** A storable entry answers its own request. *)
Lemma entry_finds_itself (e : CacheEntry) :
  entry_ok e -> matches_entry (request e) e default_options = true.
Proof.
  unfold entry_ok, validate_entry, matches_entry. intros He. inv_res.
  destruct (Url_parse (request_url (request e))) as [u|]; [|done]. bool_props.
  match goal with H : String.eqb (method _) _ = true |- _ => rewrite H end. simpl.
  unfold url_eqb. rewrite String.eqb_refl. simpl. apply forallb_forall. intros field Hf.
  rewrite String.eqb_refl, andb_true_r. apply negb_true_iff. apply not_true_iff_false. intros Hs.
  match goal with H : existsb _ _ = false |- _ => apply not_true_iff_false in H; apply H end.
  apply existsb_exists. exists field. split; [done|]. by rewrite String.eqb_sym.
Qed.

Lemma find_first_own (l : list CacheEntry) (e : CacheEntry) :
  Forall entry_ok l -> unshadowed l -> e ∈ l ->
  find_first (fun x => matches_entry (request e) x default_options) l = Some e.
Proof.
  intros Hok Hu. induction Hu as [|x l Hu IH Hx]; intros Hin; [by apply not_elem_of_nil in Hin|].
  apply Forall_cons in Hok as [Hxok Hok]. simpl.
  apply elem_of_cons in Hin as [->|Hin]; [by rewrite entry_finds_itself|].
  rewrite Forall_forall in Hx. rewrite (Hx e Hin). by apply IH.
Qed.

Lemma unshadowed_filter (P : CacheEntry -> Prop) `{forall x, Decision (P x)} (l : list CacheEntry) :
  unshadowed l -> unshadowed (filter P l).
Proof.
  induction 1 as [|x l _ IH Hx]; [constructor|]. rewrite filter_cons. case_decide; [|done].
  constructor; [done|]. rewrite Forall_forall in *. intros y [_ Hy]%list_elem_of_filter. by apply Hx.
Qed.

Lemma unshadowed_snoc (l : list CacheEntry) (e : CacheEntry) :
  unshadowed l -> Forall (fun x => passes x e) l -> unshadowed (l ++ [e]).
Proof.
  induction 1 as [|x l _ IH Hx]; intros He; [repeat constructor|].
  apply Forall_cons in He as [He Hl]. simpl. constructor; [by apply IH|].
  apply Forall_app. by repeat constructor.
Qed.

Lemma put_entry_ok (l : list CacheEntry) (e : CacheEntry) :
  Forall entry_ok l /\ unshadowed l -> entry_ok e ->
  Forall entry_ok (put_entry l e) /\ unshadowed (put_entry l e).
Proof.
  intros [Hok Hu] He. unfold put_entry. split.
  - apply Forall_app. split; [|by repeat constructor]. rewrite Forall_forall in *.
    intros x [_ Hx]%list_elem_of_filter. by apply Hok.
  - apply unshadowed_snoc; [by apply unshadowed_filter|]. apply Forall_forall.
    intros x [Hx _]%list_elem_of_filter. unfold passes. by destruct (matches_entry _ _ _).
Qed.

(** *** The commands keep the invariant *)
Lemma foldl_put_ok (batch l : list CacheEntry) :
  Forall entry_ok l /\ unshadowed l -> Forall entry_ok batch ->
  Forall entry_ok (foldl put_entry l batch) /\ unshadowed (foldl put_entry l batch).
Proof.
  revert l. induction batch as [|e batch IH]; intros l Hl Hb; [done|].
  apply Forall_cons in Hb as [He Hb]. apply IH; [by apply put_entry_ok|done].
Qed.

Lemma update_cache_ok (name : string) f (caches caches' : list NamedCache) :
  update_cache name f caches = Some caches' -> caches_ok caches ->
  (forall l, Forall entry_ok l /\ unshadowed l -> Forall entry_ok (f l) /\ unshadowed (f l)) ->
  caches_ok caches'.
Proof.
  intros Hu [Hnd Hok] Hf. split; [by rewrite (update_cache_names _ _ _ _ Hu)|]. clear Hnd.
  revert caches' Hu. induction Hok as [|c caches Hc Hok IH]; intros caches'; simpl; [done|].
  destruct (named name c); [intros [= <-]; constructor; [by apply Hf|done]|].
  destruct (update_cache name f caches) as [k|]; [|done]. intros [= <-]. constructor; [done|by apply IH].
Qed.

Lemma caches_ok_filter (P : NamedCache -> Prop) `{forall x, Decision (P x)} (caches : list NamedCache) :
  caches_ok caches -> caches_ok (filter P caches).
Proof.
  intros [Hnd Hok]. split.
  - clear Hok. induction caches as [|c caches IH]; [done|]. rewrite fmap_cons in Hnd.
    apply NoDup_cons in Hnd as [Hc Hnd]. rewrite filter_cons. case_decide; [|by apply IH].
    rewrite fmap_cons. apply NoDup_cons. split; [|by apply IH].
    intros (d & Heq & [_ Hd]%list_elem_of_filter)%list_elem_of_fmap. apply Hc. rewrite Heq.
    by apply list_elem_of_fmap_2.
  - rewrite Forall_forall in *. intros c [_ Hc]%list_elem_of_filter. by apply Hok.
Qed.

Lemma existsb_named (name : string) (caches : list NamedCache) :
  existsb (named name) caches = true <-> name ∈ cache_name <$> caches.
Proof.
  rewrite existsb_exists, list_elem_of_fmap. split.
  - intros (c & Hin%list_elem_of_In & Hc%named_spec). by exists c.
  - intros (c & -> & Hin%list_elem_of_In). exists c. by rewrite named_spec.
Qed.

Lemma command_keeps_ok (command : CacheCommand) f (caches caches' : list NamedCache) r :
  command_action command = Writes f -> caches_ok caches -> f caches = Ok (caches', r) -> caches_ok caches'.
Proof.
  intros Hc Hok. destruct command; try discriminate Hc; injection Hc as <-.
  - unfold open_command. intros Hf. inv_res. destruct (existsb (named name) caches) eqn:He; inv_res; [done|].
    destruct Hok as [Hnd Hok]. split.
    + rewrite fmap_app. apply NoDup_app. split_and!; [done| |apply NoDup_singleton].
      intros y Hy ->%list_elem_of_singleton. apply existsb_named in Hy. simpl in Hy. by rewrite Hy in He.
    + apply Forall_app. by repeat constructor.
  - intros [= <- _]. by apply caches_ok_filter.
  - unfold put_command. intros Hf. inv_res. case_bool_decide; inv_res; [done|].
    eapply update_cache_ok; [done..|]. intros l Hl. apply foldl_put_ok; [done|].
    match goal with H : try_for_each _ _ = Ok _ |- _ => by apply try_for_each_Ok in H end.
  - unfold delete_entry_command. destruct (find_first (named name) caches) as [c|] eqn:Hfind; [|by intros [= <- _]].
    intros [= <- _]. destruct (update_cache name _ caches) as [k|] eqn:Hu; [|done].
    eapply update_cache_ok; [done..|]. intros l [Hl Hs]. split; [|by apply unshadowed_filter].
    rewrite Forall_forall in *. intros x [_ Hx]%list_elem_of_filter. by apply Hl.
Qed.

Lemma origin_caches_ok (st : list (string * list NamedCache)) (origin : string) :
  cache_state_ok st -> caches_ok (origin_caches st origin).
Proof.
  intros [Hs Hok]. unfold origin_caches. destruct (bt_get origin st) as [c|] eqn:Hg; simpl.
  - apply bt_get_elem in Hg; [|done]. rewrite Forall_forall in Hok. by apply (Hok (origin, c)).
  - split; [apply NoDup_nil_2|constructor].
Qed.

(** *** What a batch of puts leaves in a cache *)
Definition unmatched (batch : list CacheEntry) (e : CacheEntry) : bool :=
  forallb (fun new => negb (matches_entry (request new) e default_options)) batch.

Lemma foldl_put_entry (batch seen stored : list CacheEntry) :
  has_duplicate seen batch = false ->
  foldl put_entry (stored ++ seen) batch
  = filter (fun e => unmatched batch e) stored ++ seen ++ batch.
Proof.
  revert seen stored. induction batch as [|e batch IH]; intros seen stored Hd.
  - simpl. by rewrite app_nil_r, (filter_bool_all (fun _ => true)) by by apply Forall_true.
  - simpl in Hd. apply orb_false_iff in Hd as [He%existsb_none Hd]. simpl.
    set (keep := filter (fun x => negb (matches_entry (request e) x default_options)) stored).
    assert (put_entry (stored ++ seen) e = keep ++ (seen ++ [e])) as ->.
    { unfold put_entry. rewrite filter_app, <- app_assoc. do 2 f_equal.
      apply (filter_bool_all (fun x => negb (matches_entry (request e) x default_options))).
      eapply Forall_impl; [exact He|]. by intros x ->. }
    rewrite IH by done. unfold keep. rewrite list_filter_filter, <- !app_assoc. f_equal.
    apply list_filter_iff. intros x. unfold unmatched. simpl. rewrite andb_True. tauto.
Qed.

(** ** The store *)

(** What a command answered, from a loaded store. *)
Definition answered (cs : CacheStorage) (st : list (string * list NamedCache)) (origin : string)
    (command : CacheCommand) (reply : Reply) (cs' : CacheStorage) : Prop :=
  validate_origin origin = Ok tt /\ cs_poisoned cs = false /\
  match command_action command with
  | Reads f => cs' = cs /\ reply = f (origin_caches st origin)
  | Writes f =>
      exists caches changed, f (origin_caches st origin) = Ok (caches, (reply, changed)) /\
        if changed : bool
        then cs' = set_cs_state cs (bt_insert origin caches st) /\
             cache_validate (bt_insert origin caches st) MAX_ORIGIN_BYTES MAX_TOTAL_BYTES = Ok tt
        else cs' = cs
  end.

Lemma ensure_loaded_loaded (cs : CacheStorage) (st : list (string * list NamedCache)) (w : World) :
  cs_state cs = Some st ->
  ensure_loaded cs w = (w, Done (cs, Returned (if cs_poisoned cs
                                               then Err (Persistence "storage lock poisoned") else Ok st))).
Proof. intros Hst. unfold ensure_loaded. rewrite Hst. by destruct (cs_poisoned cs). Qed.

Lemma mutate_result (pid : N) (cs cs' : CacheStorage) st origin f (w w' : World) r :
  cs_state cs = Some st -> mutate pid cs origin f w = (w', Done (cs', r)) ->
  (exists e, r = Returned (Err e) /\ cs' = cs) \/
  (exists reply caches changed, r = Returned (Ok reply) /\ cs_poisoned cs = false /\
     f (origin_caches st origin) = Ok (caches, (reply, changed)) /\
     if changed : bool
     then cs' = set_cs_state cs (bt_insert origin caches st) /\
          cache_validate (bt_insert origin caches st) MAX_ORIGIN_BYTES MAX_TOTAL_BYTES = Ok tt
     else cs' = cs).
Proof.
  intros Hst. unfold mutate, mbind, io_bind. rewrite (ensure_loaded_loaded _ st) by done.
  destruct (cs_poisoned cs); [intros [= <- <- <-]; left; by eexists|].
  destruct (f (origin_caches st origin)) as [[caches [reply [|]]]|e]; simpl;
    [|intros [= <- <- <-]; right; by exists reply, caches, false|intros [= <- <- <-]; left; by eexists].
  destruct (cache_validate _ _ _) as [[]|e] eqn:Hv; [|intros [= <- <- <-]; left; by eexists].
  destruct (cs_path cs) as [p|];
    [destruct (cache_write pid p _ w) as [w1 [[u|e]|]]; [|intros [= <- <- <-]; left; by eexists|done]|].
  all: intros [= <- <- <-]; right; exists reply, caches, true; by split_and!.

Qed.

Lemma execute_result (pid : N) (cs cs' : CacheStorage) st origin command (w w' : World) r :
  cs_state cs = Some st -> execute pid cs origin command w = (w', Done (cs', r)) ->
  (exists e, r = Returned (Err e) /\ cs' = cs) \/
  (exists reply, r = Returned (Ok reply) /\ answered cs st origin command reply cs').
Proof.
  intros Hst. unfold execute, answered. destruct (validate_origin origin) as [[]|e];
    [|intros [= <- <- <-]; left; by eexists].
  destruct (command_action command) as [f|f].
  - unfold read, mbind, io_bind. rewrite (ensure_loaded_loaded _ st) by done.
    destruct (cs_poisoned cs); intros [= <- <- <-]; [left; by eexists|right; by eexists].
  - intros Hm. apply (mutate_result _ _ _ st) in Hm as [?|(reply & caches & changed & -> & ? & ? & ?)]; [by left| |done].
    right. eexists. split; [done|]. split_and!; [done..|]. by exists caches, changed.
Qed.

Lemma answered_keeps_ok cs st origin command reply cs' :
  cs_state cs = Some st -> cache_state_ok st -> answered cs st origin command reply cs' ->
  exists st', cs_state cs' = Some st' /\ cache_state_ok st'.
Proof.
  intros Hst Hok (_ & _ & Ha). destruct (command_action command) as [f|f] eqn:Hc.
  - destruct Ha as [-> _]. by exists st.
  - destruct Ha as (caches & [|] & Hf & Ha); [|subst cs'; by exists st]. destruct Ha as [-> _].
    exists (bt_insert origin caches st). split; [done|]. destruct Hok as [Hs Hok]. split.
    + by apply bt_insert_sorted.
    + apply Forall_bt_insert; [|done].
      intros k _. exact (command_keeps_ok _ _ _ _ _ Hc (origin_caches_ok st origin (conj Hs Hok)) Hf).
Qed.

(** Commands of any document, with any failures and answers. *)
Definition cs_step (cs cs' : CacheStorage) : Prop :=
  exists pid origin command w w' r, execute pid cs origin command w = (w', Done (cs', r)).

Lemma cs_steps_ok (cs cs' : CacheStorage) st :
  cs_state cs = Some st -> cache_state_ok st -> rtc cs_step cs cs' ->
  exists st', cs_state cs' = Some st' /\ cache_state_ok st'.
Proof.
  intros Hst Hok Hs. revert st Hst Hok.
  induction Hs as [cs|cs cs1 cs' (pid & origin & command & w & w' & r & Hx) _ IH]; intros st Hst Hok; [by exists st|].
  apply (execute_result _ _ _ st) in Hx as [(e & _ & ->)|(reply & _ & Ha)]; [by eapply IH| |done].
  destruct (answered_keeps_ok _ _ _ _ _ _ Hst Hok Ha) as (st1 & Hst1 & Hok1). by eapply IH.
Qed.

Lemma match_own_entry (caches : list NamedCache) (c : NamedCache) (e : CacheEntry) :
  cache_ok c -> find_first (named (cache_name c)) caches = Some c -> e ∈ entries c ->
  match_command (Some (cache_name c)) (request e) default_options caches = Some (response e).
Proof.
  intros [Hok Hu] Hf Hin. unfold match_command. simpl.
  assert (exists rest, filter (fun x => named (cache_name c) x) caches = c :: rest) as [rest Hrest].
  { induction caches as [|x caches IH]; [done|]. simpl in Hf. rewrite filter_cons.
    destruct (named (cache_name c) x); simpl; [injection Hf as ->; by eexists|by apply IH]. }
  rewrite Hrest. simpl. by rewrite find_first_app, find_first_own.
Qed.

Lemma find_first_named (caches : list NamedCache) (c : NamedCache) :
  NoDup (cache_name <$> caches) -> c ∈ caches -> find_first (named (cache_name c)) caches = Some c.
Proof.
  induction caches as [|x caches IH]; intros Hnd Hin; [by apply not_elem_of_nil in Hin|].
  rewrite fmap_cons in Hnd. apply NoDup_cons in Hnd as [Hx Hnd]. simpl.
  apply elem_of_cons in Hin as [->|Hin]; [by rewrite (proj2 (named_spec _ _))|].
  destruct (named (cache_name c) x) eqn:Hn; [|by apply IH]. apply named_spec in Hn. exfalso. apply Hx.
  rewrite Hn. by apply list_elem_of_fmap_2.
Qed.

Lemma execute_reads (pid : N) (cs : CacheStorage) st origin command f (w : World) :
  cs_state cs = Some st -> cs_poisoned cs = false -> validate_origin origin = Ok tt ->
  command_action command = Reads f ->
  execute pid cs origin command w = (w, Done (cs, Returned (Ok (f (origin_caches st origin))))).
Proof.
  intros Hst Hp Ho Hc. unfold execute, read, mbind, io_bind.
  by rewrite Ho, Hc, (ensure_loaded_loaded _ st), Hp.
Qed.

(** C10. Nothing stored is ever hidden: after any commands of any documents, with
    any failures, every entry of every cache is what [Match] answers for that
    entry's own request, so a later [Put] replaces and never shadows. *)
Theorem stored_entries_are_found (cs cs' : CacheStorage) st (pid : N) (origin : string) (w : World) :
  cs_state cs = Some st -> cache_state_ok st -> rtc cs_step cs cs' ->
  cs_poisoned cs' = false -> validate_origin origin = Ok tt ->
  exists st', cs_state cs' = Some st' /\
    forall c e, c ∈ origin_caches st' origin -> e ∈ entries c ->
      execute pid cs' origin (Match (Some (cache_name c)) (request e) default_options) w
      = (w, Done (cs', Returned (Ok (RResponse (Some (response e)))))).
Proof.
  intros Hst Hok Hs Hp Ho. destruct (cs_steps_ok _ _ _ Hst Hok Hs) as (st' & Hst' & Hok').
  exists st'. split; [done|]. intros c e Hc He.
  erewrite execute_reads; [|done|done|done|reflexivity]. do 6 f_equal.
  destruct (origin_caches_ok st' origin Hok') as [Hnd Hall].
  apply match_own_entry; [|by apply find_first_named|done]. rewrite Forall_forall in Hall. by apply Hall.
Qed.

(** What a successful [Put] does: the named cache keeps, in order, the
    entries no new request matches, and then holds the batch, so each new
    response is what [Match] now answers; every other cache of the origin and
    every other origin is untouched. *)
Theorem put_replaces_matched (pid : N) (cs cs' : CacheStorage) st (origin name : string)
    (batch : list CacheEntry) (w w' : World) (reply : Reply) :
  cs_state cs = Some st -> cache_state_ok st ->
  execute pid cs origin (Put name batch) w = (w', Done (cs', Returned (Ok reply))) -> batch <> [] ->
  exists st' c, cs_state cs' = Some st' /\ find_first (named name) (origin_caches st origin) = Some c /\
    find_first (named name) (origin_caches st' origin)
      = Some (mkCache name (filter (fun e => unmatched batch e) (entries c) ++ batch)) /\
    (forall other, other <> name ->
       find_first (named other) (origin_caches st' origin) = find_first (named other) (origin_caches st origin)) /\
    (forall other, other <> origin -> origin_caches st' other = origin_caches st other) /\
    (forall e w, e ∈ batch ->
       execute pid cs' origin (Match (Some name) (request e) default_options) w
       = (w, Done (cs', Returned (Ok (RResponse (Some (response e))))))).
Proof.
  intros Hst Hok Hx Hne. apply (execute_result _ _ _ st) in Hx as [(e & [=] & _)|(? & [= <-] & Ha)]; [|done].
  destruct (answered_keeps_ok _ _ _ _ _ _ Hst Hok Ha) as (st' & Hst' & Hok').
  destruct Ha as (Ho & Hp & caches & changed & Hput & Ha). unfold put_command in Hput. inv_res.
  case_bool_decide as Hlen; [by destruct batch|]. inv_res. destruct Ha as [-> _].
  injection Hst' as <-. bool_props.
  match goal with H : update_cache _ _ _ = Some _ |- _ => rename H into Hu end.
  assert (origin_caches (bt_insert origin caches st) origin = caches) as Hnew.
  { unfold origin_caches. by rewrite bt_get_insert_eq by apply Hok. }
  destruct (find_update_cache name name _ _ _ Hu) as [Hf [c Hc]].
  rewrite String.eqb_refl, Hc in Hf. simpl in Hf.
  assert (cache_name c = name) as Hname by (apply find_first_elem in Hc as [_ Hc]; by apply named_spec).
  pose proof (foldl_put_entry batch [] (entries c)) as Hfold. rewrite app_nil_r in Hfold.
  rewrite Hfold, Hname in Hf by done. simpl in Hf.
  exists (bt_insert origin caches st), c. rewrite Hnew. split_and!; [done..| | |].
  - intros other Hother. destruct (find_update_cache name other _ _ _ Hu) as [-> _].
    by rewrite (proj2 (String.eqb_neq _ _)).
  - intros other Hother. unfold origin_caches. by rewrite bt_get_insert_ne by (done || apply Hok).
  - intros e w2 He. erewrite execute_reads; [|done|done|done|reflexivity]. do 6 f_equal. rewrite Hnew.
    apply (match_own_entry _ (mkCache name (filter (fun e => unmatched batch e) (entries c) ++ batch))); [|done|].
    + destruct (origin_caches_ok _ origin Hok') as [_ Hall]. rewrite Hnew in Hall.
      rewrite Forall_forall in Hall. apply Hall. by apply find_first_elem in Hf as [Hf _].
    + apply elem_of_app. by right.
Qed.

(** ** Memory and disk *)
Definition cache_holds : Path -> gmap Path File -> list (string * list NamedCache) -> Prop :=
  Snapshots.holds Quota MAX_TOTAL_BYTES cache_decode [] "cache-bak".

(** A run leaves memory and disk agreeing on [st']; [out] may be a crash. *)
Definition agrees (out : outcome (CacheStorage * answer Reply)) (free : outcome (CacheStorage * answer Reply))
    (st st' : list (string * list NamedCache)) : Prop :=
  match out with
  | Done (cs', _) => cs_state cs' = Some st'
  | Crashed => st' = st \/ exists cs' r, free = Done (cs', Returned (Ok r)) /\ cs_state cs' = Some st'
  end.

Definition unanswered (cs : CacheStorage) (out : outcome (CacheStorage * answer Reply)) : Prop :=
  forall cs' r, out = Done (cs', r) -> cs' = cs /\ exists e, r = Returned (Err e).

Lemma mutate_saves {LAWS : CacheJsonLaws} (pid : N) (p : Path) cs st origin f (w : World) :
  cs_path cs = Some p -> cs_state cs = Some st ->
  saver_names pid "cache-bak" p -> cache_holds p (disk w) st ->
  let '(w', out) := mutate pid cs origin f w in
  (reverts (Snapshots.backup "cache-bak" p) p w w' /\ unanswered cs out) \/
  exists st', agrees out (mutate pid cs origin f (mkWorld (disk w) [])).2 st st' /\
    forall d, d = disk w' \/ after_crash (disk w') d -> cache_holds p d st'.
Proof.
  intros Hp Hst Hn Hd. unfold agrees, unanswered.
  assert (Hsame : forall d, d = disk w \/ after_crash (disk w) d -> cache_holds p d st).
  { intros d Hd'. by eapply Snapshots.holds_stays. }
  unfold mutate, mbind, io_bind. rewrite !(ensure_loaded_loaded _ st) by done.
  destruct (cs_poisoned cs); [right; by exists st|].
  destruct (f (origin_caches st origin)) as [[caches [reply [|]]]|e]; [|right; by exists st..].
  destruct (cache_validate _ _ _) as [[]|e] eqn:Hv; [|right; by exists st]. rewrite Hp. unfold cache_write.
  pose proof (Snapshots.snapshot_saves Persistence Quota MAX_TOTAL_BYTES cache_decode []
    "invalid CacheStorage path" "cache-bak" pid p
    (cache_disk_to_vec (CACHE_FORMAT_VERSION, bt_insert origin caches st)) st (bt_insert origin caches st)
    w Hn Hd) as Hsave. unfold Snapshots.left_by_save in Hsave.
  destruct (Snapshots.write _ _ _ _ _ _ _ _ w) as [w' out].
  destruct Hsave as [[Hr Hno]|(st' & Hst' & Hload)].
  { intros bytes Hb _. unfold cache_decode. rewrite (cache_json_round_trip _ _ Hb). simpl. by rewrite Hv. }
  - destruct out as [[u|e]|]; [by destruct (Hno u)|left|by left].
    split; [done|]. intros cs' r [= <- <-]. eauto.
  - destruct out as [[u|e]|]; right; exists st'; (split; [|exact Hload]); [by subst..|]. destruct Hst' as [->|[-> Hfree]]; [by left|right].
    destruct (Snapshots.write _ _ _ _ _ _ _ _ (mkWorld (disk w) [])) as [w2 out2]. simpl in Hfree. subst out2.
    by eexists _, _.
Qed.

End cache_theory.

(** ** Concrete instances *)

(** A [url] crate that knows one host, and encoders that cover the witnesses. *)
Definition one_host_urls : UrlLib := {|
  Url := string;
  Url_parse s := if String.prefix "https://a.test" s then Ok s else Err "relative URL without a base";
  url_scheme _ := "https";
  url_username _ := EmptyString;
  url_password _ := None;
  url_host _ := Some "a.test";
  url_port_or_known_default _ := Some 443%N;
  url_path _ := "/";
  url_query _ := None;
  url_set_fragment_none u := u;
  url_set_query_none u := u;
  url_to_string u := u;
  url_ascii_origin _ := "https://a.test"
|}.

(** Two states of one cache can be written and read back. *)
Definition demo_cache_json : CacheJson := {|
  caches_to_vec _ := Ok [];
  cache_disk_to_vec d :=
    match d with
    | (1%N, []) => Ok [x00]
    | (1%N, [(o, [mkCache n []])]) =>
        if String.eqb o "https://a.test" && String.eqb n "v1" then Ok [x01] else Err "unsupported"
    | _ => Err "unsupported"
    end;
  cache_disk_from_slice bytes :=
    match bytes with
    | [x00] => Ok (1%N, [])
    | [x01] => Ok (1%N, [("https://a.test", [mkCache "v1" []])])
    | _ => Err "unsupported"
    end
|}.

Lemma demo_cache_json_laws : @CacheJsonLaws demo_cache_json.
Proof.
  intros [v st] bytes. simpl. destruct v as [|[|v|]]; try done.
  destruct st as [|[o g] st]; [by intros [= <-]|]. destruct g as [|[n [|e es]] [|g gs]]; try done.
  destruct st; [|done]. destruct (String.eqb_spec o "https://a.test") as [->|]; [|done].
  destruct (String.eqb_spec n "v1") as [->|]; [|done]. by intros [= <-].
Qed.

(** Every state has an encoding, for stores that have no file. *)
Definition sized_cache_json : CacheJson := {|
  caches_to_vec _ := Ok [x00; x00; x00];
  cache_disk_to_vec _ := Ok [];
  cache_disk_from_slice _ := Err "unsupported"
|}.
Definition demo_engine : Base64Engine := fun _ => Some [].

Definition demo_request (lang : string) : CacheRequest :=
  mkRequest "https://a.test/x" "GET" [("Accept-Language", lang)].
Definition demo_entry (lang body : string) : CacheEntry :=
  mkEntry (demo_request lang)
    (mkResponse 200 "OK" "basic" "https://a.test/x" false [("Vary", "accept-language")] (Some body)).

Definition demo_execute := @execute one_host_urls sized_cache_json demo_engine 7.
Definition demo_world : World := mkWorld ∅ [].

(** Two languages of one page, then a new version of the first. *)
Definition demo_after (cs : CacheStorage) (command : CacheCommand) : CacheStorage :=
  match demo_execute cs "https://a.test" command demo_world with
  | (_, Done (cs, _)) => cs
  | _ => cs
  end.
Definition demo_opened : CacheStorage := demo_after cache_in_memory (Open "v1").
Definition demo_two_entries : CacheStorage :=
  demo_after demo_opened (Put "v1" [demo_entry "en" "AA=="; demo_entry "de" "AQ=="]).
Definition demo_replaced : CacheStorage := demo_after demo_two_entries (Put "v1" [demo_entry "en" "Ag=="]).

Example put_replaces_one_language :
  cs_state demo_replaced
  = Some [("https://a.test", [mkCache "v1" [demo_entry "de" "AQ=="; demo_entry "en" "Ag=="]])].
Proof. vm_compute. reflexivity. Qed.

Example unsecure_origin_is_refused :
  (demo_execute cache_in_memory "http://a.test" (Open "v1") demo_world).2
  = Done (cache_in_memory, Returned (Err InvalidRequest)).
Proof. vm_compute. reflexivity. Qed.

Lemma stored_entries_are_found_witness :
  exists st', cs_state demo_replaced = Some st' /\
    forall c e, c ∈ origin_caches st' "https://a.test" -> e ∈ entries c ->
      demo_execute demo_replaced "https://a.test" (Match (Some (cache_name c)) (request e) default_options) demo_world
      = (demo_world, Done (demo_replaced, Returned (Ok (RResponse (Some (response e)))))).
Proof.
  apply (@stored_entries_are_found one_host_urls sized_cache_json demo_engine cache_in_memory
    demo_replaced []).
  - reflexivity.
  - split; constructor.
  - eapply rtc_l, rtc_l, rtc_l, rtc_refl.
    + exists 7%N, "https://a.test", (Open "v1"), demo_world, demo_world, (Returned (Ok RNull)).
      instantiate (1 := demo_opened). vm_compute. reflexivity.
    + exists 7%N, "https://a.test", (Put "v1" [demo_entry "en" "AA=="; demo_entry "de" "AQ=="]), demo_world,
        demo_world, (Returned (Ok RNull)).
      instantiate (1 := demo_two_entries). vm_compute. reflexivity.
    + exists 7%N, "https://a.test", (Put "v1" [demo_entry "en" "Ag=="]), demo_world, demo_world,
        (Returned (Ok RNull)).
      vm_compute. reflexivity.
  - reflexivity.
  - vm_compute. reflexivity.
Defined.

Lemma put_replaces_matched_witness :
  exists st' c, cs_state demo_replaced = Some st' /\
    find_first (named "v1") (origin_caches st' "https://a.test")
    = Some (mkCache "v1" (filter (fun e => @unmatched one_host_urls [demo_entry "en" "Ag=="] e) (entries c)
                          ++ [demo_entry "en" "Ag=="])).
Proof.
  destruct (@put_replaces_matched one_host_urls sized_cache_json demo_engine 7 demo_two_entries
    demo_replaced [("https://a.test", [mkCache "v1" [demo_entry "en" "AA=="; demo_entry "de" "AQ=="]])]
    "https://a.test" "v1" [demo_entry "en" "Ag=="] demo_world demo_world RNull) as (st' & c & H1 & _ & H3 & _).
  - vm_compute. reflexivity.
  - split; [repeat constructor|]. constructor; [|constructor]. split.
    + apply NoDup_singleton.
    + constructor; [|constructor]. split; [repeat constructor; vm_compute; reflexivity|].
      repeat constructor; vm_compute; reflexivity.
  - vm_compute. reflexivity.
  - done.
  - exists st', c. split; [exact H1|exact H3].
Defined.


(** A read error on the file that is there, a sharing violation say, is treated
    like a corrupt file: the load answers with the older backup, and the next
    save builds on it. *)
Lemma unreadable_file_loads_older_backup :
  let newer := mkFile [x01] true in
  let older := mkFile [x00] true in
  let d := <[state_path := newer]> (<[Snapshots.backup "cache-bak" state_path := older]> ∅) in
  let busy := Fail (mkIoError OtherKind "The process cannot access the file.") 0 in
  (@cache_load demo_cache_json state_path (mkWorld d [])).2
    = Done (Ok [("https://a.test", [mkCache "v1" []])]) /\
  (@cache_load demo_cache_json state_path (mkWorld d [busy])).2 = Done (Ok []).
Proof. split; vm_compute; reflexivity. Qed.
