(* ===== verification/StorageManager.v ===== *)
(** * StorageManager: one origin's usage and quota (src/storage_manager.rs)

    [navigator.storage.estimate] adds what the three stores report for the
    committed origin. The quota is fixed; that reported usage cannot exceed it is
    a fact about the three stores' own limits, proved here for every state their
    operations reach. *)

From S2P Require Import Prelude Text OrderedMap Limits Origins Fs Snapshots WebStorage LocalStore.
From S2P Require Import StructuredClone Keys ObjectStores StoreTheory IndexedDb IdbTheory Net CacheStore CacheTheory.

Definition DEFAULT_BUCKET_QUOTA : N := 37 * 1024 * 1024.

Record StorageEstimate := mkEstimate { est_usage : N; est_quota : N }.

Section storage_manager.
Context {URL : UrlLib} {NUM : JsonNumbers} {TEXT : JsonText}.
Context {LOCAL : JsonLib} {IDB : IdbJson} {CACHE : CacheJson} {ENGINE : Base64Engine}.

(** The errors are turned to text; [Panicked] is the store's. The cache store may
    be loaded on the way. *)
Definition for_origin (origin : string) (ls : LocalStorage) (idb : IndexedDb) (cs : CacheStorage)
  : io (CacheStorage * option (result string StorageEstimate)) :=
  match (local ← map_err StorageError_to_string (LocalStorage_usage ls origin);
         indexed ← map_err DbError_fmt (IndexedDb.usage idb origin);
         Ok (local, indexed)) with
  | Err e => mret (cs, Some (Err e))
  | Ok (local, indexed) =>
      '(cs, answered) ← cache_usage cs origin;
      mret (cs, match answered with
                | Panicked => None
                | Returned r => Some (cache ← map_err CacheError_fmt r;
                                      Ok (mkEstimate (saturating_add (saturating_add local indexed) cache)
                                            DEFAULT_BUCKET_QUOTA))
                end)
  end.

(** ** The three limits *)
Definition idb_within (st : list (string * list (string * Database))) : Prop :=
  Forall (fun og => forall bytes, group_to_vec og.2 = Ok bytes ->
    (N.of_nat (length bytes) <= Keys.MAX_ORIGIN_BYTES)%N) st.
Definition caches_within (st : list (string * list NamedCache)) : Prop :=
  Forall (fun oc => forall bytes, caches_to_vec oc.2 = Ok bytes ->
    (N.of_nat (length bytes) <= CacheStore.MAX_ORIGIN_BYTES)%N) st.
Definition cs_within (cs : CacheStorage) : Prop :=
  match cs_state cs with Some st => caches_within st | None => True end.

(** The stores of one profile, and what changes them: transactions, writes with
    any action, commands, and the estimate itself. *)
Record Profile := mkProfile { p_local : LocalStorage; p_idb : IndexedDb; p_cache : CacheStorage }.

Definition within (p : Profile) : Prop :=
  origins_wf (origins (p_local p)) /\ idb_within (db_state (p_idb p)) /\ cs_within (p_cache p).

Inductive profile_step : Profile -> Profile -> Prop :=
  | step_local p pid url ms record w w' ls r :
      transact pid (p_local p) url ms record w = (w', Done (ls, r)) ->
      profile_step p (mkProfile ls (p_idb p) (p_cache p))
  | step_idb {T} p pid (action : _ -> result DbError (_ * T)) w w' idb r :
      update pid (p_idb p) action w = (w', Done (idb, r)) ->
      profile_step p (mkProfile (p_local p) idb (p_cache p))
  | step_cache p pid origin command w w' cs r :
      execute pid (p_cache p) origin command w = (w', Done (cs, r)) ->
      profile_step p (mkProfile (p_local p) (p_idb p) cs)
  | step_estimate p origin w w' cs r :
      for_origin origin (p_local p) (p_idb p) (p_cache p) w = (w', Done (cs, r)) ->
      profile_step p (mkProfile (p_local p) (p_idb p) cs).

(** ** The limits hold *)
Lemma bt_get_in {K V} `{TotalCmp K} (k : K) (m : list (K * V)) (v : V) :
  bt_get k m = Some v -> exists k', (k', v) ∈ m.
Proof.
  induction m as [|[k' v'] m IH]; simpl; [done|].
  destruct (cmp k k'); intros Hg; simplify_eq; [exists k'; by left|].
  destruct (IH Hg) as [k2 Hin]. exists k2. by right.
Qed.

Lemma idb_validate_within st total :
  idb_validate st Keys.MAX_ORIGIN_BYTES total = Ok tt -> idb_within st.
Proof.
  unfold idb_validate. intros Hv. inv_res.
  match goal with H : try_for_each _ _ = Ok _ |- _ => apply try_for_each_Ok in H; apply (Forall_impl _ _ _ H) end.
  intros og Hog bytes Hb. rewrite Hb in Hog. simpl in Hog.
  destruct (N.ltb_spec Keys.MAX_ORIGIN_BYTES (N.of_nat (length bytes))); [done|lia].
Qed.

Lemma cache_validate_within st total :
  cache_validate st CacheStore.MAX_ORIGIN_BYTES total = Ok tt -> caches_within st.
Proof.
  unfold cache_validate. intros Hv. inv_res.
  match goal with H : try_for_each _ _ = Ok _ |- _ => apply try_for_each_Ok in H; apply (Forall_impl _ _ _ H) end.
  intros oc Hoc bytes Hb. rewrite Hb in Hoc. simpl in Hoc.
  destruct (N.ltb_spec CacheStore.MAX_ORIGIN_BYTES (N.of_nat (length bytes))); [done|lia].
Qed.

(** A state that was loaded was validated, or is the empty one. *)
Lemma cache_load_within (p : Path) (w w' : World) st :
  cache_load p w = (w', Done (Ok st)) -> caches_within st.
Proof.
  assert (Hread : forall q w w' o, Snapshots.read Persistence Quota MAX_TOTAL_BYTES cache_decode q w
    = (w', Done (Ok (Some o))) -> caches_within o).
  { clear. intros q w w' o. unfold Snapshots.read, io_try, io_map_err, mbind, io_bind, mret, io_ret.
    destruct (file_open q w) as [w1 [[u|e]|]]; [|by destruct (error_kind e)|done].
    destruct (read_limited _ _ w1) as [w2 [[bytes|e]|]]; [|done|done]. simpl.
    destruct (decode_file _ _ _ bytes) as [d|] eqn:Hd; [|done]. intros [= <- <-].
    unfold decode_file in Hd. destruct (_ <? _)%N; [done|]. unfold cache_decode in Hd. inv_res.
    by eapply cache_validate_within; match goal with H : cache_validate _ _ _ = Ok ?u |- _ => destruct u; exact H end. }
  unfold cache_load, Snapshots.load, io_try, mbind, io_bind, mret, io_ret.
  destruct (Snapshots.read _ _ _ _ p w) as [w1 [[[o|]|e]|]] eqn:H1.
  - intros [= <- <-]. by eapply Hread.
  - destruct (Snapshots.read _ _ _ _ _ w1) as [w2 [[[o|]|e]|]] eqn:H2; intros [= <- <-]; [by eapply Hread|constructor].
  - destruct (Snapshots.read _ _ _ _ _ w1) as [w2 [[[o|]|e']|]] eqn:H2; intros [= <- <-]. by eapply Hread.
  - done.
Qed.

Lemma ensure_loaded_within (cs cs' : CacheStorage) (w w' : World) r :
  cs_within cs -> ensure_loaded cs w = (w', Done (cs', r)) ->
  cs_within cs' /\ forall st, r = Returned (Ok st) -> caches_within st.
Proof.
  unfold ensure_loaded, cs_within. intros Hcs. destruct (cs_poisoned cs).
  { intros [= <- <- <-]. by split. }
  destruct (cs_state cs) as [st|] eqn:Hst.
  { intros [= <- <- <-]. rewrite Hst. split; [done|]. by intros st' [= <-]. }
  destruct (cs_path cs) as [p|]; [|by intros [= <- <- <-]].
  unfold mbind, io_bind. destruct (cache_load p w) as [w1 [[st|e]|]] eqn:Hl; intros [= <- <- <-].
  - apply cache_load_within in Hl. split; [done|]. by intros st' [= <-].
  - rewrite Hst. by split.
Qed.

Lemma execute_within (pid : N) (cs cs' : CacheStorage) origin command (w w' : World) r :
  cs_within cs -> execute pid cs origin command w = (w', Done (cs', r)) -> cs_within cs'.
Proof.
  intros Hcs. unfold execute. destruct (validate_origin origin); [|by intros [= <- <- <-]].
  destruct (command_action command) as [f|f]; unfold read, mutate, mbind, io_bind;
    destruct (ensure_loaded cs w) as [w1 [[cs1 loaded]|]] eqn:Hl; try done;
    destruct (ensure_loaded_within _ _ _ _ _ Hcs Hl) as [Hcs1 Hst]; [by intros [= <- <- <-]|].
  destruct loaded as [[st|e]|]; [|by intros [= <- <- <-]..].
  destruct (f (origin_caches st origin)) as [[caches [reply [|]]]|e]; [|by intros [= <- <- <-]..].
  destruct (cache_validate _ _ _) as [[]|e] eqn:Hv; [|by intros [= <- <- <-]].
  apply cache_validate_within in Hv.
  destruct (cs_path cs1) as [p|]; [destruct (cache_write pid p _ w1) as [w2 [[u|e]|]]|];
    try done; by intros [= <- <- <-].
Qed.

Lemma update_within {T} (pid : N) (idb idb' : IndexedDb) (action : _ -> result DbError (_ * T)) (w w' : World) r :
  idb_within (db_state idb) -> update pid idb action w = (w', Done (idb', r)) -> idb_within (db_state idb').
Proof.
  intros Hi. destruct (update_cases pid idb action w) as [[e ->]|(candidate & result & _ & Hv & ->)].
  { by intros [= <- <- <-]. }
  apply idb_validate_within in Hv.
  destruct (match db_path idb with Some p => idb_write pid p candidate | None => mret (Ok tt) end w)
    as [w1 [[u|e]|]]; [by intros [= <- <- <-]..|done].
Qed.

Lemma transact_wf (pid : N) (ls ls' : LocalStorage) url ms record (w w' : World) r :
  origins_wf (origins ls) -> transact pid ls url ms record w = (w', Done (ls', r)) -> origins_wf (origins ls').
Proof.
  intros Hwf Ht. pose proof (transact_cases pid ls url ms record w Hwf) as Hc. rewrite Ht in Hc.
  destruct Hc as [(? & [= -> _] & _)|(origin & o' & looped & _ & _ & _ & Hloop & Hl)]; [done|].
  destruct looped as [[changed records]|e]; [|by destruct Hl as (_ & ? & [= -> _] & _)].
  destruct (transact_loop_cases _ _ _ _ _ _ _ _ Hwf Hloop) as [_ Hr].
  destruct (flush pid (store_path ls) changed o' w) as [wf [[u|ef]|]]; destruct Hl as [_ Hl];
    [by injection Hl as -> _; apply Hr|by injection Hl as -> _|done].
Qed.

Lemma for_origin_cases origin ls idb cs (w w' : World) cs' r :
  for_origin origin ls idb cs w = (w', Done (cs', r)) ->
  (cs' = cs /\ exists e, r = Some (Err e)) \/
  exists local indexed answered, LocalStorage_usage ls origin = Ok local /\
    IndexedDb.usage idb origin = Ok indexed /\
    cache_usage cs origin w = (w', Done (cs', answered)) /\
    forall est, r = Some (Ok est) -> exists cache, answered = Returned (Ok cache) /\
      est = mkEstimate (saturating_add (saturating_add local indexed) cache) DEFAULT_BUCKET_QUOTA.
Proof.
  unfold for_origin. destruct (LocalStorage_usage ls origin) as [local|e] eqn:Hl; simpl;
    [|by intros [= <- <- <-]; left; eauto].
  destruct (IndexedDb.usage idb origin) as [indexed|e] eqn:Hi; simpl;
    [|by intros [= <- <- <-]; left; eauto].
  unfold mbind, io_bind. destruct (cache_usage cs origin w) as [w1 [[cs1 answered]|]] eqn:Hc; [|done].
  intros [= <- <- <-]. right. exists local, indexed, answered. split_and!; [done..|].
  destruct answered as [[cache|e]|]; simpl; intros est [= <-]. by exists cache.
Qed.

Lemma cache_usage_within cs origin (w w' : World) cs' r :
  cs_within cs -> cache_usage cs origin w = (w', Done (cs', r)) ->
  cs_within cs' /\ forall n, r = Returned (Ok n) -> (n <= CacheStore.MAX_ORIGIN_BYTES)%N.
Proof.
  intros Hcs. unfold cache_usage. destruct (validate_origin origin); [|by intros [= <- <- <-]; split].
  unfold mbind at 1, io_bind. destruct (ensure_loaded cs w) as [w1 [[cs1 loaded]|]] eqn:Hl; [|done].
  destruct (ensure_loaded_within _ _ _ _ _ Hcs Hl) as [Hcs1 Hst]. intros [= <- <- <-]. split; [done|].
  intros n Hn. destruct loaded as [[st|e]|]; simpl in Hn; [|done..]. specialize (Hst st eq_refl).
  injection Hn as Hn. destruct (bt_get origin st) as [caches|] eqn:Hg; [|injection Hn as <-; done].
  destruct caches as [|c caches]; [injection Hn as <-; done|].
  apply bt_get_in in Hg as [k Hk]. inv_res. unfold caches_within in Hst. rewrite Forall_forall in Hst.
  by apply (Hst (k, c :: caches)).
Qed.

Lemma profile_step_within (p p' : Profile) : within p -> profile_step p p' -> within p'.
Proof.
  intros (Hl & Hi & Hc) Hs. destruct Hs as [p pid url ms record w w' ls r Ht|T p pid action w w' idb r Hu|
    p pid origin command w w' cs r Hx|p origin w w' cs r Hf]; (split; [|split]); simpl; try done.
  - by eapply transact_wf.
  - by eapply update_within.
  - by eapply execute_within.
  - apply for_origin_cases in Hf as [[-> _]|(local & indexed & answered & _ & _ & Hu & _)]; [done|].
    by eapply cache_usage_within in Hu as [Hu _].
Qed.

(** What [navigator.storage.estimate] reports never exceeds the quota it
    reports, for no origin and after no history of writes, commands and
    failures; and the saturating sum is the exact one, so no usage is lost. *)
Theorem estimate_within_quota (p p' : Profile) (origin : string) (w w' : World) cs est :
  within p -> rtc profile_step p p' ->
  for_origin origin (p_local p') (p_idb p') (p_cache p') w = (w', Done (cs, Some (Ok est))) ->
  (est_usage est <= est_quota est)%N /\
  exists local indexed cache, LocalStorage_usage (p_local p') origin = Ok local /\
    IndexedDb.usage (p_idb p') origin = Ok indexed /\
    cache_usage (p_cache p') origin w = (w', Done (cs, Returned (Ok cache))) /\
    est_usage est = (local + indexed + cache)%N.
Proof.
  intros Hp Hs Hf. assert (within p') as (Hl & Hi & Hc).
  { clear Hf. induction Hs as [|p p1 p' H1 _ IH]; [done|]. apply IH. by eapply profile_step_within. }
  apply for_origin_cases in Hf as [[_ [e [=]]]|(local & indexed & answered & Hlocal & Hindexed & Hcache & Hest)].
  destruct (Hest est eq_refl) as (cache & -> & ->).
  assert (cache <= CacheStore.MAX_ORIGIN_BYTES)%N as Hcb.
  { eapply cache_usage_within in Hcache as [_ Hn]; [by apply Hn|done]. }
  assert (local <= MAX_STORAGE_BYTES_PER_ORIGIN)%N as Hlb.
  { unfold LocalStorage_usage in Hlocal. inv_res. unfold lock in *. destruct (poisoned _); [done|]. inv_res.
    destruct (origins (p_local p') !! _) as [a|] eqn:Ha; simpl; [|done].
    destruct Hl as [_ Hareas]. specialize (Hareas _ _ Ha). destruct Hareas as [_ Hs' Hfit].
    unfold fits in Hfit. rewrite map_bytes_storage_map in Hfit by done. apply Hfit. }
  assert (indexed <= Keys.MAX_ORIGIN_BYTES)%N as Hib.
  { unfold IndexedDb.usage in Hindexed. inv_res. unfold idb_lock in *. destruct (db_poisoned _); [done|]. inv_res.
    destruct (bt_get _ _) as [[|d g]|] eqn:Hg; [by inv_res| |by inv_res]. inv_res.
    apply bt_get_in in Hg as [k Hk]. unfold idb_within in Hi. rewrite Forall_forall in Hi.
    by apply (Hi (k, d :: g)). }
  unfold MAX_STORAGE_BYTES_PER_ORIGIN, Keys.MAX_ORIGIN_BYTES, CacheStore.MAX_ORIGIN_BYTES in *.
  simpl. unfold DEFAULT_BUCKET_QUOTA, saturating_add, u64_max. split; [lia|].
  exists local, indexed, cache. split_and!; [done..|]. lia.
Qed.
End storage_manager.

(** A profile with one named cache, which the demo encoder gives three bytes. *)
Definition demo_profile : Profile := mkProfile in_memory idb_in_memory cache_in_memory.
Definition demo_profile_opened : Profile := mkProfile in_memory idb_in_memory demo_opened.

Lemma estimate_within_quota_witness :
  let est := mkEstimate 3 DEFAULT_BUCKET_QUOTA in
  @for_origin one_host_urls demo_idb_json sized_cache_json "https://a.test" in_memory idb_in_memory
    demo_opened demo_world = (demo_world, Done (demo_opened, Some (Ok est))) /\
  (est_usage est <= est_quota est)%N.
Proof.
  intros est.
  assert (Hf : @for_origin one_host_urls demo_idb_json sized_cache_json "https://a.test" in_memory
    idb_in_memory demo_opened demo_world = (demo_world, Done (demo_opened, Some (Ok est)))).
  { vm_compute. reflexivity. }
  split; [exact Hf|].
  apply (@estimate_within_quota one_host_urls demo_numbers demo_text demo_json demo_idb_json sized_cache_json
    demo_engine demo_profile demo_profile_opened "https://a.test" demo_world demo_world demo_opened).
  - split_and!; [split; [done|apply map_Forall_empty]|constructor|constructor].
  - eapply rtc_l, rtc_refl.
    apply (@step_cache one_host_urls demo_numbers demo_text demo_json demo_idb_json sized_cache_json
      demo_engine demo_profile 7 "https://a.test" (Open "v1") demo_world demo_world demo_opened (Returned (Ok RNull))).
    vm_compute. reflexivity.
  - exact Hf.
Defined.
