(* ===== verification/Scheduler.v ===== *)
(** * Scheduler: the event loop of a document (src/engine/scheduler.rs)

    Tasks in a binary heap under due time and insertion sequence, cancellation by
    handle with the cancelled entries left behind in the heap, the microtask queue
    with its checkpoint, and coalesced render requests. The executor the embedder
    supplies is a program over the public interface, which may call the scheduler
    again, nested runs and checkpoints included. The abstract scheduler is an
    agenda: the live tasks in order. *)

From Stdlib Require Import Sorting.Sorted.
From S2P Require Import Prelude Clock.

(** ** src/engine/scheduler/source.rs *)
Inductive TaskSource :=
  | Timer | IdleTask | Networking | MediaElement | FontLoading | PerformanceTimeline
  | UserInteraction | Lifecycle | DomManipulation | Rendering.

(** ** src/engine/scheduler/render.rs *)
Inductive RenderScope := LayoutScope | SurfacePixels.
Definition RenderRequests := option RenderScope.
Definition RenderRequests_request (r : RenderRequests) (scope : RenderScope) : RenderRequests * bool :=
  (Some (match r with Some LayoutScope => LayoutScope | _ => scope end),
   match r with None => true | Some _ => false end).

Definition MINIMUM_REPEAT_INTERVAL : Duration := 1.

Section scheduler.
Context {T E : Type}.

Record RunnableTask := mkRunnable {
  rt_handle : N;
  rt_source : TaskSource;
  rt_scheduled_for : Duration;
  rt_repeating : bool;
  rt_payload : T
}.

Inductive ScheduledWork := WorkTask (t : RunnableTask) | Microtask (payload : T).

Record RunSummary := mkRunSummary { run_task : N; microtasks_run : N }.

Record QueuedTask := mkQueued {
  qt_due : Duration;
  qt_sequence : N;
  qt_handle : N;
  qt_source : TaskSource;
  qt_repeat_interval : option Duration;
  qt_payload : T
}.

(** [Ord for QueuedTask]: [t] comes out of the heap before [u]. *)
Definition task_cmp (t u : QueuedTask) : comparison :=
  match (qt_due u ?= qt_due t)%N with
  | Eq => (qt_sequence u ?= qt_sequence t)%N
  | c => c
  end.
Definition runs_before (t u : QueuedTask) : bool := match task_cmp t u with Gt => true | _ => false end.

(** ** [BinaryHeap]: its greatest item comes out first; the rest has no order. *)
Fixpoint heap_pop (l : list QueuedTask) : option (QueuedTask * list QueuedTask) :=
  match l with
  | [] => None
  | t :: l' =>
      match heap_pop l' with
      | Some (u, rest) => if runs_before u t then Some (u, t :: rest) else Some (t, l')
      | None => Some (t, l')
      end
  end.
Definition heap_peek (l : list QueuedTask) : option QueuedTask := fst <$> heap_pop l.

Record EventLoopScheduler := mkScheduler {
  now : Duration;
  tasks : list QueuedTask;
  active_tasks : gset N;
  microtasks : list T;
  next_handle : N;
  next_sequence : N;
  performing_microtask_checkpoint : bool;
  rendering : RenderRequests
}.

Definition scheduler_new : EventLoopScheduler := mkScheduler 0 [] ∅ [] 1 0 false None.
Implicit Types s : EventLoopScheduler.

Definition with_tasks s (l : list QueuedTask) (active : gset N) : EventLoopScheduler :=
  mkScheduler (now s) l active (microtasks s) (next_handle s) (next_sequence s)
    (performing_microtask_checkpoint s) (rendering s).
Definition with_microtasks s (l : list T) : EventLoopScheduler :=
  mkScheduler (now s) (tasks s) (active_tasks s) l (next_handle s) (next_sequence s)
    (performing_microtask_checkpoint s) (rendering s).
Definition with_checkpoint s (b : bool) : EventLoopScheduler :=
  mkScheduler (now s) (tasks s) (active_tasks s) (microtasks s) (next_handle s) (next_sequence s) b (rendering s).
Definition with_rendering s (r : RenderRequests) : EventLoopScheduler :=
  mkScheduler (now s) (tasks s) (active_tasks s) (microtasks s) (next_handle s) (next_sequence s)
    (performing_microtask_checkpoint s) r.

Definition advance_to s (d : Duration) : EventLoopScheduler :=
  mkScheduler (N.max (now s) d) (tasks s) (active_tasks s) (microtasks s) (next_handle s) (next_sequence s)
    (performing_microtask_checkpoint s) (rendering s).

(** The panics of the exhausted counters are [None]. *)
Definition take_handle s : option (EventLoopScheduler * N) :=
  match checked_add (next_handle s) 1 with
  | Some next => Some (mkScheduler (now s) (tasks s) (active_tasks s) (microtasks s) next (next_sequence s)
                         (performing_microtask_checkpoint s) (rendering s), next_handle s)
  | None => None
  end.
Definition take_sequence s : option (EventLoopScheduler * N) :=
  match checked_add (next_sequence s) 1 with
  | Some next => Some (mkScheduler (now s) (tasks s) (active_tasks s) (microtasks s) (next_handle s) next
                         (performing_microtask_checkpoint s) (rendering s), next_sequence s)
  | None => None
  end.

Definition queue_task_internal s (source : TaskSource) (delay : Duration) (repeat : option Duration) (payload : T)
  : option (EventLoopScheduler * N) :=
  '(s, handle) ← take_handle s;
  '(s, sequence) ← take_sequence s;
  let task := mkQueued (duration_saturating_add (now s) delay) sequence handle source repeat payload in
  Some (with_tasks s (task :: tasks s) ({[handle]} ∪ active_tasks s), handle).

Definition queue_task s (source : TaskSource) (delay : Duration) (payload : T) : option (EventLoopScheduler * N) :=
  queue_task_internal s source delay None payload.
Definition queue_repeating_task s (source : TaskSource) (delay interval : Duration) (payload : T)
  : option (EventLoopScheduler * N) :=
  queue_task_internal s source delay (Some (N.max interval MINIMUM_REPEAT_INTERVAL)) payload.

Definition cancel s (handle : N) : EventLoopScheduler * bool :=
  (with_tasks s (tasks s) (active_tasks s ∖ {[handle]}), bool_decide (handle ∈ active_tasks s)).

Definition queue_microtask s (payload : T) : EventLoopScheduler := with_microtasks s (microtasks s ++ [payload]).
Definition pending_task_count s : N := N.of_nat (size (active_tasks s)).
Definition pending_microtask_count s : N := N.of_nat (length (microtasks s)).

Definition clear s : EventLoopScheduler :=
  mkScheduler (now s) [] ∅ [] (next_handle s) (next_sequence s) (performing_microtask_checkpoint s) None.

(** The loop drops one entry a turn: its length is fuel enough. *)
Fixpoint discard_loop (fuel : nat) (active : gset N) (l : list QueuedTask) : list QueuedTask :=
  match fuel, heap_pop l with
  | S fuel, Some (t, rest) => if bool_decide (qt_handle t ∈ active) then l else discard_loop fuel active rest
  | _, _ => l
  end.
Definition discard_cancelled_front s : EventLoopScheduler :=
  with_tasks s (discard_loop (length (tasks s)) (active_tasks s) (tasks s)) (active_tasks s).

Definition next_due_time s : EventLoopScheduler * option Duration :=
  let s := discard_cancelled_front s in (s, qt_due <$> heap_peek (tasks s)).

Definition min_due (l : list QueuedTask) : option Duration :=
  foldr (fun t m => Some (match m with Some d => N.min (qt_due t) d | None => qt_due t end)) None l.
Definition scheduled_for s (handle : N) : option Duration :=
  if bool_decide (handle ∈ active_tasks s)
  then min_due (filter (fun t => qt_handle t = handle) (tasks s)) else None.

Definition pop_runnable_task s : option (EventLoopScheduler * option RunnableTask) :=
  let s := discard_cancelled_front s in
  match heap_pop (tasks s) with
  | None => Some (s, None)
  | Some (task, rest) =>
      if (now s <? qt_due task)%N then Some (s, None)
      else
        let runnable := mkRunnable (qt_handle task) (qt_source task) (qt_due task)
                          (bool_decide (is_Some (qt_repeat_interval task))) (qt_payload task) in
        let s := with_tasks s rest (active_tasks s) in
        match qt_repeat_interval task with
        | Some interval =>
            '(s, sequence) ← take_sequence s;
            let again := mkQueued (duration_saturating_add (now s) interval) sequence (qt_handle task)
                           (qt_source task) (qt_repeat_interval task) (qt_payload task) in
            Some (with_tasks s (again :: tasks s) (active_tasks s), Some runnable)
        | None => Some (with_tasks s (tasks s) (active_tasks s ∖ {[qt_handle task]}), Some runnable)
        end
  end.

(** [RenderRequests] through the scheduler. *)
Definition request_scope s (scope : RenderScope) : EventLoopScheduler * bool :=
  let '(r, first) := RenderRequests_request (rendering s) scope in (with_rendering s r, first).
Definition request_render s := request_scope s LayoutScope.
Definition request_surface_repaint s := request_scope s SurfacePixels.
Definition render_requested s : bool := match rendering s with Some _ => true | None => false end.
Definition take_render_scope s : EventLoopScheduler * option RenderScope := (with_rendering s None, rendering s).

Definition pop_microtask s : option (EventLoopScheduler * T) :=
  match microtasks s with [] => None | m :: l => Some (with_microtasks s l, m) end.

(** ** The calls an executor can make, and what it is told *)
Inductive call :=
  | Now | AdvanceTo (d : Duration)
  | QueueTask (source : TaskSource) (delay : Duration) (payload : T)
  | QueueRepeating (source : TaskSource) (delay interval : Duration) (payload : T)
  | Cancel (handle : N) | QueueMicrotask (payload : T)
  | PendingTasks | PendingMicrotasks | Clear | NextDue | ScheduledFor (handle : N)
  | RequestRender | RequestSurface | RenderRequested | TakeRender.

Inductive reply :=
  | Told | ToldBool (b : bool) | ToldNumber (n : N) | ToldTime (d : option Duration)
  | ToldScope (r : option RenderScope).

Definition perform (c : call) s : option (EventLoopScheduler * reply) :=
  match c with
  | Now => Some (s, ToldTime (Some (now s)))
  | AdvanceTo d => Some (advance_to s d, Told)
  | QueueTask source delay payload => '(s, h) ← queue_task s source delay payload; Some (s, ToldNumber h)
  | QueueRepeating source delay interval payload =>
      '(s, h) ← queue_repeating_task s source delay interval payload; Some (s, ToldNumber h)
  | Cancel h => let '(s, b) := cancel s h in Some (s, ToldBool b)
  | QueueMicrotask payload => Some (queue_microtask s payload, Told)
  | PendingTasks => Some (s, ToldNumber (pending_task_count s))
  | PendingMicrotasks => Some (s, ToldNumber (pending_microtask_count s))
  | Clear => Some (clear s, Told)
  | NextDue => let '(s, d) := next_due_time s in Some (s, ToldTime d)
  | ScheduledFor h => Some (s, ToldTime (scheduled_for s h))
  | RequestRender => let '(s, b) := request_render s in Some (s, ToldBool b)
  | RequestSurface => let '(s, b) := request_surface_repaint s in Some (s, ToldBool b)
  | RenderRequested => Some (s, ToldBool (render_requested s))
  | TakeRender => let '(s, r) := take_render_scope s in Some (s, ToldScope r)
  end.
End scheduler.
Arguments QueuedTask : clear implicits.
Arguments EventLoopScheduler : clear implicits.
Arguments RunnableTask : clear implicits.
Arguments ScheduledWork : clear implicits.
Arguments call : clear implicits.

(** ** Running tasks *)
Inductive outcome (A : Type) := Ran (a : A) | Panicked | OutOfFuel.
Arguments Ran {A} a.
Arguments Panicked {A}.
Arguments OutOfFuel {A}.
#[global] Instance outcome_ret : MRet outcome := fun A a => Ran a.
#[global] Instance outcome_bind : MBind outcome := fun A B f o =>
  match o with Ran a => f a | Panicked => Panicked | OutOfFuel => OutOfFuel end.
Definition or_panic {A} (o : option A) : outcome A := match o with Some a => Ran a | None => Panicked end.

(** What the execution of tasks needs of a scheduler. *)
Class Scheduling (T S : Type) := {
  sc_perform : call T -> S -> option (S * reply);
  sc_pop_task : S -> option (S * option (RunnableTask T));
  sc_pop_microtask : S -> option (S * T);
  sc_checkpoint : S -> bool;
  sc_set_checkpoint : S -> bool -> S
}.

#[global] Instance event_loop_scheduling T : Scheduling T (EventLoopScheduler T) := {|
  sc_perform := perform;
  sc_pop_task := pop_runnable_task;
  sc_pop_microtask := pop_microtask;
  sc_checkpoint := performing_microtask_checkpoint;
  sc_set_checkpoint := with_checkpoint
|}.

Section running.
Context {T S E : Type} `{!Scheduling T S}.

(** A closure over the environment [E] that is given some work. *)
Definition executor (W : Type) : Type := E -> W -> S -> outcome (E * S).

(** The [while let] of the checkpoint. It ends when the executor stops queueing;
    [fuel] bounds its turns. *)
Fixpoint drain_microtasks (fuel : nat) (execute : executor T) (e : E) (s : S) (executed : N) : outcome (E * S * N) :=
  match fuel with
  | O => OutOfFuel
  | Datatypes.S fuel =>
      match sc_pop_microtask s with
      | None => Ran (e, s, executed)
      | Some (s, microtask) =>
          '(e, s) ← execute e microtask s;
          drain_microtasks fuel execute e s (executed + 1)
      end
  end.

Definition perform_microtask_checkpoint (fuel : nat) (execute : executor T) (e : E) (s : S) : outcome (E * S * N) :=
  if sc_checkpoint s then Ran (e, s, 0%N)
  else
    '(e, s, executed) ← drain_microtasks fuel execute e (sc_set_checkpoint s true) 0;
    Ran (e, sc_set_checkpoint s false, executed).

Definition run_one_task (fuel : nat) (execute : executor (ScheduledWork T)) (e : E) (s : S)
  : outcome (E * S * option RunSummary) :=
  '(s, task) ← or_panic (sc_pop_task s);
  match task with
  | None => Ran (e, s, None)
  | Some task =>
      '(e, s) ← execute e (WorkTask task) s;
      '(e, s, n) ← perform_microtask_checkpoint fuel (fun e m s => execute e (Microtask m) s) e s;
      Ran (e, s, Some (mkRunSummary (rt_handle task) n))
  end.
End running.

(** An embedder: calls on the scheduler and, nested, further runs of it. *)
Inductive program (T E : Type) :=
  | Done (e : E)
  | Ask (c : call T) (next : reply -> program T E)
  | RunOne (execute : E -> ScheduledWork T -> program T E) (e : E) (next : E -> option RunSummary -> program T E)
  | RunCheckpoint (execute : E -> T -> program T E) (e : E) (next : E -> N -> program T E).
Arguments Done {T E} e.
Arguments Ask {T E} c next.
Arguments RunOne {T E} execute e next.
Arguments RunCheckpoint {T E} execute e next.

Fixpoint run {T S E} `{!Scheduling T S} (fuel : nat) (p : program T E) (s : S) : outcome (E * S) :=
  match fuel with
  | O => OutOfFuel
  | Datatypes.S fuel =>
      match p with
      | Done e => Ran (e, s)
      | Ask c next => '(s, r) ← or_panic (sc_perform c s); run fuel (next r) s
      | RunOne execute e next =>
          '(e, s, summary) ← run_one_task fuel (fun e w s => run fuel (execute e w) s) e s;
          run fuel (next e summary) s
      | RunCheckpoint execute e next =>
          '(e, s, n) ← perform_microtask_checkpoint fuel (fun e m s => run fuel (execute e m) s) e s;
          run fuel (next e n) s
      end
  end.
