(* ===== verification/SchedulerTheory.v ===== *)
(** * SchedulerTheory: the heap with its leftovers is an agenda of live tasks

    The abstract scheduler, the simulation between the two, and what follows for
    order, cancellation, checkpoints and fairness. *)

From Stdlib Require Import Sorting.Sorted.
From S2P Require Import Prelude Clock Scheduler.

(** ** Generic facts *)
Lemma filter_by_key {A} (f : A -> N) (k : N) (l : list A) :
  NoDup (f <$> l) -> filter (fun x => f x = k) l = [] \/ exists x, filter (fun x => f x = k) l = [x] /\ f x = k.
Proof.
  induction l as [|x l IH]; [by left|]. rewrite fmap_cons, NoDup_cons. intros [Hx Hl].
  rewrite filter_cons. case_decide as Hk; [right|by apply IH].
  exists x. split; [|done]. f_equal. destruct (filter _ l) as [|y k'] eqn:Hf; [done|].
  assert (Hy : y ∈ filter (fun x => f x = k) l) by (rewrite Hf; constructor).
  apply list_elem_of_filter in Hy as [Hyk Hy]. destruct Hx. rewrite Hk, <- Hyk. by apply list_elem_of_fmap_2.
Qed.

Lemma Permutation_filter {A} (P : A -> Prop) `{forall x, Decision (P x)} (l k : list A) :
  l ≡ₚ k -> filter P l ≡ₚ filter P k.
Proof. intros Hp. by rewrite Hp. Qed.

Lemma filter_same_on {A} (P Q : A -> Prop) `{forall x, Decision (P x)} `{forall x, Decision (Q x)} (l : list A) :
  (forall x, x ∈ l -> P x <-> Q x) -> filter P l = filter Q l.
Proof.
  induction l as [|x l IH]; intros Hpq; [done|]. rewrite !filter_cons, IH by (intros y Hy; apply Hpq; by constructor).
  specialize (Hpq x ltac:(constructor)). repeat case_decide; tauto.
Qed.

Lemma filter_true_on {A} (P : A -> Prop) `{forall x, Decision (P x)} (l : list A) :
  (forall x, x ∈ l -> P x) -> filter P l = l.
Proof.
  induction l as [|x l IH]; intros Hp; [done|]. rewrite filter_cons, decide_True by (apply Hp; constructor).
  by rewrite IH by (intros y Hy; apply Hp; by constructor).
Qed.

Lemma filter_false_on {A} (P : A -> Prop) `{forall x, Decision (P x)} (l : list A) :
  (forall x, x ∈ l -> ~ P x) -> filter P l = [].
Proof.
  induction l as [|x l IH]; intros Hp; [done|]. rewrite filter_cons, decide_False by (apply Hp; constructor).
  apply IH. intros y Hy. apply Hp. by constructor.
Qed.

Section agenda.
Context {T : Type}.
Implicit Types (t u : QueuedTask T) (s : EventLoopScheduler T).

Definition before t u : Prop := (qt_due t < qt_due u)%N \/ qt_due t = qt_due u /\ (qt_sequence t < qt_sequence u)%N.

Lemma runs_before_spec t u : runs_before t u = true <-> before t u.
Proof.
  unfold runs_before, task_cmp, before.
  destruct (N.compare_spec (qt_due u) (qt_due t)), (N.compare_spec (qt_sequence u) (qt_sequence t)); split; try done; lia.
Qed.

Lemma before_irrefl t : ~ before t t.
Proof. unfold before. lia. Qed.
Lemma before_trans t u v : before t u -> before u v -> before t v.
Proof. unfold before. lia. Qed.
Lemma before_total t u : qt_sequence t <> qt_sequence u -> ~ before u t -> before t u.
Proof. unfold before. lia. Qed.

#[local] Instance before_dec t u : Decision (before t u).
Proof. refine (cast_if (decide (runs_before t u = true))); by rewrite <- runs_before_spec. Defined.

(** ** The heap *)
Lemma heap_pop_spec (l : list (QueuedTask T)) :
  match heap_pop l with
  | None => l = []
  | Some (t, rest) => l ≡ₚ t :: rest /\ Forall (fun u => ~ before u t) rest
  end.
Proof.
  induction l as [|t l IH]; [done|]. simpl. destruct (heap_pop l) as [[u rest]|]; [|by subst].
  destruct IH as [Hp Hrest]. destruct (runs_before u t) eqn:Hb.
  - apply runs_before_spec in Hb. split; [rewrite Hp; apply Permutation_swap|]. constructor; [|done].
    intros Ht. by apply (before_irrefl t), (before_trans _ u).
  - split; [done|]. rewrite Hp. assert (Hut : ~ before u t) by (rewrite <- runs_before_spec; congruence).
    constructor; [done|]. eapply Forall_impl; [exact Hrest|]. intros v Hv Hvt. simpl in Hv.
    apply Hv. clear - Hut Hvt. unfold before in *. lia.
Qed.

(** ** The abstract scheduler: the live tasks in the order they will run *)
Record Agenda := mkAgenda {
  ag_now : Duration;
  ag_pending : list (QueuedTask T);
  ag_microtasks : list T;
  ag_next_handle : N;
  ag_next_sequence : N;
  ag_checkpoint : bool;
  ag_rendering : RenderRequests
}.
Implicit Types a : Agenda.

Definition agenda_new : Agenda := mkAgenda 0 [] [] 1 0 false None.
Definition ag_with_pending a (l : list (QueuedTask T)) : Agenda :=
  mkAgenda (ag_now a) l (ag_microtasks a) (ag_next_handle a) (ag_next_sequence a) (ag_checkpoint a) (ag_rendering a).
Definition ag_with_microtasks a (l : list T) : Agenda :=
  mkAgenda (ag_now a) (ag_pending a) l (ag_next_handle a) (ag_next_sequence a) (ag_checkpoint a) (ag_rendering a).
Definition ag_with_rendering a (r : RenderRequests) : Agenda :=
  mkAgenda (ag_now a) (ag_pending a) (ag_microtasks a) (ag_next_handle a) (ag_next_sequence a) (ag_checkpoint a) r.
Definition ag_with_checkpoint a (b : bool) : Agenda :=
  mkAgenda (ag_now a) (ag_pending a) (ag_microtasks a) (ag_next_handle a) (ag_next_sequence a) b (ag_rendering a).
Definition ag_take_sequence a : option (Agenda * N) :=
  next ← checked_add (ag_next_sequence a) 1;
  Some (mkAgenda (ag_now a) (ag_pending a) (ag_microtasks a) (ag_next_handle a) next (ag_checkpoint a) (ag_rendering a),
        ag_next_sequence a).
Definition ag_take_handle a : option (Agenda * N) :=
  next ← checked_add (ag_next_handle a) 1;
  Some (mkAgenda (ag_now a) (ag_pending a) (ag_microtasks a) next (ag_next_sequence a) (ag_checkpoint a) (ag_rendering a),
        ag_next_handle a).

(** The new task goes behind every task that is not due later. *)
Fixpoint schedule (t : QueuedTask T) (l : list (QueuedTask T)) : list (QueuedTask T) :=
  match l with
  | [] => [t]
  | u :: l' => if decide (before t u) then t :: l else u :: schedule t l'
  end.

Definition ag_queue a (source : TaskSource) (delay : Duration) (repeat : option Duration) (payload : T)
  : option (Agenda * N) :=
  '(a, handle) ← ag_take_handle a;
  '(a, sequence) ← ag_take_sequence a;
  Some (ag_with_pending a (schedule (mkQueued (duration_saturating_add (ag_now a) delay) sequence handle source repeat payload)
                             (ag_pending a)), handle).

Definition ag_perform (c : call T) a : option (Agenda * reply) :=
  match c with
  | Now => Some (a, ToldTime (Some (ag_now a)))
  | AdvanceTo d => Some (mkAgenda (N.max (ag_now a) d) (ag_pending a) (ag_microtasks a) (ag_next_handle a)
                           (ag_next_sequence a) (ag_checkpoint a) (ag_rendering a), Told)
  | QueueTask source delay payload => '(a, h) ← ag_queue a source delay None payload; Some (a, ToldNumber h)
  | QueueRepeating source delay interval payload =>
      '(a, h) ← ag_queue a source delay (Some (N.max interval MINIMUM_REPEAT_INTERVAL)) payload;
      Some (a, ToldNumber h)
  | Cancel h => Some (ag_with_pending a (filter (fun t => qt_handle t <> h) (ag_pending a)),
                      ToldBool (bool_decide (h ∈ qt_handle <$> ag_pending a)))
  | QueueMicrotask payload => Some (ag_with_microtasks a (ag_microtasks a ++ [payload]), Told)
  | PendingTasks => Some (a, ToldNumber (N.of_nat (length (ag_pending a))))
  | PendingMicrotasks => Some (a, ToldNumber (N.of_nat (length (ag_microtasks a))))
  | Clear => Some (ag_with_rendering (ag_with_microtasks (ag_with_pending a []) []) None, Told)
  | NextDue => Some (a, ToldTime (qt_due <$> head (ag_pending a)))
  | ScheduledFor h => Some (a, ToldTime (qt_due <$> head (filter (fun t => qt_handle t = h) (ag_pending a))))
  | RequestRender => Some (ag_with_rendering a (Some LayoutScope), ToldBool (bool_decide (ag_rendering a = None)))
  | RequestSurface => Some (ag_with_rendering a (Some (default SurfacePixels (ag_rendering a))),
                            ToldBool (bool_decide (ag_rendering a = None)))
  | RenderRequested => Some (a, ToldBool (bool_decide (is_Some (ag_rendering a))))
  | TakeRender => Some (ag_with_rendering a None, ToldScope (ag_rendering a))
  end.

(** The first task of the agenda runs when its time has come; a repeating one is
    put back, measured from now. *)
Definition ag_pop_task a : option (Agenda * option (RunnableTask T)) :=
  match ag_pending a with
  | [] => Some (a, None)
  | t :: rest =>
      if (ag_now a <? qt_due t)%N then Some (a, None)
      else
        let runnable := mkRunnable (qt_handle t) (qt_source t) (qt_due t)
                          (bool_decide (is_Some (qt_repeat_interval t))) (qt_payload t) in
        match qt_repeat_interval t with
        | None => Some (ag_with_pending a rest, Some runnable)
        | Some interval =>
            '(a, sequence) ← ag_take_sequence a;
            let again := mkQueued (duration_saturating_add (ag_now a) interval) sequence (qt_handle t) (qt_source t)
                           (qt_repeat_interval t) (qt_payload t) in
            Some (ag_with_pending a (schedule again rest), Some runnable)
        end
  end.
Definition ag_pop_microtask a : option (Agenda * T) :=
  match ag_microtasks a with [] => None | m :: l => Some (ag_with_microtasks a l, m) end.

#[export] Instance agenda_scheduling : Scheduling T Agenda := {|
  sc_perform := ag_perform;
  sc_pop_task := ag_pop_task;
  sc_pop_microtask := ag_pop_microtask;
  sc_checkpoint := ag_checkpoint;
  sc_set_checkpoint := ag_with_checkpoint
|}.

(** ** The simulation *)

(** The heap entries whose handle is still active. *)
Definition live s : list (QueuedTask T) := filter (fun t => qt_handle t ∈ active_tasks s) (tasks s).

Record tracks s a : Prop := {
  tr_now : ag_now a = now s;
  tr_microtasks : ag_microtasks a = microtasks s;
  tr_next_handle : ag_next_handle a = next_handle s;
  tr_next_sequence : ag_next_sequence a = next_sequence s;
  tr_checkpoint : ag_checkpoint a = performing_microtask_checkpoint s;
  tr_rendering : ag_rendering a = rendering s;
  tr_pending : ag_pending a ≡ₚ live s;
  tr_sorted : StronglySorted before (ag_pending a);
  tr_active : active_tasks s = list_to_set (qt_handle <$> ag_pending a);
  tr_handles : NoDup (qt_handle <$> tasks s) /\ Forall (fun t => qt_handle t < next_handle s)%N (tasks s);
  tr_sequences : NoDup (qt_sequence <$> tasks s) /\ Forall (fun t => qt_sequence t < next_sequence s)%N (tasks s)
}.

Lemma tracks_new : tracks scheduler_new agenda_new.
Proof. split; try done; try (by repeat constructor); split; constructor. Qed.

Lemma tracks_heap s a (l : list (QueuedTask T)) : tracks s a -> tasks s ≡ₚ l -> tracks (with_tasks s l (active_tasks s)) a.
Proof.
  intros [] Hp. split; try done; simpl.
  - rewrite tr_pending0. unfold live. simpl. by rewrite Hp.
  - by rewrite <- Hp.
  - by rewrite <- Hp.
Qed.

(** A cancelled entry leaves the heap. *)
Lemma tracks_drop s a t (rest : list (QueuedTask T)) :
  tracks s a -> tasks s = t :: rest -> qt_handle t ∉ active_tasks s -> tracks (with_tasks s rest (active_tasks s)) a.
Proof.
  intros [] Ht Hn. rewrite Ht in *. destruct tr_handles0 as [Hnd Hf], tr_sequences0 as [Hnd' Hf'].
  apply NoDup_cons in Hnd as [_ Hnd], Hnd' as [_ Hnd']. apply Forall_cons in Hf as [_ Hf], Hf' as [_ Hf'].
  split; try done. rewrite tr_pending0. unfold live. rewrite Ht. simpl. by rewrite filter_cons_False.
Qed.

Lemma discard_loop_spec (fuel : nat) s a (l : list (QueuedTask T)) :
  tracks (with_tasks s l (active_tasks s)) a -> length l <= fuel ->
  let l' := discard_loop fuel (active_tasks s) l in
  tracks (with_tasks s l' (active_tasks s)) a /\
  match heap_pop l' with Some (t, _) => qt_handle t ∈ active_tasks s | None => True end.
Proof.
  revert l. induction fuel as [|fuel IH]; intros l Htr Hlen; simpl.
  - destruct l; [by split|simpl in Hlen; lia].
  - pose proof (heap_pop_spec l) as Hpop. destruct (heap_pop l) as [[t rest]|] eqn:Hl; [|by rewrite Hl].
    destruct Hpop as [Hperm _]. case_bool_decide as Hact; [by rewrite Hl|]. apply IH.
    + apply tracks_heap with (l := t :: rest) in Htr; [|done]. by eapply tracks_drop in Htr.
    + rewrite Hperm in Hlen. simpl in Hlen. lia.
Qed.

Lemma discard_tracks s a : tracks s a ->
  tracks (discard_cancelled_front s) a /\
  match heap_pop (tasks (discard_cancelled_front s)) with
  | Some (t, _) => qt_handle t ∈ active_tasks s
  | None => True
  end.
Proof. intros Htr. apply (discard_loop_spec (length (tasks s)) s a (tasks s)); [by destruct s|done]. Qed.

(** Entries that are not before [t] are after it, as their sequences differ. *)
Lemma NoDup_fmap_ne {B} (f : QueuedTask T -> B) t (rest : list (QueuedTask T)) u :
  NoDup (f <$> t :: rest) -> u ∈ rest -> f t <> f u.
Proof. rewrite fmap_cons, NoDup_cons. intros [Ht _] Hu Heq. apply Ht. rewrite Heq. by apply list_elem_of_fmap_2. Qed.

(** An active entry at the front of the heap is the head of the agenda. *)
Lemma heap_front_is_head s a t (rest : list (QueuedTask T)) :
  tracks s a -> heap_pop (tasks s) = Some (t, rest) -> qt_handle t ∈ active_tasks s ->
  exists pending, ag_pending a = t :: pending /\ pending ≡ₚ filter (fun u => qt_handle u ∈ active_tasks s) rest.
Proof.
  intros Htr Hpop Hact. pose proof (heap_pop_spec (tasks s)) as Hs. rewrite Hpop in Hs. destruct Hs as [Hperm Hmin].
  apply tracks_heap with (l := t :: rest) in Htr; [|done]. destruct Htr. simpl in *.
  unfold live in tr_pending0. simpl in tr_pending0. rewrite filter_cons_True in tr_pending0 by done.
  destruct (ag_pending a) as [|h pending] eqn:Hp; [by apply Permutation_nil_l in tr_pending0|].
  assert (h = t) as ->.
  { assert (Ht : t ∈ h :: pending) by (rewrite tr_pending0; constructor).
    apply elem_of_cons in Ht as [|Ht]; [done|]. exfalso.
    apply StronglySorted_inv in tr_sorted0 as [_ Hh]. rewrite Forall_forall in Hh. specialize (Hh t Ht).
    assert (Hin : h ∈ t :: filter (fun u => qt_handle u ∈ active_tasks s) rest) by (rewrite <- tr_pending0; constructor).
    apply elem_of_cons in Hin as [->|Hin]; [by apply (before_irrefl t)|].
    apply list_elem_of_filter in Hin as [_ Hin]. rewrite Forall_forall in Hmin. by apply (Hmin h). }
  exists pending. split; [done|]. by apply Permutation_cons_inv in tr_pending0.
Qed.

Lemma schedule_perm t (l : list (QueuedTask T)) : schedule t l ≡ₚ t :: l.
Proof.
  induction l as [|u l IH]; simpl; [done|]. case_decide; [done|]. rewrite IH. apply Permutation_swap.
Qed.

Lemma schedule_sorted t (l : list (QueuedTask T)) :
  Forall (fun u => qt_sequence u < qt_sequence t)%N l -> StronglySorted before l -> StronglySorted before (schedule t l).
Proof.
  induction l as [|u l IH]; intros Hseq Hs; simpl; [by repeat constructor|].
  apply Forall_cons in Hseq as [Hu Hseq]. apply StronglySorted_inv in Hs as [Hs Hul].
  case_decide as Hb.
  - constructor; [by constructor|]. constructor; [done|]. eapply Forall_impl; [exact Hul|]. intros v Huv.
    by eapply before_trans.
  - constructor; [by apply IH|]. rewrite schedule_perm. constructor; [|done].
    apply before_total; [lia|done].
Qed.

(** Both answer alike and stay related, or both run out of numbers. *)
Definition agree {R} (x : option (EventLoopScheduler T * R)) (y : option (Agenda * R)) : Prop :=
  match x, y with
  | Some (s, r), Some (a, r') => tracks s a /\ r = r'
  | None, None => True
  | _, _ => False
  end.

Lemma live_subset s a t : tracks s a -> t ∈ ag_pending a -> t ∈ tasks s /\ qt_handle t ∈ active_tasks s.
Proof. intros [] Ht. rewrite tr_pending0 in Ht. unfold live in Ht. apply list_elem_of_filter in Ht. tauto. Qed.

Lemma pending_sequences s a : tracks s a -> Forall (fun t => qt_sequence t < next_sequence s)%N (ag_pending a).
Proof.
  intros Htr. rewrite Forall_forall. intros t Ht. destruct (live_subset _ _ _ Htr Ht) as [Hin _].
  destruct (tr_sequences _ _ Htr) as [_ Hf]. rewrite Forall_forall in Hf. by apply Hf.
Qed.

Lemma pending_handles s a : tracks s a ->
  NoDup (qt_handle <$> ag_pending a) /\ Forall (fun h => h < next_handle s)%N (qt_handle <$> ag_pending a).
Proof.
  intros []. destruct tr_handles0 as [Hnd Hf]. unfold live in *. rewrite tr_pending0. split.
  - eapply sublist_NoDup; [exact Hnd|]. apply fmap_sublist, sublist_filter.
  - rewrite Forall_fmap, Forall_forall. intros t Ht. apply list_elem_of_filter in Ht as [_ Ht].
    rewrite Forall_forall in Hf. by apply Hf.
Qed.

Lemma take_handle_agree s a : tracks s a -> agree (take_handle s) (ag_take_handle a).
Proof.
  intros []. unfold take_handle, ag_take_handle. rewrite tr_next_handle0.
  destruct (checked_add (next_handle s) 1) as [n|] eqn:Hn; simpl; [|done].
  apply checked_add_Some in Hn as [-> _]. split; [|done]. split; try done. simpl.
  destruct tr_handles0 as [Hnd Hf]. split; [done|]. eapply Forall_impl; [exact Hf|]. simpl. lia.
Qed.

Lemma take_sequence_agree s a : tracks s a -> agree (take_sequence s) (ag_take_sequence a).
Proof.
  intros []. unfold take_sequence, ag_take_sequence. rewrite tr_next_sequence0.
  destruct (checked_add (next_sequence s) 1) as [n|] eqn:Hn; simpl; [|done].
  apply checked_add_Some in Hn as [-> _]. split; [|done]. split; try done. simpl.
  destruct tr_sequences0 as [Hnd Hf]. split; [done|]. eapply Forall_impl; [exact Hf|]. simpl. lia.
Qed.

(** A live task enters the heap and the agenda. *)
Lemma tracks_add s a t (active : gset N) :
  tracks s a -> active ∪ {[qt_handle t]} = active_tasks s ∪ {[qt_handle t]} -> qt_handle t ∈ active ->
  Forall (fun u => qt_handle u <> qt_handle t) (tasks s) -> (qt_handle t < next_handle s)%N ->
  Forall (fun u => qt_sequence u < qt_sequence t)%N (tasks s) -> (qt_sequence t < next_sequence s)%N ->
  tracks (with_tasks s (t :: tasks s) active) (ag_with_pending a (schedule t (ag_pending a))).
Proof.
  intros Htr Hactive Ht Hh Hhn Hs Hsn. pose proof (live_subset s a) as Hsub.
  assert (Hpend : Forall (fun u => qt_sequence u < qt_sequence t)%N (ag_pending a)).
  { rewrite Forall_forall in Hs |- *. intros u Hu. apply Hs. by apply Hsub. }
  rewrite Forall_forall in Hh. destruct Htr. split; try done; simpl.
  - rewrite schedule_perm, tr_pending0. unfold live. simpl. rewrite filter_cons_True by done.
    f_equiv. rewrite (filter_same_on _ (fun u => qt_handle u ∈ active)); [done|]. intros u Hu.
    specialize (Hh u Hu). assert (Hu' : qt_handle u ∈ active ∪ {[qt_handle t]} <-> qt_handle u ∈ active_tasks s ∪ {[qt_handle t]}) by by rewrite Hactive.
    rewrite !elem_of_union, !elem_of_singleton in Hu'. tauto.
  - by apply schedule_sorted.
  - rewrite schedule_perm, fmap_cons, list_to_set_cons, <- tr_active0, (union_comm_L _ (active_tasks s)), <- Hactive.
    symmetry. by rewrite union_comm_L, subseteq_union_1_L by (by apply singleton_subseteq_l).
  - destruct tr_handles0 as [Hnd Hf]. split; [|by constructor]. apply NoDup_cons. split; [|done].
    intros (u & Hu & Hin)%list_elem_of_fmap. by apply (Hh u).
  - destruct tr_sequences0 as [Hnd Hf]. split; [|by constructor]. apply NoDup_cons. split; [|done].
    intros (u & Hu & Hin)%list_elem_of_fmap. rewrite Forall_forall in Hs. specialize (Hs u Hin). lia.
Qed.

Lemma queue_agree s a (source : TaskSource) (delay : Duration) (repeat : option Duration) (payload : T) :
  tracks s a -> agree (queue_task_internal s source delay repeat payload) (ag_queue a source delay repeat payload).
Proof.
  intros Htr. pose proof (take_handle_agree s a Htr) as Hh. unfold queue_task_internal, ag_queue.
  unfold take_handle, ag_take_handle in *. rewrite (tr_next_handle _ _ Htr) in *.
  destruct (checked_add (next_handle s) 1) as [n|] eqn:Hn; simpl in *; [|done].
  apply checked_add_Some in Hn as [-> _]. destruct Hh as [Hh _].
  pose proof (take_sequence_agree _ _ Hh) as Hq. unfold take_sequence, ag_take_sequence in *. simpl in *.
  rewrite (tr_next_sequence _ _ Htr) in *.
  destruct (checked_add (next_sequence s) 1) as [m|] eqn:Hm; simpl in *; [|done].
  apply checked_add_Some in Hm as [-> _]. destruct Hq as [Hq _]. split; [|done].
  rewrite (tr_now _ _ Htr) in *. destruct (tr_handles _ _ Htr) as [_ Hfh], (tr_sequences _ _ Htr) as [_ Hfs].
  apply (tracks_add _ _ _ _ Hq); simpl; [set_solver|set_solver| |lia| |lia].
  - eapply Forall_impl; [exact Hfh|]. simpl. lia.
  - eapply Forall_impl; [exact Hfs|]. simpl. lia.
Qed.

Lemma cancel_tracks s a (h : N) : tracks s a ->
  tracks (cancel s h).1 (ag_with_pending a (filter (fun t => qt_handle t <> h) (ag_pending a))) /\
  (cancel s h).2 = bool_decide (h ∈ qt_handle <$> ag_pending a).
Proof.
  intros []. split; [split; try done|]; simpl.
  - rewrite tr_pending0. unfold live. simpl. rewrite list_filter_filter.
    rewrite (filter_same_on _ (fun t => qt_handle t ∈ active_tasks s ∖ {[h]})); [done|]. intros u _.
    rewrite elem_of_difference, elem_of_singleton. tauto.
  - clear - tr_sorted0. induction tr_sorted0 as [|t l Hs IH Ht]; [constructor|]. rewrite filter_cons.
    case_decide; [|done]. constructor; [done|]. rewrite Forall_forall in Ht |- *. intros u Hu.
    apply list_elem_of_filter in Hu as [_ Hu]. by apply Ht.
  - rewrite tr_active0. clear. apply set_eq. intros k. rewrite elem_of_difference, elem_of_singleton, !elem_of_list_to_set.
    rewrite !list_elem_of_fmap. setoid_rewrite list_elem_of_filter. naive_solver.
  - rewrite tr_active0. apply bool_decide_ext. apply elem_of_list_to_set.
Qed.

(** The due time of a live handle is the due time of its only entry. *)
Lemma scheduled_for_tracks s a (h : N) : tracks s a ->
  scheduled_for s h = qt_due <$> head (filter (fun t => qt_handle t = h) (ag_pending a)).
Proof.
  intros Htr. pose proof (pending_handles _ _ Htr) as [Hnd _]. destruct Htr. unfold scheduled_for.
  case_bool_decide as Hact.
  - assert (Hp : filter (fun t => qt_handle t = h) (ag_pending a) ≡ₚ filter (fun t => qt_handle t = h) (tasks s)).
    { rewrite tr_pending0. unfold live. rewrite list_filter_filter.
      rewrite (filter_same_on _ (fun t => qt_handle t = h)); [done|]. intros u _. naive_solver. }
    destruct (filter_by_key qt_handle h (ag_pending a) Hnd) as [He|(t & Ht & _)].
    + exfalso. rewrite tr_active0, elem_of_list_to_set, list_elem_of_fmap in Hact.
      destruct Hact as (t & -> & Ht). assert (Hin : t ∈ filter (fun u => qt_handle u = qt_handle t) (ag_pending a)).
      { by apply list_elem_of_filter. } rewrite He in Hin. by apply elem_of_nil in Hin.
    + rewrite Ht in Hp |- *. symmetry in Hp. apply Permutation_singleton_r in Hp. by rewrite Hp.
  - destruct (filter _ (ag_pending a)) as [|t l] eqn:Hf; [done|]. exfalso. apply Hact.
    assert (Hin : t ∈ filter (fun t => qt_handle t = h) (ag_pending a)) by (rewrite Hf; constructor).
    apply list_elem_of_filter in Hin as [<- Hin]. rewrite tr_active0, elem_of_list_to_set. by apply list_elem_of_fmap_2.
Qed.

Lemma next_due_tracks s a : tracks s a ->
  tracks (next_due_time s).1 a /\ (next_due_time s).2 = qt_due <$> head (ag_pending a).
Proof.
  intros Htr. destruct (discard_tracks s a Htr) as [Hd Hfront]. split; [done|]. unfold next_due_time, heap_peek. cbn [snd].
  pose proof (heap_pop_spec (tasks (discard_cancelled_front s))) as Hpop.
  destruct (heap_pop (tasks (discard_cancelled_front s))) as [[t rest]|] eqn:Hp.
  - destruct (heap_front_is_head _ _ _ _ Hd Hp Hfront) as (pending & -> & _). done.
  - pose proof (tr_pending _ _ Hd) as Hpend. unfold live in Hpend. rewrite Hpop in Hpend. simpl in Hpend.
    apply Permutation_nil_r in Hpend. by rewrite Hpend.
Qed.

Lemma size_tracks s a : tracks s a -> size (active_tasks s) = length (ag_pending a).
Proof.
  intros Htr. destruct (pending_handles _ _ Htr) as [Hnd _]. rewrite (tr_active _ _ Htr).
  rewrite size_list_to_set by done. apply length_fmap.
Qed.

Lemma perform_agree (c : call T) s a : tracks s a -> agree (perform c s) (ag_perform c a).
Proof.
  intros Htr. destruct c; simpl.
  - split; [done|]. by rewrite (tr_now _ _ Htr).
  - split; [|done]. destruct Htr. split; try done. simpl. by rewrite tr_now0.
  - pose proof (queue_agree s a source delay None payload Htr) as Hq. unfold queue_task.
    destruct (queue_task_internal _ _ _ _ _) as [[s' h]|], (ag_queue _ _ _ _ _) as [[a' h']|]; try done; simpl.
    by destruct Hq as [? ->].
  - pose proof (queue_agree s a source delay (Some (N.max interval MINIMUM_REPEAT_INTERVAL)) payload Htr) as Hq.
    unfold queue_repeating_task.
    destruct (queue_task_internal _ _ _ _ _) as [[s' h]|], (ag_queue _ _ _ _ _) as [[a' h']|]; try done; simpl.
    by destruct Hq as [? ->].
  - destruct (cancel_tracks s a handle Htr) as [? Hb]. split; [done|]. by rewrite <- Hb.
  - split; [|done]. destruct Htr. split; try done. simpl. by rewrite tr_microtasks0.
  - split; [done|]. unfold pending_task_count. by rewrite (size_tracks _ _ Htr).
  - split; [done|]. unfold pending_microtask_count. by rewrite (tr_microtasks _ _ Htr).
  - split; [|done]. destruct Htr. split; try done; simpl; repeat constructor.
  - destruct (next_due_tracks s a Htr) as [? Hd]. split; [done|]. by rewrite <- Hd.
  - split; [done|]. by rewrite (scheduled_for_tracks s a handle Htr).
  - destruct Htr. unfold request_render, request_scope. simpl. split.
    + split; try done. simpl. by destruct (rendering s) as [[]|].
    + rewrite tr_rendering0. by destruct (rendering s) as [[]|].
  - destruct Htr. unfold request_surface_repaint, request_scope. simpl. split.
    + split; try done. simpl. rewrite tr_rendering0. by destruct (rendering s) as [[]|].
    + rewrite tr_rendering0. by destruct (rendering s) as [[]|].
  - split; [done|]. rewrite (tr_rendering _ _ Htr). unfold render_requested. by destruct (rendering s).
  - split; [|by rewrite (tr_rendering _ _ Htr)]. by destruct Htr.
Qed.

(** The front of the heap leaves together with its handle. *)
Lemma tracks_pop s a t (rest pending : list (QueuedTask T)) :
  tracks s a -> tasks s ≡ₚ t :: rest -> ag_pending a = t :: pending ->
  pending ≡ₚ filter (fun u => qt_handle u ∈ active_tasks s) rest ->
  tracks (with_tasks s rest (active_tasks s ∖ {[qt_handle t]})) (ag_with_pending a pending) /\
  Forall (fun u => qt_handle u <> qt_handle t) rest.
Proof.
  intros Htr Hperm Hpend Hp. pose proof (pending_handles _ _ Htr) as [Hndp _]. rewrite Hpend in Hndp.
  assert (Hne : forall u, u ∈ rest -> qt_handle u <> qt_handle t).
  { destruct (tr_handles _ _ Htr) as [Hnd _]. rewrite Hperm in Hnd. intros u Hu Heq.
    by apply (NoDup_fmap_ne _ _ _ _ Hnd Hu). }
  split; [|by apply Forall_forall]. destruct Htr. rewrite Hpend in *. rewrite Hperm in tr_handles0, tr_sequences0.
  destruct tr_handles0 as [Hnd Hf], tr_sequences0 as [Hnd' Hf'].
  apply NoDup_cons in Hnd as [_ Hnd], Hnd' as [_ Hnd']. apply Forall_cons in Hf as [_ Hf], Hf' as [_ Hf'].
  split; try done; simpl.
  - rewrite Hp. unfold live. simpl. rewrite (filter_same_on _ (fun u => qt_handle u ∈ active_tasks s ∖ {[qt_handle t]})); [done|].
    intros u Hu. specialize (Hne u Hu). rewrite elem_of_difference, elem_of_singleton. tauto.
  - by apply StronglySorted_inv in tr_sorted0 as [? _].
  - rewrite tr_active0, fmap_cons, list_to_set_cons. apply NoDup_cons in Hndp as [Hn _].
    apply set_eq. intros k. rewrite elem_of_difference, elem_of_union, elem_of_singleton, elem_of_list_to_set.
    split; [tauto|]. intros Hk. split; [by right|]. by intros ->.
Qed.

Lemma pop_task_agree s a : tracks s a -> agree (pop_runnable_task s) (ag_pop_task a).
Proof.
  intros Htr. destruct (discard_tracks s a Htr) as [Hd Hfront]. unfold pop_runnable_task, ag_pop_task.
  pose proof (heap_pop_spec (tasks (discard_cancelled_front s))) as Hpop.
  change (active_tasks s) with (active_tasks (discard_cancelled_front s)) in Hfront.
  generalize dependent (discard_cancelled_front s). intros s1 Hd Hfront Hpop.
  destruct (heap_pop (tasks s1)) as [[t rest]|] eqn:Hp.
  2:{ pose proof (tr_pending _ _ Hd) as Hpend. unfold live in Hpend. rewrite Hpop in Hpend.
      apply Permutation_nil_r in Hpend. rewrite Hpend. by split. }
  destruct (heap_front_is_head _ _ _ _ Hd Hp Hfront) as (pending & Hpend & Hrest). rewrite Hpend, (tr_now _ _ Hd).
  destruct (now s1 <? qt_due t)%N; [by split|]. destruct Hpop as [Hperm _].
  destruct (tracks_pop _ _ _ _ _ Hd Hperm Hpend Hrest) as [Hs2 Hne].
  destruct (qt_repeat_interval t) as [interval|] eqn:Hi; [|by split].
  pose proof (take_sequence_agree _ _ Hs2) as Hq. destruct (tr_sequences _ _ Hs2) as [_ Hseqs].
  unfold take_sequence, ag_take_sequence in *. simpl in *. rewrite (tr_next_sequence _ _ Hd) in *.
  destruct (checked_add (next_sequence s1) 1) as [n|] eqn:Hn; simpl in *; rewrite ?Hn; [|done].
  apply checked_add_Some in Hn as [-> _]. destruct Hq as [Hq _]. split; [|done]. rewrite (tr_now _ _ Hd) in *.
  apply (tracks_add _ _ _ (active_tasks s1) Hq); simpl; [..|lia].
  - apply set_eq. intros k. rewrite !elem_of_union, elem_of_difference, elem_of_singleton.
    destruct (decide (k = qt_handle t)); tauto.
  - done.
  - done.
  - destruct (tr_handles _ _ Hd) as [_ Hh]. rewrite Hperm in Hh. by apply Forall_cons in Hh as [? _].
  - done.
Qed.

Lemma pop_microtask_agree s a : tracks s a -> agree (pop_microtask s) (ag_pop_microtask a).
Proof.
  intros Htr. unfold pop_microtask, ag_pop_microtask. rewrite (tr_microtasks _ _ Htr).
  destruct (microtasks s); [done|]. split; [|done]. by destruct Htr.
Qed.
End agenda.
Arguments Agenda : clear implicits.

(** ** Programs cannot tell the two apart *)
Section simulation.
Context {T E : Type}.
Implicit Types (s : EventLoopScheduler T) (a : Agenda T).

(** The same answer of related schedulers, or the same stop. *)
Definition same {R} (x : outcome (R * EventLoopScheduler T)) (y : outcome (R * Agenda T)) : Prop :=
  match x, y with
  | Ran (r, s), Ran (r', a) => r = r' /\ tracks s a
  | Panicked, Panicked | OutOfFuel, OutOfFuel => True
  | _, _ => False
  end.

Definition same_executors {W} (f : executor (S := EventLoopScheduler T) (E := E) W) (g : executor (S := Agenda T) W) : Prop :=
  forall e w s a, tracks s a -> same (f e w s) (g e w a).

(** Results of three parts, with the state in the middle. *)
Definition same3 {R} (x : outcome (E * EventLoopScheduler T * R)) (y : outcome (E * Agenda T * R)) : Prop :=
  match x, y with
  | Ran (e, s, r), Ran (e', a, r') => e = e' /\ r = r' /\ tracks s a
  | Panicked, Panicked | OutOfFuel, OutOfFuel => True
  | _, _ => False
  end.

Lemma drain_same (fuel : nat) f g (e : E) s a (n : N) :
  same_executors f g -> tracks s a ->
  same3 (drain_microtasks fuel f e s n) (drain_microtasks fuel g e a n).
Proof.
  intros Hfg. revert e s a n. induction fuel as [|fuel IH]; intros e s a n Htr; [done|]. simpl.
  pose proof (pop_microtask_agree s a Htr) as Hp.
  destruct (pop_microtask s) as [[s' m]|], (ag_pop_microtask a) as [[a' m']|]; simpl in Hp; try done.
  destruct Hp as [Htr' <-]. specialize (Hfg e m _ _ Htr').
  destruct (f e m s') as [[e1 s1]| |], (g e m a') as [[e2 a2]| |]; simpl in *; try done.
  destruct Hfg as [-> Htr2]. by apply IH.
Qed.

Lemma with_checkpoint_tracks s a (b : bool) : tracks s a -> tracks (with_checkpoint s b) (ag_with_checkpoint a b).
Proof. by intros []. Qed.

Lemma checkpoint_same (fuel : nat) f g (e : E) s a :
  same_executors f g -> tracks s a ->
  same3 (perform_microtask_checkpoint fuel f e s) (perform_microtask_checkpoint fuel g e a).
Proof.
  intros Hfg Htr. unfold perform_microtask_checkpoint. simpl. rewrite (tr_checkpoint _ _ Htr).
  destruct (performing_microtask_checkpoint s); [by split_and!|].
  pose proof (drain_same fuel f g e _ _ 0 Hfg (with_checkpoint_tracks _ _ true Htr)) as Hd.
  destruct (drain_microtasks fuel f _ _ _) as [[[e1 s1] n1]| |], (drain_microtasks fuel g _ _ _) as [[[e2 a2] n2]| |];
    simpl in *; try done.
  destruct Hd as (-> & -> & Htr'). split_and!; [done|done|by apply with_checkpoint_tracks].
Qed.

Lemma run_one_same (fuel : nat) f g (e : E) s a :
  same_executors f g -> tracks s a -> same3 (run_one_task fuel f e s) (run_one_task fuel g e a).
Proof.
  intros Hfg Htr. unfold run_one_task. simpl. pose proof (pop_task_agree s a Htr) as Hp.
  destruct (pop_runnable_task s) as [[s' t]|], (ag_pop_task a) as [[a' t']|]; simpl in Hp |- *; try done.
  destruct Hp as [Htr' <-]. destruct t as [t|]; [|by split_and!].
  pose proof (Hfg e (WorkTask t) _ _ Htr') as Ht.
  destruct (f e (WorkTask t) s') as [[e1 s1]| |], (g e (WorkTask t) a') as [[e2 a2]| |]; simpl in *; try done.
  destruct Ht as [-> Htr2].
  pose proof (checkpoint_same fuel (fun e m s => f e (Microtask m) s) (fun e m a => g e (Microtask m) a) e2 s1 a2
    ltac:(intros ? ? ? ?; apply Hfg) Htr2) as Hc.
  destruct (perform_microtask_checkpoint fuel _ e2 s1) as [[[e3 s3] n3]| |],
    (perform_microtask_checkpoint fuel _ e2 a2) as [[[e4 a4] n4]| |]; simpl in *; try done.
  by destruct Hc as (-> & -> & ?).
Qed.

Lemma run_same (fuel : nat) (p : program T E) s a : tracks s a -> same (run fuel p s) (run fuel p a).
Proof.
  revert p s a. induction fuel as [|fuel IH]; intros p s a Htr; [done|]. destruct p as [e|c next|execute e next|execute e next]; simpl.
  - by split.
  - pose proof (perform_agree c s a Htr) as Hc.
    destruct (perform c s) as [[s' r]|], (ag_perform c a) as [[a' r']|]; simpl in *; try done.
    destruct Hc as [Htr' <-]. by apply IH.
  - pose proof (run_one_same fuel (fun e w s => run fuel (execute e w) s) (fun e w a => run fuel (execute e w) a) e s a
      ltac:(intros ? ? ? ?; apply IH) Htr) as Hr.
    destruct (run_one_task fuel _ e s) as [[[e1 s1] r1]| |], (run_one_task fuel _ e a) as [[[e2 a2] r2]| |];
      simpl in *; try done.
    destruct Hr as (-> & -> & Htr'). by apply IH.
  - pose proof (checkpoint_same fuel (fun e w s => run fuel (execute e w) s) (fun e w a => run fuel (execute e w) a) e s a
      ltac:(intros ? ? ? ?; apply IH) Htr) as Hr.
    destruct (perform_microtask_checkpoint fuel _ e s) as [[[e1 s1] r1]| |],
      (perform_microtask_checkpoint fuel _ e a) as [[[e2 a2] r2]| |]; simpl in *; try done.
    destruct Hr as (-> & -> & Htr'). by apply IH.
Qed.
End simulation.

(** ** What the scheduler promises *)
Section promises.
Context {T : Type}.
Implicit Types (s : EventLoopScheduler T) (a : Agenda T) (t : QueuedTask T).

(** Some embedder can bring a new scheduler to [s]. *)
Definition reachable s : Prop :=
  exists (E : Type) (fuel : nat) (p : program T E) (e : E), run fuel p scheduler_new = Ran (e, s).

Lemma reachable_tracks s : reachable s -> exists a, tracks s a.
Proof.
  intros (E & fuel & p & e & Hr). pose proof (run_same fuel p _ _ (@tracks_new T)) as Hs. rewrite Hr in Hs.
  destruct (run fuel p agenda_new) as [[e' a]| |]; simpl in Hs; try done. exists a. by destruct Hs.
Qed.

Definition as_runnable t : RunnableTask T :=
  mkRunnable (qt_handle t) (qt_source t) (qt_due t) (bool_decide (is_Some (qt_repeat_interval t))) (qt_payload t).

(** ** Order *)
Lemma sorted_head_first t (l : list (QueuedTask T)) u :
  StronglySorted before (t :: l) -> u ∈ t :: l -> u = t \/ before t u.
Proof.
  intros [_ Hl]%StronglySorted_inv Hu. apply elem_of_cons in Hu as [->|Hu]; [by left|right].
  rewrite Forall_forall in Hl. by apply Hl.
Qed.

(** What is queued again for [t]: a repeating task, measured from now. *)
Definition requeued s t : list (QueuedTask T) :=
  match qt_repeat_interval t with
  | Some interval => [mkQueued (duration_saturating_add (now s) interval) (next_sequence s) (qt_handle t)
                        (qt_source t) (Some interval) (qt_payload t)]
  | None => []
  end.

(** What taking a task from [s] may come to. *)
Definition takes_first s : Prop :=
  match pop_runnable_task s with
  | Some (s', Some r) => exists t, r = as_runnable t /\ t ∈ live s /\ (qt_due t <= now s)%N /\
      (forall u, u ∈ live s -> u = t \/ before t u) /\
      now s' = now s /\ t :: live s' ≡ₚ requeued s t ++ live s
  | Some (s', None) => (forall u, u ∈ live s -> (now s < qt_due u)%N) /\ now s' = now s /\ live s' ≡ₚ live s
  | None => (u64_max <= next_sequence s)%N
  end.

Lemma tracks_takes_first s a : tracks s a -> takes_first s.
Proof.
  intros Htr. pose proof (pop_task_agree s a Htr) as Hp. unfold takes_first. unfold ag_pop_task in Hp.
  pose proof (tr_sorted _ _ Htr) as Hsorted. pose proof (tr_pending _ _ Htr) as Hpend.
  assert (Hlive : forall u, u ∈ live s <-> u ∈ ag_pending a) by (intros u; by rewrite Hpend).
  assert (Hafter : forall s' a', tracks s' a' -> ag_now a' = ag_now a ->
    now s' = now s /\ live s' ≡ₚ ag_pending a').
  { intros s' a' Htr' Hn. rewrite <- (tr_now _ _ Htr), <- Hn, (tr_now _ _ Htr'). split; [done|].
    by rewrite (tr_pending _ _ Htr'). }
  rewrite (tr_now _ _ Htr) in Hp. destruct (ag_pending a) as [|t rest] eqn:Hag.
  { destruct (pop_runnable_task s) as [[s' r]|]; simpl in Hp; [|done]. destruct Hp as [Htr' ->].
    split; [by intros u Hu%Hlive%elem_of_nil|]. destruct (Hafter _ _ Htr' eq_refl) as [-> Hl].
    split; [done|]. by rewrite Hl, Hag, Hpend. }
  destruct (N.ltb_spec (now s) (qt_due t)) as [Hlt|Hle].
  { destruct (pop_runnable_task s) as [[s' r]|]; simpl in Hp; [|done]. destruct Hp as [Htr' ->].
    split; [|by destruct (Hafter _ _ Htr' eq_refl) as [-> Hl]; rewrite Hl, Hag, Hpend].
    intros u Hu%Hlive. destruct (sorted_head_first _ _ _ Hsorted Hu) as [->|Hb]; [done|]. unfold before in Hb. lia. }
  assert (Hfirst : t ∈ live s /\ (qt_due t <= now s)%N /\ (forall u, u ∈ live s -> u = t \/ before t u)).
  { split_and!; [apply Hlive; constructor|done|]. intros u Hu%Hlive. by apply sorted_head_first with rest. }
  unfold requeued. unfold ag_take_sequence, checked_add in Hp. rewrite (tr_next_sequence _ _ Htr) in Hp.
  destruct (qt_repeat_interval t) as [interval|] eqn:Hi.
  - destruct (N.leb_spec (next_sequence s + 1) u64_max) as [Hok|Hover];
      destruct (pop_runnable_task s) as [[s' r]|]; simpl in Hp; try done; [destruct Hp as [Htr' ->]|lia].
    destruct (Hafter _ _ Htr' eq_refl) as [-> Hl]. exists t. unfold as_runnable. rewrite Hi.
    split_and!; try apply Hfirst; try done. rewrite Hl. simpl. rewrite schedule_perm, <- Hpend.
    rewrite (tr_now _ _ Htr). apply Permutation_swap.
  - destruct (pop_runnable_task s) as [[s' r]|]; simpl in Hp; [|done]. destruct Hp as [Htr' ->].
    destruct (Hafter _ _ Htr' eq_refl) as [-> Hl]. exists t. unfold as_runnable. rewrite Hi.
    split_and!; try apply Hfirst; try done. by rewrite Hl, <- Hpend.
Qed.

(** Tasks run in order: from any state an embedder can reach, the next task
    is a live one whose time has come, and every other live task is due later or,
    at the same time, was queued later, whatever its source. Taking it leaves the
    other live tasks as they were, and puts a repeating one back under its handle,
    due one interval from now, after every task queued so far. None is given out
    while no live task is due; cancelled tasks never run, and the count of
    pending tasks is exact. It panics only when 2^64 tasks have been queued. *)
Theorem tasks_run_in_order s :
  reachable s -> takes_first s /\ pending_task_count s = N.of_nat (length (live s)).
Proof.
  intros (a & Htr)%reachable_tracks. split; [by eapply tracks_takes_first|].
  unfold pending_task_count. by rewrite (size_tracks _ _ Htr), (tr_pending _ _ Htr).
Qed.

(** ** Checkpoints *)
Definition keeps_flag {R} (s : EventLoopScheduler T) (x : outcome (R * EventLoopScheduler T)) : Prop :=
  match x with
  | Ran (_, s') => performing_microtask_checkpoint s' = performing_microtask_checkpoint s
  | _ => True
  end.

Lemma perform_keeps_flag (c : call T) s :
  match perform c s with
  | Some (s', _) => performing_microtask_checkpoint s' = performing_microtask_checkpoint s
  | None => True
  end.
Proof.
  destruct c; simpl; try done; unfold queue_task, queue_repeating_task, queue_task_internal, take_handle, take_sequence.
  all: destruct (checked_add (next_handle s) 1); simpl; [|done]; by destruct (checked_add (next_sequence s) 1).
Qed.

Lemma pop_task_keeps_flag s :
  match pop_runnable_task s with
  | Some (s', _) => performing_microtask_checkpoint s' = performing_microtask_checkpoint s
  | None => True
  end.
Proof.
  unfold pop_runnable_task. destruct (heap_pop _) as [[t rest]|]; [|done].
  destruct (_ <? _)%N; [done|]. destruct (qt_repeat_interval t); [|done].
  unfold take_sequence. simpl. by destruct (checked_add _ _).
Qed.

Definition flag_executor {E W} (f : executor (S := EventLoopScheduler T) (E := E) W) : Prop :=
  forall e w s, keeps_flag s (f e w s).

(** When the loop ends nothing is queued, and what ran did not touch the flag. *)
Lemma drain_ends {E} (fuel : nat) (f : executor (E := E) T) (e : E) s (n : N) :
  flag_executor f ->
  match drain_microtasks fuel f e s n with
  | Ran (_, s', _) => microtasks s' = [] /\ performing_microtask_checkpoint s' = performing_microtask_checkpoint s
  | _ => True
  end.
Proof.
  intros Hf. revert e s n. induction fuel as [|fuel IH]; intros e s n; [done|]. simpl. unfold pop_microtask.
  destruct (microtasks s) as [|m l] eqn:Hm; [done|].
  specialize (Hf e m (with_microtasks s l)). destruct (f e m _) as [[e' s']| |]; simpl in *; try done.
  specialize (IH e' s' (n + 1)%N). destruct (drain_microtasks fuel f e' s' (n + 1)) as [[[? ?] ?]| |]; try done.
  by rewrite Hf in IH.
Qed.

(** A checkpoint that runs leaves no microtask; one inside another does nothing. *)
Definition checkpoint_done {R} s (x : outcome (R * EventLoopScheduler T * N)) : Prop :=
  match x with
  | Ran (_, s', n) => performing_microtask_checkpoint s' = performing_microtask_checkpoint s /\
      if performing_microtask_checkpoint s then s' = s /\ n = 0%N else microtasks s' = []
  | _ => True
  end.

Lemma checkpoint_ends {E} (fuel : nat) (f : executor (E := E) T) (e : E) s :
  flag_executor f -> checkpoint_done s (perform_microtask_checkpoint fuel f e s).
Proof.
  intros Hf. unfold perform_microtask_checkpoint, checkpoint_done. simpl.
  destruct (performing_microtask_checkpoint s) eqn:Hflag; [done|].
  pose proof (drain_ends fuel f e (with_checkpoint s true) 0 Hf) as Hd.
  destruct (drain_microtasks _ _ _ _ _) as [[[e' s'] n]| |]; simpl in *; [|done|done]. by destruct Hd.
Qed.

Lemma run_one_keeps_flag {E} (fuel : nat) (f : executor (E := E) (ScheduledWork T)) (e : E) s :
  flag_executor f ->
  match run_one_task fuel f e s with
  | Ran (_, s', summary) => performing_microtask_checkpoint s' = performing_microtask_checkpoint s /\
      (is_Some summary -> performing_microtask_checkpoint s = false -> microtasks s' = [])
  | _ => True
  end.
Proof.
  intros Hf. unfold run_one_task. simpl. pose proof (pop_task_keeps_flag s) as Hp.
  destruct (pop_runnable_task s) as [[s1 [t|]]|]; simpl; [|by split; [|intros [? [=]]]|done].
  specialize (Hf e (WorkTask t) s1) as He. destruct (f e (WorkTask t) s1) as [[e2 s2]| |]; simpl in *; try done.
  pose proof (checkpoint_ends fuel (fun e m s => f e (Microtask m) s) e2 s2 ltac:(intros ? ? ?; apply Hf)) as Hc.
  destruct (perform_microtask_checkpoint _ _ _ _) as [[[e3 s3] n]| |]; simpl in *; try done.
  destruct Hc as [Hflag Hc]. rewrite He, Hp in *. split; [done|]. intros _ Hs. by rewrite Hs in Hc.
Qed.

Lemma run_keeps_flag {E} (fuel : nat) (p : program T E) s : keeps_flag s (run fuel p s).
Proof.
  revert p s. induction fuel as [|fuel IH]; intros p s; [done|].
  assert (Hx : forall W (execute : E -> W -> program T E), flag_executor (fun e w s => run fuel (execute e w) s)).
  { intros W execute e w s'. apply IH. }
  destruct p as [e|c next|execute e next|execute e next]; simpl; [done| | |].
  - pose proof (perform_keeps_flag c s) as Hc. destruct (perform c s) as [[s' r]|]; simpl; [|done].
    specialize (IH (next r) s'). unfold keeps_flag in *. by rewrite Hc in IH.
  - pose proof (run_one_keeps_flag fuel _ e s (Hx _ execute)) as Hr.
    destruct (run_one_task _ _ _ _) as [[[e' s'] summary]| |]; simpl in *; try done. destruct Hr as [Hr _].
    specialize (IH (next e' summary) s'). unfold keeps_flag in *. by rewrite Hr in IH.
  - pose proof (checkpoint_ends fuel _ e s (Hx _ execute)) as Hr.
    destruct (perform_microtask_checkpoint _ _ _ _) as [[[e' s'] n]| |]; simpl in *; try done. destruct Hr as [Hr _].
    specialize (IH (next e' n) s'). unfold keeps_flag in *. by rewrite Hr in IH.
Qed.

(** Every task is followed by a whole microtask checkpoint: whatever the
    task and the microtasks do, nested runs and checkpoints included, when a task
    that was not itself inside a checkpoint has run, no microtask is left and the
    scheduler is out of its checkpoint. *)
Theorem task_ends_with_empty_checkpoint {E} (fuel : nat) (execute : E -> ScheduledWork T -> program T E) (e e' : E)
    s s' (summary : RunSummary) :
  performing_microtask_checkpoint s = false ->
  run_one_task fuel (fun e w s => run fuel (execute e w) s) e s = Ran (e', s', Some summary) ->
  microtasks s' = [] /\ performing_microtask_checkpoint s' = false.
Proof.
  intros Hflag Hr. pose proof (run_one_keeps_flag fuel (fun e w s => run fuel (execute e w) s) e s) as Hk.
  rewrite Hr in Hk. rewrite <- Hflag. destruct Hk as [Hf Hm]; [intros ? ? ?; apply run_keeps_flag|].
  split; [by apply Hm|done].
Qed.

(** ** Nothing ready is left behind *)

(** Takes tasks until none is ready. *)
Fixpoint take_ready {S} `{!Scheduling T S} (fuel : nat) (s : S) : option (S * list (RunnableTask T)) :=
  match fuel with
  | O => None
  | Datatypes.S fuel =>
      '(s, task) ← sc_pop_task s;
      match task with
      | None => Some (s, [])
      | Some task => '(s, l) ← take_ready fuel s; Some (s, task :: l)
      end
  end.

Lemma take_ready_agree (fuel : nat) s a : tracks s a -> agree (take_ready fuel s) (take_ready fuel a).
Proof.
  revert s a. induction fuel as [|fuel IH]; intros s a Htr; [done|]. simpl.
  pose proof (pop_task_agree s a Htr) as Hp.
  destruct (pop_runnable_task s) as [[s' t]|], (ag_pop_task a) as [[a' t']|]; simpl in *; try done.
  destruct Hp as [Htr' <-]. destruct t as [t|]; [|done]. specialize (IH s' a' Htr').
  destruct (take_ready fuel s') as [[s2 l]|], (take_ready fuel a') as [[a2 l']|]; simpl in *; try done.
  by destruct IH as [? ->].
Qed.

Lemma schedule_behind (again : QueuedTask T) (ready later : list (QueuedTask T)) (n : N) :
  Forall (fun t => qt_due t <= n)%N ready -> (n < qt_due again)%N ->
  schedule again (ready ++ later) = ready ++ schedule again later.
Proof.
  intros Hr Hn. induction Hr as [|t ready Ht _ IH]; [done|]. simpl. rewrite decide_False; [by rewrite IH|].
  unfold before. lia.
Qed.

Lemma schedule_later (again : QueuedTask T) (later : list (QueuedTask T)) (n : N) :
  Forall (fun t => n < qt_due t)%N later -> (n < qt_due again)%N -> Forall (fun t => n < qt_due t)%N (schedule again later).
Proof. intros Hl Hn. rewrite schedule_perm. by constructor. Qed.

Definition repeats_forward t : Prop := from_option (fun i => 0 < i)%N True (qt_repeat_interval t).

Lemma agenda_takes_ready (ready : list (QueuedTask T)) : forall a (later : list (QueuedTask T)),
  ag_pending a = ready ++ later -> Forall (fun t => qt_due t <= ag_now a)%N ready ->
  Forall (fun t => ag_now a < qt_due t)%N later -> Forall repeats_forward ready ->
  (ag_now a < DURATION_MAX)%N -> (ag_next_sequence a + N.of_nat (length ready) <= u64_max)%N ->
  exists a', take_ready (Datatypes.S (length ready)) a = Some (a', as_runnable <$> ready).
Proof.
  induction ready as [|t ready IH]; intros a later Hp Hr Hl Hf Hnow Hseq.
  - simpl. unfold ag_pop_task. rewrite Hp. destruct later as [|u later]; simpl; [by eexists|].
    apply Forall_cons in Hl as [Hu _]. destruct (N.ltb_spec (ag_now a) (qt_due u)); [by eexists|lia].
  - apply Forall_cons in Hr as [Ht Hr], Hf as [Hft Hf].
    assert (Hpop : exists a2 later2, ag_pop_task a = Some (a2, Some (as_runnable t)) /\
      ag_pending a2 = ready ++ later2 /\ Forall (fun t => ag_now a < qt_due t)%N later2 /\ ag_now a2 = ag_now a /\
      (ag_next_sequence a2 <= ag_next_sequence a + 1)%N).
    { unfold ag_pop_task, as_runnable. rewrite Hp. simpl. destruct (N.ltb_spec (ag_now a) (qt_due t)); [lia|].
      unfold repeats_forward in Hft. destruct (qt_repeat_interval t) as [interval|] eqn:Hi.
      - simpl in Hft. assert (Hc : checked_add (ag_next_sequence a) 1 = Some (ag_next_sequence a + 1)%N).
        { apply checked_add_Some. split; [done|]. cbn [length] in Hseq. rewrite Nat2N.inj_succ in Hseq. lia. }
        unfold ag_take_sequence. rewrite Hc. simpl. eexists _, _. split; [reflexivity|]. simpl.
        assert (Hdue : (ag_now a < duration_saturating_add (ag_now a) interval)%N).
        { unfold duration_saturating_add. apply N.min_glb_lt; [|done]. apply N.lt_add_pos_r. exact Hft. }
        split_and!; [by eapply schedule_behind|by apply schedule_later|done|apply N.le_refl].
      - eexists _, _. split; [reflexivity|]. simpl. split_and!; [done|done|done|].
        apply N.le_add_r. }
    destruct Hpop as (a2 & later2 & Hpop & Hp2 & Hl2 & Hn2 & Hs2).
    destruct (IH a2 later2) as (a' & Ha'); [done|by rewrite Hn2|by rewrite Hn2|done|by rewrite Hn2| |].
    + cbn [length] in Hseq. rewrite Nat2N.inj_succ in Hseq. eapply N.le_trans; [|exact Hseq].
      rewrite <- N.add_1_l, N.add_assoc. by apply N.add_le_mono_r.
    + exists a'. change (take_ready (Datatypes.S (length (t :: ready))) a) with
        ('(s, task) ← ag_pop_task a;
         match task with
         | None => Some (s, [])
         | Some task => '(s, l) ← take_ready (Datatypes.S (length ready)) s; Some (s, task :: l)
         end). rewrite Hpop. cbn [mbind option_bind]. by rewrite Ha'.
Qed.

(** Sorted by due time: the ready tasks are a prefix. *)
Lemma sorted_split (l : list (QueuedTask T)) (n : N) :
  StronglySorted before l -> exists ready later, l = ready ++ later /\ StronglySorted before ready /\
    Forall (fun t => qt_due t <= n)%N ready /\ Forall (fun t => n < qt_due t)%N later.
Proof.
  induction 1 as [|t l Hs IH Ht]; [exists [], []; split_and!; constructor|].
  destruct (N.leb_spec (qt_due t) n) as [Hle|Hlt].
  - destruct IH as (ready & later & -> & Hsr & Hr & Hl). exists (t :: ready), later.
    apply Forall_app in Ht as [Ht _]. split; [done|]. split; [by apply SSorted_cons|]. split; [by apply Forall_cons|done].
  - exists [], (t :: l). split; [done|]. split; [apply SSorted_nil|]. split; [done|]. apply Forall_cons. split; [done|].
    eapply Forall_impl; [exact Ht|]. intros u Hu. unfold before in Hu. lia.
Qed.

(** A property the operations keep is kept by every embedder. *)
Section preserves.
Context {E : Type} (P : EventLoopScheduler T -> Prop).
Hypothesis perform_P : forall c s s' r, P s -> perform c s = Some (s', r) -> P s'.
Hypothesis pop_task_P : forall s s' x, P s -> pop_runnable_task s = Some (s', x) -> P s'.
Hypothesis pop_microtask_P : forall s s' m, P s -> pop_microtask s = Some (s', m) -> P s'.
Hypothesis checkpoint_P : forall s b, P s -> P (with_checkpoint s b).

Definition keeps_P {W} (f : executor (S := EventLoopScheduler T) (E := E) W) : Prop :=
  forall e w s e' s', P s -> f e w s = Ran (e', s') -> P s'.

Lemma drain_preserves (fuel : nat) f (e e' : E) s s' (n n' : N) :
  keeps_P f -> P s -> drain_microtasks fuel f e s n = Ran (e', s', n') -> P s'.
Proof.
  intros Hf. revert e s n. induction fuel as [|fuel IH]; intros e s n Hs; [done|]. simpl.
  destruct (pop_microtask s) as [[s1 m]|] eqn:Hp; [|by intros [= _ <- _]].
  destruct (f e m s1) as [[e2 s2]| |] eqn:Hfe; simpl; try done. apply IH. eauto.
Qed.

Lemma checkpoint_preserves (fuel : nat) f (e e' : E) s s' (n : N) :
  keeps_P f -> P s -> perform_microtask_checkpoint fuel f e s = Ran (e', s', n) -> P s'.
Proof.
  intros Hf Hs. unfold perform_microtask_checkpoint. simpl.
  destruct (performing_microtask_checkpoint s); [by intros [= _ <- _]|].
  destruct (drain_microtasks _ _ _ _ _) as [[[e1 s1] n1]| |] eqn:Hd; simpl; try done. intros [= _ <- _].
  apply checkpoint_P. eapply drain_preserves; [exact Hf| |exact Hd]. by apply checkpoint_P.
Qed.

Lemma run_one_preserves (fuel : nat) f (e e' : E) s s' (summary : option RunSummary) :
  keeps_P f -> P s -> run_one_task fuel f e s = Ran (e', s', summary) -> P s'.
Proof.
  intros Hf Hs. unfold run_one_task. simpl. destruct (pop_runnable_task s) as [[s1 [t|]]|] eqn:Hp; simpl; try done.
  2:{ intros [= _ <- _]. eauto. }
  destruct (f e (WorkTask t) s1) as [[e2 s2]| |] eqn:Hfe; simpl; try done.
  destruct (perform_microtask_checkpoint _ _ _ _) as [[[e3 s3] n]| |] eqn:Hc; simpl; try done. intros [= _ <- _].
  refine (checkpoint_preserves fuel (fun e m s => f e (Microtask m) s) e2 e3 s2 s3 n _ _ Hc); [|eauto].
  intros ? ? ? ? ? ?. by apply Hf.
Qed.

Lemma run_preserves (fuel : nat) : forall (p : program T E) s e s', P s -> run fuel p s = Ran (e, s') -> P s'.
Proof.
  induction fuel as [|fuel IH]; intros p s e1 s1 Hs; [done|].
  assert (Hx : forall W (execute : E -> W -> program T E), keeps_P (fun e w s => run fuel (execute e w) s)).
  { intros W execute e w s2 e2 s3. apply IH. }
  destruct p as [e|c next|execute e next|execute e next]; simpl.
  - by intros [= _ <-].
  - destruct (perform c s) as [[s2 r]|] eqn:Hc; simpl; [|done]. apply IH. by eapply perform_P.
  - destruct (run_one_task _ _ _ _) as [[[e2 s2] summary]| |] eqn:Hr; simpl; try done. apply IH.
    eapply run_one_preserves; [apply Hx|exact Hs|exact Hr].
  - destruct (perform_microtask_checkpoint _ _ _ _) as [[[e2 s2] n]| |] eqn:Hr; simpl; try done. apply IH.
    eapply checkpoint_preserves; [apply Hx|exact Hs|exact Hr].
Qed.
End preserves.

Definition repeats_ok s : Prop := Forall repeats_forward (tasks s).

Lemma heap_pop_repeats (l rest : list (QueuedTask T)) t :
  Forall repeats_forward l -> heap_pop l = Some (t, rest) -> repeats_forward t /\ Forall repeats_forward rest.
Proof.
  intros Hl Hp. pose proof (heap_pop_spec l) as Hs. rewrite Hp in Hs. destruct Hs as [Hperm _].
  rewrite Hperm in Hl. by apply Forall_cons in Hl.
Qed.

Lemma discard_repeats (fuel : nat) (active : gset N) (l : list (QueuedTask T)) :
  Forall repeats_forward l -> Forall repeats_forward (discard_loop fuel active l).
Proof.
  revert l. induction fuel as [|fuel IH]; intros l Hl; simpl; [done|].
  destruct (heap_pop l) as [[t rest]|] eqn:Hp; [|done]. case_bool_decide; [done|]. apply IH.
  by eapply heap_pop_repeats.
Qed.

Lemma queue_repeats s s' (source : TaskSource) (delay : Duration) (repeat : option Duration) (payload : T) (h : N) :
  repeats_ok s -> from_option (fun i => 0 < i)%N True repeat ->
  queue_task_internal s source delay repeat payload = Some (s', h) -> repeats_ok s'.
Proof.
  intros Hs Hr. unfold queue_task_internal, take_handle. destruct (checked_add _ _); simpl; [|done].
  unfold take_sequence. destruct (checked_add _ _); simpl; [|done]. intros [= <- _]. by apply Forall_cons.
Qed.

Lemma perform_repeats (c : call T) s s' (r : reply) : repeats_ok s -> perform c s = Some (s', r) -> repeats_ok s'.
Proof.
  intros Hs. destruct c; simpl; try (by intros [= <- _]).
  - unfold queue_task. destruct (queue_task_internal _ _ _ _ _) as [[s2 h]|] eqn:Hq; simpl; [|done].
    intros [= <- _]. by eapply queue_repeats in Hq.
  - unfold queue_repeating_task. destruct (queue_task_internal _ _ _ _ _) as [[s2 h]|] eqn:Hq; simpl; [|done].
    intros [= <- _]. eapply queue_repeats in Hq; [done|done|]. simpl. unfold MINIMUM_REPEAT_INTERVAL. lia.
  - intros [= <- _]. constructor.
  - intros [= <- _]. by apply discard_repeats.
Qed.

Lemma pop_task_repeats s s' x : repeats_ok s -> pop_runnable_task s = Some (s', x) -> repeats_ok s'.
Proof.
  intros Hs. unfold pop_runnable_task. pose proof (discard_repeats (length (tasks s)) (active_tasks s) _ Hs) as Hd.
  destruct (heap_pop _) as [[t rest]|] eqn:Hp; [|by intros [= <- _]].
  destruct (heap_pop_repeats _ _ _ Hd Hp) as [Ht Hrest]. destruct (_ <? _)%N; [by intros [= <- _]|].
  unfold repeats_forward in Ht. destruct (qt_repeat_interval t) as [interval|] eqn:Hi; [|by intros [= <- _]].
  unfold take_sequence. destruct (checked_add _ _); simpl; [|done]. intros [= <- _]. by apply Forall_cons.
Qed.

Lemma reachable_repeats s : reachable s -> repeats_ok s.
Proof.
  intros (E & fuel & p & e & Hr).
  refine (run_preserves repeats_ok perform_repeats pop_task_repeats _ _ fuel p _ e s _ Hr).
  - intros s1 s2 m Hs. unfold pop_microtask. destruct (microtasks s1); [done|]. by intros [= <- _].
  - done.
  - constructor.
Qed.

(** C22. No task starves and no loop spins: taking tasks at a fixed time, until
    none is ready, gives exactly the live tasks that are due, each once and in
    order, and comes to an end, however short the intervals of repeating tasks
    are: they are put back behind the current time. *)
Theorem ready_tasks_all_run s :
  reachable s -> (now s < DURATION_MAX)%N ->
  (next_sequence s + N.of_nat (length (live s)) <= u64_max)%N ->
  exists ready s', ready ≡ₚ filter (fun t => qt_due t <= now s)%N (live s) /\ StronglySorted before ready /\
    take_ready (Datatypes.S (length ready)) s = Some (s', as_runnable <$> ready).
Proof.
  intros Hreach Hnow Hseq. pose proof (reachable_repeats s Hreach) as Hrep.
  destruct (reachable_tracks s Hreach) as (a & Htr).
  destruct (sorted_split (ag_pending a) (now s) (tr_sorted _ _ Htr)) as (ready & later & Hp & Hsr & Hr & Hl).
  assert (Hperm : ready ≡ₚ filter (fun t => qt_due t <= now s)%N (live s)).
  { rewrite <- (tr_pending _ _ Htr), Hp, filter_app, filter_true_on, filter_false_on, app_nil_r; [done|..].
    - intros u Hu. rewrite Forall_forall in Hl. specialize (Hl u Hu). lia.
    - intros u Hu. rewrite Forall_forall in Hr. exact (Hr u Hu). }
  destruct (agenda_takes_ready ready a later Hp) as (a' & Ha').
  - by rewrite (tr_now _ _ Htr).
  - by rewrite (tr_now _ _ Htr).
  - rewrite Forall_forall. intros t Ht. unfold repeats_ok in Hrep. rewrite Forall_forall in Hrep. apply Hrep.
    apply (live_subset _ _ _ Htr). rewrite Hp. apply elem_of_app. by left.
  - by rewrite (tr_now _ _ Htr).
  - rewrite (tr_next_sequence _ _ Htr). eapply N.le_trans; [|exact Hseq]. apply N.add_le_mono_l.
    rewrite <- (tr_pending _ _ Htr), Hp, length_app. clear. lia.
  - pose proof (take_ready_agree (Datatypes.S (length ready)) s a Htr) as Hagree. rewrite Ha' in Hagree.
    destruct (take_ready _ s) as [[s' l]|] eqn:Hs; simpl in Hagree; [|done]. destruct Hagree as [_ ->].
    exists ready, s'. split; [exact Hperm|]. split; [exact Hsr|]. exact Hs.
Qed.

(** Two runs tell an embedder the same. *)
Definition same_answer {E R1 R2} (x : outcome (E * R1)) (y : outcome (E * R2)) : Prop :=
  match x, y with
  | Ran (e, _), Ran (e', _) => e = e'
  | Panicked, Panicked | OutOfFuel, OutOfFuel => True
  | _, _ => False
  end.

(** C21. The scheduler implements its abstract specification: no embedder,
    whatever it calls, in whatever order, from inside tasks and microtasks too,
    can tell the heap with its cancelled leftovers from an agenda that holds just
    the live tasks in the order they will run. *)
Theorem scheduler_refines_agenda {E} (fuel : nat) (p : program T E) :
  same_answer (run fuel p scheduler_new) (run fuel p agenda_new).
Proof.
  pose proof (run_same fuel p _ _ (@tracks_new T)) as Hs. unfold same_answer.
  destruct (run fuel p scheduler_new) as [[e s]| |], (run fuel p agenda_new) as [[e' a]| |]; simpl in Hs; try done.
  by destruct Hs.
Qed.
End promises.

(** ** Runs (the unit tests of src/engine/scheduler/tests.rs) *)

(** Records what runs; "first" queues a microtask, which queues another. *)
Definition recorder (observed : list string) (w : ScheduledWork string) : program string (list string) :=
  match w with
  | WorkTask t =>
      if String.eqb (rt_payload t) "first" then Ask (QueueMicrotask "micro") (fun _ => Done (observed ++ [rt_payload t]))
      else Done (observed ++ [rt_payload t])
  | Microtask m =>
      if String.eqb m "micro" then Ask (QueueMicrotask "nested") (fun _ => Done (observed ++ [m]))
      else Done (observed ++ [m])
  end.
Fixpoint run_times (n : nat) (observed : list string) : program string (list string) :=
  match n with
  | O => Done observed
  | Datatypes.S n => RunOne recorder observed (fun observed _ => run_times n observed)
  end.
(** One task is cancelled, two share a due time, one repeats every 10. *)
Definition demo_tasks (next : program string (list string)) : program string (list string) :=
  Ask (QueueTask Timer 5 "cancelled") (fun h =>
  Ask (QueueTask Networking 10 "first") (fun _ =>
  Ask (QueueRepeating Timer 5 10 "repeat") (fun _ =>
  Ask (QueueTask Lifecycle 10 "second") (fun _ =>
  Ask (Cancel (match h with ToldNumber n => n | _ => 0%N end)) (fun _ =>
  Ask (AdvanceTo 10) (fun _ => next)))))).

Definition observed_by {S} (x : outcome (list string * S)) : list string :=
  match x with Ran (l, _) => l | _ => [] end.

Example demo_run :
  observed_by (run 50 (demo_tasks (run_times 5 [])) scheduler_new) = ["repeat"; "first"; "micro"; "nested"; "second"] /\
  observed_by (run 50 (demo_tasks (Ask (AdvanceTo 30) (fun _ => run_times 9 []))) scheduler_new)
    = ["repeat"; "first"; "micro"; "nested"; "second"].
Proof. split; vm_compute; reflexivity. Qed.

Definition demo_scheduler : EventLoopScheduler string :=
  match run 50 (demo_tasks (Done [])) scheduler_new with Ran (_, s) => s | _ => scheduler_new end.

Lemma demo_reachable : reachable demo_scheduler.
Proof. exists (list string), 50%nat, (demo_tasks (Done [])), []. vm_compute. reflexivity. Qed.

Lemma tasks_run_in_order_witness :
  length (tasks demo_scheduler) = 4 /\ length (live demo_scheduler) = 3 /\ takes_first demo_scheduler.
Proof.
  split; [vm_compute; reflexivity|]. split; [vm_compute; reflexivity|].
  exact (proj1 (tasks_run_in_order demo_scheduler demo_reachable)).
Defined.

Lemma demo_not_performing : performing_microtask_checkpoint demo_scheduler = false.
Proof. vm_compute. reflexivity. Qed.

Definition ran_summary {A S} (x : outcome (A * S * option RunSummary)) : bool :=
  match x with Ran (_, _, Some _) => true | _ => false end.

Lemma ran_summary_inv {A S} (x : outcome (A * S * option RunSummary)) :
  ran_summary x = true -> exists e s summary, x = Ran (e, s, Some summary).
Proof. destruct x as [[[e s] [summary|]]| |]; try done. eauto. Qed.

Lemma demo_task_runs : exists e s' summary,
  run_one_task 20 (fun e w s => run 20 (recorder e w) s) [] demo_scheduler = Ran (e, s', Some summary).
Proof. apply ran_summary_inv. vm_compute. reflexivity. Qed.

Lemma task_ends_with_empty_checkpoint_witness :
  exists e s' summary,
    run_one_task 20 (fun e w s => run 20 (recorder e w) s) [] demo_scheduler = Ran (e, s', Some summary) /\
    microtasks s' = [] /\ performing_microtask_checkpoint s' = false.
Proof.
  destruct demo_task_runs as (e & s' & summary & Hr). exists e, s', summary. split; [exact Hr|].
  refine (task_ends_with_empty_checkpoint 20 recorder [] e demo_scheduler s' summary _ Hr). exact demo_not_performing.
Defined.

Lemma ready_tasks_all_run_witness :
  exists ready s', ready ≡ₚ filter (fun t => qt_due t <= now demo_scheduler)%N (live demo_scheduler) /\
    StronglySorted before ready /\
    take_ready (Datatypes.S (length ready)) demo_scheduler = Some (s', as_runnable <$> ready).
Proof. apply ready_tasks_all_run; [exact demo_reachable|by vm_compute|by vm_compute]. Defined.
