(* ===== verification/FetchFlow.v ===== *)
(** * FetchFlow: credit between the network and the page

    [FetchFlow] of src/renderer_process/broker/flow.rs: how many bytes of each
    response are on their way from a network worker to the page, and how many all
    of them together may be. The mutex makes every operation one step; a worker
    that has to wait in [reserve] is the outcome [Waits], and [None] is an
    arithmetic overflow, which the theorems exclude.

    Fetch requests of documents are keyed by [(document, id)]. *)

From Stdlib Require Import Strings.Byte.
From S2P Require Import Prelude Text Limits Words Protocol Transfers FetchPayloads.

(** ** Keys *)
#[global] Program Instance word_countable (hi : N) : Countable (word hi) :=
  inj_countable' (@val hi) (to_word hi) _.
Next Obligation. intros hi w. apply to_word_val. Qed.
#[global] Instance u64_countable : Countable u64 := word_countable _.
#[global] Program Instance nonzero_id_countable : Countable nonzero_id :=
  inj_countable id_value (fun v => match nonzero_id_new "" v with Ok i => Some i | Err _ => None end) _.
Next Obligation. intros i. simpl. by rewrite nonzero_id_new_get. Qed.
#[global] Instance DocumentId_countable : Countable DocumentId := nonzero_id_countable.

(** ** State *)
Record Credit := mkCredit { limited : bool; prioritized : bool; reserved : N; consumed : N }.
Record FetchFlow := mkFlow { flow_requests : gmap (DocumentId * u64) Credit; flow_in_flight : N }.
Definition FetchFlow_default : FetchFlow := mkFlow ∅ 0.

Definition uses_priority_lane (d : ResourceDestination) : bool :=
  match d with ForStyle | ForScript => true | _ => false end.

(** What an operation does: the next state and its answer. *)
Definition Answer A : Type := FetchFlow * result string A.

Definition FetchFlow_register (document : DocumentId) (id : u64) (limited : bool) (f : FetchFlow) : Answer () :=
  match flow_requests f !! (document, id) with
  | Some _ => (f, Err "duplicate Fetch flow identity")
  | None => (mkFlow (<[(document, id) := mkCredit limited false 0 0]> (flow_requests f)) (flow_in_flight f), Ok tt)
  end.
Definition FetchFlow_mark_prioritized (document : DocumentId) (id : u64) (f : FetchFlow) : FetchFlow :=
  match flow_requests f !! (document, id) with
  | Some c => mkFlow (<[(document, id) := mkCredit (limited c) true (reserved c) (consumed c)]> (flow_requests f)) (flow_in_flight f)
  | None => f
  end.
Definition FetchFlow_is_prioritized (document : DocumentId) (id : u64) (f : FetchFlow) : bool :=
  match flow_requests f !! (document, id) with Some c => prioritized c | None => false end.

(** [usize] subtraction, [None] where Rust's would underflow. *)
Definition checked_sub (a b : N) : option N := if (b <=? a)%N then Some (a - b)%N else None.
(** The test [reserve], [try_reserve] and [has_capacity] share. *)
Definition admits (f : FetchFlow) (c : Credit) (bytes : N) : option bool :=
  if negb (limited c) then Some true
  else
    outstanding ← checked_sub (reserved c) (consumed c);
    window ← checked_add outstanding bytes;
    if (window <=? MAX_FETCH_STREAM_WINDOW_BYTES)%N
    then total ← checked_add (flow_in_flight f) bytes; Some (total <=? MAX_FETCH_STREAM_IN_FLIGHT_BYTES)%N
    else Some false.
(** [checked_add] on the [u32] counter, with the [as u32] of the length. *)
Definition u32_checked_add (a b : N) : option N :=
  let sum := (a + b mod 4294967296)%N in if (sum <=? 4294967295)%N then Some sum else None.
Definition take_credit (f : FetchFlow) (document : DocumentId) (id : u64) (c : Credit) (bytes : N) : option (Answer ()) :=
  match u32_checked_add (reserved c) bytes with
  | None => Some (f, Err "Fetch response credit overflow")
  | Some reserved' =>
      let requests' := <[(document, id) := mkCredit (limited c) (prioritized c) reserved' (consumed c)]> (flow_requests f) in
      if limited c then total ← checked_add (flow_in_flight f) bytes; Some (mkFlow requests' total, Ok tt)
      else Some (mkFlow requests' (flow_in_flight f), Ok tt)
  end.

Inductive Reservation := Answered (r : result string ()) | Waits.
Definition FetchFlow_reserve (document : DocumentId) (id : u64) (offset : u32) (bytes : N) (f : FetchFlow)
    : option (FetchFlow * Reservation) :=
  match flow_requests f !! (document, id) with
  | None => Some (f, Answered (Err "Fetch response was cancelled or retired"))
  | Some c =>
      if negb (reserved c =? offset)%N
      then Some (f, Answered (Err "Fetch producer offset does not match reserved bytes"))
      else
        fits ← admits f c bytes;
        if fits : bool then a ← take_credit f document id c bytes; Some (a.1, Answered a.2) else Some (f, Waits)
  end.
Definition FetchFlow_try_reserve (document : DocumentId) (id : u64) (offset : u32) (bytes : N) (f : FetchFlow)
    : option (Answer bool) :=
  match flow_requests f !! (document, id) with
  | None => Some (f, Err "Fetch response was cancelled or retired")
  | Some c =>
      if negb (reserved c =? offset)%N then Some (f, Err "Fetch producer offset does not match reserved bytes")
      else
        fits ← admits f c bytes;
        if negb fits then Some (f, Ok false)
        else a ← take_credit f document id c bytes;
             Some (a.1, match a.2 with Ok _ => Ok true | Err e => Err e end)
  end.
Definition FetchFlow_has_capacity (document : DocumentId) (id : u64) (bytes : N) (f : FetchFlow) : option (result string bool) :=
  match flow_requests f !! (document, id) with
  | None => Some (Err "Fetch response was cancelled or retired")
  | Some c => fits ← admits f c bytes; Some (Ok fits)
  end.

Definition FetchFlow_consume (document : DocumentId) (id : u64) (total : u32) (f : FetchFlow) : option (Answer ()) :=
  match flow_requests f !! (document, id) with
  | None => Some (f, Ok tt)
  | Some c =>
      if (total <? consumed c)%N || (reserved c <? total)%N
      then Some (f, Err "Fetch consumption exceeds delivered bytes or moves backwards")
      else
        let requests' := <[(document, id) := mkCredit (limited c) (prioritized c) (reserved c) (val total)]> (flow_requests f) in
        if limited c
        then freed ← checked_sub total (consumed c); rest ← checked_sub (flow_in_flight f) freed;
             Some (mkFlow requests' rest, Ok tt)
        else Some (mkFlow requests' (flow_in_flight f), Ok tt)
  end.
Definition FetchFlow_retire (document : DocumentId) (id : u64) (f : FetchFlow) : option FetchFlow :=
  let requests' := delete (document, id) (flow_requests f) in
  match flow_requests f !! (document, id) with
  | Some c =>
      if limited c
      then outstanding ← checked_sub (reserved c) (consumed c); rest ← checked_sub (flow_in_flight f) outstanding;
           Some (mkFlow requests' rest)
      else Some (mkFlow requests' (flow_in_flight f))
  | None => Some (mkFlow requests' (flow_in_flight f))
  end.
Definition FetchFlow_clear (f : FetchFlow) : FetchFlow := mkFlow ∅ 0.

(** ** The sinks' side ([FetchResponseSink] of broker/stream.rs, up to the flow)

    A chunk that is empty or too large never reaches the flow. *)
Definition chunk_contract (c : TransferChunk) : bool :=
  negb (len (tc_bytes c) =? 0)%N && (len (tc_bytes c) <=? MAX_FETCH_STREAM_CHUNK_BYTES)%N.
Definition sink_reserve (document : DocumentId) (c : TransferChunk) (f : FetchFlow) : option (FetchFlow * Reservation) :=
  if chunk_contract c
  then FetchFlow_reserve document (tc_transfer_id c) (tc_offset c) (len (tc_bytes c)) f
  else Some (f, Answered (Err "Fetch response chunk exceeded its contract")).
Definition sink_try_reserve (document : DocumentId) (c : TransferChunk) (f : FetchFlow) : option (Answer bool) :=
  if chunk_contract c
  then FetchFlow_try_reserve document (tc_transfer_id c) (tc_offset c) (len (tc_bytes c)) f
  else Some (f, Err "Fetch response chunk exceeded its contract").
Definition has_chunk_capacity (document : DocumentId) (id : u64) (f : FetchFlow) : option (result string bool) :=
  FetchFlow_has_capacity document id MAX_FETCH_STREAM_CHUNK_BYTES f.

(** ** Runs: any interleaving of the workers' and the broker's calls *)
Inductive FlowOp :=
  | OpRegister (document : DocumentId) (id : u64) (limited : bool)
  | OpMark (document : DocumentId) (id : u64)
  | OpReserve (document : DocumentId) (c : TransferChunk)
  | OpTryReserve (document : DocumentId) (c : TransferChunk)
  | OpCapacity (document : DocumentId) (id : u64)
  | OpConsume (document : DocumentId) (id : u64) (total : u32)
  | OpRetire (document : DocumentId) (id : u64)
  | OpClear.
Definition flow_step (op : FlowOp) (f : FetchFlow) : option FetchFlow :=
  match op with
  | OpRegister document id limited => Some (FetchFlow_register document id limited f).1
  | OpMark document id => Some (FetchFlow_mark_prioritized document id f)
  | OpReserve document c => fst <$> sink_reserve document c f
  | OpTryReserve document c => fst <$> sink_try_reserve document c f
  | OpCapacity document id => (fun _ => f) <$> has_chunk_capacity document id f
  | OpConsume document id total => fst <$> FetchFlow_consume document id total f
  | OpRetire document id => FetchFlow_retire document id f
  | OpClear => Some (FetchFlow_clear f)
  end.
Fixpoint flow_run (ops : list FlowOp) (f : FetchFlow) : option FetchFlow :=
  match ops with [] => Some f | op :: ops => g ← flow_step op f; flow_run ops g end.

(** ** The invariant *)
Definition owed (c : Credit) : N := if limited c then reserved c - consumed c else 0.
Definition total_owed (m : gmap (DocumentId * u64) Credit) : N := sum_by (fun kc => owed kc.2) (map_to_list m).
Definition credit_ok (c : Credit) : Prop :=
  (consumed c <= reserved c <= 4294967295)%N
  /\ (limited c = true -> (reserved c - consumed c <= MAX_FETCH_STREAM_WINDOW_BYTES)%N).
Record flow_ok (f : FetchFlow) : Prop := {
  flow_accounted : flow_in_flight f = total_owed (flow_requests f);
  flow_bounded : (flow_in_flight f <= MAX_FETCH_STREAM_IN_FLIGHT_BYTES)%N;
  flow_credits : map_Forall (fun _ => credit_ok) (flow_requests f) }.

Lemma total_owed_fresh m k c : m !! k = None -> total_owed (<[k := c]> m) = (owed c + total_owed m)%N.
Proof. intros Hk. unfold total_owed. by rewrite (sum_by_Permutation _ _ _ (map_to_list_insert m k c Hk)), sum_by_cons. Qed.
Lemma total_owed_delete m k c : m !! k = Some c -> total_owed m = (owed c + total_owed (delete k m))%N.
Proof.
  intros Hk. rewrite <- (insert_delete_id m k c Hk) at 1. apply total_owed_fresh, lookup_delete_eq.
Qed.
Lemma total_owed_replace m k c c' :
  m !! k = Some c -> (total_owed (<[k := c']> m) + owed c = total_owed m + owed c')%N.
Proof.
  intros Hk. rewrite (total_owed_delete m k c Hk), <- (insert_delete_eq m k c').
  rewrite total_owed_fresh by apply lookup_delete_eq. lia.
Qed.
Lemma flow_ok_default : flow_ok FetchFlow_default.
Proof. split; [done | done | apply map_Forall_empty]. Qed.

Lemma checked_sub_le (a b : N) : (b <= a)%N -> checked_sub a b = Some (a - b)%N.
Proof. intros H. unfold checked_sub. by apply N.leb_le in H as ->. Qed.
Lemma checked_add_le (a b : N) : (a + b <= u64_max)%N -> checked_add a b = Some (a + b)%N.
Proof. intros H. by apply checked_add_Some. Qed.

Section invariant.
Context (f : FetchFlow) (Hf : flow_ok f).

Lemma credit_of k c : flow_requests f !! k = Some c -> credit_ok c.
Proof. intros Hc. apply (flow_credits f Hf k c Hc). Qed.
Lemma owed_in_flight k c : flow_requests f !! k = Some c -> (owed c <= flow_in_flight f)%N.
Proof. intros Hc. rewrite (flow_accounted f Hf), (total_owed_delete _ k c Hc). lia. Qed.

(** The test never overflows; where it says yes, the chunk is within both budgets. *)
Lemma admits_total (c : Credit) (bytes : N) :
  credit_ok c -> (bytes <= MAX_FETCH_STREAM_CHUNK_BYTES)%N ->
  exists fits, admits f c bytes = Some fits
    /\ (fits = true <-> (limited c = true ->
          (reserved c - consumed c + bytes <= MAX_FETCH_STREAM_WINDOW_BYTES)%N
          /\ (flow_in_flight f + bytes <= MAX_FETCH_STREAM_IN_FLIGHT_BYTES)%N)).
Proof.
  intros [Hle Hwin] Hb. pose proof (flow_bounded f Hf) as Hbound. unfold admits.
  unfold MAX_FETCH_STREAM_WINDOW_BYTES, MAX_FETCH_STREAM_IN_FLIGHT_BYTES, MAX_FETCH_STREAM_CHUNK_BYTES in *.
  destruct (limited c); simpl; [specialize (Hwin eq_refl)|exists true; naive_solver].
  rewrite checked_sub_le by lia. simpl. rewrite (checked_add_le (_ - _)) by (unfold u64_max; lia). simpl.
  match goal with |- context [(?a <=? ?b)%N] => destruct (a <=? b)%N eqn:E end.
  - rewrite checked_add_le by (unfold u64_max; lia). simpl. eexists. split; [done|].
    rewrite N.leb_le. apply N.leb_le in E. split; [intros; split; lia|intros H; by apply H].
  - apply N.leb_gt in E. exists false. split; [done|]. split; [done|]. intros H. specialize (H eq_refl). lia.
Qed.

Lemma replaced_ok k c c' (n : N) :
  flow_requests f !! k = Some c -> credit_ok c' ->
  (n + owed c = flow_in_flight f + owed c')%N -> (n <= MAX_FETCH_STREAM_IN_FLIGHT_BYTES)%N ->
  flow_ok (mkFlow (<[k := c']> (flow_requests f)) n).
Proof.
  intros Hc Hok' Hn Hb. split; simpl; [|done|].
  - pose proof (total_owed_replace _ k c c' Hc). pose proof (flow_accounted f Hf). lia.
  - apply map_Forall_insert_2; [done|apply Hf].
Qed.

Lemma take_credit_ok document id c (bytes : N) :
  flow_requests f !! (document, id) = Some c -> (bytes <= MAX_FETCH_STREAM_CHUNK_BYTES)%N ->
  admits f c bytes = Some true ->
  exists a, take_credit f document id c bytes = Some a /\ flow_ok a.1.
Proof.
  intros Hc Hb Ha. pose proof (credit_of _ _ Hc) as Hok. destruct (admits_total c bytes Hok Hb) as (fits & Hfits & Hiff).
  rewrite Ha in Hfits. injection Hfits as <-. apply proj1 in Hiff. specialize (Hiff eq_refl).
  pose proof Hok as [Hle Hwin]. pose proof (flow_bounded f Hf) as Hbound. unfold take_credit, u32_checked_add.
  unfold MAX_FETCH_STREAM_WINDOW_BYTES, MAX_FETCH_STREAM_IN_FLIGHT_BYTES, MAX_FETCH_STREAM_CHUNK_BYTES in *.
  rewrite N.mod_small by lia. destruct (_ <=? 4294967295)%N eqn:E; [|by eexists]. apply N.leb_le in E.
  destruct (limited c) eqn:Hl.
  - destruct Hiff as [Hw Ht]; [done|]. rewrite checked_add_le by (unfold u64_max; lia). simpl. eexists. split; [done|].
    apply (replaced_ok _ c); simpl; [done| |unfold owed; simpl; rewrite Hl; lia|unfold MAX_FETCH_STREAM_IN_FLIGHT_BYTES; lia].
    split; simpl; [lia|]. unfold MAX_FETCH_STREAM_WINDOW_BYTES. intros _. lia.
  - eexists. split; [done|]. simpl. apply (replaced_ok _ c); simpl; [done| |unfold owed; simpl; rewrite Hl; lia|done].
    split; simpl; [lia|done].
Qed.

Lemma consume_ok document id (total : u32) :
  exists a, FetchFlow_consume document id total f = Some a /\ flow_ok a.1.
Proof.
  unfold FetchFlow_consume. destruct (_ !! _) as [c|] eqn:Hc; [|by eexists].
  destruct (_ || _) eqn:E; [by eexists|]. apply orb_false_iff in E as [E1%N.ltb_ge E2%N.ltb_ge].
  pose proof (credit_of _ _ Hc) as [Hle Hwin]. pose proof (owed_in_flight _ _ Hc) as Howed. unfold owed in Howed.
  pose proof (flow_bounded f Hf). destruct (limited c) eqn:Hl.
  - rewrite checked_sub_le by lia. simpl. rewrite checked_sub_le by lia. simpl. eexists. split; [done|]. simpl.
    apply (replaced_ok _ c); simpl; [done| |unfold owed; simpl; rewrite Hl; lia|lia].
    split; simpl; [lia|]. intros _. specialize (Hwin eq_refl). lia.
  - eexists. split; [done|]. simpl. apply (replaced_ok _ c); simpl; [done| |unfold owed; simpl; rewrite Hl; lia|lia].
    split; simpl; [lia|done].
Qed.

Lemma retire_ok document id : exists g, FetchFlow_retire document id f = Some g /\ flow_ok g.
Proof.
  unfold FetchFlow_retire. destruct (_ !! _) as [c|] eqn:Hc.
  - pose proof (credit_of _ _ Hc) as [Hle Hwin]. pose proof (owed_in_flight _ _ Hc) as Howed. unfold owed in Howed.
    pose proof (flow_accounted f Hf) as Hacc. rewrite (total_owed_delete _ _ _ Hc) in Hacc. unfold owed in Hacc at 1.
    pose proof (flow_bounded f Hf). destruct (limited c).
    + rewrite checked_sub_le by lia. simpl. rewrite checked_sub_le by lia. simpl. eexists. split; [done|].
      split; simpl; [lia|lia|]. apply map_Forall_delete, Hf.
    + eexists. split; [done|]. split; simpl; [lia|lia|]. apply map_Forall_delete, Hf.
  - eexists. split; [done|]. rewrite delete_id by done. by destruct f.
Qed.

Lemma register_ok document id l : flow_ok (FetchFlow_register document id l f).1.
Proof.
  unfold FetchFlow_register. destruct (_ !! _) as [c|] eqn:Hc; [done|]. split; simpl.
  - rewrite total_owed_fresh by done. unfold owed. simpl. rewrite (flow_accounted f Hf). by destruct l.
  - apply Hf.
  - apply map_Forall_insert_2; [|apply Hf]. split; simpl; [lia|]. unfold MAX_FETCH_STREAM_WINDOW_BYTES. lia.
Qed.
Lemma mark_ok document id : flow_ok (FetchFlow_mark_prioritized document id f).
Proof.
  unfold FetchFlow_mark_prioritized. destruct (_ !! _) as [c|] eqn:Hc; [|done].
  apply (replaced_ok _ c); [done|apply (credit_of _ _ Hc)|unfold owed; simpl; lia|apply Hf].
Qed.
End invariant.

Lemma chunk_contract_le (c : TransferChunk) : chunk_contract c = true -> (len (tc_bytes c) <= MAX_FETCH_STREAM_CHUNK_BYTES)%N.
Proof. unfold chunk_contract. rewrite andb_true_iff, N.leb_le. tauto. Qed.

Lemma flow_step_ok (op : FlowOp) (f : FetchFlow) : flow_ok f -> exists g, flow_step op f = Some g /\ flow_ok g.
Proof.
  intros Hf. destruct op as [d i l|d i|d c|d c|d i|d i t|d i|]; simpl.
  - eexists. split; [done|]. by apply register_ok.
  - eexists. split; [done|]. by apply mark_ok.
  - unfold sink_reserve. destruct (chunk_contract c) eqn:Hc; [|by eexists]. apply chunk_contract_le in Hc.
    unfold FetchFlow_reserve. destruct (_ !! _) as [cr|] eqn:Hcr; [|by eexists]. destruct (negb _); [by eexists|].
    destruct (admits_total f Hf cr _ (credit_of f Hf _ _ Hcr) Hc) as (fits & Hfits & _). rewrite Hfits. simpl.
    destruct fits; [|by eexists]. destruct (take_credit_ok f Hf d _ cr _ Hcr Hc Hfits) as (a & -> & Ha). by eexists.
  - unfold sink_try_reserve. destruct (chunk_contract c) eqn:Hc; [|by eexists]. apply chunk_contract_le in Hc.
    unfold FetchFlow_try_reserve. destruct (_ !! _) as [cr|] eqn:Hcr; [|by eexists]. destruct (negb _); [by eexists|].
    destruct (admits_total f Hf cr _ (credit_of f Hf _ _ Hcr) Hc) as (fits & Hfits & _). rewrite Hfits. simpl.
    destruct fits; [|by eexists]. destruct (take_credit_ok f Hf d _ cr _ Hcr Hc Hfits) as (a & -> & Ha). by eexists.
  - unfold has_chunk_capacity, FetchFlow_has_capacity. destruct (_ !! _) as [cr|] eqn:Hcr; [|by eexists].
    destruct (admits_total f Hf cr MAX_FETCH_STREAM_CHUNK_BYTES (credit_of f Hf _ _ Hcr)) as (fits & -> & _); [done|].
    by eexists.
  - destruct (consume_ok f Hf d i t) as (a & -> & Ha). by eexists.
  - by apply retire_ok.
  - eexists. split; [done|]. apply flow_ok_default.
Qed.

(** C17. C. Whatever the network workers, the broker and the page do, in any order: no
    credit counter under- or overflows, what is in flight is exactly what the
    limited responses were granted and the page has not consumed, and neither the
    budget of one response (256 KiB) nor that of all (4 MiB) is exceeded. *)
Theorem fetch_flow_accounts (ops : list FlowOp) :
  exists f, flow_run ops FetchFlow_default = Some f /\ flow_ok f.
Proof.
  assert (H : forall f, flow_ok f -> exists g, flow_run ops f = Some g /\ flow_ok g).
  { induction ops as [|op ops IH]; simpl; intros f Hf; [by eexists|].
    destruct (flow_step_ok op f Hf) as (g & -> & Hg). by apply IH. }
  apply H, flow_ok_default.
Qed.

(** ** Waiting *)
Lemma waits_unconsumed (f : FetchFlow) (document : DocumentId) (c : TransferChunk) (g : FetchFlow) :
  flow_ok f -> sink_reserve document c f = Some (g, Waits) -> g = f /\ (0 < flow_in_flight f)%N.
Proof.
  intros Hf. unfold sink_reserve. destruct (chunk_contract c) eqn:Hc; [|done]. apply chunk_contract_le in Hc.
  unfold FetchFlow_reserve. destruct (_ !! _) as [cr|] eqn:Hcr; [|done]. destruct (negb _); [done|].
  destruct (admits_total f Hf cr _ (credit_of f Hf _ _ Hcr) Hc) as (fits & -> & Hiff). simpl.
  destruct fits; [by destruct (take_credit _ _ _ _ _)|]. intros [= ->]. split; [done|].
  destruct (N.eq_0_gt_0_cases (flow_in_flight g)) as [Hz|]; [|done]. exfalso.
  enough (false = true) by done. apply Hiff. intros Hl.
  pose proof (owed_in_flight g Hf _ _ Hcr) as Howed. unfold owed in Howed. rewrite Hl in Howed.
  unfold MAX_FETCH_STREAM_WINDOW_BYTES, MAX_FETCH_STREAM_IN_FLIGHT_BYTES, MAX_FETCH_STREAM_CHUNK_BYTES in *. lia.
Qed.

(** The page's receipts for all it was sent, by key. *)
Definition receipts (f : FetchFlow) (keys : list (DocumentId * u64)) : list FlowOp :=
  (fun k => OpConsume k.1 k.2 (to_word 4294967295 (from_option reserved 0%N (flow_requests f !! k)))) <$> keys.
Lemma receipt_settles (f : FetchFlow) k c (total : u32) :
  flow_ok f -> flow_requests f !! k = Some c -> val total = reserved c ->
  exists g, FetchFlow_consume k.1 k.2 total f = Some (g, Ok tt)
    /\ flow_requests g = <[k := mkCredit (limited c) (prioritized c) (reserved c) (reserved c)]> (flow_requests f).
Proof.
  intros Hf Hc Ht. destruct k as [d i]. pose proof (credit_of f Hf _ _ Hc) as [Hle _].
  pose proof (owed_in_flight f Hf _ _ Hc) as Howed. unfold owed in Howed. unfold FetchFlow_consume. simpl. rewrite Hc.
  rewrite Ht. replace ((_ <? _) || _)%N with false by lia.
  destruct (limited c); [|by eexists]. rewrite checked_sub_le by lia. simpl. rewrite checked_sub_le by lia. by eexists.
Qed.
Lemma receipts_settle (f0 : FetchFlow) (keys : list (DocumentId * u64)) : forall f,
  flow_ok f -> NoDup keys -> (forall k, k ∈ keys -> is_Some (flow_requests f0 !! k) /\ flow_requests f !! k = flow_requests f0 !! k) ->
  exists g, flow_run (receipts f0 keys) f = Some g /\ flow_ok g
    /\ forall k, flow_requests g !! k
         = if decide (k ∈ keys) then (fun c => mkCredit (limited c) (prioritized c) (reserved c) (reserved c)) <$> flow_requests f0 !! k
           else flow_requests f !! k.
Proof.
  induction keys as [|k keys IH]; intros f Hf Hnd Hsame.
  - exists f. split_and!; [done|done|]. intros k. rewrite decide_False by apply not_elem_of_nil. done.
  - apply NoDup_cons in Hnd as [Hk Hnd]. destruct (Hsame k) as [[c Hc] Hkf]; [left|]. rewrite Hc in Hkf.
    pose proof (credit_of f Hf _ _ Hkf) as [Hle _].
    destruct (receipt_settles f k c (to_word 4294967295 (reserved c)) Hf Hkf) as (g & Hg & Hreq);
      [by rewrite val_to_word by lia|].
    destruct (flow_step_ok (OpConsume k.1 k.2 (to_word 4294967295 (reserved c))) f Hf) as (g' & Hg' & Hok).
    simpl in Hg'. rewrite Hg in Hg'. injection Hg' as <-.
    destruct (IH g Hok Hnd) as (h & Hh & Hokh & Hlook).
    { intros j Hj. destruct (Hsame j) as [? Hjf]; [by right|]. split; [done|]. rewrite Hreq.
      rewrite lookup_insert_ne by naive_solver. done. }
    exists h. split_and!; [|done|].
    + change (receipts f0 (k :: keys)) with
        (OpConsume k.1 k.2 (to_word 4294967295 (from_option reserved 0%N (flow_requests f0 !! k))) :: receipts f0 keys).
      rewrite Hc. cbn [flow_run flow_step from_option]. by rewrite Hg.
    + intros j. rewrite Hlook, Hreq. destruct (decide (j = k)) as [->|Hne].
      * rewrite (decide_False (P := k ∈ keys)) by done. rewrite decide_True by left. by rewrite lookup_insert_eq, Hc.
      * rewrite lookup_insert_ne by done. destruct (decide (j ∈ keys)).
        -- by rewrite decide_True by (by right).
        -- rewrite decide_False; [done|]. intros [|]%elem_of_cons; done.
Qed.
Lemma total_owed_zero (m : gmap (DocumentId * u64) Credit) :
  (forall k c, m !! k = Some c -> owed c = 0%N) -> total_owed m = 0%N.
Proof.
  induction m as [|k c m Hk IH] using map_ind; intros H; [done|]. rewrite total_owed_fresh by done.
  rewrite (H k c) by apply lookup_insert_eq. rewrite IH; [done|]. intros j d Hj. apply (H j d).
  rewrite lookup_insert_ne by congruence. done.
Qed.

(** C. A network worker waits for nothing but the page: where [reserve] waits it has
    changed nothing and there are bytes the page was sent and has not consumed; and
    the page's receipts for those bytes are all it takes for the chunk to be
    answered. *)
Theorem reserve_waits_for_the_page (f g : FetchFlow) (document : DocumentId) (c : TransferChunk) :
  flow_ok f -> sink_reserve document c f = Some (g, Waits) ->
  g = f /\ (0 < flow_in_flight f)%N
  /\ exists h k r, flow_run (receipts f (map_to_list (flow_requests f)).*1) f = Some h
       /\ sink_reserve document c h = Some (k, Answered r).
Proof.
  intros Hf Hw. destruct (waits_unconsumed _ _ _ _ Hf Hw) as [-> Hpos]. split_and!; [done|done|].
  destruct (receipts_settle f (map_to_list (flow_requests f)).*1 f Hf) as (h & Hh & Hok & Hlook).
  { apply NoDup_fst_map_to_list. }
  { intros k ((k' & c') & -> & Hin)%list_elem_of_fmap. apply elem_of_map_to_list in Hin. simpl. rewrite Hin. by split. }
  exists h. destruct (flow_step_ok (OpReserve document c) h Hok) as (k' & Hk & _). simpl in Hk.
  destruct (sink_reserve document c h) as [[k [r|]]|] eqn:E; [by exists k, r| |done].
  destruct (waits_unconsumed _ _ _ _ Hok E) as [_ Hp]. exfalso.
  rewrite (flow_accounted h Hok), total_owed_zero in Hp; [lia|]. intros j cj Hj. rewrite Hlook in Hj.
  destruct (decide (j ∈ _)) as [|Hn].
  - apply fmap_Some in Hj as (c0 & _ & ->). unfold owed. simpl. destruct (limited c0); lia.
  - destruct Hn. apply list_elem_of_fmap. exists (j, cj). split; [done|]. by apply elem_of_map_to_list.
Qed.
Definition example_document : DocumentId := NonzeroId (to_word u64_max 5) eq_refl.
Definition example_flow : FetchFlow :=
  mkFlow {[(example_document, to_word u64_max 1) := mkCredit true false MAX_FETCH_STREAM_WINDOW_BYTES 0]} MAX_FETCH_STREAM_WINDOW_BYTES.
Lemma reserve_waits_for_the_page_witness :
  let c := mkChunk (to_word u64_max 1) (to_word 4294967295 MAX_FETCH_STREAM_WINDOW_BYTES) [x61] in
  sink_reserve example_document c example_flow = Some (example_flow, Waits)
  /\ exists h k r, flow_run (receipts example_flow (map_to_list (flow_requests example_flow)).*1) example_flow = Some h
       /\ sink_reserve example_document c h = Some (k, Answered r).
Proof.
  intros c.
  assert (Hw : sink_reserve example_document c example_flow = Some (example_flow, Waits)).
  { unfold sink_reserve, FetchFlow_reserve. replace (chunk_contract c) with true by (vm_compute; reflexivity).
    unfold example_flow at 1. cbn [flow_requests]. rewrite lookup_singleton_eq. reflexivity. }
  split; [exact Hw|]. apply (reserve_waits_for_the_page example_flow example_flow example_document c); [split|exact Hw].
  - vm_compute. reflexivity.
  - unfold example_flow, MAX_FETCH_STREAM_WINDOW_BYTES, MAX_FETCH_STREAM_IN_FLIGHT_BYTES. cbn [flow_in_flight]. lia.
  - unfold example_flow. cbn [flow_requests]. apply map_Forall_singleton. unfold credit_ok. cbn [consumed reserved limited].
    unfold MAX_FETCH_STREAM_WINDOW_BYTES. split; [|intros _]; lia.
Defined.
