(* ===== verification/StateUpdates.v ===== *)
(** * StateUpdates: the browser's corrections to a renderer

    src/renderer_process/broker/state_updates.rs: corrections to cookies and
    storage areas wait in newest-wins slots, storage synchronisations one at a
    time. The mutex makes each operation one step; [submitted] and [coalesced]
    are the counters of its [Snapshot]. *)

From S2P Require Import Prelude Text Limits Words Protocol WebStorage LocalStore StorageSync StatePayloads.

(** ** Updates and their slots *)
Inductive BrokerUpdate :=
  | UpdateSync (sync : StorageSync)
  | UpdateCookie (snapshot : CookieStateSnapshot)
  | UpdateStorage (document : DocumentId) (area : StorageAreaKind) (snapshot : StorageAreaSnapshot).
Definition update_document (u : BrokerUpdate) : DocumentId :=
  match u with
  | UpdateSync sync => sync_document sync
  | UpdateCookie snapshot => cs_document snapshot
  | UpdateStorage document _ _ => document
  end.
Definition area_kind (a : StorageAreaKind) : StateSnapshotKind :=
  match a with LocalArea => LocalStorageKind | SessionArea => SessionStorageKind end.
Definition acknowledgement (u : BrokerUpdate) : StateSnapshotApplied :=
  match u with
  | UpdateSync sync => StorageSync_receipt sync
  | UpdateCookie snapshot => mkApplied (cs_document snapshot) CookieKind (cs_version snapshot)
  | UpdateStorage document area snapshot =>
      mkApplied document (area_kind area) (to_word u64_max (snapshot_version snapshot))
  end.
Definition same_slot (u v : BrokerUpdate) : bool :=
  match u, v with
  | UpdateCookie mine, UpdateCookie other => bool_decide (cs_document mine = cs_document other)
  | UpdateStorage document area _, UpdateStorage document' area' _ =>
      bool_decide (document = document') && bool_decide (area = area')
  | _, _ => false
  end.
Definition is_sync (u : BrokerUpdate) : bool := match u with UpdateSync _ => true | _ => false end.

(** ** The channel *)
Record UpdateState := mkUpdates {
  up_pending : list BrokerUpdate; up_in_flight : bool; up_blocks_tasks : bool;
  up_submitted : N; up_coalesced : N; up_receiver_open : bool }.
Definition updates_bounded : UpdateState := mkUpdates [] false false 0 0 true.
Inductive UpdateError := UpdateInvalid (e : ProtocolError) | SnapshotInvalid (e : StorageError) | BrokerExited.

Definition with_pending (s : UpdateState) (l : list BrokerUpdate) : UpdateState :=
  mkUpdates l (up_in_flight s) (up_blocks_tasks s) (up_submitted s) (up_coalesced s) (up_receiver_open s).
Definition count_submitted (s : UpdateState) : UpdateState :=
  mkUpdates (up_pending s) (up_in_flight s) (up_blocks_tasks s) (saturating_add (up_submitted s) 1)
    (up_coalesced s) (up_receiver_open s).
Definition count_coalesced (s : UpdateState) : UpdateState :=
  mkUpdates (up_pending s) (up_in_flight s) (up_blocks_tasks s) (up_submitted s)
    (saturating_add (up_coalesced s) 1) (up_receiver_open s).

(** [iter_mut().find(..)] and the assignment through it. *)
Fixpoint put_in_slot (u : BrokerUpdate) (l : list BrokerUpdate) : option (list BrokerUpdate) :=
  match l with
  | [] => None
  | p :: l => if same_slot p u then Some (u :: l) else cons p <$> put_in_slot u l
  end.

Definition Sender_send (u : BrokerUpdate) (s : UpdateState) : UpdateState * result UpdateError () :=
  if negb (up_receiver_open s) then (s, Err BrokerExited)
  else
    let s := count_submitted s in
    let s := with_pending s (filter (fun p => update_document p = update_document u) (up_pending s)) in
    match put_in_slot u (up_pending s) with
    | Some l => (count_coalesced (with_pending s l), Ok tt)
    | None => (with_pending s (up_pending s ++ [u]), Ok tt)
    end.
Definition try_send_sync (sync : StorageSync) (s : UpdateState) : UpdateState * result UpdateError bool :=
  match StorageSync_validate sync with
  | Err e => (s, Err (UpdateInvalid e))
  | Ok _ =>
      if negb (up_receiver_open s) then (s, Err BrokerExited)
      else if up_in_flight s || negb (match up_pending s with [] => true | _ => false end) then (s, Ok false)
      else (count_submitted (with_pending s (up_pending s ++ [UpdateSync sync])), Ok true)
  end.
Definition send_cookie (snapshot : CookieStateSnapshot) (s : UpdateState) : UpdateState * result UpdateError () :=
  match CookieStateSnapshot_validate snapshot with
  | Err e => (s, Err (UpdateInvalid e))
  | Ok _ => Sender_send (UpdateCookie snapshot) s
  end.
Definition send_storage (document : DocumentId) (area : StorageAreaKind) (snapshot : StorageAreaSnapshot) (s : UpdateState)
    : UpdateState * result UpdateError () :=
  match StorageAreaSnapshot_validate snapshot with
  | Err e => (s, Err (SnapshotInvalid e))
  | Ok _ => Sender_send (UpdateStorage document area snapshot) s
  end.
(** [Sender::snapshot] and [Receiver::pending] count what is in flight too. *)
Definition updates_pending (s : UpdateState) : nat := length (up_pending s) + (if up_in_flight s then 1 else 0).

Definition Receiver_take (s : UpdateState) : UpdateState * option BrokerUpdate :=
  if up_in_flight s then (s, None)
  else
    match up_pending s with
    | [] => (mkUpdates [] false false (up_submitted s) (up_coalesced s) (up_receiver_open s), None)
    | u :: l => (mkUpdates l true (negb (is_sync u)) (up_submitted s) (up_coalesced s) (up_receiver_open s), Some u)
    end.
Definition Receiver_complete (s : UpdateState) : UpdateState :=
  mkUpdates (up_pending s) false (up_blocks_tasks s) (up_submitted s) (up_coalesced s) (up_receiver_open s).
Definition blocks_tasks (s : UpdateState) : bool :=
  if up_in_flight s then up_blocks_tasks s else match up_pending s with [] => false | _ => true end.
Definition discard_updates (document : DocumentId) (s : UpdateState) : UpdateState :=
  with_pending s (filter (fun u => update_document u <> document) (up_pending s)).
(** [Drop for Receiver]. *)
Definition Receiver_drop (s : UpdateState) : UpdateState :=
  mkUpdates [] false (up_blocks_tasks s) (up_submitted s) (up_coalesced s) false.

(** ** Slots as data *)
Inductive Slot := CookieSlot (document : DocumentId) | StorageSlot (document : DocumentId) (area : StorageAreaKind).
#[global] Instance Slot_eq_dec : EqDecision Slot.
Proof. solve_decision. Defined.
Definition slot (u : BrokerUpdate) : option Slot :=
  match u with
  | UpdateSync _ => None
  | UpdateCookie snapshot => Some (CookieSlot (cs_document snapshot))
  | UpdateStorage document area _ => Some (StorageSlot document area)
  end.
Lemma same_slot_spec (u v : BrokerUpdate) : same_slot u v = true <-> slot u = slot v /\ slot u <> None.
Proof.
  destruct u, v; simpl; rewrite ?andb_true_iff, ?bool_decide_eq_true; split; intros H; destruct_and?; simplify_eq; try split; congruence.
Qed.
Definition in_slot (k : Slot) (l : list BrokerUpdate) : list BrokerUpdate := filter (fun u => slot u = Some k) l.

Lemma put_in_slot_None (u : BrokerUpdate) (l : list BrokerUpdate) (k : Slot) :
  slot u = Some k -> put_in_slot u l = None <-> in_slot k l = [].
Proof.
  intros Hk. induction l as [|p l IH]; [done|]. unfold in_slot in *. simpl. destruct (same_slot p u) eqn:E.
  - apply same_slot_spec in E as [E _]. rewrite filter_cons_True by congruence. done.
  - rewrite filter_cons_False. { destruct (put_in_slot u l); [|tauto]. split; [done|]. intros H. by apply IH in H. }
    intros Hp. enough (same_slot p u = true) by congruence. apply same_slot_spec. split; congruence.
Qed.
Lemma put_in_slot_Some (u : BrokerUpdate) (l l' : list BrokerUpdate) :
  put_in_slot u l = Some l' -> exists l1 p l2, l = l1 ++ p :: l2 /\ l' = l1 ++ u :: l2 /\ slot p = slot u /\ slot u <> None.
Proof.
  revert l'. induction l as [|p l IH]; [done|]. simpl. intros l'. destruct (same_slot p u) eqn:E.
  - intros [= <-]. apply same_slot_spec in E as [E Hn]. exists [], p, l. split_and!; try done. congruence.
  - intros (l0 & Hl & ->)%fmap_Some. destruct (IH _ Hl) as (l1 & q & l2 & -> & -> & ? & ?). by exists (p :: l1), q, l2.
Qed.

(** ** The invariant: at most one update per slot, a synchronisation only in front *)
Definition one_per_slot (l : list BrokerUpdate) : Prop := forall k, (length (in_slot k l) <= 1)%nat.
Record updates_ok (s : UpdateState) : Prop := {
  ok_document : exists d, Forall (fun u => update_document u = d) (up_pending s);
  ok_slots : one_per_slot (up_pending s);
  ok_syncs : (length (filter (fun u => slot u = None) (up_pending s)) <= 1)%nat }.
Lemma in_slot_app (k : Slot) (l m : list BrokerUpdate) : in_slot k (l ++ m) = in_slot k l ++ in_slot k m.
Proof. apply filter_app. Qed.
Lemma in_slot_one (k : Slot) (u : BrokerUpdate) : in_slot k [u] = if decide (slot u = Some k) then [u] else [].
Proof. unfold in_slot. by rewrite filter_cons. Qed.
Lemma sublist_ok (s s' : UpdateState) : up_pending s' `sublist_of` up_pending s -> updates_ok s -> updates_ok s'.
Proof.
  intros Hsub [[d Hd] Hs Hy]. split.
  - exists d. apply Forall_forall. intros u Hu. rewrite Forall_forall in Hd. apply Hd. by eapply sublist_subseteq.
  - intros k. etransitivity; [|apply (Hs k)]. by apply sublist_length, filter_sublist_mono.
  - etransitivity; [|apply Hy]. by apply sublist_length, filter_sublist_mono.
Qed.

(** Sending leaves the other slots alone and its own with the new update only. *)
Lemma Sender_send_slots (u : BrokerUpdate) (s s' : UpdateState) (k0 : Slot) :
  updates_ok s -> slot u = Some k0 -> Sender_send u s = (s', Ok tt) ->
  let kept := filter (fun p => update_document p = update_document u) (up_pending s) in
  Forall (fun p => update_document p = update_document u) (up_pending s')
  /\ (forall k, in_slot k (up_pending s') = if decide (k = k0) then [u] else in_slot k kept)
  /\ filter (fun p => slot p = None) (up_pending s') = filter (fun p => slot p = None) kept.
Proof.
  intros Hok Hk0. unfold Sender_send. destruct (negb (up_receiver_open s)); [done|]. simpl.
  set (kept := filter _ _).
  assert (Hdoc : Forall (fun p => update_document p = update_document u) kept) by (apply Forall_forall; intros p Hp; by apply list_elem_of_filter in Hp as [? _]).
  assert (Hone : forall k, (length (in_slot k kept) <= 1)%nat).
  { intros k. etransitivity; [|apply (ok_slots s Hok k)]. apply sublist_length, filter_sublist_mono, sublist_filter. }
  destruct (put_in_slot u kept) as [l'|] eqn:E; intros [= <-]; simpl.
  - destruct (put_in_slot_Some _ _ _ E) as (l1 & p & l2 & Hl & -> & Hp & _). rewrite Hl in Hdoc, Hone |- *. split_and!.
    + apply Forall_app in Hdoc as [H1 [_ H2]%Forall_cons]. apply Forall_app. split; [done|]. by constructor.
    + intros k. specialize (Hone k). rewrite !in_slot_app in *. change (p :: l2) with ([p] ++ l2) in *.
      change (u :: l2) with ([u] ++ l2). rewrite !in_slot_app in *. rewrite !in_slot_one in *.
      rewrite Hp, Hk0 in *. destruct (decide (k = k0)) as [->|].
      * rewrite !decide_True by done. rewrite decide_True in Hone by done. rewrite !length_app in Hone. simpl in Hone.
        destruct (in_slot k0 l1), (in_slot k0 l2); simpl in *; try lia. done.
      * rewrite !decide_False by congruence. done.
    + rewrite !filter_app, !filter_cons. rewrite Hp, Hk0. done.
  - pose proof (proj1 (put_in_slot_None u kept k0 Hk0) E) as Hempty. split_and!.
    + apply Forall_app. split; [done|]. by constructor.
    + intros k. rewrite in_slot_app, in_slot_one, Hk0. destruct (decide (k = k0)) as [->|].
      * rewrite decide_True by done. by rewrite Hempty.
      * rewrite decide_False by congruence. apply app_nil_r.
    + rewrite filter_app, (filter_cons_False _ u) by congruence. apply app_nil_r.
Qed.
Lemma Sender_send_Err (u : BrokerUpdate) (s s' : UpdateState) (e : UpdateError) :
  Sender_send u s = (s', Err e) -> s' = s /\ up_receiver_open s = false.
Proof.
  unfold Sender_send. destruct (up_receiver_open s); simpl; [by destruct (put_in_slot _ _)|]. intros [= <- <-]. done.
Qed.
Lemma Sender_send_ok (u : BrokerUpdate) (s : UpdateState) (k0 : Slot) :
  slot u = Some k0 -> updates_ok s -> updates_ok (Sender_send u s).1.
Proof.
  intros Hk0 Hok. destruct (Sender_send u s) as [s' [[]|e]] eqn:E; simpl.
  - destruct (Sender_send_slots u s s' k0 Hok Hk0 E) as (Hd & Hs & Hy). split.
    + by eexists.
    + intros k. rewrite Hs. destruct (decide _); [simpl; lia|]. etransitivity; [|apply (ok_slots s Hok k)].
      apply sublist_length, filter_sublist_mono, sublist_filter.
    + rewrite Hy. etransitivity; [|apply (ok_syncs s Hok)]. apply sublist_length, filter_sublist_mono, sublist_filter.
  - by destruct (Sender_send_Err _ _ _ _ E) as [-> _].
Qed.

(** ** Runs, with what was accepted and what the broker took *)
Inductive UpdateOp :=
  | DoSync (sync : StorageSync) | DoCookie (snapshot : CookieStateSnapshot)
  | DoStorage (document : DocumentId) (area : StorageAreaKind) (snapshot : StorageAreaSnapshot)
  | DoTake | DoComplete | DoDiscard (document : DocumentId) | DoDrop.
Record UpdateLog := mkUpdateLog { log_sent : list BrokerUpdate; log_taken : list BrokerUpdate }.
Definition accepted {A} (r : result UpdateError A) (u : BrokerUpdate) : list BrokerUpdate := if is_ok r then [u] else [].
Definition update_step (op : UpdateOp) (sl : UpdateState * UpdateLog) : UpdateState * UpdateLog :=
  let (s, l) := sl in
  let sent us := mkUpdateLog (log_sent l ++ us) (log_taken l) in
  match op with
  | DoSync sync =>
      let (s', r) := try_send_sync sync s in
      (s', sent (match r with Ok true => [UpdateSync sync] | _ => [] end))
  | DoCookie snapshot => let (s', r) := send_cookie snapshot s in (s', sent (accepted r (UpdateCookie snapshot)))
  | DoStorage document area snapshot =>
      let (s', r) := send_storage document area snapshot s in (s', sent (accepted r (UpdateStorage document area snapshot)))
  | DoTake => let (s', o) := Receiver_take s in (s', mkUpdateLog (log_sent l) (log_taken l ++ option_list o))
  | DoComplete => (Receiver_complete s, l)
  | DoDiscard document => (discard_updates document s, l)
  | DoDrop => (Receiver_drop s, l)
  end.
Definition update_run (ops : list UpdateOp) (sl : UpdateState * UpdateLog) : UpdateState * UpdateLog :=
  foldl (fun sl op => update_step op sl) sl ops.

Lemma Receiver_take_spec (s s' : UpdateState) (o : option BrokerUpdate) :
  Receiver_take s = (s', o) -> up_pending s = option_list o ++ up_pending s'.
Proof. unfold Receiver_take. destruct (up_in_flight s); [by intros [= <- <-]|]. destruct (up_pending s); by intros [= <- <-]. Qed.
Lemma try_send_sync_spec (sync : StorageSync) (s s' : UpdateState) (r : result UpdateError bool) :
  try_send_sync sync s = (s', r) ->
  (r = Ok true /\ up_pending s = [] /\ up_in_flight s = false /\ up_pending s' = [UpdateSync sync]) \/ (r <> Ok true /\ s' = s).
Proof.
  unfold try_send_sync. destruct (StorageSync_validate sync); [|intros [= <- <-]; by right].
  destruct (negb (up_receiver_open s)); [intros [= <- <-]; by right|].
  destruct (up_in_flight s); simpl; [intros [= <- <-]; by right|].
  destruct (up_pending s) eqn:E; simpl; intros [= <- <-]; [left|by right]. done.
Qed.

Lemma update_step_ok (op : UpdateOp) (s : UpdateState) (l : UpdateLog) :
  updates_ok s -> updates_ok (update_step op (s, l)).1.
Proof.
  intros Hok. destruct op as [y|c|d a n| | |d|]; simpl.
  - destruct (try_send_sync y s) as [s' r] eqn:E. simpl.
    destruct (try_send_sync_spec _ _ _ _ E) as [(_ & _ & _ & Hp)|[_ ->]]; [|done].
    split; rewrite Hp; [exists (sync_document y); by constructor|intros k; simpl; lia|simpl; lia].
  - unfold send_cookie. destruct (CookieStateSnapshot_validate c); [|done].
    pose proof (Sender_send_ok (UpdateCookie c) s _ eq_refl Hok) as H. by destruct (Sender_send _ _).
  - unfold send_storage. destruct (StorageAreaSnapshot_validate n); [|done].
    pose proof (Sender_send_ok (UpdateStorage d a n) s _ eq_refl Hok) as H. by destruct (Sender_send _ _).
  - destruct (Receiver_take s) as [s' o] eqn:E. simpl. apply Receiver_take_spec in E. eapply sublist_ok; [|exact Hok].
    rewrite E. by apply sublist_inserts_l.
  - by apply (sublist_ok s).
  - apply (sublist_ok s); [apply sublist_filter|done].
  - apply (sublist_ok s); [apply sublist_nil_l|done].
Qed.
Lemma updates_ok_initial : updates_ok updates_bounded.
Proof.
  split; simpl; [|intros k; simpl; lia|lia]. unfold updates_bounded. simpl.
  exists (NonzeroId (@Word u64_max 1%N eq_refl) eq_refl). constructor.
Qed.
Lemma update_run_ok (ops : list UpdateOp) (sl : UpdateState * UpdateLog) : updates_ok sl.1 -> updates_ok (update_run ops sl).1.
Proof.
  revert sl. induction ops as [|op ops IH]; intros [s l] H; [done|]. apply IH. by apply update_step_ok.
Qed.

Lemma one_document_slots (d : DocumentId) (l : list BrokerUpdate) :
  Forall (fun u => update_document u = d) l ->
  length l = (length (filter (fun u => slot u = None) l) + length (in_slot (CookieSlot d) l)
    + length (in_slot (StorageSlot d LocalArea) l) + length (in_slot (StorageSlot d SessionArea) l))%nat.
Proof.
  induction 1 as [|u l Hu _ IH]; [done|]. unfold in_slot in *. rewrite !filter_cons. simpl length at 1. rewrite IH.
  destruct u as [y|c|d' [|] n]; simpl in *; subst; repeat case_decide; simpl in *; try done; try lia.
Qed.

(** C. However many corrections a page provokes, at most four wait for the renderer
    - one cookie snapshot, one snapshot of each storage area and one synchronisation,
    all of one document - and a fifth is in flight. *)
Theorem updates_never_pile_up (ops : list UpdateOp) :
  let s := (update_run ops (updates_bounded, mkUpdateLog [] [])).1 in
  (length (up_pending s) <= 4)%nat /\ (updates_pending s <= 5)%nat
  /\ one_per_slot (up_pending s) /\ exists d, Forall (fun u => update_document u = d) (up_pending s).
Proof.
  intros s. assert (Hok : updates_ok s) by (apply update_run_ok, updates_ok_initial).
  pose proof (ok_document s Hok) as [d Hd]. pose proof (one_document_slots d _ Hd) as Hlen.
  pose proof (ok_slots s Hok) as Hs. pose proof (ok_syncs s Hok) as Hy.
  pose proof (Hs (CookieSlot d)). pose proof (Hs (StorageSlot d LocalArea)). pose proof (Hs (StorageSlot d SessionArea)).
  split_and!; [lia| |done|by exists d]. unfold updates_pending. destruct (up_in_flight s); lia.
Qed.

(** ** Newest wins, synchronisations in order *)
Definition newest (k : Slot) (l : list BrokerUpdate) : option BrokerUpdate := last (in_slot k l).
Definition op_of (d : DocumentId) (op : UpdateOp) : Prop :=
  match op with
  | DoSync sync => sync_document sync = d
  | DoCookie snapshot => cs_document snapshot = d
  | DoStorage document _ _ => document = d
  | DoTake | DoComplete => True
  | DoDiscard _ | DoDrop => False
  end.
Definition syncs (l : list BrokerUpdate) : list BrokerUpdate := filter (fun u => slot u = None) l.
Record faithful (d : DocumentId) (sl : UpdateState * UpdateLog) : Prop := {
  fa_ok : updates_ok sl.1;
  fa_document : Forall (fun u => update_document u = d) (up_pending sl.1);
  fa_newest : forall k, newest k (log_taken sl.2 ++ up_pending sl.1) = newest k (log_sent sl.2);
  fa_syncs : syncs (log_taken sl.2 ++ up_pending sl.1) = syncs (log_sent sl.2) }.
Lemma filter_same_document (l : list BrokerUpdate) (u : BrokerUpdate) (d : DocumentId) :
  Forall (fun p => update_document p = d) l -> update_document u = d ->
  filter (fun p => update_document p = update_document u) l = l.
Proof.
  intros Hl Hu. rewrite Hu. clear Hu. induction Hl as [|p l Hp _ IH]; [done|].
  by rewrite filter_cons_True, IH by done.
Qed.

Lemma send_faithful (d : DocumentId) (s s' : UpdateState) (l : UpdateLog) (u : BrokerUpdate) (k0 : Slot)
    (r : result UpdateError ()) :
  faithful d (s, l) -> update_document u = d -> slot u = Some k0 -> Sender_send u s = (s', r) ->
  faithful d (s', mkUpdateLog (log_sent l ++ accepted r u) (log_taken l)).
Proof.
  intros [Hok Hd Hn Hy] Hu Hk0 E. simpl in *. destruct r as [[]|e].
  - pose proof (Sender_send_ok u s k0 Hk0 Hok) as Hok'. rewrite E in Hok'.
    destruct (Sender_send_slots u s s' k0 Hok Hk0 E) as (Hd' & Hs' & Hy').
    rewrite (filter_same_document _ u d Hd Hu) in Hs', Hy'. change (accepted (Ok ()) u) with [u]. split; simpl; [done|by rewrite <- Hu| |].
    + intros k. unfold newest in *. specialize (Hn k). rewrite in_slot_app in Hn |- *.
      rewrite Hs', in_slot_app, in_slot_one, Hk0. destruct (decide (k = k0)) as [->|].
      * rewrite decide_True by done. by rewrite !last_snoc.
      * rewrite decide_False by congruence. by rewrite app_nil_r.
    + unfold syncs in *. rewrite filter_app in Hy. rewrite !filter_app, Hy', (filter_cons_False _ u) by congruence.
      simpl. by rewrite app_nil_r.
  - destruct (Sender_send_Err _ _ _ _ E) as [-> _]. simpl. rewrite app_nil_r. by split.
Qed.

Lemma faithful_step (d : DocumentId) (op : UpdateOp) (sl : UpdateState * UpdateLog) :
  op_of d op -> faithful d sl -> faithful d (update_step op sl).
Proof.
  destruct sl as [s l]. intros Hop Hf. pose proof (fa_ok _ _ Hf) as Hok. simpl in Hok.
  pose proof (update_step_ok op s l Hok) as Hok'.
  destruct op as [y|c|d' a n| | |d'|]; simpl in *; try done.
  - destruct (try_send_sync y s) as [s' r] eqn:E. simpl in *.
    destruct (try_send_sync_spec _ _ _ _ E) as [(-> & Hp & _ & Hp')|[Hr ->]].
    + destruct Hf as [_ Hd Hn Hy]. simpl in *. rewrite Hp in *. rewrite app_nil_r in *.
      split; simpl; [done|rewrite Hp'; by constructor| |].
      * intros k. rewrite Hp'. unfold newest in *. rewrite !in_slot_app, !in_slot_one. simpl.
        rewrite !app_nil_r. apply Hn.
      * rewrite Hp'. unfold syncs in *. rewrite !filter_app. f_equal. done.
    + assert (Hnil : (match r with Ok true => [UpdateSync y] | _ => [] end) = []) by (by destruct r as [[|]|]).
      rewrite Hnil, app_nil_r. by destruct l.
  - unfold send_cookie in *. destruct (CookieStateSnapshot_validate c) as [[]|e].
    + destruct (Sender_send _ s) as [s' r] eqn:E. by eapply send_faithful.
    + simpl. rewrite app_nil_r. by destruct l.
  - unfold send_storage in *. destruct (StorageAreaSnapshot_validate n) as [[]|e].
    + destruct (Sender_send _ s) as [s' r] eqn:E. by eapply send_faithful.
    + simpl. rewrite app_nil_r. by destruct l.
  - destruct (Receiver_take s) as [s' o] eqn:E. apply Receiver_take_spec in E. destruct Hf as [_ Hd Hn Hy].
    simpl in *. rewrite E in Hd, Hn, Hy. split; simpl; [done| | |].
    + by apply Forall_app in Hd as [_ ?].
    + intros k. by rewrite <- app_assoc.
    + by rewrite <- app_assoc.
  - destruct Hf as [_ ? ? ?]. by split.
Qed.

(** C18. C. For one document nothing a page needs is lost on the way to its renderer: of
    the corrections taken and waiting, the last of each slot is the last one
    accepted for it; and the storage synchronisations are all there, in order. *)
Theorem newest_update_wins (d : DocumentId) (ops : list UpdateOp) :
  Forall (op_of d) ops ->
  let r := update_run ops (updates_bounded, mkUpdateLog [] []) in
  (forall k, newest k (log_taken r.2 ++ up_pending r.1) = newest k (log_sent r.2))
  /\ syncs (log_taken r.2 ++ up_pending r.1) = syncs (log_sent r.2).
Proof.
  intros Hops r. enough (faithful d r) as [_ _ ? ?] by done.
  assert (H : forall sl, faithful d sl -> faithful d (update_run ops sl)).
  { clear r. induction Hops as [|op ops Hop _ IH]; intros sl Hsl; [done|]. apply IH. by apply faithful_step. }
  apply H. split; simpl; [apply updates_ok_initial|by constructor|done|done].
Qed.
Lemma newest_update_wins_witness :
  let d := NonzeroId (@Word u64_max 7%N eq_refl) eq_refl in
  let cookie v := mkCookieSnapshot d v (Str "a=1" eq_refl) in
  let area v := mkSnapshot v [] in
  let ops := [DoStorage d LocalArea (area 2%N); DoCookie (cookie (@Word u64_max 2%N eq_refl)); DoTake;
              DoStorage d LocalArea (area 3%N); DoCookie (cookie (@Word u64_max 3%N eq_refl));
              DoStorage d LocalArea (area 4%N); DoComplete; DoTake] in
  let r := update_run ops (updates_bounded, mkUpdateLog [] []) in
  length (log_taken r.2) = 2%nat /\ length (up_pending r.1) = 1%nat /\ up_coalesced r.1 = 2%N
  /\ newest (StorageSlot d LocalArea) (log_taken r.2 ++ up_pending r.1) = Some (UpdateStorage d LocalArea (area 4%N)).
Proof.
  intros d cookie area ops r. split_and!; [done|done|done|].
  destruct (newest_update_wins d ops) as [H _]; [by repeat constructor|]. rewrite H. done.
Defined.
