(* ===== verification/Outbound.v ===== *)
(** * Outbound: the browser's writes to a renderer

    src/renderer_process/broker/outbound.rs: a bounded mailbox between the broker,
    which must not block, and the thread that writes frames. The mailbox is its
    [State] and the channel's messages; [ob_running] says that the thread still
    holds the receiving end. *)

From Stdlib Require Import Strings.Byte.
From S2P Require Import Prelude Text Limits Words Protocol Transfers Messages MessageTheory Frames PipeTheory.

Record Outbound := mkOutbound {
  ob_messages : list BrowserMessage; ob_queued : N; ob_open : bool; ob_failure : option ProtocolError;
  ob_running : bool }.
Definition Outbound_new : Outbound := mkOutbound [] 0 true None true.
Inductive OutboundError := WriterFailed (e : ProtocolError) | WriterExited | BacklogExhausted.

(** The counter goes up before the message goes into the channel; no step of the
    thread can come between that shows. *)
Definition Outbound_send (m : BrowserMessage) (ob : Outbound) : Outbound * result OutboundError () :=
  match ob_failure ob with
  | Some e => (ob, Err (WriterFailed e))
  | None =>
      if negb (ob_open ob) then (ob, Err WriterExited)
      else if (MAX_QUEUED_BROWSER_WRITES <=? ob_queued ob)%N then (ob, Err BacklogExhausted)
      else if ob_running ob
      then (mkOutbound (ob_messages ob ++ [m]) (ob_queued ob + 1) (ob_open ob) None true, Ok tt)
      else (mkOutbound (ob_messages ob) (ob_queued ob + 1 - 1) false None false, Err WriterExited)
  end.
Definition has_page_command_capacity (ob : Outbound) : bool :=
  ob_open ob && (match ob_failure ob with None => true | Some _ => false end) && (ob_queued ob <? MAX_QUEUED_BROWSER_COMMANDS)%N.
Definition has_background_command_capacity (ob : Outbound) : bool :=
  ob_open ob && (match ob_failure ob with None => true | Some _ => false end) && (ob_queued ob =? 0)%N.
Definition take_failure (ob : Outbound) : Outbound * option ProtocolError :=
  (mkOutbound (ob_messages ob) (ob_queued ob) (ob_open ob) None (ob_running ob), ob_failure ob).

(** Sending several, as the callers' [?] does. *)
Fixpoint send_messages (ms : list BrowserMessage) (ob : Outbound) : Outbound * result OutboundError () :=
  match ms with
  | [] => (ob, Ok tt)
  | m :: ms => match Outbound_send m ob with (ob, Ok _) => send_messages ms ob | (ob, Err e) => (ob, Err e) end
  end.

(** ** The thread ([run])

    One turn writes a message and records the outcome; the thread then looks once
    more at the failure, which the broker may have taken in between. *)
Record WriterThread := mkThread { th_writer : FrameWriter; th_looking : bool }.
Definition thread_step (t : WriterThread) (ob : Outbound) : WriterThread * Outbound :=
  if negb (ob_running ob) then (t, ob)
  else if th_looking t
  then (mkThread (th_writer t) false,
        match ob_failure ob with
        | Some _ => mkOutbound [] (ob_queued ob) (ob_open ob) (ob_failure ob) false
        | None => ob
        end)
  else
    match ob_messages ob with
    | [] => (t, ob)
    | m :: ms =>
        let (w, r) := send_browser m (th_writer t) in
        (mkThread w true,
         match r with
         | Ok _ => mkOutbound ms (ob_queued ob - 1) (ob_open ob) (ob_failure ob) true
         | Err e => mkOutbound ms (ob_queued ob - 1) false (Some e) true
         end)
    end.

(** ** Both sides at work *)
Inductive OutboundStep := Send (m : BrowserMessage) | Turn.
(** The steps, with the messages [Outbound_send] accepted. *)
Fixpoint outbound_run (steps : list OutboundStep) (t : WriterThread) (ob : Outbound)
    : WriterThread * Outbound * list BrowserMessage :=
  match steps with
  | [] => (t, ob, [])
  | Turn :: steps => let (t, ob) := thread_step t ob in outbound_run steps t ob
  | Send m :: steps =>
      match Outbound_send m ob with
      | (ob, Ok _) => let '(t, ob, l) := outbound_run steps t ob in (t, ob, m :: l)
      | (ob, Err _) => outbound_run steps t ob
      end
  end.
Definition sane (ob : Outbound) : Prop :=
  ob_queued ob = N.of_nat (length (ob_messages ob)) /\ (ob_queued ob <= MAX_QUEUED_BROWSER_WRITES)%N
  /\ ob_open ob = true /\ ob_failure ob = None /\ ob_running ob = true.
(** A failed thread looks once and leaves. *)
Definition stuck (t : WriterThread) (ob : Outbound) : Prop :=
  ob_failure ob <> None /\ (th_looking t = true \/ ob_running ob = false).

Lemma Outbound_send_sane (m : BrowserMessage) (ob ob' : Outbound) (r : result OutboundError ()) :
  sane ob -> Outbound_send m ob = (ob', r) ->
  (r = Ok tt /\ sane ob' /\ ob_messages ob' = ob_messages ob ++ [m]) \/ (r = Err BacklogExhausted /\ ob' = ob).
Proof.
  intros (Hq & Hb & Ho & Hf & Hr). unfold Outbound_send. rewrite Hf, Ho, Hr. simpl.
  destruct (_ <=? _)%N eqn:E; intros [= <- <-]; [by right|]. left. split_and!; try done. unfold sane. simpl.
  rewrite length_app. simpl. split_and!; try done; lia.
Qed.
Lemma thread_step_sane (t t' : WriterThread) (ob ob' : Outbound) :
  sane ob -> thread_step t ob = (t', ob') ->
  (sane ob' /\ exists ms, ob_messages ob = ms ++ ob_messages ob' /\ send_all send_browser ms (th_writer t) = (th_writer t', length ms))
  \/ (stuck t' ob' /\ exists m l, ob_messages ob = m :: l /\ send_all send_browser [m] (th_writer t) = (th_writer t', O)).
Proof.
  intros (Hq & Hb & Ho & Hf & Hr). unfold thread_step. rewrite Hr, Hf. simpl.
  destruct (th_looking t). { intros [= <- <-]. left. split; [by split_and!|]. by exists []. }
  destruct (ob_messages ob) as [|m ms] eqn:Em.
  { intros [= <- <-]. left. split; [split_and!; by rewrite ?Em|]. by exists []. }
  destruct (send_browser m (th_writer t)) as [w [[]|e]] eqn:Es; intros [= <- <-]; simpl.
  - left. split.
    + unfold sane. simpl. simpl in Hq. split_and!; try done; lia.
    + exists [m]. simpl. rewrite Es. done.
  - right. split; [split; [done|by left]|]. exists m, ms. rewrite Es. done.
Qed.

Lemma stuck_run (steps : list OutboundStep) (t : WriterThread) (ob : Outbound) : stuck t ob ->
  exists t' ob', outbound_run steps t ob = (t', ob', []) /\ th_writer t' = th_writer t /\ stuck t' ob'.
Proof.
  revert t ob. induction steps as [|[m|] steps IH]; intros t ob Hs; [by exists t, ob|..]; simpl.
  - destruct Hs as [Hf Hr]. unfold Outbound_send. destruct (ob_failure ob) eqn:E; [|done]. apply IH. split; [congruence|done].
  - destruct (thread_step t ob) as [t1 ob1] eqn:E.
    assert (H1 : stuck t1 ob1 /\ th_writer t1 = th_writer t).
    { destruct Hs as [Hf Hr]. unfold thread_step in E. destruct (ob_running ob) eqn:Er; simpl in E.
      - destruct Hr as [Hr|]; [|done]. rewrite Hr in E. destruct (ob_failure ob) eqn:Ef; [|done].
        injection E as <- <-. split; [|done]. split; [done|by right].
      - injection E as <- <-. split; [|done]. split; [done|by right]. }
    destruct H1 as [H1 Hw]. destruct (IH t1 ob1 H1) as (t' & ob' & -> & Hw' & Hs'). exists t', ob'. by rewrite Hw', Hw.
Qed.

Lemma send_all_app (ms ns : list BrowserMessage) (w w1 : FrameWriter) :
  send_all send_browser ms w = (w1, length ms) ->
  send_all send_browser (ms ++ ns) w = (let (w2, n) := send_all send_browser ns w1 in (w2, (length ms + n)%nat)).
Proof.
  revert w. induction ms as [|m ms IH]; simpl; intros w; [intros [= ->]; by destruct (send_all _ _ _)|].
  destruct (send_browser m w) as [w0 [[]|e]]; [|done]. destruct (send_all send_browser ms w0) as [w' n] eqn:E.
  intros [= -> ->]. rewrite (IH w0 E). by destruct (send_all _ _ _).
Qed.

Lemma outbound_run_writes (steps : list OutboundStep) : forall (t t' : WriterThread) (ob ob' : Outbound) (l : list BrowserMessage),
  sane ob -> outbound_run steps t ob = (t', ob', l) ->
  exists ms k, ms `prefix_of` (ob_messages ob ++ l) /\ send_all send_browser ms (th_writer t) = (th_writer t', k)
    /\ ((k = length ms /\ sane ob' /\ ob_messages ob ++ l = ms ++ ob_messages ob') \/ (S k = length ms /\ stuck t' ob')).
Proof.
  induction steps as [|[m|] steps IH]; intros t t' ob ob' l Hs; simpl.
  - intros [= <- <- <-]. exists [], O. split_and!; [apply prefix_nil|done|]. left. by rewrite app_nil_r.
  - destruct (Outbound_send m ob) as [ob1 r] eqn:E.
    destruct (Outbound_send_sane m ob ob1 r Hs E) as [(-> & Hs1 & Hm)|(-> & ->)]; [|by apply IH].
    destruct (outbound_run steps t ob1) as [[t2 ob2] l2] eqn:E2. intros [= <- <- <-].
    destruct (IH _ _ _ _ _ Hs1 E2) as (ms & k & Hpre & Hall & Hend). rewrite Hm, <- app_assoc in *.
    exists ms, k. by split_and!.
  - destruct (thread_step t ob) as [t1 ob1] eqn:E. intros Hrun.
    destruct (thread_step_sane t t1 ob ob1 Hs E) as [(Hs1 & ms & Hm & Hall)|(Hs1 & m & rest & Hm & Hall)].
    + destruct (IH _ _ _ _ _ Hs1 Hrun) as (ns & k & Hpre & Hall' & Hend).
      exists (ms ++ ns), (length ms + k)%nat. rewrite Hm, <- !app_assoc. split_and!.
      * by apply prefix_app.
      * rewrite (send_all_app ms ns _ _ Hall), Hall'. done.
      * rewrite length_app. destruct Hend as [(-> & Hs2 & Heq)|[Hk Hs2]]; [left|right].
        -- by rewrite Heq.
        -- split; [lia|done].
    + destruct (stuck_run steps t1 ob1 Hs1) as (t2 & ob2 & Hrun' & Hw & Hs2). rewrite Hrun in Hrun'.
      injection Hrun' as -> -> ->. exists [m], O. rewrite Hm, Hw. split_and!.
      * by exists (rest ++ []).
      * done.
      * right. by split.
Qed.

(** C. The broker never blocks on a renderer, and nothing it was allowed to send is
    reordered: whatever the interleaving with the writing thread and wherever the
    pipe breaks, the renderer receives the first of the accepted messages; while the
    pipe holds, all of them but those that still wait, which are at most 4096. *)
Theorem outbound_delivers (session : RendererSessionId) (budget : option N) (steps : list OutboundStep)
    (t : WriterThread) (ob : Outbound) (l : list BrowserMessage) :
  outbound_run steps (mkThread (FrameWriter_new (mkSink [] budget) session) false) Outbound_new = (t, ob, l) ->
  Forall browser_sendable l ->
  exists k, receive_all read_browser (S k) (FrameReader_new (accepted (fw_inner (th_writer t))) session)
            = (take k l, Some (IpcIo "unexpected end of file"))
    /\ (ob_failure ob = None ->
         l = take k l ++ ob_messages ob /\ (len (ob_messages ob) <= MAX_QUEUED_BROWSER_WRITES)%N).
Proof.
  intros Hrun Hl. assert (Hs : sane Outbound_new) by done.
  destruct (outbound_run_writes _ _ _ _ _ _ Hs Hrun) as (ms & k & [ns Hpre] & Hall & Hend). simpl in *. subst l.
  exists k. apply Forall_app in Hl as [Hms _].
  pose proof (pipe_from_fresh Browser encode_browser decode_browser browser_sendable session budget ms _ k Hms Hall) as Hr.
  assert (Htake : take k (ms ++ ns) = take k ms) by (rewrite take_app_le; [done|destruct Hend as [[-> _]|[? _]]; lia]).
  rewrite Htake. split; [exact Hr|]. intros Hf.
  destruct Hend as [(-> & Hs' & Heq)|[_ [Hn _]]]; [|done]. rewrite firstn_all. split; [done|].
  destruct Hs' as (Hq & Hb & _). unfold len. lia.
Qed.
Lemma outbound_delivers_witness :
  let session := NonzeroId (to_word u64_max 7) eq_refl in
  let steps := [Send (BmPing (to_word u64_max 5)); Send BmShutdown; Turn; Send (BmPing (to_word u64_max 6)); Turn; Turn] in
  let r := outbound_run steps (mkThread (FrameWriter_new (mkSink [] None) session) false) Outbound_new in
  length r.2 = 3%nat /\ ob_messages r.1.2 = [BmPing (to_word u64_max 6)]
  /\ exists k, receive_all read_browser (S k) (FrameReader_new (accepted (fw_inner (th_writer r.1.1))) session)
               = (take k r.2, Some (IpcIo "unexpected end of file"))
       /\ (ob_failure r.1.2 = None ->
            r.2 = take k r.2 ++ ob_messages r.1.2 /\ (len (ob_messages r.1.2) <= MAX_QUEUED_BROWSER_WRITES)%N).
Proof.
  intros session steps r. split; [vm_compute; reflexivity|]. split; [vm_compute; reflexivity|].
  apply (outbound_delivers session None steps).
  - rewrite <- !surjective_pairing. reflexivity.
  - repeat constructor.
Defined.
