(* ===== verification/BulkTransfers.v ===== *)
(** * BulkTransfers: requests with bodies, and bodies in chunks

    The requests and responses of src/renderer_protocol/fetch.rs that carry a body,
    and how both ends cut a body into chunks of a MiB ([send_browser_chunks] of
    broker/worker/document/transfer.rs, [send_renderer_chunks] of
    child/connection.rs). *)

From Stdlib Require Import Strings.Byte.
From S2P Require Import Prelude Text Limits Words Protocol PayloadFields FetchRequest Csp DevicePayloads Transfers FetchPayloads.

(** ** Requests (src/renderer_protocol/fetch.rs) *)
Definition streams_response (i : FetchInitiator) : bool :=
  match i with ByScriptApi | ByChildNavigation | ByChildResource => true | _ => false end.
Definition add_length (total : option N) (s : ustring) : option N := t ← total; checked_add t (byte_length s).
Definition metadata_bytes (h : FetchRequestHead) : option N :=
  let total := checked_add (byte_length (frh_url h)) (byte_length (frh_method h)) in
  let total := match frh_referrer h with ReferUrl url => add_length total url | _ => total end in
  let total := match frh_script_source h ≫= nonce with
               | Some n => t ← total; checked_add t (byte_length n)
               | None => total
               end in
  foldl (fun t nv => add_length (add_length t nv.1) nv.2) total (frh_headers h).
Record RendererFetchRequest := mkFetchRequest { rfr_head : FetchRequestHead; rfr_body : list byte }.
Definition RendererFetchRequest_validate (r : RendererFetchRequest) : result ProtocolError () :=
  _ ← FetchRequestHead_validate (rfr_head r);
  reject (negb (len (rfr_body r) =? frh_body_length (rfr_head r))%N) "renderer Fetch body length".

Record BrowserFetchResponse := mkBrowserResponse { bfr_head : FetchResponseHead; bfr_body : list byte }.

(** ** Chunks *)
Definition CHUNK_BYTES : nat := N.to_nat (1024 * 1024).
(** [slice::chunks] *)
Fixpoint chunks_within (fuel size : nat) (l : list byte) : list (list byte) :=
  match fuel, l with
  | S fuel, _ :: _ => take size l :: chunks_within fuel size (drop size l)
  | _, _ => []
  end.
Definition chunks (size : nat) (l : list byte) : list (list byte) := chunks_within (length l) size l.
Lemma CHUNK_BYTES_value : N.of_nat CHUNK_BYTES = (1024 * 1024)%N.
Proof. apply N2Nat.id. Qed.
Lemma CHUNK_BYTES_pos : (0 < CHUNK_BYTES)%nat.
Proof. pose proof CHUNK_BYTES_value. lia. Qed.
Fixpoint numbered (transfer_id : u64) (size : nat) (offset : N) (cs : list (list byte)) : list TransferChunk :=
  match cs with
  | [] => []
  | c :: cs => mkChunk transfer_id (to_word 4294967295 offset) c :: numbered transfer_id size (offset + N.of_nat size) cs
  end.
Lemma contents_cons (c : TransferChunk) (cs : list TransferChunk) : contents (c :: cs) = tc_bytes c ++ contents cs.
Proof. done. Qed.
Lemma numbered_contents (transfer_id : u64) (size : nat) (offset : N) (cs : list (list byte)) :
  contents (numbered transfer_id size offset cs) = concat cs.
Proof.
  revert offset. induction cs as [|c cs IH]; intros offset; [done|]. cbn [numbered]. rewrite contents_cons, IH. done.
Qed.
Lemma chunks_within_concat (size fuel : nat) (l : list byte) :
  (0 < size)%nat -> (length l <= fuel)%nat -> concat (chunks_within fuel size l) = l.
Proof.
  intros Hs. revert l. induction fuel as [|fuel IH]; intros [|x l] Hl; try done; [simpl in Hl; lia|].
  cbn [chunks_within concat]. rewrite IH; [apply take_drop|]. rewrite length_drop. simpl in Hl |- *. lia.
Qed.
Lemma chunks_well_sent (transfer_id : u64) (size fuel : nat) (l : list byte) (from : N) :
  (0 < size)%nat -> (length l <= fuel)%nat -> (from + len l <= 4294967295)%N ->
  well_sent transfer_id from (numbered transfer_id size from (chunks_within fuel size l)).
Proof.
  intros Hs. revert l from. induction fuel as [|fuel IH]; intros [|x l] from Hl Hm; try (by split).
  cbn [chunks_within numbered]. apply well_sent_cons. cbn [tc_transfer_id tc_offset tc_bytes].
  split_and!; [done|apply val_to_word; lia|].
  destruct (decide (size <= length (x :: l))%nat) as [Hle|Hgt].
  - replace (from + len (take size (x :: l)))%N with (from + N.of_nat size)%N
      by (unfold len; rewrite length_take; lia).
    apply IH; [rewrite length_drop; simpl in *; lia|]. unfold len in *. rewrite length_drop. lia.
  - rewrite drop_ge by lia. destruct fuel; by split.
Qed.
Lemma chunks_count (size fuel : nat) (l : list byte) :
  (0 < size)%nat -> (length (chunks_within fuel size l) * size < length l + size)%nat.
Proof.
  intros Hs. revert l. induction fuel as [|fuel IH]; intros [|x l]; try (simpl; lia).
  cbn [chunks_within length]. specialize (IH (drop size (x :: l))). rewrite length_drop in IH. cbn [length] in IH |- *.
  destruct (decide (size <= S (length l))%nat); [lia|].
  rewrite drop_ge in * by (simpl; lia). destruct fuel; simpl; lia.
Qed.

