(* ===== verification/ChildState.v ===== *)
(** * ChildState: a document arrives in its renderer

    The renderer's half of a document transfer: the assembly of the browser's
    state snapshots (src/renderer_process/child/connection/state.rs) and of the
    document's body (child/connection/runtime.rs, [begin_document] to
    [finish_document], for a body of declared length). What the runtime does with
    the document is outside: [LoadDocument], [ReplaceCookie] and [ReplaceStorage]
    are what it is handed. A runtime that refuses [ReplaceStorage] ends the renderer
    before the acknowledgement. *)

From Stdlib Require Import Strings.Byte.
From S2P Require Import Prelude Text Limits Words Protocol WebStorage LocalStore StorageSync Transfers DevicePayloads DocumentPayloads StatePayloads Messages StateUpdates.

(** ** Assembling a storage snapshot *)
Record IncomingStorage := mkIncomingStorage {
  is_document : DocumentId; is_area : StorageAreaKind; is_version : u64;
  is_expected : N; is_bytes : N; is_entries : list StorageEntry }.
(** The renderer's errors; a mismatch prints both sides. *)
Inductive ChildError :=
  | ChildRefused (detail : string)
  | ChildProtocol (e : ProtocolError)
  | ChildStorage (e : StorageError)
  | CompletionMismatch (expected : IncomingStorage) (received : StorageSnapshotEnd).
Definition protocol {A} (r : result ProtocolError A) : result ChildError A := map_err ChildProtocol r.

Definition IncomingStorage_new (start : StorageSnapshotStart) : result ChildError IncomingStorage :=
  _ ← protocol (StorageSnapshotStart_validate start);
  Ok (mkIncomingStorage (ss_document start) (ss_area start) (ss_version start) (val (ss_entry_count start)) 0 []).
Definition IncomingStorage_entry (s : IncomingStorage) (item : StorageSnapshotEntry) : result ChildError IncomingStorage :=
  _ ← protocol (StorageSnapshotEntry_validate item);
  if negb (bool_decide (sse_document item = is_document s)) || negb (bool_decide (sse_area item = is_area s))
     || (is_expected s <=? len (is_entries s))%N
  then Err (ChildRefused "storage snapshot entry identity or count mismatch")
  else
    bytes ← ok_or (checked_add (is_bytes s) (byte_len (entry_key (sse_entry item)))
                     ≫= fun total => checked_add total (byte_len (entry_value (sse_entry item))))
                  (ChildRefused "storage snapshot byte length overflow");
    if (MAX_STORAGE_BYTES_PER_ORIGIN <? bytes)%N then Err (ChildRefused "storage snapshot exceeded its byte budget")
    else Ok (mkIncomingStorage (is_document s) (is_area s) (is_version s) (is_expected s) bytes
               (is_entries s ++ [sse_entry item])).
Definition IncomingStorage_finish (s : IncomingStorage) (stop : StorageSnapshotEnd) : result ChildError StorageAreaSnapshot :=
  _ ← protocol (StorageSnapshotEnd_validate stop);
  if negb (bool_decide (send_document stop = is_document s)) || negb (bool_decide (send_area stop = is_area s))
     || negb (bool_decide (send_version stop = is_version s)) || negb (len (is_entries s) =? is_expected s)%N
  then Err (CompletionMismatch s stop)
  else
    let snapshot := mkSnapshot (val (is_version s)) (is_entries s) in
    _ ← map_err ChildStorage (StorageAreaSnapshot_validate snapshot);
    Ok snapshot.

(** ** Assembling a document's state *)
Record IncomingDocumentState := mkIncomingState {
  ids_document : DocumentId; ids_cookie : option (u64 * ustring); ids_active : option IncomingStorage;
  ids_local : option StorageAreaSnapshot; ids_session : option StorageAreaSnapshot }.
Definition IncomingDocumentState_new (document : DocumentId) : IncomingDocumentState :=
  mkIncomingState document None None None None.
Definition has {A} (o : option A) : bool := match o with Some _ => true | None => false end.
Definition area_is_complete (s : IncomingDocumentState) (a : StorageAreaKind) : bool :=
  match a with LocalArea => has (ids_local s) | SessionArea => has (ids_session s) end.
Definition with_active (s : IncomingDocumentState) (o : option IncomingStorage) : IncomingDocumentState :=
  mkIncomingState (ids_document s) (ids_cookie s) o (ids_local s) (ids_session s).

Definition state_cookie (snapshot : CookieStateSnapshot) (s : IncomingDocumentState)
    : IncomingDocumentState * result ChildError () :=
  if negb (bool_decide (cs_document snapshot = ids_document s)) || has (ids_cookie s) || (cs_version snapshot =? 0)%N
  then (s, Err (ChildRefused "cookie snapshot identity or order mismatch"))
  else (mkIncomingState (ids_document s) (Some (cs_version snapshot, cs_header snapshot)) (ids_active s)
          (ids_local s) (ids_session s), Ok tt).
Definition state_storage_start (start : StorageSnapshotStart) (s : IncomingDocumentState)
    : IncomingDocumentState * result ChildError () :=
  if negb (bool_decide (ss_document start = ids_document s)) || has (ids_active s) || area_is_complete s (ss_area start)
  then (s, Err (ChildRefused "storage snapshot identity or order mismatch"))
  else
    match IncomingStorage_new start with
    | Ok active => (with_active s (Some active), Ok tt)
    | Err e => (s, Err e)
    end.
Definition state_storage_entry (item : StorageSnapshotEntry) (s : IncomingDocumentState)
    : IncomingDocumentState * result ChildError () :=
  match ids_active s with
  | None => (s, Err (ChildRefused "unsolicited storage snapshot entry"))
  | Some active =>
      match IncomingStorage_entry active item with
      | Ok active => (with_active s (Some active), Ok tt)
      | Err e => (s, Err e)
      end
  end.
(** The transfer is taken out before it is checked. *)
Definition state_storage_end (stop : StorageSnapshotEnd) (s : IncomingDocumentState)
    : IncomingDocumentState * result ChildError () :=
  match ids_active s with
  | None => (s, Err (ChildRefused "unsolicited storage snapshot completion"))
  | Some active =>
      let s := with_active s None in
      match IncomingStorage_finish active stop with
      | Err e => (s, Err e)
      | Ok snapshot =>
          match is_area active with
          | LocalArea => (mkIncomingState (ids_document s) (ids_cookie s) None (Some snapshot) (ids_session s), Ok tt)
          | SessionArea => (mkIncomingState (ids_document s) (ids_cookie s) None (ids_local s) (Some snapshot), Ok tt)
          end
      end
  end.
Definition state_finish (s : IncomingDocumentState) : result ChildError DocumentState :=
  cookie ← ok_or (ids_cookie s) (ChildRefused "document omitted its cookie snapshot");
  _ ← ensure (negb (has (ids_active s))) (ChildRefused "document ended inside a storage snapshot");
  local ← ok_or (ids_local s) (ChildRefused "document omitted localStorage state");
  session ← ok_or (ids_session s) (ChildRefused "document omitted sessionStorage state");
  let state := mkDocumentState cookie.1 cookie.2 local session in
  _ ← protocol (DocumentState_validate state);
  Ok state.

(** ** The connection's part ([ChildConnection]) *)
Record IncomingDocument := mkIncomingDocument {
  id_start : DocumentStart; id_state : IncomingDocumentState; id_body : TransferAssembler }.
Record ChildDocuments := mkChild {
  ch_incoming : option IncomingDocument;
  ch_runtime : option DocumentId;          (* the runtime's document *)
  ch_failed : option DocumentId;
  ch_update : option IncomingStorage }.
Inductive ChildEffect :=
  | LoadDocument (start : DocumentStart) (state : DocumentState) (body : list byte)
  | ReplaceCookie (document : DocumentId) (version : u64) (header : ustring)
  | ReplaceStorage (document : DocumentId) (area : StorageAreaKind) (snapshot : StorageAreaSnapshot)
  | SendApplied (applied : StateSnapshotApplied).
Definition Handled : Type := ChildDocuments * result ChildError (list ChildEffect).

Definition begin_document (start : DocumentStart) (c : ChildDocuments) : Handled :=
  match DocumentStart_validate start with
  | Err e => (c, Err (ChildProtocol e))
  | Ok _ =>
      if has (ch_incoming c) || has (ch_runtime c) then (c, Err (ChildRefused "renderer already owns a document"))
      else
        match TransferAssembler_new (id_value (dst_document start)) (to_word u64_max (body_length start))
                (to_word u64_max MAX_RESPONSE_BODY_BYTES) with
        | Err e => (mkChild None None None (ch_update c), Err (ChildProtocol e))
        | Ok body =>
            (mkChild (Some (mkIncomingDocument start (IncomingDocumentState_new (dst_document start)) body))
               None None (ch_update c), Ok [])
        end
  end.
Definition document_chunk (chunk : TransferChunk) (c : ChildDocuments) : Handled :=
  match ch_incoming c with
  | None => (c, Err (ChildRefused "unsolicited document chunk"))
  | Some i =>
      let (body, r) := TransferAssembler_push (id_body i) chunk in
      (mkChild (Some (mkIncomingDocument (id_start i) (id_state i) body)) (ch_runtime c) (ch_failed c) (ch_update c),
       match r with Ok _ => Ok [] | Err e => Err (ChildProtocol e) end)
  end.
Definition finish_document (document : DocumentId) (c : ChildDocuments) : Handled :=
  match ch_incoming c with
  | None => (c, Err (ChildRefused "unsolicited document completion"))
  | Some i =>
      let c := mkChild None (ch_runtime c) (ch_failed c) (ch_update c) in
      (c, if negb (bool_decide (dst_document (id_start i) = document))
          then Err (ChildRefused "document completion identity mismatch")
          else
            body ← protocol (TransferAssembler_finish (id_body i) (id_value document));
            state ← state_finish (id_state i);
            Ok [LoadDocument (id_start i) state body])
  end.

(** To the incoming document's state, where there is one. *)
Definition to_incoming (i : IncomingDocument) (c : ChildDocuments) (sr : IncomingDocumentState * result ChildError ())
    : Handled :=
  (mkChild (Some (mkIncomingDocument (id_start i) sr.1 (id_body i))) (ch_runtime c) (ch_failed c) (ch_update c),
   match sr.2 with Ok _ => Ok [] | Err e => Err e end).
Definition is_this (o : option DocumentId) (d : DocumentId) : bool := bool_decide (o = Some d).
Definition with_update (c : ChildDocuments) (o : option IncomingStorage) : ChildDocuments :=
  mkChild (ch_incoming c) (ch_runtime c) (ch_failed c) o.

Definition document_state_cookie (snapshot : CookieStateSnapshot) (c : ChildDocuments) : Handled :=
  match ch_incoming c with
  | Some i => to_incoming i c (state_cookie snapshot (id_state i))
  | None =>
      (c,
       _ ← protocol (CookieStateSnapshot_validate snapshot);
       let applied := mkApplied (cs_document snapshot) CookieKind (cs_version snapshot) in
       if is_this (ch_failed c) (cs_document snapshot) then Ok [SendApplied applied]
       else if is_this (ch_runtime c) (cs_document snapshot)
       then Ok [ReplaceCookie (cs_document snapshot) (cs_version snapshot) (cs_header snapshot); SendApplied applied]
       else Err (ChildRefused "unsolicited cookie snapshot"))
  end.
Definition start_update (start : StorageSnapshotStart) (c : ChildDocuments) : Handled :=
  match IncomingStorage_new start with
  | Ok s => (with_update c (Some s), Ok [])
  | Err e => (c, Err e)
  end.
Definition document_state_start (start : StorageSnapshotStart) (c : ChildDocuments) : Handled :=
  match ch_incoming c with
  | Some i => to_incoming i c (state_storage_start start (id_state i))
  | None =>
      if is_this (ch_failed c) (ss_document start)
      then if has (ch_update c) then (c, Err (ChildRefused "nested storage snapshot")) else start_update start c
      else if has (ch_update c) || negb (is_this (ch_runtime c) (ss_document start))
      then (c, Err (ChildRefused "unsolicited storage snapshot"))
      else start_update start c
  end.
Definition document_state_entry (item : StorageSnapshotEntry) (c : ChildDocuments) : Handled :=
  match ch_incoming c with
  | Some i => to_incoming i c (state_storage_entry item (id_state i))
  | None =>
      match ch_update c with
      | None => (c, Err (ChildRefused "unsolicited storage snapshot entry"))
      | Some s =>
          match IncomingStorage_entry s item with
          | Ok s => (with_update c (Some s), Ok [])
          | Err e => (c, Err e)
          end
      end
  end.
Definition document_state_end (stop : StorageSnapshotEnd) (c : ChildDocuments) : Handled :=
  match ch_incoming c with
  | Some i => to_incoming i c (state_storage_end stop (id_state i))
  | None =>
      match ch_update c with
      | None => (c, Err (ChildRefused "unsolicited storage snapshot completion"))
      | Some s =>
          (with_update c None,
           snapshot ← IncomingStorage_finish s stop;
           let applied := mkApplied (is_document s) (area_kind (is_area s)) (to_word u64_max (snapshot_version snapshot)) in
           if is_this (ch_failed c) (is_document s) then Ok [SendApplied applied]
           else if is_this (ch_runtime c) (is_document s)
           then Ok [ReplaceStorage (is_document s) (is_area s) snapshot; SendApplied applied]
           else Err (ChildRefused "storage snapshot document is no longer active"))
      end
  end.

(** [cancel_navigation], but for the fetches and the media of the document. *)
Definition cancel_incoming (document : DocumentId) (c : ChildDocuments) : ChildDocuments :=
  mkChild
    (match ch_incoming c with
     | Some i => if bool_decide (dst_document (id_start i) = document) then None else Some i
     | None => None
     end)
    (if is_this (ch_runtime c) document then None else ch_runtime c)
    (ch_failed c)
    (match ch_update c with
     | Some s => if bool_decide (is_document s = document) then None else Some s
     | None => None
     end).

(** [ChildConnection::handle] for the messages of a document's transfer. *)
Definition handle_document_message (m : BrowserMessage) (c : ChildDocuments) : Handled :=
  match m with
  | BmBeginDocument start => begin_document start c
  | BmDocumentChunk chunk => document_chunk chunk c
  | BmEndDocument document => finish_document document c
  | BmCookieSnapshot snapshot => document_state_cookie snapshot c
  | BmStorageSnapshotStart start => document_state_start start c
  | BmStorageSnapshotEntry item => document_state_entry item c
  | BmStorageSnapshotEnd stop => document_state_end stop c
  | BmCancelDocument document => (cancel_incoming document c, Ok [])
  | _ => (c, Err (ChildRefused "not a message of a document's transfer"))
  end.
(** One message after the other, until an error ends the renderer. *)
Fixpoint handle_all (ms : list BrowserMessage) (c : ChildDocuments) : Handled :=
  match ms with
  | [] => (c, Ok [])
  | m :: ms =>
      match handle_document_message m c with
      | (c, Err e) => (c, Err e)
      | (c, Ok es) =>
          match handle_all ms c with
          | (c, Ok es') => (c, Ok (es ++ es'))
          | (c, Err e) => (c, Err e)
          end
      end
  end.

Lemma handle_all_app (ms ns : list BrowserMessage) (c c1 : ChildDocuments) (es : list ChildEffect) :
  handle_all ms c = (c1, Ok es) ->
  handle_all (ms ++ ns) c
  = match handle_all ns c1 with (c2, Ok es') => (c2, Ok (es ++ es')) | (c2, Err e) => (c2, Err e) end.
Proof.
  revert c es. induction ms as [|m ms IH]; simpl; intros c es.
  - intros [= <- <-]. by destruct (handle_all ns c) as [? []].
  - destruct (handle_document_message m c) as [c0 [e0|]]; [|done].
    destruct (handle_all ms c0) as [c' [es'|]] eqn:E; [|done]. intros [= -> <-].
    rewrite (IH c0 es' E). destruct (handle_all ns c1) as [? []]; [|done]. by rewrite app_assoc.
Qed.
Lemma handle_all_step (m : BrowserMessage) (ms : list BrowserMessage) (c c1 : ChildDocuments) (es : list ChildEffect) :
  handle_document_message m c = (c1, Ok es) ->
  handle_all (m :: ms) c
  = match handle_all ms c1 with (c2, Ok es') => (c2, Ok (es ++ es')) | (c2, Err e) => (c2, Err e) end.
Proof. intros H. simpl. by rewrite H. Qed.

(** ** A snapshot that is valid is assembled again *)
Lemma snapshot_total_step (acc total : N) (e : StorageEntry) (l : list StorageEntry) :
  snapshot_total acc (e :: l) = Ok total ->
  StorageEntry_validate e = Ok tt
  /\ checked_add acc (byte_len (entry_key e)) ≫= (fun v => checked_add v (byte_len (entry_value e)))
     = Some (acc + byte_len (entry_key e) + byte_len (entry_value e))%N
  /\ snapshot_total (acc + byte_len (entry_key e) + byte_len (entry_value e)) l = Ok total.
Proof.
  simpl. intros H. apply bind_Ok in H as ([] & He & H). apply bind_Ok in H as (n & Hn%ok_or_Ok & H).
  split; [done|]. apply bind_Some in Hn as (v & Hv & Hn). pose proof Hv as [E1 _]%checked_add_Some.
  pose proof Hn as [E2 _]%checked_add_Some. rewrite Hv. simpl. rewrite Hn. subst v n. done.
Qed.
Lemma snapshot_total_ge (acc total : N) (l : list StorageEntry) : snapshot_total acc l = Ok total -> (acc <= total)%N.
Proof.
  revert acc. induction l as [|e l IH]; intros acc H; [simpl in H; injection H; lia|].
  apply snapshot_total_step in H as (_ & _ & H). apply IH in H. lia.
Qed.

Section snapshot.
Context (document : DocumentId) (area : StorageAreaKind) (snapshot : StorageAreaSnapshot).
Context (Hvalid : StorageAreaSnapshot_validate snapshot = Ok tt) (Hversion : (snapshot_version snapshot <= u64_max)%N).
Let version := to_word u64_max (snapshot_version snapshot).
Let expected := len (snapshot_entries snapshot).

(** What [OutgoingStateUpdate::from] and [send_storage_snapshot] send between start and end. *)
Definition entry_messages (l : list StorageEntry) : list BrowserMessage :=
  (fun entry => BmStorageSnapshotEntry (mkSnapshotEntry document area entry)) <$> l.
Definition assembling (bytes : N) (l : list StorageEntry) : IncomingStorage :=
  mkIncomingStorage document area version expected bytes l.

Lemma snapshot_valid_parts :
  (snapshot_version snapshot =? 0)%N = false /\ (expected <= MAX_STORAGE_ENTRIES_PER_ORIGIN)%N
  /\ exists total, snapshot_total 0 (snapshot_entries snapshot) = Ok total /\ (total <= MAX_STORAGE_BYTES_PER_ORIGIN)%N.
Proof.
  unfold StorageAreaSnapshot_validate in Hvalid. destruct (_ || _) eqn:E; [done|].
  apply orb_false_iff in E as [E1 E2%N.ltb_ge]. split; [done|]. split; [exact E2|].
  apply bind_Ok in Hvalid as (total & Ht & H). exists total. split; [done|].
  destruct (MAX_STORAGE_BYTES_PER_ORIGIN <? total)%N eqn:E3; [done|]. by apply N.ltb_ge in E3.
Qed.
Lemma version_val : val version = snapshot_version snapshot.
Proof. by apply val_to_word. Qed.
Lemma expected_val : val (to_word 4294967295 expected) = expected.
Proof. apply val_to_word. destruct snapshot_valid_parts as (_ & H & _). unfold MAX_STORAGE_ENTRIES_PER_ORIGIN in H. lia. Qed.

Lemma start_assembles :
  IncomingStorage_new (mkSnapshotStart document area version (to_word 4294967295 expected)) = Ok (assembling 0 []).
Proof.
  destruct snapshot_valid_parts as (Hv & He & _). unfold IncomingStorage_new, StorageSnapshotStart_validate, reject.
  cbn [ss_version ss_entry_count ss_document ss_area]. rewrite version_val, expected_val, Hv.
  replace (_ <? _)%N with false by lia. done.
Qed.
Lemma entry_assembles (bytes : N) (l : list StorageEntry) (e : StorageEntry) (rest : list StorageEntry) (total : N) :
  snapshot_entries snapshot = l ++ e :: rest -> snapshot_total bytes (e :: rest) = Ok total ->
  (total <= MAX_STORAGE_BYTES_PER_ORIGIN)%N ->
  let bytes' := (bytes + byte_len (entry_key e) + byte_len (entry_value e))%N in
  IncomingStorage_entry (assembling bytes l) (mkSnapshotEntry document area e) = Ok (assembling bytes' (l ++ [e]))
  /\ snapshot_total bytes' rest = Ok total.
Proof.
  clear Hvalid Hversion. intros Hl Ht Hb bytes'. destruct (snapshot_total_step _ _ _ _ Ht) as (He & Hadd & Hrest). split; [|done].
  apply snapshot_total_ge in Hrest as Hge. unfold IncomingStorage_entry, StorageSnapshotEntry_validate.
  cbn [sse_entry sse_document sse_area assembling is_document is_area is_expected is_entries is_bytes].
  rewrite He, !bool_decide_eq_true_2 by done. simpl.
  replace (expected <=? len l)%N with false; [|symmetry; apply N.leb_gt; unfold expected; rewrite Hl, len_app; unfold len; simpl; lia].
  rewrite Hadd. simpl. fold bytes'. replace (_ <? bytes')%N with false; [done|].
  symmetry. apply N.ltb_ge. unfold bytes'. lia.
Qed.
Lemma end_assembles (bytes : N) :
  IncomingStorage_finish (assembling bytes (snapshot_entries snapshot)) (mkSnapshotEnd document area version) = Ok snapshot.
Proof.
  destruct snapshot_valid_parts as (Hv & _ & _). unfold IncomingStorage_finish, StorageSnapshotEnd_validate, reject.
  cbn [send_version send_document send_area assembling is_document is_area is_version is_entries is_expected].
  rewrite version_val, Hv, !bool_decide_eq_true_2 by done. cbn [negb orb ensure]. unfold expected. rewrite N.eqb_refl.
  simpl. destruct snapshot. simpl in *. rewrite Hvalid. done.
Qed.
End snapshot.
