(* ===== verification/Broker.v ===== *)
(** * Broker: the browser's end of a renderer

    The broker thread of src/renderer_process/broker/worker.rs: the document it
    serves and what it makes of the renderer's document messages
    (worker/document.rs, document/presentation.rs), the transfer of a document
    (document/transfer.rs), corrections and cancellation (worker/commands.rs), and
    the responses it forwards (worker/stream.rs).

    An event is published by the last action of a message's handler, so a handler's
    answer is the event it publishes, if any; the queue behind [emit_event] is not
    modelled. What a presentation is, its decoding, and the wording of errors are
    parameters. [Overflow]
    is an arithmetic overflow in the credit counters, which the theorems exclude. *)

From Stdlib Require Import Strings.Byte.
From S2P Require Import Prelude Text Limits Words Protocol WebStorage LocalStore StorageSync Wire PayloadFields FetchRequest Csp DevicePayloads MediaPayloads SensorPayloads FramePayloads Broadcast StatePayloads SocketPayloads Transfers DocumentPayloads FetchPayloads RuntimePayloads InputPayloads Handshake BulkTransfers Messages Frames FetchFlow StateUpdates Outbound.

(** ** Transfers under way *)
Record IncomingFetchRequest := mkIncomingRequest { ifr_head : FetchRequestHead; ifr_body : TransferAssembler }.
Record IncomingFetchBatch := mkIncomingBatch {
  ifb_document : DocumentId; ifb_batch_id : u64; ifb_expected : N; ifb_requests : list RendererFetchRequest;
  ifb_active : option IncomingFetchRequest; ifb_body_bytes : N; ifb_metadata_bytes : N }.
Record IncomingPresentation := mkIncomingPresentation {
  ipr_document : DocumentId; ipr_revision : u64; ipr_encode_micros : u64; ipr_body : TransferAssembler }.
Record OutgoingFetch := mkOutgoing { of_offset : N; of_allows_body : bool; of_streaming : bool }.
Record OutgoingStateUpdate := mkOutgoingUpdate {
  os_document : DocumentId; os_acknowledgement : StateSnapshotApplied; os_messages : list BrowserMessage }.
#[global] Instance StateSnapshotKind_eq_dec : EqDecision StateSnapshotKind.
Proof. solve_decision. Defined.
#[global] Instance StateSnapshotApplied_eq_dec : EqDecision StateSnapshotApplied.
Proof. solve_decision. Defined.

Inductive BrokerFailure := Refused (e : ProtocolError) | CannotSend (e : OutboundError) | Broken (detail : string) | Overflow.
Inductive ExitReason := ExitProtocolFailure (e : BrokerFailure) | ExitTerminated | ExitInternal (detail : ustring).

Section broker.
(** The wording of an error ([Display]). *)
Context (describe : BrokerFailure -> ustring).
Context {Presentation Items : Type}.
Context (decode_with_base : list byte -> option (u64 * Items) -> result ProtocolError Presentation).
Context (presentation_document : Presentation -> DocumentId) (presentation_revision : Presentation -> u64).
Context (presentation_items : Presentation -> Items) (with_micros : u64 -> u64 -> Presentation -> Presentation).

Inductive RendererEvent :=
  | EvFetchBatch (document : DocumentId) (requests : list RendererFetchRequest)
  | EvFetchAbort (document : DocumentId) (request_id : u64)
  | EvPresentation (presentation : Presentation)
  | EvRuntimeUpdate (update : RendererRuntimeUpdate)
  | EvDocumentFailed (document : DocumentId) (detail : ustring)
  | EvNavigationRequested (document : DocumentId) (url : ustring) (disposition : NavigationDisposition)
      (cause : NavigationCause)
  | EvPointerCursor (result : PointerCursorResult)
  | EvScrollCompleted (document : DocumentId) (sequence : u64)
  | EvTextSelectionUpdate (update : TextSelectionUpdate)
  | EvFullscreenRequested (request : FullscreenRequest)
  | EvPointerLockRequested (request : PointerLockRequest)
  | EvWakeLockRequested (request : WakeLockRequest)
  | EvCookieMutation (mutation : CookieMutation)
  | EvPolicyMutation (mutation : PolicyMutation)
  | EvStorageMutation (request : StorageMutationRequest)
  | EvBroadcastCommand (command : BroadcastCommand)
  | EvWebSocketCommand (command : WebSocketCommand)
  | EvDatabaseCommand (command : DatabaseCommand)
  | EvSpeechRequest (request : SpeechRequest)
  | EvNotificationRequest (request : NotificationRequest)
  | EvProtocolHandlerRequest (request : ProtocolHandlerRequest)
  | EvPermissionRequest (request : PermissionRequest)
  | EvGeolocationRequest (request : GeolocationRequest)
  | EvMediaDeviceRequest (request : MediaDeviceRequest)
  | EvMediaCaptureRequest (request : MediaCaptureRequest)
  | EvSensorRequest (request : SensorRequest)
  | EvClipboardRequest (request : ClipboardRequest)
  | EvFilePickerRequest (request : FilePickerRequest).
(** [event_document] of broker/events.rs; these events all have one. *)
Definition event_document (e : RendererEvent) : DocumentId :=
  match e with
  | EvFetchBatch document _ | EvFetchAbort document _ | EvDocumentFailed document _ | EvScrollCompleted document _
  | EvNavigationRequested document _ _ _ => document
  | EvPresentation p => presentation_document p
  | EvRuntimeUpdate u => rru_document u
  | EvPointerCursor r => pcr_document r
  | EvTextSelectionUpdate u => tsu_document u
  | EvFullscreenRequested r => fsr_document r
  | EvPointerLockRequested r => plr_document r
  | EvWakeLockRequested r => wlr_document r
  | EvCookieMutation m => cm_document m
  | EvPolicyMutation m => pm_document m
  | EvStorageMutation r => smr_document r
  | EvBroadcastCommand c => command_document c
  | EvWebSocketCommand c => wsc_document c
  | EvDatabaseCommand c => dc_document c
  | EvSpeechRequest r => spr_document r
  | EvNotificationRequest r => ntr_document r
  | EvProtocolHandlerRequest r => phr_document r
  | EvPermissionRequest r => pmr_document r
  | EvGeolocationRequest r => glr_document r
  | EvMediaDeviceRequest r => mdr_document r
  | EvMediaCaptureRequest r => mcr_document r
  | EvSensorRequest r => snr_document r
  | EvClipboardRequest r => cbr_document r
  | EvFilePickerRequest r => fpr_document r
  end.

(** ** State ([Broker], with the resources it shares) *)
Record Broker := mkBroker {
  br_writer : Outbound;
  br_flow : FetchFlow;
  br_updates : UpdateState;
  br_exit : option ExitReason;
  br_active : option DocumentId;
  br_retired : option DocumentId;
  br_deadline : option DocumentId;       (* the document whose first presentation is awaited *)
  br_incoming_fetch : option IncomingFetchBatch;
  br_incoming_presentation : option IncomingPresentation;
  br_presented : option (DocumentId * u64 * Items);
  br_outgoing : gmap u64 OutgoingFetch;
  br_streaming : gmap u64 bool;          (* fetch_response_streaming *)
  br_outgoing_update : option OutgoingStateUpdate }.

Definition set_writer (w : Outbound) (b : Broker) : Broker :=
  mkBroker w (br_flow b) (br_updates b) (br_exit b) (br_active b) (br_retired b) (br_deadline b) (br_incoming_fetch b)
    (br_incoming_presentation b) (br_presented b) (br_outgoing b) (br_streaming b) (br_outgoing_update b).
Definition set_flow (f : FetchFlow) (b : Broker) : Broker :=
  mkBroker (br_writer b) f (br_updates b) (br_exit b) (br_active b) (br_retired b) (br_deadline b) (br_incoming_fetch b)
    (br_incoming_presentation b) (br_presented b) (br_outgoing b) (br_streaming b) (br_outgoing_update b).
Definition set_updates (u : UpdateState) (o : option OutgoingStateUpdate) (b : Broker) : Broker :=
  mkBroker (br_writer b) (br_flow b) u (br_exit b) (br_active b) (br_retired b) (br_deadline b) (br_incoming_fetch b)
    (br_incoming_presentation b) (br_presented b) (br_outgoing b) (br_streaming b) o.
Definition set_exit (e : option ExitReason) (b : Broker) : Broker :=
  mkBroker (br_writer b) (br_flow b) (br_updates b) e (br_active b) (br_retired b) (br_deadline b) (br_incoming_fetch b)
    (br_incoming_presentation b) (br_presented b) (br_outgoing b) (br_streaming b) (br_outgoing_update b).
Definition set_documents (active retired deadline : option DocumentId) (b : Broker) : Broker :=
  mkBroker (br_writer b) (br_flow b) (br_updates b) (br_exit b) active retired deadline (br_incoming_fetch b)
    (br_incoming_presentation b) (br_presented b) (br_outgoing b) (br_streaming b) (br_outgoing_update b).
Definition set_incoming (o : option IncomingFetchBatch) (b : Broker) : Broker :=
  mkBroker (br_writer b) (br_flow b) (br_updates b) (br_exit b) (br_active b) (br_retired b) (br_deadline b) o
    (br_incoming_presentation b) (br_presented b) (br_outgoing b) (br_streaming b) (br_outgoing_update b).
Definition set_presentation (o : option IncomingPresentation) (p : option (DocumentId * u64 * Items)) (b : Broker) : Broker :=
  mkBroker (br_writer b) (br_flow b) (br_updates b) (br_exit b) (br_active b) (br_retired b) (br_deadline b)
    (br_incoming_fetch b) o p (br_outgoing b) (br_streaming b) (br_outgoing_update b).
Definition set_outgoing (o : gmap u64 OutgoingFetch) (s : gmap u64 bool) (b : Broker) : Broker :=
  mkBroker (br_writer b) (br_flow b) (br_updates b) (br_exit b) (br_active b) (br_retired b) (br_deadline b)
    (br_incoming_fetch b) (br_incoming_presentation b) (br_presented b) o s (br_outgoing_update b).
(** [outgoing_fetch.clear()], [fetch_flow.clear()], [fetch_response_streaming.clear()]. *)
Definition forget_fetches (b : Broker) : Broker := set_outgoing ∅ ∅ (set_flow (FetchFlow_clear (br_flow b)) b).

Definition has_key {A} (m : gmap u64 A) (id : u64) : bool := match m !! id with Some _ => true | None => false end.
Definition is_active (b : Broker) (d : DocumentId) : bool := bool_decide (br_active b = Some d).
Definition owns_document (b : Broker) (d : DocumentId) : bool := is_active b d || bool_decide (br_retired b = Some d).

Definition Answer_to A : Type := Broker * result BrokerFailure A.
(** One message out, with its error as text. *)
Definition send_out (m : BrowserMessage) (b : Broker) : Answer_to () :=
  let (w, r) := Outbound_send m (br_writer b) in (set_writer w b, map_err CannotSend r).
Definition protocol_failure (e : BrokerFailure) (b : Broker) : Broker :=
  match br_exit b with
  | Some _ => b
  | None => set_exit (Some (ExitProtocolFailure e)) (send_out (BmProtocolFailure (describe e)) b).1
  end.

(** ** The renderer's document messages (worker/document.rs) *)
Definition Handler : Type := Answer_to (option RendererEvent).
Definition refuse {A} (b : Broker) (field : string) : Answer_to A := (b, Err (Refused (InvalidPayload field))).
(** [if self.active_document == Some(document) { self.emit_event(..) }]. *)
Definition publish (b : Broker) (document : DocumentId) (e : RendererEvent) : Handler :=
  (b, Ok (if is_active b document then Some e else None)).
Definition publish_valid {A} (r : result ProtocolError A) (b : Broker) (document : DocumentId) (e : RendererEvent) : Handler :=
  match r with Ok _ => publish b document e | Err e => (b, Err (Refused e)) end.
(** The same with the document looked at first: what is stale is not even checked. *)
Definition publish_current (r : result ProtocolError ()) (b : Broker) (document : DocumentId) (e : RendererEvent) : Handler :=
  if is_active b document
  then match r with Ok _ => (b, Ok (Some e)) | Err e => (b, Err (Refused e)) end
  else (b, Ok None).

Definition begin_fetch_batch (document : DocumentId) (batch_id : u64) (request_count : u32) (b : Broker) : Handler :=
  if (match br_incoming_fetch b with Some _ => true | None => false end) || negb (owns_document b document)
     || (batch_id =? 0)%N || (request_count =? 0)%N || (MAX_RENDERER_FETCH_REQUESTS_PER_BATCH <? request_count)%N
  then refuse b "renderer Fetch batch"
  else
    let b := if is_active b document then set_documents (br_active b) None (br_deadline b) b else b in
    (set_incoming (Some (mkIncomingBatch document batch_id (val request_count) [] None 0 0)) b, Ok None).

Definition begin_fetch_request (batch_id : u64) (request : FetchRequestHead) (b : Broker) : Handler :=
  match br_incoming_fetch b with
  | None => refuse b "unsolicited Fetch request"
  | Some batch =>
      if negb (ifb_batch_id batch =? batch_id)%N || negb (bool_decide (ifb_document batch = frh_document request))
         || (match ifb_active batch with Some _ => true | None => false end)
         || (ifb_expected batch <=? len (ifb_requests batch))%N
         || existsb (fun r => frh_request_id (rfr_head r) =? frh_request_id request)%N (ifb_requests batch)
      then refuse b "renderer Fetch request order"
      else
        match FetchRequestHead_validate request with
        | Err e => (b, Err (Refused e))
        | Ok _ =>
            match metadata_bytes request ≫= checked_add (ifb_metadata_bytes batch) with
            | None => refuse b "renderer Fetch batch metadata length"
            | Some metadata =>
                if (MAX_RENDERER_FETCH_BATCH_METADATA_BYTES <? metadata)%N then refuse b "renderer Fetch batch metadata budget"
                else
                  match checked_add (ifb_body_bytes batch) (frh_body_length request) with
                  | None => refuse b "renderer Fetch batch body length"
                  | Some body =>
                      if (MAX_RENDERER_FETCH_BATCH_BODY_BYTES <? body)%N then refuse b "renderer Fetch batch body budget"
                      else
                        let started active :=
                          set_incoming (Some (mkIncomingBatch (ifb_document batch) (ifb_batch_id batch) (ifb_expected batch)
                            (ifb_requests batch) active body metadata)) b in
                        match TransferAssembler_new (frh_request_id request) (to_word u64_max (frh_body_length request))
                                (to_word u64_max MAX_RESPONSE_BODY_BYTES) with
                        | Err e => (started (ifb_active batch), Err (Refused e))
                        | Ok a => (started (Some (mkIncomingRequest request a)), Ok None)
                        end
                  end
            end
        end
  end.

Definition with_batch_active (batch : IncomingFetchBatch) (o : option IncomingFetchRequest) : IncomingFetchBatch :=
  mkIncomingBatch (ifb_document batch) (ifb_batch_id batch) (ifb_expected batch) (ifb_requests batch) o
    (ifb_body_bytes batch) (ifb_metadata_bytes batch).
(** [self.active_fetch_request()?.body.push(chunk)?] *)
Definition fetch_request_chunk (chunk : TransferChunk) (b : Broker) : Handler :=
  match br_incoming_fetch b with
  | None => refuse b "unsolicited Fetch request chunk"
  | Some batch =>
      match ifb_active batch with
      | None => refuse b "unsolicited Fetch request chunk"
      | Some active =>
          let (a, r) := TransferAssembler_push (ifr_body active) chunk in
          (set_incoming (Some (with_batch_active batch (Some (mkIncomingRequest (ifr_head active) a)))) b,
           match r with Ok _ => Ok None | Err e => Err (Refused e) end)
      end
  end.

(** (worker/stream.rs) The loop stops at the first refusal. *)
Fixpoint register_fetch_response_policies (requests : list RendererFetchRequest) (b : Broker) : Answer_to () :=
  match requests with
  | [] => (b, Ok tt)
  | r :: requests =>
      let h := rfr_head r in
      let streaming := streams_response (frh_initiator h) in
      match FetchFlow_register (frh_document h) (frh_request_id h) streaming (br_flow b) with
      | (_, Err _) => refuse b "duplicate Fetch flow identity"
      | (f, Ok _) =>
          let f := if uses_priority_lane (frh_destination h)
                   then FetchFlow_mark_prioritized (frh_document h) (frh_request_id h) f else f in
          let b' := set_outgoing (br_outgoing b) (<[frh_request_id h := streaming]> (br_streaming b)) (set_flow f b) in
          match br_streaming b !! frh_request_id h with
          | Some _ => refuse b' "renderer reused a pending Fetch response identifier"
          | None => register_fetch_response_policies requests b'
          end
      end
  end.

Definition finish_fetch_request (request_id : u64) (b : Broker) : Handler :=
  match br_incoming_fetch b with
  | None => refuse b "unsolicited Fetch request end"
  | Some batch =>
      match ifb_active batch with
      | None => refuse b "Fetch request end order"
      | Some active =>
          let taken := set_incoming (Some (with_batch_active batch None)) b in
          match TransferAssembler_finish (ifr_body active) request_id with
          | Err e => (taken, Err (Refused e))
          | Ok body =>
              let request := mkFetchRequest (ifr_head active) body in
              match RendererFetchRequest_validate request with
              | Err e => (taken, Err (Refused e))
              | Ok _ =>
                  let requests := ifb_requests batch ++ [request] in
                  if (len requests =? ifb_expected batch)%N
                  then
                    let b := set_incoming None b in
                    if is_active b (ifb_document batch)
                    then
                      match register_fetch_response_policies requests b with
                      | (b, Err e) => (b, Err e)
                      | (b, Ok _) => (b, Ok (Some (EvFetchBatch (ifb_document batch) requests)))
                      end
                    else (b, Ok None)
                  else
                    (set_incoming (Some (mkIncomingBatch (ifb_document batch) (ifb_batch_id batch) (ifb_expected batch)
                       requests None (ifb_body_bytes batch) (ifb_metadata_bytes batch))) b, Ok None)
              end
          end
      end
  end.

(** (document/presentation.rs) *)
Definition begin_presentation (document : DocumentId) (revision : u64) (total_length : u32) (encode_micros : u64)
    (b : Broker) : Handler :=
  if (match br_incoming_presentation b with Some _ => true | None => false end) || negb (owns_document b document)
     || (revision =? 0)%N
  then refuse b "nested presentation"
  else
    let b := if is_active b document then set_documents (br_active b) None None b else b in
    match TransferAssembler_new revision (to_word u64_max total_length) (to_word u64_max MAX_RENDERER_PRESENTATION_BYTES) with
    | Err e => (b, Err (Refused e))
    | Ok a => (set_presentation (Some (mkIncomingPresentation document revision encode_micros a)) (br_presented b) b, Ok None)
    end.
Definition presentation_chunk (chunk : TransferChunk) (b : Broker) : Handler :=
  match br_incoming_presentation b with
  | None => refuse b "unsolicited presentation chunk"
  | Some i =>
      let (a, r) := TransferAssembler_push (ipr_body i) chunk in
      (set_presentation (Some (mkIncomingPresentation (ipr_document i) (ipr_revision i) (ipr_encode_micros i) a))
         (br_presented b) b,
       match r with Ok _ => Ok None | Err e => Err (Refused e) end)
  end.
(** [decode_micros] is the time the decoding took. *)
Definition finish_presentation (decode_micros : u64) (document : DocumentId) (revision : u64) (b : Broker) : Handler :=
  match br_incoming_presentation b with
  | None => refuse b "unsolicited presentation end"
  | Some i =>
      let b := set_presentation None (br_presented b) b in
      if negb (bool_decide (ipr_document i = document)) || negb (ipr_revision i =? revision)%N
      then refuse b "presentation identity"
      else
        let base := match br_presented b with
                    | Some (owner, revision, items) => if bool_decide (owner = document) then Some (revision, items) else None
                    | None => None
                    end in
        match bytes ← TransferAssembler_finish (ipr_body i) revision; decode_with_base bytes base with
        | Err e => (b, Err (Refused e))
        | Ok p =>
            let b := set_presentation None (Some (document, revision, presentation_items p)) b in
            let p := with_micros (ipr_encode_micros i) decode_micros p in
            if negb (bool_decide (presentation_document p = document)) || negb (presentation_revision p =? revision)%N
            then refuse b "presentation archive identity"
            else publish b document (EvPresentation p)
        end
  end.

Definition retire_flow (document : DocumentId) (id : u64) (b : Broker) : option Broker :=
  (fun f => set_flow f b) <$> FetchFlow_retire document id (br_flow b).
Definition abort_request (document : DocumentId) (request_id : u64) (b : Broker) : Handler :=
  if negb (owns_document b document) then refuse b "renderer Fetch abort document"
  else if is_active b document
  then
    match retire_flow document request_id b with
    | None => (b, Err Overflow)
    | Some b => (b, Ok (Some (EvFetchAbort document request_id)))
    end
  else (b, Ok None).
Definition response_consumed (document : DocumentId) (request_id : u64) (total : u32) (b : Broker) : Handler :=
  if is_active b document
  then
    match FetchFlow_consume document request_id total (br_flow b) with
    | None => (b, Err Overflow)
    | Some (f, Ok _) => (set_flow f b, Ok None)
    | Some (_, Err _) => refuse b "Fetch consumption credit"
    end
  else if bool_decide (br_retired b = Some document) then (b, Ok None)
  else refuse b "Fetch consumption document".
(** Drop the transfer of a correction to this document, if one is under way. *)
Definition drop_outgoing_update (document : DocumentId) (b : Broker) : Broker :=
  match br_outgoing_update b with
  | Some u => if bool_decide (os_document u = document) then set_updates (Receiver_complete (br_updates b)) None b else b
  | None => b
  end.
Definition document_failed (document : DocumentId) (detail : ustring) (b : Broker) : Handler :=
  if is_active b document
  then
    let b := forget_fetches (set_documents None None None b) in
    let b := set_updates (discard_updates document (br_updates b)) (br_outgoing_update b) b in
    (drop_outgoing_update document b, Ok (Some (EvDocumentFailed document detail)))
  else (b, Ok None).
Definition navigation_requested (document : DocumentId) (e : RendererEvent) (b : Broker) : Handler :=
  if is_active b document then (set_documents (br_active b) (br_retired b) None b, Ok (Some e)) else (b, Ok None).
Definition snapshot_applied (applied : StateSnapshotApplied) (b : Broker) : Handler :=
  match StateSnapshotApplied_validate applied with
  | Err e => (b, Err (Refused e))
  | Ok _ =>
      if negb (is_active b (sa_document applied)) then (b, Ok None)
      else
        match br_outgoing_update b with
        | None => refuse b "unsolicited state snapshot acknowledgement"
        | Some u =>
            if (match os_messages u with [] => false | _ => true end) || negb (bool_decide (os_acknowledgement u = applied))
            then refuse b "state snapshot acknowledgement"
            else (set_updates (Receiver_complete (br_updates b)) None b, Ok None)
        end
  end.

(** [process_document_message]; the other kinds of message are not document messages. *)
Definition process_document_message (decode_micros : u64) (m : RendererMessage) (b : Broker) : Handler :=
  match m with
  | RmFetchBatchStart document batch_id request_count => begin_fetch_batch document batch_id request_count b
  | RmFetchRequestStart batch_id request => begin_fetch_request batch_id request b
  | RmFetchRequestChunk chunk => fetch_request_chunk chunk b
  | RmFetchRequestEnd request_id => finish_fetch_request request_id b
  | RmFetchRequestAbort document request_id => abort_request document request_id b
  | RmFetchResponseConsumed document request_id total => response_consumed document request_id total b
  | RmPresentationStart document revision total_length encode_micros =>
      begin_presentation document revision total_length encode_micros b
  | RmPresentationChunk chunk => presentation_chunk chunk b
  | RmPresentationEnd document revision => finish_presentation decode_micros document revision b
  | RmRuntimeUpdate update => publish b (rru_document update) (EvRuntimeUpdate update)
  | RmDocumentFailed document detail => document_failed document detail b
  | RmNavigationRequested document url disposition cause =>
      navigation_requested document (EvNavigationRequested document url disposition cause) b
  | RmPointerCursor r => publish_valid (PointerCursorResult_validate r) b (pcr_document r) (EvPointerCursor r)
  | RmScrollCompleted document sequence => publish b document (EvScrollCompleted document sequence)
  | RmTextSelectionUpdate u => publish_valid (TextSelectionUpdate_validate u) b (tsu_document u) (EvTextSelectionUpdate u)
  | RmFullscreenRequest r => publish_valid (FullscreenRequest_validate r) b (fsr_document r) (EvFullscreenRequested r)
  | RmPointerLockRequest r => publish_valid (PointerLockRequest_validate r) b (plr_document r) (EvPointerLockRequested r)
  | RmWakeLockRequest r => publish_valid (WakeLockRequest_validate r) b (wlr_document r) (EvWakeLockRequested r)
  | RmCookieMutation m => publish_current (CookieMutation_validate m) b (cm_document m) (EvCookieMutation m)
  | RmPolicyMutation m => publish_current (PolicyMutation_validate m) b (pm_document m) (EvPolicyMutation m)
  | RmStorageMutation r => publish_current (StorageMutationRequest_validate r) b (smr_document r) (EvStorageMutation r)
  | RmBroadcastCommand c => publish_current (BroadcastCommand_validate c) b (command_document c) (EvBroadcastCommand c)
  | RmWebSocketCommand c => publish_valid (WebSocketCommand_validate c) b (wsc_document c) (EvWebSocketCommand c)
  | RmDatabaseCommand c => publish_valid (DatabaseCommand_validate c) b (dc_document c) (EvDatabaseCommand c)
  | RmSpeechRequest r => publish_valid (SpeechRequest_validate r) b (spr_document r) (EvSpeechRequest r)
  | RmNotificationRequest r => publish_valid (NotificationRequest_validate r) b (ntr_document r) (EvNotificationRequest r)
  | RmProtocolHandlerRequest r =>
      publish_valid (ProtocolHandlerRequest_validate r) b (phr_document r) (EvProtocolHandlerRequest r)
  | RmPermissionRequest r => publish_valid (PermissionRequest_validate r) b (pmr_document r) (EvPermissionRequest r)
  | RmGeolocationRequest r => publish_valid (GeolocationRequest_validate r) b (glr_document r) (EvGeolocationRequest r)
  | RmMediaDeviceRequest r => publish_valid (MediaDeviceRequest_validate r) b (mdr_document r) (EvMediaDeviceRequest r)
  | RmMediaCaptureRequest r => publish_valid (MediaCaptureRequest_validate r) b (mcr_document r) (EvMediaCaptureRequest r)
  | RmSensorRequest r => publish_valid (SensorRequest_validate r) b (snr_document r) (EvSensorRequest r)
  | RmClipboardRequest r => publish_valid (ClipboardRequest_validate r) b (cbr_document r) (EvClipboardRequest r)
  | RmFilePickerRequest r => publish_valid (FilePickerRequest_validate r) b (fpr_document r) (EvFilePickerRequest r)
  | RmStateSnapshotApplied applied => snapshot_applied applied b
  | _ => refuse b "renderer document message"
  end.

(** ** Corrections and cancellation (worker/commands.rs) *)
Definition storage_messages (document : DocumentId) (area : StorageAreaKind) (snapshot : StorageAreaSnapshot)
    : list BrowserMessage :=
  let version := to_word u64_max (snapshot_version snapshot) in
  BmStorageSnapshotStart (mkSnapshotStart document area version (to_word 4294967295 (len (snapshot_entries snapshot))))
  :: ((fun entry => BmStorageSnapshotEntry (mkSnapshotEntry document area entry)) <$> snapshot_entries snapshot)
  ++ [BmStorageSnapshotEnd (mkSnapshotEnd document area version)].
(** [OutgoingStateUpdate::from] *)
Definition OutgoingStateUpdate_from (u : BrokerUpdate) : OutgoingStateUpdate :=
  mkOutgoingUpdate (update_document u) (acknowledgement u)
    (match u with
     | UpdateSync sync => [BmStorageSync sync]
     | UpdateCookie snapshot => [BmCookieSnapshot snapshot]
     | UpdateStorage document area snapshot => storage_messages document area snapshot
     end).

(** Take updates until one is for the active document. *)
Fixpoint next_update (fuel : nat) (active : option DocumentId) (u : UpdateState) : UpdateState * option OutgoingStateUpdate :=
  match fuel with
  | O => (u, None)
  | S fuel =>
      match Receiver_take u with
      | (u, None) => (u, None)
      | (u, Some update) =>
          if bool_decide (active = Some (update_document update)) then (u, Some (OutgoingStateUpdate_from update))
          else next_update fuel active (Receiver_complete u)
      end
  end.
(** The messages of the transfer, while the writer has room; at most [fuel]. *)
Fixpoint pump_update (fuel : nat) (b : Broker) : Broker :=
  match fuel with
  | O => b
  | S fuel =>
      if negb (has_page_command_capacity (br_writer b)) then b
      else
        match br_outgoing_update b with
        | Some (mkOutgoingUpdate d ack (m :: ms)) =>
            let b := set_updates (br_updates b) (Some (mkOutgoingUpdate d ack ms)) b in
            match send_out m b with
            | (b, Ok _) => pump_update fuel b
            | (b, Err e) => protocol_failure e b
            end
        | _ => b
        end
  end.
Definition process_state_updates (b : Broker) : Broker :=
  let b := match br_outgoing_update b with
           | Some _ => b
           | None =>
               let (u, o) := next_update (S (length (up_pending (br_updates b)))) (br_active b) (br_updates b) in
               set_updates u o b
           end in
  pump_update (N.to_nat MAX_QUEUED_BROWSER_COMMANDS) b.

Definition cancel_document (document : DocumentId) (b : Broker) : Broker :=
  let b := set_updates (discard_updates document (br_updates b)) (br_outgoing_update b) b in
  let b := drop_outgoing_update document b in
  let b := if is_active b document then forget_fetches (set_documents None (Some document) None b) else b in
  match send_out (BmCancelDocument document) b with
  | (b, Ok _) => b
  | (b, Err e) => protocol_failure e b
  end.

(** ** Document transfers (document/transfer.rs) *)
Definition send_list (ms : list BrowserMessage) (b : Broker) : Answer_to () :=
  let (w, r) := send_messages ms (br_writer b) in (set_writer w b, map_err CannotSend r).
Definition send_cookie_snapshot (snapshot : CookieStateSnapshot) (b : Broker) : Answer_to () :=
  match CookieStateSnapshot_validate snapshot with
  | Err e => (b, Err (Refused e))
  | Ok _ => send_out (BmCookieSnapshot snapshot) b
  end.
Definition send_storage_snapshot (document : DocumentId) (area : StorageAreaKind) (snapshot : StorageAreaSnapshot) (b : Broker)
    : Answer_to () :=
  match StorageAreaSnapshot_validate snapshot with
  | Err e => (b, Err (Broken (StorageError_to_string e)))
  | Ok _ =>
      if (4294967295 <? len (snapshot_entries snapshot))%N then (b, Err (Broken "storage snapshot entry count overflow"))
      else send_list (storage_messages document area snapshot) b
  end.
(** The loop of [send_browser_chunks], from the chunk of this offset. *)
Fixpoint send_chunks (transfer_id : u64) (message : TransferChunk -> BrowserMessage) (size : nat) (offset : N)
    (cs : list (list byte)) (b : Broker) : Answer_to () :=
  match cs with
  | [] => (b, Ok tt)
  | c :: cs =>
      if (4294967295 <? offset)%N then (b, Err (Broken "IPC transfer offset overflow"))
      else
        match send_out (message (mkChunk transfer_id (to_word 4294967295 offset) c)) b with
        | (b, Ok _) => send_chunks transfer_id message size (offset + N.of_nat size) cs b
        | (b, Err e) => (b, Err e)
        end
  end.
Definition send_browser_chunks (transfer_id : u64) (bytes : list byte) (message : TransferChunk -> BrowserMessage)
    (b : Broker) : Answer_to () :=
  send_chunks transfer_id message CHUNK_BYTES 0 (chunks CHUNK_BYTES bytes) b.

Definition and_then {A C} (x : Answer_to A) (k : Broker -> Answer_to C) : Answer_to C :=
  match x with (b, Ok _) => k b | (b, Err e) => (b, Err e) end.
Definition check (r : result ProtocolError ()) (b : Broker) : Answer_to () :=
  match r with Ok _ => (b, Ok tt) | Err e => (b, Err (Refused e)) end.
Definition send_document (start : DocumentStart) (state : DocumentState) (body : list byte) (b : Broker) : Answer_to () :=
  let document := dst_document start in
  and_then (check (DocumentStart_validate start) b) (fun b =>
  and_then (check (DocumentState_validate state) b) (fun b =>
  if negb (len body =? body_length start)%N
  then (b, Err (Broken "document transfer length does not match its declaration"))
  else
  and_then (send_out (BmBeginDocument start) (forget_fetches b)) (fun b =>
  and_then (send_cookie_snapshot (mkCookieSnapshot document (ds_cookie_version state) (ds_cookie_header state)) b) (fun b =>
  and_then (send_storage_snapshot document LocalArea (ds_local_storage state) b) (fun b =>
  and_then (send_storage_snapshot document SessionArea (ds_session_storage state) b) (fun b =>
  and_then (send_browser_chunks (id_value document) body BmDocumentChunk b) (fun b =>
  and_then (send_out (BmEndDocument document) b) (fun b =>
  (set_documents (Some document) (br_retired b) (Some document) b, Ok tt))))))))).

(** ** Responses (worker/stream.rs) *)
Inductive FetchStreamEvent :=
  | StreamStart (document : DocumentId) (head : FetchResponseHead)
  | StreamChunk (document : DocumentId) (chunk : TransferChunk)
  | StreamEnd (document : DocumentId) (stop : FetchResponseEnd)
  | StreamAbort (document : DocumentId) (abort : FetchResponseAbort)
  | StreamWebSocket (event : WebSocketEvent)
  | StreamSpeech (update : SpeechUpdate)
  | StreamNotification (update : NotificationUpdate).
Definition forward_valid (r : result ProtocolError ()) (document : DocumentId) (m : BrowserMessage) (b : Broker) : Answer_to () :=
  if is_active b document then and_then (check r b) (send_out m) else (b, Ok tt).
Definition broken {A} (detail : string) (b : Broker) : Answer_to A := (b, Err (Broken detail)).
Definition response_limit (streaming : bool) : N :=
  if streaming then MAX_RENDERER_FETCH_STREAM_BYTES else MAX_RESPONSE_BODY_BYTES.

Definition forward_start (document : DocumentId) (head : FetchResponseHead) (b : Broker) : Answer_to () :=
  let id := rsh_request_id head in
  if negb (is_active b document) then (b, Ok tt)
  else if (id =? 0)%N || has_key (br_outgoing b) id then broken "duplicate Fetch response stream" b
  else
    match br_streaming b !! id with
    | None => broken "browser returned an unrequested Fetch response" b
    | Some streaming =>
        let allows_body := match rsh_result head with Success _ _ _ _ => true | Failure _ => false end in
        let b := set_outgoing (br_outgoing b) (delete id (br_streaming b)) b in
        and_then (send_out (BmFetchResponseStart head) b) (fun b =>
          (set_outgoing (<[id := mkOutgoing 0 allows_body streaming]> (br_outgoing b)) (br_streaming b) b, Ok tt))
    end.
Definition forward_chunk (document : DocumentId) (chunk : TransferChunk) (b : Broker) : Answer_to () :=
  let id := tc_transfer_id chunk in
  if negb (is_active b document) then (b, Ok tt)
  else
    match br_outgoing b !! id with
    | None => broken "unsolicited Fetch response stream chunk" b
    | Some o =>
        match checked_add (of_offset o) (len (tc_bytes chunk)) with
        | None => broken "Fetch response stream length overflow" b
        | Some next =>
            if negb (of_allows_body o) || negb (tc_offset chunk =? of_offset o)%N || (len (tc_bytes chunk) =? 0)%N
               || (MAX_FETCH_STREAM_CHUNK_BYTES <? len (tc_bytes chunk))%N || (response_limit (of_streaming o) <? next)%N
            then broken "Fetch response stream chunk violated its contract" b
            else
              send_out (BmFetchResponseChunk chunk)
                (set_outgoing (<[id := mkOutgoing next (of_allows_body o) (of_streaming o)]> (br_outgoing b)) (br_streaming b) b)
        end
    end.
Definition forward_end (document : DocumentId) (stop : FetchResponseEnd) (b : Broker) : Answer_to () :=
  let id := rse_request_id stop in
  match retire_flow document id b with
  | None => (b, Err Overflow)
  | Some b =>
      if negb (is_active b document) then (b, Ok tt)
      else
        match br_outgoing b !! id with
        | None => broken "unsolicited Fetch response stream end" b
        | Some o =>
            let b := set_outgoing (delete id (br_outgoing b)) (br_streaming b) b in
            if negb (of_offset o =? rse_total_length stop)%N then broken "Fetch response stream total length mismatch" b
            else send_out (BmFetchResponseEnd stop) b
        end
  end.
Definition forward_abort (document : DocumentId) (abort : FetchResponseAbort) (b : Broker) : Answer_to () :=
  let id := rsa_request_id abort in
  match retire_flow document id b with
  | None => (b, Err Overflow)
  | Some b =>
      if negb (is_active b document) then (b, Ok tt)
      else if has_key (br_outgoing b) id
      then send_out (BmFetchResponseAbort abort) (set_outgoing (delete id (br_outgoing b)) (br_streaming b) b)
      else broken "unsolicited Fetch response stream abort" b
  end.
Definition process_fetch_stream_event (e : FetchStreamEvent) (b : Broker) : Answer_to () :=
  match e with
  | StreamSpeech u => forward_valid (SpeechUpdate_validate u) (spu_document u) (BmSpeechUpdate u) b
  | StreamNotification u => forward_valid (NotificationUpdate_validate u) (ntu_document u) (BmNotificationUpdate u) b
  | StreamWebSocket e => forward_valid (WebSocketEvent_validate e) (wse_document e) (BmWebSocketEvent e) b
  | StreamStart document head => forward_start document head b
  | StreamChunk document chunk => forward_chunk document chunk b
  | StreamEnd document stop => forward_end document stop b
  | StreamAbort document abort => forward_abort document abort b
  end.
(** [process_fetch_stream] stops at the first error, which ends the renderer. *)
Fixpoint process_events (es : list FetchStreamEvent) (b : Broker) : Broker :=
  match es with
  | [] => b
  | e :: es =>
      match process_fetch_stream_event e b with
      | (b, Ok _) => process_events es b
      | (b, Err e) => protocol_failure e b
      end
  end.
End broker.
