(* ===== verification/EventQueue.v ===== *)
(** * EventQueue: from the broker to the browser

    src/renderer_process/broker/events.rs with events/presentations.rs and
    events/notification.rs: the bounded queue of a renderer's events. The broker's
    thread sends, and waits where the queue is full; the browser's receives. The
    mutex makes an attempt one step; a sender that waits holds its event, and tries
    again when it is woken. How two presentations or two runtime updates merge, and
    how large their resources are, are arguments. *)

From Stdlib Require Import Strings.Byte.
From S2P Require Import Prelude Text Limits Words Protocol WebStorage Wire PayloadFields DevicePayloads StatePayloads Broadcast BroadcastCodec SocketPayloads Transfers DocumentPayloads FetchPayloads RuntimePayloads InputPayloads FramePayloads BulkTransfers Messages FetchFlow StateUpdates Outbound ChildState Broker.

Section events.
Context {Presentation Exit : Type}.
Context (presentation_document : Presentation -> DocumentId).
Context (merge_presentations : Presentation -> Presentation -> result ProtocolError (Presentation * option Presentation)).
Context (merge_updates : RendererRuntimeUpdate -> RendererRuntimeUpdate -> result ProtocolError (RendererRuntimeUpdate * option RendererRuntimeUpdate)).
Context (presentation_bytes : Presentation -> N) (update_bytes : RendererRuntimeUpdate -> N).
Local Abbreviation RendererEvent := (@Broker.RendererEvent Presentation).

(** ** Events *)
Inductive BrowserEvent :=
  | FromDocument (e : RendererEvent)
  | EvVideoFrame (update : VideoFrameUpdate)
  | EvDiagnostic (code : u16) (detail : ustring)
  | EvUnresponsive
  | EvExited (exit : Exit).
Definition queue_document (e : BrowserEvent) : option DocumentId :=
  match e with
  | FromDocument e => Some (event_document presentation_document e)
  | EvVideoFrame update => Some (vf_document (vu_identity update))
  | EvDiagnostic _ _ | EvUnresponsive | EvExited _ => None
  end.
(** What [EventSender::send] never drops. *)
Definition is_lossless (e : BrowserEvent) : bool :=
  match e with
  | FromDocument (EvFetchBatch _ _ | EvScrollCompleted _ _ | EvFetchAbort _ _ | EvStorageMutation _ | EvBroadcastCommand _
      | EvPolicyMutation _ | EvWebSocketCommand _ | EvDatabaseCommand _ | EvSpeechRequest _ | EvNotificationRequest _
      | EvPermissionRequest _ | EvGeolocationRequest _ | EvMediaDeviceRequest _ | EvMediaCaptureRequest _ | EvSensorRequest _
      | EvClipboardRequest _ | EvFilePickerRequest _) => true
  | _ => false
  end.

(** ** State *)
Record EventQueue := mkQueue {
  eq_events : list BrowserEvent; eq_sender_open : bool; eq_receiver_open : bool;
  eq_callback : bool; eq_pending : bool }.                                  (* notification *)
Definition EventQueue_bounded : EventQueue := mkQueue [] true true false false.
Definition with_events (l : list BrowserEvent) (q : EventQueue) : EventQueue :=
  mkQueue l (eq_sender_open q) (eq_receiver_open q) (eq_callback q) (eq_pending q).
(** [Notification::request]: whether the browser's callback is to be called. *)
Definition request (q : EventQueue) : EventQueue * bool :=
  if eq_pending q then (q, false)
  else if eq_callback q then (mkQueue (eq_events q) (eq_sender_open q) (eq_receiver_open q) true true, true)
  else (q, false).

(** ** Budgets *)
Definition is_fetch_batch (e : BrowserEvent) : bool := match e with FromDocument (EvFetchBatch _ _) => true | _ => false end.
Definition queued_fetch_batches (l : list BrowserEvent) : N := len (filter (fun e => is_fetch_batch e = true) l).
Definition event_storage_bytes (e : BrowserEvent) : N :=
  match e with
  | FromDocument (EvStorageMutation r) => StorageMutation_byte_len (smr_mutation r)
  | FromDocument (EvBroadcastCommand c) => match command_operation c with Post serialized => byte_length serialized | _ => 0 end
  | _ => 0
  end.
Definition storage_bytes (l : list BrowserEvent) : N := sum_by event_storage_bytes l.
Definition event_resource_bytes (e : BrowserEvent) : N :=
  match e with
  | FromDocument (EvPresentation p) => presentation_bytes p
  | FromDocument (EvRuntimeUpdate u) => update_bytes u
  | _ => 0
  end.
Definition exceeds_resource_budget (l : list BrowserEvent) (next : BrowserEvent) : bool :=
  (MAX_RENDERER_PRESENTATION_BYTES <?
     foldl (fun bytes e => saturating_add bytes (event_resource_bytes e)) (event_resource_bytes next) l)%N.
Definition full (lossless : bool) (e : BrowserEvent) (l : list BrowserEvent) : bool :=
  (MAX_QUEUED_RENDERER_EVENTS <=? len l)%N
  || if lossless
     then (MAX_QUEUED_RENDERER_FETCH_BATCHES <=? queued_fetch_batches l)%N
          || (MAX_PENDING_STORAGE_BYTES <? saturating_add (storage_bytes l) (event_storage_bytes e))%N
     else exceeds_resource_budget l e.

(** ** Compaction (events/presentations.rs and the match of [send_coalesced]) *)
Section merge_last.
Context {T : Type} (as_T : BrowserEvent -> option T) (wrap : T -> BrowserEvent) (document : T -> DocumentId).
Context (merge : T -> T -> result ProtocolError (T * option T)).
Definition merge_last (l : list BrowserEvent) (next : T) : list BrowserEvent * result ProtocolError BrowserEvent :=
  match last l ≫= as_T with
  | Some previous =>
      if bool_decide (document previous = document next)
      then
        let l := removelast l in
        match merge previous next with
        | Err e => (l, Err e)
        | Ok (merged, Some next) => (l ++ [wrap merged], Ok (wrap next))
        | Ok (merged, None) => (l, Ok (wrap merged))
        end
      else (l, Ok (wrap next))
  | None => (l, Ok (wrap next))
  end.
End merge_last.
Definition as_presentation (e : BrowserEvent) : option Presentation :=
  match e with FromDocument (EvPresentation p) => Some p | _ => None end.
Definition as_update (e : BrowserEvent) : option RendererRuntimeUpdate :=
  match e with FromDocument (EvRuntimeUpdate u) => Some u | _ => None end.
Definition coalesce : list BrowserEvent -> Presentation -> list BrowserEvent * result ProtocolError BrowserEvent :=
  merge_last as_presentation (fun p => FromDocument (EvPresentation p)) presentation_document merge_presentations.
Definition coalesce_runtime : list BrowserEvent -> RendererRuntimeUpdate -> list BrowserEvent * result ProtocolError BrowserEvent :=
  merge_last as_update (fun u => FromDocument (EvRuntimeUpdate u)) rru_document merge_updates.
Definition is_video (e : BrowserEvent) : bool := match e with EvVideoFrame _ => true | _ => false end.
Definition cursor_of (d : DocumentId) (e : BrowserEvent) : option PointerCursorResult :=
  match e with
  | FromDocument (EvPointerCursor r) => if bool_decide (pcr_document r = d) then Some r else None
  | _ => None
  end.
Definition selection_of (d : DocumentId) (target : DocumentNodeId) (e : BrowserEvent) : option TextSelectionUpdate :=
  match e with
  | FromDocument (EvTextSelectionUpdate u) => if bool_decide (tsu_document u = d /\ tsu_target u = target) then Some u else None
  | _ => None
  end.
(** The events that stay, and the event to append - none where a queued one is newer. *)
Definition compact (e : BrowserEvent) (l : list BrowserEvent) : list BrowserEvent * result ProtocolError (option BrowserEvent) :=
  match e with
  | EvVideoFrame _ => (filter (fun x => is_video x = false) l, Ok (Some e))
  | FromDocument (EvPresentation next) => let (l, r) := coalesce l next in (l, match r with Ok e => Ok (Some e) | Err x => Err x end)
  | FromDocument (EvRuntimeUpdate next) => let (l, r) := coalesce_runtime l next in (l, match r with Ok e => Ok (Some e) | Err x => Err x end)
  | FromDocument (EvPointerCursor next) =>
      let mine := cursor_of (pcr_document next) in
      if existsb (fun x => match mine x with Some p => pcr_sequence next <=? pcr_sequence p | None => false end)%N l
      then (l, Ok None)
      else (filter (fun x => mine x = None) l, Ok (Some e))
  | FromDocument (EvTextSelectionUpdate next) =>
      let mine := selection_of (tsu_document next) (tsu_target next) in
      if existsb (fun x => match mine x with Some p => tsu_observed_input_sequence next <? tsu_observed_input_sequence p | None => false end)%N l
      then (l, Ok None)
      else (filter (fun x => mine x = None) l, Ok (Some e))
  | _ => (l, Ok (Some e))
  end.

(** ** Sending *)
Inductive Progress := Done (r : result ProtocolError ()) | Waiting (e : BrowserEvent) (lossless : bool).
(** The loop of both sends, from one wake-up to the next; and whether the browser's
    callback is called. *)
Definition offer (lossless wait : bool) (e : BrowserEvent) (q : EventQueue) : EventQueue * Progress * bool :=
  if eq_receiver_open q && full lossless e (eq_events q)
  then (q, (if wait then Waiting e lossless else Done (Err (InvalidPayload "browser renderer-event queue exhausted"))), false)
  else if negb (eq_receiver_open q) then (q, Done (Ok tt), false)
  else let (q, called) := request (with_events (eq_events q ++ [e]) q) in (q, Done (Ok tt), called).
Definition send_coalesced (e : BrowserEvent) (wait : bool) (q : EventQueue) : EventQueue * Progress * bool :=
  if negb (eq_receiver_open q)
  then (q, Done (Err (InvalidPayload "browser renderer-event receiver closed")), false)
  else
    match compact e (eq_events q) with
    | (l, Err x) => (with_events l q, Done (Err x), false)
    | (l, Ok None) => (with_events l q, Done (Ok tt), false)
    | (l, Ok (Some e)) => offer false wait e (with_events l q)
    end.
Definition send_lossless (e : BrowserEvent) (q : EventQueue) : EventQueue * Progress * bool := offer true true e q.
Definition EventSender_send (e : BrowserEvent) (q : EventQueue) : EventQueue * Progress * bool :=
  if is_lossless e then send_lossless e q else send_coalesced e true q.
Definition EventSender_try_send (e : BrowserEvent) (q : EventQueue) : EventQueue * Progress * bool := send_coalesced e false q.
Definition EventSender_drop (q : EventQueue) : EventQueue :=
  mkQueue (eq_events q) false (eq_receiver_open q) (eq_callback q) (eq_pending q).
Definition discard_document (d : DocumentId) (q : EventQueue) : EventQueue :=
  with_events (filter (fun e => queue_document e <> Some d) (eq_events q)) q.

(** ** Receiving *)
Inductive TryRecvError := RecvEmpty | RecvDisconnected.
Definition try_recv_if (accepts : BrowserEvent -> bool) (q : EventQueue) : EventQueue * result TryRecvError BrowserEvent :=
  match eq_events q with
  | e :: l => if accepts e then (with_events l q, Ok e) else (q, Err RecvEmpty)
  | [] => (q, Err (if eq_receiver_open q && eq_sender_open q then RecvEmpty else RecvDisconnected))
  end.
Definition try_recv (q : EventQueue) : EventQueue * result TryRecvError BrowserEvent := try_recv_if (fun _ => true) q.
Definition EventReceiver_close (q : EventQueue) : EventQueue := mkQueue [] (eq_sender_open q) false false false.
Definition set_notifier (q : EventQueue) : EventQueue * bool :=
  if negb (eq_receiver_open q) then (q, false)
  else
    let q := mkQueue (eq_events q) (eq_sender_open q) (eq_receiver_open q) true false in
    match eq_events q with [] => (q, false) | _ => request q end.
Definition finish_drain (q : EventQueue) : EventQueue * bool :=
  match eq_events q with
  | [] => (mkQueue [] (eq_sender_open q) (eq_receiver_open q) (eq_callback q) false, false)
  | _ => (q, true)
  end.

(** ** Runs: the broker's thread and the browser's, interleaved in any way *)
Inductive QueueStep :=
  | SendEvent (e : BrowserEvent)
  | SendExit (exit : Exit)                        (* the one [try_send] of the broker *)
  | SenderWakes                                   (* a waiting sender tries again *)
  | DiscardEvents (d : DocumentId)
  | SenderDrops
  | Receive (accepts : BrowserEvent -> bool)
  | NotifierSet
  | DrainFinished
  | ReceiverCloses.
Record QueueRun := mkRun {
  qr_queue : EventQueue; qr_waiting : option (BrowserEvent * bool);
  qr_sent : list BrowserEvent; qr_received : list BrowserEvent; qr_calls : nat }.
Definition run_start : QueueRun := mkRun EventQueue_bounded None [] [] 0.
Definition after_offer (r : QueueRun) (sent : list BrowserEvent) (o : EventQueue * Progress * bool) : QueueRun :=
  let '(q, p, called) := o in
  let calls := if called then S (qr_calls r) else qr_calls r in
  match p with
  | Done (Ok _) => mkRun q None (qr_sent r ++ sent) (qr_received r) calls
  | Done (Err _) => mkRun q None (qr_sent r) (qr_received r) calls
  | Waiting e lossless => mkRun q (Some (e, lossless)) (qr_sent r ++ sent) (qr_received r) calls
  end.
Definition on_queue (f : EventQueue -> EventQueue) (r : QueueRun) : QueueRun :=
  mkRun (f (qr_queue r)) (qr_waiting r) (qr_sent r) (qr_received r) (qr_calls r).
(** A sender that waits does nothing else. *)
Definition queue_step (s : QueueStep) (r : QueueRun) : QueueRun :=
  match s, qr_waiting r with
  | SendEvent e, None => after_offer r [e] (EventSender_send e (qr_queue r))
  | SendExit x, None => after_offer r [EvExited x] (EventSender_try_send (EvExited x) (qr_queue r))
  | SenderWakes, Some (e, lossless) => after_offer r [] (offer lossless true e (qr_queue r))
  | DiscardEvents d, None => on_queue (discard_document d) r
  | SenderDrops, None => on_queue EventSender_drop r
  | Receive accepts, _ =>
      match try_recv_if accepts (qr_queue r) with
      | (q, Ok e) => mkRun q (qr_waiting r) (qr_sent r) (qr_received r ++ [e]) (qr_calls r)
      | (q, Err _) => mkRun q (qr_waiting r) (qr_sent r) (qr_received r) (qr_calls r)
      end
  | NotifierSet, _ =>
      let (q, called) := set_notifier (qr_queue r) in
      mkRun q (qr_waiting r) (qr_sent r) (qr_received r) (if called then S (qr_calls r) else qr_calls r)
  | DrainFinished, _ => on_queue (fun q => (finish_drain q).1) r
  | ReceiverCloses, _ => on_queue EventReceiver_close r
  | _, _ => r
  end.
Definition queue_run (steps : list QueueStep) : QueueRun := foldl (fun r s => queue_step s r) run_start steps.

(** * Theory *)
Implicit Types (e : BrowserEvent) (l : list BrowserEvent) (q : EventQueue) (r : QueueRun).

(** What compaction never touches: everything but the newest state of a surface,
    a pointer or a selection. *)
Definition kept e : bool :=
  match e with
  | EvVideoFrame _
  | FromDocument (EvPresentation _ | EvRuntimeUpdate _ | EvPointerCursor _ | EvTextSelectionUpdate _) => false
  | _ => true
  end.
Definition only (p : BrowserEvent -> bool) l : list BrowserEvent := filter (fun e => p e = true) l.

Lemma only_app p l l' : only p (l ++ l') = only p l ++ only p l'.
Proof. apply filter_app. Qed.

Lemma only_none p e : p e = false -> only p [e] = [].
Proof. intros He. unfold only. rewrite filter_cons, decide_False by congruence. apply filter_nil. Qed.

Lemma only_idem p (p' : BrowserEvent -> bool) l :
  (forall e, p e = true -> p' e = true) -> only p (only p' l) = only p l.
Proof. intros Hp. unfold only. rewrite list_filter_filter. apply list_filter_iff. naive_solver. Qed.

Lemma only_filter p (P : BrowserEvent -> Prop) `{forall e, Decision (P e)} l :
  (forall e, p e = true -> P e) -> only p (filter P l) = only p l.
Proof. intros Hp. unfold only. rewrite list_filter_filter. apply list_filter_iff. naive_solver. Qed.

Lemma is_lossless_kept e : is_lossless e = true -> kept e = true.
Proof. by destruct e as [[]| | | |]. Qed.

(** A weight that only kept events carry does not see compaction. *)
Lemma sum_only_kept (f : BrowserEvent -> N) l :
  (forall e, kept e = false -> f e = 0%N) -> sum_by f (only kept l) = sum_by f l.
Proof.
  intros Hf. induction l as [|e l IH]; [done|]. unfold only in *. rewrite filter_cons.
  destruct (decide (kept e = true)) as [Hk|Hk%not_true_is_false]; rewrite !sum_by_cons, ?IH; [done|].
  by rewrite Hf.
Qed.

Definition batch_weight e : N := if is_fetch_batch e then 1 else 0.
Lemma queued_fetch_batches_sum l : queued_fetch_batches l = sum_by batch_weight l.
Proof.
  unfold queued_fetch_batches. induction l as [|e l IH]; [done|]. rewrite filter_cons, sum_by_cons, <- IH.
  unfold batch_weight. destruct (is_fetch_batch e); [rewrite decide_True by done|rewrite decide_False by done; lia].
  unfold len. simpl. lia.
Qed.

(** ** Compaction *)
Section merge_facts.
Context {T : Type} (as_T : BrowserEvent -> option T) (wrap : T -> BrowserEvent) (document : T -> DocumentId).
Context (merge : T -> T -> result ProtocolError (T * option T)).
Hypothesis wrap_light : forall t, kept (wrap t) = false.
Hypothesis as_T_light : forall e t, as_T e = Some t -> kept e = false.

Lemma merge_last_keeps l (next : T) :
  let '(l', res) := merge_last as_T wrap document merge l next in
  only kept l' = only kept l /\ length l' <= length l /\ forall e, res = Ok e -> kept e = false.
Proof using wrap_light as_T_light.
  assert (Hwrap : forall t e, @Ok ProtocolError _ (wrap t) = Ok e -> kept e = false) by (by intros t e [= <-]).
  unfold merge_last. destruct (last l ≫= as_T) as [previous|] eqn:Hl; [|by eauto].
  apply bind_Some in Hl as (e & Hlast & He). apply as_T_light in He.
  apply last_Some in Hlast as [l0 ->].
  assert (Hone : forall x, kept x = false -> only kept (l0 ++ [x]) = only kept l0).
  { intros x Hx. rewrite only_app, (only_none kept x Hx). apply app_nil_r. }
  case_bool_decide; [|by split_and!; eauto]. rewrite removelast_last.
  destruct (merge previous next) as [[merged [rest|]]|x];
    rewrite !Hone, ?length_app by eauto; (split; [done|split; [simpl; lia|]]); first [by eauto|by intros].
Qed.
End merge_facts.

Lemma filter_keeps (P : BrowserEvent -> Prop) `{forall e, Decision (P e)} l :
  (forall e, kept e = true -> P e) -> only kept (filter P l) = only kept l /\ length (filter P l) <= length l.
Proof. intros HP. split; [by apply only_filter|apply length_filter]. Qed.

(** Compaction loses no kept event and moves none, and a kept event comes out of
    it as it went in. *)
Lemma compact_keeps e l :
  let '(l', res) := compact e l in
  only kept l' = only kept l /\ length l' <= length l /\
  (kept e = true -> l' = l /\ res = Ok (Some e)) /\
  (kept e = false -> forall x, res = Ok (Some x) -> kept x = false).
Proof.
  assert (Hsame : forall x, kept e = kept x -> kept e = false -> forall y, @Ok ProtocolError _ (Some x) = Ok (Some y) ->
    kept y = false) by (intros x Hx He y [= <-]; congruence).
  destruct e as [[]| | | |]; simpl; try (split_and!; by auto).
  - unfold coalesce.
    pose proof (merge_last_keeps as_presentation (fun p => FromDocument (EvPresentation p)) presentation_document
      merge_presentations (fun _ => eq_refl) ltac:(by intros [[]| | | |]) l presentation) as H.
    destruct (merge_last _ _ _ _ _ _) as [l' [x|x]]; destruct H as (H1 & H2 & H3); split_and!; try done.
    intros _ y [= <-]. by apply H3.
  - unfold coalesce_runtime.
    pose proof (merge_last_keeps as_update (fun u => FromDocument (EvRuntimeUpdate u)) rru_document
      merge_updates (fun _ => eq_refl) ltac:(by intros [[]| | | |]) l update) as H.
    destruct (merge_last _ _ _ _ _ _) as [l' [x|x]]; destruct H as (H1 & H2 & H3); split_and!; try done.
    intros _ y [= <-]. by apply H3.
  - destruct (existsb _ l); [done|].
    destruct (filter_keeps (fun x => cursor_of (pcr_document result) x = None) l); [by intros [[]| | | |]|].
    split_and!; try done. by intros _ y [= <-].
  - destruct (existsb _ l); [done|].
    destruct (filter_keeps (fun x => selection_of (tsu_document update) (tsu_target update) x = None) l);
      [by intros [[]| | | |]|].
    split_and!; try done. by intros _ y [= <-].
  - destruct (filter_keeps (fun x => is_video x = false) l); [by intros [[]| | | |]|].
    split_and!; try done. by intros _ y [= <-].
Qed.

(** ** The invariant of a run *)

(** The queue's own part: its bounds, and that a browser with a callback has been
    called for whatever is queued. *)
Record queue_ok q : Prop := {
  qo_events : (len (eq_events q) <= MAX_QUEUED_RENDERER_EVENTS)%N;
  qo_batches : (queued_fetch_batches (eq_events q) <= MAX_QUEUED_RENDERER_FETCH_BATCHES)%N;
  qo_storage : (storage_bytes (eq_events q) <= MAX_PENDING_STORAGE_BYTES)%N;
  qo_called : eq_callback q = true -> eq_events q <> [] -> eq_pending q = true;
  qo_closed : eq_receiver_open q = false -> eq_events q = [] /\ eq_callback q = false
}.

(** Fewer events of the same weight keep the bounds. *)
Lemma queue_ok_fewer q l :
  queue_ok q -> only kept l = only kept (eq_events q) -> length l <= length (eq_events q) ->
  queue_ok (with_events l q).
Proof.
  intros [He Hb Hs Hc Hcl] Hk Hlen.
  assert (Hsum : forall f, (forall e, kept e = false -> f e = 0%N) -> sum_by f l = sum_by f (eq_events q)).
  { intros f Hf. by rewrite <- (sum_only_kept f l Hf), Hk, sum_only_kept. }
  split; simpl.
  - unfold len in *. lia.
  - rewrite queued_fetch_batches_sum in *. by rewrite Hsum by (by intros [[]| | | |]).
  - unfold storage_bytes in *. by rewrite Hsum by (by intros [[]| | | |]).
  - intros Hcall Hne. apply Hc; [done|]. intros Hnil. rewrite Hnil in Hlen. destruct l; [done|simpl in Hlen; lia].
  - intros Hclosed. destruct (Hcl Hclosed) as [Hnil ->]. rewrite Hnil in Hlen. destruct l; [done|simpl in Hlen; lia].
Qed.

Lemma queue_ok_filter q (P : BrowserEvent -> Prop) `{forall e, Decision (P e)} :
  queue_ok q -> queue_ok (with_events (filter P (eq_events q)) q).
Proof.
  intros [He Hb Hs Hc Hcl]. pose proof (length_filter P (eq_events q)). split; simpl.
  - unfold len in *. lia.
  - rewrite queued_fetch_batches_sum in *. etrans; [apply sum_by_filter_le|done].
  - unfold storage_bytes in *. etrans; [apply sum_by_filter_le|done].
  - intros Hcall Hne. apply Hc; [done|]. intros Hnil. by rewrite Hnil in Hne.
  - intros Hclosed. destruct (Hcl Hclosed) as [-> ->]. done.
Qed.

(** An event that fits is queued, and the browser's callback is called for it. *)
Lemma append_ok q e lossless :
  queue_ok q -> eq_receiver_open q = true -> full lossless e (eq_events q) = false ->
  (lossless = false -> is_lossless e = false) ->
  queue_ok (request (with_events (eq_events q ++ [e]) q)).1.
Proof.
  intros [He Hb Hs Hc Hcl] Hopen Hfull Hl.
  assert (Hok : (len (eq_events q ++ [e]) <= MAX_QUEUED_RENDERER_EVENTS)%N /\
    (queued_fetch_batches (eq_events q ++ [e]) <= MAX_QUEUED_RENDERER_FETCH_BATCHES)%N /\
    (storage_bytes (eq_events q ++ [e]) <= MAX_PENDING_STORAGE_BYTES)%N).
  { unfold full in Hfull. apply orb_false_iff in Hfull as [Hn%N.leb_gt Hfull].
    rewrite queued_fetch_batches_sum in *. unfold storage_bytes in *. rewrite !sum_by_app, !sum_by_cons.
    unfold sum_by at 2 4. simpl foldr. rewrite !N.add_0_r. split; [unfold len in *; rewrite length_app; simpl; lia|].
    destruct lossless.
    - apply orb_false_iff in Hfull as [Hf1%N.leb_gt Hf2%N.ltb_ge].
      unfold saturating_add in Hf2.
      assert (MAX_PENDING_STORAGE_BYTES < u64_max)%N by done.
      split; [|lia]. unfold MAX_QUEUED_RENDERER_FETCH_BATCHES in *. unfold batch_weight at 2.
      destruct (is_fetch_batch e); lia.
    - specialize (Hl eq_refl).
      assert (batch_weight e = 0%N /\ event_storage_bytes e = 0%N) as [-> ->] by (by destruct e as [[]| | | |]).
      lia. }
  destruct Hok as (H1 & H2 & H3). unfold request. simpl.
  destruct (eq_pending q) eqn:Hp; [|destruct (eq_callback q) eqn:Hcb]; split; simpl; try done; congruence.
Qed.

(** ** One attempt to send *)

(** [l] is what the browser will still get, with the event that waits. *)
Lemma offer_delivers (mine : BrowserEvent -> bool) lossless wait e q :
  queue_ok q -> (lossless = false -> is_lossless e = false) ->
  let '(q', p, _) := offer lossless wait e q in
  queue_ok q' /\ eq_receiver_open q' = eq_receiver_open q /\
  match p with
  | Done (Ok _) => eq_receiver_open q = true -> eq_events q' = eq_events q ++ [e]
  | Done (Err _) => wait = false /\ eq_events q' = eq_events q
  | Waiting e' lossless' => e' = e /\ lossless' = lossless /\ q' = q /\ eq_receiver_open q = true /\
      full lossless e (eq_events q) = true
  end.
Proof.
  intros Hq Hl. unfold offer. destruct (eq_receiver_open q) eqn:Hopen; simpl.
  - destruct (full lossless e (eq_events q)) eqn:Hfull; [by destruct wait|].
    pose proof (append_ok q e lossless Hq Hopen Hfull Hl) as Ha.
    destruct (request _) as [q' called] eqn:Hr. simpl in Ha. split; [exact Ha|].
    unfold request in Hr. simpl in Hr. destruct (eq_pending q), (eq_callback q); injection Hr as <- _; simpl; by rewrite Hopen.
  - by split.
Qed.
(** The event a sender still holds. *)
Definition held r : list BrowserEvent := match qr_waiting r with Some (e, _) => [e] | None => [] end.

Record run_ok (mine : BrowserEvent -> bool) r : Prop := {
  ro_queue : queue_ok (qr_queue r);
  ro_held : forall e lossless, qr_waiting r = Some (e, lossless) -> lossless = false -> is_lossless e = false;
  ro_prefix : only mine (qr_received r) `prefix_of` only mine (qr_sent r);
  ro_open : eq_receiver_open (qr_queue r) = true ->
    only mine (qr_sent r) = only mine (qr_received r ++ eq_events (qr_queue r) ++ held r)
}.

Section steps.
Context (mine : BrowserEvent -> bool).
Hypothesis mine_kept : forall e, mine e = true -> kept e = true.

(** An attempt at [e], on a queue [q0] that compaction left, for a run that held
    it or just took it over as [sent]. *)
Lemma after_offer_ok r sent lossless wait e q0 :
  run_ok mine r -> queue_ok q0 -> eq_receiver_open q0 = eq_receiver_open (qr_queue r) ->
  only kept (eq_events q0) = only kept (eq_events (qr_queue r)) ->
  (lossless = false -> is_lossless e = false) ->
  only mine (held r ++ sent) = only mine [e] -> (wait = false -> qr_waiting r = None) ->
  run_ok mine (after_offer r sent (offer lossless wait e q0)).
Proof using mine_kept.
  intros [Hq Hh Hp Ho] Hq0 Hopen Hkept Hl Hsent Hwait.
  assert (Hev : only mine (eq_events q0) = only mine (eq_events (qr_queue r))).
  { by rewrite <- (only_idem mine kept (eq_events q0)), Hkept, only_idem. }
  pose proof (offer_delivers mine lossless wait e q0 Hq0 Hl) as Hd.
  destruct (offer lossless wait e q0) as [[q p] called]. destruct Hd as (Hqok & Hqo & Hd). unfold after_offer.
  assert (Hgrown : eq_receiver_open q0 = true -> only mine (qr_sent r ++ sent) =
    only mine (qr_received r) ++ only mine (eq_events q0) ++ only mine [e]).
  { intros Ht. rewrite only_app, Ho by congruence. rewrite !only_app, Hev, <- Hsent, only_app.
    by rewrite <- !app_assoc. }
  assert (Hpre : only mine (qr_received r) `prefix_of` only mine (qr_sent r ++ sent)).
  { rewrite only_app. by apply prefix_app_r. }
  destruct p as [[u|x]|e' lossless'].
  - split; simpl; try done. intros Ht. rewrite Hqo in Ht. rewrite (Hd Ht), (Hgrown Ht), !only_app. by rewrite app_nil_r.
  - destruct Hd as [Hw Hd]. specialize (Hwait Hw). split; simpl; try done. intros Ht. rewrite Hqo, Hopen in Ht.
    rewrite (Ho Ht). unfold held. rewrite Hwait, !only_app, Hd, Hev. done.
  - destruct Hd as (-> & -> & -> & Ht & _). split; simpl; try done.
    + intros e0 l0 [= <- <-]. exact Hl.
    + intros _. by rewrite (Hgrown Ht), !only_app.
Qed.

Lemma send_coalesced_ok r e wait :
  run_ok mine r -> qr_waiting r = None -> is_lossless e = false ->
  run_ok mine (after_offer r [e] (send_coalesced e wait (qr_queue r))).
Proof using mine_kept.
  intros Hr Hw Hl. pose proof Hr as [Hq Hh Hp Ho]. unfold send_coalesced.
  assert (Hstays : forall l (p : Progress), only kept l = only kept (eq_events (qr_queue r)) ->
    queue_ok (with_events l (qr_queue r)) -> (p = Done (Ok tt) -> mine e = false) ->
    (exists res, p = Done res) ->
    run_ok mine (after_offer r [e] (with_events l (qr_queue r), p, false))).
  { intros l p Hk Hqok Hmine [res ->].
    assert (Hev : only mine l = only mine (eq_events (qr_queue r))).
    { by rewrite <- (only_idem mine kept l), Hk, only_idem. }
    destruct res as [[]|x]; split; simpl; try done.
    - rewrite only_app. by apply prefix_app_r.
    - intros Ht. rewrite only_app, (Ho Ht). unfold held. rewrite Hw, !only_app, Hev.
      rewrite (only_none mine e) by auto. simpl. by rewrite !app_nil_r.
    - intros Ht. rewrite (Ho Ht). unfold held. by rewrite Hw, !only_app, Hev. }
  destruct (eq_receiver_open (qr_queue r)) eqn:Hopen; simpl.
  2:{ split; simpl; try done. by rewrite Hopen. }
  pose proof (compact_keeps e (eq_events (qr_queue r))) as Hc.
  destruct (compact e (eq_events (qr_queue r))) as [l [[e'|]|x]]; destruct Hc as (Hk & Hlen & Hsame & Hlight).
  - apply after_offer_ok; try done.
    + by apply queue_ok_fewer.
    + intros _. destruct (kept e) eqn:He; [by destruct (Hsame eq_refl) as [_ [= ->]]|].
      destruct (is_lossless e') eqn:Hl'; [|done]. apply is_lossless_kept in Hl'. by rewrite (Hlight eq_refl) in Hl'.
    + unfold held. rewrite Hw. simpl. destruct (kept e) eqn:He; [by destruct (Hsame eq_refl) as [_ [= ->]]|].
      assert (Hno : forall x, kept x = false -> only mine [x] = []).
      { intros x Hx. apply only_none. destruct (mine x) eqn:Hm; [|done]. apply mine_kept in Hm. congruence. }
      by rewrite !Hno by auto.
  - apply Hstays; [done|by apply queue_ok_fewer| |by eexists]. intros _.
    destruct (kept e) eqn:He; [by destruct (Hsame eq_refl) as [_ [=]]|].
    destruct (mine e) eqn:Hm; [|done]. apply mine_kept in Hm. congruence.
  - apply Hstays; [done|by apply queue_ok_fewer|done|by eexists].
Qed.

Lemma queue_ok_tail q e l : queue_ok q -> eq_events q = e :: l -> queue_ok (with_events l q).
Proof using.
  intros [He Hb Hs Hc Hcl] Heq. rewrite Heq in *. rewrite queued_fetch_batches_sum in Hb.
  unfold storage_bytes in Hs. rewrite sum_by_cons in Hb, Hs. split; simpl.
  - unfold len in *. simpl in He. lia.
  - rewrite queued_fetch_batches_sum. lia.
  - unfold storage_bytes. lia.
  - intros Hcall _. by apply Hc.
  - intros Hclosed. by destruct (Hcl Hclosed).
Qed.

(** Steps that only the queue sees. *)
Lemma run_ok_queue r q calls :
  run_ok mine r -> queue_ok q -> (eq_receiver_open q = true -> eq_receiver_open (qr_queue r) = true) ->
  (eq_receiver_open q = true -> only mine (eq_events q) = only mine (eq_events (qr_queue r))) ->
  run_ok mine (mkRun q (qr_waiting r) (qr_sent r) (qr_received r) calls).
Proof using.
  intros [Hq Hh Hp Ho] Hqok Hopen Hev. split; simpl; try done.
  intros Ht. rewrite (Ho (Hopen Ht)), !only_app, (Hev Ht). done.
Qed.

Lemma receive_ok r accepts :
  run_ok mine r -> run_ok mine (queue_step (Receive accepts) r).
Proof using.
  intros Hr. pose proof Hr as [Hq Hh Hp Ho]. unfold queue_step, try_recv_if.
  destruct (eq_events (qr_queue r)) as [|e l] eqn:He; [by apply run_ok_queue|].
  destruct (accepts e); [|by apply run_ok_queue].
  assert (Hopen : eq_receiver_open (qr_queue r) = true).
  { destruct (eq_receiver_open (qr_queue r)) eqn:Hn; [done|]. destruct (qo_closed _ Hq Hn). congruence. }
  change (e :: l) with ([e] ++ l) in Ho. split; simpl; try done.
  - by eapply queue_ok_tail.
  - rewrite (Ho Hopen), <- !app_assoc, (app_assoc (qr_received r)), (only_app mine (_ ++ _) (l ++ held r)). by eexists.
  - intros _. by rewrite (Ho Hopen), <- !app_assoc.
Qed.

Lemma queue_step_ok s r :
  (forall d, s = DiscardEvents d -> forall e, mine e = true -> queue_document e <> Some d) ->
  run_ok mine r -> run_ok mine (queue_step s r).
Proof using mine_kept.
  intros Hdiscard Hr. pose proof Hr as [Hq Hh Hp Ho]. pose proof Hq as [Qe Qb Qs Qc Qcl].
  destruct s as [e|x| |d| |accepts| | |]; [| | | | |by apply receive_ok| | |]; unfold queue_step.
  - destruct (qr_waiting r) as [p|] eqn:Hw; [done|].
    unfold EventSender_send. destruct (is_lossless e) eqn:Hl; [|by apply send_coalesced_ok].
    apply after_offer_ok; try done. unfold held. by rewrite Hw.
  - destruct (qr_waiting r) as [p|] eqn:Hw; [done|]. by apply send_coalesced_ok.
  - destruct (qr_waiting r) as [[e0 l0]|] eqn:Hw; [|done].
    apply after_offer_ok; try done; [by apply (Hh e0 l0)|]. unfold held. by rewrite Hw, app_nil_r.
  - destruct (qr_waiting r) as [p|] eqn:Hw; [done|]. unfold on_queue.
    apply run_ok_queue; try done; [by apply queue_ok_filter|]. intros _. apply only_filter. by apply Hdiscard.
  - destruct (qr_waiting r) as [p|] eqn:Hw; [done|]. unfold on_queue. by apply run_ok_queue.
  - assert (Hset : let '(q, _) := set_notifier (qr_queue r) in queue_ok q /\
      eq_receiver_open q = eq_receiver_open (qr_queue r) /\ eq_events q = eq_events (qr_queue r)).
    { unfold set_notifier. destruct (eq_receiver_open (qr_queue r)) eqn:Hopen; simpl; [|by rewrite Hopen].
      destruct (eq_events (qr_queue r)) eqn:He; unfold request; simpl;
        (split; [split; simpl; try done; congruence|done]). }
    destruct (set_notifier (qr_queue r)) as [q called]. destruct Hset as (H1 & H2 & H3).
    apply run_ok_queue; rewrite ?H2, ?H3; done.
  - assert (Hdrained : queue_ok (finish_drain (qr_queue r)).1 /\
      eq_receiver_open (finish_drain (qr_queue r)).1 = eq_receiver_open (qr_queue r) /\
      eq_events (finish_drain (qr_queue r)).1 = eq_events (qr_queue r)).
    { unfold finish_drain. destruct (eq_events (qr_queue r)) eqn:He; simpl; [|done].
      split; [|done]. by split; simpl. }
    destruct Hdrained as (H1 & H2 & H3). apply run_ok_queue; rewrite ?H2, ?H3; done.
  - by apply run_ok_queue.
Qed.
End steps.

(** The events of a run that must arrive: those compaction never touches, of
    documents the broker did not retire. *)
Definition retires (d : option DocumentId) (s : QueueStep) : bool :=
  match s with DiscardEvents d' => bool_decide (d = Some d') | _ => false end.
Definition must_arrive (steps : list QueueStep) e : bool :=
  kept e && negb (existsb (retires (queue_document e)) steps).

Lemma queue_run_ok (mine : BrowserEvent -> bool) (steps : list QueueStep) :
  (forall e, mine e = true -> kept e = true) ->
  (forall d e, DiscardEvents d ∈ steps -> mine e = true -> queue_document e <> Some d) ->
  run_ok mine (queue_run steps).
Proof.
  intros Hkept Hd. unfold queue_run. assert (Hstart : run_ok mine run_start) by (split; [split|..]; done).
  revert Hd Hstart. generalize run_start. induction steps as [|s steps IH]; intros r Hd Hr; simpl; [done|].
  apply IH; [intros d e Hin; apply Hd; by right|]. apply queue_step_ok; [done| |done].
  intros d ->. intros e. apply Hd. by left.
Qed.

End events.

(** A second fetch batch waits until the browser takes the first; the browser is
    called once for both. *)
Example demo_backpressure :
  let run := @queue_run () () (fun _ => document_10) (fun _ b => Ok (b, None)) (fun _ b => Ok (b, None))
               (fun _ => 0%N) (fun _ => 0%N) in
  let batch := FromDocument (EvFetchBatch document_10 []) in
  let steps := [NotifierSet; SendEvent batch; SendEvent batch] in
  let waits := run steps in
  let goes := run (steps ++ [Receive (fun _ => true); SenderWakes]) in
  (length (eq_events (qr_queue waits)), length (held waits), length (qr_received waits)) = (1, 1, 0) /\
  (length (eq_events (qr_queue goes)), length (held goes), length (qr_received goes), qr_calls goes) = (1, 0, 1, 1).
Proof. split; vm_compute; reflexivity. Qed.
