(* ===== verification/DocumentTransfer.v ===== *)
(** * DocumentTransfer: what the broker sends is what the renderer loads

    The two ends of a document transfer together: the messages of [send_document]
    and of [OutgoingStateUpdate::from] (Broker.v), handled by the renderer
    (ChildState.v). With [Outbound.outbound_delivers] in between, this is the whole
    way from the browser's document and state to the runtime's. *)

From Stdlib Require Import Strings.Byte.
From S2P Require Import Prelude Text Limits Words Protocol WebStorage LocalStore StorageSync Transfers DevicePayloads DocumentPayloads StatePayloads BulkTransfers Messages Frames FetchFlow StateUpdates Outbound ChildState Broker.

(** ** The renderer's side of a snapshot *)
Definition with_state (c : ChildDocuments) (i : IncomingDocument) (s : IncomingDocumentState) : ChildDocuments :=
  mkChild (Some (mkIncomingDocument (id_start i) s (id_body i))) (ch_runtime c) (ch_failed c) (ch_update c).
Definition set_area (s : IncomingDocumentState) (a : StorageAreaKind) (snapshot : StorageAreaSnapshot) : IncomingDocumentState :=
  match a with
  | LocalArea => mkIncomingState (ids_document s) (ids_cookie s) None (Some snapshot) (ids_session s)
  | SessionArea => mkIncomingState (ids_document s) (ids_cookie s) None (ids_local s) (Some snapshot)
  end.
Definition with_body (c : ChildDocuments) (i : IncomingDocument) (body : TransferAssembler) : ChildDocuments :=
  mkChild (Some (mkIncomingDocument (id_start i) (id_state i) body)) (ch_runtime c) (ch_failed c) (ch_update c).

Section snapshots.
Context (document : DocumentId) (a : StorageAreaKind) (snapshot : StorageAreaSnapshot).
Context (Hvalid : StorageAreaSnapshot_validate snapshot = Ok tt) (Hversion : (snapshot_version snapshot <= u64_max)%N).

Lemma entries_reach_incoming (c : ChildDocuments) (i : IncomingDocument) (s : IncomingDocumentState) (total : N) :
  (total <= MAX_STORAGE_BYTES_PER_ORIGIN)%N -> forall rest l bytes,
  snapshot_entries snapshot = l ++ rest -> snapshot_total bytes rest = Ok total ->
  handle_all (entry_messages document a rest) (with_state c i (with_active s (Some (assembling document a snapshot bytes l))))
  = (with_state c i (with_active s (Some (assembling document a snapshot total (l ++ rest)))), Ok []).
Proof.
  intros Hb. induction rest as [|e rest IH]; intros l bytes Hl Ht.
  - simpl in Ht. injection Ht as ->. by rewrite app_nil_r.
  - destruct (entry_assembles document a snapshot bytes l e rest total Hl Ht Hb) as [He Hrest].
    cbn [entry_messages fmap list_fmap]. erewrite handle_all_step; [|cbn [handle_document_message]; unfold document_state_entry,
      with_state; cbn [ch_incoming]; unfold state_storage_entry; cbn [id_state ids_active with_active]; rewrite He; reflexivity].
    unfold to_incoming. cbn [fst snd id_start id_body ch_runtime ch_failed ch_update].
    change (mkChild _ _ _ _) with
      (with_state c i (with_active s (Some (assembling document a snapshot
         (bytes + byte_len (entry_key e) + byte_len (entry_value e)) (l ++ [e]))))).
    rewrite (IH (l ++ [e])); [by rewrite <- app_assoc| |done]. by rewrite <- app_assoc.
Qed.
Lemma snapshot_reaches_incoming (c : ChildDocuments) (i : IncomingDocument) (s : IncomingDocumentState) :
  ids_document s = document -> ids_active s = None -> area_is_complete s a = false ->
  handle_all (storage_messages document a snapshot) (with_state c i s) = (with_state c i (set_area s a snapshot), Ok []).
Proof.
  intros Hd Ha Hc. destruct (snapshot_valid_parts snapshot Hvalid) as (_ & _ & total & Ht & Hb).
  unfold storage_messages. erewrite handle_all_step; [|cbn [handle_document_message]; unfold document_state_start, with_state;
    cbn [ch_incoming id_state]; unfold state_storage_start; cbn [ss_document ss_area]; rewrite Hd, Ha, Hc, bool_decide_eq_true_2
      by done; cbn [negb has orb]; rewrite (start_assembles document a snapshot Hvalid Hversion); reflexivity].
  unfold to_incoming. cbn [fst snd id_start id_body ch_runtime ch_failed ch_update].
  change (mkChild _ _ _ _) with (with_state c i (with_active s (Some (assembling document a snapshot 0 [])))).
  erewrite handle_all_app; [|apply (entries_reach_incoming c i s total Hb (snapshot_entries snapshot) [] 0%N eq_refl Ht)].
  rewrite (handle_all_step _ _ _ (with_state c i (set_area s a snapshot)) []); [done|].
  cbn [handle_document_message app]. unfold document_state_end, with_state. cbn [ch_incoming].
  unfold state_storage_end. cbn [id_state ids_active with_active]. rewrite (end_assembles document a snapshot Hvalid Hversion).
  by destruct a.
Qed.

(** To a running document, or to one that has just failed. *)
Definition update_effects (c : ChildDocuments) : list ChildEffect :=
  let applied := acknowledgement (UpdateStorage document a snapshot) in
  if is_this (ch_failed c) document then [SendApplied applied] else [ReplaceStorage document a snapshot; SendApplied applied].
Lemma entries_reach_runtime (c : ChildDocuments) (total : N) :
  ch_incoming c = None -> (total <= MAX_STORAGE_BYTES_PER_ORIGIN)%N -> forall rest l bytes,
  snapshot_entries snapshot = l ++ rest -> snapshot_total bytes rest = Ok total ->
  handle_all (entry_messages document a rest) (with_update c (Some (assembling document a snapshot bytes l)))
  = (with_update c (Some (assembling document a snapshot total (l ++ rest))), Ok []).
Proof.
  intros Hi Hb. induction rest as [|e rest IH]; intros l bytes Hl Ht.
  - simpl in Ht. injection Ht as ->. by rewrite app_nil_r.
  - destruct (entry_assembles document a snapshot bytes l e rest total Hl Ht Hb) as [He Hrest].
    cbn [entry_messages fmap list_fmap].
    rewrite (handle_all_step _ _ _ (with_update c (Some (assembling document a snapshot
      (bytes + byte_len (entry_key e) + byte_len (entry_value e)) (l ++ [e])))) []).
    + fold (entry_messages document a rest). rewrite (IH (l ++ [e])); [by rewrite <- app_assoc| |done]. by rewrite <- app_assoc.
    + cbn [handle_document_message]. unfold document_state_entry, with_update. cbn [ch_incoming ch_update]. by rewrite Hi, He.
Qed.
Lemma snapshot_reaches_runtime (c : ChildDocuments) :
  ch_incoming c = None -> ch_update c = None -> is_this (ch_failed c) document || is_this (ch_runtime c) document = true ->
  handle_all (storage_messages document a snapshot) c = (c, Ok (update_effects c)).
Proof.
  intros Hi Hu Hthis. destruct (snapshot_valid_parts snapshot Hvalid) as (_ & _ & total & Ht & Hb).
  unfold storage_messages. erewrite handle_all_step with (c1 := with_update c (Some (assembling document a snapshot 0 []))) (es := []).
  - erewrite handle_all_app; [|apply (entries_reach_runtime c total Hi Hb (snapshot_entries snapshot) [] 0%N eq_refl Ht)].
    cbn [app handle_all handle_document_message]. unfold document_state_end, with_update. cbn [ch_incoming ch_update ch_failed ch_runtime].
    rewrite Hi, (end_assembles document a snapshot Hvalid Hversion). cbn [mbind result_bind assembling is_document is_area].
    unfold update_effects. destruct c as [ci cr cf cu]. cbn [ch_incoming ch_update ch_failed ch_runtime] in *. subst.
    destruct (is_this cf document); [done|]. simpl in Hthis. by rewrite Hthis.
  - cbn [handle_document_message]. unfold document_state_start. rewrite Hi, Hu. cbn [ss_document has orb].
    unfold start_update. rewrite (start_assembles document a snapshot Hvalid Hversion).
    destruct (is_this (ch_failed c) document); [done|]. simpl in Hthis. by rewrite Hthis.
Qed.
End snapshots.

(** ** The chunks of a body *)
Lemma chunks_reach_incoming (id : u64) (expected : u64) (c : ChildDocuments) (i : IncomingDocument) (cs : list TransferChunk) :
  forall l, well_sent id (len l) cs -> (len (l ++ contents cs) <= expected)%N ->
  handle_all (BmDocumentChunk <$> cs) (with_body c i (mkAssembler id expected l))
  = (with_body c i (mkAssembler id expected (l ++ contents cs)), Ok []).
Proof.
  induction cs as [|ch cs IH]; intros l Hw Hlen.
  - change (contents []) with (@nil byte). by rewrite app_nil_r.
  - apply well_sent_cons in Hw as (Hid & Hoff & Hw). rewrite contents_cons, app_assoc in Hlen |- *. rewrite fmap_cons.
    rewrite (handle_all_step _ _ _ (with_body c i (mkAssembler id expected (l ++ tc_bytes ch))) []).
    + rewrite IH; [done|by rewrite len_app|done].
    + cbn [handle_document_message]. unfold document_chunk, with_body at 1. cbn [ch_incoming id_body].
      assert (H : TransferAssembler_push (mkAssembler id expected l) ch
        = (mkAssembler id expected (l ++ tc_bytes ch), Ok tt)).
      { apply push_accepts. cbn [ta_transfer_id ta_bytes ta_expected]. split_and!; try done. rewrite len_app in Hlen. lia. }
      by rewrite H.
Qed.

(** ** The broker's side: what an accepted [send_document] has sent *)
Definition document_messages (start : DocumentStart) (state : DocumentState) (body : list byte) : list BrowserMessage :=
  let document := dst_document start in
  BmBeginDocument start
  :: BmCookieSnapshot (mkCookieSnapshot document (ds_cookie_version state) (ds_cookie_header state))
  :: storage_messages document LocalArea (ds_local_storage state)
  ++ storage_messages document SessionArea (ds_session_storage state)
  ++ (BmDocumentChunk <$> numbered (id_value document) CHUNK_BYTES 0 (chunks CHUNK_BYTES body))
  ++ [BmEndDocument document].

Section broker.
Context {Items : Type}.
Local Abbreviation Broker := (@Broker Items).
(** Only the writer's mailbox changed, by these messages. *)
Definition sent (ms : list BrowserMessage) (b b' : Broker) : Prop :=
  exists w, ob_messages w = ob_messages (br_writer b) ++ ms /\ b' = set_writer w b.
Lemma sent_trans (ms ns : list BrowserMessage) (b b1 b2 : Broker) : sent ms b b1 -> sent ns b1 b2 -> sent (ms ++ ns) b b2.
Proof. intros (w & Hw & ->) (w' & Hw' & ->). exists w'. simpl in Hw'. rewrite Hw', Hw, <- app_assoc. by split. Qed.
Lemma Outbound_send_Ok (m : BrowserMessage) (ob ob' : Outbound) (u : ()) :
  Outbound_send m ob = (ob', Ok u) -> ob_messages ob' = ob_messages ob ++ [m].
Proof.
  unfold Outbound_send. destruct (ob_failure ob), (ob_open ob); simpl; try done; [].
  destruct (_ <=? _)%N; [done|]. destruct (ob_running ob); [|done]. by intros [= <-].
Qed.
Lemma send_out_Ok (m : BrowserMessage) (b b' : Broker) (u : ()) : send_out m b = (b', Ok u) -> sent [m] b b'.
Proof.
  unfold send_out. destruct (Outbound_send m (br_writer b)) as [w [v|e]] eqn:E; [|done]. intros [= <-].
  exists w. split; [by eapply Outbound_send_Ok|done].
Qed.
Lemma send_messages_Ok (ms : list BrowserMessage) (ob ob' : Outbound) (u : ()) :
  send_messages ms ob = (ob', Ok u) -> ob_messages ob' = ob_messages ob ++ ms.
Proof.
  revert ob. induction ms as [|m ms IH]; simpl; intros ob; [intros [= <-]; by rewrite app_nil_r|].
  destruct (Outbound_send m ob) as [ob1 [v|e]] eqn:E; [|done]. intros H. rewrite (IH _ H), (Outbound_send_Ok _ _ _ _ E).
  by rewrite <- app_assoc.
Qed.
Lemma send_list_Ok (ms : list BrowserMessage) (b b' : Broker) (u : ()) : send_list ms b = (b', Ok u) -> sent ms b b'.
Proof.
  unfold send_list. destruct (send_messages ms (br_writer b)) as [w [v|e]] eqn:E; [|done]. intros [= <-].
  exists w. split; [by eapply send_messages_Ok|done].
Qed.
Lemma send_chunks_Ok (transfer_id : u64) (message : TransferChunk -> BrowserMessage) (size : nat) (cs : list (list byte)) :
  forall offset (b b' : Broker) u, send_chunks transfer_id message size offset cs b = (b', Ok u) ->
  sent (message <$> numbered transfer_id size offset cs) b b'.
Proof.
  induction cs as [|c cs IH]; intros offset b b' u; cbn [send_chunks numbered].
  - intros [= <-]. exists (br_writer b). rewrite app_nil_r. split; [done|by destruct b].
  - destruct (_ <? _)%N; [done|]. destruct (send_out _ b) as [b1 [v|e]] eqn:E; [|done]. intros H.
    rewrite fmap_cons. apply (sent_trans [_]) with (b1 := b1); [by apply send_out_Ok in E|by eapply IH].
Qed.
Lemma and_then_Ok {A C} (x : Broker * result BrokerFailure A) (k : Broker -> Broker * result BrokerFailure C) (b' : Broker) (c : C) :
  and_then x k = (b', Ok c) -> exists b1 a, x = (b1, Ok a) /\ k b1 = (b', Ok c).
Proof. destruct x as [b1 [a|e]]; [|done]. simpl. intros H. by exists b1, a. Qed.
Lemma check_Ok (r : result ProtocolError ()) (b b' : Broker) (u : ()) : check r b = (b', Ok u) -> r = Ok tt /\ b' = b.
Proof. destruct r as [[]|]; simpl; [|done]. by intros [= <-]. Qed.

Lemma send_document_sends (start : DocumentStart) (state : DocumentState) (body : list byte) (b b' : Broker) (u : ()) :
  send_document start state body b = (b', Ok u) ->
  DocumentStart_validate start = Ok tt /\ DocumentState_validate state = Ok tt /\ len body = val (body_length start)
  /\ ob_messages (br_writer b') = ob_messages (br_writer b) ++ document_messages start state body
  /\ br_active b' = Some (dst_document start) /\ br_deadline b' = Some (dst_document start)
  /\ br_outgoing b' = ∅ /\ br_streaming b' = ∅.
Proof.
  unfold send_document. intros H.
  apply and_then_Ok in H as (b1 & [] & [Hstart ->]%check_Ok & H).
  apply and_then_Ok in H as (b1 & [] & [Hstate ->]%check_Ok & H).
  destruct (len body =? body_length start)%N eqn:El; simpl in H; [|done]. apply N.eqb_eq in El.
  apply and_then_Ok in H as (b1 & [] & H1%send_out_Ok & H).
  apply and_then_Ok in H as (b2 & [] & H2 & H). unfold send_cookie_snapshot in H2.
  destruct (CookieStateSnapshot_validate _); [|done]. apply send_out_Ok in H2.
  apply and_then_Ok in H as (b3 & [] & H3 & H). unfold send_storage_snapshot in H3.
  destruct (StorageAreaSnapshot_validate _); [|done]. destruct (_ <? _)%N; [done|]. apply send_list_Ok in H3.
  apply and_then_Ok in H as (b4 & [] & H4 & H). unfold send_storage_snapshot in H4.
  destruct (StorageAreaSnapshot_validate _); [|done]. destruct (_ <? _)%N; [done|]. apply send_list_Ok in H4.
  apply and_then_Ok in H as (b5 & [] & H5%send_chunks_Ok & H).
  apply and_then_Ok in H as (b6 & [] & H6%send_out_Ok & H).
  pose proof (sent_trans _ _ _ _ _ H1 (sent_trans _ _ _ _ _ H2 (sent_trans _ _ _ _ _ H3
    (sent_trans _ _ _ _ _ H4 (sent_trans _ _ _ _ _ H5 H6))))) as (w & Hw & Hb6).
  injection H as <-. rewrite Hb6. by split_and!.
Qed.
End broker.

(** ** The renderer's side: those messages are a document *)
Lemma document_loads (start : DocumentStart) (state : DocumentState) (body : list byte) (c : ChildDocuments) :
  DocumentStart_validate start = Ok tt -> DocumentState_validate state = Ok tt -> len body = val (body_length start) ->
  (snapshot_version (ds_local_storage state) <= u64_max)%N -> (snapshot_version (ds_session_storage state) <= u64_max)%N ->
  ch_incoming c = None -> ch_runtime c = None ->
  handle_all (document_messages start state body) c
  = (mkChild None None None (ch_update c), Ok [LoadDocument start state body]).
Proof.
  intros Hstart Hstate Hlen Hlv Hsv Hi Hr.
  assert (Hmax : (body_length start <= MAX_RESPONSE_BODY_BYTES)%N).
  { unfold DocumentStart_validate in Hstart. do 4 (apply bind_Ok in Hstart as (? & _ & Hstart)).
    apply bind_Ok in Hstart as (? & H%ensure_Ok & _). by apply N.leb_le in H. }
  pose proof Hstate as Hparts. unfold DocumentState_validate in Hparts. apply bind_Ok in Hparts as (? & Hcookie%ensure_Ok & Hparts).
  apply bind_Ok in Hparts as ([] & Hlocal & Hsession). unfold map_invalid in Hlocal, Hsession.
  apply map_err_Ok in Hlocal, Hsession. apply negb_true_iff, orb_false_iff in Hcookie as [Hcv _].
  set (d := dst_document start) in *.
  set (expected := to_word u64_max (body_length start)).
  assert (Hexp : val expected = val (body_length start)) by (apply val_to_word; unfold MAX_RESPONSE_BODY_BYTES in Hmax; unfold u64_max; lia).
  set (a := mkAssembler (id_value d) expected []).
  set (i := mkIncomingDocument start (IncomingDocumentState_new d) a).
  set (c1 := mkChild (Some i) None None (ch_update c)).
  set (st := mkIncomingState d (Some (ds_cookie_version state, ds_cookie_header state)) None None None).
  unfold document_messages. fold d.
  rewrite (handle_all_step _ _ _ c1 []).
  2:{ cbn [handle_document_message]. unfold begin_document. rewrite Hstart, Hi, Hr. cbn [has orb]. fold d.
      unfold TransferAssembler_new. destruct (id_value d =? 0)%N eqn:E0.
      { pose proof (id_ok d) as Hok. by rewrite E0 in Hok. }
      fold expected. cbn [orb]. replace (_ <? _)%N with false; [done|]. symmetry. apply N.ltb_ge. rewrite Hexp.
      rewrite val_to_word by done. lia. }
  rewrite (handle_all_step _ _ _ (with_state c1 i st) []).
  2:{ cbn [handle_document_message]. unfold document_state_cookie, c1. cbn [ch_incoming]. unfold state_cookie, i.
      cbn [id_state IncomingDocumentState_new ids_document ids_cookie cs_document cs_version]. rewrite Hcv, bool_decide_eq_true_2 by done.
      done. }
  erewrite handle_all_app; [|by apply (snapshot_reaches_incoming d LocalArea _ Hlocal Hlv)].
  erewrite handle_all_app; [|by apply (snapshot_reaches_incoming d SessionArea _ Hsession Hsv)].
  change (with_state c1 i ?s) with (with_body c1 (mkIncomingDocument start s a) a).
  erewrite handle_all_app; [|apply (chunks_reach_incoming (id_value d) expected c1 _ _ [])].
  - cbn [handle_all handle_document_message app]. unfold finish_document, with_body. cbn [ch_incoming id_start id_body id_state].
    rewrite bool_decide_eq_true_2 by done. cbn [negb]. unfold TransferAssembler_finish. cbn [ta_transfer_id ta_bytes ta_expected].
    rewrite numbered_contents. unfold chunks. rewrite chunks_within_concat by (try apply CHUNK_BYTES_pos; lia).
    rewrite Hlen, Hexp, !N.eqb_refl. simpl.
    assert (Hfinish : state_finish (mkIncomingState d (Some (ds_cookie_version state, ds_cookie_header state)) None
      (Some (ds_local_storage state)) (Some (ds_session_storage state))) = Ok state).
    { unfold state_finish. simpl. destruct state. simpl in *. by rewrite Hstate. }
    by rewrite Hfinish.
  - apply chunks_well_sent; [apply CHUNK_BYTES_pos|lia|]. rewrite Hlen. pose proof (val_le (body_length start)). simpl. lia.
  - rewrite numbered_contents. unfold chunks. rewrite chunks_within_concat by (try apply CHUNK_BYTES_pos; lia). simpl. lia.
Qed.

(** ** A valid document is never refused for want of room

    1 start, 1 cookie snapshot, 2 storage snapshots of at most 1024 entries, 16
    chunks of a MiB, 1 end. *)
Definition TRANSFER_MESSAGES : N := 1 + 1 + 2 * (MAX_STORAGE_ENTRIES_PER_ORIGIN + 2) + 16 + 1.

Section room.
Context {Items : Type}.
Local Abbreviation Broker := (@Broker Items).
Definition room (n : N) (b : Broker) : Prop :=
  sane (br_writer b) /\ (ob_queued (br_writer b) + n <= MAX_QUEUED_BROWSER_WRITES)%N.
Lemma room_le (n m : N) (b : Broker) : (m <= n)%N -> room n b -> room m b.
Proof. intros H [Hs Hr]. split; [done|lia]. Qed.
Lemma send_room (n : N) (m : BrowserMessage) (ob : Outbound) :
  sane ob -> (ob_queued ob + (1 + n) <= MAX_QUEUED_BROWSER_WRITES)%N ->
  exists w, Outbound_send m ob = (w, Ok tt) /\ sane w /\ (ob_queued w + n <= MAX_QUEUED_BROWSER_WRITES)%N.
Proof.
  intros Hs Hn. destruct (Outbound_send m ob) as [w r] eqn:E.
  destruct (Outbound_send_sane m ob w r Hs E) as [(-> & Hs' & Hm)|(-> & ->)].
  - exists w. split_and!; [done|done|]. destruct Hs as (Hq & _), Hs' as (Hq' & _). rewrite Hm, length_app in Hq'. simpl in Hq'. lia.
  - exfalso. destruct Hs as (_ & _ & Ho & Hf & Hr). unfold Outbound_send in E. rewrite Hf, Ho, Hr in E. simpl in E.
    destruct (_ <=? _)%N eqn:El; [|done]. apply N.leb_le in El. lia.
Qed.
Lemma send_out_room (n : N) (m : BrowserMessage) (b : Broker) :
  room (1 + n) b -> exists b1, send_out m b = (b1, Ok tt) /\ room n b1.
Proof.
  intros [Hs Hr]. unfold send_out. destruct (send_room n m _ Hs Hr) as (w & -> & Hs' & Hr'). eexists. split; [done|]. by split.
Qed.
Lemma send_list_room (ms : list BrowserMessage) (n : N) (b : Broker) :
  room (len ms + n) b -> exists b1, send_list ms b = (b1, Ok tt) /\ room n b1.
Proof.
  intros [Hs Hr]. unfold send_list.
  enough (exists w, send_messages ms (br_writer b) = (w, Ok tt) /\ sane w /\ (ob_queued w + n <= MAX_QUEUED_BROWSER_WRITES)%N)
    as (w & -> & Hs' & Hr') by (eexists; split; [done|]; by split).
  revert Hs Hr. generalize (br_writer b). induction ms as [|m ms IH]; intros ob Hs Hr; [by exists ob|].
  destruct (send_room (len ms + n) m ob Hs) as (w & Hw & Hs' & Hr'); [unfold len in *; simpl in Hr; lia|].
  cbn [send_messages]. rewrite Hw. by apply IH.
Qed.
Lemma send_chunks_room (transfer_id : u64) (message : TransferChunk -> BrowserMessage) (size : nat) (cs : list (list byte)) :
  forall offset n (b : Broker), room (len cs + n) b -> (offset + len cs * N.of_nat size <= 4294967295)%N ->
  exists b1, send_chunks transfer_id message size offset cs b = (b1, Ok tt) /\ room n b1.
Proof.
  induction cs as [|c cs IH]; intros offset n b Hr Ho; [by exists b|]. cbn [send_chunks].
  unfold len in *. cbn [length] in *. replace (_ <? offset)%N with false by (symmetry; apply N.ltb_ge; lia).
  edestruct (send_out_room (N.of_nat (length cs) + n) (message (mkChunk transfer_id (to_word 4294967295 offset) c)) b)
    as (b1 & -> & Hr1); [eapply room_le; [|exact Hr]; lia|]. apply IH; [done|lia].
Qed.
Lemma send_document_room (start : DocumentStart) (state : DocumentState) (body : list byte) (b : Broker) :
  room TRANSFER_MESSAGES b ->
  DocumentStart_validate start = Ok tt -> DocumentState_validate state = Ok tt -> len body = val (body_length start) ->
  exists b', send_document start state body b = (b', Ok tt).
Proof.
  intros Hroom Hstart Hstate Hlen.
  assert (Hmax : (body_length start <= MAX_RESPONSE_BODY_BYTES)%N).
  { unfold DocumentStart_validate in Hstart. do 4 (apply bind_Ok in Hstart as (? & _ & Hstart)).
    apply bind_Ok in Hstart as (? & H%ensure_Ok & _). by apply N.leb_le in H. }
  pose proof Hstate as Hparts. unfold DocumentState_validate in Hparts. apply bind_Ok in Hparts as (? & Hcookie%ensure_Ok & Hparts).
  apply bind_Ok in Hparts as ([] & Hlocal & Hsession). unfold map_invalid in Hlocal, Hsession.
  apply map_err_Ok in Hlocal, Hsession.
  destruct (snapshot_valid_parts _ Hlocal) as (_ & Hle & _). destruct (snapshot_valid_parts _ Hsession) as (_ & Hse & _).
  assert (Hcount : forall d a s, len (storage_messages d a s) = (2 + len (snapshot_entries s))%N).
  { intros d a s. unfold storage_messages, len. rewrite length_cons, length_app, length_fmap. simpl. lia. }
  assert (Hchunks : (len (chunks CHUNK_BYTES body) <= 16)%N).
  { pose proof (chunks_count CHUNK_BYTES (length body) body CHUNK_BYTES_pos) as H. pose proof CHUNK_BYTES_value.
    unfold chunks, len, MAX_RESPONSE_BODY_BYTES in *. nia. }
  unfold TRANSFER_MESSAGES, MAX_STORAGE_ENTRIES_PER_ORIGIN in *. unfold send_document. rewrite Hstart, Hstate. cbn [check and_then].
  rewrite Hlen, N.eqb_refl. cbn [negb].
  edestruct (send_out_room 2070 (BmBeginDocument start) (forget_fetches b)) as (b1 & -> & H1); [exact Hroom|]. cbn [and_then].
  unfold send_cookie_snapshot at 1. replace (CookieStateSnapshot_validate _) with (@Ok ProtocolError () tt)
    by (symmetry; apply ensure_Ok; exact Hcookie).
  edestruct (send_out_room 2069) as (b2 & -> & H2); [exact H1|]. cbn [and_then].
  unfold send_storage_snapshot at 1. rewrite Hlocal. replace (_ <? _)%N with false by (symmetry; apply N.ltb_ge; lia).
  edestruct (send_list_room (storage_messages (dst_document start) LocalArea (ds_local_storage state)) 1043) as (b3 & -> & H3);
    [eapply room_le; [|exact H2]; rewrite Hcount; lia|]. cbn [and_then].
  unfold send_storage_snapshot at 1. rewrite Hsession. replace (_ <? _)%N with false by (symmetry; apply N.ltb_ge; lia).
  edestruct (send_list_room (storage_messages (dst_document start) SessionArea (ds_session_storage state)) 17) as (b4 & -> & H4);
    [eapply room_le; [|exact H3]; rewrite Hcount; lia|]. cbn [and_then].
  unfold send_browser_chunks. edestruct (send_chunks_room (id_value (dst_document start)) BmDocumentChunk CHUNK_BYTES
    (chunks CHUNK_BYTES body) 0 1) as (b5 & -> & H5); [eapply room_le; [|exact H4]; lia|
    rewrite CHUNK_BYTES_value; lia|]. cbn [and_then].
  edestruct (send_out_room 0 (BmEndDocument (dst_document start)) b5) as (b6 & -> & _); [exact H5|]. cbn [and_then]. by eexists.
Qed.
End room.

(** ** Witnesses *)
Section example.
Let w32 (n : N) : u32 := to_word 4294967295 n.
Let w64 (n : N) : u64 := to_word u64_max n.
Definition example_id : DocumentId := NonzeroId (w64 7) eq_refl.
Definition example_snapshot : StorageAreaSnapshot :=
  mkSnapshot 3 [mkEntry (StorageString_from "theme") (StorageString_from "dark"); mkEntry (StorageString_from "n") (StorageString_from "")].
Definition example_start : DocumentStart :=
  mkDocumentStart example_id (Str "https://a.test/" eq_refl) (to_word 65535 200) (Str "text/html" eq_refl) [] [] (w32 3) (w32 1) (w32 0)
    None AutoRestoration
    (mkViewport (w32 1145569280) (w32 1145569280) (w32 1145569280) (w32 1145569280) (w32 96) false (mkRate (w32 60) (w32 1) eq_refl))
    false NotifyDefault.
Definition example_state : DocumentState :=
  mkDocumentState (w64 2) (Str "a=1" eq_refl) example_snapshot StorageAreaSnapshot_empty.
Definition example_broker : @Broker () :=
  mkBroker Outbound_new FetchFlow_default updates_bounded None None None None None None None ∅ ∅ None.
Definition example_child : ChildDocuments := mkChild None None None None.
End example.

(** C15. C. A valid document reaches its page whole: unless more than two thousand
    messages wait, the broker accepts the transfer, makes the document the active
    one and forgets the responses of the one before; and a renderer without a
    document, handling what was sent, hands its runtime exactly the declaration,
    the cookie and storage state and the body the browser gave. *)
Theorem document_reaches_the_page {Items : Type} (start : DocumentStart) (state : DocumentState) (body : list byte)
    (b : @Broker Items) :
  room TRANSFER_MESSAGES b ->
  DocumentStart_validate start = Ok tt -> DocumentState_validate state = Ok tt -> len body = val (body_length start) ->
  (snapshot_version (ds_local_storage state) <= u64_max)%N -> (snapshot_version (ds_session_storage state) <= u64_max)%N ->
  exists b' ms, send_document start state body b = (b', Ok tt)
    /\ ob_messages (br_writer b') = ob_messages (br_writer b) ++ ms
    /\ br_active b' = Some (dst_document start) /\ br_outgoing b' = ∅ /\ br_streaming b' = ∅
    /\ forall c, ch_incoming c = None -> ch_runtime c = None ->
         handle_all ms c = (mkChild None None None (ch_update c), Ok [LoadDocument start state body]).
Proof.
  intros Hroom Hstart Hstate Hlen Hlv Hsv. destruct (send_document_room start state body b Hroom Hstart Hstate Hlen) as (b' & Hb').
  destruct (send_document_sends _ _ _ _ _ _ Hb') as (_ & _ & _ & Hms & Ha & _ & Ho & Hst).
  exists b', (document_messages start state body). split_and!; try done. intros c Hi Hr. by apply document_loads.
Qed.

Lemma document_reaches_the_page_witness :
  len [x61; x62; x63] = val (body_length example_start)
  /\ exists b' ms, send_document example_start example_state [x61; x62; x63] example_broker = (b', Ok tt)
    /\ ob_messages (br_writer b') = ob_messages (br_writer example_broker) ++ ms
    /\ br_active b' = Some (dst_document example_start) /\ br_outgoing b' = ∅ /\ br_streaming b' = ∅
    /\ forall c, ch_incoming c = None -> ch_runtime c = None ->
         handle_all ms c = (mkChild None None None (ch_update c), Ok [LoadDocument example_start example_state [x61; x62; x63]]).
Proof.
  split; [reflexivity|].
  apply (document_reaches_the_page example_start example_state [x61; x62; x63] example_broker).
  - split; [by split_and!|]. vm_compute. discriminate.
  - vm_compute. reflexivity.
  - vm_compute. reflexivity.
  - reflexivity.
  - vm_compute. discriminate.
  - vm_compute. discriminate.
Defined.

(** ** Corrections *)
Definition correction_ok (u : BrokerUpdate) : Prop :=
  match u with
  | UpdateSync _ => False
  | UpdateCookie snapshot => CookieStateSnapshot_validate snapshot = Ok tt
  | UpdateStorage _ _ snapshot =>
      StorageAreaSnapshot_validate snapshot = Ok tt /\ (snapshot_version snapshot <= u64_max)%N
  end.
Definition correction_effect (u : BrokerUpdate) : list ChildEffect :=
  match u with
  | UpdateSync _ => []
  | UpdateCookie snapshot => [ReplaceCookie (cs_document snapshot) (cs_version snapshot) (cs_header snapshot)]
  | UpdateStorage document area snapshot => [ReplaceStorage document area snapshot]
  end.
Lemma correction_version (u : BrokerUpdate) :
  correction_ok u -> StateSnapshotApplied_validate (acknowledgement u) = Ok tt.
Proof.
  unfold StateSnapshotApplied_validate. destruct u as [y|s|d a s]; simpl; [done|..].
  - unfold CookieStateSnapshot_validate. intros H%ensure_Ok. apply negb_true_iff, orb_false_iff in H as [H _]. by rewrite H.
  - intros [H Hv]. destruct (snapshot_valid_parts s H) as (Hz & _). rewrite val_to_word by done. by rewrite Hz.
Qed.

(** C. A correction is applied once and the browser learns of it: a renderer running
    the document takes the messages of a valid correction for it, replaces the state
    by exactly the snapshot given, and answers with the acknowledgement for which
    the broker waits - on which the broker, and on no other, takes up the next. *)
Theorem correction_applied_and_acknowledged {Presentation Items : Type} (u : BrokerUpdate) (c : ChildDocuments)
    (b : @Broker Items) (applied : StateSnapshotApplied) :
  correction_ok u -> ch_incoming c = None -> ch_update c = None ->
  ch_runtime c = Some (update_document u) -> ch_failed c = None ->
  br_active b = Some (sa_document applied) ->
  br_outgoing_update b = Some (mkOutgoingUpdate (update_document u) (os_acknowledgement (OutgoingStateUpdate_from u)) []) ->
  handle_all (os_messages (OutgoingStateUpdate_from u)) c
    = (c, Ok (correction_effect u ++ [SendApplied (os_acknowledgement (OutgoingStateUpdate_from u))]))
  /\ ((snapshot_applied (Presentation := Presentation) applied b
         = (set_updates (Receiver_complete (br_updates b)) None b, Ok None))
      <-> applied = os_acknowledgement (OutgoingStateUpdate_from u)).
Proof.
  intros Hu Hi Hup Hr Hf Ha Ho. split.
  - destruct u as [y|s|d a s]; [done|..]; cbn [OutgoingStateUpdate_from os_messages os_acknowledgement update_document] in *.
    + cbn [handle_all handle_document_message]. unfold document_state_cookie. rewrite Hi.
      simpl in Hu. rewrite Hu, Hf, Hr. cbn [protocol map_err mbind result_bind]. unfold is_this.
      rewrite bool_decide_eq_false_2, bool_decide_eq_true_2 by done. done.
    + destruct Hu as [Hs Hv]. rewrite (snapshot_reaches_runtime d a s Hs Hv c Hi Hup).
      * unfold update_effects. rewrite Hf. unfold is_this at 1. rewrite bool_decide_eq_false_2 by done. done.
      * rewrite Hr. unfold is_this. rewrite (bool_decide_eq_true_2 (Some d = Some d)) by done. apply orb_true_r.
  - unfold snapshot_applied. rewrite Ho. cbn [os_messages os_acknowledgement negb orb].
    unfold is_active. rewrite Ha, bool_decide_eq_true_2 by done. cbn [negb]. split.
    + destruct (StateSnapshotApplied_validate applied); [|done].
      destruct (bool_decide_reflect (os_acknowledgement (OutgoingStateUpdate_from u) = applied)); [done|]. by intros [=].
    + intros ->. cbn [OutgoingStateUpdate_from os_acknowledgement]. rewrite (correction_version u Hu).
      by rewrite bool_decide_eq_true_2.
Qed.

Lemma correction_applied_and_acknowledged_witness :
  let u := UpdateStorage example_id LocalArea example_snapshot in
  let applied := mkApplied example_id LocalStorageKind (to_word u64_max 3) in
  let c := mkChild None (Some example_id) None None in
  let o := OutgoingStateUpdate_from u in
  let b : @Broker () := mkBroker Outbound_new FetchFlow_default updates_bounded None (Some example_id) None None None None None ∅ ∅
             (Some (mkOutgoingUpdate example_id (os_acknowledgement o) [])) in
  length (os_messages o) = 4%nat /\
  handle_all (os_messages o) c = (c, Ok (correction_effect u ++ [SendApplied (os_acknowledgement o)]))
  /\ ((snapshot_applied (Presentation := ()) applied b = (set_updates (Receiver_complete (br_updates b)) None b, Ok None))
      <-> applied = os_acknowledgement o).
Proof.
  intros u applied c o b. split; [reflexivity|].
  apply (correction_applied_and_acknowledged u c b applied); try reflexivity.
  split; [vm_compute; reflexivity|vm_compute; discriminate].
Defined.
