(* ===== verification/ChildFetch.v ===== *)
(** * ChildFetch: a renderer's requests and their responses

    [FetchState] of src/renderer_process/child/connection/fetch/state.rs: the
    requests under way, and their responses, collected whole or handed on as they
    come; and, from child/connection/fetch.rs, how a batch of requests is sent and
    collected. Maps are keyed by request identifier. *)

From Stdlib Require Import Strings.Byte.
From S2P Require Import Prelude Text Limits Words Protocol WebStorage StatePayloads Transfers FetchPayloads BulkTransfers Messages FetchFlow StateUpdates ChildState.

(** ** State *)
Inductive Delivery := Buffered | Streaming.
#[global] Instance Delivery_eq_dec : EqDecision Delivery.
Proof. solve_decision. Defined.
Record TrackedRequest := mkTracked { tr_document : DocumentId; tr_batch_id : u64; tr_delivery : Delivery }.
Record BufferedResponse := mkBuffered { bu_head : FetchResponseHead; bu_body : StreamingTransferAssembler }.
Record FetchState := mkFetchState {
  fs_requests : gmap u64 TrackedRequest;
  fs_buffered : gmap u64 BufferedResponse;
  fs_streaming : gmap u64 N;                (* bytes received *)
  fs_completed : gmap u64 BrowserFetchResponse;
  fs_order : list u64;                      (* completed_order *)
  fs_batch_bytes : gmap u64 N;
  fs_retired_through : N }.
Definition FetchState_default : FetchState := mkFetchState ∅ ∅ ∅ ∅ [] ∅ 0.
Record PendingFetchBatch := mkPending { pe_document : DocumentId; pe_batch_id : u64; pe_expected : gset u64 }.
Inductive ScriptFetchDelivery :=
  | DeliverHead (document : DocumentId) (head : FetchResponseHead)
  | DeliverChunk (document : DocumentId) (request_id : u64) (bytes : list byte)
  | DeliverEnd (document : DocumentId) (request_id : u64)
  | DeliverAbort (document : DocumentId) (request_id : u64) (error : BrowserFetchError).

Definition set_requests (m : gmap u64 TrackedRequest) (s : FetchState) : FetchState :=
  mkFetchState m (fs_buffered s) (fs_streaming s) (fs_completed s) (fs_order s) (fs_batch_bytes s) (fs_retired_through s).
Definition set_buffered (m : gmap u64 BufferedResponse) (s : FetchState) : FetchState :=
  mkFetchState (fs_requests s) m (fs_streaming s) (fs_completed s) (fs_order s) (fs_batch_bytes s) (fs_retired_through s).
Definition set_streaming (m : gmap u64 N) (s : FetchState) : FetchState :=
  mkFetchState (fs_requests s) (fs_buffered s) m (fs_completed s) (fs_order s) (fs_batch_bytes s) (fs_retired_through s).
Definition set_completed (m : gmap u64 BrowserFetchResponse) (order : list u64) (s : FetchState) : FetchState :=
  mkFetchState (fs_requests s) (fs_buffered s) (fs_streaming s) m order (fs_batch_bytes s) (fs_retired_through s).
Definition set_batch_bytes (m : gmap u64 N) (s : FetchState) : FetchState :=
  mkFetchState (fs_requests s) (fs_buffered s) (fs_streaming s) (fs_completed s) (fs_order s) m (fs_retired_through s).
Definition Fetched A : Type := FetchState * result ChildError A.
Definition unexpected {A} (detail : string) (s : FetchState) : Fetched A := (s, Err (ChildRefused detail)).

(** ** Registering a batch *)
Definition FetchState_register (document : DocumentId) (batch_id : u64) (requests : list (u64 * bool)) (s : FetchState)
    : Fetched () :=
  if existsb (fun r => has (fs_requests s !! r.1)) requests
  then unexpected "renderer reused an active Fetch request identifier" s
  else
    let track m (r : u64 * bool) :=
      <[r.1 := mkTracked document batch_id (if r.2 then Streaming else Buffered)]> m in
    let s := set_requests (foldl track (fs_requests s) requests) s in
    (if existsb (fun r => negb r.2) requests then set_batch_bytes (<[batch_id := 0%N]> (fs_batch_bytes s)) s else s, Ok tt).
Definition is_complete (p : PendingFetchBatch) (s : FetchState) : bool :=
  forallb (fun id => has (fs_completed s !! id)) (elements (pe_expected p)).
Definition cleanup_batch (batch_id : u64) (s : FetchState) : FetchState :=
  if existsb (fun kr => bool_decide (tr_batch_id kr.2 = batch_id)) (map_to_list (fs_requests s)) then s
  else set_batch_bytes (delete batch_id (fs_batch_bytes s)) s.

(** ** Responses *)
Definition fetch_start (head : FetchResponseHead) (s : FetchState) : Fetched (option ScriptFetchDelivery) :=
  let id := rsh_request_id head in
  match fs_requests s !! id with
  | None => unexpected "unexpected browser Fetch response" s
  | Some tracked =>
      if has (fs_completed s !! id) || has (fs_buffered s !! id) || has (fs_streaming s !! id)
      then unexpected "unexpected browser Fetch response" s
      else
        match tr_delivery tracked with
        | Buffered =>
            match StreamingTransferAssembler_new id (to_word u64_max MAX_RESPONSE_BODY_BYTES) with
            | Err e => (s, Err (ChildProtocol e))
            | Ok body => (set_buffered (<[id := mkBuffered head body]> (fs_buffered s)) s, Ok None)
            end
        | Streaming => (set_streaming (<[id := 0%N]> (fs_streaming s)) s, Ok (Some (DeliverHead (tr_document tracked) head)))
        end
  end.
(** The bytes of all the buffered responses of a batch, counted before the rest is checked. *)
Definition count_bytes (batch_id : u64) (bytes : N) (s : FetchState) : Fetched () :=
  let received := default 0%N (fs_batch_bytes s !! batch_id) in
  let s := set_batch_bytes (<[batch_id := received]> (fs_batch_bytes s)) s in
  match checked_add received bytes with
  | None => unexpected "Fetch response batch length overflow" s
  | Some total =>
      let s := set_batch_bytes (<[batch_id := total]> (fs_batch_bytes s)) s in
      if (MAX_RENDERER_FETCH_BATCH_BODY_BYTES <? total)%N
      then unexpected "Fetch response batch exceeded its body budget" s
      else (s, Ok tt)
  end.
Definition fetch_chunk (chunk : TransferChunk) (s : FetchState) : Fetched (option ScriptFetchDelivery) :=
  let id := tc_transfer_id chunk in
  match fs_requests s !! id with
  | None => unexpected "unsolicited Fetch response chunk" s
  | Some tracked =>
      match tr_delivery tracked with
      | Buffered =>
          match count_bytes (tr_batch_id tracked) (len (tc_bytes chunk)) s with
          | (s, Err e) => (s, Err e)
          | (s, Ok _) =>
              match fs_buffered s !! id with
              | None => unexpected "unsolicited Fetch response chunk" s
              | Some response =>
                  let (body, r) := StreamingTransferAssembler_push (bu_body response) chunk in
                  (set_buffered (<[id := mkBuffered (bu_head response) body]> (fs_buffered s)) s,
                   match r with Ok _ => Ok None | Err e => Err (ChildProtocol e) end)
              end
          end
      | Streaming =>
          match fs_streaming s !! id with
          | None => unexpected "unsolicited Fetch response chunk" s
          | Some received =>
              if negb (tc_offset chunk =? received)%N then unexpected "Fetch stream response offset mismatch" s
              else
                match u32_checked_add received (len (tc_bytes chunk)) with
                | None => unexpected "Fetch stream response length overflow" s
                | Some total =>
                    (set_streaming (<[id := total]> (fs_streaming s)) s,
                     Ok (Some (DeliverChunk (tr_document tracked) id (tc_bytes chunk))))
                end
          end
      end
  end.
Definition fetch_end (stop : FetchResponseEnd) (s : FetchState) : Fetched (option ScriptFetchDelivery) :=
  let id := rse_request_id stop in
  match fs_requests s !! id with
  | None => unexpected "unsolicited Fetch response completion" s
  | Some tracked =>
      match tr_delivery tracked with
      | Buffered =>
          match fs_buffered s !! id with
          | None => unexpected "unsolicited Fetch response completion" s
          | Some response =>
              let s := set_buffered (delete id (fs_buffered s)) s in
              match StreamingTransferAssembler_finish (bu_body response) id (to_word u64_max (rse_total_length stop)) with
              | Err e => (s, Err (ChildProtocol e))
              | Ok body =>
                  let m := <[id := mkBrowserResponse (bu_head response) body]> (fs_completed s) in
                  if has (fs_completed s !! id)
                  then unexpected "duplicate browser Fetch response" (set_completed m (fs_order s) s)
                  else (set_completed m (fs_order s ++ [id]) s, Ok None)
              end
          end
      | Streaming =>
          match fs_streaming s !! id with
          | None => unexpected "unsolicited Fetch response completion" s
          | Some received =>
              let s := set_streaming (delete id (fs_streaming s)) s in
              if negb (received =? rse_total_length stop)%N then unexpected "Fetch stream response length mismatch" s
              else
                (cleanup_batch (tr_batch_id tracked) (set_requests (delete id (fs_requests s)) s),
                 Ok (Some (DeliverEnd (tr_document tracked) id)))
          end
      end
  end.
Definition fetch_abort (abort : FetchResponseAbort) (s : FetchState) : Fetched (option ScriptFetchDelivery) :=
  let id := rsa_request_id abort in
  match fs_requests s !! id with
  | None => unexpected "unexpected browser Fetch abort" s
  | Some tracked =>
      match tr_delivery tracked with
      | Buffered =>
          match fs_buffered s !! id with
          | None => unexpected "unexpected browser Fetch abort" s
          | Some _ =>
              let s := set_buffered (delete id (fs_buffered s)) s in
              let m := <[id := mkBrowserResponse (mkResponseHead id (Failure (rsa_error abort))) []]> (fs_completed s) in
              if has (fs_completed s !! id)
              then unexpected "unexpected browser Fetch abort" (set_completed m (fs_order s) s)
              else (set_completed m (fs_order s ++ [id]) s, Ok None)
          end
      | Streaming =>
          match fs_streaming s !! id with
          | None => unexpected "unexpected browser Fetch abort" s
          | Some _ =>
              let s := set_streaming (delete id (fs_streaming s)) s in
              (cleanup_batch (tr_batch_id tracked) (set_requests (delete id (fs_requests s)) s),
               Ok (Some (DeliverAbort (tr_document tracked) id (rsa_error abort))))
          end
      end
  end.

Definition response_id (m : BrowserMessage) : option u64 :=
  match m with
  | BmFetchResponseStart head => Some (rsh_request_id head)
  | BmFetchResponseChunk chunk => Some (tc_transfer_id chunk)
  | BmFetchResponseEnd stop => Some (rse_request_id stop)
  | BmFetchResponseAbort abort => Some (rsa_request_id abort)
  | _ => None
  end.
(** [FetchState::handle]; what is late for a cancelled document is dropped. *)
Definition FetchState_handle (m : BrowserMessage) (s : FetchState) : Fetched (option ScriptFetchDelivery) :=
  match response_id m with
  | None => unexpected "non-Fetch message reached the Fetch assembler" s
  | Some id =>
      if (id <=? fs_retired_through s)%N && negb (has (fs_requests s !! id)) then (s, Ok None)
      else
        match m with
        | BmFetchResponseStart head => fetch_start head s
        | BmFetchResponseChunk chunk => fetch_chunk chunk s
        | BmFetchResponseEnd stop => fetch_end stop s
        | BmFetchResponseAbort abort => fetch_abort abort s
        | _ => unexpected "non-Fetch message reached the Fetch assembler" s
        end
  end.
(** [buffered_credit]: what the renderer reports consumed at once. *)
Definition buffered_credit (m : BrowserMessage) (s : FetchState) : option (DocumentId * u64 * N) :=
  match m with
  | BmFetchResponseChunk chunk =>
      tracked ← fs_requests s !! tc_transfer_id chunk;
      if bool_decide (tr_delivery tracked = Buffered)
      then total ← u32_checked_add (tc_offset chunk) (len (tc_bytes chunk));
           Some (tr_document tracked, tc_transfer_id chunk, total)
      else None
  | _ => None
  end.

(** ** Collecting and cancelling *)
Fixpoint collect (ready : list u64) (p : PendingFetchBatch) (s : FetchState) (responses : list BrowserFetchResponse)
    : FetchState * PendingFetchBatch * result ChildError (list BrowserFetchResponse) :=
  match ready with
  | [] => (s, p, Ok responses)
  | id :: ready =>
      match fs_requests s !! id with
      | None => (s, p, Err (ChildRefused "Fetch batch request was not active"))
      | Some tracked =>
          let s := set_requests (delete id (fs_requests s)) s in
          if negb (bool_decide (tr_document tracked = pe_document p)) || negb (bool_decide (tr_batch_id tracked = pe_batch_id p))
             || negb (bool_decide (tr_delivery tracked = Buffered))
          then (s, p, Err (ChildRefused "Fetch batch identity mismatch"))
          else
            match fs_completed s !! id with
            | None => (s, p, Err (ChildRefused "browser omitted a Fetch response"))
            | Some response =>
                collect ready (mkPending (pe_document p) (pe_batch_id p) (pe_expected p ∖ {[id]}))
                  (set_completed (delete id (fs_completed s)) (fs_order s) s) (responses ++ [response])
            end
      end
  end.
Definition drop_collected (s : FetchState) : FetchState :=
  set_completed (fs_completed s) (filter (fun id => is_Some (fs_completed s !! id)) (fs_order s)) s.
Definition take_completed (p : PendingFetchBatch) (s : FetchState)
    : FetchState * PendingFetchBatch * result ChildError (list BrowserFetchResponse) :=
  match collect (filter (fun id => id ∈ pe_expected p) (fs_order s)) p s [] with
  | (s, p, Err e) => (s, p, Err e)
  | (s, p, Ok responses) => (cleanup_batch (pe_batch_id p) (drop_collected s), p, Ok responses)
  end.
(** [FetchState::take] *)
Definition take_batch (p : PendingFetchBatch) (s : FetchState) : Fetched (list BrowserFetchResponse) :=
  if negb (is_complete p s) then unexpected "browser omitted a Fetch response" s
  else
    match take_completed p s with
    | (s, _, Err e) => (s, Err e)
    | (s, p, Ok responses) =>
        if bool_decide (pe_expected p = ∅) then (s, Ok responses) else unexpected "browser omitted a Fetch response" s
    end.
Definition document_requests (document : DocumentId) (s : FetchState) : list u64 :=
  (filter (fun kr => tr_document kr.2 = document) (map_to_list (fs_requests s))).*1.
Definition cancel_request (s : FetchState) (id : u64) : FetchState :=
  let s := mkFetchState (fs_requests s) (fs_buffered s) (fs_streaming s) (fs_completed s) (fs_order s) (fs_batch_bytes s)
             (N.max (fs_retired_through s) id) in
  let s := match fs_requests s !! id with
           | Some r => cleanup_batch (tr_batch_id r) (set_requests (delete id (fs_requests s)) s)
           | None => s
           end in
  set_completed (delete id (fs_completed s)) (fs_order s)
    (set_streaming (delete id (fs_streaming s)) (set_buffered (delete id (fs_buffered s)) s)).
Definition cancel_document_fetches (document : DocumentId) (s : FetchState) : FetchState :=
  drop_collected (foldl cancel_request s (document_requests document s)).

(** ** Sending a batch ([start_fetch_batch_with_mode])

    The answer is what is written, and what is awaited; a write that fails ends the
    renderer. *)
(** [send_renderer_chunks] *)
Fixpoint cut (transfer_id : u64) (size : nat) (offset : N) (cs : list (list byte)) : result ChildError (list TransferChunk) :=
  match cs with
  | [] => Ok []
  | c :: cs =>
      _ ← ensure (offset <=? 4294967295)%N (ChildRefused "renderer transfer offset overflow");
      rest ← cut transfer_id size (offset + N.of_nat size) cs;
      Ok (mkChunk transfer_id (to_word 4294967295 offset) c :: rest)
  end.
Definition request_messages (batch_id : u64) (r : RendererFetchRequest) : result ChildError (list RendererMessage) :=
  let id := frh_request_id (rfr_head r) in
  cs ← cut id CHUNK_BYTES 0 (chunks CHUNK_BYTES (rfr_body r));
  Ok (RmFetchRequestStart batch_id (rfr_head r) :: (RmFetchRequestChunk <$> cs) ++ [RmFetchRequestEnd id]).
(** The requests are checked and their identifiers collected in one pass. *)
Fixpoint expect_all (requests : list RendererFetchRequest) (expected : gset u64) : result ChildError (gset u64) :=
  match requests with
  | [] => Ok expected
  | r :: requests =>
      _ ← protocol (RendererFetchRequest_validate r);
      let id := frh_request_id (rfr_head r) in
      if bool_decide (id ∈ expected) then Err (ChildRefused "renderer Fetch batch contains duplicate request identifiers")
      else expect_all requests ({[id]} ∪ expected)
  end.
Definition is_beacon (r : RendererFetchRequest) : bool :=
  match frh_initiator (rfr_head r) with ByBeacon => true | _ => false end.
(** What is registered: a beacon has no response. *)
Definition tracked_requests (stream_script_api : bool) (requests : list RendererFetchRequest) : list (u64 * bool) :=
  (fun r => (frh_request_id (rfr_head r), stream_script_api && streams_response (frh_initiator (rfr_head r))))
    <$> filter (fun r => is_beacon r = false) requests.
Definition start_fetch_batch (stream_script_api : bool) (document : DocumentId) (requests : list RendererFetchRequest)
    (next_batch_id : u64) (s : FetchState)
    : u64 * FetchState * result ChildError (option (list RendererMessage * PendingFetchBatch)) :=
  match requests with
  | [] => (next_batch_id, s, Ok None)
  | _ =>
      if (MAX_RENDERER_FETCH_REQUESTS_PER_BATCH <? len requests)%N
         || existsb (fun r => negb (bool_decide (frh_document (rfr_head r) = document))) requests
      then (next_batch_id, s, Err (ChildRefused "renderer Fetch batch exceeded its contract"))
      else
        match expect_all requests ∅ with
        | Err e => (next_batch_id, s, Err e)
        | Ok expected =>
            let batch_id := next_batch_id in
            let next := to_word u64_max (match checked_add batch_id 1 with Some n => n | None => 1%N end) in
            let tracked := tracked_requests stream_script_api requests in
            let expected := expected ∩ list_to_set tracked.*1 in
            match try_map (request_messages batch_id) requests with
            | Err e => (next, s, Err e)
            | Ok bodies =>
                let ms := RmFetchBatchStart document batch_id (to_word 4294967295 (len requests)) :: concat bodies in
                match FetchState_register document batch_id tracked s with
                | (s, Err e) => (next, s, Err e)
                | (s, Ok _) => (next, s, Ok (Some (ms, mkPending document batch_id expected)))
                end
            end
        end
  end.
