(* ===== verification/BrokerTheory.v ===== *)
(** * BrokerTheory: documents, batches and their limits

    What the broker lets out of a renderer: only the active document's requests and
    events; a batch of fetches exactly as the renderer made it, when it is within
    the two budgets. *)

From Stdlib Require Import Strings.Byte.
From S2P Require Import Prelude Text Limits Words Protocol WebStorage Wire PayloadFields FetchRequest Csp DevicePayloads StatePayloads Transfers DocumentPayloads FetchPayloads InputPayloads BulkTransfers Messages FetchFlow StateUpdates Outbound ChildState ChildFetch Broker.

(** ** How much a request's metadata is *)
Definition header_bytes (h : ustring * ustring) : N := byte_length h.1 + byte_length h.2.
Definition head_metadata (h : FetchRequestHead) : N :=
  byte_length (frh_url h) + byte_length (frh_method h)
  + (match frh_referrer h with ReferUrl url => byte_length url | _ => 0 end)
  + (match frh_script_source h ≫= nonce with Some n => byte_length n | None => 0 end)
  + sum_by header_bytes (frh_headers h).
Lemma add_length_Some (t : N) (s : ustring) :
  (t + byte_length s <= u64_max)%N -> add_length (Some t) s = Some (t + byte_length s)%N.
Proof. apply checked_add_le. Qed.
Lemma add_headers (l : list (ustring * ustring)) : forall t, (t + sum_by header_bytes l <= u64_max)%N ->
  foldl (fun t nv => add_length (add_length t nv.1) nv.2) (Some t) l = Some (t + sum_by header_bytes l)%N.
Proof.
  induction l as [|h l IH]; intros t H; [simpl; f_equal; unfold sum_by; simpl; lia|]. rewrite sum_by_cons in H |- *.
  assert (E : header_bytes h = (byte_length h.1 + byte_length h.2)%N) by done. rewrite E in *. cbn [foldl].
  rewrite add_length_Some by lia. rewrite add_length_Some by lia. rewrite IH by lia. f_equal. lia.
Qed.
Lemma headers_bounded (l : list (ustring * ustring)) :
  existsb (fun p => negb (header_wire_ok p)) l = false ->
  (sum_by header_bytes l <= len l * (MAX_FETCH_HEADER_NAME_BYTES + MAX_FETCH_HEADER_VALUE_BYTES))%N.
Proof.
  induction l as [|h l IH]; intros H; [unfold sum_by; simpl; lia|]. simpl in H. apply orb_false_iff in H as [Hh H].
  specialize (IH H). rewrite sum_by_cons. unfold header_bytes at 1. apply negb_false_iff in Hh. unfold header_wire_ok in Hh.
  rewrite andb_true_iff, !N.leb_le in Hh. unfold len in *. rewrite length_cons. lia.
Qed.
Lemma metadata_bytes_valid (h : FetchRequestHead) :
  FetchRequestHead_validate h = Ok tt ->
  metadata_bytes h = Some (head_metadata h) /\ (head_metadata h <= 8 * 1024 * 1024)%N.
Proof.
  intros H. pose proof (FetchRequestHead_valid h H) as (_ & Hurl & Hmethod & Hsource & Href).
  unfold FetchRequestHead_validate in H. do 3 (apply bind_Ok in H as (? & _ & H)).
  apply bind_Ok in H as (? & Hheaders%ensure_Ok & _). apply negb_true_iff, orb_false_iff in Hheaders as [Hcount Hheaders].
  apply headers_bounded in Hheaders. apply N.ltb_ge in Hcount.
  assert (Hsum : (sum_by header_bytes (frh_headers h) <= 256 * 17408)%N).
  { unfold MAX_FETCH_HEADER_NAME_BYTES, MAX_FETCH_HEADER_VALUE_BYTES, MAX_RENDERER_FETCH_HEADERS in *. nia. }
  assert (Hn : (match frh_script_source h ≫= nonce with Some n => byte_length n | None => 0 end <= 256)%N).
  { unfold script_source_ok in Hsource. destruct (frh_script_source h) as [src|]; simpl; [|lia].
    destruct (nonce src) as [n|]; [|lia]. unfold nonce_wire_ok in Hsource. rewrite andb_true_iff, N.leb_le in Hsource. lia. }
  unfold MAX_URL_BYTES in *. unfold metadata_bytes, head_metadata, longer in *.
  rewrite checked_add_le by (unfold u64_max; lia).
  assert (Hr : match frh_referrer h with ReferUrl url => add_length (Some (byte_length (frh_url h) + byte_length (frh_method h))%N) url
                 | _ => Some (byte_length (frh_url h) + byte_length (frh_method h))%N end
    = Some (byte_length (frh_url h) + byte_length (frh_method h) + match frh_referrer h with ReferUrl url => byte_length url | _ => 0 end)%N
    /\ (match frh_referrer h with ReferUrl url => byte_length url | _ => 0 end <= 16384)%N).
  { destruct (frh_referrer h) as [| |url]; try (split; [f_equal|]; lia). apply N.ltb_ge in Href.
    rewrite add_length_Some by (unfold u64_max; lia). split; [done|lia]. }
  destruct Hr as [-> Hrb]. destruct (frh_script_source h ≫= nonce) as [n|].
  - cbn [mbind option_bind]. rewrite checked_add_le by (unfold u64_max; lia). rewrite add_headers by (unfold u64_max; lia).
    split; [done|lia].
  - rewrite add_headers by (unfold u64_max; lia). split; [f_equal|]; lia.
Qed.

(** ** A batch's two budgets *)
Definition batch_metadata (rs : list RendererFetchRequest) : N := sum_by (fun r => head_metadata (rfr_head r)) rs.
Definition batch_bodies (rs : list RendererFetchRequest) : N := sum_by (fun r => len (rfr_body r)) rs.
Definition within_budget (rs : list RendererFetchRequest) : Prop :=
  (batch_metadata rs <= MAX_RENDERER_FETCH_BATCH_METADATA_BYTES)%N /\ (batch_bodies rs <= MAX_RENDERER_FETCH_BATCH_BODY_BYTES)%N.

Section broker.
Context {Presentation Items : Type}.
Context (decode_with_base : list byte -> option (u64 * Items) -> result ProtocolError Presentation).
Context (presentation_document : Presentation -> DocumentId) (presentation_revision : Presentation -> u64).
Context (presentation_items : Presentation -> Items) (with_micros : u64 -> u64 -> Presentation -> Presentation).
Local Abbreviation Broker := (@Broker Items).
Local Abbreviation RendererEvent := (@RendererEvent Presentation).
Local Abbreviation document_message :=
  (process_document_message decode_with_base presentation_document presentation_revision presentation_items with_micros).
Local Abbreviation document_of := (event_document presentation_document).

(** ** Who publishes *)
Lemma publish_active (b b' : Broker) (d : DocumentId) (e e' : RendererEvent) :
  document_of e = d -> publish b d e = (b', Ok (Some e')) -> br_active b = Some (document_of e').
Proof.
  intros Hd. unfold publish, is_active. destruct (bool_decide_reflect (br_active b = Some d)); [|done]. intros [= _ <-]. congruence.
Qed.
Lemma publish_valid_active {A} (r : result ProtocolError A) (b b' : Broker) (d : DocumentId) (e e' : RendererEvent) :
  document_of e = d -> publish_valid r b d e = (b', Ok (Some e')) -> br_active b = Some (document_of e').
Proof. intros Hd. unfold publish_valid. destruct r; [|done]. by apply publish_active. Qed.
Lemma publish_current_active (r : result ProtocolError ()) (b b' : Broker) (d : DocumentId) (e e' : RendererEvent) :
  document_of e = d -> publish_current r b d e = (b', Ok (Some e')) -> br_active b = Some (document_of e').
Proof.
  intros Hd. unfold publish_current, is_active. destruct (bool_decide_reflect (br_active b = Some d)); [|done].
  destruct r; [|done]. intros [= _ <-]. congruence.
Qed.
Lemma register_keeps_active (rs : list RendererFetchRequest) (b b' : Broker) (r : result BrokerFailure ()) :
  register_fetch_response_policies rs b = (b', r) -> br_active b' = br_active b.
Proof.
  revert b. induction rs as [|q rs IH]; intros b; simpl; [by intros [= <- _]|].
  destruct (FetchFlow_register _ _ _ _) as [f [u|e]]; [|by intros [= <- _]].
  destruct (br_streaming b !! _); [by intros [= <- _]|]. intros H. by rewrite (IH _ H).
Qed.

(** Handlers that never publish. *)
Ltac silent := unfold refuse; repeat case_match; done.
Lemma finish_request_active (request_id : u64) (b b' : Broker) (e : RendererEvent) :
  finish_fetch_request request_id b = (b', Ok (Some e)) -> br_active b = Some (document_of e).
Proof.
  unfold finish_fetch_request. destruct (br_incoming_fetch b) as [batch|]; [|done].
  destruct (ifb_active batch) as [active|]; [|done]. destruct (TransferAssembler_finish _ _); [|done].
  destruct (RendererFetchRequest_validate _); [|done]. destruct (_ =? _)%N; [|done]. unfold is_active. cbn [set_incoming br_active].
  destruct (bool_decide_reflect (br_active b = Some (ifb_document batch))); [|done].
  destruct (register_fetch_response_policies _ _) as [b1 [u|]]; [|done]. by intros [= _ <-].
Qed.
Lemma finish_presentation_active (micros : u64) (d : DocumentId) (revision : u64) (b b' : Broker) (e : RendererEvent) :
  finish_presentation decode_with_base presentation_document presentation_revision presentation_items with_micros
    micros d revision b = (b', Ok (Some e)) -> br_active b = Some (document_of e).
Proof.
  unfold finish_presentation. destruct (br_incoming_presentation b) as [i|]; [|done]. destruct (_ || _); [done|].
  destruct (TransferAssembler_finish _ _ ≫= _) as [p|]; [|done]. destruct (_ || _) eqn:E; [done|].
  apply orb_false_iff in E as [E _]. apply negb_false_iff, bool_decide_eq_true in E.
  intros H. by apply publish_active in H.
Qed.

(** C. Nothing a renderer says for a document that is not the active one - replaced,
    cancelled or never its own - is published: not its requests, nor its
    presentations, nor any device, storage, cookie or navigation request. *)
Theorem published_by_the_active_document (decode_micros : u64) (m : RendererMessage) (b b' : Broker) (e : RendererEvent) :
  document_message decode_micros m b = (b', Ok (Some e)) -> br_active b = Some (document_of e).
Proof.
  destruct m; cbn [process_document_message]; try done;
    try (by apply publish_active); try (by apply publish_valid_active); try (by apply publish_current_active).
  - unfold begin_fetch_batch. silent.
  - unfold begin_fetch_request. silent.
  - unfold fetch_request_chunk. silent.
  - apply finish_request_active.
  - unfold abort_request, is_active. destruct (negb _); [done|].
    destruct (bool_decide_reflect (br_active b = Some document)); [|done].
    destruct (retire_flow _ _ _); [|done]. by intros [= _ <-].
  - unfold response_consumed. silent.
  - unfold begin_presentation. silent.
  - unfold presentation_chunk. silent.
  - apply finish_presentation_active.
  - unfold document_failed, is_active. destruct (bool_decide_reflect (br_active b = Some document)); [|done]. by intros [= _ <-].
  - unfold navigation_requested, is_active. destruct (bool_decide_reflect (br_active b = Some document)); [|done].
    by intros [= _ <-].
  - unfold snapshot_applied. silent.
Qed.

(** ** A batch *)
Fixpoint document_run (micros : u64) (ms : list RendererMessage) (b : Broker) : Broker * result BrokerFailure (list RendererEvent) :=
  match ms with
  | [] => (b, Ok [])
  | m :: ms =>
      match document_message micros m b with
      | (b, Err e) => (b, Err e)
      | (b, Ok o) =>
          match document_run micros ms b with
          | (b, Ok es) => (b, Ok (option_list o ++ es))
          | (b, Err e) => (b, Err e)
          end
      end
  end.
Lemma document_run_step (micros : u64) (m : RendererMessage) (ms : list RendererMessage) (b b1 : Broker) :
  document_message micros m b = (b1, Ok None) -> document_run micros (m :: ms) b = document_run micros ms b1.
Proof. intros H. cbn [document_run]. rewrite H. by destruct (document_run micros ms b1) as [? []]. Qed.
Lemma document_run_app (micros : u64) (ms ns : list RendererMessage) (b b1 : Broker) :
  document_run micros ms b = (b1, Ok []) -> document_run micros (ms ++ ns) b = document_run micros ns b1.
Proof.
  revert b. induction ms as [|m ms IH]; intros b; [by intros [= ->]|]. cbn [document_run app].
  destruct (document_message micros m b) as [b2 [o|e]]; [|done]. destruct (document_run micros ms b2) as [b3 [es|e]] eqn:E; [|done].
  intros [= -> H]. apply app_nil in H as [-> ->]. rewrite (IH b2 E). by destruct (document_run micros ns b1) as [? []].
Qed.
Lemma document_run_fails (micros : u64) (ms ns : list RendererMessage) (b b1 : Broker) (e : BrokerFailure) :
  document_run micros ms b = (b1, Err e) -> document_run micros (ms ++ ns) b = (b1, Err e).
Proof.
  revert b. induction ms as [|m ms IH]; intros b; [done|]. cbn [document_run app].
  destruct (document_message micros m b) as [b2 [o|e']]; [|done]. destruct (document_run micros ms b2) as [b3 [es|e']] eqn:E; [done|].
  intros [= -> ->]. by rewrite (IH b2 E).
Qed.

Definition batch_with (d : DocumentId) (bid : u64) (n : N) (rs : list RendererFetchRequest) (o : option IncomingFetchRequest)
    (bodies metadata : N) (b : Broker) : Broker :=
  set_incoming (Some (mkIncomingBatch d bid n rs o bodies metadata)) b.
Lemma chunks_reach_request (micros : u64) (d : DocumentId) (bid : u64) (n bodies metadata : N) (rs : list RendererFetchRequest)
    (h : FetchRequestHead) (id expected : u64) (b : Broker) (cs : list TransferChunk) : forall l,
  well_sent id (len l) cs -> (len (l ++ contents cs) <= expected)%N ->
  document_run micros (RmFetchRequestChunk <$> cs)
    (batch_with d bid n rs (Some (mkIncomingRequest h (mkAssembler id expected l))) bodies metadata b)
  = (batch_with d bid n rs (Some (mkIncomingRequest h (mkAssembler id expected (l ++ contents cs)))) bodies metadata b, Ok []).
Proof.
  induction cs as [|c cs IH]; intros l Hw Hlen.
  - change (contents []) with (@nil byte). by rewrite app_nil_r.
  - apply well_sent_cons in Hw as (Hid & Hoff & Hw). rewrite contents_cons, app_assoc in Hlen |- *. rewrite fmap_cons.
    rewrite (document_run_step _ _ _ _
      (batch_with d bid n rs (Some (mkIncomingRequest h (mkAssembler id expected (l ++ tc_bytes c)))) bodies metadata b)).
    + rewrite IH; [done|by rewrite len_app|done].
    + cbn [process_document_message]. unfold fetch_request_chunk, batch_with. cbn [set_incoming br_incoming_fetch ifb_active ifr_body].
      assert (H : TransferAssembler_push (mkAssembler id expected l) c = (mkAssembler id expected (l ++ tc_bytes c), Ok tt)).
      { apply push_accepts. cbn [ta_transfer_id ta_bytes ta_expected]. split_and!; try done. rewrite len_app in Hlen. lia. }
      by rewrite H.
Qed.

(** The requests and identifiers of a batch the renderer admits. *)
Definition request_id (r : RendererFetchRequest) : u64 := frh_request_id (rfr_head r).
Definition admissible (d : DocumentId) (r : RendererFetchRequest) : Prop :=
  RendererFetchRequest_validate r = Ok tt /\ frh_document (rfr_head r) = d.
Lemma admissible_parts (d : DocumentId) (r : RendererFetchRequest) :
  admissible d r ->
  FetchRequestHead_validate (rfr_head r) = Ok tt /\ len (rfr_body r) = val (frh_body_length (rfr_head r))
  /\ (frh_body_length (rfr_head r) <= MAX_RESPONSE_BODY_BYTES)%N /\ (request_id r =? 0)%N = false.
Proof.
  intros [Hv _]. unfold RendererFetchRequest_validate, reject in Hv. apply bind_Ok in Hv as ([] & Hh & Hb%ensure_Ok).
  split_and!; [done|lia| |by apply FetchRequestHead_valid in Hh as [? _]].
  unfold FetchRequestHead_validate in Hh. do 4 (apply bind_Ok in Hh as (? & _ & Hh)).
  apply bind_Ok in Hh as (? & H%ensure_Ok & _). by apply N.leb_le in H.
Qed.

Lemma batch_metadata_snoc (rs : list RendererFetchRequest) (r : RendererFetchRequest) :
  batch_metadata (rs ++ [r]) = (batch_metadata rs + head_metadata (rfr_head r))%N.
Proof. unfold batch_metadata. rewrite sum_by_app, sum_by_cons. change (sum_by _ []) with 0%N. lia. Qed.
Lemma batch_bodies_snoc (rs : list RendererFetchRequest) (r : RendererFetchRequest) :
  batch_bodies (rs ++ [r]) = (batch_bodies rs + len (rfr_body r))%N.
Proof. unfold batch_bodies. rewrite sum_by_app, sum_by_cons. change (sum_by _ []) with 0%N. lia. Qed.

Section one_request.
Context (d : DocumentId) (bid : u64) (n : N) (rs : list RendererFetchRequest) (r : RendererFetchRequest) (b : Broker).
Context (Hadm : admissible d r) (Hn : (len rs < n)%N) (Hnew : ~ In (request_id r) (request_id <$> rs)) (Hbudget : within_budget rs).
Definition waiting (rs : list RendererFetchRequest) (b : Broker) : Broker :=
  batch_with d bid n rs None (batch_bodies rs) (batch_metadata rs) b.
Definition assembling_request (l : list byte) : Broker :=
  batch_with d bid n rs (Some (mkIncomingRequest (rfr_head r)
    (mkAssembler (request_id r) (to_word u64_max (frh_body_length (rfr_head r))) l)))
    (batch_bodies (rs ++ [r])) (batch_metadata (rs ++ [r])) b.

Lemma request_starts :
  (within_budget (rs ++ [r]) -> begin_fetch_request (Presentation := Presentation) bid (rfr_head r) (waiting rs b) = (assembling_request [], Ok None))
  /\ (~ within_budget (rs ++ [r]) -> exists detail,
       begin_fetch_request (Presentation := Presentation) bid (rfr_head r) (waiting rs b) = refuse (waiting rs b) detail).
Proof.
  destruct (admissible_parts d r Hadm) as (Hh & Hb & Hmax & Hid). destruct Hadm as [_ Hd]. destruct Hbudget as [Hm1 Hb1].
  destruct (metadata_bytes_valid _ Hh) as [Hmeta Hmeta8].
  unfold begin_fetch_request.
  change (br_incoming_fetch (waiting rs b)) with (Some (mkIncomingBatch d bid n rs None (batch_bodies rs) (batch_metadata rs))).
  cbn [ifb_batch_id ifb_document ifb_active ifb_expected ifb_requests ifb_metadata_bytes ifb_body_bytes].
  rewrite N.eqb_refl, Hd, bool_decide_eq_true_2 by done. cbn [negb orb]. replace (n <=? len rs)%N with false by lia. cbn [orb].
  replace (existsb _ rs) with false.
  2:{ symmetry. apply not_true_is_false. intros (q & Hq & Heq)%existsb_exists. apply Hnew. apply N.eqb_eq in Heq.
      apply list_elem_of_In, list_elem_of_fmap. exists q. split; [by apply word_eq|by apply list_elem_of_In]. }
  rewrite Hh, Hmeta. cbn [mbind option_bind]. unfold within_budget. rewrite batch_metadata_snoc, batch_bodies_snoc, Hb.
  unfold MAX_RENDERER_FETCH_BATCH_METADATA_BYTES, MAX_RENDERER_FETCH_BATCH_BODY_BYTES, MAX_RESPONSE_BODY_BYTES in *.
  rewrite checked_add_le by (unfold u64_max; lia).
  destruct (N.ltb_spec (4 * 1024 * 1024) (batch_metadata rs + head_metadata (rfr_head r))); [split; [lia|by eexists]|].
  rewrite checked_add_le by (unfold u64_max; lia).
  destruct (N.ltb_spec (32 * 1024 * 1024) (batch_bodies rs + frh_body_length (rfr_head r))); [split; [lia|by eexists]|].
  split; [intros _|intros []; split; lia]. unfold TransferAssembler_new. unfold request_id in Hid. rewrite Hid. cbn [orb].
  replace (_ <? _)%N with false; [|symmetry; apply N.ltb_ge; rewrite !val_to_word by (unfold u64_max; lia); lia].
  unfold assembling_request, batch_with, request_id. by rewrite batch_metadata_snoc, batch_bodies_snoc, Hb.
Qed.

Lemma request_reaches (micros : u64) (ms : list RendererMessage) :
  request_messages bid r = Ok ms -> within_budget (rs ++ [r]) ->
  document_run micros ms (waiting rs b)
  = match finish_fetch_request (request_id r) (assembling_request (rfr_body r)) with
    | (b, Ok o) => (b, Ok (option_list o))
    | (b, Err e) => (b, Err e)
    end.
Proof.
  intros Hms Hok. destruct (admissible_parts d r Hadm) as (Hh & Hb & Hmax & Hid). unfold request_messages in Hms.
  apply bind_Ok in Hms as (cs & Hcs & [= <-]). fold (request_id r) in Hcs |- *.
  assert (Hcut : forall size l offset cs, cut (request_id r) size offset l = Ok cs -> cs = numbered (request_id r) size offset l).
  { intros size l. induction l as [|c l IH]; intros offset cs'; cbn [cut numbered]; [by intros [= <-]|].
    intros H. apply bind_Ok in H as (? & _ & H). apply bind_Ok in H as (rest & Hrest & [= <-]). by rewrite (IH _ _ Hrest). }
  apply Hcut in Hcs as ->. destruct request_starts as [Hstart _].
  rewrite (document_run_step _ _ _ _ (assembling_request [])) by (by apply Hstart).
  assert (Hcontents : contents (numbered (request_id r) CHUNK_BYTES 0 (chunks CHUNK_BYTES (rfr_body r))) = rfr_body r).
  { rewrite numbered_contents. apply chunks_within_concat; [apply CHUNK_BYTES_pos|lia]. }
  rewrite (document_run_app _ _ _ _ (assembling_request (rfr_body r))).
  - cbn [document_run process_document_message]. destruct (finish_fetch_request _ _) as [b1 [o|e]]; [|done]. by rewrite app_nil_r.
  - unfold assembling_request. rewrite (chunks_reach_request micros d bid n _ _ rs _ (request_id r)); rewrite ?Hcontents; [done| |].
    + apply chunks_well_sent; [apply CHUNK_BYTES_pos|lia|]. unfold MAX_RESPONSE_BODY_BYTES in *. simpl. lia.
    + rewrite val_to_word by (unfold MAX_RESPONSE_BODY_BYTES, u64_max in *; lia). simpl. lia.
Qed.

Lemma request_finishes :
  finish_fetch_request (Presentation := Presentation) (request_id r) (assembling_request (rfr_body r))
  = if (len (rs ++ [r]) =? n)%N
    then
      if is_active b d
      then match register_fetch_response_policies (rs ++ [r]) (set_incoming None b) with
           | (b, Err e) => (b, Err e)
           | (b, Ok _) => (b, Ok (Some (EvFetchBatch d (rs ++ [r]))))
           end
      else (set_incoming None b, Ok None)
    else (waiting (rs ++ [r]) b, Ok None).
Proof.
  destruct (admissible_parts d r Hadm) as (Hh & Hb & Hmax & Hid). destruct Hadm as [Hv _].
  unfold finish_fetch_request, assembling_request at 1, batch_with at 1. cbn [set_incoming br_incoming_fetch ifb_active ifr_body].
  unfold TransferAssembler_finish. cbn [ta_transfer_id ta_bytes ta_expected].
  rewrite val_to_word by (unfold MAX_RESPONSE_BODY_BYTES, u64_max in *; lia). rewrite N.eqb_refl, Hb, N.eqb_refl. cbn [negb orb].
  cbn [ifr_head]. replace (mkFetchRequest (rfr_head r) (rfr_body r)) with r by (by destruct r). rewrite Hv.
  cbn [ifb_requests ifb_expected ifb_document ifb_batch_id ifb_body_bytes ifb_metadata_bytes].
  destruct (_ =? n)%N; [|done]. done.
Qed.
End one_request.

Lemma within_budget_prefix (rs ks : list RendererFetchRequest) : within_budget (rs ++ ks) -> within_budget rs.
Proof. unfold within_budget, batch_metadata, batch_bodies. rewrite !sum_by_app. lia. Qed.
#[global] Instance within_budget_dec (rs : list RendererFetchRequest) : Decision (within_budget rs).
Proof. unfold within_budget. apply _. Defined.

(** What the last request of a batch does. *)
Definition batch_done (d : DocumentId) (rs : list RendererFetchRequest) (b : Broker) : Broker * result BrokerFailure (list RendererEvent) :=
  if is_active b d
  then match register_fetch_response_policies rs (set_incoming None b) with
       | (b, Err e) => (b, Err e)
       | (b, Ok _) => (b, Ok [EvFetchBatch d rs])
       end
  else (set_incoming None b, Ok []).
Lemma batch_runs (micros : u64) (d : DocumentId) (bid : u64) (n : N) (b : Broker) : forall rest rs bodies,
  rest <> [] -> Forall (admissible d) (rs ++ rest) -> NoDup (request_id <$> (rs ++ rest)) -> n = len (rs ++ rest) ->
  within_budget rs -> try_map (request_messages bid) rest = Ok bodies ->
  (within_budget (rs ++ rest) -> document_run micros (concat bodies) (waiting d bid n rs b) = batch_done d (rs ++ rest) b)
  /\ (~ within_budget (rs ++ rest) -> exists b' detail,
       document_run micros (concat bodies) (waiting d bid n rs b) = (b', Err (Refused (InvalidPayload detail)))).
Proof.
  induction rest as [|r rest IH]; intros rs bodies Hne Hadm Hnd Hn Hb Hmap; [done|].
  cbn [try_map] in Hmap. apply bind_Ok in Hmap as (m & Hm & Hmap). apply bind_Ok in Hmap as (ms & Hms & [= <-]). cbn [concat].
  rewrite (app_assoc rs [r] rest : rs ++ r :: rest = (rs ++ [r]) ++ rest) in *.
  assert (Hr : admissible d r) by (rewrite !Forall_app, Forall_singleton in Hadm; tauto).
  assert (Hlt : (len rs < n)%N) by (subst n; unfold len; rewrite !length_app; simpl; lia).
  assert (Hnew : ~ In (request_id r) (request_id <$> rs)).
  { rewrite !fmap_app, !NoDup_app in Hnd. destruct Hnd as ((_ & Hnd & _) & _). intros H%list_elem_of_In.
    apply (Hnd _ H). simpl. apply list_elem_of_singleton. done. }
  destruct (decide (within_budget (rs ++ [r]))) as [Hin|Hout].
  - pose proof (request_reaches d bid n rs r b Hr Hlt Hnew Hb micros m Hm Hin) as Hrun.
    rewrite (request_finishes d bid n rs r b Hr Hlt Hnew) in Hrun.
    destruct rest as [|r' rest].
    + rewrite app_nil_r in *. cbn in Hms. injection Hms as <-. cbn [concat]. rewrite app_nil_r. split; [intros _|done].
      rewrite Hrun, Hn, N.eqb_refl. unfold batch_done. destruct (is_active b d); [|done].
      by destruct (register_fetch_response_policies _ _) as [? []].
    + replace (len (rs ++ [r]) =? n)%N with false in Hrun
        by (symmetry; apply N.eqb_neq; subst n; unfold len; rewrite !length_app; simpl; lia).
      cbn [option_list] in Hrun. rewrite (document_run_app _ _ _ _ _ Hrun). by apply IH.
  - split; [intros H; by apply within_budget_prefix in H|]. intros _.
    destruct (request_starts d bid n rs r b Hr Hlt Hnew Hb) as [_ Href]. destruct (Href Hout) as (detail & Hd).
    exists (waiting d bid n rs b), detail. unfold request_messages in Hm. apply bind_Ok in Hm as (cs & _ & [= <-]).
    cbn [app document_run process_document_message]. by rewrite Hd.
Qed.

Lemma expect_all_Ok (rs : list RendererFetchRequest) : forall seen out,
  expect_all rs seen = Ok out ->
  Forall (fun r => RendererFetchRequest_validate r = Ok tt) rs /\ NoDup (request_id <$> rs)
  /\ forall r, r ∈ rs -> request_id r ∉ seen.
Proof.
  induction rs as [|r rs IH]; intros seen out; cbn [expect_all].
  - intros _. split_and!; [done|apply NoDup_nil_2|]. by intros r ?%not_elem_of_nil.
  - intros H. apply bind_Ok in H as ([] & Hv & H). unfold protocol in Hv. apply map_err_Ok in Hv.
    fold (request_id r) in H. destruct (bool_decide_reflect (request_id r ∈ seen)) as [|Hseen]; [done|].
    destruct (IH _ _ H) as (Hall & Hnd & Hout). split_and!; [by constructor| |].
    + rewrite fmap_cons. apply NoDup_cons. split; [|done]. intros (q & Hq & Hin)%list_elem_of_fmap.
      apply (Hout q Hin). rewrite <- Hq. set_solver.
    + intros q [->|Hq]%elem_of_cons; [done|]. specialize (Hout q Hq). set_solver.
Qed.

Lemma register_all (d : DocumentId) (rs : list RendererFetchRequest) : forall b : Broker,
  Forall (fun r => frh_document (rfr_head r) = d) rs -> NoDup (request_id <$> rs) ->
  (forall r, r ∈ rs -> flow_requests (br_flow b) !! (d, request_id r) = None /\ br_streaming b !! request_id r = None) ->
  exists b', register_fetch_response_policies rs b = (b', Ok tt)
    /\ (forall r, r ∈ rs -> br_streaming b' !! request_id r = Some (streams_response (frh_initiator (rfr_head r))))
    /\ (forall id, id ∉ request_id <$> rs -> br_streaming b' !! id = br_streaming b !! id)
    /\ br_outgoing b' = br_outgoing b /\ br_active b' = br_active b.
Proof.
  induction rs as [|r rs IH]; intros b Hd Hnd Hfresh; cbn [register_fetch_response_policies].
  - exists b. split_and!; [done| |done..]. by intros r ?%not_elem_of_nil.
  - apply Forall_cons in Hd as [Hr Hd]. rewrite fmap_cons in Hnd. apply NoDup_cons in Hnd as [Hnot Hnd].
    destruct (Hfresh r) as [Hflow Hstr]; [left|]. fold (request_id r). unfold FetchFlow_register. rewrite Hr, Hflow, Hstr.
    match goal with |- context [register_fetch_response_policies rs ?x] => set (b1 := x) end.
    destruct (IH b1 Hd Hnd) as (b' & Hb' & Hin & Hout & Hsame & Hact).
    { intros q Hq. assert (Hne : request_id q <> request_id r).
      { intros E. apply Hnot. rewrite <- E. apply list_elem_of_fmap. by exists q. }
      destruct (Hfresh q) as [H1 H2]; [by right|]. unfold b1. cbn [set_outgoing set_flow br_flow br_streaming]. split.
      - destruct (uses_priority_lane _); [unfold FetchFlow_mark_prioritized; cbn [flow_requests]; rewrite lookup_insert_eq; cbn [flow_requests]|cbn [flow_requests]];
          rewrite ?lookup_insert_ne by congruence; done.
      - by rewrite lookup_insert_ne. }
    exists b'. split_and!; [done| | |done|done].
    + intros q [->|Hq]%elem_of_cons; [|by apply Hin]. rewrite Hout by done. unfold b1. cbn [set_outgoing br_streaming].
      by rewrite lookup_insert_eq.
    + intros id Hid. apply not_elem_of_cons in Hid as [Hid1 Hid2]. rewrite Hout by done. unfold b1. cbn [set_outgoing br_streaming].
      by rewrite lookup_insert_ne.
Qed.

Lemma batch_outcome (micros : u64) (stream : bool) (d : DocumentId) (requests : list RendererFetchRequest)
    (bid next : u64) (s s' : FetchState) (ms : list RendererMessage) (p : PendingFetchBatch) (b : Broker) :
  start_fetch_batch stream d requests bid s = (next, s', Ok (Some (ms, p))) -> (bid =? 0)%N = false ->
  br_active b = Some d -> br_incoming_fetch b = None ->
  (forall r, r ∈ requests -> flow_requests (br_flow b) !! (d, request_id r) = None /\ br_streaming b !! request_id r = None) ->
  (within_budget requests -> exists b', document_run micros ms b = (b', Ok [EvFetchBatch d requests])
     /\ (forall r, r ∈ requests -> br_streaming b' !! request_id r = Some (streams_response (frh_initiator (rfr_head r))))
     /\ br_outgoing b' = br_outgoing b /\ br_active b' = br_active b)
  /\ (~ within_budget requests -> exists b' detail, document_run micros ms b = (b', Err (Refused (InvalidPayload detail)))).
Proof.
  intros Hstart Hbid Ha Hi Hfresh. unfold start_fetch_batch in Hstart. destruct requests as [|r0 rest] eqn:Hreq; [done|].
  rewrite <- Hreq in *. destruct (_ || _) eqn:Hcontract; [done|].
  apply orb_false_iff in Hcontract as [Hcount%N.ltb_ge Hdocs].
  destruct (expect_all requests ∅) as [expected|] eqn:Hexp; [|done].
  destruct (try_map (request_messages bid) requests) as [bodies|] eqn:Hbodies; [|done].
  destruct (FetchState_register _ _ _ _) as [s1 [[]|]]; [|done]. injection Hstart as _ _ <- _.
  destruct (expect_all_Ok _ _ _ Hexp) as (Hvalid & Hnd & _).
  assert (Hdoc : Forall (fun r => frh_document (rfr_head r) = d) requests).
  { apply Forall_forall. intros r Hr. destruct (bool_decide_reflect (frh_document (rfr_head r) = d)) as [|Hne]; [done|].
    exfalso. enough (existsb (fun r => negb (bool_decide (frh_document (rfr_head r) = d))) requests = true) by congruence.
    apply existsb_exists. exists r. split; [by apply list_elem_of_In|]. by rewrite bool_decide_eq_false_2. }
  assert (Hadm : Forall (admissible d) requests) by (apply Forall_and; by split).
  unfold MAX_RENDERER_FETCH_REQUESTS_PER_BATCH in Hcount.
  assert (Hlen : val (to_word 4294967295 (len requests)) = len requests) by (apply val_to_word; lia).
  set (b1 := set_documents (br_active b) None (br_deadline b) b).
  assert (Hbegin : begin_fetch_batch (Presentation := Presentation) d bid (to_word 4294967295 (len requests)) b
    = (waiting d bid (len requests) [] b1, Ok None)).
  { unfold begin_fetch_batch, owns_document, is_active. rewrite Hi, Ha, bool_decide_eq_true_2, Hbid, Hlen by done.
    unfold MAX_RENDERER_FETCH_REQUESTS_PER_BATCH. replace (256 <? len requests)%N with false by lia.
    replace (len requests =? 0)%N with false by (symmetry; apply N.eqb_neq; rewrite Hreq; unfold len; simpl; lia).
    cbn [negb orb]. unfold b1. by rewrite Ha. }
  erewrite document_run_step by exact Hbegin.
  destruct (batch_runs micros d bid (len requests) b1 requests [] bodies) as [Hyes Hno]; try done; [by rewrite Hreq|].
  cbn [app] in Hyes, Hno. split; [|done]. intros Hin. rewrite (Hyes Hin). unfold batch_done, is_active, b1.
  cbn [set_documents br_active]. rewrite Ha, bool_decide_eq_true_2 by done.
  destruct (register_all d requests (set_incoming None (set_documents (Some d) None (br_deadline b) b)) Hdoc Hnd Hfresh)
    as (b' & -> & Hstr & _ & Hsame & Hact). by exists b'.
Qed.

(** C. A batch of fetches crosses to the browser exactly when it is within the
    broker's two budgets, 4 MiB of metadata and 32 MiB of bodies: then the browser
    is handed the renderer's requests unchanged and expects their responses; else
    the broker takes the batch for a violation, though the renderer, which knows
    neither budget, has sent it in good order. *)
Theorem batch_reaches_the_network (micros : u64) (stream : bool) (d : DocumentId) (requests : list RendererFetchRequest)
    (bid next : u64) (s s' : FetchState) (ms : list RendererMessage) (p : PendingFetchBatch) (b : Broker) :
  start_fetch_batch stream d requests bid s = (next, s', Ok (Some (ms, p))) -> (bid =? 0)%N = false ->
  br_active b = Some d -> br_incoming_fetch b = None ->
  (forall r, r ∈ requests -> flow_requests (br_flow b) !! (d, request_id r) = None /\ br_streaming b !! request_id r = None) ->
  (within_budget requests -> exists b', document_run micros ms b = (b', Ok [EvFetchBatch d requests])
     /\ forall r, r ∈ requests -> br_streaming b' !! request_id r = Some (streams_response (frh_initiator (rfr_head r))))
  /\ (~ within_budget requests -> exists b' detail, document_run micros ms b = (b', Err (Refused (InvalidPayload detail)))).
Proof.
  intros H Hb Ha Hi Hf. destruct (batch_outcome micros _ _ _ _ _ _ _ _ _ _ H Hb Ha Hi Hf) as [Hyes Hno]. split; [|exact Hno].
  intros Hin. destruct (Hyes Hin) as (b' & Hr & Hs & _). by exists b'.
Qed.
End broker.

(** ** Concrete inputs *)
Definition theory_document : DocumentId := NonzeroId (to_word u64_max 7) eq_refl.
Definition theory_broker : @Broker () :=
  mkBroker Outbound_new FetchFlow_default updates_bounded None (Some theory_document) None None None None None ∅ ∅ None.
Definition nothing_decodes (l : list byte) (o : option (u64 * ())) : result ProtocolError () := Err (InvalidPayload "presentation").
Lemma published_by_the_active_document_witness :
  let e : @RendererEvent () := EvScrollCompleted theory_document (to_word u64_max 3) in
  process_document_message nothing_decodes (fun _ => theory_document) (fun _ => to_word u64_max 0) (fun _ => tt) (fun _ _ p => p)
    (to_word u64_max 0) (RmScrollCompleted theory_document (to_word u64_max 3)) theory_broker = (theory_broker, Ok (Some e))
  /\ br_active theory_broker = Some (event_document (fun _ => theory_document) e).
Proof.
  intros e. split; [reflexivity|].
  apply (published_by_the_active_document nothing_decodes (fun _ => theory_document) (fun _ => to_word u64_max 0) (fun _ => tt)
           (fun _ _ p => p) (to_word u64_max 0) (RmScrollCompleted theory_document (to_word u64_max 3)) theory_broker theory_broker e).
  reflexivity.
Defined.

Definition theory_request (id : N) : RendererFetchRequest :=
  mkFetchRequest (mkRequestHead RequestClient_default RequestClient_default RequestClient_default (to_word u64_max id) theory_document
    ByScriptApi ForFetch None (Str "https://a.test/x" eq_refl) (Str "POST" eq_refl) [] FetchCors CredInclude CacheDefault RedirectFollow
    ReferClient SendOrigin (to_word 4294967295 2) false) [x68; x69].
Definition theory_batch : list RendererFetchRequest := [theory_request 1; theory_request 2].
Definition messages_sent (o : u64 * FetchState * result ChildError (option (list RendererMessage * PendingFetchBatch))) : nat :=
  match o with (_, _, Ok (Some (ms, _))) => length ms | _ => 0%nat end.
Lemma batch_reaches_the_network_witness :
  exists ms b', length ms = 7%nat
  /\ document_run nothing_decodes (fun _ => theory_document) (fun _ => to_word u64_max 0) (fun _ => tt) (fun _ _ p => p)
       (to_word u64_max 0) ms theory_broker = (b', Ok [EvFetchBatch theory_document theory_batch])
  /\ forall r, r ∈ theory_batch -> br_streaming b' !! request_id r = Some (streams_response (frh_initiator (rfr_head r))).
Proof.
  assert (Hsent : messages_sent (start_fetch_batch true theory_document theory_batch (to_word u64_max 1) FetchState_default) = 7%nat)
    by (vm_compute; reflexivity).
  destruct (start_fetch_batch true theory_document theory_batch (to_word u64_max 1) FetchState_default)
    as [[next s'] [[[ms p]|]|]] eqn:E; [|discriminate Hsent|discriminate Hsent].
  destruct (batch_reaches_the_network nothing_decodes (fun _ => theory_document) (fun _ => to_word u64_max 0) (fun _ => tt)
           (fun _ _ p => p) (to_word u64_max 0) true theory_document theory_batch (to_word u64_max 1) next FetchState_default s' ms p theory_broker
           E) as [Hin _].
  - vm_compute. reflexivity.
  - reflexivity.
  - reflexivity.
  - intros r _. unfold theory_broker. cbn [br_flow br_streaming flow_requests FetchFlow_default]. split; apply lookup_empty.
  - destruct Hin as (b' & Hb & Hs); [vm_compute; split; discriminate|]. by exists ms, b'.
Defined.
