(* ===== verification/FetchRoundTrip.v ===== *)
(** * FetchRoundTrip: from a renderer's requests to their responses

    The broker's forwarding of responses (Broker.v) and the renderer's handling of
    them (ChildFetch.v), against what a page should see: each response's head, then
    its bytes in order, then its end - told as they come where the request asked for
    that, or kept whole. *)

From Stdlib Require Import Strings.Byte.
From S2P Require Import Prelude Text Limits Words Protocol WebStorage Wire PayloadFields FetchRequest Csp DevicePayloads StatePayloads Transfers DocumentPayloads FetchPayloads InputPayloads BulkTransfers Messages FetchFlow StateUpdates Outbound ChildState ChildFetch Broker DocumentTransfer BrokerTheory.

(** ** What the page should see *)
Record Responses := mkResponses {
  rs_open : gmap u64 (FetchResponseHead * list byte); rs_finished : gmap u64 BrowserFetchResponse }.
Definition event_about (e : FetchStreamEvent) : option (DocumentId * u64) :=
  match e with
  | StreamStart d head => Some (d, rsh_request_id head)
  | StreamChunk d chunk => Some (d, tc_transfer_id chunk)
  | StreamEnd d stop => Some (d, rse_request_id stop)
  | StreamAbort d abort => Some (d, rsa_request_id abort)
  | _ => None
  end.
Section page.
Context (delivery : u64 -> Delivery).
Definition told (id : u64) (x : ScriptFetchDelivery) : option ScriptFetchDelivery :=
  match delivery id with Streaming => Some x | Buffered => None end.
Definition finished (id : u64) (r : BrowserFetchResponse) (sp : Responses) : Responses :=
  mkResponses (delete id (rs_open sp))
    (match delivery id with Buffered => <[id := r]> (rs_finished sp) | Streaming => rs_finished sp end).
Definition page_step (e : FetchStreamEvent) (sp : Responses) : Responses * option ScriptFetchDelivery :=
  match e with
  | StreamStart d head =>
      let id := rsh_request_id head in
      (mkResponses (<[id := (head, [])]> (rs_open sp)) (rs_finished sp), told id (DeliverHead d head))
  | StreamChunk d chunk =>
      let id := tc_transfer_id chunk in
      (mkResponses (alter (fun hl => (hl.1, hl.2 ++ tc_bytes chunk)) id (rs_open sp)) (rs_finished sp),
       told id (DeliverChunk d id (tc_bytes chunk)))
  | StreamEnd d stop =>
      let id := rse_request_id stop in
      match rs_open sp !! id with
      | Some (head, body) => (finished id (mkBrowserResponse head body) sp, told id (DeliverEnd d id))
      | None => (sp, None)
      end
  | StreamAbort d abort =>
      let id := rsa_request_id abort in
      (finished id (mkBrowserResponse (mkResponseHead id (Failure (rsa_error abort))) []) sp,
       told id (DeliverAbort d id (rsa_error abort)))
  | _ => (sp, None)
  end.
Fixpoint page_run (es : list FetchStreamEvent) (sp : Responses) : Responses * list ScriptFetchDelivery :=
  match es with
  | [] => (sp, [])
  | e :: es => let (sp, o) := page_step e sp in let (sp, ds) := page_run es sp in (sp, option_list o ++ ds)
  end.
End page.

(** ** What the renderer does with the messages *)
Fixpoint fetch_messages (ms : list BrowserMessage) (s : FetchState) : Fetched (list ScriptFetchDelivery) :=
  match ms with
  | [] => (s, Ok [])
  | m :: ms =>
      match FetchState_handle m s with
      | (s, Err e) => (s, Err e)
      | (s, Ok o) => match fetch_messages ms s with
                     | (s, Ok ds) => (s, Ok (option_list o ++ ds))
                     | (s, Err e) => (s, Err e)
                     end
      end
  end.
(** The renderer's own limits on what it keeps whole. *)
Definition batches_bounded (s : FetchState) : Prop :=
  map_Forall (fun _ n => (n <= MAX_RENDERER_FETCH_BATCH_BODY_BYTES)%N) (fs_batch_bytes s).
Definition too_much (m : BrowserMessage) (s : FetchState) : Prop :=
  exists c t, m = BmFetchResponseChunk c /\ fs_requests s !! tc_transfer_id c = Some t /\ tr_delivery t = Buffered
    /\ ((MAX_RENDERER_FETCH_BATCH_BODY_BYTES < default 0 (fs_batch_bytes s !! tr_batch_id t))%N
        \/ (MAX_RESPONSE_BODY_BYTES < tc_offset c + len (tc_bytes c))%N).

(** ** The broker, the renderer and the page in step *)
Section step.
Context {Items : Type} (delivery : u64 -> Delivery) (d : DocumentId).
Local Abbreviation Broker := (@Broker Items).
Definition in_step (b : Broker) (s : FetchState) (sp : Responses) (id : u64) : Prop :=
  match br_outgoing b !! id, br_streaming b !! id with
  | Some o, None =>
      exists t head body, fs_requests s !! id = Some t /\ tr_document t = d /\ tr_delivery t = delivery id
        /\ rs_open sp !! id = Some (head, body) /\ rs_finished sp !! id = None
        /\ of_offset o = len body /\ (len body <= response_limit (of_streaming o))%N
        /\ fs_completed s !! id = None
        /\ match delivery id with
           | Streaming => fs_streaming s !! id = Some (len body) /\ fs_buffered s !! id = None
           | Buffered => fs_streaming s !! id = None
               /\ fs_buffered s !! id = Some (mkBuffered head (mkStreaming id (to_word u64_max MAX_RESPONSE_BODY_BYTES) body))
               /\ (len body <= MAX_RESPONSE_BODY_BYTES)%N
           end
  | None, Some _ =>
      exists t, fs_requests s !! id = Some t /\ tr_document t = d /\ tr_delivery t = delivery id
        /\ rs_finished sp !! id = None
        /\ fs_completed s !! id = None /\ fs_streaming s !! id = None /\ fs_buffered s !! id = None
  | None, None => forall r, rs_finished sp !! id = Some r -> fs_completed s !! id = Some r
  | Some _, Some _ => False
  end.
(** The other requests are left alone. *)
Definition apart (id : u64) (b b' : Broker) (s s' : FetchState) (sp sp' : Responses) : Prop :=
  forall j, j <> id ->
  br_outgoing b' !! j = br_outgoing b !! j /\ br_streaming b' !! j = br_streaming b !! j
  /\ fs_requests s' !! j = fs_requests s !! j /\ fs_completed s' !! j = fs_completed s !! j
  /\ fs_streaming s' !! j = fs_streaming s !! j /\ fs_buffered s' !! j = fs_buffered s !! j
  /\ rs_open sp' !! j = rs_open sp !! j /\ rs_finished sp' !! j = rs_finished sp !! j.
Lemma in_step_apart (id j : u64) (b b' : Broker) (s s' : FetchState) (sp sp' : Responses) :
  apart id b b' s s' sp sp' -> j <> id -> in_step b s sp j -> in_step b' s' sp' j.
Proof.
  intros H Hj. destruct (H j Hj) as (H1 & H2 & H3 & H4 & H5 & H6 & H7 & H8). unfold in_step.
  by rewrite H1, H2, H3, H4, H5, H6, H7, H8.
Qed.

(** What forwarding one event did to the broker. *)
Definition forwards (m : BrowserMessage) (outgoing : gmap u64 OutgoingFetch) (streaming : gmap u64 bool) (b b' : Broker) : Prop :=
  ob_messages (br_writer b') = ob_messages (br_writer b) ++ [m] /\ br_active b' = br_active b
  /\ br_outgoing b' = outgoing /\ br_streaming b' = streaming.
Lemma send_forwards (m : BrowserMessage) (outgoing : gmap u64 OutgoingFetch) (streaming : gmap u64 bool) (b b1 b' : Broker) (u : ()) :
  br_writer b1 = br_writer b -> br_active b1 = br_active b -> br_outgoing b1 = outgoing -> br_streaming b1 = streaming ->
  send_out m b1 = (b', Ok u) -> forwards m outgoing streaming b b'.
Proof. intros Hw Ha Ho Hs (w & Hm & ->)%send_out_Ok. unfold forwards. simpl. by rewrite Hm, Hw. Qed.
Lemma is_active_some (b : Broker) : br_active b = Some d -> is_active b d = true.
Proof. intros H. unfold is_active. by rewrite bool_decide_eq_true_2. Qed.
Lemma forward_start_Ok (head : FetchResponseHead) (b b' : Broker) (u : ()) :
  br_active b = Some d -> forward_start d head b = (b', Ok u) ->
  let id := rsh_request_id head in
  (id =? 0)%N = false /\ br_outgoing b !! id = None /\ exists streaming body, br_streaming b !! id = Some streaming
    /\ forwards (BmFetchResponseStart head) (<[id := mkOutgoing 0 body streaming]> (br_outgoing b)) (delete id (br_streaming b)) b b'.
Proof.
  intros Ha. unfold forward_start. rewrite (is_active_some b Ha). cbn [negb]. unfold has_key.
  destruct (rsh_request_id head =? 0)%N; [done|]. destruct (br_outgoing b !! _) as [|] eqn:Ho; [done|]. cbn [orb].
  destruct (br_streaming b !! _) as [streaming|] eqn:Hs; [|done].
  intros H. apply and_then_Ok in H as (b1 & [] & (w & Hm & ->)%send_out_Ok & [= <-]). split_and!; [done|done|].
  eexists streaming, _. split; [done|]. unfold forwards. simpl. by rewrite Hm.
Qed.
Lemma forward_chunk_Ok (chunk : TransferChunk) (b b' : Broker) (u : ()) :
  br_active b = Some d -> forward_chunk d chunk b = (b', Ok u) ->
  let id := tc_transfer_id chunk in let next := (tc_offset chunk + len (tc_bytes chunk))%N in
  exists o, br_outgoing b !! id = Some o /\ val (tc_offset chunk) = of_offset o
    /\ (next <= response_limit (of_streaming o))%N
    /\ forwards (BmFetchResponseChunk chunk) (<[id := mkOutgoing next (of_allows_body o) (of_streaming o)]> (br_outgoing b))
         (br_streaming b) b b'.
Proof.
  intros Ha. unfold forward_chunk. rewrite (is_active_some b Ha). cbn [negb].
  destruct (br_outgoing b !! _) as [o|] eqn:Ho; [|done]. destruct (checked_add _ _) as [next|] eqn:Hadd; [|done].
  destruct (_ || _ || _ || _ || _) eqn:E; [done|]. rewrite !orb_false_iff in E. destruct E as ((((_ & Hoff) & _) & _) & Hlim).
  apply negb_false_iff, N.eqb_eq in Hoff. apply N.ltb_ge in Hlim. unfold checked_add in Hadd.
  destruct (_ <=? _)%N in Hadd; [|done]. injection Hadd as <-. rewrite <- Hoff in *. intros H. exists o.
  split_and!; [done|done|done|]. by eapply send_forwards in H.
Qed.
Lemma retire_flow_same (id : u64) (b b1 : Broker) :
  retire_flow d id b = Some b1 ->
  br_writer b1 = br_writer b /\ br_active b1 = br_active b /\ br_outgoing b1 = br_outgoing b /\ br_streaming b1 = br_streaming b.
Proof. unfold retire_flow. destruct (FetchFlow_retire _ _ _); [|done]. by intros [= <-]. Qed.
Lemma forward_end_Ok (stop : FetchResponseEnd) (b b' : Broker) (u : ()) :
  br_active b = Some d -> forward_end d stop b = (b', Ok u) ->
  let id := rse_request_id stop in
  exists o, br_outgoing b !! id = Some o /\ of_offset o = val (rse_total_length stop)
    /\ forwards (BmFetchResponseEnd stop) (delete id (br_outgoing b)) (br_streaming b) b b'.
Proof.
  intros Ha. unfold forward_end. destruct (retire_flow _ _ _) as [b1|] eqn:Hr; [|done].
  apply retire_flow_same in Hr as (Hw & Hb & Ho & Hs). rewrite is_active_some by congruence. cbn [negb]. rewrite Ho.
  destruct (br_outgoing b !! _) as [o|]; [|done]. destruct (negb _) eqn:E; [done|]. apply negb_false_iff, N.eqb_eq in E.
  intros H. exists o. split_and!; [done|done|]. eapply send_forwards in H; [exact H|simpl; congruence..].
Qed.
Lemma forward_abort_Ok (abort : FetchResponseAbort) (b b' : Broker) (u : ()) :
  br_active b = Some d -> forward_abort d abort b = (b', Ok u) ->
  let id := rsa_request_id abort in
  exists o, br_outgoing b !! id = Some o
    /\ forwards (BmFetchResponseAbort abort) (delete id (br_outgoing b)) (br_streaming b) b b'.
Proof.
  intros Ha. unfold forward_abort. destruct (retire_flow _ _ _) as [b1|] eqn:Hr; [|done].
  apply retire_flow_same in Hr as (Hw & Hb & Ho & Hs). rewrite is_active_some by congruence. cbn [negb]. unfold has_key. rewrite Ho.
  destruct (br_outgoing b !! _) as [o|]; [|done].
  intros H. exists o. split; [done|]. eapply send_forwards in H; [exact H|simpl; congruence..].
Qed.

(** What the renderer makes of the message. *)
Definition simulated (m : BrowserMessage) (e : FetchStreamEvent) (id : u64) (b b' : Broker) (s : FetchState) (sp : Responses) : Prop :=
  match FetchState_handle m s with
  | (s', Ok o) =>
      o = (page_step delivery e sp).2 /\ batches_bounded s' /\ in_step b' s' (page_step delivery e sp).1 id
      /\ apart id b b' s s' sp (page_step delivery e sp).1
  | (s', Err _) => too_much m s'
  end.
Lemma cleanup_same (batch_id : u64) (s : FetchState) :
  let s' := cleanup_batch batch_id s in
  fs_requests s' = fs_requests s /\ fs_completed s' = fs_completed s /\ fs_streaming s' = fs_streaming s
  /\ fs_buffered s' = fs_buffered s /\ (batches_bounded s -> batches_bounded s').
Proof.
  unfold cleanup_batch. destruct (existsb _ _); [by split_and!|]. split_and!; try done. unfold batches_bounded. simpl.
  intros H. by apply map_Forall_delete.
Qed.
Lemma count_bytes_spec (batch_id : u64) (n : N) (s : FetchState) :
  batches_bounded s -> (n <= MAX_RENDERER_FETCH_STREAM_BYTES)%N ->
  exists bytes, let s' := set_batch_bytes bytes s in
  (count_bytes batch_id n s = (s', Ok tt) /\ batches_bounded s')
  \/ (exists e, count_bytes batch_id n s = (s', Err e)) /\ (MAX_RENDERER_FETCH_BATCH_BODY_BYTES < default 0 (fs_batch_bytes s' !! batch_id))%N.
Proof.
  intros Hs Hn. unfold count_bytes.
  assert (Hr : (default 0 (fs_batch_bytes s !! batch_id) <= MAX_RENDERER_FETCH_BATCH_BODY_BYTES)%N).
  { destruct (fs_batch_bytes s !! batch_id) as [r|] eqn:E; simpl; [by apply (Hs batch_id r)|lia]. }
  unfold MAX_RENDERER_FETCH_BATCH_BODY_BYTES, MAX_RENDERER_FETCH_STREAM_BYTES in *.
  rewrite checked_add_le by (unfold u64_max; lia).
  exists (<[batch_id := (default 0%N (fs_batch_bytes s !! batch_id) + n)%N]>
           (<[batch_id := default 0%N (fs_batch_bytes s !! batch_id)]> (fs_batch_bytes s))).
  destruct (N.ltb_spec (32 * 1024 * 1024) (default 0%N (fs_batch_bytes s !! batch_id) + n)) as [Hgt|Hle].
  - right. split; [by eexists|]. simpl. by rewrite lookup_insert_eq.
  - left. split; [done|]. unfold batches_bounded. simpl. apply map_Forall_insert_2; [done|]. by apply map_Forall_insert_2.
Qed.
Lemma handled (m : BrowserMessage) (id : u64) (t : TrackedRequest) (s : FetchState) :
  response_id m = Some id -> fs_requests s !! id = Some t ->
  FetchState_handle m s = match m with
                          | BmFetchResponseStart head => fetch_start head s
                          | BmFetchResponseChunk chunk => fetch_chunk chunk s
                          | BmFetchResponseEnd stop => fetch_end stop s
                          | BmFetchResponseAbort abort => fetch_abort abort s
                          | _ => unexpected "non-Fetch message reached the Fetch assembler" s
                          end.
Proof. intros H Ht. unfold FetchState_handle. rewrite H, Ht. cbn [has negb]. by rewrite andb_false_r. Qed.

(** Looking up what was just inserted, deleted or left alone. *)
Ltac looks := simpl; repeat first
  [ rewrite lookup_insert_eq | rewrite lookup_delete_eq | rewrite lookup_insert_ne by congruence
  | rewrite lookup_delete_ne by congruence | rewrite lookup_alter_eq | rewrite lookup_alter_ne by congruence ].
Lemma start_simulated (head : FetchResponseHead) (b b' : Broker) (s : FetchState) (sp : Responses) (u : ()) :
  let id := rsh_request_id head in
  br_active b = Some d -> batches_bounded s -> in_step b s sp id -> forward_start d head b = (b', Ok u) ->
  simulated (BmFetchResponseStart head) (StreamStart d head) id b b' s sp.
Proof.
  intros id Ha Hs Hin H. apply forward_start_Ok in H as (Hid & Ho & streaming & body & Hst & _ & Ha' & Ho' & Hs'); [|done].
  unfold in_step in Hin. fold id in Ho, Hst, Hid. rewrite Ho, Hst in Hin. destruct Hin as (t & Ht & Hd & Hdel & Hf & Hc & Hstr & Hbuf).
  unfold simulated. rewrite (handled _ id t) by done. unfold fetch_start. fold id. rewrite Ht, Hc, Hbuf, Hstr. cbn [has orb].
  rewrite Hdel. fold id in Ho', Hs'. destruct (delivery id) eqn:E.
  - unfold StreamingTransferAssembler_new. rewrite Hid. cbn [page_step fst snd]. fold id. unfold told. rewrite E.
    split_and!; [done|done| |].
    + unfold in_step. rewrite Ho', Hs'. looks. exists t, head, []. rewrite E. split_and!; first [done|apply N.le_0_l].
    + intros j Hj. rewrite Ho', Hs'. looks. by split_and!.
  - cbn [page_step fst snd]. fold id. unfold told. rewrite E, Hd. split_and!; [done|done| |].
    + unfold in_step. rewrite Ho', Hs'. looks. exists t, head, []. rewrite E. split_and!; first [done|apply N.le_0_l].
    + intros j Hj. rewrite Ho', Hs'. looks. by split_and!.
Qed.
Lemma response_limit_le (streaming : bool) : (response_limit streaming <= MAX_RENDERER_FETCH_STREAM_BYTES)%N.
Proof. destruct streaming; unfold response_limit, MAX_RESPONSE_BODY_BYTES, MAX_RENDERER_FETCH_STREAM_BYTES; lia. Qed.
Lemma chunk_simulated (chunk : TransferChunk) (b b' : Broker) (s : FetchState) (sp : Responses) (u : ()) :
  let id := tc_transfer_id chunk in
  br_active b = Some d -> batches_bounded s -> in_step b s sp id -> forward_chunk d chunk b = (b', Ok u) ->
  simulated (BmFetchResponseChunk chunk) (StreamChunk d chunk) id b b' s sp.
Proof.
  intros id Ha Hs Hin H. apply forward_chunk_Ok in H as (o & Ho & Hoff & Hlim & _ & Ha' & Ho' & Hs'); [|done].
  unfold in_step in Hin. fold id in Ho, Ho'. rewrite Ho in Hin. destruct (br_streaming b !! id) eqn:Hst; [done|].
  destruct Hin as (t & head & body & Ht & Hd & Hdel & Hopen & Hf & Hlen & _ & Hc & Hrest).
  pose proof (response_limit_le (of_streaming o)) as Hmax.
  unfold simulated. rewrite (handled _ id t) by done. unfold fetch_chunk. fold id. rewrite Ht, Hdel.
  cbn [page_step fst snd]. fold id. destruct (delivery id) eqn:E; unfold told; rewrite E.
  - destruct Hrest as (Hstr & Hbuf & Hbody).
    destruct (count_bytes_spec (tr_batch_id t) (len (tc_bytes chunk)) s Hs) as (bytes & [[-> Hs1]|[[e ->] Hover]]); [lia| |].
    + cbn [set_batch_bytes fs_buffered]. rewrite Hbuf. cbn [bu_body bu_head].
      destruct (StreamingTransferAssembler_push _ chunk) as [a [v|e]] eqn:Hpush.
      * apply stream_push_accepts in Hpush as (_ & _ & Hfit & ->). cbn [sta_bytes sta_maximum sta_transfer_id] in *.
        rewrite val_to_word in Hfit by (unfold MAX_RESPONSE_BODY_BYTES, u64_max; lia).
        split_and!; [done|done| |].
        -- unfold in_step. rewrite Ho', Hs'. looks. rewrite Hst, Hopen. exists t, head, (body ++ tc_bytes chunk). rewrite E. rewrite len_app in Hfit |- *.
           split_and!; try done; cbn [of_offset of_streaming]; lia.
        -- intros j Hj. rewrite Ho', Hs'. looks. by split_and!.
      * exists chunk, t. cbn. split_and!; [done|done|congruence|]. right. apply N.lt_nge. intros Hle.
        enough (exists x, StreamingTransferAssembler_push (mkStreaming id (to_word u64_max MAX_RESPONSE_BODY_BYTES) body) chunk = (x, Ok tt))
          as (x & Hx) by (rewrite Hx in Hpush; done).
        eexists. apply stream_push_accepts. cbn [sta_bytes sta_maximum sta_transfer_id]. rewrite len_app.
        rewrite val_to_word by (unfold MAX_RESPONSE_BODY_BYTES, u64_max; lia). split_and!; [done|lia|lia|done].
    + exists chunk, t. cbn. split_and!; [done|done|congruence|]. by left.
  - destruct Hrest as (Hstr & Hbuf). rewrite Hstr, Hoff, Hlen, N.eqb_refl. cbn [negb]. unfold u32_checked_add.
    unfold MAX_RENDERER_FETCH_STREAM_BYTES in *. rewrite N.mod_small by lia. replace (_ <=? 4294967295)%N with true by lia.
    split_and!; [by rewrite Hd|done| |].
    + unfold in_step. rewrite Ho', Hs'. looks. rewrite Hst, Hopen. exists t, head, (body ++ tc_bytes chunk). rewrite E, len_app.
      split_and!; try done; cbn [of_offset of_streaming]; try (f_equal; lia); lia.
    + intros j Hj. rewrite Ho', Hs'. looks. by split_and!.
Qed.

Lemma end_simulated (stop : FetchResponseEnd) (b b' : Broker) (s : FetchState) (sp : Responses) (u : ()) :
  let id := rse_request_id stop in
  br_active b = Some d -> batches_bounded s -> in_step b s sp id -> forward_end d stop b = (b', Ok u) ->
  simulated (BmFetchResponseEnd stop) (StreamEnd d stop) id b b' s sp.
Proof.
  intros id Ha Hs Hin H. apply forward_end_Ok in H as (o & Ho & Hoff & _ & Ha' & Ho' & Hs'); [|done].
  unfold in_step in Hin. fold id in Ho, Ho'. rewrite Ho in Hin. destruct (br_streaming b !! id) eqn:Hst; [done|].
  destruct Hin as (t & head & body & Ht & Hd & Hdel & Hopen & Hf & Hlen & Hlim & Hc & Hrest).
  pose proof (response_limit_le (of_streaming o)) as Hmax.
  unfold simulated. rewrite (handled _ id t) by done. unfold fetch_end. fold id. rewrite Ht, Hdel.
  cbn [page_step fst snd]. fold id. rewrite Hopen. cbn [fst snd]. unfold finished, told. destruct (delivery id) eqn:E.
  - destruct Hrest as (Hstr & Hbuf & Hbody). rewrite Hbuf. cbn [bu_body bu_head]. unfold StreamingTransferAssembler_finish.
    cbn [sta_transfer_id sta_bytes sta_maximum]. unfold MAX_RESPONSE_BODY_BYTES in *.
    rewrite !val_to_word by (unfold u64_max; pose proof (val_le (rse_total_length stop)); lia).
    rewrite <- Hoff, Hlen, !N.eqb_refl. replace (_ <? len body)%N with false by lia. cbn [negb orb].
    cbn [set_buffered fs_completed]. rewrite Hc. cbn [has]. split_and!; [done|done| |].
    + unfold in_step. rewrite Ho', Hs'. looks. rewrite Hst. intros r [= <-]. by looks.
    + intros j Hj. rewrite Ho', Hs'. looks. by split_and!.
  - destruct Hrest as (Hstr & Hbuf). rewrite Hstr. rewrite <- Hlen, Hoff, N.eqb_refl. cbn [negb].
    destruct (cleanup_same (tr_batch_id t) (set_requests (delete id (fs_requests (set_streaming (delete id (fs_streaming s)) s)))
      (set_streaming (delete id (fs_streaming s)) s))) as (H1 & H2 & H3 & H4 & H5).
    split_and!; [by rewrite Hd|by apply H5| |].
    + unfold in_step. rewrite Ho', Hs', H2. looks. rewrite Hst, Hf. done.
    + intros j Hj. rewrite Ho', Hs', H1, H2, H3, H4. looks. by split_and!.
Qed.
Lemma abort_simulated (abort : FetchResponseAbort) (b b' : Broker) (s : FetchState) (sp : Responses) (u : ()) :
  let id := rsa_request_id abort in
  br_active b = Some d -> batches_bounded s -> in_step b s sp id -> forward_abort d abort b = (b', Ok u) ->
  simulated (BmFetchResponseAbort abort) (StreamAbort d abort) id b b' s sp.
Proof.
  intros id Ha Hs Hin H. apply forward_abort_Ok in H as (o & Ho & _ & Ha' & Ho' & Hs'); [|done].
  unfold in_step in Hin. fold id in Ho, Ho'. rewrite Ho in Hin. destruct (br_streaming b !! id) eqn:Hst; [done|].
  destruct Hin as (t & head & body & Ht & Hd & Hdel & Hopen & Hf & Hlen & Hlim & Hc & Hrest).
  unfold simulated. rewrite (handled _ id t) by done. unfold fetch_abort. fold id. rewrite Ht, Hdel.
  cbn [page_step fst snd]. fold id. unfold finished, told. destruct (delivery id) eqn:E.
  - destruct Hrest as (Hstr & Hbuf & Hbody). rewrite Hbuf. cbn [set_buffered fs_completed]. rewrite Hc. cbn [has].
    split_and!; [done|done| |].
    + unfold in_step. rewrite Ho', Hs'. looks. rewrite Hst. intros r [= <-]. by looks.
    + intros j Hj. rewrite Ho', Hs'. looks. by split_and!.
  - destruct Hrest as (Hstr & Hbuf). rewrite Hstr.
    destruct (cleanup_same (tr_batch_id t) (set_requests (delete id (fs_requests (set_streaming (delete id (fs_streaming s)) s)))
      (set_streaming (delete id (fs_streaming s)) s))) as (H1 & H2 & H3 & H4 & H5).
    split_and!; [by rewrite Hd|by apply H5| |].
    + unfold in_step. rewrite Ho', Hs', H2. looks. rewrite Hst, Hf. done.
    + intros j Hj. rewrite Ho', Hs', H1, H2, H3, H4. looks. by split_and!.
Qed.

(** ** Any run of events *)
Definition about (ids : gset u64) (e : FetchStreamEvent) : Prop := exists id, id ∈ ids /\ event_about e = Some (d, id).
Lemma event_forwarded (e : FetchStreamEvent) (id : u64) (b b' : Broker) (u : ()) :
  event_about e = Some (d, id) -> br_active b = Some d -> process_fetch_stream_event e b = (b', Ok u) ->
  exists m, ob_messages (br_writer b') = ob_messages (br_writer b) ++ [m] /\ br_active b' = Some d
  /\ forall s sp, batches_bounded s -> in_step b s sp id -> simulated m e id b b' s sp.
Proof.
  intros He Ha H.
  destruct e as [d' x|d' x|d' x|d' x| | |]; try done; injection He as -> <-; cbn [process_fetch_stream_event] in H.
  - pose proof (forward_start_Ok x b b' u Ha H) as (_ & _ & ? & ? & _ & Hm & Ha' & _). eexists. split_and!; [exact Hm|congruence|].
    intros s sp Hs Hin. by apply (start_simulated x b b' s sp u).
  - pose proof (forward_chunk_Ok x b b' u Ha H) as (? & _ & _ & _ & Hm & Ha' & _). eexists. split_and!; [exact Hm|congruence|].
    intros s sp Hs Hin. by apply (chunk_simulated x b b' s sp u).
  - pose proof (forward_end_Ok x b b' u Ha H) as (? & _ & _ & Hm & Ha' & _). eexists. split_and!; [exact Hm|congruence|].
    intros s sp Hs Hin. by apply (end_simulated x b b' s sp u).
  - pose proof (forward_abort_Ok x b b' u Ha H) as (? & _ & Hm & Ha' & _). eexists. split_and!; [exact Hm|congruence|].
    intros s sp Hs Hin. by apply (abort_simulated x b b' s sp u).
Qed.
Context (describe : BrokerFailure -> ustring).
Lemma protocol_failure_exits (e : BrokerFailure) (b : Broker) : br_exit (protocol_failure describe e b) <> None.
Proof. unfold protocol_failure. by destruct (br_exit b) eqn:E; [rewrite E|]. Qed.
Lemma run_simulated (ids : gset u64) (es : list FetchStreamEvent) : forall b b' : Broker,
  br_active b = Some d -> Forall (about ids) es -> process_events describe es b = b' -> br_exit b' = None ->
  exists ms, ob_messages (br_writer b') = ob_messages (br_writer b) ++ ms /\ length ms = length es
  /\ forall s sp, batches_bounded s -> (forall id, id ∈ ids -> in_step b s sp id) ->
     match fetch_messages ms s with
     | (s', Ok ds) => ds = (page_run delivery es sp).2 /\ forall id, id ∈ ids -> in_step b' s' (page_run delivery es sp).1 id
     | (s', Err _) => exists m, m ∈ ms /\ too_much m s'
     end.
Proof.
  induction es as [|e es IH]; intros b b' Ha Hes Hrun Hexit.
  - simpl in Hrun. subst b'. exists []. rewrite app_nil_r. by split_and!.
  - apply Forall_cons in Hes as [(id & Hid & He) Hes]. cbn [process_events] in Hrun.
    destruct (process_fetch_stream_event e b) as [b1 [u|f]] eqn:Hf; [|subst b'; by apply protocol_failure_exits in Hexit].
    destruct (event_forwarded e id b b1 u He Ha Hf) as (m & Hm & Ha1 & Hsim).
    destruct (IH b1 b' Ha1 Hes Hrun Hexit) as (ms & Hms & Hlen & Hall). exists (m :: ms).
    split_and!; [by rewrite Hms, Hm, <- app_assoc|simpl; by rewrite Hlen|]. intros s sp Hs Hin.
    specialize (Hsim s sp Hs (Hin id Hid)). unfold simulated in Hsim. cbn [fetch_messages page_run].
    destruct (page_step delivery e sp) as [sp1 o1]. cbn [fst snd] in Hsim.
    destruct (FetchState_handle m s) as [s1 [o|err]]; [|exists m; by split; [left|]].
    destruct Hsim as (-> & Hs1 & Hin1 & Hap).
    assert (Hin' : forall j, j ∈ ids -> in_step b1 s1 sp1 j).
    { intros j Hj. destruct (decide (j = id)) as [->|Hne]; [done|]. by apply (in_step_apart id j b b1 s s1 sp sp1 Hap Hne), Hin. }
    specialize (Hall s1 sp1 Hs1 Hin'). destruct (fetch_messages ms s1) as [s2 [ds|err]].
    + destruct (page_run delivery es sp1) as [sp2 ds']. destruct Hall as [-> Hfin]. by split.
    + destruct Hall as (m' & Hm' & Htoo). exists m'. by split; [right|].
Qed.
End step.

(** ** From the batch on *)
Definition Responses_none : Responses := mkResponses ∅ ∅.
Definition delivery_in (s : FetchState) (id : u64) : Delivery :=
  match fs_requests s !! id with Some t => tr_delivery t | None => Buffered end.
Lemma register_tracks (d : DocumentId) (bid : u64) (rs : list (u64 * bool)) (id : u64) : forall m : gmap u64 TrackedRequest,
  (id ∈ rs.*1 \/ exists t, m !! id = Some t /\ tr_document t = d) ->
  exists t, foldl (fun (m : gmap u64 TrackedRequest) (r : u64 * bool) => <[r.1 := mkTracked d bid (if r.2 then Streaming else Buffered)]> m) m rs !! id = Some t
    /\ tr_document t = d.
Proof.
  induction rs as [|r rs IH]; intros m H; cbn [foldl].
  - destruct H as [[]%not_elem_of_nil|H]; done.
  - apply IH. destruct (decide (r.1 = id)) as [<-|Hne].
    + right. rewrite lookup_insert_eq. by eexists.
    + rewrite lookup_insert_ne by done. destruct H as [H|H]; [left|by right].
      rewrite fmap_cons in H. apply elem_of_cons in H as [->|H]; done.
Qed.
Lemma tracked_requests_from (stream : bool) (requests : list RendererFetchRequest) (id : u64) :
  id ∈ (tracked_requests stream requests).*1 -> exists r, r ∈ requests /\ request_id r = id.
Proof.
  intros (x & -> & H)%list_elem_of_fmap. unfold tracked_requests in H. apply list_elem_of_fmap in H as (r & -> & H).
  apply list_elem_of_filter in H as [_ H]. by exists r.
Qed.

(** What a batch starts with, on either side. *)
Definition fresh_for {Items : Type} (d : DocumentId) (requests : list RendererFetchRequest) (b : @Broker Items) (s : FetchState) : Prop :=
  br_active b = Some d /\ br_incoming_fetch b = None /\ batches_bounded s
  /\ forall r, r ∈ requests ->
     flow_requests (br_flow b) !! (d, request_id r) = None /\ br_streaming b !! request_id r = None
     /\ br_outgoing b !! request_id r = None /\ fs_completed s !! request_id r = None
     /\ fs_streaming s !! request_id r = None /\ fs_buffered s !! request_id r = None.
Lemma started_in_step {Items : Type} (stream : bool) (d : DocumentId) (requests : list RendererFetchRequest) (bid next : u64)
    (s s' : FetchState) (ms : list RendererMessage) (p : PendingFetchBatch) (b b' : @Broker Items) :
  start_fetch_batch stream d requests bid s = (next, s', Ok (Some (ms, p))) -> fresh_for d requests b s ->
  (forall r, r ∈ requests -> exists x, br_streaming b' !! request_id r = Some x) -> br_outgoing b' = br_outgoing b ->
  batches_bounded s' /\ forall id, id ∈ pe_expected p -> in_step (delivery_in s') d b' s' Responses_none id.
Proof.
  intros Hstart (_ & _ & Hs & Hfresh) Hstr Hout. unfold start_fetch_batch in Hstart.
  destruct requests as [|r0 rest] eqn:Hreq; [done|]. rewrite <- Hreq in *. destruct (_ || _); [done|].
  destruct (expect_all requests ∅) as [expected|]; [|done]. destruct (try_map (request_messages bid) requests) as [bodies|]; [|done].
  unfold FetchState_register in Hstart. destruct (existsb _ _); [done|]. injection Hstart as _ <- _ <-. cbn [pe_expected].
  match goal with |- batches_bounded ?x /\ _ => set (s1 := x) end.
  assert (H1 : fs_completed s1 = fs_completed s /\ fs_streaming s1 = fs_streaming s /\ fs_buffered s1 = fs_buffered s
    /\ batches_bounded s1 /\ forall id, id ∈ (tracked_requests stream requests).*1 ->
         exists t, fs_requests s1 !! id = Some t /\ tr_document t = d).
  { unfold s1. destruct (existsb _ _); split_and!; try done.
    - apply map_Forall_insert_2; [|done]. unfold MAX_RENDERER_FETCH_BATCH_BODY_BYTES. lia.
    - intros id Hid. apply register_tracks. by left.
    - intros id Hid. apply register_tracks. by left. }
  clearbody s1. destruct H1 as (Hc & Hst & Hbuf & Hb & Htr). split; [done|].
  intros id (_ & Hid%elem_of_list_to_set)%elem_of_intersection. destruct (Htr id Hid) as (t & Ht & Hd).
  apply tracked_requests_from in Hid as (r & Hr & <-). destruct (Hfresh r Hr) as (_ & _ & H1 & H2 & H3 & H4).
  destruct (Hstr r Hr) as (x & Hx). unfold in_step. rewrite Hout, H1, Hx, Hc, Hst, Hbuf. exists t. unfold delivery_in. rewrite Ht.
  by split_and!.
Qed.

(** C14. C. Fetches come back as the page should see them. Whatever the broker
    forwards for the requests of a batch it took - the responses interleaved in
    any way - the renderer tells its scripts exactly the heads, the bytes in their
    order and the ends that were forwarded, and keeps the responses it collects
    whole, byte for byte. It refuses a forwarded message in one case only: a
    collected response, or all those of a batch, outgrow the renderer's own limits,
    which the broker does not check. *)
Theorem fetches_answered {Presentation Items : Type} (decode_with_base : list byte -> option (u64 * Items) -> result ProtocolError Presentation)
    (presentation_document : Presentation -> DocumentId) (presentation_revision : Presentation -> u64)
    (presentation_items : Presentation -> Items) (with_micros : u64 -> u64 -> Presentation -> Presentation)
    (describe : BrokerFailure -> ustring) (micros : u64) (stream : bool) (d : DocumentId) (requests : list RendererFetchRequest)
    (bid next : u64) (s s' : FetchState) (ms : list RendererMessage) (p : PendingFetchBatch) (b : @Broker Items) :
  start_fetch_batch stream d requests bid s = (next, s', Ok (Some (ms, p))) -> (bid =? 0)%N = false ->
  within_budget requests -> fresh_for d requests b s ->
  exists b', document_run decode_with_base presentation_document presentation_revision presentation_items with_micros micros ms b
             = (b', Ok [EvFetchBatch d requests])
  /\ forall es b'', Forall (about d (pe_expected p)) es -> process_events describe es b' = b'' -> br_exit b'' = None ->
     exists sent, ob_messages (br_writer b'') = ob_messages (br_writer b') ++ sent /\ length sent = length es
     /\ let (sp, told) := page_run (delivery_in s') es Responses_none in
        match fetch_messages sent s' with
        | (s'', Ok ds) => ds = told
            /\ forall id r, id ∈ pe_expected p -> rs_finished sp !! id = Some r -> fs_completed s'' !! id = Some r
        | (s'', Err _) => exists m, m ∈ sent /\ too_much m s''
        end.
Proof.
  intros Hstart Hbid Hbudget Hfresh. pose proof Hfresh as (Ha & Hi & Hs & Hall).
  destruct (batch_outcome decode_with_base presentation_document presentation_revision presentation_items with_micros
    micros _ _ _ _ _ _ _ _ _ _ Hstart Hbid Ha Hi) as [Hyes _].
  { intros r Hr. by destruct (Hall r Hr) as (? & ? & _). }
  destruct (Hyes Hbudget) as (b' & Hrun & Hstr & Hout & Hact). exists b'. split; [done|]. intros es b'' Hes Hev Hexit.
  destruct (started_in_step stream d requests bid next s s' ms p b b' Hstart Hfresh) as [Hs' Hin]; [intros r Hr; eexists; by apply Hstr|done|].
  destruct (run_simulated (delivery_in s') d describe (pe_expected p) es b' b'' ltac:(congruence) Hes Hev Hexit) as (sent & Hm & Hl & Hsim).
  exists sent. split_and!; [done|done|]. specialize (Hsim s' Responses_none Hs' Hin).
  destruct (page_run (delivery_in s') es Responses_none) as [sp told]. destruct (fetch_messages sent s') as [s'' [ds|err]]; [|done].
  destruct Hsim as [-> Hfin]. split; [done|]. intros id r Hid Hr. specialize (Hfin id Hid). unfold in_step in Hfin. cbn [fst] in Hfin.
  destruct (br_outgoing b'' !! id), (br_streaming b'' !! id); [done| | |by apply Hfin]; naive_solver congruence.
Qed.

(** ** A concrete exchange *)
Definition messages_of (o : u64 * FetchState * result ChildError (option (list RendererMessage * PendingFetchBatch)))
    : list RendererMessage * gset u64 :=
  match o with (_, _, Ok (Some (ms, p))) => (ms, pe_expected p) | _ => ([], ∅) end.
Definition theory_start : u64 * FetchState * result ChildError (option (list RendererMessage * PendingFetchBatch)) :=
  start_fetch_batch true theory_document theory_batch (to_word u64_max 1) FetchState_default.
Definition theory_head (id : N) : FetchResponseHead :=
  mkResponseHead (to_word u64_max id) (Success TypeBasic [] (to_word 65535 200) []).
Definition theory_chunk (id offset : N) (l : list byte) : FetchStreamEvent :=
  StreamChunk theory_document (mkChunk (to_word u64_max id) (to_word 4294967295 offset) l).
Definition theory_events : list FetchStreamEvent :=
  [ StreamStart theory_document (theory_head 1); StreamStart theory_document (theory_head 2); theory_chunk 1 0 [x68; x69];
    theory_chunk 2 0 [x61]; StreamEnd theory_document (mkResponseEnd (to_word u64_max 2) (to_word 4294967295 1));
    theory_chunk 1 2 [x21]; StreamEnd theory_document (mkResponseEnd (to_word u64_max 1) (to_word 4294967295 3)) ].
Definition theory_run (ms : list RendererMessage) : @Broker () * result BrokerFailure (list (@RendererEvent ())) :=
  document_run nothing_decodes (fun _ => theory_document) (fun _ => to_word u64_max 0) (fun _ => tt) (fun _ _ p => p)
    (to_word u64_max 0) ms theory_broker.
Lemma fetches_answered_witness :
  exists next s' ms p b', theory_start = (next, s', Ok (Some (ms, p))) /\ theory_run ms = (b', Ok [EvFetchBatch theory_document theory_batch])
  /\ exists sent, length sent = 7%nat
  /\ ob_messages (br_writer (process_events (fun _ => Str "failed" eq_refl) theory_events b')) = ob_messages (br_writer b') ++ sent
  /\ let (sp, told) := page_run (delivery_in s') theory_events Responses_none in
     match fetch_messages sent s' with
     | (s'', Ok ds) => ds = told
         /\ forall id r, id ∈ pe_expected p -> rs_finished sp !! id = Some r -> fs_completed s'' !! id = Some r
     | (s'', Err _) => exists m, m ∈ sent /\ too_much m s''
     end.
Proof.
  assert (Hsent : messages_sent theory_start = 7%nat) by (vm_compute; reflexivity).
  assert (Hexit : br_exit (process_events (fun _ => Str "failed" eq_refl) theory_events (theory_run (messages_of theory_start).1).1) = None)
    by (vm_compute; reflexivity).
  assert (Hids : forallb (fun id => bool_decide (id ∈ (messages_of theory_start).2)) [to_word u64_max 1; to_word u64_max 2] = true)
    by (vm_compute; reflexivity).
  destruct theory_start as [[next s'] [[[ms p]|]|]] eqn:E; [|discriminate Hsent|discriminate Hsent].
  destruct (fetches_answered nothing_decodes (fun _ => theory_document) (fun _ => to_word u64_max 0) (fun _ => tt)
    (fun _ _ p => p) (fun _ => Str "failed" eq_refl) (to_word u64_max 0) true theory_document theory_batch (to_word u64_max 1) next
    FetchState_default s' ms p theory_broker E) as (b' & Hrun & Hev).
  - vm_compute. reflexivity.
  - vm_compute. split; discriminate.
  - split_and!; [reflexivity|reflexivity|apply map_Forall_empty|]. intros r _. unfold theory_broker, FetchState_default.
    cbn [br_flow br_streaming br_outgoing flow_requests FetchFlow_default fs_completed fs_streaming fs_buffered]. split_and!; apply lookup_empty.
  - exists next, s', ms, p, b'. split; [reflexivity|]. split; [exact Hrun|].
    cbn [messages_of fst snd] in Hexit, Hids. unfold theory_run in Hexit. rewrite Hrun in Hexit. cbn [fst] in Hexit.
    assert (Habout : Forall (about theory_document (pe_expected p)) theory_events).
    { cbn [forallb] in Hids. rewrite !andb_true_iff, !bool_decide_eq_true in Hids. destruct Hids as (H1 & H2 & _).
      repeat (apply Forall_cons; split; [first [exists (to_word u64_max 1); by split|exists (to_word u64_max 2); by split]|]). by apply Forall_nil. }
    destruct (Hev theory_events _ Habout eq_refl Hexit) as (sent & Hm & Hl & Hd). exists sent. by split_and!.
Defined.
